(* ===== verification/_CoqProject ===== *)
-Q . S2P
Prelude.v
Number.v
Json.v
IsoTime.v
CanonicalJson.v
ReviewQueue.v
TestPlan.v
Investigation.v
AppTarget.v
RunnerProtocol.v
ExecutionBudget.v
PolicyGate.v
ExecutionRuntime.v
RunnerControl.v
LeaseSafety.v
PostgresRunnerControl.v
TraceIngest.v
RunnerSpool.v
TraceDelivery.v
Interact.v
ArtifactUpload.v
ArtifactSafety.v
ArtifactProgress.v
Exploration.v
ExplorationAuthority.v
ExplorationSafety.v
ExplorationSample.v
Skill.v
SkillLifecycle.v
SkillSafety.v
SkillSample.v
Regex.v
Observation.v
ObservationSafety.v
ObservationCanonical.v
ObservationHash.v
VisibleText.v
SkillReplay.v
ReplaySafety.v
ObservationConsumer.v
ConsumerSafety.v
ObservationSample.v
Evidence.v
EvidenceTables.v
EvidenceSafety.v
EvidenceRules.v
EvidenceProperties.v
EvidenceProgress.v
EvidenceSample.v
Quotient.v
Detection.v
DetectionMetrics.v
DetectionProperties.v
DetectionManifest.v
DetectionSample.v
Intelligence.v
IntelligenceQueue.v
ResultConsumer.v
ResultLoop.v
QueueSafety.v
ResultSafety.v
ResultProperties.v
WakeupSafety.v
ResultPoison.v
ResultSample.v
Coordinator.v
CoordinatorSafety.v
