(* ===== verification/Prelude.v ===== *)
(** * Qualigence: verification of the deterministic execution core

    Qualigence tests applications: a server plans jobs and keeps their results,
    runners carry the jobs out on a browser or a desktop, and people review what
    was found.  The models it consults are not trusted; what keeps it safe is
    the deterministic code around them, and that is what this library models.
    Paths are relative to [src/].

    ** The parts and where they are

    From the job to its result, in the order of the data:
    - [Number], [Json], [IsoTime], [CanonicalJson]: JavaScript's numbers, JSON
      values and their strict parsing, ISO instants, canonical text.
    - [TestPlan]: the aggregate of a plan and its approval
      ([core-modules/mission/src/domain/test-plan-revision.ts]).
    - [RunnerProtocol], [AppTarget]: the job a runner receives, and its parser
      ([contracts/runner-protocol/src/index.ts], [contracts/desktop/src/app-target.ts]).
    - [RunnerControl], [LeaseSafety], [PostgresRunnerControl]: who may run a job.
      Leases, completions and resume tokens, the services over them, their safety
      among concurrent callers, and the PostgreSQL twin of the store
      ([core-application/src/runner], [sqlite-runner-control-store.ts],
      [postgres-runner-control-store.ts]).
    - [ExecutionBudget], [PolicyGate], [ExecutionRuntime]: how a job is run.  The
      runtime composes the budget and the gate with the injected dependencies
      ([runner-kernel/src]).
    - [RunnerSpool], [TraceDelivery], [TraceIngest]: how the trace reaches the
      server.  The recorder appends to the spool, the pump submits what the spool
      holds, the session service ingests it ([runner-components/runner-spool/src],
      [apps/runner/src], [core-application/src/runner/runner-session-service.ts],
      [sqlite-trace-store.ts]).
    - [ArtifactUpload], [ArtifactSafety], [ArtifactProgress]: how the bytes of an
      artifact reach it, in chunks that may be lost, repeated or reordered
      ([core-application/src/evidence/artifact-upload-service.ts],
      [postgres-artifact-upload-store.ts], [local-artifact-store.ts]).
    - [Evidence], [EvidenceTables], [EvidenceSafety], [EvidenceRules],
      [EvidenceProperties], [EvidenceProgress], [EvidenceSample]: who may read a
      stored artifact and how it is erased.  The two lifecycle services, their
      store, the checks of the key service and the routes over them
      ([core-modules/evidence/src/lifecycle-service.ts],
      [postgres-evidence-lifecycle-store.ts], [postgres-self-hosted-kms-key-store.ts],
      [apps/server/src/routes/evidence.ts]).  [EvidenceTables] has the lemmas of the
      statements, [EvidenceSafety] the invariant and the calls that keep it,
      [EvidenceRules] shows that every request makes only those.
    - [ReviewQueue], [Investigation]: what people and agents do with a finding
      ([core-modules/review/src], [core-modules/investigation/src]).
    - [Intelligence], [Coordinator], [CoordinatorSafety]: what a model may propose of
      it.  The contracts of a job and its result, the deterministic gate in front of
      the aggregate, and an investigation in memory over both
      ([core-modules/intelligence/src], [core-modules/investigation/src/application]).
      The gate works on a class of ports, which the coordinator and the server
      implement.
    - [IntelligenceQueue], [ResultConsumer], [ResultLoop]: the same gate on the
      server.  The queue of the workers with the database functions under it, the
      transaction that decides a batch of results, and the loop that is woken by them
      ([core-application/src/intelligence], [postgres-runtime/src/migrations/row-level-security.ts],
      [apps/server/src/intelligence-result-consumer-loop.ts]).  [QueueSafety],
      [ResultSafety], [ResultProperties] and [WakeupSafety] keep their invariants,
      [ResultPoison] shows how a tenant can stop, [ResultSample] has the runs.
    - [Exploration], [ExplorationAuthority], [ExplorationSafety],
      [ExplorationSample]: a model explores an application within a policy and a
      budget, resumable over a durable record ([runner-components/exploration/src]).
    - [Skill], [SkillLifecycle], [SkillSafety], [SkillSample]: recorded procedures,
      their verification and their promotion ([core-modules/skill/src],
      [sqlite-skill-store.ts]).
    - [Regex], [Observation], [ObservationSafety], [ObservationCanonical],
      [ObservationHash]: what a target shows, as a graph that the validator
      accepts, and its canonical text and hash ([contracts/observation/src]).
    - [VisibleText], [ObservationConsumer], [ConsumerSafety]: what an exploration
      makes of such a graph, the prompt of the model and the fingerprint of the
      state, and the exploration composed with the validator
      ([runner-components/exploration/src/observation-v1-consumer.ts]).
    - [SkillReplay], [ReplaySafety]: the replay of a signed Skill on a live target
      and the regression jobs over it ([runner-components/skill-replay/src],
      [runner-components/exploration/src/regression-job.ts]).
    - [ObservationSample]: a graph of a shop, and the witnesses on it.
    - [Quotient], [Detection], [DetectionMetrics], [DetectionProperties],
      [DetectionManifest], [DetectionSample]: the benchmark of what a release
      detects.  The parsers of its manifest and ground truth, the scorer and the
      gate ([benchmarking/detection/src]); [Quotient] compares the binary64
      quotients of counts with decimal literals.

    ** How the code is read

    - A method that mutates fields and may throw is a [js] computation: a throw
      keeps what was assigned before it, and [transaction] undoes it as a
      database does.  [wp] is its weakest precondition.
    - A method that awaits the outside is a [prog] of [Interact], the tree of its
      calls; any answer is possible, a rejection included.  [sched] interleaves
      any number of such programs over one store, and each may stop for good at
      any call, which is a crash.  The services of [RunnerControl] have a
      program type of their own, with the same reading, and [ExecutionRuntime]
      calls its dependencies through a world that they may change.
    - A transaction or a single statement of a store is one atomic step.  SQLite
      takes its write lock when a transaction begins ([BEGIN IMMEDIATE]), and
      that step may be answered as busy.
    - A database function of the intelligence queue is one atomic step as well, and
      so is one turn of the trace pump ([pumpOnce]): the recorder appends between
      turns, not within one.
    - A stored JSON text is kept as the value it parses to, except where the code
      parses it again with the strict parser.
    - A number that the code only counts with is [Z]; where a fraction, a
      rounding, an infinity or a NaN can reach it ([ExecutionBudget],
      [Investigation], the parsers) it is a binary64 value of [Number].

    ** What the theorems say

    - Safety of what is executed: [executions_authorized],
      [explored_actions_authorized], [explored_nodes_sound],
      [replay_actions_justified], [permit_binds_action],
      [unknown_outcome_reported].
    - What a model changes: [applied_results_justified], [one_result_per_job],
      [pending_result_is_due], [investigation_decided].
    - What is observed: [valid_graph_sound], [valid_graph_has_hash],
      [canonical_text_order], [fingerprint_ignores_ids], [prompt_hides_secrets].
    - Nothing twice, nothing lost: [run_ends_once], [completion_unique],
      [steps_executed_once], [command_carried_out_once], [trace_never_lost],
      [ack_is_durable], [acknowledged_artifact_stored], [redeem_replay],
      [second_claimant_loses], [command_idempotent].
    - Evidence: [erasure_after_revocation], [plaintext_read_audited],
      [erased_is_unreadable], [deleted_means_erased], [deletion_completes].
    - Results mean what they say: [passed_accomplished], [conclusions_justified],
      [regression_passed_accomplished], [promotion_justified], [evaluation_passes_iff], [parse_job_sound].
    - The release gate: [gate_passed_iff], [score_order].
    - Histories of stored data: [lease_history], [trace_history], [task_history],
      [command_lifecycle], [skill_moves_forward].
    - Bounds and ends: [steps_bounded], [deadline_final], [spool_keeps_trace],
      [controllers_finish], [drain_delivers], [upload_completes].
    - Refinement and round trips: [postgres_tenant_is_sqlite],
      [claim_handler_refines_domain], [resolve_handler_refines_domain],
      [parse_job_roundtrip], [lease_secret_roundtrip], [manifest_roundtrip].
    - Where the code falls short of its comments: [foreign_trace_accepted],
      [finding_lost_on_retry], [recovery_of_completed_run], [regression_masked],
      [consumer_allows_any_key], [erasure_race],
      [proto_scenario_unchecked], [poison_result_blocks].

    ** Bounds and fuel

    The [while] loops that are not structural take fuel.  [drain] has one round
    per spooled event and one more, and [drain_delivers] proves that this is
    enough; [explore] has one round more than the step budget, and
    [controllers_finish] proves that it never runs out.  [missingRanges] has one
    round per chunk of the file and one more, since every round moves the offset
    by a chunk at least.  An investigation has one round per plan revision, as its loop.  The parser of a job
    recurses on the JSON value.  The fingerprint refines the identities of the nodes
    once per node, as the code does, and the loops over white space of [VisibleText]
    have one round per byte.  Everything else is structural.

    ** Parameters

    What the code calls and the repository does not contain is a parameter of the
    definitions that use it: [new URL], SHA-256 and AES-256-GCM of Node.js,
    [String.prototype.normalize] and [toLowerCase], the decimal text of a number,
    the clocks, the model, the target and the network.
    A hypothesis about one of them is documented behaviour of it (AES-GCM opens
    what it sealed; a monotonic clock does not run backwards; a safe integer is
    written in decimal) and is named in the theorem.  Collisions of SHA-256 are never assumed away: a theorem that
    depends on one says so in its conclusion, and [CanonicalJson] proves that the
    hashed text determines the hashed value.  [Exploration], [ExecutionRuntime] and
    [TraceDelivery] are parametric in the validator of an observation and in the
    fingerprint of a state, and [ConsumerSafety] supplies both to the exploration.
    [SkillLifecycle] is parametric in the signer of Skills and in the port that
    replays them, which may answer anything.  A random UUID of [Evidence] is one that
    was not issued before, and the tables that tie an artifact to a case do not change
    while its requests run.  [ResultConsumer] and [IntelligenceQueue] take SHA-256 and
    the hash of a result as functions, and the policy gate as an option.

    ** Not modelled

    The drivers of browsers and desktops, gRPC, TLS and OpenID, the model
    gateway, the web console and the command lines are glue around external
    programs; the migration tools and the schema catalogue run once; the
    companion is written in Rust.  Of the core, these parts are not modelled yet:
    mission scheduling and approved policies, the Skill
    compiler, recordings, the enrollment of runners and the PostgreSQL twins of the
    Skill and trace stores. *)
From stdpp Require Export base tactics gmap strings list relations.
From Stdlib Require Export ZArith Lia.

(** ** Imperative code with exceptions

    A method of a TypeScript class mutates fields and may throw.  A throw does
    not undo the mutations made before it, so the state is part of both
    outcomes. *)
Inductive outcome (E A : Type) : Type :=
  | Ok (a : A)
  | Throw (e : E).
Arguments Ok {E A} a.
Arguments Throw {E A} e.

(** A pure function that may throw. *)
#[export] Instance outcome_ret (E : Type) : MRet (outcome E) := λ A a, Ok a.
#[export] Instance outcome_bind (E : Type) : MBind (outcome E) := λ A B k m,
  match m with Ok a => k a | Throw e => Throw e end.

Lemma bind_Ok {E A B} (m : outcome E A) (k : A → outcome E B) b :
  m ≫= k = Ok b ↔ ∃ a, m = Ok a ∧ k a = Ok b.
Proof.
  split.
  - destruct m as [a|e]; [|done]. intros H. by exists a.
  - by intros (a & -> & H).
Qed.

(** [if (b) throw e;] in a pure function. *)
Definition reject_if {E} (b : bool) (e : E) : outcome E unit := if b then Throw e else Ok tt.

Lemma reject_if_Ok {E} b (e : E) u : reject_if b e = Ok u ↔ b = false.
Proof. destruct b, u; by split. Qed.

(** Inversion of a successful parse, one bind at a time. *)
Ltac inv_parse :=
  repeat match goal with
  | H : _ ≫= _ = Ok _ |- _ => apply bind_Ok in H as (? & ? & H)
  | H : reject_if _ _ = Ok _ |- _ => apply reject_if_Ok in H
  | H : negb _ = false |- _ => apply negb_false_iff in H
  | H : Ok _ = Ok _ |- _ => injection H as H
  | H : (if _ then _ else _) = Ok _ |- _ => destruct_if_ok H
  | H : match _ with _ => _ end = Ok _ |- _ => destruct_match_ok H
  end; subst
with destruct_if_ok H :=
  match type of H with (if ?b then _ else _) = _ => destruct b eqn:?; try discriminate H end
with destruct_match_ok H :=
  match type of H with (match ?x with _ => _ end) = _ => destruct x eqn:?; try discriminate H end.

Definition js (S E A : Type) : Type := S → outcome E A * S.

#[export] Instance js_ret (S E : Type) : MRet (js S E) := λ A a s, (Ok a, s).

#[export] Instance js_bind (S E : Type) : MBind (js S E) := λ A B k m s,
  match m s with
  | (Ok a, s') => k a s'
  | (Throw e, s') => (Throw e, s')
  end.

Definition throw {S E A} (e : E) : js S E A := λ s, (Throw e, s).
Definition get {S E} : js S E S := λ s, (Ok s, s).
Definition gets {S E A} (f : S → A) : js S E A := λ s, (Ok (f s), s).
Definition put {S E} (s : S) : js S E unit := λ _, (Ok tt, s).
Definition modify {S E} (f : S → S) : js S E unit := λ s, (Ok tt, f s).
(** [throw_if b e] is the statement [if (b) throw e;]. *)
Definition throw_if {S E} (b : bool) (e : E) : js S E unit :=
  if b then throw e else mret tt.
(** [try { m } catch (e) { h e }]. *)
Definition try_catch {S E A} (m : js S E A) (h : E → js S E A) : js S E A := λ s,
  match m s with
  | (Ok a, s') => (Ok a, s')
  | (Throw e, s') => h e s'
  end.
(** A database transaction: an exception rolls the state back. *)
Definition transaction {S E A} (m : js S E A) : js S E A := λ s,
  match m s with
  | (Ok a, s') => (Ok a, s')
  | (Throw e, _) => (Throw e, s)
  end.

(** The final state and the outcome of a call. *)
Definition exec {S E A} (m : js S E A) (s : S) : S := (m s).2.
Definition result {S E A} (m : js S E A) (s : S) : outcome E A := (m s).1.

(** [for (const x of l) body(x)]. *)
Fixpoint for_each {S E A} (l : list A) (body : A → js S E unit) : js S E unit :=
  match l with
  | [] => mret tt
  | x :: l' => _ ← body x; for_each l' body
  end.

(** ** Reasoning about calls

    [wp m Q R s]: running [m] in [s] returns with [Q] or throws with [R].
    Every call of the model terminates, so [wp] is total correctness. *)
Definition wp {S E A} (m : js S E A) (Q : A → S → Prop) (R : E → S → Prop) (s : S) : Prop :=
  match m s with
  | (Ok a, s') => Q a s'
  | (Throw e, s') => R e s'
  end.

Section wp_rules.
Context {S E : Type}.
Implicit Types (s : S) (e : E).

Lemma wp_ret {A} (a : A) Q R s : Q a s → wp (mret a : js S E A) Q R s.
  Proof. done. Qed.
Lemma wp_throw {A} e Q R s : R e s → wp (throw e : js S E A) Q R s.
  Proof. done. Qed.
Lemma wp_get Q R s : Q s s → wp (get : js S E S) Q R s.
  Proof. done. Qed.
Lemma wp_gets {A} (f : S → A) Q R s : Q (f s) s → wp (gets f : js S E A) Q R s.
  Proof. done. Qed.
Lemma wp_put s' Q R s : Q tt s' → wp (put s' : js S E unit) Q R s.
  Proof. done. Qed.
Lemma wp_modify f Q R s : Q tt (f s) → wp (modify f : js S E unit) Q R s.
  Proof. done. Qed.
Lemma wp_throw_if b e Q R s :
    (b = true → R e s) → (b = false → Q tt s) → wp (throw_if b e : js S E unit) Q R s.
  Proof. destruct b; cbn; intros H1 H2; [by apply H1 | by apply H2]. Qed.

Lemma wp_bind {A B} (m : js S E A) (k : A → js S E B) Q R s :
    wp m (λ a s', wp (k a) Q R s') R s → wp (m ≫= k) Q R s.
  Proof. unfold wp, mbind, js_bind. by destruct (m s) as [[a|e] s']. Qed.

Lemma wp_mono {A} (m : js S E A) (Q Q' : A → S → Prop) (R R' : E → S → Prop) s :
    wp m Q R s → (∀ a s', Q a s' → Q' a s') → (∀ e s', R e s' → R' e s') → wp m Q' R' s.
  Proof. unfold wp. destruct (m s) as [[a|e] s']; eauto. Qed.

Lemma wp_and {A} (m : js S E A) (Q Q' : A → S → Prop) (R R' : E → S → Prop) s :
    wp m Q R s → wp m Q' R' s → wp m (λ a s', Q a s' ∧ Q' a s') (λ e s', R e s' ∧ R' e s') s.
  Proof. unfold wp. by destruct (m s) as [[a|e] s']. Qed.

Lemma wp_try_catch {A} (m : js S E A) h Q R s :
    wp m Q (λ e s', wp (h e) Q R s') s → wp (try_catch m h) Q R s.
  Proof. unfold wp, try_catch. by destruct (m s) as [[a|e] s']. Qed.

Lemma wp_transaction {A} (m : js S E A) Q (R : E → S → Prop) s :
    wp m Q (λ e _, R e s) s → wp (transaction m) Q R s.
  Proof. unfold wp, transaction. by destruct (m s) as [[a|e] s']. Qed.

  (** The rule for loops: an invariant on the elements still to visit. *)
Lemma wp_for_each {A} (l : list A) (body : A → js S E unit)
      (I : list A → S → Prop) Q R s :
    I l s →
    (∀ x l' s', I (x :: l') s' → wp (body x) (λ _ s'', I l' s'') R s') →
    (∀ s', I [] s' → Q tt s') →
    wp (for_each l body) Q R s.
  Proof.
    intros HI Hbody HQ. revert s HI. induction l as [|x l IH]; intros s HI.
    - by apply wp_ret, HQ.
    - apply wp_bind. eapply wp_mono; [by apply Hbody | | done]. intros [] s'. apply IH.
  Qed.

Lemma wp_result {A} (m : js S E A) Q R s :
    wp m Q R s ↔ (∀ a s', m s = (Ok a, s') → Q a s') ∧ (∀ e s', m s = (Throw e, s') → R e s').
  Proof.
    unfold wp. destruct (m s) as [[a|e] s']; split.
    - intros HQ. split; intros ?? [= <- <-]; done.
    - intros [HQ _]. by apply HQ.
    - intros HR. split; intros ?? [= <- <-]; done.
    - intros [_ HR]. by apply HR.
  Qed.

  (** [I] survives the call, whether it returns or throws. *)
Definition preserves {A} (I : S → Prop) (m : js S E A) : Prop :=
    ∀ s, I s → I (exec m s).

Lemma preserves_wp {A} I (m : js S E A) :
    preserves I m ↔ (∀ s, I s → wp m (λ _, I) (λ _, I) s).
  Proof.
    unfold preserves, wp, exec. split; intros H s Hs; specialize (H s Hs);
      by destruct (m s) as [[a|e] s'].
  Qed.

Lemma preserves_transaction {A} I (m : js S E A) :
    preserves I m → preserves I (transaction m).
  Proof.
    intros H s Hs. specialize (H s Hs). unfold exec, transaction in *.
    by destruct (m s) as [[a|e] s'].
  Qed.
End wp_rules.

(** One step of symbolic execution of a monadic call. *)
Ltac wp_step :=
  lazymatch goal with
  | |- wp (_ ≫= _) _ _ _ => apply wp_bind
  | |- wp (mret _) _ _ _ => apply wp_ret
  | |- wp (throw _) _ _ _ => apply wp_throw
  | |- wp get _ _ _ => apply wp_get
  | |- wp (gets _) _ _ _ => apply wp_gets
  | |- wp (put _) _ _ _ => apply wp_put
  | |- wp (modify _) _ _ _ => apply wp_modify
  | |- wp (throw_if _ _) _ _ _ => apply wp_throw_if; intros ?
  | |- wp (try_catch _ _) _ _ _ => apply wp_try_catch
  | |- wp (transaction _) _ _ _ => apply wp_transaction
  | |- wp (match ?x with _ => _ end) _ _ _ => destruct x eqn:?
  end.
Ltac wp_run := repeat (cbv beta; wp_step).

(** Case analysis on the boolean tests of the code, turned into facts. *)
Ltac to_prop :=
  repeat match goal with
  | H : (_ && _)%bool = true |- _ => apply andb_true_iff in H as [? ?]
  | H : (_ || _)%bool = false |- _ => apply orb_false_iff in H as [? ?]
  | H : (_ && _)%bool = false |- _ => apply andb_false_iff in H as [?|?]
  | H : (_ || _)%bool = true |- _ => apply orb_true_iff in H as [?|?]
  | H : negb _ = true |- _ => apply negb_true_iff in H
  | H : negb _ = false |- _ => apply negb_false_iff in H
  | H : bool_decide _ = true |- _ => apply bool_decide_eq_true in H
  | H : bool_decide _ = false |- _ => apply bool_decide_eq_false in H
  | H : (_ =? _)%Z = true |- _ => apply Z.eqb_eq in H
  | H : (_ =? _)%Z = false |- _ => apply Z.eqb_neq in H
  | H : (_ <=? _)%Z = true |- _ => apply Z.leb_le in H
  | H : (_ <=? _)%Z = false |- _ => apply Z.leb_gt in H
  | H : (_ <? _)%Z = true |- _ => apply Z.ltb_lt in H
  | H : (_ <? _)%Z = false |- _ => apply Z.ltb_ge in H
  end.

(** ** Small list facts shared by the components *)
Lemma find_some_eq {A} (f : A → bool) (l : list A) x :
  List.find f l = Some x → x ∈ l ∧ f x = true.
Proof. intros H. apply List.find_some in H as [? ?]. by rewrite list_elem_of_In. Qed.

Lemma find_none_forall {A} (f : A → bool) (l : list A) :
  List.find f l = None ↔ (∀ x, x ∈ l → f x = false).
Proof.
  split.
  - intros H x Hx. eapply List.find_none; [done|]. by apply list_elem_of_In.
  - intros H. induction l as [|y l IH]; cbn; [done|].
    rewrite (H y) by set_solver. apply IH. intros. apply H. set_solver.
Qed.

(** A finite, decidable membership test, as [Array.prototype.includes]. *)
Definition includes {A} `{EqDecision A} (l : list A) (x : A) : bool := bool_decide (x ∈ l).

(** ** SQLite write transactions

    [withWriteTransaction] of the SQLite stores: at most [attempts] runs of the
    operation; a run that SQLite reports busy is rolled back and retried, the
    last busy run surfaces the mapped busy error.  Whether run number [i] is
    reported busy is SQLite's choice, the parameter [busy]. *)
Section write_transaction.
Context {S E A : Type} (busy : nat → bool) (busy_error unreachable : E).

Fixpoint write_attempts (left attempt : nat) (op : js S E A) : js S E A :=
    match left with
    | O => throw unreachable
    | Datatypes.S left' =>
        if busy attempt then
          if decide (left' = O) then throw busy_error
          else write_attempts left' (Datatypes.S attempt) op
        else transaction op
    end.

Definition withWriteTransaction (attempts : nat) (op : js S E A) : js S E A :=
    write_attempts attempts O op.

  (** Either the operation ran exactly once, atomically, or nothing happened. *)
Lemma write_attempts_cases left attempt op s :
    write_attempts left attempt op s = transaction op s ∨
    write_attempts left attempt op s = (Throw busy_error, s) ∨
    (left = O ∧ write_attempts left attempt op s = (Throw unreachable, s)).
  Proof.
    revert attempt. induction left as [|left IH]; intros attempt; cbn; [by auto|].
    destruct (busy attempt); [|by auto]. case_decide; [by auto|].
    destruct (IH (Datatypes.S attempt)) as [?|[?|[? _]]]; [by auto..|done].
  Qed.

Lemma withWriteTransaction_cases n op s :
    n ≠ O →
    withWriteTransaction n op s = transaction op s ∨
    withWriteTransaction n op s = (Throw busy_error, s).
  Proof. intros Hn. destruct (write_attempts_cases n O op s) as [?|[?|[? _]]]; naive_solver. Qed.

Lemma withWriteTransaction_preserves I n op :
    preserves I op → preserves I (withWriteTransaction n op).
  Proof.
    intros Hop s Hs. unfold exec, withWriteTransaction.
    destruct (write_attempts_cases n O op s) as [->|[->|[_ ->]]]; [|done..].
    exact (preserves_transaction I op Hop s Hs).
  Qed.

  (** A free attempt within the bound gets the operation run. *)
Lemma write_attempts_runs left attempt op s i :
    (i < left)%nat → busy (attempt + i)%nat = false →
    write_attempts left attempt op s = transaction op s.
  Proof.
    revert attempt i. induction left as [|left IH]; intros attempt i Hi Hb; [lia|].
    cbn. destruct (busy attempt) eqn:Ha; [|done].
    destruct i as [|i]; [by rewrite Nat.add_0_r, Ha in Hb|].
    rewrite decide_False by lia. apply (IH _ i); [lia|].
    by rewrite <- Hb; f_equal; lia.
  Qed.
End write_transaction.

(** Rule induction on reachability: a property of the first state that every
    step keeps holds in every reachable state. *)
Lemma rtc_invariant {S} (R : S → S → Prop) (P : S → Prop) x y :
  P x → (∀ a b, P a → R a b → P b) → rtc R x y → P y.
Proof. intros Hx Hstep Hr. induction Hr; eauto. Qed.

(** ** Maps built by a loop of insertions: the last entry of a key wins *)
Section foldl_insert.
Context {A B : Type} (k : A → string) (v : A → B).
Implicit Types (l : list A) (m : gmap string B).

Definition foldl_insert m l : gmap string B := foldl (λ m x, <[k x := v x]> m) m l.

Lemma foldl_insert_other m l key : key ∉ k <$> l → foldl_insert m l !! key = m !! key.
Proof.
  unfold foldl_insert. revert m. induction l as [|x l IH]; intros m Hk; cbn; [done|].
  rewrite IH by set_solver. apply lookup_insert_ne. set_solver.
Qed.

Lemma foldl_insert_lookup m l x :
  NoDup (k <$> l) → x ∈ l → foldl_insert m l !! k x = Some (v x).
Proof.
  unfold foldl_insert. revert m. induction l as [|y l IH]; intros m Hnd Hx; cbn; [set_solver|].
  cbn in Hnd. apply NoDup_cons in Hnd as [Hy Hnd]. apply elem_of_cons in Hx as [->|Hx].
  - fold (foldl_insert (<[k y := v y]> m) l). rewrite foldl_insert_other by done.
    by rewrite lookup_insert_eq.
  - by apply IH.
Qed.

Lemma foldl_insert_inv m l key b :
  foldl_insert m l !! key = Some b → m !! key = Some b ∨ ∃ x, x ∈ l ∧ k x = key ∧ v x = b.
Proof.
  unfold foldl_insert. revert m. induction l as [|y l IH]; intros m H; cbn in *; [by left|].
  destruct (IH _ H) as [Hm|(x & ? & ? & ?)]; [|right; exists x; set_solver].
  apply lookup_insert_Some in Hm as [[<- <-]|[_ ?]]; [right|by left].
  exists y. set_solver.
Qed.
End foldl_insert.

(** ** Sums over maps *)
Section msum.
Context {K A : Type} `{Countable K} (f : A → Z).
Implicit Types (m : gmap K A).

Definition msum m : Z := map_fold (λ _ x n, (f x + n)%Z) 0%Z m.

Lemma msum_insert m k x : m !! k = None → msum (<[k := x]> m) = (f x + msum m)%Z.
Proof. intros Hk. unfold msum. apply (map_fold_insert_L (λ _ x n, (f x + n)%Z)); [intros; lia|done]. Qed.

Lemma msum_nonneg m : (∀ k x, m !! k = Some x → (0 <= f x)%Z) → (0 <= msum m)%Z.
Proof.
  induction m as [|k x m Hk IH] using map_ind; intros Hf; [done|].
  rewrite msum_insert by done. assert (0 <= f x)%Z by (eapply Hf, lookup_insert_eq).
  assert (0 <= msum m)%Z; [|lia]. apply IH. intros k' x' Hk'. apply (Hf k').
  rewrite lookup_insert_ne; congruence.
Qed.

Lemma msum_subseteq m1 m2 :
  m1 ⊆ m2 → (∀ k x, m2 !! k = Some x → (0 <= f x)%Z) → (msum m1 <= msum m2)%Z.
Proof.
  revert m2. induction m1 as [|k x m1 Hk IH] using map_ind; intros m2 Hsub Hf; [by apply msum_nonneg|].
  assert (m2 !! k = Some x) as Hx by (eapply lookup_weaken, Hsub; apply lookup_insert_eq).
  rewrite msum_insert by done. rewrite <- (insert_delete_id m2 k x), msum_insert by
    (done || apply lookup_delete_eq).
  assert (msum m1 <= msum (delete k m2))%Z; [|lia]. apply IH.
  - apply map_subseteq_spec. intros k' x' Hk'. rewrite lookup_delete_ne by congruence.
    eapply lookup_weaken, Hsub. rewrite lookup_insert_ne; congruence.
  - intros k' x' [_ Hk']%lookup_delete_Some. by apply (Hf k').
Qed.
End msum.

(** An injective identity supply: [n] strokes. *)
Definition strokes (n : nat) : string := Nat.iter n (λ s, "|" +:+ s) EmptyString.


#[export] Instance strokes_inj : Inj (=) (=) strokes.
Proof.
  intros m. induction m as [|m IH]; intros [|n]; cbn; [done|done|done|].
  intros [= H]. f_equal. by apply IH.
Qed.

