(* ===== verification/Number.v ===== *)
(** * JavaScript numbers

    A JavaScript number is an IEEE 754 binary64 value.  Every finite one is an
    integer multiple of [2^-1074], and the model keeps that integer: [Fin n] is
    the value [n * 2^-1074].  Addition rounds to nearest, ties to even, and
    overflows to an infinity, as the language does.  [-0] and [+0] are not
    told apart: no operator the code applies to these values can. *)
From S2P Require Import Prelude.
Local Open Scope Z_scope.

Inductive number : Type :=
  | Fin (n : Z)
  | PosInf
  | NegInf
  | NaN.

#[export] Instance number_eq_dec : EqDecision number.
Proof. solve_decision. Defined.

(** [Number.isFinite]. *)
Definition is_finite (x : number) : bool :=
  match x with Fin _ => true | _ => false end.

(** ** Rounding *)

(** The integer nearest to [n / d], ties to even. *)
Definition nearest_even (n d : Z) : Z :=
  let q := n / d in
  let r := n mod d in
  if 2 * r <? d then q
  else if d <? 2 * r then q + 1
  else if Z.even q then q else q + 1.

(** The spacing of the doubles around [n >= 0], in units of [2^-1074]: 53
    significant bits, and never less than one unit. *)
Definition spacing (n : Z) : Z := 2 ^ Z.max 0 (Z.log2 n - 52).

Definition round_nonneg (n : Z) : Z := nearest_even n (spacing n) * spacing n.

Definition round (n : Z) : Z := Z.sgn n * round_nonneg (Z.abs n).

(** [2^1024], the first value that overflows. *)
Definition overflow : Z := 2 ^ 2098.

Definition to_double (n : Z) : number :=
  let r := round n in
  if overflow <=? r then PosInf
  else if r <=? - overflow then NegInf
  else Fin r.

(** A value a variable of the program can hold. *)
Definition is_double (x : number) : Prop :=
  match x with Fin n => to_double n = Fin n | _ => True end.

(** ** Operators *)
Definition num_add (x y : number) : number :=
  match x, y with
  | NaN, _ | _, NaN => NaN
  | PosInf, NegInf | NegInf, PosInf => NaN
  | PosInf, _ | _, PosInf => PosInf
  | NegInf, _ | _, NegInf => NegInf
  | Fin a, Fin b => to_double (a + b)
  end.

(** [x <= y]; a comparison with [NaN] is false. *)
Definition num_leb (x y : number) : bool :=
  match x, y with
  | NaN, _ | _, NaN => false
  | NegInf, _ | _, PosInf => true
  | PosInf, _ | _, NegInf => false
  | Fin a, Fin b => a <=? b
  end.

(** [x < y]. *)
Definition num_ltb (x y : number) : bool :=
  match x, y with
  | NaN, _ | _, NaN => false
  | Fin a, Fin b => a <? b
  | NegInf, NegInf | PosInf, PosInf => false
  | NegInf, _ | _, PosInf => true
  | PosInf, _ | _, NegInf => false
  end.

(** [x === y]. *)
Definition num_eqb (x y : number) : bool :=
  match x, y with
  | NaN, _ => false
  | _, _ => bool_decide (x = y)
  end.

(** The literal [z], exact for the integers a double represents. *)
Definition num_of_Z (z : Z) : number := Fin (z * 2 ^ 1074).

(** [Number.MAX_SAFE_INTEGER]. *)
Definition max_safe_integer : Z := 9007199254740991.

(** [Number.isInteger(x)], returning the integer. *)
Definition integer_of (x : number) : option Z :=
  match x with
  | Fin n => if n mod 2 ^ 1074 =? 0 then Some (n / 2 ^ 1074) else None
  | _ => None
  end.

(** [Number.isSafeInteger(x)], returning the integer. *)
Definition safe_integer (x : number) : option Z :=
  match integer_of x with
  | Some z => if Z.abs z <=? max_safe_integer then Some z else None
  | None => None
  end.

(** ** Rounding is monotone, and exact on doubles *)
Section nearest_even.
Context (d : Z) (Hd : 0 < d).

Lemma nearest_even_cases n :
  (nearest_even n d = n / d) ∨ (nearest_even n d = n / d + 1 ∧ n mod d ≠ 0).
Proof.
  unfold nearest_even. cbv zeta.
  destruct (Z.ltb_spec (2 * (n mod d)) d); [by left|].
  assert (n mod d ≠ 0) by lia.
  destruct (_ <? _); [by right|]. destruct (Z.even _); [by left|by right].
Qed.

Lemma nearest_even_exact q : nearest_even (q * d) d = q.
Proof.
  unfold nearest_even. cbv zeta. rewrite Z.mod_mul, Z.div_mul by lia.
  by destruct (Z.ltb_spec (2 * 0) d); [|lia].
Qed.

Lemma nearest_even_lower q n : q * d <= n → q <= nearest_even n d.
Proof.
  intros Hn. assert (q <= n / d) by (apply Z.div_le_lower_bound; lia).
  destruct (nearest_even_cases n) as [->|[-> _]]; lia.
Qed.

Lemma nearest_even_upper q n : n <= q * d → nearest_even n d <= q.
Proof.
  intros Hn. pose proof (Z.div_mod n d). pose proof (Z.mod_pos_bound n d Hd).
  destruct (nearest_even_cases n) as [->|[-> Hr]]; [nia|].
  enough (n / d < q) by lia. nia.
Qed.

Lemma nearest_even_mono m n : m <= n → nearest_even m d <= nearest_even n d.
Proof.
  intros Hmn. pose proof (Z.div_le_mono m n d Hd Hmn) as Hq.
  destruct (decide (m / d = n / d)) as [Heq|].
  - pose proof (Z.div_mod m d). pose proof (Z.div_mod n d).
    unfold nearest_even. cbv zeta. rewrite <- Heq in *.
    assert (m mod d <= n mod d) by lia.
    repeat match goal with |- context [?a <? ?b] => destruct (Z.ltb_spec a b) end;
      destruct (Z.even (m / d)); lia.
  - destruct (nearest_even_cases m) as [->|[-> _]], (nearest_even_cases n) as [->|[-> _]]; lia.
Qed.
End nearest_even.

Lemma spacing_pos n : 0 < spacing n.
Proof. unfold spacing. apply Z.pow_pos_nonneg; lia. Qed.

(** A power of two at the boundary of the binade of [n] is on its grid. *)
Lemma spacing_divides_pow n k :
  Z.max 0 (Z.log2 n - 52) <= k → ∃ q, 2 ^ k = q * spacing n.
Proof.
  intros Hk. exists (2 ^ (k - Z.max 0 (Z.log2 n - 52))). unfold spacing.
  rewrite <- Z.pow_add_r by lia. f_equal. lia.
Qed.

Lemma round_pow_upper n : 0 < n → round_nonneg n <= 2 ^ (Z.log2 n + 1).
Proof.
  intros Hn. pose proof (Z.log2_spec n Hn) as [_ Hu].
  pose proof (Z.log2_nonneg n).
  destruct (spacing_divides_pow n (Z.log2 n + 1)) as [q Hq]; [lia|].
  unfold round_nonneg. rewrite Hq. apply Z.mul_le_mono_nonneg_r.
  - pose proof (spacing_pos n). lia.
  - apply nearest_even_upper; [apply spacing_pos|]. rewrite <- Hq.
    replace (Z.log2 n + 1) with (Z.succ (Z.log2 n)) by lia. lia.
Qed.

Lemma round_pow_lower n : 0 < n → 2 ^ Z.log2 n <= round_nonneg n.
Proof.
  intros Hn. pose proof (Z.log2_spec n Hn) as [Hl _].
  pose proof (Z.log2_nonneg n).
  destruct (spacing_divides_pow n (Z.log2 n)) as [q Hq]; [lia|].
  unfold round_nonneg. rewrite Hq. apply Z.mul_le_mono_nonneg_r.
  - pose proof (spacing_pos n). lia.
  - apply nearest_even_lower; [apply spacing_pos|]. by rewrite <- Hq.
Qed.

Lemma round_nonneg_0 : round_nonneg 0 = 0.
Proof. reflexivity. Qed.

Lemma round_nonneg_mono m n : 0 <= m <= n → round_nonneg m <= round_nonneg n.
Proof.
  intros [Hm Hmn]. destruct (decide (m = 0)) as [->|].
  { rewrite round_nonneg_0. destruct (decide (n = 0)) as [->|]; [by rewrite round_nonneg_0|].
    pose proof (round_pow_lower n). pose proof (Z.pow_nonneg 2 (Z.log2 n)). lia. }
  pose proof (Z.log2_le_mono m n Hmn) as Hlog.
  destruct (decide (Z.log2 m = Z.log2 n)) as [Heq|].
  - unfold round_nonneg. assert (spacing m = spacing n) as -> by (unfold spacing; by rewrite Heq).
    pose proof (spacing_pos n). apply Z.mul_le_mono_nonneg_r; [lia|].
    by apply nearest_even_mono.
  - pose proof (round_pow_upper m). pose proof (round_pow_lower n).
    assert (2 ^ (Z.log2 m + 1) <= 2 ^ Z.log2 n) by (apply Z.pow_le_mono_r; lia). lia.
Qed.

Lemma round_nonneg_nonneg n : 0 <= n → 0 <= round_nonneg n.
Proof. intros. rewrite <- round_nonneg_0. apply round_nonneg_mono. lia. Qed.

(** A multiple of the spacing of its binade is a double. *)
Lemma round_nonneg_exact n q : n = q * spacing n → round_nonneg n = n.
Proof.
  intros Hn. unfold round_nonneg. rewrite Hn at 1.
  rewrite nearest_even_exact by apply spacing_pos. by rewrite <- Hn.
Qed.

Lemma round_nonneg_idem n : 0 <= n → round_nonneg (round_nonneg n) = round_nonneg n.
Proof.
  intros Hn. destruct (decide (n = 0)) as [->|]; [done|].
  pose proof (round_pow_lower n) as Hl. pose proof (round_pow_upper n) as Hu.
  pose proof (Z.log2_nonneg n). pose proof (Z.pow_pos_nonneg 2 (Z.log2 n)).
  destruct (decide (round_nonneg n = 2 ^ (Z.log2 n + 1))) as [Heq|].
  - rewrite Heq. destruct (spacing_divides_pow (2 ^ (Z.log2 n + 1)) (Z.log2 n + 1)) as [q Hq].
    { rewrite Z.log2_pow2; lia. }
    by apply (round_nonneg_exact _ q).
  - apply (round_nonneg_exact _ (nearest_even n (spacing n))).
    assert (Z.log2 (round_nonneg n) = Z.log2 n) as Hlog.
    { apply Z.log2_unique; [done|]. unfold Z.succ. lia. }
    unfold spacing at 2. rewrite Hlog. done.
Qed.

Lemma round_of_nonneg n : 0 <= n → round n = round_nonneg n.
Proof.
  intros. unfold round. rewrite Z.abs_eq by done.
  destruct (decide (n = 0)) as [->|]; [done|]. rewrite Z.sgn_pos by lia. lia.
Qed.

Lemma round_opp n : round (- n) = - round n.
Proof. unfold round. rewrite Z.abs_opp, Z.sgn_opp. lia. Qed.

Lemma round_idem n : round (round n) = round n.
Proof.
  destruct (Z.le_ge_cases 0 n).
  - rewrite !(round_of_nonneg n) by done.
    rewrite round_of_nonneg by (by apply round_nonneg_nonneg). by apply round_nonneg_idem.
  - replace n with (- (- n)) by lia. rewrite !(round_opp (- n)), round_opp.
    rewrite !(round_of_nonneg (- n)) by lia.
    rewrite round_of_nonneg by (apply round_nonneg_nonneg; lia).
    rewrite round_nonneg_idem by lia. done.
Qed.

Lemma is_double_Fin n : is_double (Fin n) ↔ round n = n ∧ - overflow < n < overflow.
Proof.
  cbn. unfold to_double. cbv zeta.
  destruct (Z.leb_spec overflow (round n)); [split; [done|lia]|].
  destruct (Z.leb_spec (round n) (- overflow)); [split; [done|lia]|].
  split; [intros [= Heq]; lia|intros [-> _]; done].
Qed.

Lemma to_double_is_double n : is_double (to_double n).
Proof.
  unfold to_double. cbv zeta.
  destruct (Z.leb_spec overflow (round n)); [done|].
  destruct (Z.leb_spec (round n) (- overflow)); [done|].
  apply is_double_Fin. rewrite round_idem. lia.
Qed.

Lemma num_add_is_double x y : is_double x → is_double y → is_double (num_add x y).
Proof. destruct x, y; cbn; try done. intros _ _. apply to_double_is_double. Qed.

(** Integers of magnitude at most [2^53] are doubles. *)
Lemma num_of_Z_is_double z : Z.abs z <= 2 ^ 53 → is_double (num_of_Z z).
Proof.
  assert (∀ z, 0 <= z <= 2 ^ 53 → round_nonneg (z * 2 ^ 1074) = z * 2 ^ 1074) as Hpos.
  { clear z. intros z Hz. destruct (decide (z = 0)) as [->|]; [done|].
    assert (Z.log2 (z * 2 ^ 1074) = Z.log2 z + 1074) as Hlog.
    { rewrite Z.log2_mul_pow2; lia. }
    assert (Z.log2 z <= 53).
    { replace 53 with (Z.log2 (2 ^ 53)) by done. apply Z.log2_le_mono. lia. }
    pose proof (Z.log2_nonneg z).
    assert (∃ q, z * 2 ^ 1074 = q * spacing (z * 2 ^ 1074)) as [q Hq].
    { unfold spacing. rewrite Hlog. destruct (decide (Z.log2 z = 53)) as [He|].
      - assert (z = 2 ^ 53) as ->.
        { pose proof (Z.log2_spec z). replace (Z.log2 z) with 53 in * by lia. lia. }
        by exists (2 ^ 52).
      - exists (z * 2 ^ (52 - Z.log2 z)).
        rewrite <- Z.mul_assoc, <- Z.pow_add_r by lia. do 2 f_equal. lia. }
    by apply (round_nonneg_exact _ q). }
  intros Hz. apply is_double_Fin. split.
  - destruct (Z.le_ge_cases 0 z).
    + rewrite round_of_nonneg by lia. apply Hpos. lia.
    + replace (z * 2 ^ 1074) with (- ((- z) * 2 ^ 1074)) by lia.
      rewrite round_opp, round_of_nonneg by lia. f_equal. apply Hpos. lia.
  - unfold overflow. replace (2 ^ 2098) with (2 ^ 1024 * 2 ^ 1074) by done.
    assert (2 ^ 53 < 2 ^ 1024) by done. nia.
Qed.

(** Integer arithmetic is exact while the sum stays within [2^53]. *)
Lemma num_add_of_Z a b :
  Z.abs (a + b) <= 2 ^ 53 → num_add (num_of_Z a) (num_of_Z b) = num_of_Z (a + b).
Proof.
  intros H. pose proof (num_of_Z_is_double _ H) as Hd. cbn in *.
  by rewrite <- Z.mul_add_distr_r.
Qed.

(** Adding something non-negative never decreases a double, rounding and
    overflow included. *)
Lemma num_add_ge x y :
  is_double x → num_leb (num_of_Z 0) x = true → num_leb (num_of_Z 0) y = true →
  num_leb x (num_add x y) = true.
Proof.
  destruct x as [a| | |], y as [b| | |]; cbn; try done. intros Ha H0 Hb. to_prop.
  apply is_double_Fin in Ha as [Hr Hlt]. rewrite round_of_nonneg in Hr by lia.
  assert (a <= round (a + b)) as Hle.
  { rewrite round_of_nonneg by lia. rewrite <- Hr at 1. apply round_nonneg_mono. lia. }
  unfold to_double. cbv zeta. destruct (Z.leb_spec overflow (round (a + b))); [done|].
  destruct (Z.leb_spec (round (a + b)) (- overflow)); [unfold overflow in *; lia|].
  by apply Z.leb_le.
Qed.

Lemma num_leb_refl x : x ≠ NaN → num_leb x x = true.
Proof. destruct x; cbn; try done. intros. by apply Z.leb_refl. Qed.

Lemma num_leb_trans x y z :
  num_leb x y = true → num_leb y z = true → num_leb x z = true.
Proof. destruct x, y, z; cbn; try done. intros. to_prop. apply Z.leb_le. lia. Qed.

Lemma num_ltb_leb x y : x ≠ NaN → y ≠ NaN → num_ltb x y = negb (num_leb y x).
Proof. destruct x, y; cbn; try done. intros _ _. by rewrite Z.ltb_antisym. Qed.

Lemma num_leb_of_Z a b : num_leb (num_of_Z a) (num_of_Z b) = (a <=? b).
Proof.
  cbn [num_leb num_of_Z]. assert (0 < 2 ^ 1074) by done.
  destruct (Z.leb_spec a b), (Z.leb_spec (a * 2 ^ 1074) (b * 2 ^ 1074)); nia.
Qed.

Lemma num_of_Z_inj a b : num_of_Z a = num_of_Z b → a = b.
Proof. unfold num_of_Z. intros [= H]. by apply Z.mul_cancel_r in H; [|apply Z.pow_nonzero]. Qed.

Lemma integer_of_Z z : integer_of (num_of_Z z) = Some z.
Proof.
  cbn [integer_of num_of_Z]. rewrite Z.mod_mul, Z.div_mul by done. done.
Qed.

Lemma safe_integer_of_Z z :
  Z.abs z <= max_safe_integer → safe_integer (num_of_Z z) = Some z.
Proof. intros Hz. unfold safe_integer. rewrite integer_of_Z. apply Z.leb_le in Hz. by rewrite Hz. Qed.

Lemma safe_integer_some x z :
  safe_integer x = Some z → x = num_of_Z z ∧ Z.abs z <= max_safe_integer.
Proof.
  unfold safe_integer, integer_of. destruct x as [n| | |]; [|done..].
  destruct (Z.eqb_spec (n mod 2 ^ 1074) 0) as [Hm|]; [|done].
  destruct (Z.leb_spec (Z.abs (n / 2 ^ 1074)) max_safe_integer); [|done].
  intros [= <-]. split; [|done]. unfold num_of_Z. f_equal.
  rewrite (Z.div_mod n (2 ^ 1074)) at 1 by done. lia.
Qed.

(** ** Subtraction *)
Definition num_opp (x : number) : number :=
  match x with Fin n => Fin (- n) | PosInf => NegInf | NegInf => PosInf | NaN => NaN end.

(** [x - y] is [x + (-y)], rounded once. *)
Definition num_sub (x y : number) : number := num_add x (num_opp y).

Lemma round_mono m n : m <= n → round m <= round n.
Proof.
  intros Hmn. destruct (Z.le_gt_cases 0 m) as [Hm|Hm].
  - rewrite !round_of_nonneg by lia. apply round_nonneg_mono. lia.
  - destruct (Z.le_gt_cases 0 n) as [Hn|Hn].
    + rewrite (round_of_nonneg n) by lia. replace m with (- (- m)) by lia.
      rewrite round_opp, round_of_nonneg by lia.
      pose proof (round_nonneg_nonneg n Hn). pose proof (round_nonneg_nonneg (- m)). lia.
    + replace m with (- (- m)) by lia. replace n with (- (- n)) by lia.
      rewrite !(round_opp (- _)), !(round_of_nonneg (- _)) by lia.
      pose proof (round_nonneg_mono (- n) (- m)). lia.
Qed.

Lemma to_double_mono m n : m <= n → num_leb (to_double m) (to_double n) = true.
Proof.
  intros Hmn. pose proof (round_mono m n Hmn). unfold to_double. cbv zeta.
  assert (0 < overflow) by done.
  destruct (Z.leb_spec overflow (round n)), (Z.leb_spec overflow (round m)),
    (Z.leb_spec (round m) (- overflow)), (Z.leb_spec (round n) (- overflow));
    try done; try lia; by apply Z.leb_le.
Qed.

(** Readings that never decrease give elapsed times that never decrease. *)
Lemma num_sub_mono a b s :
  is_finite s = true → num_leb a b = true → num_leb (num_sub a s) (num_sub b s) = true.
Proof.
  destruct s as [s| | |]; [|done..]. intros _.
  destruct a as [a| | |], b as [b| | |]; cbn; try done; intros H; to_prop.
  - by apply to_double_mono; lia.
  - by destruct (to_double (a + - s)) eqn:E; [..|unfold to_double in E; repeat case_match].
  - by destruct (to_double (b + - s)) eqn:E; [..|unfold to_double in E; repeat case_match].
Qed.

Lemma num_sub_of_Z a b :
  Z.abs (a - b) <= 2 ^ 53 → num_sub (num_of_Z a) (num_of_Z b) = num_of_Z (a - b).
Proof.
  intros H. unfold num_sub. replace (num_opp (num_of_Z b)) with (num_of_Z (- b)).
  - rewrite num_add_of_Z; [done|lia].
  - unfold num_of_Z. cbn. f_equal. lia.
Qed.

Lemma num_leb_antisym_ltb x y : x ≠ NaN → y ≠ NaN → num_leb x y = negb (num_ltb y x).
Proof. destruct x, y; cbn; try done. intros _ _. by rewrite Z.leb_antisym. Qed.

Lemma num_ltb_of_Z a b : num_ltb (num_of_Z a) (num_of_Z b) = (a <? b).
Proof.
  rewrite num_ltb_leb by done. rewrite num_leb_of_Z. by rewrite Z.ltb_antisym.
Qed.

(** Safe integers and their immediate successors are exact. *)
Lemma safe_bound z : Z.abs z <= max_safe_integer + 1 → Z.abs z <= 2 ^ 53.
Proof. intros H. exact H. Qed.

#[global] Arguments num_of_Z : simpl never.
#[global] Arguments num_add : simpl never.
#[global] Arguments num_sub : simpl never.
#[global] Arguments num_leb : simpl never.
#[global] Arguments num_ltb : simpl never.
#[global] Arguments is_double : simpl never.
#[global] Arguments safe_integer : simpl never.

Lemma num_sub_nonpos a b :
  is_finite a = true → num_leb a b = true → num_leb (num_sub a b) (num_of_Z 0) = true.
Proof.
  destruct a as [a| | |], b as [b| | |]; unfold num_leb, num_sub, num_add, num_of_Z; cbn; try done.
  intros _ H. to_prop. pose proof (round_mono (a + - b) 0) as Hr. unfold to_double. cbv zeta.
  replace (round 0) with 0 in Hr by done. assert (0 < overflow) by done.
  destruct (Z.leb_spec overflow (round (a + - b))); [lia|].
  destruct (Z.leb_spec (round (a + - b)) (- overflow)); [done|]. apply Z.leb_le. lia.
Qed.

(** ** [Math.ceil] and [Math.max] *)
Definition num_ceil (x : number) : number :=
  match x with Fin n => Fin (- ((- n) / 2 ^ 1074) * 2 ^ 1074) | _ => x end.

Definition num_max (x y : number) : number :=
  match x, y with
  | NaN, _ | _, NaN => NaN
  | _, _ => if num_ltb x y then y else x
  end.

Lemma num_ceil_of_Z z : num_ceil (num_of_Z z) = num_of_Z z.
Proof.
  unfold num_ceil, num_of_Z. assert (0 < 2 ^ 1074) as Hp by done.
  generalize dependent (2 ^ 1074). intros p Hp.
  rewrite <- (Z.mul_opp_l z p), Z.div_mul by lia. by rewrite Z.opp_involutive.
Qed.

Lemma num_ceil_integer x : is_finite x = true → ∃ z, num_ceil x = num_of_Z z.
Proof. destruct x as [n| | |]; try done. intros _. by eexists. Qed.

Lemma num_max_of_Z a b : num_max (num_of_Z a) (num_of_Z b) = num_of_Z (Z.max a b).
Proof.
  unfold num_max. change (num_of_Z a) with (Fin (a * 2 ^ 1074)) at 1.
  change (num_of_Z b) with (Fin (b * 2 ^ 1074)) at 1. cbv beta iota. rewrite num_ltb_of_Z.
  destruct (Z.ltb_spec a b); [by rewrite Z.max_r by lia|by rewrite Z.max_l by lia].
Qed.
