(* ===== verification/Json.v ===== *)
(** * JSON values and text

    The [unknown] values the contract parsers receive, and the string
    operations they use.  A string is its UTF-8 encoding; [length] counts UTF-16
    code units as JavaScript does. *)
From S2P Require Import Prelude Number.
From Stdlib Require Import Ascii.

Inductive json : Type :=
  | JNull
  | JBool (b : bool)
  | JNum (n : number)
  | JStr (s : string)
  | JArr (l : list json)
  | JObj (fields : list (string * json)).

(** [value.key]; [None] is [undefined].  Keys of an object are distinct. *)
Fixpoint get_field (key : string) (fields : list (string * json)) : option json :=
  match fields with
  | [] => None
  | (k, v) :: rest => if String.eqb k key then Some v else get_field key rest
  end.

(** An optional property of an object literal: [...(x === undefined ? {} : { k: x })]. *)
Definition opt_field {A} (key : string) (enc : A → json) (x : option A) : list (string * json) :=
  match x with Some a => [(key, enc a)] | None => [] end.

(** ** Text *)
Definition byte_of (c : ascii) : Z := Z.of_N (N_of_ascii c).

Fixpoint bytes (s : string) : list Z :=
  match s with EmptyString => [] | String c s' => byte_of c :: bytes s' end.

(** UTF-16 length of a UTF-8 text: one unit per lead byte, two for a lead of
    four bytes. *)
Definition utf16_units (b : Z) : Z :=
  (if b <? 128 then 1 else if b <? 192 then 0 else if b <? 240 then 1 else 2)%Z.
Definition js_length (s : string) : Z := foldr (λ b n, utf16_units b + n)%Z 0%Z (bytes s).

(** The white space and line terminators of [String.prototype.trim] and [\s], by
    their UTF-8 encodings; the length of the one the bytes start with. *)
Definition whitespace_prefix (l : list Z) : option (list Z) :=
  match l with
  | 9 :: r | 10 :: r | 11 :: r | 12 :: r | 13 :: r | 32 :: r => Some r
  | 194 :: 160 :: r => Some r
  | 225 :: 154 :: 128 :: r => Some r
  | 226 :: 128 :: b :: r =>
      if ((128 <=? b) && (b <=? 138)) || (b =? 168) || (b =? 169) || (b =? 175)
      then Some r else None
  | 226 :: 129 :: 159 :: r => Some r
  | 227 :: 128 :: 128 :: r => Some r
  | 239 :: 187 :: 191 :: r => Some r
  | _ => None
  end%Z.

(** [value.trim().length === 0]: nothing but white space; [n] bounds the bytes. *)
Fixpoint all_whitespace (n : nat) (l : list Z) : bool :=
  match l, n with
  | [], _ => true
  | _, O => false
  | _, S n' => match whitespace_prefix l with Some r => all_whitespace n' r | None => false end
  end.
Definition is_blank (s : string) : bool := all_whitespace (length (bytes s)) (bytes s).

(** [/[\s...]/.test(value)]: some position starts with white space or with a
    byte of [chars]. *)
Fixpoint has_space_or (chars : list Z) (l : list Z) : bool :=
  match l with
  | [] => false
  | b :: r => match whitespace_prefix l with Some _ => true | None => false end
              || includes chars b || has_space_or chars r
  end.

(** [value.includes(needle)] and [value.startsWith(needle)]. *)
Fixpoint starts_with (needle l : list Z) : bool :=
  match needle, l with
  | [], _ => true
  | _, [] => false
  | a :: n', b :: l' => (a =? b)%Z && starts_with n' l'
  end.
Fixpoint has_infix (needle l : list Z) : bool :=
  starts_with needle l ||
  match l with [] => false | _ :: l' => has_infix needle l' end.
Definition str_includes (s needle : string) : bool := has_infix (bytes needle) (bytes s).
Definition str_startsWith (s needle : string) : bool := starts_with (bytes needle) (bytes s).

Lemma get_field_opt_same {A} key (enc : A → json) x rest :
  get_field key (opt_field key enc x ++ rest) =
    match x with Some a => Some (enc a) | None => get_field key rest end.
Proof. destruct x as [a|]; cbn; [|done]. by rewrite String.eqb_refl. Qed.

Lemma get_field_opt_other {A} key key' (enc : A → json) x rest :
  String.eqb key' key = false →
  get_field key (opt_field key' enc x ++ rest) = get_field key rest.
Proof. intros H. destruct x as [a|]; cbn; [|done]. by rewrite H. Qed.

Lemma get_field_opt_nil {A} key (enc : A → json) x :
  get_field key (opt_field key enc x) = enc <$> x.
Proof. rewrite <- (app_nil_r (opt_field _ _ _)), get_field_opt_same. by destruct x. Qed.

(** Mapping a decoder over the encodings gives the values back. *)
Lemma mapM_encode {E A} (dec : json → outcome E A) (enc : A → json) (l : list A) :
  (∀ a, a ∈ l → dec (enc a) = Ok a) → mapM dec (enc <$> l) = Ok l.
Proof.
  induction l as [|a l IH]; intros H; cbn; [done|].
  rewrite H by set_solver. cbn. rewrite IH by set_solver. done.
Qed.

Lemma mapM_Ok_Forall {E A B} (f : A → outcome E B) (P : B → Prop) (l : list A) l' :
  (∀ a b, f a = Ok b → P b) → mapM f l = Ok l' → Forall P l' ∧ length l' = length l.
Proof.
  intros Hf. revert l'. induction l as [|a l IH]; intros l' H; cbn in H.
  - injection H as <-. by split.
  - apply bind_Ok in H as (b & Hb & H). apply bind_Ok in H as (l1 & H1 & [= <-]).
    destruct (IH l1 H1) as [? ?]. split; [constructor; eauto|cbn; by f_equal].
Qed.
