(* ===== verification/IsoTime.v ===== *)
(** * ISO instants

    [new Date(ms).toISOString()] for the years 0 to 9999, the shape every
    timestamp column holds: [YYYY-MM-DDTHH:mm:ss.sssZ].  The code compares such
    strings with [<=] and lets SQLite order them as text; the main theorem is
    that this is the order of the instants. *)
From S2P Require Import Prelude.
From Stdlib Require Import String Ascii.
Local Open Scope Z_scope.

(** ** Calendar (ECMAScript's proleptic Gregorian calendar)

    The civil date of a day counted from 1970-01-01, computed in the 400-year
    era that starts on the first of March. *)
Definition civil (day : Z) : Z * Z * Z :=
  let z := day + 719468 in
  let era := z / 146097 in
  let doe := z mod 146097 in
  let yoe := (doe - doe / 1460 + doe / 36524 - doe / 146096) / 365 in
  let doy := doe - (365 * yoe + yoe / 4 - yoe / 100) in
  let mp := (5 * doy + 2) / 153 in
  let d := doy - (153 * mp + 2) / 5 + 1 in
  let m := if mp <? 10 then mp + 3 else mp - 9 in
  (yoe + era * 400 + (if m <=? 2 then 1 else 0), m, d).

Definition ms_per_day : Z := 86400000.

(** [digits w n]: the last [w] decimal digits of [n]. *)
Fixpoint digits (w : nat) (n : Z) (rest : string) : string :=
  match w with
  | O => rest
  | S w' => digits w' (n / 10) (String (ascii_of_nat (48 + Z.to_nat (n mod 10))) rest)
  end.

Definition toISOString (ms : Z) : string :=
  let t := ms mod ms_per_day in
  let '(y, m, d) := civil (ms / ms_per_day) in
  digits 4 y (String "-" (digits 2 m (String "-" (digits 2 d (String "T"
    (digits 2 (t / 3600000) (String ":" (digits 2 (t / 60000 mod 60) (String ":"
      (digits 2 (t / 1000 mod 60) (String "." (digits 3 (t mod 1000)
        (String "Z" EmptyString))))))))))))).

(** Text order, JavaScript's [<] and [<=] on strings and SQLite's [BINARY]. *)
Definition text_ltb (a b : string) : bool :=
  match String.compare a b with Lt => true | _ => false end.
Definition text_leb (a b : string) : bool :=
  match String.compare a b with Gt => false | _ => true end.

(** The instants of the years 0 to 9999. *)
Definition in_range (ms : Z) : Prop := -62167219200000 <= ms < 253402300800000.

(** ** The civil date increases with the day *)
Definition ymd (day : Z) : Z := let '(y, m, d) := civil day in y * 10000 + m * 100 + d.

Lemma civil_era day k :
  civil (day + 146097 * k) =
    let '(y, m, d) := civil day in (y + 400 * k, m, d).
Proof.
  unfold civil. cbv zeta.
  replace (day + 146097 * k + 719468) with (day + 719468 + k * 146097) by lia.
  rewrite Z.div_add, Z.mod_add by lia. do 2 f_equal. lia.
Qed.

Lemma ymd_era day k : ymd (day + 146097 * k) = ymd day + 4000000 * k.
Proof. unfold ymd. rewrite civil_era. destruct (civil day) as [[y m] d]. lia. Qed.

(** The days of an era before its year [y], and the year of a day. *)
Definition days_before (y : Z) : Z := if y =? 400 then 146097 else 365 * y + y / 4 - y / 100.
Definition year_of (doe : Z) : Z := (doe - doe / 1460 + doe / 36524 - doe / 146096) / 365.
(** Month and day of the [doy]-th day since the first of March, as [mm * 100 + dd],
    January and February in the next year. *)
Definition month_of (doy : Z) : Z :=
  let mp := (5 * doy + 2) / 153 in if mp <? 10 then mp + 3 else mp - 9.
Definition day_of (doy : Z) : Z := doy - (153 * ((5 * doy + 2) / 153) + 2) / 5 + 1.
Definition md (doy : Z) : Z :=
  (if month_of doy <=? 2 then 10000 else 0) + month_of doy * 100 + day_of doy.

Lemma ymd_split day :
  let doe := (day + 719468) mod 146097 in
  let doy := doe - (365 * year_of doe + year_of doe / 4 - year_of doe / 100) in
  ymd day = (year_of doe + (day + 719468) / 146097 * 400) * 10000 + md doy ∧
  let '(_, m, d) := civil day in m = month_of doy ∧ d = day_of doy.
Proof.
  cbv zeta. unfold ymd, md, civil. cbv zeta. fold (year_of ((day + 719468) mod 146097)).
  set (doy := _ - (365 * _ + _ - _)). fold (month_of doy). fold (day_of doy).
  destruct (_ <=? 2); lia.
Qed.

Lemma year_of_mono a b : 0 <= a <= b → b < 146097 → year_of a <= year_of b.
Proof.
  intros H1 H2. unfold year_of. apply Z.div_le_mono; [done|]. Z.div_mod_to_equations. lia.
Qed.

(** The check of the finitely many years of an era and days of a year. *)
Fixpoint below (n : nat) (f : Z → bool) : bool :=
  match n with O => true | S n' => f (Z.of_nat n') && below n' f end.

Lemma below_spec n f k : below n f = true → 0 <= k < Z.of_nat n → f k = true.
Proof.
  induction n as [|n IH]; intros H Hk; [lia|]. cbn in H. apply andb_true_iff in H as [H0 H].
  destruct (decide (k = Z.of_nat n)) as [->|]; [done|]. apply IH; [done|lia].
Qed.

Lemma year_checked y :
  0 <= y < 400 →
  year_of (days_before y) = y ∧ year_of (days_before (y + 1) - 1) = y ∧
  365 <= days_before (y + 1) - days_before y <= 366.
Proof.
  intros Hy.
  pose proof (below_spec 400 (λ y, (year_of (days_before y) =? y) &&
    (year_of (days_before (y + 1) - 1) =? y) && (365 <=? days_before (y + 1) - days_before y) &&
    (days_before (y + 1) - days_before y <=? 366)) y eq_refl Hy) as H.
  cbv beta in H. to_prop. done.
Qed.

Lemma day_checked d :
  0 <= d < 366 → 1 <= month_of d <= 12 ∧ 1 <= day_of d <= 31 ∧ md d <= 10229 ∧
  (d < 365 → md d < md (d + 1)).
Proof.
  intros Hd.
  pose proof (below_spec 366 (λ d, (1 <=? month_of d) && (month_of d <=? 12) &&
    (1 <=? day_of d) && (day_of d <=? 31) && (md d <=? 10229) && ((d =? 365) || (md d <? md (d + 1))))
    d eq_refl Hd) as H.
  cbv beta in H. apply andb_true_iff in H as [H Hor]. to_prop; lia.
Qed.

(** A day of an era lies in the year [year_of] says. *)
Lemma year_bounds doe :
  0 <= doe < 146097 →
  let y := year_of doe in 0 <= y < 400 ∧ days_before y <= doe < days_before (y + 1).
Proof.
  intros Hd. cbv zeta.
  assert (0 <= year_of doe < 400) as Hy.
  { pose proof (year_of_mono 0 doe). pose proof (year_of_mono doe 146096).
    replace (year_of 0) with 0 in * by done. replace (year_of 146096) with 399 in * by done. lia. }
  split; [done|]. split.
  - apply Z.nlt_ge. intros Hlt.
    assert (0 < year_of doe).
    { destruct (decide (year_of doe = 0)) as [E|]; [|lia]. rewrite E in Hlt.
      replace (days_before 0) with 0 in Hlt by done. lia. }
    destruct (year_checked (year_of doe - 1)) as (_ & He & _); [lia|].
    replace (year_of doe - 1 + 1) with (year_of doe) in He by lia.
    assert (days_before (year_of doe) <= 146097).
    { unfold days_before. destruct (_ =? _); Z.div_mod_to_equations; lia. }
    pose proof (year_of_mono doe (days_before (year_of doe) - 1)). lia.
  - apply Z.nle_gt. intros Hle. destruct (decide (year_of doe = 399)) as [E|].
    { rewrite E in Hle. replace (days_before (399 + 1)) with 146097 in Hle by done. lia. }
    destruct (year_checked (year_of doe + 1)) as (He & _ & _); [lia|].
    assert (0 <= days_before (year_of doe + 1)).
    { unfold days_before. destruct (_ =? _); Z.div_mod_to_equations; lia. }
    pose proof (year_of_mono (days_before (year_of doe + 1)) doe). lia.
Qed.

Lemma civil_day_era k :
  0 <= k + 719468 < 146097 →
  ymd k < ymd (k + 1) ∧ let '(_, m, d) := civil k in 1 <= m <= 12 ∧ 1 <= d <= 31.
Proof.
  intros Hk. destruct (ymd_split k) as [E1 Ef], (ymd_split (k + 1)) as [E2 _]. cbv zeta in *.
  rewrite Z.mod_small, Z.div_small in * by done.
  destruct (year_bounds (k + 719468) Hk) as [Hy Hb].
  set (doe := k + 719468) in *. set (y := year_of doe) in *.
  assert (days_before y = 365 * y + y / 4 - y / 100) as Hdb.
  { unfold days_before. by destruct (Z.eqb_spec y 400); [lia|]. }
  rewrite <- Hdb in *. destruct (year_checked y Hy) as (_ & _ & Hlen).
  destruct (day_checked (doe - days_before y)) as (Hm & Hd & Hmd & Hnext); [lia|].
  split; [|destruct (civil k) as [[? m] d]; lia].
  destruct (decide (doe + 1 = 146097)) as [Hlast|].
  { replace (k + 1) with (-719468 + 146097 * 1) by lia. rewrite ymd_era, E1.
    replace (ymd (-719468)) with 301 by done. lia. }
  replace (k + 1 + 719468) with (doe + 1) in E2 by lia.
  rewrite Z.mod_small, Z.div_small in E2 by lia.
  destruct (year_bounds (doe + 1)) as [Hy' Hb']; [lia|].
  pose proof (year_of_mono doe (doe + 1)) as Hmono.
  destruct (decide (year_of (doe + 1) = y)) as [Hsame|].
  - rewrite Hsame, <- Hdb in E2. replace (doe + 1 - days_before y) with (doe - days_before y + 1) in E2 by lia.
    rewrite E1, E2. rewrite Hsame in Hb'. lia.
  - assert (1 <= md (doe + 1 - (365 * year_of (doe + 1) + year_of (doe + 1) / 4 - year_of (doe + 1) / 100))).
    { destruct (year_checked (year_of (doe + 1)) Hy') as (_ & _ & Hlen').
      assert (days_before (year_of (doe + 1)) = 365 * year_of (doe + 1) + year_of (doe + 1) / 4
                - year_of (doe + 1) / 100) as <-.
      { unfold days_before. by destruct (Z.eqb_spec (year_of (doe + 1)) 400); [lia|]. }
      destruct (day_checked (doe + 1 - days_before (year_of (doe + 1)))) as (? & ? & _); [lia|].
      unfold md. destruct (_ <=? 2); lia. }
    assert (y + 1 = year_of (doe + 1)) as Hsucc.
    { assert (y < year_of (doe + 1)) by lia.
      destruct (decide (y + 1 = year_of (doe + 1))); [done|].
      pose proof (year_of_mono (days_before (y + 1)) (doe + 1)). 
      destruct (year_checked (y + 1)) as (He & _ & _); [lia|].
      assert (doe + 1 = days_before (y + 1)) as Heq.
      { destruct (decide (doe + 1 < days_before (y + 1))); [|lia]. exfalso.
        destruct (year_checked y Hy) as (_ & He' & _).
        pose proof (year_of_mono (doe + 1) (days_before (y + 1) - 1)).
        assert (days_before (y + 1) <= 146097).
        { unfold days_before. destruct (_ =? _); Z.div_mod_to_equations; lia. }
        lia. }
      rewrite Heq in *. lia. }
    rewrite E1, E2, <- Hsucc in *.
    destruct (decide (10229 < 10000 + md (doe + 1 - (365 * (y + 1) + (y + 1) / 4 - (y + 1) / 100)))); [lia|].
    exfalso. assert (doe + 1 - (365 * (y + 1) + (y + 1) / 4 - (y + 1) / 100) = 0) as Hz.
    { assert (y + 1 < 400) by lia.
      assert (days_before (y + 1) = 365 * (y + 1) + (y + 1) / 4 - (y + 1) / 100) as Hd1.
      { unfold days_before. by destruct (Z.eqb_spec (y + 1) 400); [lia|]. }
      lia. }
    rewrite Hz in *. replace (md 0) with 301 in * by done. lia.
Qed.

Lemma civil_day k :
  ymd k < ymd (k + 1) ∧ let '(_, m, d) := civil k in 1 <= m <= 12 ∧ 1 <= d <= 31.
Proof.
  assert (∃ q r, k = r + 146097 * q ∧ -719468 <= r < -719468 + 146097) as (q & r & -> & Hr).
  { exists ((k + 719468) / 146097), ((k + 719468) mod 146097 - 719468).
    pose proof (Z.div_mod (k + 719468) 146097).
    pose proof (Z.mod_pos_bound (k + 719468) 146097). lia. }
  destruct (civil_day_era r) as [Hlt Hf]; [lia|].
  replace (r + 146097 * q + 1) with (r + 1 + 146097 * q) by lia. rewrite !ymd_era.
  split; [lia|]. rewrite civil_era. by destruct (civil r) as [[y m] d].
Qed.

Lemma ymd_mono_nat k n : ymd k + Z.of_nat n <= ymd (k + Z.of_nat n).
Proof.
  induction n as [|n IH]; [by rewrite !Z.add_0_r|].
  pose proof (proj1 (civil_day (k + Z.of_nat n))).
  replace (k + Z.of_nat (S n)) with (k + Z.of_nat n + 1) by lia. lia.
Qed.

Lemma ymd_mono k l : k < l → ymd k < ymd l.
Proof.
  intros H. pose proof (ymd_mono_nat k (Z.to_nat (l - k))).
  rewrite Z2Nat.id in * by lia. replace (k + (l - k)) with l in * by lia. lia.
Qed.

Lemma ymd_mono_le k l : k <= l → ymd k <= ymd l.
Proof. intros. destruct (decide (k = l)) as [->|]; [lia|]. pose proof (ymd_mono k l). lia. Qed.

(** ** Text order of fixed-width fields *)
Lemma compare_cons a b s t :
  String.compare (String a s) (String b t) =
    match Ascii.compare a b with Eq => String.compare s t | c => c end.
Proof. done. Qed.

Lemma compare_same c s t : String.compare (String c s) (String c t) = String.compare s t.
Proof. rewrite compare_cons. unfold Ascii.compare. by rewrite N.compare_refl. Qed.

Lemma digit_compare a b :
  0 <= a < 10 → 0 <= b < 10 →
  Ascii.compare (ascii_of_nat (48 + Z.to_nat a)) (ascii_of_nat (48 + Z.to_nat b)) = (a ?= b).
Proof.
  intros Ha Hb. unfold Ascii.compare, ascii_of_nat.
  rewrite !N_ascii_embedding by lia.
  destruct (Z.compare_spec a b) as [->|H|H].
  - apply N.compare_refl.
  - apply N.compare_lt_iff. lia.
  - apply N.compare_gt_iff. lia.
Qed.

Lemma digits_compare w a b s t :
  0 <= a < 10 ^ Z.of_nat w → 0 <= b < 10 ^ Z.of_nat w →
  String.compare (digits w a s) (digits w b t) =
    match a ?= b with Eq => String.compare s t | c => c end.
Proof.
  revert a b s t. induction w as [|w IH]; intros a b s t Ha Hb.
  - cbn in *. by replace a with 0 by lia; replace b with 0 by lia.
  - rewrite Nat2Z.inj_succ, Z.pow_succ_r in Ha, Hb by lia. cbn [digits].
    rewrite IH by (split; [apply Z.div_pos; lia|apply Z.div_lt_upper_bound; lia]).
    rewrite compare_cons, digit_compare by (apply Z.mod_pos_bound; lia).
    pose proof (Z.div_mod a 10). pose proof (Z.div_mod b 10).
    pose proof (Z.mod_pos_bound a 10). pose proof (Z.mod_pos_bound b 10).
    destruct (Z.compare_spec (a / 10) (b / 10)) as [E|?|?];
      destruct (Z.compare_spec (a mod 10) (b mod 10)) as [E'|?|?];
      destruct (Z.compare_spec a b); done || lia.
Qed.

(** ** The order of instants is the order of their text *)
Lemma civil_range day :
  -719528 <= day < 2932897 →
  let '(y, m, d) := civil day in 0 <= y < 10000 ∧ 1 <= m <= 12 ∧ 1 <= d <= 31.
Proof.
  intros Hd. destruct (civil_day day) as [_ Hf].
  pose proof (ymd_mono_le (-719528) day) as Hl. pose proof (ymd_mono_le day 2932896) as Hu.
  replace (ymd (-719528)) with 101 in Hl by done.
  replace (ymd 2932896) with 99991231 in Hu by done.
  unfold ymd in Hl, Hu. destruct (civil day) as [[y m] d]. lia.
Qed.

Lemma in_range_day ms :
  in_range ms → -719528 <= ms / ms_per_day < 2932897 ∧ 0 <= ms mod ms_per_day < ms_per_day.
Proof.
  unfold in_range, ms_per_day. intros H. pose proof (Z.mod_pos_bound ms 86400000).
  pose proof (Z.div_mod ms 86400000). lia.
Qed.

Lemma toISOString_compare a b :
  in_range a → in_range b → String.compare (toISOString a) (toISOString b) = (a ?= b).
Proof.
  intros Ha Hb. destruct (in_range_day a Ha) as [Da Ta], (in_range_day b Hb) as [Db Tb].
  pose proof (civil_range _ Da) as Ca. pose proof (civil_range _ Db) as Cb.
  pose proof (ymd_mono (a / ms_per_day) (b / ms_per_day)) as M1.
  pose proof (ymd_mono (b / ms_per_day) (a / ms_per_day)) as M2.
  assert (a = ms_per_day * (a / ms_per_day) + a mod ms_per_day) as Ea
    by (apply Z.div_mod; done).
  assert (b = ms_per_day * (b / ms_per_day) + b mod ms_per_day) as Eb
    by (apply Z.div_mod; done).
  assert (a / ms_per_day = b / ms_per_day → ymd (a / ms_per_day) = ymd (b / ms_per_day)) as M3
    by (intros ->; done).
  unfold toISOString, ymd in *.
  destruct (civil (a / ms_per_day)) as [[ya ma] da], (civil (b / ms_per_day)) as [[yb mb] db].
  set (ta := a mod ms_per_day) in *. set (tb := b mod ms_per_day) in *.
  set (qa := a / ms_per_day) in *. set (qb := b / ms_per_day) in *.
  clearbody ta tb qa qb. unfold ms_per_day in *. clear Ha Hb Da Db.
  rewrite !digits_compare, !compare_same, !digits_compare, !compare_same, !digits_compare,
    !compare_same, !digits_compare, !compare_same, !digits_compare, !compare_same,
    !digits_compare, !compare_same, !digits_compare, !compare_same
    by (cbn; split; Z.div_mod_to_equations; lia).
  cbn [String.compare].
  destruct (Z.compare_spec a b);
    repeat match goal with |- context [?x ?= ?y] => destruct (Z.compare_spec x y) end;
    try done; exfalso; Z.div_mod_to_equations; lia.
Qed.

Lemma text_ltb_iso a b :
  in_range a → in_range b → text_ltb (toISOString a) (toISOString b) = (a <? b).
Proof.
  intros Ha Hb. unfold text_ltb. rewrite toISOString_compare by done.
  destruct (Z.compare_spec a b), (Z.ltb_spec a b); done || lia.
Qed.

Lemma text_leb_iso a b :
  in_range a → in_range b → text_leb (toISOString a) (toISOString b) = (a <=? b).
Proof.
  intros Ha Hb. unfold text_leb. rewrite toISOString_compare by done.
  destruct (Z.compare_spec a b), (Z.leb_spec a b); done || lia.
Qed.

Lemma toISOString_inj a b : in_range a → in_range b → toISOString a = toISOString b → a = b.
Proof.
  intros Ha Hb H. apply Z.compare_eq. rewrite <- toISOString_compare by done. rewrite H.
  clear. induction (toISOString b) as [|c s IH]; [done|]. by rewrite compare_same.
Qed.

Example epoch_text : toISOString 0 = "1970-01-01T00:00:00.000Z"%string.
Proof. reflexivity. Qed.
Example leap_text : toISOString 1709164800001 = "2024-02-29T00:00:00.001Z"%string.
Proof. reflexivity. Qed.

(** ** Reading an instant back

    [Date.parse] on the texts that match the strict pattern
    [YYYY-MM-DDTHH:mm:ss.sssZ]. *)
Definition days_from_civil (y m d : Z) : Z :=
  let y' := if m <=? 2 then y - 1 else y in
  let era := y' / 400 in
  let yoe := y' mod 400 in
  let mp := if m <=? 2 then m + 9 else m - 3 in
  let doy := (153 * mp + 2) / 5 + d - 1 in
  era * 146097 + (yoe * 365 + yoe / 4 - yoe / 100 + doy) - 719468.

Definition digit_value (c : ascii) : option Z :=
  let v := Z.of_N (N_of_ascii c) - 48 in
  if (0 <=? v) && (v <=? 9) then Some v else None.

(** [w] decimal digits, then the rest of the text. *)
Fixpoint read_digits (w : nat) (acc : Z) (s : string) : option (Z * string) :=
  match w, s with
  | O, _ => Some (acc, s)
  | S w', String c s' => v ← digit_value c; read_digits w' (acc * 10 + v) s'
  | S _, EmptyString => None
  end.

Definition expect (c : ascii) (s : string) : option string :=
  match s with String c' s' => if Ascii.eqb c' c then Some s' else None | EmptyString => None end.

Definition parse_iso (s : string) : option Z :=
  '(y, s) ← read_digits 4 0 s; s ← expect "-" s;
  '(m, s) ← read_digits 2 0 s; s ← expect "-" s;
  '(d, s) ← read_digits 2 0 s; s ← expect "T" s;
  '(h, s) ← read_digits 2 0 s; s ← expect ":" s;
  '(mi, s) ← read_digits 2 0 s; s ← expect ":" s;
  '(sec, s) ← read_digits 2 0 s; s ← expect "." s;
  '(ms, s) ← read_digits 3 0 s; s ← expect "Z" s;
  if String.eqb s EmptyString
  then Some (days_from_civil y m d * ms_per_day + h * 3600000 + mi * 60000 + sec * 1000 + ms)
  else None.

Example parse_epoch : parse_iso "1970-01-01T00:00:00.000Z"%string = Some 0.
Proof. reflexivity. Qed.
Example parse_leap : parse_iso "2024-02-29T00:00:00.001Z"%string = Some 1709164800001.
Proof. reflexivity. Qed.
