(* ===== verification/CanonicalJson.v ===== *)
(** * Canonical JSON text

    The text the digests are taken of: object keys in code-unit order and no
    white space.  Models [canonicalize] of
    [packages/runner-kernel/src/deterministic-policy-gate.ts]; strings are
    written as [JSON.stringify] does.  The decimal text of a number is the
    parameter [number_text]; [integers_written] is what the language documents
    of the texts of the safe integers. *)
From S2P Require Import Prelude Number Json.
From Stdlib Require Import Ascii.
From stdpp Require Import pretty.

Module CanonicalJson.

(** ** [JSON.stringify] of a string *)
Definition chr (n : nat) : string := String (ascii_of_nat n) EmptyString.
Definition hex_digit (n : nat) : string := chr (if (n <? 10)%nat then 48 + n else 87 + n)%nat.

(** Two-character escapes of the quote, the reverse solidus and the named
    control characters; [\u00xx] for the other control characters. *)
Definition escape (c : ascii) : string :=
  let n := nat_of_ascii c in
  match n with
  | 8 => chr 92 +:+ "b"
  | 9 => chr 92 +:+ "t"
  | 10 => chr 92 +:+ "n"
  | 12 => chr 92 +:+ "f"
  | 13 => chr 92 +:+ "r"
  | 34 => chr 92 +:+ chr 34
  | 92 => chr 92 +:+ chr 92
  | _ => if (n <? 32)%nat
         then chr 92 +:+ "u00" +:+ hex_digit (n / 16) +:+ hex_digit (n mod 16)
         else String c EmptyString
  end%nat.

Fixpoint escape_all (s : string) : string :=
  match s with EmptyString => EmptyString | String c s' => escape c +:+ escape_all s' end.

Definition quote (s : string) : string := chr 34 +:+ escape_all s +:+ chr 34.

(** ** Key order: [Array.prototype.sort] compares UTF-16 code units *)
Fixpoint code_units (fuel : nat) (l : list Z) : list Z :=
  match fuel, l with
  | S n, b :: r =>
      if (b <? 192)%Z then b :: code_units n r
      else if (b <? 224)%Z then
        match r with b1 :: r' => ((b - 192) * 64 + (b1 - 128))%Z :: code_units n r' | _ => [b] end
      else if (b <? 240)%Z then
        match r with
        | b1 :: b2 :: r' =>
            ((b - 224) * 4096 + (b1 - 128) * 64 + (b2 - 128))%Z :: code_units n r'
        | _ => [b]
        end
      else
        match r with
        | b1 :: b2 :: b3 :: r' =>
            let p := ((b - 240) * 262144 + (b1 - 128) * 4096 + (b2 - 128) * 64
                      + (b3 - 128) - 65536)%Z in
            (55296 + p / 1024)%Z :: (56320 + p mod 1024)%Z :: code_units n r'
        | _ => [b]
        end
  | _, _ => []
  end.

Fixpoint lex_leb (a b : list Z) : bool :=
  match a, b with
  | [], _ => true
  | _, [] => false
  | x :: a', y :: b' => (x <? y)%Z || ((x =? y)%Z && lex_leb a' b')
  end.

Definition key_leb (a b : string) : bool :=
  lex_leb (code_units (length (bytes a)) (bytes a)) (code_units (length (bytes b)) (bytes b)).

(** Insertion sort by key; the keys of an object are distinct, so every sort
    gives the same list. *)
Section sort.
Context {A : Type}.
Fixpoint insert_field (kv : string * A) (l : list (string * A)) : list (string * A) :=
  match l with
  | [] => [kv]
  | kv' :: l' => if key_leb kv.1 kv'.1 then kv :: l else kv' :: insert_field kv l'
  end.
Definition sort_fields (l : list (string * A)) : list (string * A) := foldr insert_field [] l.
End sort.

(** [entries.join(",")]. *)
Fixpoint join (l : list string) : string :=
  match l with
  | [] => EmptyString
  | [x] => x
  | x :: l' => x +:+ "," +:+ join l'
  end.

Section canonical.
Context (number_text : number → string).

Definition entry (kv : string * string) : string := quote kv.1 +:+ ":" +:+ kv.2.

(** The children are written before their keys are ordered: the same text, by
    structural recursion. *)
Fixpoint canonicalize (v : json) : string :=
  match v with
  | JNull => "null"
  | JBool true => "true"
  | JBool false => "false"
  | JNum n => number_text n
  | JStr s => quote s
  | JArr l => "[" +:+ join (map canonicalize l) +:+ "]"
  | JObj fields =>
      "{" +:+ join (map entry (sort_fields (map (λ '(k, x), (k, canonicalize x)) fields))) +:+ "}"
  end.
End canonical.

(** ** Unique decodability

    The text of a value determines the value it was written for, whatever
    delimiter follows the text. *)
Definition delimiter (c : ascii) : bool :=
  Ascii.eqb c "," || Ascii.eqb c "]" || Ascii.eqb c "}".
Definition delimited (r : string) : bool :=
  match r with EmptyString => true | String c _ => delimiter c end.

Definition prefix_free {A} (P : A → Prop) (f : A → string) (x : A) : Prop :=
  ∀ y r1 r2, P y → delimited r1 = true → delimited r2 = true →
    f x +:+ r1 = f y +:+ r2 → x = y ∧ r1 = r2.

Lemma append_nil_l b : EmptyString +:+ b = b.
Proof. done. Qed.
Lemma append_cons x a b : String x a +:+ b = String x (a +:+ b).
Proof. done. Qed.

Lemma append_assoc (a b c : string) : (a +:+ b) +:+ c = a +:+ (b +:+ c).
Proof.
  induction a as [|x a IH]; rewrite ?append_nil_l; [done|].
  by rewrite !append_cons, IH.
Qed.

Fixpoint is_prefix (a b : string) : bool :=
  match a, b with
  | EmptyString, _ => true
  | String _ _, EmptyString => false
  | String x a', String y b' => Ascii.eqb x y && is_prefix a' b'
  end.

Lemma append_prefix a b r1 r2 : a +:+ r1 = b +:+ r2 → is_prefix a b || is_prefix b a = true.
Proof.
  revert b. induction a as [|x a IH]; intros [|y b]; try done.
  rewrite !append_cons. cbn [is_prefix]. intros [= -> H]. rewrite Ascii.eqb_refl. cbn. by apply IH in H.
Qed.

Lemma append_inj a r1 r2 : a +:+ r1 = a +:+ r2 → r1 = r2.
Proof.
  induction a as [|x a IH]; [done|]. rewrite !append_cons. intros [= H]. by apply IH.
Qed.

Definition all_chars : list ascii := map ascii_of_nat (seq 0 256).

Lemma all_chars_complete c : In c all_chars.
Proof.
  apply in_map_iff. exists (nat_of_ascii c). split; [apply ascii_nat_embedding|].
  apply in_seq. split; [lia|]. pose proof (nat_ascii_bounded c). lia.
Qed.

(** No escape is a proper prefix of another, and none starts with the quote. *)
Definition escape_pair_ok (c d : ascii) : bool :=
  Ascii.eqb c d || negb (is_prefix (escape c) (escape d)).
Definition escape_ok (c : ascii) : bool :=
  negb (is_prefix (escape c) (chr 34)) && negb (is_prefix (chr 34) (escape c)).

Lemma for_all_chars (f : ascii → bool) : forallb f all_chars = true → ∀ c, f c = true.
Proof. intros H c. rewrite forallb_forall in H. apply H, all_chars_complete. Qed.

Lemma escape_pairs c d : escape_pair_ok c d = true.
Proof.
  apply (for_all_chars (escape_pair_ok c)). revert c.
  apply (for_all_chars (λ c, forallb (escape_pair_ok c) all_chars)). vm_compute. reflexivity.
Qed.

Lemma escape_oks c : escape_ok c = true.
Proof. apply for_all_chars. vm_compute. reflexivity. Qed.

Lemma escape_facts c :
  (∀ d, is_prefix (escape c) (escape d) = true → c = d) ∧
  is_prefix (escape c) (chr 34) = false ∧ is_prefix (chr 34) (escape c) = false.
Proof.
  split.
  - intros d Hd. pose proof (escape_pairs c d) as H. unfold escape_pair_ok in H.
    rewrite Hd, orb_false_r in H. by apply Ascii.eqb_eq in H.
  - pose proof (escape_oks c) as H. unfold escape_ok in H.
    apply andb_true_iff in H as [?%negb_true_iff ?%negb_true_iff]. by split.
Qed.

Lemma escape_all_prefix_free s t r1 r2 :
  escape_all s +:+ chr 34 +:+ r1 = escape_all t +:+ chr 34 +:+ r2 → s = t ∧ r1 = r2.
Proof.
  revert t. induction s as [|c s IH]; intros [|d t]; cbn [escape_all]; rewrite ?append_nil_l.
  - intros H. by apply append_inj in H.
  - rewrite append_assoc. intros H. apply append_prefix in H.
    destruct (escape_facts d) as (_ & H1 & H2). by rewrite H1, H2 in H.
  - rewrite append_assoc. intros H. apply append_prefix in H.
    destruct (escape_facts c) as (_ & H1 & H2). by rewrite H1, H2 in H.
  - rewrite !append_assoc. intros H. pose proof (append_prefix _ _ _ _ H) as Hp.
    assert (c = d) as ->.
    { apply orb_true_iff in Hp as [Hp|Hp]; [|symmetry]; by apply escape_facts in Hp. }
    apply append_inj in H. apply IH in H as [-> ->]. done.
Qed.

Lemma quote_prefix_free s t r1 r2 : quote s +:+ r1 = quote t +:+ r2 → s = t ∧ r1 = r2.
Proof.
  unfold quote. rewrite !append_assoc. intros H.
  apply append_inj in H. by apply escape_all_prefix_free in H.
Qed.

(** A list written with separators and a closing bracket. *)
Definition closed {A} (f : A → string) (close : ascii) (l : list A) (r : string) : string :=
  join (map f l) +:+ String close r.

Fixpoint tail {A} (f : A → string) (close : ascii) (l : list A) (r : string) : string :=
  match l with
  | [] => String close r
  | x :: l' => "," +:+ f x +:+ tail f close l' r
  end.

Lemma closed_cons {A} (f : A → string) close x l r :
  closed f close (x :: l) r = f x +:+ tail f close l r.
Proof.
  unfold closed. revert x. induction l as [|y l IH]; intros x; cbn; [done|].
  specialize (IH y). cbn in IH. rewrite append_assoc. f_equal. cbn. by rewrite <- IH.
Qed.

Lemma tail_delimited {A} (f : A → string) close l r :
  delimiter close = true → delimited (tail f close l r) = true.
Proof. by destruct l. Qed.

Lemma closed_prefix_free {A} (P : A → Prop) (f : A → string) close l :
  Forall (prefix_free P f) l → close <> ","%char → delimiter close = true →
  (∀ x r r', P x → f x +:+ r ≠ String close r') → Forall P l →
  ∀ l' r1 r2, Forall P l' → closed f close l r1 = closed f close l' r2 → l = l' ∧ r1 = r2.
Proof.
  intros Hf Hclose Hdel Hhead HPl.
  assert (∀ l, Forall (prefix_free P f) l → ∀ l' r1 r2, Forall P l' →
    tail f close l r1 = tail f close l' r2 → l = l' ∧ r1 = r2) as Htail.
  { clear l Hf HPl. induction 1 as [|x l Hx _ IH]; intros [|y l'] r1 r2 HP; cbn.
    - by intros [= ->].
    - intros [= ? ?]. done.
    - intros [= ? ?]. done.
    - apply Forall_cons in HP as [Hy HP]. intros [= H].
      apply Hx in H as [-> H]; [|done|by apply tail_delimited..]. by apply IH in H as [-> ->]. }
  intros [|y l'] r1 r2 HP; destruct Hf as [|x l Hx Hf].
  - by intros [= ->].
  - rewrite closed_cons. intros H. apply Hhead in H; [done|]. by apply Forall_cons in HPl as [? _].
  - rewrite closed_cons. intros H. symmetry in H. apply Hhead in H; [done|].
    by apply Forall_cons in HP as [? _].
  - rewrite !closed_cons. apply Forall_cons in HP as [Hy HP]. intros H.
    apply Hx in H as [-> H]; [|done|by apply tail_delimited..]. by apply Htail in H as [-> ->].
Qed.

(** ** The texts of numbers

    A text without brackets, commas or quotes. *)
Definition number_char (c : ascii) : bool :=
  let n := nat_of_ascii c in
  (((48 <=? n) && (n <=? 57)) || (n =? 43) || (n =? 45) || (n =? 46) || (n =? 101))%nat.
Fixpoint plain (s : string) : bool :=
  match s with EmptyString => true | String c s' => number_char c && plain s' end.

Definition safe (n : number) : bool := bool_decide (is_Some (safe_integer n)).

(** [Number::toString] writes a safe integer in decimal. *)
Definition integers_written (number_text : number → string) : Prop :=
  ∀ n z, safe_integer n = Some z → number_text n = pretty z.

Lemma number_char_facts c : number_char c = true →
  delimiter c = false ∧ c ≠ ascii_of_nat 34 ∧ c ≠ "["%char ∧ c ≠ "{"%char ∧ c ≠ "n"%char ∧ c ≠ "t"%char ∧ c ≠ "f"%char.
Proof. by destruct c as [[] [] [] [] [] [] [] []]. Qed.

Lemma plain_prefix_free a b r1 r2 :
  plain a = true → plain b = true → delimited r1 = true → delimited r2 = true →
  a +:+ r1 = b +:+ r2 → a = b ∧ r1 = r2.
Proof.
  intros Ha Hb H1 H2. revert b Hb. induction a as [|x a IH]; intros [|y b]; cbn [plain]; intros Hb.
  - by rewrite !append_nil_l.
  - rewrite append_nil_l, append_cons. intros ->. cbn in H1.
    apply andb_true_iff in Hb as [[Hy _]%number_char_facts _]. congruence.
  - rewrite append_nil_l, append_cons. intros <-. cbn in H2. cbn [plain] in Ha.
    apply andb_true_iff in Ha as [[Hx _]%number_char_facts _]. congruence.
  - rewrite !append_cons. intros [= -> H]. cbn [plain] in Ha.
    apply andb_true_iff in Ha as [_ Ha], Hb as [_ Hb]. by destruct (IH Ha b Hb H) as [-> ->].
Qed.

Lemma pretty_char_plain x : number_char (pretty_N_char x) = true.
Proof. unfold pretty_N_char. by repeat case_match. Qed.

Lemma pretty_go_plain x s : plain s = true → plain (pretty_N_go x s) = true.
Proof.
  revert s. induction (N.lt_wf_0 x) as [x _ IH]; intros s Hs.
  destruct (decide (x = 0%N)) as [->|Hx]; [by rewrite pretty_N_go_0|].
  rewrite pretty_N_go_step by lia. apply IH; [by apply N.div_lt; lia|].
  cbn [plain]. by rewrite pretty_char_plain.
Qed.

Lemma pretty_plain (z : Z) : plain (pretty z) = true ∧ pretty z ≠ EmptyString.
Proof.
  assert (∀ p s, pretty_N_go p s = EmptyString → s = EmptyString) as Hne.
  { intros x. induction (N.lt_wf_0 x) as [x _ IH]; intros s.
    destruct (decide (x = 0%N)) as [->|Hx]; [by rewrite pretty_N_go_0|].
    rewrite pretty_N_go_step by lia. intros H. by apply IH in H; [|apply N.div_lt; lia]. }
  destruct z as [|p|p]; [done|split..].
  - by apply (pretty_go_plain (N.pos p) EmptyString).
  - unfold pretty, pretty_Z, pretty, pretty_positive, pretty, pretty_N.
    destruct (decide _); [done|]. rewrite pretty_N_go_step by lia. intros H. by apply Hne in H.
  - change (plain (String "-" (pretty_N_go (N.pos p) EmptyString)) = true). cbn [plain]. by rewrite pretty_go_plain.
  - done.
Qed.

(** ** Induction on JSON values, through their lists *)
Section induction.
Context (P : json → Prop).
Context (Hnull : P JNull) (Hbool : ∀ b, P (JBool b)) (Hnum : ∀ n, P (JNum n))
  (Hstr : ∀ s, P (JStr s)) (Harr : ∀ l, Forall P l → P (JArr l))
  (Hobj : ∀ fields, Forall (λ kv, P kv.2) fields → P (JObj fields)).

Fixpoint json_ind_nested (v : json) : P v :=
  match v with
  | JNull => Hnull
  | JBool b => Hbool b
  | JNum n => Hnum n
  | JStr s => Hstr s
  | JArr l => Harr l ((fix go l : Forall P l :=
      match l with [] => Forall_nil_2 P | x :: l' => Forall_cons_2 P x l' (json_ind_nested x) (go l') end) l)
  | JObj fields => Hobj fields ((fix go l : Forall (λ kv, P kv.2) l :=
      match l with
      | [] => Forall_nil_2 _
      | kv :: l' => Forall_cons_2 _ kv l' (json_ind_nested kv.2) (go l')
      end) fields)
  end.
End induction.

(** A value with the keys of every object in order. *)
Fixpoint normalize (v : json) : json :=
  match v with
  | JArr l => JArr (map normalize l)
  | JObj fields => JObj (sort_fields (map (λ '(k, x), (k, normalize x)) fields))
  | _ => v
  end.

(** All the numbers of a value satisfy [ok]; a value without numbers. *)
Fixpoint numbered (ok : number → bool) (v : json) : bool :=
  match v with
  | JNum n => ok n
  | JArr l => forallb (numbered ok) l
  | JObj fields => forallb (λ '(_, x), numbered ok x) fields
  | _ => true
  end.
Definition numberless : json → bool := numbered (λ _, false).

(** Ordering the keys changes no property of an object. *)
Lemma lex_leb_refl l : lex_leb l l = true.
Proof. induction l as [|x l IH]; cbn; [done|]. by rewrite Z.eqb_refl, IH, orb_true_r. Qed.

Lemma get_field_insert k kv l :
  get_field k (insert_field kv l) = get_field k (kv :: l).
Proof.
  induction l as [|[k' x'] l IH]; [done|]. cbn [insert_field fst].
  destruct (key_leb kv.1 k') eqn:Hle; [done|]. cbn [get_field]. rewrite IH.
  destruct kv as [k0 x0]. cbn [get_field].
  destruct (String.eqb_spec k' k) as [->|]; [|done].
  destruct (String.eqb_spec k0 k) as [->|]; [|done].
  unfold key_leb in Hle. cbn [fst] in Hle. by rewrite lex_leb_refl in Hle.
Qed.

Lemma get_field_normalize k fields fields' :
  normalize (JObj fields) = normalize (JObj fields') →
  normalize <$> get_field k fields = normalize <$> get_field k fields'.
Proof.
  assert (∀ l, get_field k (sort_fields (map (λ '(k, x), (k, normalize x)) l))
             = normalize <$> get_field k l) as H.
  { induction l as [|[k' x] l IH]; [done|]. cbn [map sort_fields foldr].
    rewrite get_field_insert. cbn [get_field]. fold (sort_fields (map (λ '(k, x), (k, normalize x)) l)).
    rewrite IH. by destruct (String.eqb k' k). }
  cbn [normalize]. intros [= Heq]. by rewrite <- !H, Heq.
Qed.

(** A list of strings is determined by its JSON. *)
Lemma strings_inj l l' : normalize (JArr (JStr <$> l)) = normalize (JArr (JStr <$> l')) → l = l'.
Proof.
  cbn [normalize]. intros [= H]. revert l' H.
  induction l as [|x l IH]; intros [|y l']; try done. intros [= -> ?]. f_equal. by apply IH.
Qed.

Section decodability.
Context (number_text : number → string).

(** The text of a value whose keys are in order already. *)
Fixpoint render (v : json) : string :=
  match v with
  | JArr l => "[" +:+ join (map render l) +:+ "]"
  | JObj fields => "{" +:+ join (map (λ '(k, x), entry (k, render x)) fields) +:+ "}"
  | _ => canonicalize number_text v
  end.

Lemma insert_field_map {A B} (f : A → B) k x l :
  insert_field (k, f x) (map (λ '(k, x), (k, f x)) l)
  = map (λ '(k, x), (k, f x)) (insert_field (k, x) l).
Proof.
  induction l as [|[k' x'] l IH]; cbn [insert_field map]; [done|]. cbn [fst].
  destruct (key_leb k k'); [done|]. cbn [map]. by rewrite IH.
Qed.

Lemma sort_fields_map {A B} (f : A → B) l :
  sort_fields (map (λ '(k, x), (k, f x)) l) = map (λ '(k, x), (k, f x)) (sort_fields l).
Proof.
  induction l as [|[k x] l IH]; cbn; [done|]. fold (sort_fields (map (λ '(k, x), (k, f x)) l)).
  rewrite IH. apply insert_field_map.
Qed.

Lemma insert_field_perm {A} kv (l : list (string * A)) : insert_field kv l ≡ₚ kv :: l.
Proof.
  induction l as [|kv' l IH]; cbn; [done|].
  destruct (key_leb _ _); [done|]. rewrite IH. apply Permutation_swap.
Qed.

Lemma sort_fields_perm {A} (l : list (string * A)) : sort_fields l ≡ₚ l.
Proof. induction l as [|kv l IH]; cbn; [done|]. rewrite insert_field_perm. by constructor. Qed.

Lemma canonicalize_render v : canonicalize number_text v = render (normalize v).
Proof.
  induction v as [|b|n|s|l IH|fields IH] using json_ind_nested; try done.
  - cbn [canonicalize normalize render]. do 3 f_equal. rewrite map_map.
    induction IH as [|x l Hx _ IH]; cbn; [done|]. by rewrite Hx, IH.
  - cbn [canonicalize normalize render]. do 3 f_equal. rewrite !sort_fields_map, !map_map.
    assert (∀ l, Forall (λ kv, canonicalize number_text kv.2 = render (normalize kv.2)) l →
      map (λ x : string * json, entry (let '(k, x0) := x in (k, canonicalize number_text x0))) l
      = map (λ x, let '(k, x0) := let '(k, x0) := x in (k, normalize x0) in entry (k, render x0)) l)
      as Hmap.
    { induction 1 as [|[k x] l Hx _ IHl]; cbn; [done|]. cbn in Hx. by rewrite Hx, IHl. }
    apply Hmap. by rewrite sort_fields_perm.
Qed.

(** The numbers written are told apart by plain texts. *)
Context (ok : number → bool).
Context (ok_text : ∀ n, ok n = true → plain (number_text n) = true ∧ number_text n ≠ EmptyString).
Context (ok_inj : ∀ n m, ok n = true → ok m = true → number_text n = number_text m → n = m).
Notation fine := (λ v, numbered ok v = true).

Lemma number_head n : ok n = true → ∃ c s, number_text n = String c s ∧ number_char c = true.
Proof.
  intros [Hp Hne]%ok_text. destruct (number_text n) as [|c s]; [done|]. exists c, s.
  split; [done|]. cbn in Hp. by apply andb_true_iff in Hp as [? _].
Qed.

(** The text of a number starts no other value and no bracket. *)
Lemma number_starts n r c t :
  ok n = true → number_text n +:+ r = String c t → number_char c = true.
Proof. intros (d & s & -> & Hd)%number_head. rewrite append_cons. by intros [= <- _]. Qed.

Lemma render_head v r r' :
  fine v → render v +:+ r ≠ String "]" r'.
Proof.
  destruct v as [|[]|n| | |]; cbn; intros H; try done; try (intros [=]; done).
  intros E. by apply (number_starts _ _ _ _ H) in E.
Qed.

Lemma number_other n w r1 r2 :
  ok n = true → fine w → (∀ m, w ≠ JNum m) → number_text n +:+ r1 ≠ render w +:+ r2.
Proof.
  intros Hn Hw Hne H. destruct w as [|[]|m|s|l|fields]; cbn [render canonicalize] in H;
    unfold quote in H; rewrite ?append_assoc in H; try apply (number_starts _ _ _ _ Hn) in H; try done.
  by apply (Hne m).
Qed.

Lemma number_prefix_free n : ok n = true → prefix_free fine render (JNum n).
Proof.
  intros Hn w r1 r2 Hw H1 H2. cbn [render canonicalize]. intros H.
  destruct w as [|b|m|s|l|fields].
  3:{ cbn [render canonicalize] in H. apply plain_prefix_free in H as [H ->]; [|by apply ok_text..|done|done].
      by rewrite (ok_inj n m). }
  all: by apply number_other in H.
Qed.

Ltac not_number := intros H; symmetry in H; by apply number_other in H.

Lemma entry_prefix_free k x :
  prefix_free fine render x →
  prefix_free (λ kv, fine kv.2) (λ '(k, x), entry (k, render x)) (k, x).
Proof.
  intros Hx [k' y] r1 r2 Hy H1 H2. unfold entry. cbn [fst snd]. rewrite !append_assoc. intros H.
  apply quote_prefix_free in H as [-> H]. apply append_inj in H.
  by apply Hx in H as [-> ->].
Qed.

Lemma forallb_Forall_eq {A} (f : A → bool) l :
  forallb f l = true → Forall (λ x, f x = true) l.
Proof.
  rewrite forallb_forall, Forall_forall. intros H x Hx. by apply H, list_elem_of_In.
Qed.

Lemma numbered_fields (fields : list (string * json)) :
  numbered ok (JObj fields) = true → Forall (λ kv, fine kv.2) fields.
Proof.
  intros H. apply forallb_Forall_eq in H. eapply Forall_impl; [exact H|]. by intros [k x].
Qed.

(** The text of a value and whatever follows it determine the value. *)
Lemma render_prefix_free v : fine v → prefix_free fine render v.
Proof.
  induction v as [|b|n|s|l IH|fields IH] using json_ind_nested; intros Hv w r1 r2 Hw H1 H2;
    [| |by apply number_prefix_free|..].
  - destruct w as [|[]|m| | |]; try (intros [=]; done). not_number.
  - destruct b, w as [|[]|m| | |]; try (intros [=]; done); not_number.
  - destruct w as [|[]|m| | |]; try (intros [=]; done); [not_number|].
    cbn [render canonicalize]. intros H. by apply quote_prefix_free in H as [-> ->].
  - destruct w as [|[]|m| |l'|]; try (intros [=]; done); [not_number|].
    cbn [render]. rewrite !append_assoc. intros H. apply append_inj in H.
    apply forallb_Forall_eq in Hv, Hw.
    apply (closed_prefix_free fine render "]"%char) in H as [-> ->]; try done.
    + rewrite Forall_forall in IH, Hv |- *. intros x Hx. apply IH; [done|]. by apply Hv.
    + intros x r r'. apply render_head.
  - destruct w as [|[]|m| | |fields']; try (intros [=]; done); [not_number|].
    cbn [render]. rewrite !append_assoc. intros H. apply append_inj in H.
    apply numbered_fields in Hv, Hw.
    apply (closed_prefix_free (λ kv, fine kv.2)
             (λ '(k, x), entry (k, render x)) "}"%char) in H as [-> ->]; try done.
    + rewrite Forall_forall in IH, Hv |- *. intros [k x] Hx. apply entry_prefix_free.
      apply (IH (k, x)); [done|]. by apply (Hv (k, x)).
    + intros [k x] r r' _. unfold entry, quote. rewrite !append_assoc. intros [=].
Qed.

Lemma numbered_normalize v : fine v → fine (normalize v).
Proof.
  induction v as [|b|n|s|l IH|fields IH] using json_ind_nested; try done; intros Hv.
  - apply forallb_Forall_eq in Hv. apply forallb_forall.
    rewrite Forall_forall in IH, Hv. intros y Hy.
    apply in_map_iff in Hy as (x & <- & Hx%list_elem_of_In). by apply IH, Hv.
  - apply numbered_fields in Hv. rewrite Forall_forall in IH, Hv.
    cbn. rewrite sort_fields_map. apply forallb_forall. intros [k x] Hx.
    apply in_map_iff in Hx as ([k' x'] & [= -> <-] & Hx%list_elem_of_In).
    rewrite sort_fields_perm in Hx. apply (IH (k, x')), (Hv (k, x')); done.
Qed.

(** Equal canonical texts come from values that are equal up to the order of
    their keys. *)
Lemma numbered_inj v w :
  fine v → fine w → canonicalize number_text v = canonicalize number_text w → normalize v = normalize w.
Proof.
  intros Hv Hw H. rewrite !canonicalize_render in H.
  apply (render_prefix_free (normalize v) (numbered_normalize v Hv) (normalize w)
           EmptyString EmptyString); [by apply numbered_normalize|done|done|]. by rewrite H.
Qed.
End decodability.

Lemma canonicalize_inj number_text v w :
  numberless v = true → numberless w = true →
  canonicalize number_text v = canonicalize number_text w → normalize v = normalize w.
Proof. by apply numbered_inj. Qed.

(** So do they when the numbers are safe integers. *)
Lemma canonicalize_safe_inj number_text v w :
  integers_written number_text → numbered safe v = true → numbered safe w = true →
  canonicalize number_text v = canonicalize number_text w → normalize v = normalize w.
Proof.
  intros Hw. apply numbered_inj.
  - intros n [z Hz]%bool_decide_eq_true. rewrite (Hw n z Hz). apply pretty_plain.
  - intros n m [z Hz]%bool_decide_eq_true [y Hy]%bool_decide_eq_true.
    rewrite (Hw n z Hz), (Hw m y Hy). intros ->%(inj pretty).
    apply safe_integer_some in Hz as [-> _], Hy as [-> _]. done.
Qed.

(** Two texts with one digest. *)
Definition collision (sha256 : string → string) : Prop := ∃ x y, x ≠ y ∧ sha256 x = sha256 y.

Lemma digest_inj sha256 x y : sha256 x = sha256 y → x = y ∨ collision sha256.
Proof. intros H. destruct (decide (x = y)); [by left|right; by exists x, y]. Qed.

(** The properties of a normalized object, one by one. *)
Ltac fields H names :=
  lazymatch names with
  | ?k :: ?rest => let F := fresh "F" in pose proof (H k) as F; cbn in F; fields H rest
  | nil => idtac
  end.

(** Turns the equal fields into equal components. *)
Ltac same_fields :=
  repeat match goal with
  | F : Some _ = Some _ |- _ => injection F as F
  | F : JStr _ = JStr _ |- _ => injection F as F
  | F : ?f _ = ?f _ |- _ => apply (inj f) in F
  end; congruence.

End CanonicalJson.
