(* ===== verification/ReviewQueue.v ===== *)
(** * The Human Review Queue

    Models [packages/core-modules/review/src/domain/review-task.ts], the two
    command handlers of [review/src/application], and the SQLite repository
    [packages/storage-providers/sqlite-runtime/src/sqlite-review-store.ts].
    Each transaction of the store is one atomic step on the three tables; the
    safety theorems hold for every interleaving of such steps. *)
From S2P Require Import Prelude.

Module ReviewQueue.

(** ** The aggregate (review-task.ts) *)
Inductive ReviewTaskStatus := open | claimed | resolved.
Inductive ReviewTaskPriority := low | medium | high | urgent.
Inductive ReviewEvidenceCompleteness := complete | limited | unavailable.

#[export] Instance ReviewTaskStatus_eq_dec : EqDecision ReviewTaskStatus.
Proof. solve_decision. Defined.
#[export] Instance ReviewTaskPriority_eq_dec : EqDecision ReviewTaskPriority.
Proof. solve_decision. Defined.
#[export] Instance ReviewEvidenceCompleteness_eq_dec : EqDecision ReviewEvidenceCompleteness.
Proof. solve_decision. Defined.

Record ReviewTask := {
  taskId : string;
  caseId : string;
  status : ReviewTaskStatus;
  reason : string;
  priority : ReviewTaskPriority;
  evidenceCompleteness : ReviewEvidenceCompleteness;
  assigneeId : option string;
  version : Z;
}.

#[export] Instance ReviewTask_eq_dec : EqDecision ReviewTask.
Proof. solve_decision. Defined.

Record ReviewTaskDraft := {
  draft_taskId : string;
  draft_caseId : string;
  draft_reason : string;
  draft_priority : ReviewTaskPriority;
  draft_evidenceCompleteness : ReviewEvidenceCompleteness;
}.

Record ClaimReviewTaskCommand := {
  claim_taskId : string;
  claim_expectedVersion : Z;
  claim_reviewerId : string;
  claim_idempotencyKey : string;
}.

Record ResolveReviewTaskCommand := {
  resolve_taskId : string;
  resolve_expectedVersion : Z;
  resolve_reviewerId : string;
  resolve_disposition : string;
  resolve_evidenceRefs : list string;
  resolve_idempotencyKey : string;
}.

Record ReviewResolution := {
  res_taskId : string;
  res_caseId : string;
  res_reviewerId : string;
  res_disposition : string;
  res_evidenceRefs : list string;
  res_idempotencyKey : string;
}.

Inductive ReviewTaskErrorCode :=
  | ReviewTaskVersionConflict
  | ReviewTaskNotOpen
  | ReviewTaskNotClaimed
  | ReviewTaskNotAssignee
  | ReviewTaskAlreadyResolved.

Record ReviewTaskError := {
  code : ReviewTaskErrorCode;
  currentVersion : option Z;
  error_assigneeId : option string;
}.

(** [new ReviewTaskVersionConflict(currentVersion, assigneeId)]. *)
Definition versionConflict (current : Z) (assignee : option string) : ReviewTaskError :=
  {| code := ReviewTaskVersionConflict; currentVersion := Some current;
     error_assigneeId := assignee |}.

Definition openReviewTask (draft : ReviewTaskDraft) : ReviewTask :=
  {| taskId := draft_taskId draft; caseId := draft_caseId draft; status := open;
     reason := draft_reason draft; priority := draft_priority draft;
     evidenceCompleteness := draft_evidenceCompleteness draft;
     assigneeId := None; version := 1 |}.

Definition canClaim (task : ReviewTask) (command : ClaimReviewTaskCommand) : bool :=
  bool_decide (status task = open) && (version task =? claim_expectedVersion command)%Z.

(** The object spread [{...task, status, assigneeId, version}]. *)
Definition with_claim (task : ReviewTask) (reviewer : string) (v : Z) : ReviewTask :=
  {| taskId := taskId task; caseId := caseId task; status := claimed;
     reason := reason task; priority := priority task;
     evidenceCompleteness := evidenceCompleteness task;
     assigneeId := Some reviewer; version := v |}.

(** The object spread [{...task, status: "resolved", version}]. *)
Definition with_resolved (task : ReviewTask) (v : Z) : ReviewTask :=
  {| taskId := taskId task; caseId := caseId task; status := resolved;
     reason := reason task; priority := priority task;
     evidenceCompleteness := evidenceCompleteness task;
     assigneeId := assigneeId task; version := v |}.

Definition claimReviewTask (task : ReviewTask) (command : ClaimReviewTaskCommand)
    : outcome ReviewTaskError ReviewTask :=
  if negb (bool_decide (status task = open)) then
    Throw (versionConflict (version task) (assigneeId task))
  else if negb (version task =? claim_expectedVersion command)%Z then
    Throw (versionConflict (version task) (assigneeId task))
  else Ok (with_claim task (claim_reviewerId command) (version task + 1)).

Definition canResolve (task : ReviewTask) (command : ResolveReviewTaskCommand) : bool :=
  bool_decide (status task = claimed) &&
  (version task =? resolve_expectedVersion command)%Z &&
  bool_decide (assigneeId task = Some (resolve_reviewerId command)).

Definition resolveReviewTask (task : ReviewTask) (command : ResolveReviewTaskCommand)
    : outcome ReviewTaskError (ReviewTask * ReviewResolution) :=
  if bool_decide (status task = resolved) then
    Throw {| code := ReviewTaskAlreadyResolved; currentVersion := Some (version task);
             error_assigneeId := None |}
  else if negb (bool_decide (status task = claimed)) then
    Throw {| code := ReviewTaskNotClaimed; currentVersion := Some (version task);
             error_assigneeId := None |}
  else if negb (version task =? resolve_expectedVersion command)%Z then
    Throw (versionConflict (version task) (assigneeId task))
  else if negb (bool_decide (assigneeId task = Some (resolve_reviewerId command))) then
    Throw {| code := ReviewTaskNotAssignee; currentVersion := Some (version task);
             error_assigneeId := assigneeId task |}
  else Ok (with_resolved task (version task + 1),
    {| res_taskId := taskId task; res_caseId := caseId task;
       res_reviewerId := resolve_reviewerId command;
       res_disposition := resolve_disposition command;
       res_evidenceRefs := resolve_evidenceRefs command;
       res_idempotencyKey := resolve_idempotencyKey command |}).

(** ** The SQLite repository (sqlite-review-store.ts)

    One [gmap] per table, keyed by its primary key.  The foreign keys
    [review_claims.task_id] and [review_resolutions.task_id] (migration 005,
    [foreign_keys = ON]) are checked by the two [INSERT]s.  [JSON.stringify] of
    an array of strings is injective, so [evidence_refs_json] is kept as the
    array itself. *)
Record ClaimRow := {
  claim_row_task : string;
  claim_row_reviewer : string;
  claimed_version : Z;
}.

Record ResolutionRow := {
  resolution_row_task : string;
  resolution_row_case : string;
  resolution_row_reviewer : string;
  resolution_row_disposition : string;
  evidence_refs_json : list string;
  resolved_version : Z;
}.

#[export] Instance ClaimRow_eq_dec : EqDecision ClaimRow.
Proof. solve_decision. Defined.
#[export] Instance ResolutionRow_eq_dec : EqDecision ResolutionRow.
Proof. solve_decision. Defined.

Record Db := {
  review_tasks : gmap string ReviewTask;
  review_claims : gmap string ClaimRow;
  review_resolutions : gmap string ResolutionRow;
}.

Definition empty_db : Db :=
  {| review_tasks := ∅; review_claims := ∅; review_resolutions := ∅ |}.

Definition set_tasks (f : gmap string ReviewTask → gmap string ReviewTask) (db : Db) : Db :=
  {| review_tasks := f (review_tasks db); review_claims := review_claims db;
     review_resolutions := review_resolutions db |}.
Definition set_claims (f : gmap string ClaimRow → gmap string ClaimRow) (db : Db) : Db :=
  {| review_tasks := review_tasks db; review_claims := f (review_claims db);
     review_resolutions := review_resolutions db |}.
Definition set_resolutions (f : gmap string ResolutionRow → gmap string ResolutionRow)
    (db : Db) : Db :=
  {| review_tasks := review_tasks db; review_claims := review_claims db;
     review_resolutions := f (review_resolutions db) |}.

(** [NotLocalTenant]: [requireLocalTenant]; [StorageBusy]: [mapBusyError];
    [ForeignKeyFailed]: SQLite's constraint error, rethrown unmapped. *)
Inductive StoreError := NotLocalTenant | StorageBusy | ForeignKeyFailed | UnreachableRetry.

Definition requireLocalTenant {S} (tenantId : string) : js S StoreError unit :=
  throw_if (negb (bool_decide (tenantId = "local"))) NotLocalTenant.

Definition findWith (id : string) : js Db StoreError (option ReviewTask) :=
  gets (λ db, review_tasks db !! id).

(** [INSERT ... ON CONFLICT (task_id) DO NOTHING]. *)
Definition create (tenantId : string) (task : ReviewTask) : js Db StoreError unit :=
  _ ← requireLocalTenant tenantId;
  db ← get;
  match review_tasks db !! taskId task with
  | Some _ => mret tt
  | None => modify (set_tasks <[taskId task := task]>)
  end.

Definition find (tenantId id : string) : js Db StoreError (option ReviewTask) :=
  _ ← requireLocalTenant tenantId; findWith id.

(** [INSERT INTO review_claims ... ON CONFLICT DO NOTHING RETURNING]: true when
    the reservation was inserted.  [DO NOTHING] covers the primary key only. *)
Definition reserve_claim (command : ClaimReviewTaskCommand) : js Db StoreError bool :=
  db ← get;
  match review_claims db !! claim_idempotencyKey command with
  | Some _ => mret false
  | None =>
      _ ← throw_if (bool_decide (review_tasks db !! claim_taskId command = None))
        ForeignKeyFailed;
      _ ← modify (set_claims <[claim_idempotencyKey command :=
        {| claim_row_task := claim_taskId command;
           claim_row_reviewer := claim_reviewerId command;
           claimed_version := claim_expectedVersion command + 1 |}]>);
      mret true
  end.

(** [UPDATE review_tasks SET status='claimed' ... WHERE task_id AND status='open'
    AND version]: the number of rows updated is 0 or 1. *)
Definition update_claimed (command : ClaimReviewTaskCommand) : js Db StoreError bool :=
  db ← get;
  match review_tasks db !! claim_taskId command with
  | Some task =>
      if bool_decide (status task = open) &&
         (version task =? claim_expectedVersion command)%Z
      then
        _ ← modify (set_tasks <[claim_taskId command :=
          with_claim task (claim_reviewerId command) (claim_expectedVersion command + 1)]>);
        mret true
      else mret false
  | None => mret false
  end.

(** [DELETE FROM review_claims WHERE idempotency_key AND task_id]. *)
Definition delete_claim (command : ClaimReviewTaskCommand) : js Db StoreError unit :=
  db ← get;
  match review_claims db !! claim_idempotencyKey command with
  | Some row =>
      if bool_decide (claim_row_task row = claim_taskId command)
      then modify (set_claims (delete (claim_idempotencyKey command)))
      else mret tt
  | None => mret tt
  end.

(** The body of the write transaction of [claim]. *)
Definition claim_tx (command : ClaimReviewTaskCommand)
    : js Db StoreError (option ReviewTask) :=
  reserved ← reserve_claim command;
  if negb reserved then
    db ← get;
    match review_claims db !! claim_idempotencyKey command with
    | Some replay =>
        if bool_decide (claim_row_task replay = claim_taskId command) &&
           bool_decide (claim_row_reviewer replay = claim_reviewerId command) &&
           (claimed_version replay =? claim_expectedVersion command + 1)%Z
        then findWith (claim_taskId command) else mret None
    | None => mret None
    end
  else
    updated ← update_claimed command;
    if negb updated then
      _ ← delete_claim command; mret None
    else findWith (claim_taskId command).

Definition claim (busy : nat → bool) (tenantId : string) (command : ClaimReviewTaskCommand)
    : js Db StoreError (option ReviewTask) :=
  _ ← requireLocalTenant tenantId;
  withWriteTransaction busy StorageBusy UnreachableRetry 2 (claim_tx command).

Definition reserve_resolution (command : ResolveReviewTaskCommand) (case_id : string)
    : js Db StoreError bool :=
  db ← get;
  match review_resolutions db !! resolve_idempotencyKey command with
  | Some _ => mret false
  | None =>
      _ ← throw_if (bool_decide (review_tasks db !! resolve_taskId command = None))
        ForeignKeyFailed;
      _ ← modify (set_resolutions <[resolve_idempotencyKey command :=
        {| resolution_row_task := resolve_taskId command;
           resolution_row_case := case_id;
           resolution_row_reviewer := resolve_reviewerId command;
           resolution_row_disposition := resolve_disposition command;
           evidence_refs_json := resolve_evidenceRefs command;
           resolved_version := resolve_expectedVersion command + 1 |}]>);
      mret true
  end.

Definition update_resolved (command : ResolveReviewTaskCommand) : js Db StoreError bool :=
  db ← get;
  match review_tasks db !! resolve_taskId command with
  | Some task =>
      if bool_decide (status task = claimed) &&
         (version task =? resolve_expectedVersion command)%Z &&
         bool_decide (assigneeId task = Some (resolve_reviewerId command))
      then
        _ ← modify (set_tasks <[resolve_taskId command :=
          with_resolved task (resolve_expectedVersion command + 1)]>);
        mret true
      else mret false
  | None => mret false
  end.

Definition delete_resolution (command : ResolveReviewTaskCommand) : js Db StoreError unit :=
  db ← get;
  match review_resolutions db !! resolve_idempotencyKey command with
  | Some row =>
      if bool_decide (resolution_row_task row = resolve_taskId command)
      then modify (set_resolutions (delete (resolve_idempotencyKey command)))
      else mret tt
  | None => mret tt
  end.

(** The body of the write transaction of [resolve]; [case_id] was read before
    the transaction started. *)
Definition resolve_tx (command : ResolveReviewTaskCommand) (case_id : string)
    : js Db StoreError (option ReviewTask) :=
  reserved ← reserve_resolution command case_id;
  if negb reserved then
    db ← get;
    match review_resolutions db !! resolve_idempotencyKey command with
    | Some replay =>
        if bool_decide (resolution_row_task replay = resolve_taskId command) &&
           bool_decide (resolution_row_reviewer replay = resolve_reviewerId command) &&
           bool_decide (resolution_row_disposition replay = resolve_disposition command) &&
           bool_decide (evidence_refs_json replay = resolve_evidenceRefs command) &&
           (resolved_version replay =? resolve_expectedVersion command + 1)%Z
        then findWith (resolve_taskId command) else mret None
    | None => mret None
    end
  else
    updated ← update_resolved command;
    if negb updated then
      _ ← delete_resolution command; mret None
    else findWith (resolve_taskId command).

Definition resolve (busy : nat → bool) (tenantId : string) (command : ResolveReviewTaskCommand)
    : js Db StoreError (option ReviewTask) :=
  _ ← requireLocalTenant tenantId;
  current ← find tenantId (resolve_taskId command);
  match current with
  | None => mret None
  | Some task =>
      withWriteTransaction busy StorageBusy UnreachableRetry 2
        (resolve_tx command (caseId task))
  end.

(** ** The command handlers (claim-/resolve-review-task-handler.ts) *)
Inductive HandlerError :=
  | ReviewError (e : ReviewTaskError)
  | StorageError (e : StoreError).

Definition lift_store {A} (m : js Db StoreError A) : js Db HandlerError A := λ db,
  match m db with
  | (Ok a, db') => (Ok a, db')
  | (Throw e, db') => (Throw (StorageError e), db')
  end.

Definition ClaimReviewTaskHandler_handle (busy : nat → bool) (tenantId : string)
    (command : ClaimReviewTaskCommand) : js Db HandlerError ReviewTask :=
  updated ← lift_store (claim busy tenantId command);
  match updated with
  | Some task => mret task
  | None =>
      current ← lift_store (find tenantId (claim_taskId command));
      match current with
      | None => throw (ReviewError (versionConflict 0 None))
      | Some task => throw (ReviewError (versionConflict (version task) (assigneeId task)))
      end
  end.

Definition ResolveReviewTaskHandler_handle (busy : nat → bool) (tenantId : string)
    (command : ResolveReviewTaskCommand) : js Db HandlerError ReviewTask :=
  updated ← lift_store (resolve busy tenantId command);
  match updated with
  | Some task => mret task
  | None =>
      current ← lift_store (find tenantId (resolve_taskId command));
      match current with
      | None => throw (ReviewError (versionConflict 0 None))
      | Some task =>
          if bool_decide (status task = resolved) then
            throw (ReviewError {| code := ReviewTaskAlreadyResolved;
              currentVersion := Some (version task); error_assigneeId := None |})
          else if negb (bool_decide (assigneeId task = Some (resolve_reviewerId command))) then
            throw (ReviewError {| code := ReviewTaskNotAssignee;
              currentVersion := Some (version task); error_assigneeId := assigneeId task |})
          else throw (ReviewError (versionConflict (version task) (assigneeId task)))
      end
  end.

(** ** The atomic steps of the store

    Concurrent clients interleave whole transactions.  The transaction of
    [resolve] may run long after its first read, so its [case_id] is
    arbitrary. *)
Inductive step : Db → Db → Prop :=
  | step_create task db : step db (exec (create "local" task) db)
  | step_claim command db : step db (exec (transaction (claim_tx command)) db)
  | step_resolve command case_id db :
      step db (exec (transaction (resolve_tx command case_id)) db).

Definition reachable (db : Db) : Prop := rtc step empty_db db.

(** What a row of the audit tables says about the task it names. *)
Record Inv (db : Db) : Prop := {
  inv_key : ∀ k task, review_tasks db !! k = Some task → taskId task = k;
  inv_claim : ∀ key row, review_claims db !! key = Some row →
    ∃ task, review_tasks db !! claim_row_task row = Some task ∧
      status task ≠ open ∧ assigneeId task = Some (claim_row_reviewer row) ∧
      (claimed_version row <= version task)%Z;
  inv_claim_unique : ∀ key1 key2 row1 row2,
    review_claims db !! key1 = Some row1 → review_claims db !! key2 = Some row2 →
    claim_row_task row1 = claim_row_task row2 → key1 = key2;
  inv_resolution : ∀ key row, review_resolutions db !! key = Some row →
    ∃ task, review_tasks db !! resolution_row_task row = Some task ∧
      status task = resolved ∧ assigneeId task = Some (resolution_row_reviewer row) ∧
      version task = resolved_version row;
  inv_resolution_unique : ∀ key1 key2 row1 row2,
    review_resolutions db !! key1 = Some row1 → review_resolutions db !! key2 = Some row2 →
    resolution_row_task row1 = resolution_row_task row2 → key1 = key2;
}.

(** ** What each transaction does, by cases *)
Section transactions.
Implicit Types (db : Db).

Ltac tx_simpl :=
  unfold transaction, mbind, js_bind, mret, js_ret, get, gets, modify, throw_if, throw,
    findWith; cbn.

  (** The claim transaction replays, fails on the foreign key, loses, or wins. *)
Lemma claim_tx_cases command db :
    match review_claims db !! claim_idempotencyKey command with
    | Some row =>
        transaction (claim_tx command) db =
          (Ok (if bool_decide (row =
                 {| claim_row_task := claim_taskId command;
                    claim_row_reviewer := claim_reviewerId command;
                    claimed_version := claim_expectedVersion command + 1 |})
               then review_tasks db !! claim_taskId command else None), db)
    | None =>
        match review_tasks db !! claim_taskId command with
        | None => transaction (claim_tx command) db = (Throw ForeignKeyFailed, db)
        | Some task =>
            if canClaim task command then
              transaction (claim_tx command) db =
                (Ok (Some (with_claim task (claim_reviewerId command)
                             (claim_expectedVersion command + 1))),
                 set_tasks <[claim_taskId command :=
                   with_claim task (claim_reviewerId command)
                     (claim_expectedVersion command + 1)]>
                   (set_claims <[claim_idempotencyKey command :=
                     {| claim_row_task := claim_taskId command;
                        claim_row_reviewer := claim_reviewerId command;
                        claimed_version := claim_expectedVersion command + 1 |}]> db))
            else transaction (claim_tx command) db = (Ok None, db)
        end
    end.
  Proof.
    unfold claim_tx, reserve_claim, update_claimed, delete_claim.
    destruct (review_claims db !! _) as [row|] eqn:Hrow.
    - tx_simpl. rewrite Hrow. cbn. rewrite Hrow.
      destruct row as [t r v]. cbn.
      repeat case_bool_decide; cbn;
        destruct (Z.eqb_spec v (claim_expectedVersion command + 1)); simplify_eq/=; congruence.
    - destruct (review_tasks db !! _) as [task|] eqn:Htask; tx_simpl; rewrite Hrow.
      2: { by rewrite Htask. }
      rewrite Htask. cbn. rewrite Htask. unfold canClaim.
      destruct (_ && _) eqn:Hc; cbn.
      + by rewrite lookup_insert_eq.
      + rewrite lookup_insert_eq. cbn. rewrite bool_decide_true by done. cbn.
        unfold set_claims; cbn. rewrite delete_insert_id by done. by destruct db.
  Qed.

  (** Likewise for the resolve transaction. *)
Lemma resolve_tx_cases command case_id db :
    let row := {| resolution_row_task := resolve_taskId command;
                  resolution_row_case := case_id;
                  resolution_row_reviewer := resolve_reviewerId command;
                  resolution_row_disposition := resolve_disposition command;
                  evidence_refs_json := resolve_evidenceRefs command;
                  resolved_version := resolve_expectedVersion command + 1 |} in
    match review_resolutions db !! resolve_idempotencyKey command with
    | Some stored =>
        transaction (resolve_tx command case_id) db =
          (Ok (if bool_decide (stored = {|
                 resolution_row_task := resolve_taskId command;
                 resolution_row_case := resolution_row_case stored;
                 resolution_row_reviewer := resolve_reviewerId command;
                 resolution_row_disposition := resolve_disposition command;
                 evidence_refs_json := resolve_evidenceRefs command;
                 resolved_version := resolve_expectedVersion command + 1 |})
               then review_tasks db !! resolve_taskId command else None), db)
    | None =>
        match review_tasks db !! resolve_taskId command with
        | None => transaction (resolve_tx command case_id) db = (Throw ForeignKeyFailed, db)
        | Some task =>
            if canResolve task command then
              transaction (resolve_tx command case_id) db =
                (Ok (Some (with_resolved task (resolve_expectedVersion command + 1))),
                 set_tasks <[resolve_taskId command :=
                   with_resolved task (resolve_expectedVersion command + 1)]>
                   (set_resolutions <[resolve_idempotencyKey command := row]> db))
            else transaction (resolve_tx command case_id) db = (Ok None, db)
        end
    end.
  Proof.
    cbv zeta. unfold resolve_tx, reserve_resolution, update_resolved, delete_resolution.
    destruct (review_resolutions db !! _) as [stored|] eqn:Hrow.
    - tx_simpl. rewrite Hrow. cbn. rewrite Hrow.
      destruct stored as [t c r d e v]. cbn.
      repeat case_bool_decide; cbn;
        destruct (Z.eqb_spec v (resolve_expectedVersion command + 1)); simplify_eq/=; congruence.
    - destruct (review_tasks db !! _) as [task|] eqn:Htask; tx_simpl; rewrite Hrow.
      2: { by rewrite Htask. }
      rewrite Htask. cbn. rewrite Htask. unfold canResolve.
      destruct (_ && _) eqn:Hc; cbn.
      + by rewrite lookup_insert_eq.
      + rewrite lookup_insert_eq. cbn. rewrite bool_decide_true by done. cbn.
        unfold set_resolutions; cbn. rewrite delete_insert_id by done. by destruct db.
  Qed.
End transactions.

(** ** The invariant holds in every reachable state *)
Lemma create_local task db :
  exec (create "local" task) db =
    match review_tasks db !! taskId task with
    | Some _ => db
    | None => set_tasks <[taskId task := task]> db
    end.
Proof.
  unfold exec, create, mbind, js_bind, requireLocalTenant, get, modify.
  rewrite bool_decide_true by done. cbn. by destruct (review_tasks db !! taskId task).
Qed.

Lemma inv_create task db : Inv db → Inv (exec (create "local" task) db).
Proof.
  intros HI. rewrite create_local.
  destruct (review_tasks db !! taskId task) as [t|] eqn:Ht; [done|].
  destruct HI as [Hk Hc Hcu Hr Hru]. split; cbn; [| |done| |done].
  - intros k t. rewrite lookup_insert_Some. intros [[<- <-]|[? ?]]; [done|by apply Hk].
  - intros key row Hrow. destruct (Hc _ _ Hrow) as (t & Htask & ?).
    exists t. rewrite lookup_insert_ne by congruence. done.
  - intros key row Hrow. destruct (Hr _ _ Hrow) as (t & Htask & ?).
    exists t. rewrite lookup_insert_ne by congruence. done.
Qed.

Lemma inv_claim_tx command db : Inv db → Inv (exec (transaction (claim_tx command)) db).
Proof.
  intros HI. pose proof (claim_tx_cases command db) as Hcases. unfold exec.
  destruct (review_claims db !! _) as [row|] eqn:Hrow; [by rewrite Hcases|].
  destruct (review_tasks db !! _) as [task|] eqn:Htask; [|by rewrite Hcases].
  destruct (canClaim task command) eqn:Hcan; rewrite Hcases; [|done].
  unfold canClaim in Hcan. to_prop. destruct HI as [Hk Hc Hcu Hr Hru].
  assert (∀ key row, review_claims db !! key = Some row →
            claim_row_task row ≠ claim_taskId command) as Hfresh.
  { intros key row Hkey Heq. destruct (Hc _ _ Hkey) as (t & ? & ? & _). congruence. }
  split; cbn [exec snd review_tasks review_claims review_resolutions set_tasks set_claims].
  - intros k t. rewrite lookup_insert_Some. intros [[<- <-]|[? ?]]; [cbn|]; by apply Hk.
  - intros key row. rewrite lookup_insert_Some. intros [[<- <-]|[? Hkey]]; cbn.
    + eexists. rewrite lookup_insert_eq. split; [done|]. cbn. split_and!; [done..|lia].
    + destruct (Hc _ _ Hkey) as (t & Ht & ?). exists t.
      rewrite lookup_insert_ne; [done|]. intros Heq. by eapply Hfresh.
  - intros key1 key2 row1 row2. rewrite !lookup_insert_Some.
    intros [[<- <-]|[? Hk1]] [[<- <-]|[? Hk2]] Heq; cbn in *; [done|..|by eauto].
    + by destruct (Hfresh _ _ Hk2).
    + by destruct (Hfresh _ _ Hk1).
  - intros key row Hkey. destruct (Hr _ _ Hkey) as (t & Ht & Hst & ?). exists t.
    rewrite lookup_insert_ne; [done|]. intros Heq. rewrite Heq in Htask. congruence.
  - done.
Qed.

Lemma inv_resolve_tx command case_id db :
  Inv db → Inv (exec (transaction (resolve_tx command case_id)) db).
Proof.
  intros HI. pose proof (resolve_tx_cases command case_id db) as Hcases.
  cbv zeta in Hcases. unfold exec.
  destruct (review_resolutions db !! _) as [row|] eqn:Hrow; [by rewrite Hcases|].
  destruct (review_tasks db !! _) as [task|] eqn:Htask; [|by rewrite Hcases].
  destruct (canResolve task command) eqn:Hcan; rewrite Hcases; [|done].
  unfold canResolve in Hcan. to_prop. destruct HI as [Hk Hc Hcu Hr Hru].
  assert (∀ key row, review_resolutions db !! key = Some row →
            resolution_row_task row ≠ resolve_taskId command) as Hfresh.
  { intros key row Hkey Heq. destruct (Hr _ _ Hkey) as (t & ? & ? & _). congruence. }
  split; cbn [exec snd review_tasks review_claims review_resolutions set_tasks set_resolutions].
  - intros k t. rewrite lookup_insert_Some. intros [[<- <-]|[? ?]]; [cbn|]; by apply Hk.
  - intros key row Hkey. destruct (Hc _ _ Hkey) as (t & Ht & Hst & Has & Hv).
    destruct (decide (claim_row_task row = resolve_taskId command)) as [Heq|].
    + rewrite Heq in *. simplify_eq. eexists. rewrite lookup_insert_eq. split; [done|].
      cbn. split_and!; [done| |lia]. congruence.
    + exists t. by rewrite lookup_insert_ne.
  - done.
  - intros key row. rewrite lookup_insert_Some. intros [[<- <-]|[? Hkey]]; cbn.
    + eexists. rewrite lookup_insert_eq. by split.
    + destruct (Hr _ _ Hkey) as (t & Ht & ?). exists t.
      rewrite lookup_insert_ne; [done|]. intros Heq. by eapply Hfresh.
  - intros key1 key2 row1 row2. rewrite !lookup_insert_Some.
    intros [[<- <-]|[? Hk1]] [[<- <-]|[? Hk2]] Heq; cbn in *; [done|..|by eauto].
    + by destruct (Hfresh _ _ Hk2).
    + by destruct (Hfresh _ _ Hk1).
Qed.

Lemma step_inv a b : Inv a → step a b → Inv b.
Proof.
  intros HI Hs. destruct Hs as [task db|command db|command case_id db];
    [by apply inv_create | by apply inv_claim_tx | by apply inv_resolve_tx].
Qed.

Lemma reachable_inv db : reachable db → Inv db.
Proof. intros Hr. apply (rtc_invariant step Inv empty_db db); [|exact step_inv|done].
  split; cbn; intros *; rewrite ?lookup_empty; done. Qed.

Lemma reachable_trans a b : reachable a → rtc step a b → reachable b.
Proof. unfold reachable. intros. by etrans. Qed.

(** Audit rows are never removed once their transaction committed. *)
Lemma step_claims a b key row :
  step a b → review_claims a !! key = Some row → review_claims b !! key = Some row.
Proof.
  intros Hs Hkey. destruct Hs as [task db|command db|command case_id db].
  - rewrite create_local. by destruct (review_tasks db !! taskId task).
  - pose proof (claim_tx_cases command db) as Hcases. unfold exec.
    destruct (review_claims db !! claim_idempotencyKey command) as [row'|] eqn:Hr;
      [by rewrite Hcases|].
    destruct (review_tasks db !! claim_taskId command) as [task|]; [|by rewrite Hcases].
    destruct (canClaim task command); rewrite Hcases; [|done]. cbn.
    rewrite lookup_insert_ne; [done|congruence].
  - pose proof (resolve_tx_cases command case_id db) as Hcases. cbv zeta in Hcases.
    unfold exec. destruct (review_resolutions db !! _) as [row'|]; [by rewrite Hcases|].
    destruct (review_tasks db !! _) as [task|]; [|by rewrite Hcases].
    by destruct (canResolve task command); rewrite Hcases.
Qed.

Lemma steps_claims a b key row :
  rtc step a b → review_claims a !! key = Some row → review_claims b !! key = Some row.
Proof. intros Hr Ha. induction Hr; [done|]. eauto using step_claims. Qed.

Lemma withWriteTransaction_first busy {A} (op : js Db StoreError A) db :
  busy 0%nat = false →
  withWriteTransaction busy StorageBusy UnreachableRetry 2 op db = transaction op db.
Proof. intros Hb. cbn. by rewrite Hb. Qed.

Lemma requireLocalTenant_local {S} (s : S) :
  requireLocalTenant "local" s = (Ok tt, s).
Proof. done. Qed.

(** What the handler does once its transaction has run. *)
Lemma claim_handler_cases busy command db :
  busy 0%nat = false →
  ClaimReviewTaskHandler_handle busy "local" command db =
    match transaction (claim_tx command) db with
    | (Throw e, db') => (Throw (StorageError e), db')
    | (Ok (Some task), db') => (Ok task, db')
    | (Ok None, db') =>
        (Throw (ReviewError match review_tasks db' !! claim_taskId command with
                            | None => versionConflict 0 None
                            | Some task => versionConflict (version task) (assigneeId task)
                            end), db')
    end.
Proof.
  intros Hb. unfold ClaimReviewTaskHandler_handle, lift_store, claim, find, findWith,
    mbind, js_bind, gets, mret, js_ret, throw.
  rewrite requireLocalTenant_local, withWriteTransaction_first by done.
  destruct (transaction (claim_tx command) db) as [[[task|]|e] db'] eqn:Htx; [done| |done].
  rewrite requireLocalTenant_local. by destruct (review_tasks db' !! _).
Qed.

(** The same for the resolve handler; the read of [resolve] precedes its
    transaction. *)
Lemma resolve_handler_cases busy command db :
  busy 0%nat = false →
  ResolveReviewTaskHandler_handle busy "local" command db =
    match review_tasks db !! resolve_taskId command with
    | None => (Throw (ReviewError (versionConflict 0 None)), db)
    | Some before =>
        match transaction (resolve_tx command (caseId before)) db with
        | (Throw e, db') => (Throw (StorageError e), db')
        | (Ok (Some task), db') => (Ok task, db')
        | (Ok None, db') =>
            (Throw (ReviewError match review_tasks db' !! resolve_taskId command with
              | None => versionConflict 0 None
              | Some task =>
                  if bool_decide (status task = resolved) then
                    {| code := ReviewTaskAlreadyResolved;
                       currentVersion := Some (version task); error_assigneeId := None |}
                  else if negb (bool_decide (assigneeId task = Some (resolve_reviewerId command)))
                  then {| code := ReviewTaskNotAssignee; currentVersion := Some (version task);
                          error_assigneeId := assigneeId task |}
                  else versionConflict (version task) (assigneeId task)
              end), db')
        end
    end.
Proof.
  intros Hb. unfold ResolveReviewTaskHandler_handle, lift_store, resolve, find, findWith,
    mbind, js_bind, gets, mret, js_ret, throw.
  rewrite !requireLocalTenant_local.
  destruct (review_tasks db !! resolve_taskId command) as [before|] eqn:Hbefore.
  - rewrite withWriteTransaction_first by done.
    destruct (transaction (resolve_tx _ _) db) as [[[task|]|e] db'] eqn:Htx; [done| |done].
    rewrite requireLocalTenant_local. destruct (review_tasks db' !! _); [|done].
    by repeat case_match.
  - by rewrite requireLocalTenant_local, Hbefore.
Qed.

(** ** The life of one task *)
Definition status_rank (s : ReviewTaskStatus) : nat :=
  match s with open => 0 | claimed => 1 | resolved => 2 end.

Record extends (t1 t2 : ReviewTask) : Prop := {
  ext_id : taskId t2 = taskId t1;
  ext_case : caseId t2 = caseId t1;
  ext_version : (version t1 <= version t2)%Z;
  ext_rank : (status_rank (status t1) <= status_rank (status t2))%nat;
  ext_assignee : status t1 ≠ open → assigneeId t2 = assigneeId t1;
  ext_final : status t1 = resolved → t2 = t1;
}.

#[export] Instance extends_preorder : PreOrder extends.
Proof.
  split; [by intros t; split|].
  intros t1 t2 t3 [] []. split; [congruence|congruence|lia|lia| |].
  - intros Hne. rewrite ext_assignee1, ext_assignee0; [done|done|].
    intros Ho. rewrite Ho in *. destruct (status t1); cbn in *; [done|lia|lia].
  - intros Hr. rewrite (ext_final0 Hr) in *. auto.
Qed.

Lemma insert_extends (tasks : gmap string ReviewTask) k k' t t' t1 :
  tasks !! k = Some t → extends t t' → tasks !! k' = Some t1 →
  ∃ t2, <[k := t']> tasks !! k' = Some t2 ∧ extends t1 t2.
Proof.
  intros Hk Hext Hk'. destruct (decide (k = k')) as [<-|].
  - exists t'. rewrite lookup_insert_eq. by simplify_eq.
  - exists t1. rewrite lookup_insert_ne by done. by split.
Qed.

Lemma step_extends a b k t1 :
  step a b → review_tasks a !! k = Some t1 →
  ∃ t2, review_tasks b !! k = Some t2 ∧ extends t1 t2.
Proof.
  intros Hs Hk. destruct Hs as [task db|command db|command case_id db].
  - rewrite create_local. destruct (review_tasks db !! taskId task) eqn:Ht; [by exists t1|].
    exists t1. cbn. rewrite lookup_insert_ne by congruence. by split.
  - pose proof (claim_tx_cases command db) as Hcases. unfold exec.
    destruct (review_claims db !! _); [rewrite Hcases; by exists t1|].
    destruct (review_tasks db !! claim_taskId command) as [t|] eqn:Ht;
      [|rewrite Hcases; by exists t1].
    unfold canClaim in Hcases. destruct (_ && _) eqn:Hcan; rewrite Hcases; [|by exists t1].
    to_prop. cbn. eapply insert_extends; [done| |done].
    split; cbn; [done|done|lia| |congruence|congruence].
    replace (status t) with open by congruence. cbn. lia.
  - pose proof (resolve_tx_cases command case_id db) as Hcases. cbv zeta in Hcases. unfold exec.
    destruct (review_resolutions db !! _); [rewrite Hcases; by exists t1|].
    destruct (review_tasks db !! resolve_taskId command) as [t|] eqn:Ht;
      [|rewrite Hcases; by exists t1].
    unfold canResolve in Hcases. destruct (_ && _) eqn:Hcan; rewrite Hcases; [|by exists t1].
    to_prop. cbn. eapply insert_extends; [done| |done].
    split; cbn; [done|done|lia| |done|congruence].
    replace (status t) with claimed by congruence. cbn. lia.
Qed.

Lemma steps_extends a b k t1 :
  rtc step a b → review_tasks a !! k = Some t1 →
  ∃ t2, review_tasks b !! k = Some t2 ∧ extends t1 t2.
Proof.
  intros Hr. revert t1. induction Hr as [|a b c Hs _ IH]; intros t1 Hk; [by exists t1|].
  destruct (step_extends _ _ _ _ Hs Hk) as (t2 & Hk2 & Hext).
  destruct (IH _ Hk2) as (t3 & Hk3 & Hext'). exists t3. split; [done|]. by etrans.
Qed.

(** ** Theorems *)

(** Two concurrent claimants never both win.  Once the claim recorded in
    the audit row [row] has committed, then whatever transactions run in
    between, every claim of the same task under another idempotency key is
    refused by the handler with an explicit version conflict that carries the
    current version and the winner, and changes nothing. *)
Theorem second_claimant_loses busy db1 db2 key row command :
  reachable db1 → rtc step db1 db2 →
  review_claims db1 !! key = Some row →
  claim_taskId command = claim_row_task row →
  claim_idempotencyKey command ≠ key →
  busy 0%nat = false →
  ∃ task, review_tasks db2 !! claim_row_task row = Some task ∧
    ClaimReviewTaskHandler_handle busy "local" command db2 =
      (Throw (ReviewError (versionConflict (version task) (Some (claim_row_reviewer row)))), db2).
Proof.
  intros Hr1 Hr12 Hrow Htask Hkey Hb.
  pose proof (reachable_inv _ (reachable_trans _ _ Hr1 Hr12)) as HI.
  pose proof (steps_claims _ _ _ _ Hr12 Hrow) as Hrow2.
  destruct (inv_claim _ HI _ _ Hrow2) as (task & Ht & Hst & Has & _).
  exists task. split; [done|]. rewrite claim_handler_cases by done.
  pose proof (claim_tx_cases command db2) as Hcases. rewrite Htask, Ht in Hcases.
  destruct (review_claims db2 !! claim_idempotencyKey command) as [row'|] eqn:Hr'.
  - rewrite bool_decide_false in Hcases.
    { rewrite Hcases, Htask, Ht. by rewrite Has. }
    intros ->. by apply Hkey, (inv_claim_unique _ HI _ _ _ _ Hr' Hrow2).
  - assert (canClaim task command = false) as Hcan.
    { unfold canClaim. by rewrite bool_decide_false. }
    rewrite Hcan in Hcases. rewrite Hcases, Htask, Ht. by rewrite Has.
Qed.

Definition demo_task : ReviewTask := openReviewTask
  {| draft_taskId := "t1"; draft_caseId := "c1"; draft_reason := "budget";
     draft_priority := high; draft_evidenceCompleteness := limited |}.
Definition demo_claim (reviewer key : string) : ClaimReviewTaskCommand :=
  {| claim_taskId := "t1"; claim_expectedVersion := 1; claim_reviewerId := reviewer;
     claim_idempotencyKey := key |}.
Definition demo_db : Db :=
  exec (transaction (claim_tx (demo_claim "alice" "k1"))) (exec (create "local" demo_task) empty_db).

Lemma demo_db_reachable : reachable demo_db.
Proof.
  eapply rtc_l; [apply (step_create demo_task)|].
  eapply rtc_l; [apply (step_claim (demo_claim "alice" "k1"))|]. apply rtc_refl.
Qed.

Lemma second_claimant_loses_witness :
  ∃ task, review_tasks demo_db !! "t1" = Some task ∧
    ClaimReviewTaskHandler_handle (λ _, false) "local" (demo_claim "bob" "k2") demo_db =
      (Throw (ReviewError (versionConflict (version task) (Some "alice"))), demo_db).
Proof.
  apply (second_claimant_loses (λ _, false) demo_db demo_db "k1"
    {| claim_row_task := "t1"; claim_row_reviewer := "alice"; claimed_version := 2 |}
    (demo_claim "bob" "k2")).
  - exact demo_db_reachable.
  - apply rtc_refl.
  - vm_compute. reflexivity.
  - reflexivity.
  - discriminate.
  - reflexivity.
Defined.

(** On a fresh idempotency key the handler is the domain transition.  Its
    answer is [claimReviewTask] of the stored row, whatever the row; a winning
    claim stores the new aggregate and one audit row, a refusal stores nothing. *)
Theorem claim_handler_refines_domain busy db command task :
  review_tasks db !! claim_taskId command = Some task →
  review_claims db !! claim_idempotencyKey command = None →
  busy 0%nat = false →
  ClaimReviewTaskHandler_handle busy "local" command db =
    match claimReviewTask task command with
    | Throw e => (Throw (ReviewError e), db)
    | Ok task' =>
        (Ok task',
         {| review_tasks := <[claim_taskId command := task']> (review_tasks db);
            review_claims := <[claim_idempotencyKey command :=
              {| claim_row_task := claim_taskId command;
                 claim_row_reviewer := claim_reviewerId command;
                 claimed_version := version task' |}]> (review_claims db);
            review_resolutions := review_resolutions db |})
    end.
Proof.
  intros Ht Hkey Hb. rewrite claim_handler_cases by done.
  pose proof (claim_tx_cases command db) as Hcases. rewrite Hkey, Ht in Hcases.
  unfold claimReviewTask, canClaim in *.
  destruct (bool_decide (status task = open)); cbn in *; [|by rewrite Hcases, Ht].
  destruct (Z.eqb_spec (version task) (claim_expectedVersion command)) as [Hv|]; cbn in *;
    [|by rewrite Hcases, Ht].
  rewrite Hcases, Hv. done.
Qed.

Definition opened_db : Db := exec (create "local" demo_task) empty_db.

Lemma claim_handler_refines_domain_witness :
  ClaimReviewTaskHandler_handle (λ _, false) "local" (demo_claim "alice" "k1") opened_db =
    (Ok (with_claim demo_task "alice" 2),
     {| review_tasks := <["t1" := with_claim demo_task "alice" 2]> (review_tasks opened_db);
        review_claims := <["k1" := {| claim_row_task := "t1"; claim_row_reviewer := "alice";
                                      claimed_version := 2 |}]> (review_claims opened_db);
        review_resolutions := ∅ |}).
Proof.
  apply (claim_handler_refines_domain (λ _, false) opened_db (demo_claim "alice" "k1") demo_task);
    reflexivity.
Defined.

(** C34: resolving on a fresh idempotency key accepts exactly the commands the
    domain accepts, with the domain's new aggregate; on a refusal the stored
    row is unchanged and the handler classifies it by the row alone: resolved
    first, then a foreign assignee, then a stale version. *)
Theorem resolve_handler_refines_domain busy db command task :
  review_tasks db !! resolve_taskId command = Some task →
  review_resolutions db !! resolve_idempotencyKey command = None →
  busy 0%nat = false →
  ResolveReviewTaskHandler_handle busy "local" command db =
    match resolveReviewTask task command with
    | Ok (task', resolution) =>
        (Ok task',
         {| review_tasks := <[resolve_taskId command := task']> (review_tasks db);
            review_claims := review_claims db;
            review_resolutions := <[res_idempotencyKey resolution :=
              {| resolution_row_task := resolve_taskId command;
                 resolution_row_case := res_caseId resolution;
                 resolution_row_reviewer := res_reviewerId resolution;
                 resolution_row_disposition := res_disposition resolution;
                 evidence_refs_json := res_evidenceRefs resolution;
                 resolved_version := version task' |}]> (review_resolutions db) |})
    | Throw _ =>
        (Throw (ReviewError
           (if bool_decide (status task = resolved) then
              {| code := ReviewTaskAlreadyResolved; currentVersion := Some (version task);
                 error_assigneeId := None |}
            else if bool_decide (assigneeId task = Some (resolve_reviewerId command)) then
              versionConflict (version task) (assigneeId task)
            else {| code := ReviewTaskNotAssignee; currentVersion := Some (version task);
                    error_assigneeId := assigneeId task |})), db)
    end.
Proof.
  intros Ht Hkey Hb. rewrite resolve_handler_cases by done. rewrite Ht.
  pose proof (resolve_tx_cases command (caseId task) db) as Hcases.
  cbv zeta in Hcases. rewrite Hkey, Ht in Hcases.
  unfold resolveReviewTask, canResolve in *.
  destruct (decide (status task = resolved)) as [Hs|Hs].
  { rewrite Hs in *. cbn in *. rewrite Hcases, Ht, Hs. done. }
  rewrite (bool_decide_false _ Hs).
  destruct (decide (status task = claimed)) as [Hc|Hc]; cycle 1.
  { rewrite bool_decide_false in * by done. cbn in *. rewrite Hcases, Ht.
    rewrite bool_decide_false by done. by case_bool_decide. }
  rewrite Hc in *. cbn in *.
  destruct (Z.eqb_spec (version task) (resolve_expectedVersion command)) as [Hv|]; cbn in *.
  2: { rewrite Hcases, Ht, Hc. by repeat case_bool_decide. }
  repeat (case_bool_decide; try congruence); simpl in *; rewrite Hcases, ?Ht, ?Hc, ?Hv; [done|].
  by repeat (case_bool_decide; try congruence).
Qed.

Definition demo_resolve (reviewer key : string) : ResolveReviewTaskCommand :=
  {| resolve_taskId := "t1"; resolve_expectedVersion := 2; resolve_reviewerId := reviewer;
     resolve_disposition := "confirmed"; resolve_evidenceRefs := ["e1"];
     resolve_idempotencyKey := key |}.

Lemma resolve_handler_refines_domain_witness :
  result (ResolveReviewTaskHandler_handle (λ _, false) "local" (demo_resolve "bob" "r1")) demo_db =
    Throw (ReviewError {| code := ReviewTaskNotAssignee; currentVersion := Some 2%Z;
                          error_assigneeId := Some "alice" |}).
Proof.
  unfold result.
  rewrite (resolve_handler_refines_domain (λ _, false) demo_db (demo_resolve "bob" "r1")
             (with_claim demo_task "alice" 2)) by reflexivity.
  vm_compute. reflexivity.
Defined.

(** A lost response is safe to retry.  Once a claim committed, re-sending
    the same command, after any interleaving, returns the stored task still
    assigned to the claimant and changes nothing. *)
Theorem claim_replay_idempotent busy db1 db2 command :
  reachable db1 → rtc step db1 db2 →
  review_claims db1 !! claim_idempotencyKey command =
    Some {| claim_row_task := claim_taskId command;
            claim_row_reviewer := claim_reviewerId command;
            claimed_version := claim_expectedVersion command + 1 |} →
  busy 0%nat = false →
  ∃ task, review_tasks db2 !! claim_taskId command = Some task ∧
    assigneeId task = Some (claim_reviewerId command) ∧
    (claim_expectedVersion command < version task)%Z ∧
    ClaimReviewTaskHandler_handle busy "local" command db2 = (Ok task, db2).
Proof.
  intros Hr Hs Hrow Hb.
  pose proof (reachable_inv _ (reachable_trans _ _ Hr Hs)) as HI.
  pose proof (steps_claims _ _ _ _ Hs Hrow) as Hrow2.
  destruct (inv_claim _ HI _ _ Hrow2) as (task & Ht & _ & Ha & Hv). cbn in *.
  exists task. split_and!; [done|done|lia|].
  rewrite claim_handler_cases by done.
  pose proof (claim_tx_cases command db2) as Hcases. rewrite Hrow2 in Hcases.
  rewrite bool_decide_true in Hcases by done. by rewrite Hcases, Ht.
Qed.

Lemma claim_replay_idempotent_witness :
  ∃ task, review_tasks demo_db !! "t1" = Some task ∧
    assigneeId task = Some "alice" ∧ (1 < version task)%Z ∧
    ClaimReviewTaskHandler_handle (λ _, false) "local" (demo_claim "alice" "k1") demo_db =
      (Ok task, demo_db).
Proof.
  apply (claim_replay_idempotent (λ _, false) demo_db demo_db (demo_claim "alice" "k1")).
  - exact demo_db_reachable.
  - apply rtc_refl.
  - vm_compute. reflexivity.
  - reflexivity.
Defined.

(** The life of a task.  From any state, through any interleaving, a task
    keeps its identity, its version never decreases, it never moves back to an
    earlier status, an assignee is never replaced, and a resolved task never
    changes again. *)
Theorem task_history db1 db2 k task1 :
  rtc step db1 db2 → review_tasks db1 !! k = Some task1 →
  ∃ task2, review_tasks db2 !! k = Some task2 ∧
    taskId task2 = taskId task1 ∧ caseId task2 = caseId task1 ∧
    (version task1 <= version task2)%Z ∧
    (status_rank (status task1) <= status_rank (status task2))%nat ∧
    (status task1 ≠ open → assigneeId task2 = assigneeId task1) ∧
    (status task1 = resolved → task2 = task1).
Proof. intros Hs Ht. destruct (steps_extends _ _ _ _ Hs Ht) as (t2 & H2 & []).
  exists t2. by split_and!. Qed.

Lemma task_history_witness :
  ∃ task2, review_tasks demo_db !! "t1" = Some task2 ∧
    taskId task2 = taskId demo_task ∧ caseId task2 = caseId demo_task ∧
    (version demo_task <= version task2)%Z ∧
    (status_rank (status demo_task) <= status_rank (status task2))%nat ∧
    (status demo_task ≠ open → assigneeId task2 = assigneeId demo_task) ∧
    (status demo_task = resolved → task2 = demo_task).
Proof.
  apply (task_history opened_db demo_db "t1" demo_task).
  - eapply rtc_l; [apply (step_claim (demo_claim "alice" "k1"))|apply rtc_refl].
  - reflexivity.
Defined.

(** Claiming a task that does not exist under a fresh key surfaces SQLite's
    foreign-key error from the reservation, for every pattern of busy runs that
    lets the operation run; the version conflict [(0, undefined)] the handler
    keeps for a missing task is not what the caller receives. *)
Theorem claim_unknown_task_foreign_key busy db command i :
  review_tasks db !! claim_taskId command = None →
  review_claims db !! claim_idempotencyKey command = None →
  (i < 2)%nat → busy i = false →
  ClaimReviewTaskHandler_handle busy "local" command db =
    (Throw (StorageError ForeignKeyFailed), db).
Proof.
  intros Ht Hkey Hi Hb.
  unfold ClaimReviewTaskHandler_handle, lift_store, claim, mbind, js_bind.
  rewrite requireLocalTenant_local. unfold withWriteTransaction.
  rewrite (write_attempts_runs _ _ _ 2 0 _ _ i) by done.
  pose proof (claim_tx_cases command db) as Hcases. rewrite Hkey, Ht in Hcases.
  by rewrite Hcases.
Qed.

Lemma claim_unknown_task_foreign_key_witness :
  ClaimReviewTaskHandler_handle (λ i, Nat.eqb i 0) "local" (demo_claim "alice" "k1") empty_db =
    (Throw (StorageError ForeignKeyFailed), empty_db).
Proof.
  apply (claim_unknown_task_foreign_key (λ i, Nat.eqb i 0) empty_db (demo_claim "alice" "k1") 1);
    [reflexivity | reflexivity | lia | reflexivity].
Defined.

End ReviewQueue.
