(* ===== verification/TestPlan.v ===== *)
(** * Test plan revisions

    Models [packages/core-modules/mission/src/domain/test-plan-revision.ts] with
    the data of [application-model/src/domain/expected-claim.ts], and the
    decompilation [proposalFromPlan] of [mission/src/application/test-plan-service.ts].
    Identities come from [idFactory], a stateful generator: the model counts its
    calls and reads the [n]-th identity from a function. *)
From S2P Require Import Prelude Number.

Module TestPlan.

(** ** Data *)
Record PrdSourceRef := {
  ref_prdId : string;
  ref_revision : Z;
  ref_startOffset : Z;
  ref_endOffset : Z;
  ref_quotedTextSha256 : string;
}.

Record SemanticTarget := {
  target_role : option string;
  target_name : option string;
  target_purpose : string;
}.

Inductive Priority := priority_low | priority_medium | priority_high.

(** [ProposedIntentStep] and [ValidatedIntentStep]: [verify] names claims by key. *)
Inductive ProposedIntentStep :=
  | p_navigate (path : string)
  | p_click (target : SemanticTarget)
  | p_input (target : SemanticTarget) (valueRef : string)
  | p_verify (claimSemanticKeys : list string).

(** The final step: [verify] names claims by their allocated identity. *)
Inductive IntentStep :=
  | navigate (path : string)
  | click (target : SemanticTarget)
  | input (target : SemanticTarget) (valueRef : string)
  | verify (claimIds : list string).

(** [ProposedExpectedClaim] and [ValidatedExpectedClaim]. *)
Record ProposedExpectedClaim := {
  p_semanticKey : string;
  p_statement : string;
  p_claimRefs : list PrdSourceRef;
  p_confidence : number;
}.

(** [ProposedTestCase] and [ValidatedTestCase]. *)
Record ProposedTestCase := {
  p_title : string;
  p_objective : string;
  p_preconditions : list string;
  p_steps : list ProposedIntentStep;
  p_claimKeys : list string;
  p_caseRefs : list PrdSourceRef;
  p_priority : Priority;
}.

Record TestPlanProposal := {
  p_claims : list ProposedExpectedClaim;
  p_testCases : list ProposedTestCase;
}.

Record ExpectedClaim := {
  claimId : string;
  semanticKey : string;
  statement : string;
  claim_sourceRefs : list PrdSourceRef;
  confidence : number;
}.

Record TestCase := {
  case_id : string;
  title : string;
  objective : string;
  preconditions : list string;
  steps : list IntentStep;
  case_claims : list ExpectedClaim;
  case_sourceRefs : list PrdSourceRef;
  case_priority : Priority;
}.

Inductive TestPlanStatus := draft | approved.

#[export] Instance TestPlanStatus_eq_dec : EqDecision TestPlanStatus.
Proof. solve_decision. Defined.

Record TestPlanApproval := {
  reviewerId : string;
  approvedAt : string;
  approval_key : string;
}.

Record TestPlanRevision := {
  planId : string;
  projectId : string;
  prdId : string;
  prdRevision : Z;
  version : Z;
  status : TestPlanStatus;
  expectedClaims : list ExpectedClaim;
  testCases : list TestCase;
  approval : option TestPlanApproval;
}.

Inductive MissionErrorCode :=
  | PlanVersionConflict
  | PlanNotApproved
  | MissionProjectMismatch
  | PlanAlreadyApproved
  | TargetCapabilityMismatch
  | MissionBudgetExceeded
  | EmptyTestPlan.

Record CreateTestPlanInput := {
  in_projectId : string;
  in_prdId : string;
  in_prdRevision : Z;
  in_proposal : TestPlanProposal;
}.

Record ApproveTestPlanCommand := {
  a_expectedVersion : Z;
  a_reviewerId : string;
  a_idempotencyKey : string;
}.

(** The [Error]s the compilation throws. *)
Inductive PlanThrow :=
  | NoClaimIdAllocated (key : string)
  | ZeroClaimIds
  | NoClaimForKey (key : string).

(** ** Compilation *)

(** [keys.map((key) => map.get(key) ?? throw)]. *)
Fixpoint resolve_keys {A} (missing : string → PlanThrow) (byKey : gmap string A)
    (keys : list string) : outcome PlanThrow (list A) :=
  match keys with
  | [] => Ok []
  | key :: rest =>
      match byKey !! key with
      | None => Throw (missing key)
      | Some a =>
          match resolve_keys missing byKey rest with
          | Ok l => Ok (a :: l)
          | Throw e => Throw e
          end
      end
  end.

Definition compileStep (step : ProposedIntentStep) (claimIdByKey : gmap string string)
    : outcome PlanThrow IntentStep :=
  match step with
  | p_navigate path => Ok (navigate path)
  | p_click target => Ok (click target)
  | p_input target valueRef => Ok (input target valueRef)
  | p_verify keys =>
      match resolve_keys NoClaimIdAllocated claimIdByKey keys with
      | Throw e => Throw e
      | Ok [] => Throw ZeroClaimIds
      | Ok claimIds => Ok (verify claimIds)
      end
  end.

(** [testCase.steps.map((step) => compileStep(step, claimIdByKey))]. *)
Fixpoint compileSteps (l : list ProposedIntentStep) (claimIdByKey : gmap string string)
    : outcome PlanThrow (list IntentStep) :=
  match l with
  | [] => Ok []
  | step :: rest =>
      match compileStep step claimIdByKey with
      | Throw e => Throw e
      | Ok s =>
          match compileSteps rest claimIdByKey with
          | Ok l' => Ok (s :: l')
          | Throw e => Throw e
          end
      end
  end.

Definition toFinalClaim (claim : ProposedExpectedClaim) (id : string) : ExpectedClaim :=
  {| claimId := id; semanticKey := p_semanticKey claim; statement := p_statement claim;
     claim_sourceRefs := p_claimRefs claim; confidence := p_confidence claim |}.

(** The state of the claim loop: calls of [idFactory], the two maps, the claims. *)
Record ClaimLoop := {
  loop_next : nat;
  claimIdByKey : gmap string string;
  claimByKey : gmap string ExpectedClaim;
  finalClaims : list ExpectedClaim;
}.

Section create.
Context (idFactory : nat → string).

Fixpoint claim_loop (l : list ProposedExpectedClaim) (s : ClaimLoop) : ClaimLoop :=
  match l with
  | [] => s
  | claim :: rest =>
      let id := idFactory (loop_next s) in
      let final := toFinalClaim claim id in
      claim_loop rest
        {| loop_next := S (loop_next s);
           claimIdByKey := <[p_semanticKey claim := id]> (claimIdByKey s);
           claimByKey := <[p_semanticKey claim := final]> (claimByKey s);
           finalClaims := finalClaims s ++ [final] |}
  end.

(** One iteration of the test-case loop; [inr] is the early [return]. *)
Definition compile_case (testCase : ProposedTestCase) (ids : gmap string string)
    (claims : gmap string ExpectedClaim) (next : nat)
    : outcome PlanThrow (TestCase + MissionErrorCode) :=
  match compileSteps (p_steps testCase) ids with
  | Throw e => Throw e
  | Ok [] => Ok (inr EmptyTestPlan)
  | Ok steps =>
      match resolve_keys NoClaimForKey claims (p_claimKeys testCase) with
      | Throw e => Throw e
      | Ok [] => Ok (inr EmptyTestPlan)
      | Ok expected =>
          Ok (inl {| case_id := idFactory next; title := p_title testCase;
                     objective := p_objective testCase;
                     preconditions := p_preconditions testCase;
                     steps := steps; case_claims := expected;
                     case_sourceRefs := p_caseRefs testCase;
                     case_priority := p_priority testCase |})
      end
  end.

Fixpoint compile_cases (l : list ProposedTestCase) (ids : gmap string string)
    (claims : gmap string ExpectedClaim) (next : nat)
    : outcome PlanThrow (list TestCase + MissionErrorCode) :=
  match l with
  | [] => Ok (inl [])
  | testCase :: rest =>
      match compile_case testCase ids claims next with
      | Throw e => Throw e
      | Ok (inr e) => Ok (inr e)
      | Ok (inl final) =>
          match compile_cases rest ids claims (S next) with
          | Ok (inl l') => Ok (inl (final :: l'))
          | r => r
          end
      end
  end.

Definition createDraftTestPlan (inp : CreateTestPlanInput)
    : outcome PlanThrow (TestPlanRevision + MissionErrorCode) :=
  let proposal := in_proposal inp in
  match p_claims proposal, p_testCases proposal with
  | [], _ | _, [] => Ok (inr EmptyTestPlan)
  | _, _ =>
      let s := claim_loop (p_claims proposal)
        {| loop_next := 0; claimIdByKey := ∅; claimByKey := ∅; finalClaims := [] |} in
      match compile_cases (p_testCases proposal) (claimIdByKey s) (claimByKey s)
              (loop_next s) with
      | Throw e => Throw e
      | Ok (inr e) => Ok (inr e)
      | Ok (inl finalTestCases) =>
          match finalClaims s, finalTestCases with
          | [], _ | _, [] => Ok (inr EmptyTestPlan)
          | _, _ =>
              Ok (inl {| planId := idFactory (loop_next s + length finalTestCases);
                         projectId := in_projectId inp; prdId := in_prdId inp;
                         prdRevision := in_prdRevision inp; version := 1;
                         status := draft; expectedClaims := finalClaims s;
                         testCases := finalTestCases; approval := None |})
          end
      end
  end.
End create.

(** ** Approval *)
Definition approveTestPlan (plan : TestPlanRevision) (command : ApproveTestPlanCommand)
    (now : string) : TestPlanRevision + MissionErrorCode :=
  if bool_decide (status plan = approved) then
    if bool_decide (approval_key <$> approval plan = Some (a_idempotencyKey command))
    then inl plan else inr PlanAlreadyApproved
  else if negb (a_expectedVersion command =? version plan)%Z then inr PlanVersionConflict
  else inl {| planId := planId plan; projectId := projectId plan; prdId := prdId plan;
              prdRevision := prdRevision plan; version := version plan + 1;
              status := approved; expectedClaims := expectedClaims plan;
              testCases := testCases plan;
              approval := Some {| reviewerId := a_reviewerId command; approvedAt := now;
                                  approval_key := a_idempotencyKey command |} |}.

(** ** Decompilation (test-plan-service.ts)

    [new Map(plan.expectedClaims.map((claim) => [claim.claimId, claim.semanticKey]))]:
    a later entry wins. *)
Definition keyById (claims : list ExpectedClaim) : gmap string string :=
  foldl (λ m c, <[claimId c := semanticKey c]> m) ∅ claims.

(** [nonEmpty]; [None] is the thrown [InvalidPlanningProposal]. *)
Definition nonEmpty {A} (l : list A) : option (list A) :=
  match l with [] => None | _ => Some l end.

Definition toProposedStep (step : IntentStep) (keys : gmap string string)
    : option ProposedIntentStep :=
  match step with
  | navigate path => Some (p_navigate path)
  | click target => Some (p_click target)
  | input target valueRef => Some (p_input target valueRef)
  | verify claimIds =>
      p_verify <$> nonEmpty ((λ id, default EmptyString (keys !! id)) <$> claimIds)
  end.

Definition toProposedCase (keys : gmap string string) (testCase : TestCase)
    : option ProposedTestCase :=
  l ← mapM (λ step, toProposedStep step keys) (steps testCase);
  psteps ← nonEmpty l;
  pkeys ← nonEmpty (semanticKey <$> case_claims testCase);
  Some {| p_title := title testCase; p_objective := objective testCase;
          p_preconditions := preconditions testCase; p_steps := psteps;
          p_claimKeys := pkeys; p_caseRefs := case_sourceRefs testCase;
          p_priority := case_priority testCase |}.

(** A final claim read as a proposed one: the extra [claimId] is ignored. *)
Definition toProposedClaim (claim : ExpectedClaim) : ProposedExpectedClaim :=
  {| p_semanticKey := semanticKey claim; p_statement := statement claim;
     p_claimRefs := claim_sourceRefs claim; p_confidence := confidence claim |}.

Definition proposalFromPlan (plan : TestPlanRevision) : option TestPlanProposal :=
  cases ← mapM (toProposedCase (keyById (expectedClaims plan))) (testCases plan);
  Some {| p_claims := toProposedClaim <$> expectedClaims plan; p_testCases := cases |}.

(** ** What the compilation computes *)
Section create_facts.
Context (idFactory : nat → string).

(** The claims with the identities allocated from call [n] on. *)
Fixpoint finals (n : nat) (l : list ProposedExpectedClaim) : list ExpectedClaim :=
  match l with
  | [] => []
  | claim :: rest => toFinalClaim claim (idFactory n) :: finals (S n) rest
  end.

Lemma claim_loop_spec l s :
  claim_loop idFactory l s =
    {| loop_next := loop_next s + length l;
       claimIdByKey := foldl_insert semanticKey claimId (claimIdByKey s) (finals (loop_next s) l);
       claimByKey := foldl_insert semanticKey id (claimByKey s) (finals (loop_next s) l);
       finalClaims := finalClaims s ++ finals (loop_next s) l |}.
Proof.
  revert s. induction l as [|claim l IH]; intros s; cbn.
  - rewrite Nat.add_0_r, app_nil_r. by destruct s.
  - rewrite IH. cbn. rewrite <- app_assoc. cbn. do 3 f_equal. lia.
Qed.

Lemma finals_keys n l : semanticKey <$> finals n l = p_semanticKey <$> l.
Proof. revert n. induction l as [|c l IH]; intros n; cbn; [done|]. by rewrite IH. Qed.

Lemma finals_proposed n l : toProposedClaim <$> finals n l = l.
Proof.
  revert n. induction l as [|c l IH]; intros n; cbn; [done|]. rewrite IH. by destruct c.
Qed.

Lemma finals_ids n l : claimId <$> finals n l = idFactory <$> seq n (length l).
Proof. revert n. induction l as [|c l IH]; intros n; cbn; [done|]. by rewrite IH. Qed.

Lemma finals_nil n l : finals n l = [] ↔ l = [].
Proof. by destruct l. Qed.

Lemma keyById_finals n l c :
  Inj (=) (=) idFactory → c ∈ finals n l →
  keyById (finals n l) !! claimId c = Some (semanticKey c).
Proof.
  intros Hinj Hc. apply (foldl_insert_lookup claimId semanticKey); [|done].
  rewrite finals_ids. apply NoDup_fmap_2; [done|]. apply NoDup_ListNoDup, List.seq_NoDup.
Qed.

(** Keys that all name a claim resolve, and the resolved claims carry them. *)
Lemma resolve_keys_claims missing (fc : list ExpectedClaim) keys :
  NoDup (semanticKey <$> fc) → keys ⊆ semanticKey <$> fc →
  ∃ l, resolve_keys missing (foldl_insert semanticKey id ∅ fc) keys = Ok l ∧
    semanticKey <$> l = keys ∧ l ⊆ fc.
Proof.
  intros Hnd. induction keys as [|key keys IH]; intros Hsub; cbn.
  - exists []. split_and!; [done|done|set_solver].
  - assert (key ∈ semanticKey <$> fc) as (c & -> & Hc)%list_elem_of_fmap by set_solver.
    rewrite (foldl_insert_lookup semanticKey id) by done. cbn.
    destruct IH as (l & -> & <- & Hl); [set_solver|].
    exists (c :: l). split_and!; [done|done|set_solver].
Qed.

Lemma resolve_keys_ids missing (fc : list ExpectedClaim) keys :
  NoDup (semanticKey <$> fc) → keys ⊆ semanticKey <$> fc →
  ∃ l, resolve_keys missing (foldl_insert semanticKey claimId ∅ fc) keys = Ok (claimId <$> l) ∧
    semanticKey <$> l = keys ∧ l ⊆ fc.
Proof.
  intros Hnd. induction keys as [|key keys IH]; intros Hsub; cbn.
  - exists []. split_and!; [done|done|set_solver].
  - assert (key ∈ semanticKey <$> fc) as (c & -> & Hc)%list_elem_of_fmap by set_solver.
    rewrite (foldl_insert_lookup semanticKey claimId) by done. cbn.
    destruct IH as (l & -> & <- & Hl); [set_solver|].
    exists (c :: l). split_and!; [done|done|set_solver].
Qed.
End create_facts.

(** What the proposal validator promises of the values it returns. *)
Definition step_ok (keys : list string) (step : ProposedIntentStep) : Prop :=
  match step with
  | p_verify ks => ks ≠ [] ∧ ks ⊆ keys
  | _ => True
  end.

Record case_ok (keys : list string) (testCase : ProposedTestCase) : Prop := {
  case_steps : p_steps testCase ≠ [];
  case_steps_ok : Forall (step_ok keys) (p_steps testCase);
  case_keys : p_claimKeys testCase ≠ [];
  case_keys_known : p_claimKeys testCase ⊆ keys;
}.

Record validated (proposal : TestPlanProposal) : Prop := {
  val_claims : p_claims proposal ≠ [];
  val_cases : p_testCases proposal ≠ [];
  val_unique : NoDup (p_semanticKey <$> p_claims proposal);
  val_case : Forall (case_ok (p_semanticKey <$> p_claims proposal)) (p_testCases proposal);
}.

Section compile_validated.
Context (idFactory : nat → string) (Hinj : Inj (=) (=) idFactory).
Context (n : nat) (claims : list ProposedExpectedClaim).
Context (Hnd : NoDup (p_semanticKey <$> claims)).

Local Notation fc := (finals idFactory n claims).
Local Notation keys := (p_semanticKey <$> claims).
Local Notation ids := (foldl_insert semanticKey claimId ∅ fc).
Local Notation byKey := (foldl_insert semanticKey id ∅ fc).

Lemma key_of_ids (l : list ExpectedClaim) :
  l ⊆ fc → (λ id, default EmptyString (keyById fc !! id)) <$> (claimId <$> l) = semanticKey <$> l.
Proof.
  intros Hl. induction l as [|c l IH]; [done|]. cbn [fmap list_fmap].
  f_equal; [|apply IH; set_solver].
  rewrite keyById_finals; [done|done|]. set_solver.
Qed.

Lemma compileStep_validated step :
  step_ok keys step →
  ∃ s, compileStep step ids = Ok s ∧ toProposedStep s (keyById fc) = Some step.
Proof.
  destruct step as [path|target|target v|ks]; cbn; intros Hok; [by eexists..|].
  destruct Hok as [Hne Hsub].
  destruct (resolve_keys_ids NoClaimIdAllocated fc ks) as (l & -> & Hk & Hl);
    [by rewrite finals_keys..|].
  destruct l as [|c l]; [by subst|]. eexists; split; [done|].
  cbn [toProposedStep fmap list_fmap nonEmpty option_fmap option_map].
  pose proof (key_of_ids (c :: l) Hl) as Hids. cbn [fmap list_fmap] in Hids, Hk.
  rewrite Hids. by rewrite Hk.
Qed.

Lemma compileSteps_validated l :
  Forall (step_ok keys) l →
  ∃ ss, compileSteps l ids = Ok ss ∧ length ss = length l ∧
    mapM (λ s, toProposedStep s (keyById fc)) ss = Some l.
Proof.
  induction 1 as [|step l Hok Hl IH]; cbn; [by exists []|].
  destruct (compileStep_validated step Hok) as (s & -> & Hs).
  destruct IH as (ss & -> & Hlen & Hss). exists (s :: ss). split_and!; [done|cbn; lia|].
  cbn. rewrite Hs. cbn. by rewrite Hss.
Qed.

Lemma compile_case_validated testCase next :
  case_ok keys testCase →
  ∃ c, compile_case idFactory testCase ids byKey next = Ok (inl c) ∧
    case_id c = idFactory next ∧ toProposedCase (keyById fc) c = Some testCase ∧
    case_claims c ⊆ fc.
Proof.
  intros [Hs1 Hs2 Hk1 Hk2]. unfold compile_case.
  destruct (compileSteps_validated _ Hs2) as (ss & -> & Hlen & Hss).
  destruct ss as [|s ss]; [destruct (p_steps testCase); cbn in *; [done|lia]|].
  destruct (resolve_keys_claims NoClaimForKey fc (p_claimKeys testCase)) as (l & -> & Hk & Hl);
    [by rewrite finals_keys..|].
  destruct l as [|c l]; [by rewrite <- Hk in Hk1|].
  eexists; split_and!; [done|done| |done].
  unfold toProposedCase. cbn [steps case_claims]. rewrite Hss. cbn [mbind option_bind].
  destruct (p_steps testCase) as [|p ps] eqn:Hps; [done|]. cbn [nonEmpty mbind option_bind].
  rewrite Hk. destruct (p_claimKeys testCase) as [|k ks] eqn:Hpk; [done|].
  cbn. destruct testCase; cbn in *. by subst.
Qed.

Lemma compile_cases_validated l next :
  Forall (case_ok keys) l →
  ∃ cs, compile_cases idFactory l ids byKey next = Ok (inl cs) ∧
    case_id <$> cs = idFactory <$> seq next (length l) ∧
    mapM (toProposedCase (keyById fc)) cs = Some l ∧
    Forall (λ c, case_claims c ⊆ fc) cs.
Proof.
  intros Hl. revert next. induction Hl as [|testCase l Hok Hl IH]; intros next; cbn; [by exists []|].
  destruct (compile_case_validated testCase next Hok) as (c & -> & Hid & Hc & Hcl).
  destruct (IH (S next)) as (cs & -> & Hids & Hcs & Hcls).
  exists (c :: cs). split_and!; [done| | |by constructor].
  - cbn. by rewrite Hid, Hids.
  - cbn. rewrite Hc. cbn. by rewrite Hcs.
Qed.
End compile_validated.

Lemma createDraft_validated idFactory inp :
  Inj (=) (=) idFactory → validated (in_proposal inp) →
  ∃ plan, createDraftTestPlan idFactory inp = Ok (inl plan) ∧
    status plan = draft ∧ version plan = 1%Z ∧
    proposalFromPlan plan = Some (in_proposal inp) ∧
    NoDup ((claimId <$> expectedClaims plan) ++ (case_id <$> testCases plan) ++ [planId plan]) ∧
    Forall (λ c, case_claims c ⊆ expectedClaims plan) (testCases plan).
Proof.
  intros Hinj [Hc Ht Hnd Hcase]. destruct inp as [pj pd pr [claims cases]]. cbn in *.
  unfold createDraftTestPlan. cbn [in_proposal p_claims p_testCases].
  destruct claims as [|c0 claims]; [done|]. destruct cases as [|t0 cases]; [done|].
  rewrite claim_loop_spec.
  cbn [loop_next claimIdByKey claimByKey finalClaims app].
  destruct (compile_cases_validated idFactory Hinj 0 (c0 :: claims) Hnd _ (0 + length (c0 :: claims)) Hcase)
    as (cs & -> & Hids & Hcs & Hcl).
  destruct cs as [|c cs]; [done|]. cbn [finals].
  eexists; split_and!; [done|done|done| | |exact Hcl].
  - unfold proposalFromPlan. cbn [expectedClaims testCases].
    change (toFinalClaim c0 (idFactory 0) :: finals idFactory 1 claims)
      with (finals idFactory 0 (c0 :: claims)).
    rewrite Hcs. cbn [mbind option_bind]. by rewrite finals_proposed.
  - cbn [expectedClaims testCases planId].
    change (toFinalClaim c0 (idFactory 0) :: finals idFactory 1 claims)
      with (finals idFactory 0 (c0 :: claims)).
    rewrite finals_ids, Hids.
    assert (length (c :: cs) = length (t0 :: cases)) as ->.
    { rewrite <- (length_fmap case_id (c :: cs)), Hids, length_fmap, length_seq. done. }
    change [idFactory ?x] with (idFactory <$> seq x 1).
    rewrite <- !fmap_app, <- !seq_app. apply NoDup_fmap_2; [done|].
    apply NoDup_ListNoDup, List.seq_NoDup.
Qed.

(** ** Theorems *)

(** Compiling a validated proposal never throws and never reports an empty
    plan; the draft it returns gives distinct identities to the claims, the test
    cases and the plan, every test case refers only to claims of the plan, and
    decompiling the draft, as approval does before re-validating it, gives the
    proposal back. *)
Theorem draft_roundtrip idFactory inp :
  Inj (=) (=) idFactory → validated (in_proposal inp) →
  ∃ plan, createDraftTestPlan idFactory inp = Ok (inl plan) ∧
    status plan = draft ∧ version plan = 1%Z ∧
    proposalFromPlan plan = Some (in_proposal inp) ∧
    NoDup ((claimId <$> expectedClaims plan) ++ (case_id <$> testCases plan) ++ [planId plan]) ∧
    Forall (λ c, case_claims c ⊆ expectedClaims plan) (testCases plan).
Proof. apply createDraft_validated. Qed.

Definition demo_ref : PrdSourceRef :=
  {| ref_prdId := "prd"; ref_revision := 1; ref_startOffset := 0; ref_endOffset := 4;
     ref_quotedTextSha256 := "h" |}.
Definition demo_proposal : TestPlanProposal :=
  {| p_claims := [{| p_semanticKey := "login"; p_statement := "user logs in";
                     p_claimRefs := [demo_ref]; p_confidence := num_of_Z 1 |};
                  {| p_semanticKey := "logout"; p_statement := "user logs out";
                     p_claimRefs := [demo_ref]; p_confidence := num_of_Z 1 |}];
     p_testCases := [{| p_title := "t"; p_objective := "o"; p_preconditions := [];
                        p_steps := [p_navigate "/"; p_verify ["logout"; "login"]];
                        p_claimKeys := ["login"]; p_caseRefs := [demo_ref];
                        p_priority := priority_high |}] |}.
Definition demo_input : CreateTestPlanInput :=
  {| in_projectId := "p"; in_prdId := "prd"; in_prdRevision := 1;
     in_proposal := demo_proposal |}.

Lemma draft_roundtrip_witness :
  validated demo_proposal ∧
  ∃ plan, createDraftTestPlan strokes demo_input = Ok (inl plan) ∧
    status plan = draft ∧ version plan = 1%Z ∧
    proposalFromPlan plan = Some demo_proposal ∧
    NoDup ((claimId <$> expectedClaims plan) ++ (case_id <$> testCases plan) ++ [planId plan]) ∧
    Forall (λ c, case_claims c ⊆ expectedClaims plan) (testCases plan).
Proof.
  assert (validated demo_proposal) as Hv.
  { split; cbn; [done|done|apply (bool_decide_unpack _); vm_compute; exact I|].
    apply Forall_singleton. split; cbn; [done| |done|set_solver].
    apply Forall_cons; split; [exact I|]. apply Forall_singleton. split; [done|set_solver]. }
  split; [exact Hv|]. apply (draft_roundtrip strokes demo_input strokes_inj Hv).
Defined.

(** Approval is single-writer.  A draft is approved exactly at its own
    version, which advances by one; once approved, through any number of further
    approval commands, the recorded approval never changes: the same idempotency
    key replays the approved revision and any other is refused. *)
Theorem approve_single_writer plan command now plan' :
  status plan = draft →
  approveTestPlan plan command now = inl plan' →
  a_expectedVersion command = version plan ∧
  version plan' = (version plan + 1)%Z ∧ status plan' = approved ∧
  testCases plan' = testCases plan ∧ expectedClaims plan' = expectedClaims plan ∧
  ∀ command' now',
    approveTestPlan plan' command' now' =
      if bool_decide (a_idempotencyKey command' = a_idempotencyKey command)
      then inl plan' else inr PlanAlreadyApproved.
Proof.
  intros Hs. unfold approveTestPlan at 1. rewrite Hs. cbn.
  destruct (Z.eqb_spec (a_expectedVersion command) (version plan)); [|done].
  intros [= <-]. split_and!; [done..|]. intros command' now'. unfold approveTestPlan. cbn.
  repeat case_bool_decide; congruence.
Qed.

Definition demo_plan : TestPlanRevision :=
  {| planId := "plan"; projectId := "p"; prdId := "prd"; prdRevision := 1; version := 1;
     status := draft; expectedClaims := []; testCases := []; approval := None |}.
Definition demo_approve (key : string) : ApproveTestPlanCommand :=
  {| a_expectedVersion := 1; a_reviewerId := "alice"; a_idempotencyKey := key |}.

Lemma approve_single_writer_witness :
  ∃ plan', approveTestPlan demo_plan (demo_approve "k") "now" = inl plan' ∧
    version plan' = 2%Z ∧
    approveTestPlan plan' (demo_approve "other") "later" = inr PlanAlreadyApproved.
Proof.
  eexists. split; [reflexivity|].
  destruct (approve_single_writer demo_plan (demo_approve "k") "now" _ eq_refl eq_refl)
    as (_ & Hv & _ & _ & _ & Hagain).
  split; [exact Hv|]. apply (Hagain (demo_approve "other") "later").
Defined.

End TestPlan.
