(* ===== verification/Investigation.v ===== *)
(** * The Investigation aggregate

    Models [packages/core-modules/investigation/src/domain]: the budget ledger
    ([investigation-budget.ts]), the append-only attempts
    ([reproduction-attempt.ts]) and the case with its commands
    ([investigation-case.ts]).  A command is a call on the mutable case: it
    returns a transition or throws, and a throw keeps the fields it already
    assigned. *)
From S2P Require Import Prelude Number TestPlan.

Module Investigation.

(** ** The budget ledger (investigation-budget.ts, reproduction-attempt.ts) *)
Inductive ReproductionOutcome :=
  | reproduced | not_reproduced | diverged | environment_failed | blocked.

#[export] Instance ReproductionOutcome_eq_dec : EqDecision ReproductionOutcome.
Proof. solve_decision. Defined.

Record InvestigationBudget := {
  maximumReproductionAttempts : number;
  maximumPlanningRevisions : number;
  maximumEnvironmentRetries : number;
  maximumWallClockMs : number;
  maximumModelTokens : number;
  maximumEnvironmentResets : number;
  maximumDestructiveActions : number;
  confirmationConfidenceThreshold : number;
}.

Record InvestigationBudgetUsage := {
  reproductionAttempts : number;
  planningRevisions : number;
  environmentRetries : number;
  wallClockMs : number;
  modelTokens : number;
  environmentResets : number;
  destructiveActions : number;
}.

Inductive BudgetDimension :=
  | d_reproductionAttempts | d_planningRevisions | d_environmentRetries | d_wallClockMs
  | d_modelTokens | d_environmentResets | d_destructiveActions.

#[export] Instance BudgetDimension_eq_dec : EqDecision BudgetDimension.
Proof. solve_decision. Defined.

Record ReproductionAttempt := {
  attemptId : string;
  attempt_caseId : string;
  ordinal : Z;
  attempt_planRevision : Z;
  environmentRef : string;
  startedAt : string;
  completedAt : string;
  attempt_outcome : ReproductionOutcome;
  divergenceStepId : option string;
  attempt_evidenceRefs : list string;
  budgetConsumed : InvestigationBudgetUsage;
}.

Record ReproductionAttemptDraft := {
  d_attemptId : string;
  d_environmentRef : string;
  d_startedAt : string;
  d_completedAt : string;
  d_outcome : ReproductionOutcome;
  d_divergenceStepId : option string;
  d_evidenceRefs : list string;
  d_budgetConsumed : InvestigationBudgetUsage;
}.

Definition ZERO_USAGE : InvestigationBudgetUsage :=
  {| reproductionAttempts := num_of_Z 0; planningRevisions := num_of_Z 0;
     environmentRetries := num_of_Z 0; wallClockMs := num_of_Z 0;
     modelTokens := num_of_Z 0; environmentResets := num_of_Z 0;
     destructiveActions := num_of_Z 0 |}.

Record BudgetConsumeResult := {
  consumed_usage : InvestigationBudgetUsage;
  exhausted : bool;
  exhaustedDimensions : list BudgetDimension;
}.

Definition outcomeConsumesReproductionAttempt (outcome : ReproductionOutcome) : bool :=
  negb (bool_decide (outcome = environment_failed)).

(** What a command throws: an [InvestigationError] by its code, or the plain
    [Error] of [nonNegative]. *)
Inductive Thrown :=
  | InvestigationVersionConflict
  | InvestigationIllegalTransition
  | InvestigationBudgetExhausted
  | InvestigationConfirmationRejected
  | InvestigationAttemptUnknown
  | NegativeConsumption (dimension : BudgetDimension).

(** The usage counter of a dimension, and its ceiling. *)
Definition usage_of (u : InvestigationBudgetUsage) (d : BudgetDimension) : number :=
  match d with
  | d_reproductionAttempts => reproductionAttempts u
  | d_planningRevisions => planningRevisions u
  | d_environmentRetries => environmentRetries u
  | d_wallClockMs => wallClockMs u
  | d_modelTokens => modelTokens u
  | d_environmentResets => environmentResets u
  | d_destructiveActions => destructiveActions u
  end.

Definition ceiling (b : InvestigationBudget) (d : BudgetDimension) : number :=
  match d with
  | d_reproductionAttempts => maximumReproductionAttempts b
  | d_planningRevisions => maximumPlanningRevisions b
  | d_environmentRetries => maximumEnvironmentRetries b
  | d_wallClockMs => maximumWallClockMs b
  | d_modelTokens => maximumModelTokens b
  | d_environmentResets => maximumEnvironmentResets b
  | d_destructiveActions => maximumDestructiveActions b
  end.

(** The order in which [evaluate] tests the dimensions. *)
Definition dimensions : list BudgetDimension :=
  [d_reproductionAttempts; d_planningRevisions; d_environmentRetries; d_wallClockMs;
   d_modelTokens; d_environmentResets; d_destructiveActions].

(** [usage.d >= this.budget.maximum_d]. *)
Definition reached (b : InvestigationBudget) (u : InvestigationBudgetUsage)
    (d : BudgetDimension) : bool :=
  num_leb (ceiling b d) (usage_of u d).

Definition evaluate (b : InvestigationBudget) (u : InvestigationBudgetUsage)
    : BudgetConsumeResult :=
  let dims := List.filter (reached b u) dimensions in
  {| consumed_usage := u; exhausted := bool_decide (dims ≠ []); exhaustedDimensions := dims |}.

(** [this.d += x]. *)
Definition add_to (d : BudgetDimension) (x : number) (u : InvestigationBudgetUsage)
    : InvestigationBudgetUsage :=
  let bump d' v := if decide (d = d') then num_add v x else v in
  {| reproductionAttempts := bump d_reproductionAttempts (reproductionAttempts u);
     planningRevisions := bump d_planningRevisions (planningRevisions u);
     environmentRetries := bump d_environmentRetries (environmentRetries u);
     wallClockMs := bump d_wallClockMs (wallClockMs u);
     modelTokens := bump d_modelTokens (modelTokens u);
     environmentResets := bump d_environmentResets (environmentResets u);
     destructiveActions := bump d_destructiveActions (destructiveActions u) |}.

(** ** The case (investigation-case.ts) *)
Inductive InvestigationStatus :=
  | candidate | investigating | reproducing | confirmed | refuted | flaky
  | needs_human | resolved | regression_verified.

#[export] Instance InvestigationStatus_eq_dec : EqDecision InvestigationStatus.
Proof. solve_decision. Defined.

Record BugEpisode := {
  episodeId : string;
  episode_caseId : string;
  episode_findingId : string;
  confirmedAttemptIds : list string;
  episode_expectedClaims : list string;
  observedFacts : list string;
  minimalSteps : list TestPlan.IntentStep;
  environment : gmap string string;
  episode_evidenceRefs : list string;
  episode_confidence : number;
}.

Record BugEpisodeDraft := {
  d_episodeId : string;
  d_confirmedAttemptIds : list string;
  d_expectedClaims : list string;
  d_observedFacts : list string;
  d_minimalSteps : list TestPlan.IntentStep;
  d_environment : gmap string string;
  d_episodeEvidenceRefs : list string;
  d_confidence : number;
}.

Record HumanHandoff := {
  handoff_caseId : string;
  bestHypothesis : string;
  handoff_attemptIds : list string;
  lastDivergence : option string;
  keyEvidenceRefs : list string;
  suggestedActions : list string;
  limitationCodes : list string;
}.

Record HumanHandoffDraft := {
  d_bestHypothesis : string;
  d_lastDivergence : option string;
  d_keyEvidenceRefs : list string;
  d_suggestedActions : list string;
  d_limitationCodes : list string;
}.

Record InvestigationCommandBase := {
  expectedVersion : Z;
  idempotencyKey : string;
}.

Record InvestigationTransition := {
  t_caseId : string;
  fromStatus : InvestigationStatus;
  toStatus : InvestigationStatus;
  t_version : Z;
  t_idempotencyKey : string;
  t_planRevision : Z;
  t_usage : InvestigationBudgetUsage;
  appendedAttempt : option ReproductionAttempt;
  t_bugEpisode : option BugEpisode;
  t_handoff : option HumanHandoff;
  t_exhaustedDimensions : option (list BudgetDimension);
}.

Record InvestigationOpenInput := {
  open_caseId : string;
  open_findingId : string;
  open_projectId : string;
  open_budget : InvestigationBudget;
}.

Definition FORWARD_ORDER (s : InvestigationStatus) : Z :=
  match s with
  | candidate => 0
  | investigating => 1
  | reproducing => 2
  | confirmed | refuted | flaky | needs_human => 3
  | resolved => 4
  | regression_verified => 5
  end.

(** The fields of an [InvestigationCase], the ledger's among them. *)
Record Case := {
  caseId : string;
  findingId : string;
  projectId : string;
  budget : InvestigationBudget;
  usage : InvestigationBudgetUsage;
  confirmationThreshold : number;
  version : Z;
  status : InvestigationStatus;
  planRevision : Z;
  bugEpisode : option BugEpisode;
  handoff : option HumanHandoff;
  attempts : list ReproductionAttempt;
  transitions : gmap string InvestigationTransition;
}.

Definition set_usage (f : InvestigationBudgetUsage → InvestigationBudgetUsage) (c : Case) : Case :=
  {| caseId := caseId c; findingId := findingId c; projectId := projectId c;
     budget := budget c; usage := f (usage c);
     confirmationThreshold := confirmationThreshold c; version := version c;
     status := status c; planRevision := planRevision c; bugEpisode := bugEpisode c;
     handoff := handoff c; attempts := attempts c; transitions := transitions c |}.
Definition set_planRevision (f : Z → Z) (c : Case) : Case :=
  {| caseId := caseId c; findingId := findingId c; projectId := projectId c;
     budget := budget c; usage := usage c;
     confirmationThreshold := confirmationThreshold c; version := version c;
     status := status c; planRevision := f (planRevision c); bugEpisode := bugEpisode c;
     handoff := handoff c; attempts := attempts c; transitions := transitions c |}.
Definition set_bugEpisode (e : BugEpisode) (c : Case) : Case :=
  {| caseId := caseId c; findingId := findingId c; projectId := projectId c;
     budget := budget c; usage := usage c;
     confirmationThreshold := confirmationThreshold c; version := version c;
     status := status c; planRevision := planRevision c; bugEpisode := Some e;
     handoff := handoff c; attempts := attempts c; transitions := transitions c |}.
Definition set_handoff (h : HumanHandoff) (c : Case) : Case :=
  {| caseId := caseId c; findingId := findingId c; projectId := projectId c;
     budget := budget c; usage := usage c;
     confirmationThreshold := confirmationThreshold c; version := version c;
     status := status c; planRevision := planRevision c; bugEpisode := bugEpisode c;
     handoff := Some h; attempts := attempts c; transitions := transitions c |}.
Definition push_attempt (a : ReproductionAttempt) (c : Case) : Case :=
  {| caseId := caseId c; findingId := findingId c; projectId := projectId c;
     budget := budget c; usage := usage c;
     confirmationThreshold := confirmationThreshold c; version := version c;
     status := status c; planRevision := planRevision c; bugEpisode := bugEpisode c;
     handoff := handoff c; attempts := attempts c ++ [a]; transitions := transitions c |}.
Definition record_transition (t : InvestigationTransition) (c : Case) : Case :=
  {| caseId := caseId c; findingId := findingId c; projectId := projectId c;
     budget := budget c; usage := usage c;
     confirmationThreshold := confirmationThreshold c; version := t_version t;
     status := toStatus t; planRevision := planRevision c; bugEpisode := bugEpisode c;
     handoff := handoff c; attempts := attempts c;
     transitions := <[t_idempotencyKey t := t]> (transitions c) |}.

(** [InvestigationCase.open]. *)
Definition open (inp : InvestigationOpenInput) : Case :=
  {| caseId := open_caseId inp; findingId := open_findingId inp;
     projectId := open_projectId inp; budget := open_budget inp; usage := ZERO_USAGE;
     confirmationThreshold := confirmationConfidenceThreshold (open_budget inp);
     version := 1; status := candidate; planRevision := 0; bugEpisode := None;
     handoff := None; attempts := []; transitions := ∅ |}.

(** [InvestigationCase.restore]: the replay map starts empty. *)
Definition restore (case finding project : string) (b : InvestigationBudget)
    (u : InvestigationBudgetUsage) (v : Z) (s : InvestigationStatus) (revision : Z)
    (l : list ReproductionAttempt) (e : option BugEpisode) (h : option HumanHandoff) : Case :=
  {| caseId := case; findingId := finding; projectId := project; budget := b; usage := u;
     confirmationThreshold := confirmationConfidenceThreshold b; version := v; status := s;
     planRevision := revision; bugEpisode := e; handoff := h; attempts := l;
     transitions := ∅ |}.

Definition M := js Case Thrown.

Definition nonNegative (value : number) (d : BudgetDimension) : M number :=
  if negb (is_finite value) || num_ltb value (num_of_Z 0)
  then throw (NegativeConsumption d) else mret value.

(** [this.d += nonNegative(consumed.d, "d")]. *)
Definition consume_checked (consumed : InvestigationBudgetUsage) (d : BudgetDimension) : M unit :=
  x ← nonNegative (usage_of consumed d) d;
  modify (set_usage (add_to d x)).

Definition consumePlanRevision : M BudgetConsumeResult :=
  _ ← modify (set_usage (add_to d_planningRevisions (num_of_Z 1)));
  gets (λ c, evaluate (budget c) (usage c)).

Definition consumeAttempt (attempt : ReproductionAttempt) : M BudgetConsumeResult :=
  _ ← modify (set_usage (add_to
        (if outcomeConsumesReproductionAttempt (attempt_outcome attempt)
         then d_reproductionAttempts else d_environmentRetries) (num_of_Z 1)));
  let consumed := budgetConsumed attempt in
  _ ← consume_checked consumed d_wallClockMs;
  _ ← consume_checked consumed d_modelTokens;
  _ ← consume_checked consumed d_environmentResets;
  _ ← consume_checked consumed d_destructiveActions;
  gets (λ c, evaluate (budget c) (usage c)).

Definition dimension_name (d : BudgetDimension) : string :=
  match d with
  | d_reproductionAttempts => "reproductionAttempts"
  | d_planningRevisions => "planningRevisions"
  | d_environmentRetries => "environmentRetries"
  | d_wallClockMs => "wallClockMs"
  | d_modelTokens => "modelTokens"
  | d_environmentResets => "environmentResets"
  | d_destructiveActions => "destructiveActions"
  end.

Definition limitation (d : BudgetDimension) : string :=
  "budget_exhausted:" +:+ dimension_name d.

Definition replay (command : InvestigationCommandBase) : M (option InvestigationTransition) :=
  gets (λ c, transitions c !! idempotencyKey command).

Definition assertExpectedVersion (expected : Z) : M unit :=
  c ← get;
  throw_if (negb (expected =? version c)%Z) InvestigationVersionConflict.

(** The optional fields [commit] copies into the transition. *)
Record Extras := {
  x_appendedAttempt : option ReproductionAttempt;
  x_bugEpisode : option BugEpisode;
  x_handoff : option HumanHandoff;
  x_exhaustedDimensions : option (list BudgetDimension);
}.

Definition no_extras : Extras :=
  {| x_appendedAttempt := None; x_bugEpisode := None; x_handoff := None;
     x_exhaustedDimensions := None |}.

Definition commit (command : InvestigationCommandBase) (to : InvestigationStatus)
    (extras : Extras) : M InvestigationTransition :=
  c ← get;
  let transition :=
    {| t_caseId := caseId c; fromStatus := status c; toStatus := to;
       t_version := version c + 1; t_idempotencyKey := idempotencyKey command;
       t_planRevision := planRevision c; t_usage := usage c;
       appendedAttempt := x_appendedAttempt extras; t_bugEpisode := x_bugEpisode extras;
       t_handoff := x_handoff extras;
       t_exhaustedDimensions := x_exhaustedDimensions extras |} in
  _ ← modify (record_transition transition);
  mret transition.

Definition buildHandoff (c : Case) (d : HumanHandoffDraft) (dims : list BudgetDimension)
    : HumanHandoff :=
  {| handoff_caseId := caseId c; bestHypothesis := d_bestHypothesis d;
     handoff_attemptIds := attemptId <$> attempts c; lastDivergence := d_lastDivergence d;
     keyEvidenceRefs := d_keyEvidenceRefs d; suggestedActions := d_suggestedActions d;
     limitationCodes := match d_limitationCodes d with
                        | [] => limitation <$> dims
                        | codes => codes
                        end |}.

Definition commitNeedsHuman (command : InvestigationCommandBase) (dims : list BudgetDimension)
    (attempt : option ReproductionAttempt) : M InvestigationTransition :=
  c ← get;
  let handoff := buildHandoff c
    {| d_bestHypothesis := "Investigation exhausted its budget before a confident confirmation.";
       d_keyEvidenceRefs := match attempt with Some a => attempt_evidenceRefs a | None => [] end;
       d_suggestedActions := ["Assign a human reviewer to inspect the attempts."];
       d_limitationCodes := limitation <$> dims;
       d_lastDivergence := a ← attempt; divergenceStepId a |} dims in
  _ ← modify (set_handoff handoff);
  commit command needs_human
    {| x_appendedAttempt := attempt; x_bugEpisode := None; x_handoff := Some handoff;
       x_exhaustedDimensions := Some dims |}.

(** A command body runs unless its idempotency key was already committed. *)
Definition unless_replayed (command : InvestigationCommandBase)
    (body : M InvestigationTransition) : M InvestigationTransition :=
  r ← replay command;
  match r with Some transition => mret transition | None => body end.

(** [if (!allowed.includes(this.status_)) throw this.illegalTransition(...)]. *)
Definition require_status (allowed : list InvestigationStatus) : M unit :=
  c ← get;
  throw_if (negb (includes allowed (status c))) InvestigationIllegalTransition.

Definition simpleTransition (command : InvestigationCommandBase)
    (required to : InvestigationStatus) : M InvestigationTransition :=
  unless_replayed command (
    _ ← require_status [required];
    _ ← assertExpectedVersion (expectedVersion command);
    commit command to no_extras).

Definition startInvestigation (command : InvestigationCommandBase) : M InvestigationTransition :=
  simpleTransition command candidate investigating.

Definition startReproduction (command : InvestigationCommandBase) : M InvestigationTransition :=
  unless_replayed command (
    _ ← require_status [investigating; reproducing];
    _ ← assertExpectedVersion (expectedVersion command);
    consumed ← consumePlanRevision;
    _ ← modify (set_planRevision (λ n, n + 1)%Z);
    if exhausted consumed then commitNeedsHuman command (exhaustedDimensions consumed) None
    else commit command reproducing no_extras).

(** The attempt the case stamps from a draft. *)
Definition stamp (c : Case) (d : ReproductionAttemptDraft) : ReproductionAttempt :=
  {| attemptId := d_attemptId d; attempt_caseId := caseId c;
     ordinal := Z.of_nat (length (attempts c)) + 1; attempt_planRevision := planRevision c;
     environmentRef := d_environmentRef d; startedAt := d_startedAt d;
     completedAt := d_completedAt d; attempt_outcome := d_outcome d;
     divergenceStepId := d_divergenceStepId d; attempt_evidenceRefs := d_evidenceRefs d;
     budgetConsumed := d_budgetConsumed d |}.

Definition appendAttempt (command : InvestigationCommandBase) (d : ReproductionAttemptDraft)
    : M InvestigationTransition :=
  unless_replayed command (
    _ ← require_status [reproducing];
    _ ← assertExpectedVersion (expectedVersion command);
    attempt ← gets (λ c, stamp c d);
    _ ← modify (push_attempt attempt);
    consumed ← consumeAttempt attempt;
    if exhausted consumed && negb (bool_decide (attempt_outcome attempt = reproduced)) then
      commitNeedsHuman command (exhaustedDimensions consumed) (Some attempt)
    else commit command reproducing
      {| x_appendedAttempt := Some attempt; x_bugEpisode := None; x_handoff := None;
         x_exhaustedDimensions := None |}).

(** The identifiers of the attempts that reproduced the Finding. *)
Definition reproduced_ids (c : Case) : list string :=
  attemptId <$> List.filter (λ a, bool_decide (attempt_outcome a = reproduced)) (attempts c).

Definition confirm (command : InvestigationCommandBase) (d : BugEpisodeDraft)
    : M InvestigationTransition :=
  unless_replayed command (
    _ ← require_status [reproducing];
    _ ← assertExpectedVersion (expectedVersion command);
    c ← get;
    _ ← throw_if (num_ltb (d_confidence d) (confirmationThreshold c))
          InvestigationConfirmationRejected;
    _ ← throw_if (negb (existsb (includes (reproduced_ids c)) (d_confirmedAttemptIds d)))
          InvestigationConfirmationRejected;
    _ ← throw_if (negb (forallb (includes (attemptId <$> attempts c)) (d_confirmedAttemptIds d)))
          InvestigationAttemptUnknown;
    let episode :=
      {| episodeId := d_episodeId d; episode_caseId := caseId c;
         episode_findingId := findingId c; confirmedAttemptIds := d_confirmedAttemptIds d;
         episode_expectedClaims := d_expectedClaims d; observedFacts := d_observedFacts d;
         minimalSteps := d_minimalSteps d; environment := d_environment d;
         episode_evidenceRefs := d_episodeEvidenceRefs d;
         episode_confidence := d_confidence d |} in
    _ ← modify (set_bugEpisode episode);
    commit command confirmed
      {| x_appendedAttempt := None; x_bugEpisode := Some episode; x_handoff := None;
         x_exhaustedDimensions := None |}).

Definition refute (command : InvestigationCommandBase) : M InvestigationTransition :=
  simpleTransition command reproducing refuted.

Definition markFlaky (command : InvestigationCommandBase) : M InvestigationTransition :=
  simpleTransition command reproducing flaky.

Definition escalateToHuman (command : InvestigationCommandBase) (d : HumanHandoffDraft)
    : M InvestigationTransition :=
  unless_replayed command (
    _ ← require_status [investigating; reproducing];
    _ ← assertExpectedVersion (expectedVersion command);
    c ← get;
    let handoff := buildHandoff c d [] in
    _ ← modify (set_handoff handoff);
    commit command needs_human
      {| x_appendedAttempt := None; x_bugEpisode := None; x_handoff := Some handoff;
         x_exhaustedDimensions := None |}).

Definition resolve (command : InvestigationCommandBase) : M InvestigationTransition :=
  unless_replayed command (
    _ ← require_status [confirmed; refuted; flaky; needs_human];
    _ ← assertExpectedVersion (expectedVersion command);
    commit command resolved no_extras).

Definition verifyRegression (command : InvestigationCommandBase) : M InvestigationTransition :=
  simpleTransition command resolved regression_verified.

(** ** The commands as one alphabet *)
Inductive Command :=
  | StartInvestigation (base : InvestigationCommandBase)
  | StartReproduction (base : InvestigationCommandBase)
  | AppendAttempt (base : InvestigationCommandBase) (draft : ReproductionAttemptDraft)
  | ConfirmBug (base : InvestigationCommandBase) (draft : BugEpisodeDraft)
  | Refute (base : InvestigationCommandBase) (reason : string)
  | MarkFlaky (base : InvestigationCommandBase) (reason : string)
  | EscalateToHuman (base : InvestigationCommandBase) (draft : HumanHandoffDraft)
  | Resolve (base : InvestigationCommandBase) (disposition : string)
  | VerifyRegression (base : InvestigationCommandBase).

Definition base_of (command : Command) : InvestigationCommandBase :=
  match command with
  | StartInvestigation b | StartReproduction b | AppendAttempt b _ | ConfirmBug b _
  | Refute b _ | MarkFlaky b _ | EscalateToHuman b _ | Resolve b _ | VerifyRegression b => b
  end.

Definition run (command : Command) : M InvestigationTransition :=
  match command with
  | StartInvestigation b => startInvestigation b
  | StartReproduction b => startReproduction b
  | AppendAttempt b d => appendAttempt b d
  | ConfirmBug b d => confirm b d
  | Refute b _ => refute b
  | MarkFlaky b _ => markFlaky b
  | EscalateToHuman b d => escalateToHuman b d
  | Resolve b _ => resolve b
  | VerifyRegression b => verifyRegression b
  end.

Definition step (c c' : Case) : Prop := ∃ command, c' = exec (run command) c.

(** The life cycle the commands implement. *)
Definition legal (from to : InvestigationStatus) : bool :=
  match from, to with
  | candidate, investigating
  | investigating, (reproducing | needs_human)
  | reproducing, (reproducing | confirmed | refuted | flaky | needs_human)
  | (confirmed | refuted | flaky | needs_human), resolved
  | resolved, regression_verified => true
  | _, _ => false
  end.

(** ** Invariant *)

(** [n] increments of a counter that starts at zero. *)
Definition tick (n : nat) : number := Nat.iter n (λ x, num_add x (num_of_Z 1)) (num_of_Z 0).

Definition consuming (a : ReproductionAttempt) : bool :=
  outcomeConsumesReproductionAttempt (attempt_outcome a).

Definition count (f : ReproductionAttempt → bool) (l : list ReproductionAttempt) : nat :=
  length (List.filter f l).

Definition stamped (c : Case) : Prop :=
  ∀ i a, attempts c !! i = Some a →
    ordinal a = (Z.of_nat i + 1)%Z ∧ attempt_caseId a = caseId c ∧
    (attempt_planRevision a <= planRevision c)%Z.

Definition nonneg_usage (u : InvestigationBudgetUsage) : Prop :=
  ∀ d, is_double (usage_of u d) ∧ num_leb (num_of_Z 0) (usage_of u d) = true.

Record Core (c : Case) : Prop := {
  core_version : version c = (1 + Z.of_nat (size (transitions c)))%Z;
  core_keys : ∀ k t, transitions c !! k = Some t →
    t_idempotencyKey t = k ∧ (1 < t_version t <= version c)%Z;
  core_threshold : confirmationThreshold c = confirmationConfidenceThreshold (budget c);
  core_stamped : stamped c;
  core_nonneg : nonneg_usage (usage c);
  core_revision : (0 <= planRevision c)%Z;
  core_reproductions : reproductionAttempts (usage c) = tick (count consuming (attempts c));
  core_retries :
    environmentRetries (usage c) = tick (count (λ a, negb (consuming a)) (attempts c));
  core_revisions : planningRevisions (usage c) = tick (Z.to_nat (planRevision c));
}.

(** What [confirm] checked of the episode it stored. *)
Definition episode_ok (c : Case) (e : BugEpisode) : Prop :=
  episode_caseId e = caseId c ∧ episode_findingId e = findingId c ∧
  num_ltb (episode_confidence e) (confirmationThreshold c) = false ∧
  (∃ a, a ∈ attempts c ∧ attempt_outcome a = reproduced ∧
        attemptId a ∈ confirmedAttemptIds e) ∧
  (∀ i, i ∈ confirmedAttemptIds e → i ∈ attemptId <$> attempts c).

Record status_inv (c : Case) (s : InvestigationStatus) : Prop := {
  si_confirmed : s = confirmed → is_Some (bugEpisode c);
  si_episode : ∀ e, bugEpisode c = Some e →
    s ∈ [confirmed; resolved; regression_verified] ∧ episode_ok c e;
  si_handoff : s = needs_human → is_Some (handoff c);
}.

Definition Inv (c : Case) : Prop := Core c ∧ status_inv c (status c).

(** The effect of a command that commits, and of one that throws. *)
Record committed (command : Command) (c : Case) (t : InvestigationTransition) (c' : Case)
    : Prop := {
  com_expected : expectedVersion (base_of command) = version c;
  com_version : version c' = (version c + 1)%Z;
  com_from : fromStatus t = status c;
  com_to : toStatus t = status c';
  com_tversion : t_version t = version c';
  com_legal : legal (status c) (status c') = true;
  com_recorded : transitions c' = <[idempotencyKey (base_of command) := t]> (transitions c);
  com_attempts : attempts c `prefix_of` attempts c';
  com_usage : ∀ d, num_leb (usage_of (usage c) d) (usage_of (usage c') d) = true;
}.

Record refused (c c' : Case) : Prop := {
  ref_version : version c' = version c;
  ref_status : status c' = status c;
  ref_transitions : transitions c' = transitions c;
  ref_episode : bugEpisode c' = bugEpisode c;
  ref_handoff : handoff c' = handoff c;
  ref_attempts : attempts c `prefix_of` attempts c';
}.

(** ** Facts about the ledger *)
Lemma usage_add_to d d' x u :
  usage_of (add_to d x u) d' = if decide (d = d') then num_add (usage_of u d') x else usage_of u d'.
Proof. destruct d, d'; reflexivity. Qed.

Lemma nonneg_add_to d x u :
  nonneg_usage u → num_leb (num_of_Z 0) x = true → nonneg_usage (add_to d x u).
Proof.
  intros Hu Hx d'. rewrite usage_add_to. destruct (Hu d') as [Hd H0].
  destruct (decide (d = d')); [|done]. split.
  - destruct (usage_of u d'), x; cbn; try done. apply to_double_is_double.
  - eapply num_leb_trans; [exact H0|]. by apply num_add_ge.
Qed.

Lemma usage_le_add_to d x u d' :
  nonneg_usage u → num_leb (num_of_Z 0) x = true →
  num_leb (usage_of u d') (usage_of (add_to d x u) d') = true.
Proof.
  intros Hu Hx. rewrite usage_add_to. destruct (Hu d') as [Hd H0].
  destruct (decide (d = d')); [by apply num_add_ge|].
  apply num_leb_refl. by destruct (usage_of u d').
Qed.

Lemma usage_le_refl u d : nonneg_usage u → num_leb (usage_of u d) (usage_of u d) = true.
Proof. intros Hu. destruct (Hu d) as [_ H0]. apply num_leb_refl. by destruct (usage_of u d). Qed.

Lemma nonneg_ZERO : nonneg_usage ZERO_USAGE.
Proof. intros d. split; [|by destruct d]. by destruct d; apply (num_of_Z_is_double 0). Qed.

Lemma evaluate_exhausted b u :
  exhausted (evaluate b u) = existsb (reached b u) dimensions.
Proof.
  unfold evaluate. cbn [exhausted exhaustedDimensions].
  induction dimensions as [|d l IH]; cbn; [done|].
  destruct (reached b u d); [by rewrite bool_decide_true|]. exact IH.
Qed.

Lemma tick_S n : tick (S n) = num_add (tick n) (num_of_Z 1).
Proof. done. Qed.

Lemma tick_exact n : (Z.of_nat n <= 2 ^ 53)%Z → tick n = num_of_Z (Z.of_nat n).
Proof.
  induction n as [|n IH]; intros Hn; [done|]. rewrite tick_S, IH by lia.
  rewrite num_add_of_Z by lia. f_equal. lia.
Qed.

Lemma count_snoc f l a : count f (l ++ [a]) = (count f l + (if f a then 1 else 0))%nat.
Proof. unfold count. rewrite List.filter_app, length_app. cbn. by destruct (f a). Qed.

(** ** Every command keeps the invariant *)
Lemma inv_open inp : Inv (open inp).
Proof.
  split; split; cbn; try done. apply nonneg_ZERO.
Qed.

(** The state an attempt that has been pushed and charged leads to. *)
Lemma core_ext c c' :
  Core c → caseId c' = caseId c → budget c' = budget c → usage c' = usage c →
  confirmationThreshold c' = confirmationThreshold c → version c' = version c →
  planRevision c' = planRevision c → attempts c' = attempts c →
  transitions c' = transitions c → Core c'.
Proof.
  intros [H1 H2 H3 H4 H5 H6 H7 H8 H9] E1 E2 E3 E4 E5 E6 E7 E8. split;
    rewrite ?E2, ?E3, ?E4, ?E5, ?E6, ?E7, ?E8; try done.
  intros i a. rewrite E7, E1, E6. apply H4.
Qed.

Lemma core_record c t :
  Core c → transitions c !! t_idempotencyKey t = None → t_version t = (version c + 1)%Z →
  Core (record_transition t c).
Proof.
  intros [H1 H2 H3 H4 H5 H6 H7 H8 H9] Hk Hv. split; cbn; try done.
  - rewrite Hv, H1, map_size_insert_None by done. lia.
  - intros k t'. rewrite lookup_insert_Some. intros [[<- <-]|[_ Ht]].
    + split; [done|]. lia.
    + destruct (H2 _ _ Ht) as [? ?]. split; [done|]. lia.
Qed.

Lemma core_consume c d x :
  Core c → num_leb (num_of_Z 0) x = true →
  d ≠ d_reproductionAttempts → d ≠ d_environmentRetries → d ≠ d_planningRevisions →
  Core (set_usage (add_to d x) c).
Proof.
  intros [H1 H2 H3 H4 H5 H6 H7 H8 H9] Hx N1 N2 N3. split; cbn; try done.
  - by apply nonneg_add_to.
  - by rewrite decide_False.
  - by rewrite decide_False.
  - by rewrite decide_False.
Qed.

Lemma core_plan c :
  Core c →
  Core (set_planRevision (λ n, n + 1)%Z (set_usage (add_to d_planningRevisions (num_of_Z 1)) c)).
Proof.
  intros [H1 H2 H3 H4 H5 H6 H7 H8 H9]. split; cbn; try done.
  - intros i a Ha. destruct (H4 i a Ha) as (? & ? & ?). cbn. split_and!; [done|done|lia].
  - by apply nonneg_add_to.
  - lia.
  - replace (Z.to_nat (planRevision c + 1)) with (S (Z.to_nat (planRevision c))) by lia.
    by rewrite tick_S, H9.
Qed.

(** The attempt is pushed and its count dimension charged. *)
Definition charged (c : Case) (d : ReproductionAttemptDraft) : Case :=
  set_usage (add_to (if outcomeConsumesReproductionAttempt (d_outcome d)
                     then d_reproductionAttempts else d_environmentRetries) (num_of_Z 1))
    (push_attempt (stamp c d) c).

Lemma core_charged c d : Core c → Core (charged c d).
Proof.
  intros [H1 H2 H3 H4 H5 H6 H7 H8 H9]. unfold charged.
  split; cbn -[add_to count]; try done.
  - intros i a. cbn. rewrite lookup_app_Some. intros [Ha|[Hi Ha]]; [by apply H4|].
    apply list_lookup_singleton_Some in Ha as [Hi0 <-]. cbn.
    split_and!; [|done|lia]. f_equal. lia.
  - by apply nonneg_add_to.
  - rewrite count_snoc. unfold consuming at 2. cbn.
    destruct (outcomeConsumesReproductionAttempt (d_outcome d)); cbn;
      [by rewrite Nat.add_1_r, tick_S, H7|by rewrite Nat.add_0_r].
  - rewrite count_snoc. unfold consuming at 2. cbn.
    destruct (outcomeConsumesReproductionAttempt (d_outcome d)); cbn;
      [by rewrite Nat.add_0_r|by rewrite Nat.add_1_r, tick_S, H8].
  - by destruct (outcomeConsumesReproductionAttempt (d_outcome d)).
Qed.

(** Case analysis on a status known to be in an explicit list. *)
Ltac enum_cases H :=
  rewrite ?elem_of_cons, ?elem_of_nil in H;
  repeat match type of H with _ ∨ _ => destruct H as [H|H] end;
  try done; rewrite ?H; rewrite ?elem_of_cons, ?elem_of_nil; try done; try tauto;
  try (intros Hin; repeat match type of Hin with _ ∨ _ => destruct Hin as [Hin|Hin] end; done).

Definition returned (command : Command) (c : Case) (t : InvestigationTransition) (c' : Case)
    : Prop :=
  (transitions c !! idempotencyKey (base_of command) = Some t ∧ c' = c) ∨
  (transitions c !! idempotencyKey (base_of command) = None ∧ committed command c t c' ∧ Inv c').

Definition threw (command : Command) (c : Case) (e : Thrown) (c' : Case) : Prop :=
  transitions c !! idempotencyKey (base_of command) = None ∧ refused c c' ∧ Inv c'.

Lemma refused_refl c : refused c c.
Proof. by split. Qed.

Lemma threw_here command c e :
  Inv c → transitions c !! idempotencyKey (base_of command) = None → threw command c e c.
Proof. intros HI Hk. split; [done|]. split; [apply refused_refl|done]. Qed.

Lemma wp_unless_replayed command body Q R c :
  (∀ t, transitions c !! idempotencyKey command = Some t → Q t c) →
  (transitions c !! idempotencyKey command = None → wp body Q R c) →
  wp (unless_replayed command body) Q R c.
Proof.
  intros H1 H2. apply wp_bind, wp_gets.
  destruct (transitions c !! _) as [t|] eqn:Ht; [by apply H1|by apply H2].
Qed.

Lemma wp_guards (allowed : list InvestigationStatus) expected k
    (Q : InvestigationTransition → Case → Prop) (R : Thrown → Case → Prop) (c : Case) :
  (∀ e, R e c) →
  (status c ∈ allowed → expected = version c → wp k Q R c) →
  wp (_ ← require_status allowed; _ ← assertExpectedVersion expected; k) Q R c.
Proof.
  intros HR HQ. unfold require_status, assertExpectedVersion. wp_run; [done|done|].
  apply HQ; unfold includes in *; by to_prop.
Qed.

Lemma status_inv_record t c s : status_inv c s → status_inv (record_transition t c) s.
Proof. by intros []; split. Qed.

(** A commit from [c1], the case [c] after the fields the command assigned. *)
Lemma commit_returned command to extras R c c1 :
  transitions c !! idempotencyKey (base_of command) = None →
  expectedVersion (base_of command) = version c →
  legal (status c) to = true → Core c1 → status_inv c1 to →
  version c1 = version c → status c1 = status c → transitions c1 = transitions c →
  attempts c `prefix_of` attempts c1 →
  (∀ d, num_leb (usage_of (usage c) d) (usage_of (usage c1) d) = true) →
  wp (commit (base_of command) to extras) (returned command c) R c1.
Proof.
  intros Hk He Hl HC HS Ev Es Et Ha Hu. unfold commit. wp_run. right.
  split; [done|]. split.
  - split; cbn; try done; congruence.
  - split; [|by apply status_inv_record]. apply core_record; cbn; [done|congruence|done].
Qed.

Lemma commitNeedsHuman_returned command dims attempt R c c1 :
  transitions c !! idempotencyKey (base_of command) = None →
  expectedVersion (base_of command) = version c →
  legal (status c) needs_human = true → Core c1 →
  bugEpisode c1 = None →
  version c1 = version c → status c1 = status c → transitions c1 = transitions c →
  attempts c `prefix_of` attempts c1 →
  (∀ d, num_leb (usage_of (usage c) d) (usage_of (usage c1) d) = true) →
  wp (commitNeedsHuman (base_of command) dims attempt) (returned command c) R c1.
Proof.
  intros Hk He Hl HC HE Ev Es Et Ha Hu. unfold commitNeedsHuman. wp_run.
  apply commit_returned; try done.
  - by eapply core_ext.
  - split; cbn; [done|by rewrite HE|done].
Qed.

(** Before a conclusion there is no episode. *)
Lemma early_no_episode c :
  Inv c → status c ∉ [confirmed; resolved; regression_verified] → bugEpisode c = None.
Proof.
  intros [_ [_ H _]] Hs. destruct (bugEpisode c) as [e|]; [|done].
  by destruct (H e eq_refl).
Qed.

Lemma status_inv_plain c c1 to :
  status_inv c (status c) → bugEpisode c1 = bugEpisode c → bugEpisode c = None →
  to ∉ [confirmed; needs_human] → status_inv c1 to.
Proof.
  intros HS E1 E2 Hto. split.
  - intros ->. set_solver.
  - rewrite E1, E2. done.
  - intros ->. set_solver.
Qed.

Lemma simple_spec command required to c :
  Inv c → legal required to = true → to ∉ [confirmed; needs_human] →
  (required ∈ [confirmed; resolved; regression_verified] → to ∈ [resolved; regression_verified]) →
  wp (simpleTransition (base_of command) required to) (returned command c) (threw command c) c.
Proof.
  intros HI Hl Hto Hreq. apply wp_unless_replayed; [by left|]. intros Hk.
  apply wp_guards; [by intros; apply threw_here|]. intros Hs He.
  apply list_elem_of_singleton in Hs. destruct HI as [HC HS].
  apply commit_returned; try done; [by rewrite Hs| |].
  - split; [intros ->; set_solver| |intros ->; set_solver].
    intros e Hep. destruct (si_episode _ _ HS e Hep) as [Hin ?]. split; [|done].
    rewrite Hs in Hin. apply Hreq in Hin. set_solver.
  - intros d. apply usage_le_refl, HC.
Qed.

Lemma startReproduction_spec command c :
  Inv c →
  wp (startReproduction (base_of command)) (returned command c) (threw command c) c.
Proof.
  intros HI. apply wp_unless_replayed; [by left|]. intros Hk.
  apply wp_guards; [by intros; apply threw_here|]. intros Hs He.
  assert (bugEpisode c = None) as HE.
  { apply early_no_episode; [done|]. by enum_cases Hs. }
  destruct HI as [HC HS]. pose proof (core_plan c HC) as HC'.
  assert (∀ d, num_leb (usage_of (usage c) d)
            (usage_of (add_to d_planningRevisions (num_of_Z 1) (usage c)) d) = true) as Hu.
  { intros d. apply usage_le_add_to; [apply HC|done]. }
  unfold consumePlanRevision. wp_run.
  - apply commitNeedsHuman_returned; try done. by enum_cases Hs.
  - apply commit_returned; try done; [by enum_cases Hs|].
    eapply status_inv_plain; try done. set_solver.
Qed.

(** Charging the self-reported consumption of an attempt. *)
Lemma consume_checked_spec consumed d Q (R : Thrown → Case → Prop) c c1 :
  Core c1 → d ∈ [d_wallClockMs; d_modelTokens; d_environmentResets; d_destructiveActions] →
  refused c c1 → Inv c1 →
  (∀ d, num_leb (usage_of (usage c) d) (usage_of (usage c1) d) = true) →
  (∀ e, R e c1) →
  (∀ c2, c2 = set_usage (add_to d (usage_of consumed d)) c1 → Core c2 → refused c c2 → Inv c2 →
    (∀ d, num_leb (usage_of (usage c) d) (usage_of (usage c2) d) = true) → Q tt c2) →
  wp (consume_checked consumed d) Q R c1.
Proof.
  intros HC Hd Hr HI Hu HR HQ. unfold consume_checked, nonNegative. wp_run; [done|].
  to_prop.
  assert (num_leb (num_of_Z 0) (usage_of consumed d) = true) as Hx.
  { destruct (usage_of consumed d); try done. unfold num_leb, num_ltb, num_of_Z in *. to_prop. by apply Z.leb_le. }
  assert (Core (set_usage (add_to d (usage_of consumed d)) c1)) as HC2.
  { apply core_consume; [done|done|intros ->; set_solver..]. }
  apply (HQ _ eq_refl HC2).
  - by destruct Hr.
  - split; [done|]. destruct HI as [_ []]. by split.
  - intros d'. eapply num_leb_trans; [apply Hu|]. cbn. apply usage_le_add_to; [apply HC|done].
Qed.

Lemma charged_facts c d :
  Inv c → status c = reproducing →
  Core (charged c d) ∧ refused c (charged c d) ∧ Inv (charged c d) ∧
  (∀ x, num_leb (usage_of (usage c) x) (usage_of (usage (charged c d)) x) = true).
Proof.
  intros HI Hs. pose proof (core_charged c d (proj1 HI)) as HC.
  assert (bugEpisode c = None) as HE by (apply early_no_episode; [done|by rewrite Hs; set_solver]).
  split_and!; [done| | |].
  - split; try done. by eexists.
  - split; [done|]. cbn. rewrite Hs. split; cbn; [done|by rewrite HE|done].
  - intros x. cbn. apply usage_le_add_to; [apply HI|done].
Qed.

Lemma appendAttempt_spec base d c :
  Inv c →
  wp (appendAttempt base d) (returned (AppendAttempt base d) c) (threw (AppendAttempt base d) c) c.
Proof.
  intros HI. apply (wp_unless_replayed base); [by left|]. intros Hk.
  apply wp_guards; [by intros; apply threw_here|]. intros Hs He.
  apply list_elem_of_singleton in Hs.
  destruct (charged_facts c d HI Hs) as (HC & Hr & HI' & Hu).
  apply wp_bind, wp_gets, wp_bind, wp_modify, wp_bind. unfold consumeAttempt.
  apply wp_bind, wp_modify.
  change (wp _ ?Q ?R _) with (wp
    (_ ← consume_checked (d_budgetConsumed d) d_wallClockMs;
     _ ← consume_checked (d_budgetConsumed d) d_modelTokens;
     _ ← consume_checked (d_budgetConsumed d) d_environmentResets;
     _ ← consume_checked (d_budgetConsumed d) d_destructiveActions;
     gets (λ c, evaluate (budget c) (usage c))) Q R (charged c d)).
  assert (∀ e c1, refused c c1 → Inv c1 → threw (AppendAttempt base d) c e c1) as Hthrow
    by done.
  assert (transitions (charged c d) = transitions c) as Ht by done.
  do 4 (apply wp_bind; eapply (consume_checked_spec _ _ _ _ c);
    [done|set_solver|done|done|done|by intros; apply Hthrow|];
    clear HC Hr HI' Hu; intros ? _ HC Hr HI' Hu).
  match type of HC with Core ?x => rename x into c4 end. apply wp_gets. destruct (_ && _).
  - apply (commitNeedsHuman_returned (AppendAttempt base d)); try apply Hr; try done.
    + by rewrite Hs.
    + apply early_no_episode; [done|]. rewrite (ref_status _ _ Hr), Hs. set_solver.
  - apply (commit_returned (AppendAttempt base d)); try apply Hr; try done.
    + by rewrite Hs.
    + assert (bugEpisode c4 = None) as HE.
      { apply early_no_episode; [done|]. rewrite (ref_status _ _ Hr), Hs. set_solver. }
      split; [done|by rewrite HE|done].
Qed.

Lemma reproduced_ids_elem c i :
  i ∈ reproduced_ids c ↔ ∃ a, a ∈ attempts c ∧ attempt_outcome a = reproduced ∧ attemptId a = i.
Proof.
  unfold reproduced_ids. rewrite list_elem_of_fmap. split.
  - intros (a & -> & Ha). apply list_elem_of_In, List.filter_In in Ha as [Ha Ho]. to_prop.
    exists a. by rewrite list_elem_of_In.
  - intros (a & Ha & Ho & <-). exists a. split; [done|].
    apply list_elem_of_In, List.filter_In. rewrite <- list_elem_of_In. split; [done|].
    by apply bool_decide_eq_true.
Qed.

Lemma confirm_spec base d c :
  Inv c →
  wp (confirm base d) (returned (ConfirmBug base d) c) (threw (ConfirmBug base d) c) c.
Proof.
  intros HI. apply (wp_unless_replayed base); [by left|]. intros Hk.
  apply wp_guards; [by intros; apply threw_here|]. intros Hs He.
  apply list_elem_of_singleton in Hs. wp_run; try by apply threw_here. to_prop.
  destruct HI as [HC HS].
  apply (commit_returned (ConfirmBug base d) _ _ (threw (ConfirmBug base d) c)); try done;
    [by rewrite Hs|by eapply core_ext| |].
  - split; cbn; [done| |done]. intros e [= <-]. split; [set_solver|].
    split_and!; cbn; [done|done|done| |].
    + match goal with H : existsb _ _ = true |- _ => apply existsb_exists in H as (i & Hi & Hr) end.
      unfold includes in Hr. to_prop. apply list_elem_of_In in Hi.
      apply (reproduced_ids_elem c) in Hr as (a & ? & ? & <-). by exists a.
    + intros i Hi. match goal with H : forallb _ _ = true |- _ => rename H into Hall end.
      rewrite forallb_forall in Hall. apply list_elem_of_In, Hall in Hi.
      unfold includes in Hi. by to_prop.
  - intros x. apply usage_le_refl, HC.
Qed.

Lemma escalate_spec base d c :
  Inv c →
  wp (escalateToHuman base d) (returned (EscalateToHuman base d) c)
    (threw (EscalateToHuman base d) c) c.
Proof.
  intros HI. apply (wp_unless_replayed base); [by left|]. intros Hk.
  apply wp_guards; [by intros; apply threw_here|]. intros Hs He.
  assert (bugEpisode c = None) as HE.
  { apply early_no_episode; [done|]. by enum_cases Hs. }
  wp_run. destruct HI as [HC HS].
  apply (commit_returned (EscalateToHuman base d) _ _ (threw (EscalateToHuman base d) c)); try done;
    [by enum_cases Hs|by eapply core_ext| |].
  - split; cbn; [done|by rewrite HE|done].
  - intros x. apply usage_le_refl, HC.
Qed.

Lemma resolve_spec base disposition c :
  Inv c →
  wp (resolve base) (returned (Resolve base disposition) c) (threw (Resolve base disposition) c) c.
Proof.
  intros HI. apply (wp_unless_replayed base); [by left|]. intros Hk.
  apply wp_guards; [by intros; apply threw_here|]. intros Hs He.
  destruct HI as [HC HS].
  apply (commit_returned (Resolve base disposition) _ _ (threw (Resolve base disposition) c)); try done; [by enum_cases Hs| |].
  - split; [done| |done]. intros e Hep. destruct (si_episode _ _ HS e Hep). split; [|done].
    set_solver.
  - intros x. apply usage_le_refl, HC.
Qed.

(** The specification of every command, errors and replays included. *)
Lemma run_spec command c :
  Inv c → wp (run command) (returned command c) (threw command c) c.
Proof.
  intros HI. destruct command as [b|b|b d|b d|b r|b r|b d|b r|b]; cbn [run].
  - apply (simple_spec (StartInvestigation b)); [done|done|set_solver|set_solver].
  - by apply (startReproduction_spec (StartReproduction b)).
  - by apply appendAttempt_spec.
  - by apply confirm_spec.
  - apply (simple_spec (Refute b r)); [done|done|set_solver|set_solver].
  - apply (simple_spec (MarkFlaky b r)); [done|done|set_solver|set_solver].
  - by apply escalate_spec.
  - by apply resolve_spec.
  - apply (simple_spec (VerifyRegression b)); [done|done|set_solver|set_solver].
Qed.

Lemma case_step_inv c c' : Inv c → step c c' → Inv c'.
Proof.
  intros HI [command ->]. pose proof (run_spec command c HI) as H. unfold wp, exec in *.
  destruct (run command c) as [[t|e] c']; cbn.
  - destruct H as [[_ ->]|(_ & _ & ?)]; done.
  - by destruct H as (_ & _ & ?).
Qed.

Lemma case_reachable_inv inp c : rtc step (open inp) c → Inv c.
Proof. intros Hr. exact (rtc_invariant step Inv _ _ (inv_open inp) case_step_inv Hr). Qed.

(** ** Appending an attempt, exactly *)
Definition chargeable (x : number) : bool := is_finite x && negb (num_ltb x (num_of_Z 0)).

(** The usage after an attempt whose consumption is chargeable. *)
Definition usage_after (u : InvestigationBudgetUsage) (d : ReproductionAttemptDraft)
    : InvestigationBudgetUsage :=
  let consumed := d_budgetConsumed d in
  add_to d_destructiveActions (destructiveActions consumed)
    (add_to d_environmentResets (environmentResets consumed)
      (add_to d_modelTokens (modelTokens consumed)
        (add_to d_wallClockMs (wallClockMs consumed)
          (add_to (if outcomeConsumesReproductionAttempt (d_outcome d)
                   then d_reproductionAttempts else d_environmentRetries) (num_of_Z 1) u)))).

Definition draft_ok (d : ReproductionAttemptDraft) : bool :=
  let consumed := d_budgetConsumed d in
  chargeable (wallClockMs consumed) && chargeable (modelTokens consumed) &&
  chargeable (environmentResets consumed) && chargeable (destructiveActions consumed).

Lemma consume_checked_ok consumed d Q (R : Thrown → Case → Prop) c :
  chargeable (usage_of consumed d) = true →
  Q tt (set_usage (add_to d (usage_of consumed d)) c) →
  wp (consume_checked consumed d) Q R c.
Proof.
  intros Hx HQ. unfold consume_checked, nonNegative. unfold chargeable in Hx. to_prop.
  apply wp_bind. rewrite H, H0. by apply wp_ret, wp_modify.
Qed.

Lemma wp_guards_pass (allowed : list InvestigationStatus) expected k
    (Q : InvestigationTransition → Case → Prop) (R : Thrown → Case → Prop) (c : Case) :
  status c ∈ allowed → expected = version c → wp k Q R c →
  wp (_ ← require_status allowed; _ ← assertExpectedVersion expected; k) Q R c.
Proof.
  intros Hs He Hk. unfold require_status, assertExpectedVersion, includes. rewrite He.
  apply wp_bind, wp_bind, wp_get. rewrite bool_decide_true by done. apply wp_ret.
  apply wp_bind, wp_bind, wp_get. rewrite Z.eqb_refl. by apply wp_ret.
Qed.

Lemma wp_appendAttempt_ok base d Q R c :
  transitions c !! idempotencyKey base = None →
  status c = reproducing → expectedVersion base = version c → draft_ok d = true →
  let consumed := evaluate (budget c) (usage_after (usage c) d) in
  wp (if exhausted consumed && negb (bool_decide (d_outcome d = reproduced))
      then commitNeedsHuman base (exhaustedDimensions consumed) (Some (stamp c d))
      else commit base reproducing
        {| x_appendedAttempt := Some (stamp c d); x_bugEpisode := None; x_handoff := None;
           x_exhaustedDimensions := None |})
    Q R (set_usage (λ _, usage_after (usage c) d) (push_attempt (stamp c d) c)) →
  wp (appendAttempt base d) Q R c.
Proof.
  intros Hk Hs He Hd consumed HQ. unfold draft_ok in Hd. cbv zeta in Hd. to_prop.
  apply wp_unless_replayed; [intros ?; congruence|]. intros _.
  apply wp_guards_pass; [rewrite Hs; set_solver|done|].
  apply wp_bind, wp_gets, wp_bind, wp_modify, wp_bind. unfold consumeAttempt.
  apply wp_bind, wp_modify.
  do 4 (apply wp_bind, consume_checked_ok; [done|]). apply wp_gets. exact HQ.
Qed.

(** Every committed key stays committed, with its transition. *)
Lemma steps_transitions c c' k t :
  Inv c → rtc step c c' → transitions c !! k = Some t → transitions c' !! k = Some t.
Proof.
  intros HI Hr Hk. induction Hr as [|c c1 c2 Hs _ IH]; [done|]. apply IH.
  - by eapply case_step_inv.
  - destruct Hs as [command ->]. pose proof (run_spec command c HI) as H.
    unfold wp, exec in *. destruct (run command c) as [[t'|e] c']; cbn.
    + destruct H as [[_ ->]|(Hn & Hc & _)]; [done|].
      rewrite (com_recorded _ _ _ _ Hc), lookup_insert_ne; [done|congruence].
    + destruct H as (_ & Hr & _). by rewrite (ref_transitions _ _ Hr).
Qed.

(** ** Theorems *)

(** Every command is one optimistic-concurrency transition.  On a case
    reached from [open] by any commands, a command either replays the committed
    transition of its key and changes nothing; or commits: the caller's expected
    version was the current one, the version advances by one, the move is an
    edge of the life cycle, the transition is recorded under its key, attempts
    are only appended and no usage counter decreases; or throws, and then
    version, status, recorded transitions, episode and handoff are untouched. *)
Theorem command_lifecycle inp c command :
  rtc step (open inp) c →
  wp (run command)
    (λ t c',
      (transitions c !! idempotencyKey (base_of command) = Some t ∧ c' = c) ∨
      (transitions c !! idempotencyKey (base_of command) = None ∧ committed command c t c'))
    (λ _ c', transitions c !! idempotencyKey (base_of command) = None ∧ refused c c') c.
Proof.
  intros Hr. eapply wp_mono; [apply run_spec; by eapply case_reachable_inv| |].
  - intros t c' [?|(? & ? & _)]; [by left|by right].
  - intros e c' (? & ? & _). done.
Qed.

Definition demo_budget : InvestigationBudget :=
  {| maximumReproductionAttempts := num_of_Z 2; maximumPlanningRevisions := num_of_Z 3;
     maximumEnvironmentRetries := num_of_Z 2; maximumWallClockMs := num_of_Z 1000;
     maximumModelTokens := num_of_Z 1000; maximumEnvironmentResets := num_of_Z 5;
     maximumDestructiveActions := num_of_Z 5; confirmationConfidenceThreshold := num_of_Z 1 |}.
Definition demo_open : InvestigationOpenInput :=
  {| open_caseId := "case"; open_findingId := "finding"; open_projectId := "project";
     open_budget := demo_budget |}.
Definition demo_base (v : Z) (k : string) : InvestigationCommandBase :=
  {| expectedVersion := v; idempotencyKey := k |}.
Definition demo_draft (i : string) (o : ReproductionOutcome) : ReproductionAttemptDraft :=
  {| d_attemptId := i; d_environmentRef := "env"; d_startedAt := "t0"; d_completedAt := "t1";
     d_outcome := o; d_divergenceStepId := None; d_evidenceRefs := ["e"];
     d_budgetConsumed := ZERO_USAGE |}.
Definition demo_episode : BugEpisodeDraft :=
  {| d_episodeId := "bug"; d_confirmedAttemptIds := ["a1"]; d_expectedClaims := [];
     d_observedFacts := []; d_minimalSteps := []; d_environment := ∅;
     d_episodeEvidenceRefs := []; d_confidence := num_of_Z 1 |}.

Definition run_all (l : list Command) (c : Case) : Case :=
  foldl (λ c command, exec (run command) c) c l.

Lemma run_all_steps l c : rtc step c (run_all l c).
Proof.
  revert c. induction l as [|command l IH]; intros c; [apply rtc_refl|].
  eapply rtc_l; [by exists command|]. apply IH.
Qed.

Definition demo_reproducing : Case :=
  run_all [StartInvestigation (demo_base 1 "k1"); StartReproduction (demo_base 2 "k2")]
    (open demo_open).
Definition demo_confirmed : Case :=
  run_all [AppendAttempt (demo_base 3 "k3") (demo_draft "a1" reproduced);
           ConfirmBug (demo_base 4 "k4") demo_episode] demo_reproducing.

Lemma demo_reproducing_reachable : rtc step (open demo_open) demo_reproducing.
Proof. unfold demo_reproducing. apply run_all_steps. Qed.

Lemma demo_confirmed_reachable : rtc step (open demo_open) demo_confirmed.
Proof. etrans; apply run_all_steps. Qed.

Lemma command_lifecycle_witness :
  wp (run (Resolve (demo_base 5 "k5") "fixed"))
    (λ t c', (transitions demo_confirmed !! "k5" = Some t ∧ c' = demo_confirmed) ∨
      (transitions demo_confirmed !! "k5" = None ∧
       committed (Resolve (demo_base 5 "k5") "fixed") demo_confirmed t c'))
    (λ _ c', transitions demo_confirmed !! "k5" = None ∧ refused demo_confirmed c')
    demo_confirmed.
Proof.
  apply (command_lifecycle demo_open demo_confirmed (Resolve (demo_base 5 "k5") "fixed")).
  exact demo_confirmed_reachable.
Defined.

(** Commands are idempotent by key.  Once a command has committed [t] under
    its key, after any further commands on the case, every command that carries
    the key returns [t] and leaves the case as it is. *)
Theorem command_idempotent inp c command t c1 c2 command' :
  rtc step (open inp) c → run command c = (Ok t, c1) → rtc step c1 c2 →
  idempotencyKey (base_of command') = idempotencyKey (base_of command) →
  run command' c2 = (Ok t, c2).
Proof.
  intros Hr Hrun Hs Hk. pose proof (case_reachable_inv _ _ Hr) as HI.
  pose proof (run_spec command c HI) as H. unfold wp in H. rewrite Hrun in H.
  assert (transitions c1 !! idempotencyKey (base_of command) = Some t ∧ Inv c1) as [Ht HI1].
  { destruct H as [[Ht ->]|(_ & Hc & ?)]; [done|].
    by rewrite (com_recorded _ _ _ _ Hc), lookup_insert_eq. }
  pose proof (steps_transitions _ _ _ _ HI1 Hs Ht) as Ht2. rewrite <- Hk in Ht2.
  destruct command'; cbn [run base_of] in *;
    unfold startInvestigation, startReproduction, appendAttempt, confirm, refute, markFlaky,
      escalateToHuman, resolve, verifyRegression, simpleTransition, unless_replayed, replay,
      mbind, js_bind, gets; by rewrite Ht2.
Qed.

Definition demo_started : Case :=
  exec (run (StartInvestigation (demo_base 1 "k1"))) (open demo_open).
Definition demo_later : list Command :=
  [StartReproduction (demo_base 2 "k2");
   AppendAttempt (demo_base 3 "k3") (demo_draft "a1" reproduced);
   ConfirmBug (demo_base 4 "k4") demo_episode].

Lemma command_idempotent_witness :
  ∃ t, run (StartInvestigation (demo_base 1 "k1")) (open demo_open) = (Ok t, demo_started) ∧
    run (Resolve (demo_base 9 "k1") "other") (run_all demo_later demo_started) =
      (Ok t, run_all demo_later demo_started).
Proof.
  eexists. split; [vm_compute; reflexivity|].
  apply (command_idempotent demo_open (open demo_open) (StartInvestigation (demo_base 1 "k1")) _
           demo_started (run_all demo_later demo_started) (Resolve (demo_base 9 "k1") "other")).
  - apply rtc_refl.
  - vm_compute. reflexivity.
  - apply run_all_steps.
  - reflexivity.
Defined.

(** Conclusions are justified.  A case that is confirmed carries a bug
    episode of this case and finding whose confidence is not below the budget's
    threshold, that cites only attempts of the case and at least one attempt
    that reproduced the finding; a case that needs a human carries a handoff. *)
Theorem conclusions_justified inp c :
  rtc step (open inp) c →
  (status c = confirmed →
    ∃ e, bugEpisode c = Some e ∧ episode_caseId e = caseId c ∧
      episode_findingId e = findingId c ∧
      num_ltb (episode_confidence e) (confirmationConfidenceThreshold (budget c)) = false ∧
      (∃ a, a ∈ attempts c ∧ attempt_outcome a = reproduced ∧
            attemptId a ∈ confirmedAttemptIds e) ∧
      (∀ i, i ∈ confirmedAttemptIds e → i ∈ attemptId <$> attempts c)) ∧
  (status c = needs_human → is_Some (handoff c)).
Proof.
  intros Hr. destruct (case_reachable_inv _ _ Hr) as [HC HS]. split; [|apply HS].
  intros Hc. destruct (si_confirmed _ _ HS Hc) as [e He].
  destruct (si_episode _ _ HS e He) as [_ Hok]. exists e. split; [done|].
  unfold episode_ok in Hok. by rewrite (core_threshold _ HC) in Hok.
Qed.

Lemma conclusions_justified_witness :
  status demo_confirmed = confirmed ∧ ∃ e, bugEpisode demo_confirmed = Some e ∧
    ∃ a, a ∈ attempts demo_confirmed ∧ attempt_outcome a = reproduced ∧
         attemptId a ∈ confirmedAttemptIds e.
Proof.
  split; [vm_compute; reflexivity|].
  destruct (conclusions_justified demo_open demo_confirmed demo_confirmed_reachable) as [H _].
  destruct H as (e & He & _ & _ & _ & Ha & _); [vm_compute; reflexivity|]. exists e. by split.
Defined.

(** Counting is authoritative.  In every reachable case the reproduction and
    environment counters are the numbers of attempts of each kind and the
    planning counter is the plan revision (exactly, while below [2^53]); the
    attempts are numbered 1, 2, 3, ... in order of arrival and belong to the
    case; and no counter is negative. *)
Theorem usage_accounting inp c :
  rtc step (open inp) c →
  (Z.of_nat (length (attempts c)) <= 2 ^ 53)%Z → (planRevision c <= 2 ^ 53)%Z →
  reproductionAttempts (usage c) = num_of_Z (Z.of_nat (count consuming (attempts c))) ∧
  environmentRetries (usage c) =
    num_of_Z (Z.of_nat (count (λ a, negb (consuming a)) (attempts c))) ∧
  planningRevisions (usage c) = num_of_Z (planRevision c) ∧
  (∀ i a, attempts c !! i = Some a →
     ordinal a = (Z.of_nat i + 1)%Z ∧ attempt_caseId a = caseId c) ∧
  (∀ d, num_leb (num_of_Z 0) (usage_of (usage c) d) = true).
Proof.
  intros Hr Ha Hp. destruct (case_reachable_inv _ _ Hr) as [HC _].
  assert (∀ f, (Z.of_nat (count f (attempts c)) <= 2 ^ 53)%Z) as Hcount.
  { intros f. unfold count. pose proof (List.filter_length_le f (attempts c)). lia. }
  pose proof (core_revision _ HC).
  split_and!.
  - rewrite (core_reproductions _ HC). by apply tick_exact.
  - rewrite (core_retries _ HC). by apply tick_exact.
  - rewrite (core_revisions _ HC), tick_exact by lia. by rewrite Z2Nat.id.
  - intros i a Hi. destruct (core_stamped _ HC i a Hi) as (? & ? & _). done.
  - apply HC.
Qed.

Lemma usage_accounting_witness :
  reproductionAttempts (usage demo_confirmed) = num_of_Z 1 ∧
  planningRevisions (usage demo_confirmed) = num_of_Z 1.
Proof.
  destruct (usage_accounting demo_open demo_confirmed demo_confirmed_reachable)
    as (H1 & _ & H2 & _); [vm_compute; discriminate..|].
  split; [exact H1|exact H2].
Defined.

(** Exhaustion is reported the moment a ceiling is reached.  An attempt with
    chargeable consumption is appended and charged; if it did not reproduce the
    finding and some dimension has then reached its ceiling, the case goes to a
    human with exactly the dimensions reached; otherwise it keeps reproducing. *)
Theorem append_exhaustion base d c :
  transitions c !! idempotencyKey base = None →
  status c = reproducing → expectedVersion base = version c → draft_ok d = true →
  ∃ t c', run (AppendAttempt base d) c = (Ok t, c') ∧
    attempts c' = attempts c ++ [stamp c d] ∧ usage c' = usage_after (usage c) d ∧
    if existsb (reached (budget c) (usage c')) dimensions &&
       negb (bool_decide (d_outcome d = reproduced)) then
      status c' = needs_human ∧
      ∃ dims h, t_exhaustedDimensions t = Some dims ∧ handoff c' = Some h ∧
        limitationCodes h = limitation <$> dims ∧
        handoff_attemptIds h = attemptId <$> attempts c' ∧
        ∀ x, x ∈ dims ↔ reached (budget c) (usage c') x = true
    else status c' = reproducing.
Proof.
  intros Hk Hs He Hd.
  enough (wp (appendAttempt base d) (λ t c',
    attempts c' = attempts c ++ [stamp c d] ∧ usage c' = usage_after (usage c) d ∧
    if existsb (reached (budget c) (usage c')) dimensions &&
       negb (bool_decide (d_outcome d = reproduced)) then
      status c' = needs_human ∧
      ∃ dims h, t_exhaustedDimensions t = Some dims ∧ handoff c' = Some h ∧
        limitationCodes h = limitation <$> dims ∧
        handoff_attemptIds h = attemptId <$> attempts c' ∧
        ∀ x, x ∈ dims ↔ reached (budget c) (usage c') x = true
    else status c' = reproducing) (λ _ _, False) c) as Hwp.
  { unfold wp in Hwp. cbn [run]. destruct (appendAttempt base d c) as [[t|e] c'] eqn:Hrun; [|done].
    exists t, c'. by split. }
  apply wp_appendAttempt_ok; [done..|].
  rewrite evaluate_exhausted. destruct (_ && _) eqn:Hex.
  - unfold commitNeedsHuman, commit. wp_run.
    split; [done|split; [done|]]. cbn [usage budget record_transition set_handoff set_usage].
    rewrite Hex. split; [done|]. eexists _, _. split; [done|]. split; [done|].
    split; [|split; [done|]].
    + cbn [limitationCodes buildHandoff d_limitationCodes]. by destruct (limitation <$> _) eqn:?.
    + intros x. cbn [exhaustedDimensions evaluate].
      rewrite list_elem_of_In, List.filter_In. split; [by intros [_ ?]|].
      intros Hx. split; [|done]. destruct x; cbn; tauto.
  - unfold commit. wp_run. split; [done|split; [done|]].
    cbn [usage budget record_transition set_usage]. by rewrite Hex.
Qed.

Lemma append_exhaustion_witness :
  ∃ t c', run (AppendAttempt (demo_base 4 "k4") (demo_draft "a2" diverged))
            (exec (run (AppendAttempt (demo_base 3 "k3") (demo_draft "a1" reproduced)))
               demo_reproducing) = (Ok t, c') ∧ length (attempts c') = 2%nat.
Proof.
  destruct (append_exhaustion (demo_base 4 "k4") (demo_draft "a2" diverged)
    (exec (run (AppendAttempt (demo_base 3 "k3") (demo_draft "a1" reproduced))) demo_reproducing))
    as (t & c' & Hrun & Ha & _); [vm_compute; reflexivity..|].
  exists t, c'. split; [exact Hrun|]. rewrite Ha. vm_compute. reflexivity.
Defined.

(** An invalid consumption is not refused cleanly.  When the first resource
    dimension of an appended attempt is negative or not finite, the command
    throws, yet the attempt is already in the case and its count dimension
    charged, while version and status say nothing happened. *)
Theorem append_invalid_not_atomic base d c :
  transitions c !! idempotencyKey base = None →
  status c = reproducing → expectedVersion base = version c →
  chargeable (wallClockMs (d_budgetConsumed d)) = false →
  run (AppendAttempt base d) c = (Throw (NegativeConsumption d_wallClockMs), charged c d) ∧
  attempts (charged c d) = attempts c ++ [stamp c d] ∧
  version (charged c d) = version c ∧ status (charged c d) = status c.
Proof.
  intros Hk Hs He Hd. split; [|done].
  enough (wp (appendAttempt base d) (λ _ _, False)
            (λ e c', e = NegativeConsumption d_wallClockMs ∧ c' = charged c d) c) as Hwp.
  { unfold wp in Hwp. cbn [run]. destruct (appendAttempt base d c) as [[t|e] c']; [done|].
    by destruct Hwp as [-> ->]. }
  apply wp_unless_replayed; [intros ?; congruence|]. intros _.
  apply wp_guards_pass; [rewrite Hs; set_solver|done|].
  apply wp_bind, wp_gets, wp_bind, wp_modify, wp_bind. unfold consumeAttempt.
  apply wp_bind, wp_modify, wp_bind. unfold consume_checked, nonNegative.
  apply wp_bind. unfold chargeable in Hd.
  cbn [usage_of budgetConsumed stamp].
  apply andb_false_iff in Hd as [->|Hd]; [by apply wp_throw|].
  apply negb_false_iff in Hd as ->. rewrite orb_true_r. by apply wp_throw.
Qed.

Definition demo_bad_draft : ReproductionAttemptDraft :=
  {| d_attemptId := "a1"; d_environmentRef := "env"; d_startedAt := "t0"; d_completedAt := "t1";
     d_outcome := diverged; d_divergenceStepId := None; d_evidenceRefs := [];
     d_budgetConsumed :=
       {| reproductionAttempts := num_of_Z 0; planningRevisions := num_of_Z 0;
          environmentRetries := num_of_Z 0; wallClockMs := NaN; modelTokens := num_of_Z 0;
          environmentResets := num_of_Z 0; destructiveActions := num_of_Z 0 |} |}.

Lemma append_invalid_not_atomic_witness :
  run (AppendAttempt (demo_base 3 "k3") demo_bad_draft) demo_reproducing =
    (Throw (NegativeConsumption d_wallClockMs), charged demo_reproducing demo_bad_draft).
Proof.
  apply (append_invalid_not_atomic (demo_base 3 "k3") demo_bad_draft demo_reproducing);
    vm_compute; reflexivity.
Defined.

(** Attempts that reproduced are never stopped by the budget: the case can
    overrun every ceiling.  [n] reproduced attempts, each under its own key. *)
Fixpoint reproduce_again (n : nat) (c : Case) : Case :=
  match n with
  | O => c
  | S n' =>
      reproduce_again n'
        (exec (run (AppendAttempt (demo_base (version c) (strokes n))
                      (demo_draft (strokes n) reproduced))) c)
  end.

Lemma reproduce_again_spec n c :
  status c = reproducing →
  (∀ m, (m <= n)%nat → transitions c !! strokes m = None) →
  rtc step c (reproduce_again n c) ∧ status (reproduce_again n c) = reproducing ∧
  length (attempts (reproduce_again n c)) = (length (attempts c) + n)%nat.
Proof.
  revert c. induction n as [|n IH]; intros c Hs Hk.
  { split; [apply rtc_refl|]. split; [done|]. cbn. lia. }
  set (command := AppendAttempt (demo_base (version c) (strokes (S n)))
                    (demo_draft (strokes (S n)) reproduced)).
  assert (wp (run command) (λ t c',
    status c' = reproducing ∧ length (attempts c') = S (length (attempts c)) ∧
    transitions c' = <[strokes (S n) := t]> (transitions c)) (λ _ _, False) c) as Hwp.
  { apply wp_appendAttempt_ok; [by apply Hk|done|done|done|].
    rewrite bool_decide_true by done. rewrite andb_false_r. unfold commit. wp_run.
    split; [done|]. split; [|done]. cbn. rewrite length_app. cbn. lia. }
  unfold wp in Hwp. cbn [reproduce_again]. fold command. unfold exec.
  destruct (run command c) as [[t|e] c'] eqn:Hrun; [|done]. destruct Hwp as (Hs' & Ha & Ht).
  destruct (IH c' Hs') as (Hsteps & Hs'' & Hlen).
  { intros m Hm. rewrite Ht, lookup_insert_ne; [apply Hk; lia|].
    intros Heq. apply strokes_inj in Heq. lia. }
  cbn [snd]. split; [|split; [done|lia]].
  eapply rtc_l; [|exact Hsteps]. exists command. unfold exec. by rewrite Hrun.
Qed.

(** The reproduction budget does not bound reproduced attempts.  From the
    case opened with a ceiling of two reproduction attempts, for every [n] some
    sequence of commands appends [n] attempts and leaves the case reproducing. *)
Theorem reproduced_attempts_overrun n :
  ∃ c, rtc step (open demo_open) c ∧ status c = reproducing ∧
    maximumReproductionAttempts (budget (open demo_open)) = num_of_Z 2 ∧
    length (attempts c) = n.
Proof.
  destruct (reproduce_again_spec n demo_reproducing) as (Hs & Hst & Hlen).
  - vm_compute. reflexivity.
  - intros m _. destruct (transitions demo_reproducing !! strokes m) eqn:Hm; [|done].
    exfalso. assert (∀ k, is_Some (transitions demo_reproducing !! k) → k = "k1" ∨ k = "k2") as Hkeys.
    { intros k Hk. apply elem_of_dom in Hk.
      assert (dom (transitions demo_reproducing) = {["k1"; "k2"]}) as Hdom
        by (vm_compute; reflexivity).
      rewrite Hdom, elem_of_union, !elem_of_singleton in Hk. exact Hk. }
    destruct (Hkeys (strokes m)) as [Heq|Heq]; [by eexists|..];
      destruct m; discriminate.
  - exists (reproduce_again n demo_reproducing). split; [|split; [exact Hst|split; [reflexivity|]]].
    + transitivity demo_reproducing; [exact demo_reproducing_reachable|exact Hs].
    + assert (length (attempts demo_reproducing) = 0%nat) as H0 by (vm_compute; reflexivity).
      by rewrite Hlen, H0.
Qed.

End Investigation.
