(* ===== verification/AppTarget.v ===== *)
(** * Desktop application targets

    Models [packages/contracts/desktop/src/app-target.ts]: the strict validator
    of an untrusted Windows application target.  [encode] is the JSON of an
    [AppTarget], the form it is stored and sent in. *)
From S2P Require Import Prelude Number Json.

Module AppTarget.

Record AppTargetLaunch := {
  executable : string;
  args : list string;
  workingDirectory : option string;
}.
Record AppTargetProcess := {
  expectedImageName : string;
  allowedChildImageNames : list string;
}.
Record AppTargetWindow := {
  titlePattern : option string;
  automationId : option string;
}.
Record AppTargetReset := {
  command : string;
  reset_args : list string;
  timeoutMs : number;
}.
Record AppTargetShutdown := {
  gracefulTimeoutMs : number;
  forceAfterTimeout : bool;
}.
(** [platform] is always windows. *)
Record AppTarget := {
  targetId : string;
  launch : AppTargetLaunch;
  process : AppTargetProcess;
  window : AppTargetWindow;
  reset : AppTargetReset;
  shutdown : AppTargetShutdown;
}.

Inductive AppTargetErrorCode :=
  | InvalidAppTargetShape
  | InvalidPlatform
  | InvalidTargetId
  | InvalidLaunchConfiguration
  | InvalidProcessConfiguration
  | InvalidWindowConfiguration
  | InvalidResetConfiguration
  | InvalidShutdownConfiguration.

Definition P := outcome AppTargetErrorCode.

(** ** [APP_TARGET_LIMITS] *)
Definition maxTargetIdLength : Z := 200.
Definition maxExecutableLength : Z := 4096.
Definition maxWorkingDirectoryLength : Z := 4096.
Definition maxArgLength : Z := 8192.
Definition maxArgs : Z := 128.
Definition maxImageNameLength : Z := 260.
Definition maxAllowedChildImages : Z := 64.
Definition maxTitlePatternLength : Z := 512.
Definition maxAutomationIdLength : Z := 512.
Definition minTimeoutMs : Z := 0.
Definition maxTimeoutMs : Z := 600000.

(** ** Field checks *)
Definition requireRecord (value : option json) (code : AppTargetErrorCode)
    : P (list (string * json)) :=
  match value with Some (JObj fields) => Ok fields | _ => Throw code end.

Definition string_ok (maxLength : Z) (s : string) : bool :=
  negb (bool_decide (s = EmptyString)) && (js_length s <=? maxLength)%Z.

Definition requireString (value : option json) (code : AppTargetErrorCode) (maxLength : Z)
    : P string :=
  match value with
  | Some (JStr s) => if string_ok maxLength s then Ok s else Throw code
  | _ => Throw code
  end.

(** The bytes of the character class [SHELL_METACHARACTERS], besides white space. *)
Definition SHELL_METACHARACTERS : list Z :=
  [34; 39; 96; 59; 38; 124; 60; 62; 36; 40; 41; 123; 125; 42; 63; 33; 126]%Z.

Definition is_letter (b : Z) : bool :=
  ((65 <=? b) && (b <=? 90) || (97 <=? b) && (b <=? 122))%Z.

Definition isCanonicalAbsolutePath (candidate : string) : bool :=
  if has_space_or SHELL_METACHARACTERS (bytes candidate) then false
  else if str_includes candidate ".." then false
  else
    let driveAbsolute := match bytes candidate with
      | d :: 58 :: sep :: _ => is_letter d && ((sep =? 92) || (sep =? 47))
      | _ => false
      end%Z in
    let uncAbsolute := match bytes candidate with 92 :: 92 :: _ => true | _ => false end%Z in
    driveAbsolute || uncAbsolute.

Definition requireCanonicalExecutable (value : option json) : P string :=
  s ← requireString value InvalidLaunchConfiguration maxExecutableLength;
  _ ← reject_if (negb (isCanonicalAbsolutePath s)) InvalidLaunchConfiguration;
  Ok s.

Definition requireArg (code : AppTargetErrorCode) (entry : json) : P string :=
  match entry with
  | JStr s => if (js_length s <=? maxArgLength)%Z then Ok s else Throw code
  | _ => Throw code
  end.

Definition requireArgs (value : option json) (code : AppTargetErrorCode) : P (list string) :=
  match value with
  | Some (JArr l) =>
      _ ← reject_if (maxArgs <? Z.of_nat (length l))%Z code;
      mapM (requireArg code) l
  | _ => Throw code
  end.

(** [/], [\], [*] and [?]. *)
Definition image_name_ok (name : string) : bool :=
  negb (existsb (λ b, includes (bytes name) b) [47; 92; 42; 63]%Z).

Definition requireImageName (value : option json) : P string :=
  name ← requireString value InvalidProcessConfiguration maxImageNameLength;
  _ ← reject_if (negb (image_name_ok name)) InvalidProcessConfiguration;
  Ok name.

Definition timeout_ok (n : number) : bool :=
  match integer_of n with
  | Some z => (minTimeoutMs <=? z)%Z && (z <=? maxTimeoutMs)%Z
  | None => false
  end.

Definition requireTimeoutMs (value : option json) (code : AppTargetErrorCode) : P number :=
  match value with
  | Some (JNum n) => if timeout_ok n then Ok n else Throw code
  | _ => Throw code
  end.

(** [if (value !== undefined) { f(value) }]. *)
Definition optional {A} (value : option json) (f : option json → P A) : P (option A) :=
  match value with None => Ok None | Some _ => a ← f value; Ok (Some a) end.

Definition requireLaunch (fields : list (string * json)) : P AppTargetLaunch :=
  launchRaw ← requireRecord (get_field "launch" fields) InvalidLaunchConfiguration;
  _ ← reject_if (includes (launchRaw.*1) "command") InvalidLaunchConfiguration;
  executable ← requireCanonicalExecutable (get_field "executable" launchRaw);
  args ← requireArgs (get_field "args" launchRaw) InvalidLaunchConfiguration;
  workingDirectory ← optional (get_field "workingDirectory" launchRaw) (λ v,
    s ← requireString v InvalidLaunchConfiguration maxWorkingDirectoryLength;
    _ ← reject_if (negb (isCanonicalAbsolutePath s)) InvalidLaunchConfiguration;
    Ok s);
  Ok {| executable := executable; args := args; workingDirectory := workingDirectory |}.

Definition requireProcess (fields : list (string * json)) : P AppTargetProcess :=
  processRaw ← requireRecord (get_field "process" fields) InvalidProcessConfiguration;
  expectedImageName ← requireImageName (get_field "expectedImageName" processRaw);
  match get_field "allowedChildImageNames" processRaw with
  | Some (JArr l) =>
      _ ← reject_if (maxAllowedChildImages <? Z.of_nat (length l))%Z InvalidProcessConfiguration;
      allowedChildImageNames ← mapM (λ entry, requireImageName (Some entry)) l;
      Ok {| expectedImageName := expectedImageName;
            allowedChildImageNames := allowedChildImageNames |}
  | _ => Throw InvalidProcessConfiguration
  end.

Definition requireWindow (fields : list (string * json)) : P AppTargetWindow :=
  windowRaw ← requireRecord (get_field "window" fields) InvalidWindowConfiguration;
  titlePattern ← optional (get_field "titlePattern" windowRaw) (λ v,
    requireString v InvalidWindowConfiguration maxTitlePatternLength);
  automationId ← optional (get_field "automationId" windowRaw) (λ v,
    requireString v InvalidWindowConfiguration maxAutomationIdLength);
  Ok {| titlePattern := titlePattern; automationId := automationId |}.

Definition requireReset (fields : list (string * json)) : P AppTargetReset :=
  resetRaw ← requireRecord (get_field "reset" fields) InvalidResetConfiguration;
  command ← requireCanonicalExecutable (get_field "command" resetRaw);
  args ← requireArgs (get_field "args" resetRaw) InvalidResetConfiguration;
  timeout ← requireTimeoutMs (get_field "timeoutMs" resetRaw) InvalidResetConfiguration;
  Ok {| command := command; reset_args := args; timeoutMs := timeout |}.

Definition requireShutdown (fields : list (string * json)) : P AppTargetShutdown :=
  shutdownRaw ← requireRecord (get_field "shutdown" fields) InvalidShutdownConfiguration;
  graceful ← requireTimeoutMs (get_field "gracefulTimeoutMs" shutdownRaw)
    InvalidShutdownConfiguration;
  match get_field "forceAfterTimeout" shutdownRaw with
  | Some (JBool b) => Ok {| gracefulTimeoutMs := graceful; forceAfterTimeout := b |}
  | _ => Throw InvalidShutdownConfiguration
  end.

Definition validateAppTarget (candidate : option json) : P AppTarget :=
  fields ← requireRecord candidate InvalidAppTargetShape;
  targetId ← requireString (get_field "targetId" fields) InvalidTargetId maxTargetIdLength;
  _ ← match get_field "platform" fields with
      | Some (JStr p) => reject_if (negb (bool_decide (p = "windows"))) InvalidPlatform
      | _ => Throw InvalidPlatform
      end;
  launch ← requireLaunch fields;
  process ← requireProcess fields;
  window ← requireWindow fields;
  reset ← requireReset fields;
  shutdown ← requireShutdown fields;
  Ok {| targetId := targetId; launch := launch; process := process; window := window;
        reset := reset; shutdown := shutdown |}.

(** ** The JSON of a target *)
Definition encode_strings (l : list string) : json := JArr (JStr <$> l).

Definition encode_launch (l : AppTargetLaunch) : json :=
  JObj (("executable", JStr (executable l)) :: ("args", encode_strings (args l)) ::
        opt_field "workingDirectory" JStr (workingDirectory l)).
Definition encode_process (p : AppTargetProcess) : json :=
  JObj [("expectedImageName", JStr (expectedImageName p));
        ("allowedChildImageNames", encode_strings (allowedChildImageNames p))].
Definition encode_window (w : AppTargetWindow) : json :=
  JObj (opt_field "titlePattern" JStr (titlePattern w) ++
        opt_field "automationId" JStr (automationId w)).
Definition encode_reset (r : AppTargetReset) : json :=
  JObj [("command", JStr (command r)); ("args", encode_strings (reset_args r));
        ("timeoutMs", JNum (timeoutMs r))].
Definition encode_shutdown (s : AppTargetShutdown) : json :=
  JObj [("gracefulTimeoutMs", JNum (gracefulTimeoutMs s));
        ("forceAfterTimeout", JBool (forceAfterTimeout s))].

Definition encode (t : AppTarget) : json :=
  JObj [("targetId", JStr (targetId t)); ("platform", JStr "windows");
        ("launch", encode_launch (launch t)); ("process", encode_process (process t));
        ("window", encode_window (window t)); ("reset", encode_reset (reset t));
        ("shutdown", encode_shutdown (shutdown t))].

(** ** What the validator accepts *)
Definition path_ok (maxLength : Z) (s : string) : bool :=
  string_ok maxLength s && isCanonicalAbsolutePath s.
Definition args_ok (l : list string) : bool :=
  (Z.of_nat (length l) <=? maxArgs)%Z && forallb (λ s, js_length s <=? maxArgLength)%Z l.
Definition image_ok (s : string) : bool := string_ok maxImageNameLength s && image_name_ok s.
Definition opt_ok (f : string → bool) (x : option string) : bool :=
  match x with Some s => f s | None => true end.

Record wf (t : AppTarget) : Prop := {
  wf_id : string_ok maxTargetIdLength (targetId t) = true;
  wf_executable : path_ok maxExecutableLength (executable (launch t)) = true;
  wf_args : args_ok (args (launch t)) = true;
  wf_directory : opt_ok (path_ok maxWorkingDirectoryLength) (workingDirectory (launch t)) = true;
  wf_image : image_ok (expectedImageName (process t)) = true;
  wf_children_count :
    (Z.of_nat (length (allowedChildImageNames (process t))) <= maxAllowedChildImages)%Z;
  wf_children : Forall (λ s, image_ok s = true) (allowedChildImageNames (process t));
  wf_title : opt_ok (string_ok maxTitlePatternLength) (titlePattern (window t)) = true;
  wf_automation : opt_ok (string_ok maxAutomationIdLength) (automationId (window t)) = true;
  wf_command : path_ok maxExecutableLength (command (reset t)) = true;
  wf_reset_args : args_ok (reset_args (reset t)) = true;
  wf_timeout : timeout_ok (timeoutMs (reset t)) = true;
  wf_graceful : timeout_ok (gracefulTimeoutMs (shutdown t)) = true;
}.

Lemma requireString_Ok v code m s : requireString v code m = Ok s → string_ok m s = true.
Proof. unfold requireString. intros. by inv_parse. Qed.

Lemma requireCanonicalExecutable_Ok v s :
  requireCanonicalExecutable v = Ok s → path_ok maxExecutableLength s = true.
Proof.
  unfold requireCanonicalExecutable, path_ok. intros. inv_parse.
  apply andb_true_iff. split; [by eapply requireString_Ok|done].
Qed.

Lemma requireArgs_Ok v code l : requireArgs v code = Ok l → args_ok l = true.
Proof.
  unfold requireArgs, args_ok. intros H. destruct v as [[| | | |l0|]|]; try done.
  apply bind_Ok in H as (u & Hlen & H). apply reject_if_Ok in Hlen. apply Z.ltb_ge in Hlen.
  apply (mapM_Ok_Forall _ (λ s, (js_length s <=? maxArgLength)%Z = true)) in H as [Hall Hl].
  - rewrite Hl. apply andb_true_iff. split; [by apply Z.leb_le|].
    apply forallb_forall. intros s Hs. rewrite Forall_forall in Hall. apply Hall.
    by apply list_elem_of_In.
  - intros [| |? |s| |] r; cbn; try done. intros. by inv_parse.
Qed.

Lemma requireImageName_Ok v s : requireImageName v = Ok s → image_ok s = true.
Proof.
  unfold requireImageName, image_ok. intros. inv_parse. apply andb_true_iff.
  split; [by eapply requireString_Ok|done].
Qed.

Lemma requireTimeoutMs_Ok v code n : requireTimeoutMs v code = Ok n → timeout_ok n = true.
Proof. unfold requireTimeoutMs. intros. by inv_parse. Qed.

Lemma app_optional_Ok {A} v (f : option json → P A) (ok : A → Prop) x :
  (∀ v a, f v = Ok a → ok a) → optional v f = Ok x → from_option ok True x.
Proof. unfold optional. intros Hf H. destruct v; inv_parse; cbn; eauto. Qed.

Lemma opt_ok_of ok x : from_option (λ s, ok s = true) True x → opt_ok ok x = true.
Proof. by destruct x. Qed.

Lemma validate_sound v t : validateAppTarget v = Ok t → wf t.
Proof.
  unfold validateAppTarget. intros H. do 8 (apply bind_Ok in H as (? & ? & H)).
  injection H as <-.
  unfold requireLaunch, requireProcess, requireWindow, requireReset, requireShutdown in *.
  inv_parse.
  repeat match goal with
  | H : requireArgs _ _ = Ok _ |- _ => apply requireArgs_Ok in H
  | H : requireCanonicalExecutable _ = Ok _ |- _ => apply requireCanonicalExecutable_Ok in H
  | H : requireImageName _ = Ok _ |- _ => apply requireImageName_Ok in H
  | H : requireTimeoutMs _ _ = Ok _ |- _ => apply requireTimeoutMs_Ok in H
  | H : requireString _ _ _ = Ok _ |- _ => apply requireString_Ok in H
  end.
  match goal with H : mapM _ _ = Ok _ |- _ =>
    apply (mapM_Ok_Forall _ (λ s, image_ok s = true)) in H as [Hall Hlen];
      [|intros ?? ?; by eapply requireImageName_Ok] end.
  split; cbn; try done.
  - apply opt_ok_of. eapply app_optional_Ok; [|done]. intros w str Hs. cbv beta in Hs |- *.
    apply bind_Ok in Hs as (str' & Hstr & Hs). apply bind_Ok in Hs as (u & Hcan & [= <-]).
    apply reject_if_Ok, negb_false_iff in Hcan. unfold path_ok. rewrite Hcan, andb_true_r.
    exact (requireString_Ok _ _ _ _ Hstr).
  - rewrite Hlen. match goal with H : (_ <? _)%Z = false |- _ => by apply Z.ltb_ge in H end.
  - apply opt_ok_of. eapply app_optional_Ok; [|done]. intros w str Hs. exact (requireString_Ok _ _ _ _ Hs).
  - apply opt_ok_of. eapply app_optional_Ok; [|done]. intros w str Hs. exact (requireString_Ok _ _ _ _ Hs).
Qed.

Lemma requireString_encode s code m :
  string_ok m s = true → requireString (Some (JStr s)) code m = Ok s.
Proof. cbn. by intros ->. Qed.

Lemma requireCanonicalExecutable_encode s :
  path_ok maxExecutableLength s = true → requireCanonicalExecutable (Some (JStr s)) = Ok s.
Proof.
  unfold path_ok, requireCanonicalExecutable. intros H. to_prop.
  rewrite requireString_encode by done. cbn. by rewrite H0.
Qed.

Lemma requireArgs_encode l code :
  args_ok l = true → requireArgs (Some (encode_strings l)) code = Ok l.
Proof.
  unfold args_ok, requireArgs, encode_strings. intros H.
  apply andb_true_iff in H as [Hlen Hall]. rewrite length_fmap.
  apply Z.leb_le in Hlen. replace (maxArgs <? Z.of_nat (length l))%Z with false
    by (symmetry; by apply Z.ltb_ge).
  cbn. apply (mapM_encode _ JStr). intros s Hs. cbn.
  rewrite forallb_forall in Hall. by rewrite (Hall s) by (by apply list_elem_of_In).
Qed.

Lemma requireImageName_encode s : image_ok s = true → requireImageName (Some (JStr s)) = Ok s.
Proof.
  unfold image_ok, requireImageName. intros H. to_prop.
  rewrite requireString_encode by done. cbn. by rewrite H0.
Qed.

Lemma app_optional_encode (x : option string) f ok :
  (∀ s, ok s = true → f (Some (JStr s)) = Ok s) → opt_ok ok x = true →
  optional (JStr <$> x) f = Ok x.
Proof. intros Hf. destruct x as [s|]; cbn; [|done]. intros Hs. by rewrite Hf. Qed.

Section parts.
Context (fields : list (string * json)) (t : AppTarget) (Hwf : wf t).

Lemma requireLaunch_encode :
  get_field "launch" fields = Some (encode_launch (launch t)) →
  requireLaunch fields = Ok (launch t).
Proof.
  intros Hget. unfold requireLaunch. rewrite Hget. unfold encode_launch, requireRecord.
  cbn -[requireArgs requireCanonicalExecutable requireString encode_strings includes].
  replace (includes _ "command") with false; cycle 1.
  { symmetry. unfold includes. apply bool_decide_eq_false.
    destruct (workingDirectory (launch t)); cbn; set_solver. }
  cbn -[requireArgs requireCanonicalExecutable requireString encode_strings].
  rewrite requireCanonicalExecutable_encode by apply Hwf.
  cbn -[requireArgs requireString encode_strings]. rewrite requireArgs_encode by apply Hwf.
  cbn -[requireString]. rewrite get_field_opt_nil.
  rewrite (app_optional_encode _ _ (path_ok maxWorkingDirectoryLength));
    [by destruct (launch t)| |apply Hwf].
  intros s Hs. unfold path_ok in Hs. apply andb_true_iff in Hs as [Hs1 Hs2].
  rewrite requireString_encode by done. cbn. by rewrite Hs2.
Qed.

Lemma requireProcess_encode :
  get_field "process" fields = Some (encode_process (process t)) →
  requireProcess fields = Ok (process t).
Proof.
  intros Hget. unfold requireProcess. rewrite Hget. unfold encode_process, requireRecord.
  cbn -[requireImageName encode_strings].
  rewrite requireImageName_encode by apply Hwf. unfold encode_strings.
  cbn -[requireImageName]. rewrite length_fmap.
  pose proof (wf_children_count _ Hwf) as Hcount.
  replace (maxAllowedChildImages <? _)%Z with false by (symmetry; by apply Z.ltb_ge).
  cbn -[requireImageName].
  rewrite (mapM_encode (λ entry, requireImageName (Some entry)) JStr).
  - by destruct (process t).
  - intros s Hs. apply requireImageName_encode.
    pose proof (wf_children _ Hwf) as Hall. rewrite Forall_forall in Hall. by apply Hall.
Qed.

Lemma requireWindow_encode :
  get_field "window" fields = Some (encode_window (window t)) →
  requireWindow fields = Ok (window t).
Proof.
  intros Hget. unfold requireWindow. rewrite Hget. unfold encode_window, requireRecord.
  cbn -[requireString].
  rewrite get_field_opt_same, get_field_opt_other by done. rewrite get_field_opt_nil.
  replace (match titlePattern (window t) with Some a => Some (JStr a)
           | None => get_field "titlePattern" (opt_field "automationId" JStr (automationId (window t)))
           end) with (JStr <$> titlePattern (window t)); cycle 1.
  { destruct (titlePattern (window t)); [done|]. by destruct (automationId (window t)). }
  rewrite (app_optional_encode _ _ (string_ok maxTitlePatternLength)); [|by intros; apply requireString_encode|apply Hwf].
  cbn -[requireString].
  rewrite (app_optional_encode _ _ (string_ok maxAutomationIdLength)); [|by intros; apply requireString_encode|apply Hwf].
  by destruct (window t).
Qed.

Lemma requireReset_encode :
  get_field "reset" fields = Some (encode_reset (reset t)) → requireReset fields = Ok (reset t).
Proof.
  intros Hget. unfold requireReset. rewrite Hget. unfold encode_reset, requireRecord.
  cbn -[requireCanonicalExecutable requireArgs requireTimeoutMs encode_strings].
  rewrite requireCanonicalExecutable_encode by apply Hwf.
  cbn -[requireArgs requireTimeoutMs encode_strings].
  rewrite requireArgs_encode by apply Hwf. cbn.
  rewrite (wf_timeout _ Hwf). by destruct (reset t).
Qed.

Lemma requireShutdown_encode :
  get_field "shutdown" fields = Some (encode_shutdown (shutdown t)) →
  requireShutdown fields = Ok (shutdown t).
Proof.
  intros Hget. unfold requireShutdown. rewrite Hget. unfold encode_shutdown, requireRecord. cbn.
  rewrite (wf_graceful _ Hwf). by destruct (shutdown t).
Qed.
End parts.

Lemma validate_complete t : wf t → validateAppTarget (Some (encode t)) = Ok t.
Proof.
  intros Hwf. unfold validateAppTarget, encode, requireRecord.
  cbn -[requireString requireLaunch requireProcess requireWindow requireReset requireShutdown
        encode_launch encode_process encode_window encode_reset encode_shutdown].
  rewrite requireString_encode by apply Hwf.
  cbn -[requireLaunch requireProcess requireWindow requireReset requireShutdown
        encode_launch encode_process encode_window encode_reset encode_shutdown].
  rewrite (requireLaunch_encode _ t Hwf) by done.
  cbn -[requireProcess requireWindow requireReset requireShutdown
        encode_process encode_window encode_reset encode_shutdown].
  rewrite (requireProcess_encode _ t Hwf) by done.
  cbn -[requireWindow requireReset requireShutdown encode_window encode_reset encode_shutdown].
  rewrite (requireWindow_encode _ t Hwf) by done.
  cbn -[requireReset requireShutdown encode_reset encode_shutdown].
  rewrite (requireReset_encode _ t Hwf) by done.
  cbn -[requireShutdown encode_shutdown]. rewrite (requireShutdown_encode _ t Hwf) by done.
  by destruct t.
Qed.

(** A target the validator accepted is accepted again, unchanged, from its JSON. *)
Lemma validate_stable v t :
  validateAppTarget v = Ok t → validateAppTarget (Some (encode t)) = Ok t.
Proof. intros H. by apply validate_complete, (validate_sound v). Qed.

End AppTarget.
