(* ===== verification/RunnerProtocol.v ===== *)
(** * The Runner Protocol job

    Models the data of [packages/contracts/runner-protocol/src/index.ts] and its
    strict parser of an [unknown] into an [AcceptedExecutionJob], the one gate a
    job passes on the wire, on its way back from storage and at the Runner.
    [new URL] is a parameter: the record says what the code reads of it. *)
From S2P Require Import Prelude Number Json IsoTime AppTarget.

(** What the code reads of [new URL(text)]. *)
Record Url := {
  protocol : string;
  username : string;
  password : string;
  origin : string;
}.

Module RunnerProtocol.

(** ** Data *)
Inductive TargetRef :=
  | WebTargetRef (url : string)
  | DesktopTargetRef (app : AppTarget.AppTarget).

Inductive ExecutionPolicyEnvironment := isolated_test | staging | production.
Inductive ExecutionPolicyActionKind :=
  | k_navigate | k_click | k_input | k_select | k_scroll | k_window.
Inductive ExecutionPolicyRisk := Normal | ExternalSideEffect | Destructive | ProductionForbidden.

#[export] Instance Environment_eq_dec : EqDecision ExecutionPolicyEnvironment.
Proof. solve_decision. Defined.
#[export] Instance ActionKind_eq_dec : EqDecision ExecutionPolicyActionKind.
Proof. solve_decision. Defined.
#[export] Instance Risk_eq_dec : EqDecision ExecutionPolicyRisk.
Proof. solve_decision. Defined.

Record ExecutionPolicySnapshot := {
  policyId : string;
  environment : ExecutionPolicyEnvironment;
  allowedOrigins : list string;
  allowedActionKinds : list ExecutionPolicyActionKind;
  maximumRisk : ExecutionPolicyRisk;
  explorationAllowed : bool;
  issuedAt : string;
  expiresAt : string;
}.

Record ExecutionPlanTarget := {
  role : option string;
  name : option string;
  purpose : string;
}.

Inductive Direction := up | down | left_ | right_.
Inductive Amount := small | page.

#[export] Instance Direction_eq_dec : EqDecision Direction.
Proof. solve_decision. Defined.
#[export] Instance Amount_eq_dec : EqDecision Amount.
Proof. solve_decision. Defined.

(** The step kinds of [ExecutionPlanStep]; [select] and [scroll] are always
    indexed. *)
Inductive StepKind :=
  | navigate (path : string)
  | click (target : ExecutionPlanTarget)
  | input (target : ExecutionPlanTarget) (valueRef : string)
  | select (target : ExecutionPlanTarget) (valueRef : string)
  | scroll (target : option ExecutionPlanTarget) (direction : Direction) (amount : Amount)
  | verify (claimIds : list string).

Record ExecutionPlanStep := {
  stepIndex : option number;
  kind : StepKind;
}.

Record ExecutionPlanBudget := {
  maximumStepsPerJob : number;
  maximumWallClockMs : number;
  maximumModelTokens : number;
}.

Record ExecutionJobPlanSnapshot := {
  missionId : string;
  missionRevision : number;
  testCaseId : string;
  steps : list ExecutionPlanStep;
  expectedClaimIds : list string;
  budget : ExecutionPlanBudget;
}.

Record AcceptedExecutionJob := {
  jobId : string;
  runId : string;
  projectId : string;
  target : TargetRef;
  objective : string;
  policy : ExecutionPolicySnapshot;
  plan : option ExecutionJobPlanSnapshot;
}.

(** [ExecutionPlanPolicyError] extends [ExecutionPolicySnapshotError]; an
    [AppTargetError] is neither. *)
Inductive ProtocolError :=
  | ExecutionPolicySnapshotError
  | ExecutionPlanPolicyError
  | AppTargetError (code : AppTarget.AppTargetErrorCode).

Definition P := outcome ProtocolError.
Definition fail {A} : P A := Throw ExecutionPolicySnapshotError.

(** ** Field parsers *)
Definition record (value : option json) : P (list (string * json)) :=
  match value with Some (JObj fields) => Ok fields | _ => fail end.

Definition exactKeys (fields : list (string * json)) (allowed : list string) : P unit :=
  reject_if (existsb (λ k, negb (includes allowed k)) (fields.*1)) ExecutionPolicySnapshotError.

Definition nonEmptyString (value : option json) : P string :=
  match value with
  | Some (JStr s) => if is_blank s then fail else Ok s
  | _ => fail
  end.

Definition safe_at_least (lower : Z) (n : number) : bool :=
  match safe_integer n with Some z => (lower <=? z)%Z | None => false end.

Definition positiveSafeInteger (value : option json) : P number :=
  match value with
  | Some (JNum n) => if safe_at_least 1 n then Ok n else fail
  | _ => fail
  end.

Definition nonNegativeSafeInteger (value : option json) : P number :=
  match value with
  | Some (JNum n) => if safe_at_least 0 n then Ok n else fail
  | _ => fail
  end.

Definition array (value : option json) : P (list json) :=
  match value with
  | Some (JArr []) => fail
  | Some (JArr l) => Ok l
  | _ => fail
  end.

(** [stringTuple] and [stringArray]. *)
Definition stringTuple (value : option json) : P (list string) :=
  l ← array value; mapM (λ v, nonEmptyString (Some v)) l.

(** [enumValue(value, allowed)]: the alternatives with their names. *)
Definition enumValue {A} (alternatives : list (string * A)) (value : option json) : P A :=
  match value with
  | Some (JStr s) =>
      match List.find (λ '(n, _), String.eqb n s) alternatives with
      | Some (_, a) => Ok a
      | None => fail
      end
  | _ => fail
  end.

Definition enumArray {A} (alternatives : list (string * A)) (value : option json) : P (list A) :=
  l ← array value; mapM (λ v, enumValue alternatives (Some v)) l.

Definition POLICY_ENVIRONMENTS :=
  [("isolated_test", isolated_test); ("staging", staging); ("production", production)].
Definition POLICY_ACTION_KINDS :=
  [("navigate", k_navigate); ("click", k_click); ("input", k_input); ("select", k_select);
   ("scroll", k_scroll); ("window", k_window)].
Definition POLICY_RISKS :=
  [("Normal", Normal); ("ExternalSideEffect", ExternalSideEffect); ("Destructive", Destructive);
   ("ProductionForbidden", ProductionForbidden)].
Definition DIRECTIONS := [("up", up); ("down", down); ("left", left_); ("right", right_)].
Definition AMOUNTS := [("small", small); ("page", page)].

(** The pattern, [Date.parse] and the round trip through [toISOString]. *)
Definition iso_instant_ok (s : string) : bool :=
  match parse_iso s with Some ms => String.eqb (toISOString ms) s | None => false end.

Definition isoInstant (value : option json) : P string :=
  s ← nonEmptyString value;
  if iso_instant_ok s then Ok s else fail.

Section parser.
Context (parse_url : string → option Url).

Definition http_without_credentials (u : Url) : bool :=
  (String.eqb (protocol u) "http:" || String.eqb (protocol u) "https:") &&
  String.eqb (username u) EmptyString && String.eqb (password u) EmptyString.

Definition origin_ok (value : string) : bool :=
  negb (str_includes value "*") &&
  match parse_url value with
  | Some u => http_without_credentials u && String.eqb (origin u) value
  | None => false
  end.

Definition parseOrigin (value : string) : P string :=
  if origin_ok value then Ok value else fail.

Definition target_url_ok (url : string) : bool :=
  match parse_url url with Some u => http_without_credentials u | None => false end.

Definition parseTargetUrl (value : option json) : P string :=
  url ← nonEmptyString value;
  if target_url_ok url then Ok url else fail.

(** [staging] admits only harmless clicks. *)
Definition staging_ok (kinds : list ExecutionPolicyActionKind) (risk : ExecutionPolicyRisk)
    (exploration : bool) : bool :=
  bool_decide (kinds = [k_click]) && bool_decide (risk = Normal) && negb exploration.

(** [Date.parse(issuedAt) < Date.parse(expiresAt)] on instants already checked. *)
Definition issued_before (issued expires : string) : bool :=
  match parse_iso issued, parse_iso expires with
  | Some a, Some b => (a <? b)%Z
  | _, _ => false
  end.

Definition parseExecutionPolicySnapshot (value : option json) : P ExecutionPolicySnapshot :=
  policy ← record value;
  policyId ← nonEmptyString (get_field "policyId" policy);
  environment ← enumValue POLICY_ENVIRONMENTS (get_field "environment" policy);
  raw ← stringTuple (get_field "allowedOrigins" policy);
  allowedOrigins ← mapM parseOrigin raw;
  allowedActionKinds ← enumArray POLICY_ACTION_KINDS (get_field "allowedActionKinds" policy);
  maximumRisk ← enumValue POLICY_RISKS (get_field "maximumRisk" policy);
  match get_field "explorationAllowed" policy with
  | Some (JBool explorationAllowed) =>
      issuedAt ← isoInstant (get_field "issuedAt" policy);
      expiresAt ← isoInstant (get_field "expiresAt" policy);
      _ ← reject_if (negb (issued_before issuedAt expiresAt)) ExecutionPolicySnapshotError;
      _ ← reject_if (negb (bool_decide (NoDup allowedOrigins)) ||
                     negb (bool_decide (NoDup allowedActionKinds))) ExecutionPolicySnapshotError;
      _ ← reject_if (bool_decide (environment = staging) &&
                     negb (staging_ok allowedActionKinds maximumRisk explorationAllowed))
            ExecutionPolicySnapshotError;
      Ok {| policyId := policyId; environment := environment; allowedOrigins := allowedOrigins;
            allowedActionKinds := allowedActionKinds; maximumRisk := maximumRisk;
            explorationAllowed := explorationAllowed; issuedAt := issuedAt;
            expiresAt := expiresAt |}
  | _ => fail
  end.

(** [value === undefined ? undefined : f(value)]. *)
Definition optional {A} (value : option json) (f : option json → P A) : P (option A) :=
  match value with None => Ok None | Some _ => a ← f value; Ok (Some a) end.

Definition parseExecutionPlanTarget (value : option json) : P ExecutionPlanTarget :=
  target ← record value;
  _ ← exactKeys target ["role"; "name"; "purpose"];
  role ← optional (get_field "role" target) nonEmptyString;
  name ← optional (get_field "name" target) nonEmptyString;
  purpose ← nonEmptyString (get_field "purpose" target);
  Ok {| role := role; name := name; purpose := purpose |}.

(** The keys allowed of a step: [stepIndex] only when it is present. *)
Definition indexed_keys (stepIndex : option number) (keys : list string) : list string :=
  match stepIndex with None => keys | Some _ => "stepIndex" :: keys end.

Definition parseExecutionPlanStep (value : option json) : P ExecutionPlanStep :=
  step ← record value;
  stepIndex ← optional (get_field "stepIndex" step) nonNegativeSafeInteger;
  match get_field "kind" step with
  | Some (JStr kind) =>
      if String.eqb kind "navigate" then
        _ ← exactKeys step (indexed_keys stepIndex ["kind"; "path"]);
        path ← nonEmptyString (get_field "path" step);
        Ok {| stepIndex := stepIndex; kind := navigate path |}
      else if String.eqb kind "click" then
        _ ← exactKeys step (indexed_keys stepIndex ["kind"; "target"]);
        target ← parseExecutionPlanTarget (get_field "target" step);
        Ok {| stepIndex := stepIndex; kind := click target |}
      else if String.eqb kind "input" then
        _ ← exactKeys step (indexed_keys stepIndex ["kind"; "target"; "valueRef"]);
        target ← parseExecutionPlanTarget (get_field "target" step);
        valueRef ← nonEmptyString (get_field "valueRef" step);
        Ok {| stepIndex := stepIndex; kind := input target valueRef |}
      else if String.eqb kind "select" then
        _ ← exactKeys step ["stepIndex"; "kind"; "target"; "valueRef"];
        index ← nonNegativeSafeInteger (get_field "stepIndex" step);
        target ← parseExecutionPlanTarget (get_field "target" step);
        valueRef ← nonEmptyString (get_field "valueRef" step);
        Ok {| stepIndex := Some index; kind := select target valueRef |}
      else if String.eqb kind "scroll" then
        _ ← exactKeys step (match get_field "target" step with
              | None => ["stepIndex"; "kind"; "direction"; "amount"]
              | Some _ => ["stepIndex"; "kind"; "target"; "direction"; "amount"]
              end);
        target ← optional (get_field "target" step) parseExecutionPlanTarget;
        index ← nonNegativeSafeInteger (get_field "stepIndex" step);
        direction ← enumValue DIRECTIONS (get_field "direction" step);
        amount ← enumValue AMOUNTS (get_field "amount" step);
        Ok {| stepIndex := Some index; kind := scroll target direction amount |}
      else if String.eqb kind "verify" then
        _ ← exactKeys step (indexed_keys stepIndex ["kind"; "claimIds"]);
        claimIds ← stringTuple (get_field "claimIds" step);
        Ok {| stepIndex := stepIndex; kind := verify claimIds |}
      else fail
  | _ => fail
  end.

(** [steps.some((step, index) => step.stepIndex !== index)], from index [i] on. *)
Fixpoint misindexed (i : Z) (l : list ExecutionPlanStep) : bool :=
  match l with
  | [] => false
  | step :: rest =>
      negb (match stepIndex step with Some n => num_eqb n (num_of_Z i) | None => false end)
      || misindexed (i + 1) rest
  end.

Definition indices_ok (l : list ExecutionPlanStep) : bool :=
  negb (existsb (λ step, bool_decide (is_Some (stepIndex step))) l) || negb (misindexed 0 l).

Definition validateStepIndices (l : list ExecutionPlanStep) : P unit :=
  reject_if (negb (indices_ok l)) ExecutionPolicySnapshotError.

Definition parseExecutionJobPlanSnapshot (value : option json) : P ExecutionJobPlanSnapshot :=
  plan ← record value;
  _ ← exactKeys plan ["missionId"; "missionRevision"; "testCaseId"; "steps"; "expectedClaimIds";
                      "budget"];
  raw ← array (get_field "steps" plan);
  steps ← mapM (λ v, parseExecutionPlanStep (Some v)) raw;
  _ ← validateStepIndices steps;
  expectedClaimIds ← stringTuple (get_field "expectedClaimIds" plan);
  _ ← reject_if (bool_decide (steps = [])) ExecutionPolicySnapshotError;
  budget ← record (get_field "budget" plan);
  _ ← exactKeys budget ["maximumStepsPerJob"; "maximumWallClockMs"; "maximumModelTokens"];
  maximumStepsPerJob ← positiveSafeInteger (get_field "maximumStepsPerJob" budget);
  _ ← reject_if (num_ltb maximumStepsPerJob (num_of_Z (Z.of_nat (length steps))))
        ExecutionPolicySnapshotError;
  missionId ← nonEmptyString (get_field "missionId" plan);
  missionRevision ← positiveSafeInteger (get_field "missionRevision" plan);
  testCaseId ← nonEmptyString (get_field "testCaseId" plan);
  maximumWallClockMs ← positiveSafeInteger (get_field "maximumWallClockMs" budget);
  maximumModelTokens ← positiveSafeInteger (get_field "maximumModelTokens" budget);
  Ok {| missionId := missionId; missionRevision := missionRevision; testCaseId := testCaseId;
        steps := steps; expectedClaimIds := expectedClaimIds;
        budget := {| maximumStepsPerJob := maximumStepsPerJob;
                     maximumWallClockMs := maximumWallClockMs;
                     maximumModelTokens := maximumModelTokens |} |}.

Definition parseTargetRef (value : option json) : P TargetRef :=
  target ← record value;
  match get_field "kind" target with
  | Some (JStr kind) =>
      if String.eqb kind "web" then
        _ ← exactKeys target ["kind"; "url"];
        url ← parseTargetUrl (get_field "url" target);
        Ok (WebTargetRef url)
      else if String.eqb kind "desktop" then
        _ ← exactKeys target ["kind"; "app"];
        match AppTarget.validateAppTarget (get_field "app" target) with
        | Ok app => Ok (DesktopTargetRef app)
        | Throw e => Throw (AppTargetError e)
        end
      else fail
  | _ => fail
  end.

(** The kind of a step as a policy action kind; [verify] has none. *)
Definition action_kind (k : StepKind) : option ExecutionPolicyActionKind :=
  match k with
  | navigate _ => Some k_navigate
  | click _ => Some k_click
  | input _ _ => Some k_input
  | select _ _ => Some k_select
  | scroll _ _ _ => Some k_scroll
  | verify _ => None
  end.

(** [step.stepIndex !== undefined && step.kind !== "verify" &&
    !policy.allowedActionKinds.includes(step.kind)]. *)
Definition step_denied (allowed : list ExecutionPolicyActionKind) (step : ExecutionPlanStep)
    : bool :=
  bool_decide (is_Some (stepIndex step)) &&
  match action_kind (kind step) with Some k => negb (includes allowed k) | None => false end.

Definition plan_denied (policy : ExecutionPolicySnapshot) (plan : option ExecutionJobPlanSnapshot)
    : bool :=
  match plan with
  | Some p => existsb (step_denied (allowedActionKinds policy)) (steps p)
  | None => false
  end.

Definition parseExecutionJob (value : option json) : P AcceptedExecutionJob :=
  raw ← record value;
  jobId ← nonEmptyString (get_field "jobId" raw);
  runId ← nonEmptyString (get_field "runId" raw);
  projectId ← nonEmptyString (get_field "projectId" raw);
  target ← parseTargetRef (get_field "target" raw);
  objective ← nonEmptyString (get_field "objective" raw);
  policy ← parseExecutionPolicySnapshot (get_field "policy" raw);
  plan ← optional (get_field "plan" raw) parseExecutionJobPlanSnapshot;
  _ ← reject_if (plan_denied policy plan) ExecutionPlanPolicyError;
  Ok {| jobId := jobId; runId := runId; projectId := projectId; target := target;
        objective := objective; policy := policy; plan := plan |}.
End parser.

(** ** The JSON of a job, the form it is stored and sent in *)
Definition environment_name (e : ExecutionPolicyEnvironment) : string :=
  match e with isolated_test => "isolated_test" | staging => "staging" | production => "production" end.
Definition kind_name (k : ExecutionPolicyActionKind) : string :=
  match k with
  | k_navigate => "navigate" | k_click => "click" | k_input => "input" | k_select => "select"
  | k_scroll => "scroll" | k_window => "window"
  end.
Definition risk_name (r : ExecutionPolicyRisk) : string :=
  match r with
  | Normal => "Normal" | ExternalSideEffect => "ExternalSideEffect"
  | Destructive => "Destructive" | ProductionForbidden => "ProductionForbidden"
  end.
Definition direction_name (d : Direction) : string :=
  match d with up => "up" | down => "down" | left_ => "left" | right_ => "right" end.
Definition amount_name (a : Amount) : string := match a with small => "small" | page => "page" end.

Definition encode_strings (l : list string) : json := JArr (JStr <$> l).

Definition encode_policy (p : ExecutionPolicySnapshot) : json :=
  JObj [("policyId", JStr (policyId p)); ("environment", JStr (environment_name (environment p)));
        ("allowedOrigins", encode_strings (allowedOrigins p));
        ("allowedActionKinds", encode_strings (kind_name <$> allowedActionKinds p));
        ("maximumRisk", JStr (risk_name (maximumRisk p)));
        ("explorationAllowed", JBool (explorationAllowed p));
        ("issuedAt", JStr (issuedAt p)); ("expiresAt", JStr (expiresAt p))].

Definition encode_target (t : ExecutionPlanTarget) : json :=
  JObj (opt_field "role" JStr (role t) ++ opt_field "name" JStr (name t) ++
        [("purpose", JStr (purpose t))]).

Definition encode_step (s : ExecutionPlanStep) : json :=
  let indexed := opt_field "stepIndex" JNum (stepIndex s) in
  match kind s with
  | navigate path => JObj (("kind", JStr "navigate") :: ("path", JStr path) :: indexed)
  | click target => JObj (("kind", JStr "click") :: ("target", encode_target target) :: indexed)
  | input target valueRef =>
      JObj (("kind", JStr "input") :: ("target", encode_target target) ::
            ("valueRef", JStr valueRef) :: indexed)
  | select target valueRef =>
      JObj (("kind", JStr "select") :: ("target", encode_target target) ::
            ("valueRef", JStr valueRef) :: indexed)
  | scroll target direction amount =>
      JObj (("kind", JStr "scroll") :: ("direction", JStr (direction_name direction)) ::
            ("amount", JStr (amount_name amount)) ::
            opt_field "target" encode_target target ++ indexed)
  | verify claimIds =>
      JObj (("kind", JStr "verify") :: ("claimIds", encode_strings claimIds) :: indexed)
  end.

Definition encode_budget (b : ExecutionPlanBudget) : json :=
  JObj [("maximumStepsPerJob", JNum (maximumStepsPerJob b));
        ("maximumWallClockMs", JNum (maximumWallClockMs b));
        ("maximumModelTokens", JNum (maximumModelTokens b))].

Definition encode_plan (p : ExecutionJobPlanSnapshot) : json :=
  JObj [("missionId", JStr (missionId p)); ("missionRevision", JNum (missionRevision p));
        ("testCaseId", JStr (testCaseId p)); ("steps", JArr (encode_step <$> steps p));
        ("expectedClaimIds", encode_strings (expectedClaimIds p));
        ("budget", encode_budget (budget p))].

Definition encode_ref (t : TargetRef) : json :=
  match t with
  | WebTargetRef url => JObj [("kind", JStr "web"); ("url", JStr url)]
  | DesktopTargetRef app => JObj [("kind", JStr "desktop"); ("app", AppTarget.encode app)]
  end.

Definition encode_job (j : AcceptedExecutionJob) : json :=
  JObj ([("jobId", JStr (jobId j)); ("runId", JStr (runId j)); ("projectId", JStr (projectId j));
         ("target", encode_ref (target j)); ("objective", JStr (objective j));
         ("policy", encode_policy (policy j))] ++ opt_field "plan" encode_plan (plan j)).

(** ** What the parser accepts *)
Definition strings_ok (l : list string) : Prop := l ≠ [] ∧ Forall (λ s, is_blank s = false) l.
Definition opt_nonblank (x : option string) : Prop := from_option (λ s, is_blank s = false) True x.

Record target_wf (t : ExecutionPlanTarget) : Prop := {
  tw_role : opt_nonblank (role t);
  tw_name : opt_nonblank (name t);
  tw_purpose : is_blank (purpose t) = false;
}.

(** The step kinds that need their index, and the texts and targets of a step. *)
Definition step_wf (s : ExecutionPlanStep) : Prop :=
  from_option (λ n, safe_at_least 0 n = true) True (stepIndex s) ∧
  match kind s with
  | navigate path => is_blank path = false
  | click target => target_wf target
  | input target valueRef => target_wf target ∧ is_blank valueRef = false
  | select target valueRef =>
      is_Some (stepIndex s) ∧ target_wf target ∧ is_blank valueRef = false
  | scroll target _ _ => is_Some (stepIndex s) ∧ from_option target_wf True target
  | verify claimIds => strings_ok claimIds
  end.

Record plan_wf (p : ExecutionJobPlanSnapshot) : Prop := {
  pw_mission : is_blank (missionId p) = false;
  pw_revision : safe_at_least 1 (missionRevision p) = true;
  pw_case : is_blank (testCaseId p) = false;
  pw_nonempty : steps p ≠ [];
  pw_steps : Forall step_wf (steps p);
  pw_indices : indices_ok (steps p) = true;
  pw_claims : strings_ok (expectedClaimIds p);
  pw_maximum_steps : safe_at_least 1 (maximumStepsPerJob (budget p)) = true;
  pw_maximum_clock : safe_at_least 1 (maximumWallClockMs (budget p)) = true;
  pw_maximum_tokens : safe_at_least 1 (maximumModelTokens (budget p)) = true;
  pw_within :
    num_ltb (maximumStepsPerJob (budget p)) (num_of_Z (Z.of_nat (length (steps p)))) = false;
}.

Section wf.
Context (parse_url : string → option Url).

Record policy_wf (p : ExecutionPolicySnapshot) : Prop := {
  pol_id : is_blank (policyId p) = false;
  pol_origins : strings_ok (allowedOrigins p);
  pol_origins_ok : Forall (λ o, origin_ok parse_url o = true) (allowedOrigins p);
  pol_origins_unique : NoDup (allowedOrigins p);
  pol_kinds : allowedActionKinds p ≠ [];
  pol_kinds_unique : NoDup (allowedActionKinds p);
  pol_issued : is_blank (issuedAt p) = false ∧ iso_instant_ok (issuedAt p) = true;
  pol_expires : is_blank (expiresAt p) = false ∧ iso_instant_ok (expiresAt p) = true;
  pol_order : issued_before (issuedAt p) (expiresAt p) = true;
  pol_staging : environment p = staging →
    staging_ok (allowedActionKinds p) (maximumRisk p) (explorationAllowed p) = true;
}.

Definition ref_wf (t : TargetRef) : Prop :=
  match t with
  | WebTargetRef url => is_blank url = false ∧ target_url_ok parse_url url = true
  | DesktopTargetRef app => AppTarget.wf app
  end.

Record job_wf (j : AcceptedExecutionJob) : Prop := {
  jw_job : is_blank (jobId j) = false;
  jw_run : is_blank (runId j) = false;
  jw_project : is_blank (projectId j) = false;
  jw_target : ref_wf (target j);
  jw_objective : is_blank (objective j) = false;
  jw_policy : policy_wf (policy j);
  jw_plan : from_option plan_wf True (plan j);
  jw_allowed : plan_denied (policy j) (plan j) = false;
}.
End wf.

(** ** Parsing accepts only well-formed jobs *)
Lemma nonEmptyString_Ok v s : nonEmptyString v = Ok s → is_blank s = false.
Proof. unfold nonEmptyString, fail. intros. by inv_parse. Qed.

Lemma positiveSafeInteger_Ok v n : positiveSafeInteger v = Ok n → safe_at_least 1 n = true.
Proof. unfold positiveSafeInteger, fail. intros. by inv_parse. Qed.

Lemma nonNegativeSafeInteger_Ok v n : nonNegativeSafeInteger v = Ok n → safe_at_least 0 n = true.
Proof. unfold nonNegativeSafeInteger, fail. intros. by inv_parse. Qed.

Lemma array_Ok v l : array v = Ok l → l ≠ [].
Proof. unfold array, fail. intros. by inv_parse. Qed.

Lemma stringTuple_Ok v l : stringTuple v = Ok l → strings_ok l.
Proof.
  unfold stringTuple. intros H. apply bind_Ok in H as (raw & Hraw & H).
  apply array_Ok in Hraw.
  apply (mapM_Ok_Forall _ (λ s, is_blank s = false)) in H as [Hall Hlen].
  - split; [|done]. intros ->. by destruct raw.
  - intros a b. apply nonEmptyString_Ok.
Qed.

Lemma optional_Ok {A} v (f : option json → P A) (ok : A → Prop) x :
  (∀ v a, f v = Ok a → ok a) → optional v f = Ok x → from_option ok True x.
Proof. unfold optional. intros Hf H. destruct v; inv_parse; cbn; eauto. Qed.

Lemma parseExecutionPlanTarget_Ok v t : parseExecutionPlanTarget v = Ok t → target_wf t.
Proof.
  unfold parseExecutionPlanTarget. intros H. do 5 (apply bind_Ok in H as (? & ? & H)).
  injection H as <-. split; cbn; [| |by eapply nonEmptyString_Ok].
  - by eapply optional_Ok; [apply nonEmptyString_Ok|].
  - by eapply optional_Ok; [apply nonEmptyString_Ok|].
Qed.

Lemma parseExecutionPlanStep_Ok v s : parseExecutionPlanStep v = Ok s → step_wf s.
Proof.
  unfold parseExecutionPlanStep, fail. intros H.
  apply bind_Ok in H as (step & _ & H). apply bind_Ok in H as (index & Hindex & H).
  apply (optional_Ok _ _ (λ n, safe_at_least 0 n = true)) in Hindex;
    [|apply nonNegativeSafeInteger_Ok].
  inv_parse; split; cbn; try done;
    repeat match goal with
    | H : nonEmptyString _ = Ok _ |- _ => apply nonEmptyString_Ok in H
    | H : parseExecutionPlanTarget _ = Ok _ |- _ => apply parseExecutionPlanTarget_Ok in H
    | H : nonNegativeSafeInteger _ = Ok _ |- _ => apply nonNegativeSafeInteger_Ok in H
    | H : stringTuple _ = Ok _ |- _ => apply stringTuple_Ok in H
    end; eauto.
  split; [eauto|]. by eapply optional_Ok; [apply parseExecutionPlanTarget_Ok|].
Qed.

Lemma parseExecutionJobPlanSnapshot_Ok v p :
  parseExecutionJobPlanSnapshot v = Ok p → plan_wf p.
Proof.
  unfold parseExecutionJobPlanSnapshot, validateStepIndices. intros H.
  inv_parse.
  repeat match goal with
  | H : nonEmptyString _ = Ok _ |- _ => apply nonEmptyString_Ok in H
  | H : positiveSafeInteger _ = Ok _ |- _ => apply positiveSafeInteger_Ok in H
  | H : stringTuple _ = Ok _ |- _ => apply stringTuple_Ok in H
  | H : bool_decide _ = false |- _ => apply bool_decide_eq_false in H
  end.
  match goal with H : mapM _ _ = Ok _ |- _ =>
    apply (mapM_Ok_Forall _ step_wf) in H as [Hall _];
      [|intros ? ?; apply parseExecutionPlanStep_Ok] end.
  by split.
Qed.

Section sound.
Context (parse_url : string → option Url).

Lemma isoInstant_Ok v s : isoInstant v = Ok s → is_blank s = false ∧ iso_instant_ok s = true.
Proof.
  unfold isoInstant, fail. intros. inv_parse. split; [by eapply nonEmptyString_Ok|done].
Qed.

Lemma parseOrigins_Ok raw l :
  mapM (parseOrigin parse_url) raw = Ok l →
  l = raw ∧ Forall (λ o, origin_ok parse_url o = true) l.
Proof.
  revert l. induction raw as [|o raw IH]; intros l H; cbn in H; [by injection H as <-|].
  apply bind_Ok in H as (o' & Ho & H). apply bind_Ok in H as (l' & Hl & [= <-]).
  unfold parseOrigin, fail in Ho. inv_parse. destruct (IH _ Hl) as [-> ?].
  split; [done|]. by constructor.
Qed.

Lemma parseExecutionPolicySnapshot_Ok v p :
  parseExecutionPolicySnapshot parse_url v = Ok p → policy_wf parse_url p.
Proof.
  unfold parseExecutionPolicySnapshot, fail. intros H. inv_parse.
  match goal with H : mapM (parseOrigin _) _ = Ok _ |- _ =>
    apply parseOrigins_Ok in H as [-> Horigins] end.
  match goal with H : enumArray _ _ = Ok _ |- _ =>
    unfold enumArray in H; apply bind_Ok in H as (raw & Hraw & H);
    apply array_Ok in Hraw; apply (mapM_Ok_Forall _ (λ _, True)) in H as [_ Hlen]; [|done] end.
  match goal with H : (negb _ || negb _) = false |- _ =>
    apply orb_false_iff in H as [Hu1%negb_false_iff Hu2%negb_false_iff] end.
  match goal with H : (bool_decide _ && negb _) = false |- _ => rename H into Hst end.
  split; cbn; try (by eapply nonEmptyString_Ok); try (by eapply stringTuple_Ok);
    try (by eapply isoInstant_Ok); try done.
  - by apply bool_decide_eq_true in Hu1.
  - intros ->. by destruct raw.
  - by apply bool_decide_eq_true in Hu2.
  - intros ->. rewrite bool_decide_true in Hst by done. by apply negb_false_iff in Hst.
Qed.

Lemma parseTargetRef_Ok v t : parseTargetRef parse_url v = Ok t → ref_wf parse_url t.
Proof.
  unfold parseTargetRef, parseTargetUrl, fail. intros H. inv_parse; cbn.
  - split; [by eapply nonEmptyString_Ok|done].
  - by eapply AppTarget.validate_sound.
Qed.

Lemma parseExecutionJob_Ok v j : parseExecutionJob parse_url v = Ok j → job_wf parse_url j.
Proof.
  unfold parseExecutionJob. intros H. do 9 (apply bind_Ok in H as (? & ? & H)).
  injection H as <-. inv_parse. split; cbn; try (by eapply nonEmptyString_Ok); try done.
  - by eapply parseTargetRef_Ok.
  - by eapply parseExecutionPolicySnapshot_Ok.
  - by eapply optional_Ok; [apply parseExecutionJobPlanSnapshot_Ok|].
Qed.
End sound.

(** ** Parsing gives a well-formed job back from its JSON *)
Lemma nonEmptyString_encode s : is_blank s = false → nonEmptyString (Some (JStr s)) = Ok s.
Proof. cbn. by intros ->. Qed.

Lemma positive_encode n : safe_at_least 1 n = true → positiveSafeInteger (Some (JNum n)) = Ok n.
Proof. cbn. by intros ->. Qed.

Lemma nonNegative_encode n :
  safe_at_least 0 n = true → nonNegativeSafeInteger (Some (JNum n)) = Ok n.
Proof. cbn. by intros ->. Qed.

Lemma array_encode {A} (enc : A → json) (l : list A) :
  l ≠ [] → array (Some (JArr (enc <$> l))) = Ok (enc <$> l).
Proof. by destruct l. Qed.

Lemma stringTuple_encode l : strings_ok l → stringTuple (Some (encode_strings l)) = Ok l.
Proof.
  intros [Hne Hall]. unfold stringTuple, encode_strings. rewrite array_encode by done.
  apply (mapM_encode (λ v, nonEmptyString (Some v)) JStr). intros s Hs.
  rewrite Forall_forall in Hall. by apply nonEmptyString_encode, Hall.
Qed.

Lemma optional_encode {A} (enc : A → json) (x : option A) f ok :
  (∀ a, ok a → f (Some (enc a)) = Ok a) → from_option ok True x → optional (enc <$> x) f = Ok x.
Proof. intros Hf. destruct x as [a|]; cbn; [|done]. intros Ha. by rewrite Hf. Qed.

Lemma enum_environment e :
  enumValue POLICY_ENVIRONMENTS (Some (JStr (environment_name e))) = Ok e.
Proof. by destruct e. Qed.
Lemma enum_kind k : enumValue POLICY_ACTION_KINDS (Some (JStr (kind_name k))) = Ok k.
Proof. by destruct k. Qed.
Lemma enum_risk r : enumValue POLICY_RISKS (Some (JStr (risk_name r))) = Ok r.
Proof. by destruct r. Qed.
Lemma enum_direction d : enumValue DIRECTIONS (Some (JStr (direction_name d))) = Ok d.
Proof. by destruct d. Qed.
Lemma enum_amount a : enumValue AMOUNTS (Some (JStr (amount_name a))) = Ok a.
Proof. by destruct a. Qed.

Lemma exactKeys_subset fields allowed : fields.*1 ⊆ allowed → exactKeys fields allowed = Ok tt.
Proof.
  intros H. unfold exactKeys. replace (existsb _ _) with false; [done|]. symmetry.
  apply not_true_iff_false. intros He. apply existsb_exists in He as (k & Hk & Hn).
  apply list_elem_of_In in Hk. unfold includes in Hn. to_prop. by apply Hn, H.
Qed.

Ltac keys_subset :=
  apply exactKeys_subset;
  repeat match goal with |- context [opt_field _ _ ?x] => destruct x eqn:?; cbn end;
  cbn; set_solver.

Lemma parseExecutionPlanTarget_encode t :
  target_wf t → parseExecutionPlanTarget (Some (encode_target t)) = Ok t.
Proof.
  intros [H1 H2 H3]. unfold parseExecutionPlanTarget, encode_target, record.
  cbn -[nonEmptyString optional exactKeys].
  replace (exactKeys _ _) with (@Ok ProtocolError _ tt).
  2: { symmetry. apply exactKeys_subset. destruct (role t), (name t); cbn; set_solver. }
  cbn -[nonEmptyString optional].
  replace (get_field "role" _) with (JStr <$> role t) by (by destruct (role t), (name t)).
  replace (get_field "name" _) with (JStr <$> name t) by (by destruct (role t), (name t)).
  replace (get_field "purpose" _) with (Some (JStr (purpose t)))
    by (by destruct (role t), (name t)).
  rewrite (optional_encode JStr (role t) nonEmptyString (λ s, is_blank s = false));
    [|intros; by apply nonEmptyString_encode|done].
  cbn -[nonEmptyString optional].
  rewrite (optional_encode JStr (name t) nonEmptyString (λ s, is_blank s = false));
    [|intros; by apply nonEmptyString_encode|done].
  cbn -[nonEmptyString]. rewrite nonEmptyString_encode by done. by destruct t.
Qed.

Lemma optional_index (x : option number) :
  from_option (λ n, safe_at_least 0 n = true) True x →
  optional (JNum <$> x) nonNegativeSafeInteger = Ok x.
Proof.
  intros H. apply (optional_encode JNum x _ (λ n, safe_at_least 0 n = true)); [|done].
  intros. by apply nonNegative_encode.
Qed.

Lemma get_index fields x :
  get_field "stepIndex" fields = None →
  get_field "stepIndex" (fields ++ opt_field "stepIndex" JNum x) = JNum <$> x.
Proof.
  induction fields as [|[k v] fields IH]; cbn; [intros _; by rewrite get_field_opt_nil|].
  by destruct (String.eqb k "stepIndex").
Qed.

Lemma enumArray_kinds l :
  l ≠ [] → enumArray POLICY_ACTION_KINDS (Some (encode_strings (kind_name <$> l))) = Ok l.
Proof.
  intros H. unfold enumArray, encode_strings. rewrite array_encode by (by destruct l).
  cbn. rewrite <- list_fmap_compose.
  apply (mapM_encode (λ v, enumValue POLICY_ACTION_KINDS (Some v)) (JStr ∘ kind_name)).
  intros k _. apply enum_kind.
Qed.

Local Opaque enumArray nonEmptyString nonNegativeSafeInteger parseExecutionPlanTarget optional exactKeys
  encode_target encode_strings stringTuple enumValue.

Lemma parseExecutionPlanStep_encode s :
  step_wf s → parseExecutionPlanStep (Some (encode_step s)) = Ok s.
Proof.
  destruct s as [index k]. intros [Hi Hk]. cbn in Hi, Hk.
  pose proof (optional_index index Hi) as Hindex.
  unfold parseExecutionPlanStep, encode_step, record. destruct k as [path|t|t v|t v|t d a|ids];
    cbn in Hk |- *.
  - rewrite get_field_opt_nil, Hindex. cbn.
    replace (exactKeys _ _) with (@Ok ProtocolError _ tt)
      by (symmetry; destruct index; keys_subset).
    cbn. by rewrite nonEmptyString_encode.
  - rewrite get_field_opt_nil, Hindex. cbn.
    replace (exactKeys _ _) with (@Ok ProtocolError _ tt)
      by (symmetry; destruct index; keys_subset).
    cbn. by rewrite parseExecutionPlanTarget_encode.
  - destruct Hk as [Ht Hv]. rewrite get_field_opt_nil, Hindex. cbn.
    replace (exactKeys _ _) with (@Ok ProtocolError _ tt)
      by (symmetry; destruct index; keys_subset).
    cbn. rewrite parseExecutionPlanTarget_encode by done. cbn.
    by rewrite nonEmptyString_encode.
  - destruct Hk as ([n ->] & Ht & Hv). cbn in Hi |- *. cbn in Hindex. rewrite Hindex. cbn.
    replace (exactKeys _ _) with (@Ok ProtocolError _ tt) by (symmetry; keys_subset).
    cbn. rewrite nonNegative_encode by done. cbn.
    rewrite parseExecutionPlanTarget_encode by done. cbn.
    by rewrite nonEmptyString_encode.
  - destruct Hk as ([n ->] & Ht). cbn in Hi |- *. cbn in Hindex.
    replace (get_field "stepIndex" _) with (Some (JNum n)) by (by destruct t).
    rewrite Hindex. cbn.
    replace (get_field "target" _) with (encode_target <$> t) by (by destruct t).
    replace (exactKeys _ _) with (@Ok ProtocolError _ tt)
      by (symmetry; destruct t; cbn; keys_subset).
    cbn. rewrite (optional_encode encode_target t parseExecutionPlanTarget target_wf);
      [|intros; by apply parseExecutionPlanTarget_encode|done].
    cbn. rewrite nonNegative_encode by done. cbn.
    rewrite enum_direction. cbn. by rewrite enum_amount.
  - rewrite get_field_opt_nil, Hindex. cbn.
    replace (exactKeys _ _) with (@Ok ProtocolError _ tt)
      by (symmetry; destruct index; keys_subset).
    cbn. by rewrite stringTuple_encode.
Qed.

Local Opaque parseExecutionPlanStep positiveSafeInteger array encode_step num_ltb num_of_Z Z.of_nat.

Lemma parseExecutionJobPlanSnapshot_encode p :
  plan_wf p → parseExecutionJobPlanSnapshot (Some (encode_plan p)) = Ok p.
Proof.
  intros [H1 H2 H3 H4 H5 H6 H7 H8 H9 H10 H11].
  unfold parseExecutionJobPlanSnapshot, encode_plan, record, validateStepIndices. cbn.
  replace (exactKeys _ _) with (@Ok ProtocolError _ tt) by (symmetry; keys_subset). cbn.
  rewrite array_encode by done. cbn.
  rewrite (mapM_encode (λ v, parseExecutionPlanStep (Some v)) encode_step); cycle 1.
  { intros s Hs. rewrite Forall_forall in H5. by apply parseExecutionPlanStep_encode, H5. }
  cbn. rewrite H6. cbn. rewrite stringTuple_encode by done. cbn.
  rewrite bool_decide_false by done. cbn.
  replace (exactKeys _ _) with (@Ok ProtocolError _ tt) by (symmetry; keys_subset). cbn.
  rewrite !positive_encode, !nonEmptyString_encode by done. cbn. rewrite H11. cbn.
  destruct p as [? ? ? ? ? []]. done.
Qed.

Section complete.
Context (parse_url : string → option Url).

Lemma parseOrigins_encode l :
  Forall (λ o, origin_ok parse_url o = true) l → mapM (parseOrigin parse_url) l = Ok l.
Proof.
  induction 1 as [|o l Ho _ IH]; [done|]. cbn.
  assert (parseOrigin parse_url o = Ok o) as -> by (unfold parseOrigin; by rewrite Ho).
  cbn. by rewrite IH.
Qed.

Lemma isoInstant_encode s :
  is_blank s = false ∧ iso_instant_ok s = true → isoInstant (Some (JStr s)) = Ok s.
Proof.
  intros [H1 H2]. unfold isoInstant. rewrite nonEmptyString_encode by done. cbn. by rewrite H2.
Qed.

Local Opaque isoInstant parseOrigin iso_instant_ok issued_before staging_ok.

Lemma parseExecutionPolicySnapshot_encode p :
  policy_wf parse_url p →
  parseExecutionPolicySnapshot parse_url (Some (encode_policy p)) = Ok p.
Proof.
  intros [H1 H2 H3 H4 H5 H6 H7 H8 H9 H10].
  unfold parseExecutionPolicySnapshot, encode_policy, record. cbn.
  rewrite nonEmptyString_encode by done. cbn. rewrite enum_environment. cbn.
  rewrite stringTuple_encode by done. cbn. rewrite parseOrigins_encode by done. cbn.
  rewrite enumArray_kinds by done.
  cbn. rewrite enum_risk. cbn. rewrite !isoInstant_encode by done. cbn. rewrite H9. cbn.
  rewrite (bool_decide_true (NoDup (allowedOrigins p))) by done.
  rewrite (bool_decide_true (NoDup (allowedActionKinds p))) by done. cbn.
  replace (bool_decide (environment p = staging) && _) with false.
  2: { symmetry. destruct (decide (environment p = staging)) as [E|E].
       - by rewrite (H10 E), andb_false_r.
       - by rewrite bool_decide_false. }
  cbn. by destruct p.
Qed.

Lemma parseTargetRef_encode t :
  ref_wf parse_url t → parseTargetRef parse_url (Some (encode_ref t)) = Ok t.
Proof.
  destruct t as [url|app]; intros H.
  - destruct H as [H1 H2]. unfold parseTargetRef, record. cbn.
    replace (exactKeys _ _) with (@Ok ProtocolError _ tt) by (symmetry; keys_subset). cbn.
    unfold parseTargetUrl. rewrite nonEmptyString_encode by done. cbn. by rewrite H2.
  - unfold parseTargetRef, record, encode_ref.
    cbn -[AppTarget.validateAppTarget AppTarget.encode].
    replace (exactKeys _ _) with (@Ok ProtocolError _ tt) by (symmetry; keys_subset).
    cbn -[AppTarget.validateAppTarget AppTarget.encode].
    by rewrite AppTarget.validate_complete.
Qed.

Local Opaque parseTargetRef encode_ref parseExecutionPolicySnapshot encode_policy
  parseExecutionJobPlanSnapshot encode_plan plan_denied.

Lemma parseExecutionJob_encode j :
  job_wf parse_url j → parseExecutionJob parse_url (Some (encode_job j)) = Ok j.
Proof.
  intros [H1 H2 H3 H4 H5 H6 H7 H8]. unfold parseExecutionJob, encode_job, record. cbn.
  rewrite !nonEmptyString_encode by done. cbn.
  rewrite parseTargetRef_encode by done. cbn.
  rewrite parseExecutionPolicySnapshot_encode by done. cbn.
  rewrite get_field_opt_nil.
  rewrite (optional_encode encode_plan (plan j) parseExecutionJobPlanSnapshot plan_wf);
    [|intros; by apply parseExecutionJobPlanSnapshot_encode|done].
  cbn. rewrite H8. cbn. by destruct j.
Qed.
End complete.

(** ** Theorems *)

(** C35: the job parser is sound.  Whatever [unknown] it accepts, the job has
    non-blank identities, a policy whose instants are valid and ordered, whose
    origins are credential-free http(s) origins without repetition and which in
    staging admits nothing but harmless clicks; and a plan that is non-empty,
    within its step budget, consistently indexed, with every indexed action of
    an allowed kind. *)
Theorem parse_job_sound parse_url v j :
  parseExecutionJob parse_url v = Ok j →
  job_wf parse_url j ∧
  (∀ p s k, plan j = Some p → s ∈ steps p → is_Some (stepIndex s) →
     action_kind (kind s) = Some k → k ∈ allowedActionKinds (policy j)) ∧
  (∀ p i s, plan j = Some p → steps p !! i = Some s → is_Some (stepIndex s) →
     stepIndex s = Some (num_of_Z (Z.of_nat i))).
Proof.
  intros H. apply parseExecutionJob_Ok in H. split; [done|]. split.
  - intros p s k Hp Hs Hi Hk. pose proof (jw_allowed _ _ H) as Hden.
    unfold plan_denied in Hden. rewrite Hp in Hden.
    apply not_true_iff_false in Hden. destruct (decide (k ∈ allowedActionKinds (policy j))); [done|].
    destruct Hden. apply existsb_exists. exists s. split; [by apply list_elem_of_In|].
    unfold step_denied, includes. rewrite Hk, (bool_decide_true (is_Some _)) by done.
    by rewrite bool_decide_false.
  - intros p i s Hp Hs Hi. pose proof (jw_plan _ _ H) as Hplan. rewrite Hp in Hplan.
    pose proof (pw_indices _ Hplan) as Hidx. unfold indices_ok in Hidx.
    apply orb_true_iff in Hidx as [Hnone|Hall].
    + apply negb_true_iff, not_true_iff_false in Hnone. destruct Hnone.
      apply existsb_exists. exists s. split; [|by rewrite bool_decide_true].
      apply list_elem_of_In. by eapply list_elem_of_lookup_2.
    + apply negb_true_iff in Hall. clear -Hall Hs.
      assert (∀ l b, misindexed b l = false → l !! i = Some s →
                stepIndex s = Some (num_of_Z (b + Z.of_nat i))) as Hgen.
      { clear Hall Hs. intros l. revert i. induction l as [|x l IH]; intros i b Hm Hl; [done|].
        cbn in Hm. apply orb_false_iff in Hm as [Hx Hm]. destruct i as [|i]; cbn in Hl.
        - injection Hl as ->. destruct (stepIndex s) as [n|]; [|done].
          apply negb_false_iff in Hx. rewrite Z.add_0_r. f_equal.
          destruct n; cbn in Hx; to_prop; done.
        - rewrite (IH i (b + 1)%Z Hm Hl). do 2 f_equal. lia. }
      by rewrite (Hgen (steps p) 0%Z Hall Hs).
Qed.

(** C32: parsing is stable.  A job the parser accepted is accepted again from its
    own JSON, unchanged: storing or sending a job and parsing it back is the
    identity on accepted jobs. *)
Theorem parse_job_roundtrip parse_url v j :
  parseExecutionJob parse_url v = Ok j →
  parseExecutionJob parse_url (Some (encode_job j)) = Ok j.
Proof. intros H. by apply parseExecutionJob_encode, (parseExecutionJob_Ok _ v). Qed.

(** A [new URL] that knows one site. *)
Definition demo_url (text : string) : option Url :=
  if String.eqb text "https://shop.test" || String.eqb text "https://shop.test/cart" then
    Some {| protocol := "https:"; username := EmptyString; password := EmptyString;
            origin := "https://shop.test" |}
  else None.

Definition demo_policy : ExecutionPolicySnapshot :=
  {| policyId := "policy"; environment := isolated_test; allowedOrigins := ["https://shop.test"];
     allowedActionKinds := [k_click; k_navigate]; maximumRisk := Normal;
     explorationAllowed := false; issuedAt := "2024-01-01T00:00:00.000Z";
     expiresAt := "2024-01-02T00:00:00.000Z" |}.
Definition demo_plan : ExecutionJobPlanSnapshot :=
  {| missionId := "mission"; missionRevision := num_of_Z 1; testCaseId := "case";
     steps := [{| stepIndex := Some (num_of_Z 0); kind := navigate "/cart" |};
               {| stepIndex := Some (num_of_Z 1);
                  kind := click {| role := Some "button"; name := None; purpose := "pay" |} |};
               {| stepIndex := Some (num_of_Z 2); kind := verify ["claim"] |}];
     expectedClaimIds := ["claim"];
     budget := {| maximumStepsPerJob := num_of_Z 3; maximumWallClockMs := num_of_Z 60000;
                  maximumModelTokens := num_of_Z 1000 |} |}.
Definition demo_job : AcceptedExecutionJob :=
  {| jobId := "job"; runId := "run"; projectId := "project";
     target := WebTargetRef "https://shop.test/cart"; objective := "buy";
     policy := demo_policy; plan := Some demo_plan |}.

Lemma parse_job_sound_witness :
  parseExecutionJob demo_url (Some (encode_job demo_job)) = Ok demo_job ∧
  k_click ∈ allowedActionKinds (policy demo_job).
Proof.
  assert (parseExecutionJob demo_url (Some (encode_job demo_job)) = Ok demo_job) as H
    by (vm_compute; reflexivity).
  split; [exact H|]. destruct (parse_job_sound demo_url _ _ H) as (_ & Hk & _).
  apply (Hk demo_plan {| stepIndex := Some (num_of_Z 1);
                  kind := click {| role := Some "button"; name := None; purpose := "pay" |} |}).
  - reflexivity.
  - apply list_elem_of_further, list_elem_of_here.
  - eexists. reflexivity.
  - reflexivity.
Defined.

Lemma parse_job_roundtrip_witness :
  parseExecutionJob demo_url (Some (encode_job demo_job)) = Ok demo_job.
Proof.
  apply (parse_job_roundtrip demo_url (Some (encode_job demo_job)) demo_job).
  vm_compute. reflexivity.
Defined.

End RunnerProtocol.
