(* ===== verification/ExecutionBudget.v ===== *)
(** * The per-run execution budget

    Models [packages/runner-kernel/src/execution-budget.ts].  The monotonic
    clock is outside the code: its readings are the parameter [reading], and the
    state counts how many were taken. *)
From S2P Require Import Prelude Number AppTarget RunnerProtocol.

Module ExecutionBudget.
Import RunnerProtocol.

Inductive ExecutionBudgetErrorCode :=
  | ExecutionBudgetInvalid
  | ExecutionBudgetAlreadyActive
  | ExecutionBudgetNotActive
  | StepBudgetExceeded
  | WallClockBudgetExceeded
  | ModelBudgetExceeded
  | ModelUsageUnavailable.

Record ModelUsage := {
  inputTokens : option number;
  outputTokens : option number;
  totalTokens_ : option number;
}.

Record ExecutionBudgetError := {
  code : ExecutionBudgetErrorCode;
  error_consumedModelTokens : option number;
}.

Definition budgetError (c : ExecutionBudgetErrorCode) : ExecutionBudgetError :=
  {| code := c; error_consumedModelTokens := None |}.

Record RunBudgetState := {
  maximumSteps : number;
  state_maximumWallClockMs : number;
  state_maximumModelTokens : number;
  startedAtMs : number;
  consumedSteps : number;
  consumedModelTokens : number;
}.

(** The [runs] map, and the number of clock readings so far. *)
Record State := {
  runs : gmap string RunBudgetState;
  readings : nat;
}.

Definition set_run (runId : string) (r : RunBudgetState) (s : State) : State :=
  {| runs := <[runId := r]> (runs s); readings := readings s |}.

Definition with_steps (n : number) (r : RunBudgetState) : RunBudgetState :=
  {| maximumSteps := maximumSteps r; state_maximumWallClockMs := state_maximumWallClockMs r;
     state_maximumModelTokens := state_maximumModelTokens r; startedAtMs := startedAtMs r;
     consumedSteps := n; consumedModelTokens := consumedModelTokens r |}.
Definition with_tokens (n : number) (r : RunBudgetState) : RunBudgetState :=
  {| maximumSteps := maximumSteps r; state_maximumWallClockMs := state_maximumWallClockMs r;
     state_maximumModelTokens := state_maximumModelTokens r; startedAtMs := startedAtMs r;
     consumedSteps := consumedSteps r; consumedModelTokens := n |}.

Definition M := js State ExecutionBudgetError.

Definition throwCode {A} (c : ExecutionBudgetErrorCode) : M A := throw (budgetError c).

Definition validLimit (value : number) : bool :=
  match safe_integer value with Some z => (0 <? z)%Z | None => false end.

Definition validateLimit (value : number) : M unit :=
  throw_if (negb (validLimit value)) (budgetError ExecutionBudgetInvalid).

Definition isNonNegativeSafeInteger (value : option number) : option number :=
  match value with
  | Some n => match safe_integer n with
              | Some z => if (0 <=? z)%Z then Some n else None
              | None => None
              end
  | None => None
  end.

Definition totalTokens (usage : option ModelUsage) : option number :=
  match usage with
  | None => None
  | Some u =>
      match isNonNegativeSafeInteger (totalTokens_ u) with
      | Some n => Some n
      | None =>
          match isNonNegativeSafeInteger (inputTokens u), isNonNegativeSafeInteger (outputTokens u) with
          | Some i, Some o =>
              let total := num_add i o in
              if bool_decide (is_Some (safe_integer total)) then Some total else None
          | _, _ => None
          end
      end
  end.

(** The constructor's validation of the ceilings for jobs without a plan; an
    omitted ceiling is [0], which [begin] rejects. *)
Definition construct (objectiveOnlyMaximumWallClockMs objectiveOnlyMaximumModelTokens : option number)
    : outcome ExecutionBudgetError (number * number) :=
  _ ← reject_if (match objectiveOnlyMaximumWallClockMs with
                 | Some v => negb (validLimit v) | None => false end)
        (budgetError ExecutionBudgetInvalid);
  _ ← reject_if (match objectiveOnlyMaximumModelTokens with
                 | Some v => negb (validLimit v) | None => false end)
        (budgetError ExecutionBudgetInvalid);
  Ok (default (num_of_Z 0) objectiveOnlyMaximumWallClockMs,
      default (num_of_Z 0) objectiveOnlyMaximumModelTokens).

Section budget.
Context (reading : nat → number).

(** [this.clock.now()]. *)
Definition now : M number := λ s,
  (Ok (reading (readings s)), {| runs := runs s; readings := S (readings s) |}).

Definition active (runId : string) : M RunBudgetState :=
  s ← get;
  match runs s !! runId with
  | Some r => mret r
  | None => throwCode ExecutionBudgetNotActive
  end.

Definition elapsed (r : RunBudgetState) : M number :=
  t ← now; mret (num_sub t (startedAtMs r)).

Definition assertWallClock (r : RunBudgetState) : M unit :=
  e ← elapsed r;
  throw_if (negb (is_finite e) || num_ltb e (num_of_Z 0) ||
            num_leb (state_maximumWallClockMs r) e) (budgetError WallClockBudgetExceeded).

(** The limits of a job without a plan: one step and the configured ceilings. *)
Definition begin (objectiveOnlyMaximumWallClockMs objectiveOnlyMaximumModelTokens : number)
    (job : AcceptedExecutionJob) : M unit :=
  s ← get;
  _ ← throw_if (bool_decide (is_Some (runs s !! runId job)))
        (budgetError ExecutionBudgetAlreadyActive);
  let source := match plan job with
    | Some p => budget p
    | None => {| maximumStepsPerJob := num_of_Z 1;
                 maximumWallClockMs := objectiveOnlyMaximumWallClockMs;
                 maximumModelTokens := objectiveOnlyMaximumModelTokens |}
    end in
  _ ← validateLimit (maximumStepsPerJob source);
  _ ← validateLimit (maximumWallClockMs source);
  _ ← validateLimit (maximumModelTokens source);
  t ← now;
  modify (set_run (runId job)
    {| maximumSteps := maximumStepsPerJob source;
       state_maximumWallClockMs := maximumWallClockMs source;
       state_maximumModelTokens := maximumModelTokens source; startedAtMs := t;
       consumedSteps := num_of_Z 0; consumedModelTokens := num_of_Z 0 |}).

Definition beforeStep (runId : string) (stepIndex : number) : M unit :=
  r ← active runId;
  _ ← assertWallClock r;
  _ ← throw_if (match safe_integer stepIndex with Some z => (z <? 0)%Z | None => true end ||
                num_leb (maximumSteps r) (consumedSteps r)) (budgetError StepBudgetExceeded);
  modify (set_run runId (with_steps (num_add (consumedSteps r) (num_of_Z 1)) r)).

Definition maximumOutputTokens (runId : string) : M number :=
  r ← active runId;
  _ ← assertWallClock r;
  let remaining := num_sub (state_maximumModelTokens r) (consumedModelTokens r) in
  _ ← throw_if (num_leb remaining (num_of_Z 0))
        {| code := ModelBudgetExceeded; error_consumedModelTokens := Some (consumedModelTokens r) |};
  mret remaining.

Definition remainingWallClockMs (runId : string) : M number :=
  r ← active runId;
  e ← elapsed r;
  let remaining := num_sub (state_maximumWallClockMs r) e in
  _ ← throw_if (negb (is_finite remaining) || num_leb remaining (num_of_Z 0))
        (budgetError WallClockBudgetExceeded);
  mret remaining.

Definition consumeModelUsage (runId : string) (usage : option ModelUsage) : M unit :=
  r ← active runId;
  match totalTokens usage with
  | None => throwCode ModelUsageUnavailable
  | Some consumed =>
      let total := num_add (consumedModelTokens r) consumed in
      let r' := with_tokens total r in
      _ ← modify (set_run runId r');
      _ ← throw_if (num_ltb (state_maximumModelTokens r') total)
            {| code := ModelBudgetExceeded; error_consumedModelTokens := Some total |};
      assertWallClock r'
  end.

Definition finish (runId : string) : M unit :=
  modify (λ s, {| runs := delete runId (runs s); readings := readings s |}).

(** ** Interleaved use of one budget by several runs *)
Inductive Call :=
  | Begin (wall tokens : number) (job : AcceptedExecutionJob)
  | BeforeStep (runId : string) (stepIndex : number)
  | MaximumOutputTokens (runId : string)
  | RemainingWallClockMs (runId : string)
  | ConsumeModelUsage (runId : string) (usage : option ModelUsage)
  | Finish (runId : string).

Definition discard {A} (m : M A) : M unit := _ ← m; mret tt.

Definition call (c : Call) : M unit :=
  match c with
  | Begin wall tokens job => begin wall tokens job
  | BeforeStep i n => beforeStep i n
  | MaximumOutputTokens i => discard (maximumOutputTokens i)
  | RemainingWallClockMs i => discard (remainingWallClockMs i)
  | ConsumeModelUsage i u => consumeModelUsage i u
  | Finish i => finish i
  end.

(** The calls of one execution with whether each returned. *)
Fixpoint calls (l : list Call) (s : State) : list (Call * bool) * State :=
  match l with
  | [] => ([], s)
  | c :: rest =>
      let '(o, s') := call c s in
      let '(log, s'') := calls rest s' in
      ((c, match o with Ok _ => true | Throw _ => false end) :: log, s'')
  end.

Definition is_step (runId : string) (e : Call * bool) : bool :=
  match e with (BeforeStep i _, true) => bool_decide (i = runId) | _ => false end.
Definition is_finish (runId : string) (c : Call) : bool :=
  match c with Finish i => bool_decide (i = runId) | _ => false end.
End budget.

(** ** Invariant of an active run *)
Definition tick (n : Z) : number := num_of_Z n.

Record run_wf (r : RunBudgetState) : Prop := {
  rw_steps : ∃ max k, maximumSteps r = num_of_Z max ∧ consumedSteps r = num_of_Z k ∧
    (0 <= k <= max)%Z ∧ (0 < max <= max_safe_integer)%Z;
  rw_clock : validLimit (state_maximumWallClockMs r) = true;
  rw_tokens : validLimit (state_maximumModelTokens r) = true;
  rw_consumed : is_double (consumedModelTokens r) ∧
    num_leb (num_of_Z 0) (consumedModelTokens r) = true;
}.

Definition Inv (s : State) : Prop := ∀ i r, runs s !! i = Some r → run_wf r.

Lemma validLimit_some v :
  validLimit v = true → ∃ z, v = num_of_Z z ∧ (0 < z <= max_safe_integer)%Z.
Proof.
  unfold validLimit. destruct (safe_integer v) as [z|] eqn:Hz; [|done]. intros. to_prop.
  apply safe_integer_some in Hz as [-> ?]. exists z. split; [done|]. lia.
Qed.

Lemma totalTokens_some u n :
  totalTokens u = Some n → ∃ z, n = num_of_Z z ∧ (0 <= z <= max_safe_integer)%Z.
Proof.
  assert (∀ v m, isNonNegativeSafeInteger v = Some m →
            ∃ z, m = num_of_Z z ∧ (0 <= z <= max_safe_integer)%Z) as Hone.
  { intros [v|] m; cbn [isNonNegativeSafeInteger]; [|done].
    destruct (safe_integer v) as [z|] eqn:Hz; [|done].
    destruct (Z.leb_spec 0 z); [|done]. intros [= <-].
    apply safe_integer_some in Hz as [-> ?]. exists z. split; [done|]. lia. }
  destruct u as [u|]; cbn [totalTokens]; [|done].
  destruct (isNonNegativeSafeInteger (totalTokens_ u)) as [m|] eqn:Ht.
  { intros [= <-]. by eapply Hone. }
  destruct (isNonNegativeSafeInteger (inputTokens u)) as [i|] eqn:Hi; [|done].
  destruct (isNonNegativeSafeInteger (outputTokens u)) as [o|] eqn:Ho; [|done].
  destruct (safe_integer (num_add i o)) as [z|] eqn:Hs; [|done].
  rewrite bool_decide_true by done. intros [= <-].
  apply safe_integer_some in Hs as [Hs Hz]. exists z. rewrite Hs. split; [done|].
  destruct (Hone _ _ Hi) as (zi & -> & ?), (Hone _ _ Ho) as (zo & -> & ?).
  assert (num_leb (num_of_Z 0) (num_add (num_of_Z zi) (num_of_Z zo)) = true) as Hge.
  { apply (num_leb_trans _ (num_of_Z zi)); [|apply num_add_ge].
    - rewrite num_leb_of_Z. apply Z.leb_le; lia.
    - apply num_of_Z_is_double, safe_bound. lia.
    - rewrite num_leb_of_Z. apply Z.leb_le; lia.
    - rewrite num_leb_of_Z. apply Z.leb_le; lia. }
  rewrite Hs, num_leb_of_Z in Hge. to_prop. lia.
Qed.

Section invariant.
Context (reading : nat → number).

(** A call that touches one run with a well-formed state keeps the invariant. *)
Lemma inv_set_run s i r : Inv s → run_wf r → Inv (set_run i r s).
Proof.
  intros HI Hr j r'. cbn. rewrite lookup_insert_Some. intros [[<- <-]|[_ ?]]; [done|by eapply HI].
Qed.

Lemma inv_readings s n : Inv s → Inv {| runs := runs s; readings := n |}.
Proof. done. Qed.

(** What a gate that reads the clock leaves behind. *)
Lemma wp_now Q R s :
  Q (reading (readings s)) {| runs := runs s; readings := S (readings s) |} →
  wp (now reading) Q R s.
Proof. done. Qed.

Lemma wp_active i Q (R : ExecutionBudgetError → State → Prop) s :
  (∀ r, runs s !! i = Some r → Q r s) →
  (runs s !! i = None → R (budgetError ExecutionBudgetNotActive) s) →
  wp (active i) Q R s.
Proof.
  intros HQ HR. unfold active. apply wp_bind, wp_get.
  destruct (runs s !! i) as [r|] eqn:Hr; [by apply wp_ret, HQ|by apply wp_throw, HR].
Qed.

Lemma wp_assertWallClock r Q (R : ExecutionBudgetError → State → Prop) s :
  let e := num_sub (reading (readings s)) (startedAtMs r) in
  let s' := {| runs := runs s; readings := S (readings s) |} in
  (is_finite e = true → num_ltb e (num_of_Z 0) = false →
   num_leb (state_maximumWallClockMs r) e = false → Q tt s') →
  R (budgetError WallClockBudgetExceeded) s' →
  wp (assertWallClock reading r) Q R s.
Proof.
  intros e s' HQ HR. unfold assertWallClock, elapsed.
  apply wp_bind, wp_bind, wp_now, wp_ret. apply wp_throw_if; intros H; [done|]. to_prop.
  by apply HQ.
Qed.

Lemma steps_wf r :
  run_wf r → num_leb (maximumSteps r) (consumedSteps r) = false →
  run_wf (with_steps (num_add (consumedSteps r) (num_of_Z 1)) r) ∧
  ∃ max k, maximumSteps r = num_of_Z max ∧ consumedSteps r = num_of_Z k ∧ (0 <= k < max)%Z ∧
    num_add (consumedSteps r) (num_of_Z 1) = num_of_Z (k + 1).
Proof.
  intros [(max & k & Hmax & Hk & Hb & Hm) H2 H3 H4] Hlt.
  rewrite Hmax, Hk, num_leb_of_Z in Hlt. to_prop.
  assert (num_add (num_of_Z k) (num_of_Z 1) = num_of_Z (k + 1)) as Hadd.
  { apply num_add_of_Z, safe_bound. lia. }
  split.
  - split; cbn; try done. exists max, (k + 1)%Z. rewrite Hk. split_and!; [done|done|lia..].
  - exists max, k. rewrite Hk. split_and!; [done|done|lia..|done].
Qed.

Lemma tokens_wf r u n :
  run_wf r → totalTokens u = Some n →
  run_wf (with_tokens (num_add (consumedModelTokens r) n) r).
Proof.
  intros [H1 H2 H3 [H4 H5]] Hn. apply totalTokens_some in Hn as (z & -> & Hz).
  assert (num_leb (num_of_Z 0) (num_of_Z z) = true) as Hz0.
  { rewrite num_leb_of_Z. apply Z.leb_le. lia. }
  split; cbn; try done. split.
  - apply num_add_is_double; [done|]. apply num_of_Z_is_double, safe_bound. lia.
  - eapply num_leb_trans; [exact H5|]. by apply num_add_ge.
Qed.

Lemma call_inv c s : Inv s → Inv (exec (call reading c) s).
Proof.
  intros HI. enough (wp (call reading c) (λ _, Inv) (λ _, Inv) s) as H.
  { unfold wp, exec in *. by destruct (call reading c s) as [[[]|] s']. }
  destruct c as [wall tokens job|i n|i|i|i u|i]; cbn [call].
  - unfold begin, validateLimit. wp_run; try done. to_prop. apply wp_now. wp_run.
    apply (inv_set_run {| runs := runs s; readings := S (readings s) |}); [done|].
    apply validLimit_some in H0 as (max & Hmax & ?).
    split; cbn; [|done|done|split; [by apply num_of_Z_is_double|done]].
    exists max, 0%Z. split_and!; [done|done|lia..].
  - unfold beforeStep. apply wp_bind, wp_active; [|done]. intros r Hr.
    apply wp_bind, wp_assertWallClock; [|done]. intros _ _ _. wp_run; [done|]. to_prop.
    apply (inv_set_run {| runs := runs s; readings := S (readings s) |}); [done|].
    apply steps_wf; [by eapply HI|done].
  - unfold discard, maximumOutputTokens. apply wp_bind, wp_bind, wp_active; [|done]. intros r Hr.
    apply wp_bind, wp_assertWallClock; [|done]. intros _ _ _. wp_run; done.
  - unfold discard, remainingWallClockMs, elapsed. apply wp_bind, wp_bind, wp_active; [|done].
    intros r Hr. apply wp_bind, wp_bind, wp_now, wp_ret. wp_run; done.
  - unfold consumeModelUsage. apply wp_bind, wp_active; [|done]. intros r Hr.
    destruct (totalTokens u) as [n|] eqn:Hn; [|by apply wp_throw].
    assert (Inv (set_run i (with_tokens (num_add (consumedModelTokens r) n) r) s)) as HI'.
    { apply inv_set_run; [done|]. eapply tokens_wf; [by eapply HI|done]. }
    wp_run; [done|]. apply wp_assertWallClock; done.
  - unfold finish. wp_run. intros j r. cbn. rewrite lookup_delete_Some. intros [_ ?]. by eapply HI.
Qed.
End invariant.

Section effects.
Context (reading : nat → number).

(** [r'] is the same activation as [r], further along. *)
Record later (r r' : RunBudgetState) : Prop := {
  lt_steps : maximumSteps r' = maximumSteps r;
  lt_clock : state_maximumWallClockMs r' = state_maximumWallClockMs r;
  lt_tokens : state_maximumModelTokens r' = state_maximumModelTokens r;
  lt_started : startedAtMs r' = startedAtMs r;
  lt_consumed : num_leb (consumedModelTokens r) (consumedModelTokens r') = true;
}.

#[local] Instance later_trans : Transitive later.
Proof.
  intros r1 r2 r3 [] []. split; [congruence..|]. by eapply num_leb_trans.
Qed.

Lemma later_refl r : run_wf r → later r r.
Proof.
  intros [_ _ _ [_ H]]. split; [done..|]. apply num_leb_refl. by destruct (consumedModelTokens r).
Qed.

(** One call, seen from an active run [i]: the run stays active, and its step
    count grows by one exactly when the call is a step of [i] that returned. *)
Lemma call_effect c i s r :
  Inv s → runs s !! i = Some r → is_finish i c = false →
  let '(o, s') := call reading c s in
  (readings s <= readings s')%nat ∧
  ∃ r', runs s' !! i = Some r' ∧ later r r' ∧
    consumedSteps r' =
      if is_step i (c, match o with Ok _ => true | Throw _ => false end)
      then num_add (consumedSteps r) (num_of_Z 1) else consumedSteps r.
Proof.
  intros HI Hr Hnf. pose proof (later_refl r (HI _ _ Hr)) as Hrefl.
  enough (wp (call reading c)
    (λ _ s', (readings s <= readings s')%nat ∧ ∃ r', runs s' !! i = Some r' ∧ later r r' ∧
      consumedSteps r' = if is_step i (c, true)
        then num_add (consumedSteps r) (num_of_Z 1) else consumedSteps r)
    (λ _ s', (readings s <= readings s')%nat ∧ ∃ r', runs s' !! i = Some r' ∧ later r r' ∧
      consumedSteps r' = consumedSteps r) s) as H.
  { unfold wp in H. destruct (call reading c s) as [[[]|e] s']; [done|].
    destruct c; exact H. }
  destruct c as [wall tokens job|j n|j|j|j u|j]; cbn [call is_step]; cbn in Hnf.
  - unfold begin, validateLimit. wp_run; try by (split; [lia|exists r]). to_prop.
    apply wp_now. wp_run. cbn. split; [lia|]. exists r.
    rewrite lookup_insert_ne; [done|]. intros Heq. rewrite Heq, Hr in *. naive_solver.
  - unfold beforeStep. apply wp_bind, wp_active; [|by split; [|exists r]]. intros r0 Hr0.
    apply wp_bind, wp_assertWallClock; [|cbn; split; [lia|by exists r]]. intros _ _ _.
    wp_run; cbn; [split; [lia|by exists r]|]. to_prop. split; [lia|].
    destruct (decide (j = i)) as [->|Hne].
    + rewrite lookup_insert_eq, bool_decide_true by done. simplify_eq.
      eexists. split; [done|]. split; [|done]. by destruct Hrefl.
    + rewrite lookup_insert_ne, bool_decide_false by done. by exists r.
  - unfold discard, maximumOutputTokens.
    apply wp_bind, wp_bind, wp_active; [|by split; [|exists r]]. intros r0 Hr0.
    apply wp_bind, wp_assertWallClock; [|cbn; split; [lia|by exists r]]. intros _ _ _.
    wp_run; cbn; (split; [lia|by exists r]).
  - unfold discard, remainingWallClockMs, elapsed.
    apply wp_bind, wp_bind, wp_active; [|by split; [|exists r]].
    intros r0 Hr0. apply wp_bind, wp_bind, wp_now, wp_ret. wp_run; cbn; (split; [lia|by exists r]).
  - unfold consumeModelUsage. apply wp_bind, wp_active; [|by split; [|exists r]]. intros r0 Hr0.
    destruct (totalTokens u) as [n|] eqn:Hn; [|apply wp_throw; by split; [|exists r]].
    assert (∃ r', <[j := with_tokens (num_add (consumedModelTokens r0) n) r0]> (runs s) !! i = Some r'
              ∧ later r r' ∧ consumedSteps r' = consumedSteps r) as Heff.
    { destruct (decide (j = i)) as [->|Hne].
      - rewrite lookup_insert_eq. simplify_eq. eexists. split; [done|]. split; [|done].
        split; cbn; try done. apply totalTokens_some in Hn as (z & -> & Hz).
        destruct (rw_consumed _ (HI _ _ Hr)) as [Hd H0].
        apply num_add_ge; [done|done|]. rewrite num_leb_of_Z. apply Z.leb_le. lia.
      - rewrite lookup_insert_ne by done. by exists r. }
    wp_run; [by split|]. apply wp_assertWallClock; cbn; [intros _ _ _|]; (split; [lia|done]).
  - unfold finish. wp_run. cbn. apply bool_decide_eq_false in Hnf. split; [done|].
    exists r. by rewrite lookup_delete_ne.
Qed.

(** A whole run of calls: the steps of [i] that returned are counted exactly,
    and never exceed its maximum. *)
Lemma calls_effect l i s r max k :
  Inv s → runs s !! i = Some r → existsb (is_finish i) l = false →
  maximumSteps r = num_of_Z max → consumedSteps r = num_of_Z k →
  let '(log, s') := calls reading l s in
  Inv s' ∧ (readings s <= readings s')%nat ∧
  ∃ r' k', runs s' !! i = Some r' ∧ later r r' ∧
    consumedSteps r' = num_of_Z k' ∧ (k <= k' <= max)%Z ∧
    k' = (k + Z.of_nat (length (List.filter (is_step i) log)))%Z.
Proof.
  revert s r k. induction l as [|c l IH]; intros s r k HI Hr Hnf Hmax Hk; cbn [calls].
  { split; [done|]. split; [done|]. exists r, k. split; [done|].
    split; [by eapply later_refl, HI|]. split; [done|]. cbn.
    destruct (rw_steps _ (HI _ _ Hr)) as (max' & k' & Hm' & Hk' & ? & ?).
    rewrite Hm' in Hmax. rewrite Hk' in Hk. apply num_of_Z_inj in Hmax as ->.
    apply num_of_Z_inj in Hk as ->. lia. }
  cbn in Hnf. apply orb_false_iff in Hnf as [Hc Hl].
  pose proof (call_effect c i s r HI Hr Hc) as He. pose proof (call_inv reading c s HI) as HI1.
  unfold exec in HI1. destruct (call reading c s) as [o s1]. cbn in HI1.
  destruct He as (Hread & r1 & Hr1 & Hlater & Hsteps).
  assert (∃ k1, consumedSteps r1 = num_of_Z k1 ∧ k1 = (k + if is_step i
    (c, match o with Ok _ => true | Throw _ => false end) then 1 else 0)%Z) as (k1 & Hk1 & Hk1').
  { rewrite Hsteps, Hk. destruct (is_step _ _).
    - destruct (rw_steps _ (HI _ _ Hr)) as (max' & k' & Hm' & Hk' & ? & ?).
      rewrite Hk' in Hk. apply num_of_Z_inj in Hk as ->. exists (k + 1)%Z.
      split; [|done]. apply num_add_of_Z, safe_bound. lia.
    - exists k. split; [done|lia]. }
  specialize (IH s1 r1 k1 HI1 Hr1 Hl (eq_trans (lt_steps _ _ Hlater) Hmax) Hk1).
  destruct (calls reading l s1) as [log s2].
  destruct IH as (HI2 & Hread2 & r2 & k2 & Hr2 & Hlater2 & Hsteps2 & Hle & Hk2).
  split; [done|]. split; [lia|]. exists r2, k2. split; [done|]. split; [by etrans|].
  split; [done|]. cbn [List.filter]. destruct (is_step i _); cbn [length]; lia.
Qed.

(** Activation sets the counters. *)
Lemma begin_sets wall tokens job s s' :
  begin reading wall tokens job s = (Ok tt, s') →
  ∃ r max, runs s' !! runId job = Some r ∧ maximumSteps r = num_of_Z max ∧
    consumedSteps r = num_of_Z 0 ∧ startedAtMs r = reading (readings s) ∧
    match plan job with Some p => maximumSteps r = maximumStepsPerJob (budget p)
                   | None => max = 1%Z end.
Proof.
  intros Hb. enough (wp (begin reading wall tokens job) (λ _ s',
    ∃ r max, runs s' !! runId job = Some r ∧ maximumSteps r = num_of_Z max ∧
    consumedSteps r = num_of_Z 0 ∧ startedAtMs r = reading (readings s) ∧
    match plan job with Some p => maximumSteps r = maximumStepsPerJob (budget p)
                   | None => max = 1%Z end) (λ _ _, True) s) as H.
  { unfold wp in H. by rewrite Hb in H. }
  unfold begin, validateLimit. wp_run; try done. to_prop. apply wp_now. wp_run. cbn.
  rewrite lookup_insert_eq. apply validLimit_some in H0 as (max & Hmax & ?).
  eexists _, max. split; [done|]. cbn. split_and!; [done..|].
  destruct (plan job); cbn in *; [done|]. by apply num_of_Z_inj in Hmax.
Qed.
End effects.

(** ** Properties *)
Section properties.
Context (reading : nat → number).

(** The step budget.  From the activation of a run until it is finished,
    whatever calls are made for it and for other runs and wherever they throw,
    the steps of the run that [beforeStep] lets through never exceed the
    plan's [maximumStepsPerJob]; a job without a plan gets one step. *)
Theorem steps_bounded s wall tokens job s1 l :
  Inv s → begin reading wall tokens job s = (Ok tt, s1) →
  existsb (is_finish (runId job)) l = false →
  ∃ max, (match plan job with Some p => maximumStepsPerJob (budget p)
                         | None => num_of_Z 1 end) = num_of_Z max ∧
    (Z.of_nat (length (List.filter (is_step (runId job)) (calls reading l s1).1)) <= max)%Z.
Proof.
  intros HI Hb Hl. pose proof (call_inv reading (Begin wall tokens job) s HI) as HI1.
  unfold exec in HI1. cbn [call] in HI1. rewrite Hb in HI1. cbn in HI1.
  destruct (begin_sets reading _ _ _ _ _ Hb) as (r & max & Hr & Hmax & H0 & _ & Hsrc).
  pose proof (calls_effect reading l _ _ _ _ _ HI1 Hr Hl Hmax H0) as He.
  destruct (calls reading l s1) as [log s2]. cbn.
  destruct He as (_ & _ & r2 & k2 & _ & _ & _ & ? & ->). exists max. split; [|lia].
  destruct (plan job); [congruence|by rewrite Hsrc].
Qed.

(** Token exhaustion is final.  Once the tokens a run has consumed reach its
    maximum, no later request for model output succeeds before the run is
    finished, whatever is called in between. *)
Theorem token_exhaustion_final s i r l :
  Inv s → runs s !! i = Some r →
  num_leb (state_maximumModelTokens r) (consumedModelTokens r) = true →
  existsb (is_finish i) l = false →
  ∀ n s', maximumOutputTokens reading i (calls reading l s).2 ≠ (Ok n, s').
Proof.
  intros HI Hr Hfull Hl n s'.
  destruct (rw_steps _ (HI _ _ Hr)) as (max & k & Hmax & Hk & _).
  pose proof (calls_effect reading l _ _ _ _ _ HI Hr Hl Hmax Hk) as He.
  destruct (calls reading l s) as [log s2]. cbn. intros Hm.
  destruct He as (HI2 & _ & r2 & k2 & Hr2 & Hlater & _).
  enough (wp (maximumOutputTokens reading i) (λ _ _, False) (λ _ _, True) s2) as H.
  { unfold wp in H. by rewrite Hm in H. }
  unfold maximumOutputTokens. apply wp_bind, wp_active; [|done].
  intros r' Hr'. rewrite Hr2 in Hr'. injection Hr' as <-.
  apply wp_bind, wp_assertWallClock; [|done]. intros _ _ _. cbv zeta.
  pose proof (rw_tokens _ (HI2 _ _ Hr2)) as Hv. rewrite num_sub_nonpos; [by wp_run| |].
  - apply validLimit_some in Hv as (z & -> & _). done.
  - rewrite (lt_tokens _ _ Hlater).
    eapply num_leb_trans; [exact Hfull|]. apply Hlater.
Qed.

(** The deadline of an active run has passed at the next reading of the clock. *)
Definition expired (s : State) (r : RunBudgetState) : Prop :=
  num_leb (state_maximumWallClockMs r) (num_sub (reading (readings s)) (startedAtMs r)) = true.

(** The calls that name a run. *)
Definition addresses (i : string) (c : Call) : bool :=
  match c with
  | Begin _ _ job => bool_decide (runId job = i)
  | BeforeStep j _ | MaximumOutputTokens j | RemainingWallClockMs j | ConsumeModelUsage j _
  | Finish j => bool_decide (j = i)
  end.

Lemma expired_throws c i s r :
  Inv s → runs s !! i = Some r → is_finish i c = false → addresses i c = true →
  expired s r → ∃ e s', call reading c s = (Throw e, s').
Proof.
  intros HI Hr Hnf Ha He.
  enough (wp (call reading c) (λ _ _, False) (λ _ _, True) s) as H.
  { unfold wp in H. destruct (call reading c s) as [[[]|e] s']; [done|by exists e, s']. }
  destruct c as [wall tokens job|j n|j|j|j u|j]; cbn in Ha, Hnf; apply bool_decide_eq_true in Ha;
    subst; cbn [call].
  - unfold begin. wp_run; try done. rewrite Hr in *. to_prop. naive_solver.
  - unfold beforeStep. apply wp_bind, wp_active; [|done]. intros r' Hr'. simplify_eq.
    apply wp_bind, wp_assertWallClock; [|done]. unfold expired in He. cbv zeta. congruence.
  - unfold discard, maximumOutputTokens. apply wp_bind, wp_bind, wp_active; [|done].
    intros r' Hr'. simplify_eq.
    apply wp_bind, wp_assertWallClock; [|done]. unfold expired in He. cbv zeta. congruence.
  - unfold discard, remainingWallClockMs, elapsed. apply wp_bind, wp_bind, wp_active; [|done].
    intros r' Hr'. simplify_eq. apply wp_bind, wp_bind, wp_now, wp_ret. cbv zeta.
    pose proof (rw_clock _ (HI _ _ Hr)) as Hv. apply validLimit_some in Hv as (z & Hz & _).
    rewrite num_sub_nonpos; [|by rewrite Hz|exact He]. rewrite orb_true_r. by wp_run.
  - unfold consumeModelUsage. apply wp_bind, wp_active; [|done]. intros r' Hr'. simplify_eq.
    destruct (totalTokens u); [|done]. wp_run; [done|].
    apply wp_assertWallClock; [|done]. unfold expired in He. cbn in *. congruence.
  - by rewrite bool_decide_true in Hnf.
Qed.

(** The deadline.  With a clock that never runs backwards, once the wall
    clock of an active run has passed its maximum, every further call for that
    run throws until the run is finished: no step starts, no model output is
    granted, no usage is accepted and no time remains. *)
Theorem deadline_final s i r l :
  (∀ m n, (m <= n)%nat → num_leb (reading m) (reading n) = true) →
  Inv s → runs s !! i = Some r → is_finite (startedAtMs r) = true → expired s r →
  existsb (is_finish i) l = false →
  ∀ c b, (c, b) ∈ (calls reading l s).1 → addresses i c = true → b = false.
Proof.
  intros Hmono. revert s r. induction l as [|c l IH]; intros s r HI Hr Hs He Hl c' b;
    cbn [calls]; [intros Hin; by apply elem_of_nil in Hin|].
  cbn in Hl. apply orb_false_iff in Hl as [Hc Hl].
  pose proof (call_effect reading c i s r HI Hr Hc) as Heff.
  pose proof (call_inv reading c s HI) as HI1. unfold exec in HI1.
  pose proof (expired_throws c i s r HI Hr Hc) as Hthrow.
  destruct (call reading c s) as [o s1]. cbn in HI1.
  destruct Heff as (Hread & r1 & Hr1 & Hlater & _).
  assert (expired s1 r1) as He1.
  { unfold expired in *. rewrite (lt_clock _ _ Hlater), (lt_started _ _ Hlater).
    eapply num_leb_trans; [exact He|]. apply num_sub_mono; [done|]. by apply Hmono. }
  specialize (IH s1 r1 HI1 Hr1). rewrite (lt_started _ _ Hlater) in IH.
  specialize (IH Hs He1 Hl c' b). destruct (calls reading l s1) as [log s2]. cbn in *.
  intros Hin Ha. apply elem_of_cons in Hin as [[= -> ->]|Hin]; [|by apply IH].
  by destruct (Hthrow Ha He) as (e & s' & [= -> _]).
Qed.
End properties.

(** ** Witnesses: the budget of the sample job *)
Definition demo_reading (n : nat) : number := num_of_Z (Z.of_nat n * 25000).
Definition empty_state : State := {| runs := ∅; readings := 0 |}.
Definition demo_active : State :=
  exec (begin demo_reading (num_of_Z 1000) (num_of_Z 100) demo_job) empty_state.
Definition demo_run : string := runId demo_job.
Definition demo_calls : list Call :=
  [BeforeStep demo_run (num_of_Z 0); ConsumeModelUsage demo_run None;
   MaximumOutputTokens demo_run; BeforeStep demo_run (num_of_Z 1)].

Lemma empty_inv : Inv empty_state.
Proof. intros i r. cbn. by rewrite lookup_empty. Qed.

Lemma demo_active_inv : Inv demo_active.
Proof.
  exact (call_inv demo_reading (Begin (num_of_Z 1000) (num_of_Z 100) demo_job) _ empty_inv).
Qed.

Lemma steps_bounded_witness :
  ∃ max, maximumStepsPerJob (budget demo_plan) = num_of_Z max ∧
    (Z.of_nat (length (List.filter (is_step demo_run)
       (calls demo_reading demo_calls demo_active).1)) <= max)%Z.
Proof.
  apply (steps_bounded demo_reading empty_state (num_of_Z 1000) (num_of_Z 100) demo_job demo_active).
  - exact empty_inv.
  - vm_compute. reflexivity.
  - vm_compute. reflexivity.
Defined.

Lemma demo_reading_mono m n :
  (m <= n)%nat → num_leb (demo_reading m) (demo_reading n) = true.
Proof. intros H. unfold demo_reading. rewrite num_leb_of_Z. apply Z.leb_le. lia. Qed.

(** The demo run after its tokens are used up, and after its deadline. *)
Definition demo_usage : ModelUsage :=
  {| inputTokens := Some (num_of_Z 900); outputTokens := Some (num_of_Z 200); totalTokens_ := None |}.
Definition demo_spent : State :=
  exec (call demo_reading (ConsumeModelUsage demo_run (Some demo_usage))) demo_active.
Definition demo_late : State := (calls demo_reading demo_calls demo_active).2.
Definition record_of (tokens : Z) (steps : Z) : RunBudgetState :=
  {| maximumSteps := num_of_Z 3; state_maximumWallClockMs := num_of_Z 60000;
     state_maximumModelTokens := num_of_Z 1000; startedAtMs := demo_reading 0;
     consumedSteps := num_of_Z steps; consumedModelTokens := num_of_Z tokens |}.

Lemma calls_inv rd l s : Inv s → Inv (calls rd l s).2.
Proof.
  revert s. induction l as [|c l IH]; intros s HI; cbn [calls]; [done|].
  pose proof (call_inv rd c s HI) as H. unfold exec in H. destruct (call rd c s) as [o s1].
  specialize (IH s1 H). by destruct (calls rd l s1).
Qed.

Lemma token_exhaustion_final_witness :
  maximumOutputTokens demo_reading demo_run (calls demo_reading demo_calls demo_spent).2
    ≠ (Ok (num_of_Z 1), demo_spent).
Proof.
  apply (token_exhaustion_final demo_reading demo_spent demo_run (record_of 1100 0)).
  - exact (call_inv demo_reading (ConsumeModelUsage demo_run (Some demo_usage)) _ demo_active_inv).
  - vm_compute. reflexivity.
  - vm_compute. reflexivity.
  - vm_compute. reflexivity.
Defined.

Lemma deadline_final_witness :
  ∃ b, (BeforeStep demo_run (num_of_Z 1), b) ∈ (calls demo_reading demo_calls demo_late).1 ∧
    b = false.
Proof.
  assert ((BeforeStep demo_run (num_of_Z 1), false) ∈ (calls demo_reading demo_calls demo_late).1)
    as Hin.
  { vm_compute. do 3 right. left. }
  exists false. split; [exact Hin|].
  apply (deadline_final demo_reading demo_late demo_run (record_of 0 1) demo_calls)
    with (c := BeforeStep demo_run (num_of_Z 1)).
  - exact demo_reading_mono.
  - exact (calls_inv demo_reading demo_calls _ demo_active_inv).
  - vm_compute. reflexivity.
  - vm_compute. reflexivity.
  - vm_compute. reflexivity.
  - vm_compute. reflexivity.
  - exact Hin.
  - vm_compute. reflexivity.
Defined.

End ExecutionBudget.
