(* ===== verification/PolicyGate.v ===== *)
(** * The Runner's policy gate

    Models [packages/runner-kernel/src/deterministic-policy-gate.ts], with the
    resolved actions of [execution-runtime.ts] and of
    [packages/contracts/desktop/src/companion-ipc.ts].  [new URL] and SHA-256
    are parameters, as is the text of a number, which no digest contains. *)
From S2P Require Import Prelude Number Json IsoTime AppTarget RunnerProtocol CanonicalJson.

Module PolicyGate.
Import RunnerProtocol.

(** ** Actions *)
Inductive UiaPattern :=
  | Invoke | Value | Selection | SelectionItem | Scroll | ExpandCollapse | Toggle | Window.
Inductive DesktopActionResolution := semantic | uia | visual | coordinate.
Inductive WindowOperation := focus | minimize | restore | close.

#[export] Instance Resolution_eq_dec : EqDecision DesktopActionResolution.
Proof. solve_decision. Defined.
#[export] Instance WindowOperation_eq_dec : EqDecision WindowOperation.
Proof. solve_decision. Defined.

Record ResolvedDesktopActionBase := {
  actionId : string;
  desktop_graphId : string;
  desktop_nodeId : string;
  resolution : DesktopActionResolution;
  uiaPattern : option UiaPattern;
}.

Inductive DesktopKind :=
  | d_click
  | d_input (valueRef : string)
  | d_select (valueRef : string)
  | d_scroll (direction : Direction) (amount : Amount)
  | d_window (windowOperation : WindowOperation).

Record ElementTarget := { nodeId : string; selector : string }.

(** [LegacyWebClick] is a Web click without a [targetKind]. *)
Inductive ResolvedAction :=
  | WebNavigate (url : string)
  | WebClick (target : ElementTarget) (graphId : string)
  | WebInput (target : ElementTarget) (graphId valueRef : string)
  | WebSelect (target : ElementTarget) (graphId valueRef : string)
  | WebScroll (graphId : string) (target : option ElementTarget)
      (direction : Direction) (amount : Amount)
  | LegacyWebClick (target : ElementTarget) (graphId : string)
  | DesktopAction (base : ResolvedDesktopActionBase) (kind : DesktopKind).

Definition isDesktopAction (action : ResolvedAction) : bool :=
  match action with DesktopAction _ _ => true | _ => false end.

Definition resolvedActionNodeId (action : ResolvedAction) : option string :=
  match action with
  | DesktopAction base _ => Some (desktop_nodeId base)
  | WebNavigate _ => None
  | WebClick t _ | WebInput t _ _ | WebSelect t _ _ | LegacyWebClick t _ => Some (nodeId t)
  | WebScroll _ t _ _ => nodeId <$> t
  end.

(** [action.kind]. *)
Definition kind_of (action : ResolvedAction) : ExecutionPolicyActionKind :=
  match action with
  | WebNavigate _ => k_navigate
  | WebClick _ _ | LegacyWebClick _ _ => k_click
  | WebInput _ _ _ => k_input
  | WebSelect _ _ _ => k_select
  | WebScroll _ _ _ _ => k_scroll
  | DesktopAction _ d =>
      match d with
      | d_click => k_click | d_input _ => k_input | d_select _ => k_select
      | d_scroll _ _ => k_scroll | d_window _ => k_window
      end
  end.

(** [classifyDesktopActionRisk]. *)
Definition classifyDesktopActionRisk (kind : DesktopKind) : ExecutionPolicyRisk :=
  match kind with
  | d_click | d_scroll _ _ => Normal
  | d_input _ | d_select _ => ExternalSideEffect
  | d_window o => if bool_decide (o = close) then Destructive else Normal
  end.

Definition riskFor (action : ResolvedAction) : ExecutionPolicyRisk :=
  if bool_decide (kind_of action = k_input) || bool_decide (kind_of action = k_select)
  then ExternalSideEffect
  else match action with
       | DesktopAction _ (d_window o) => if bool_decide (o = close) then Destructive else Normal
       | _ => Normal
       end.

Definition isFallback (action : ResolvedAction) : bool :=
  match action with
  | DesktopAction base _ =>
      bool_decide (resolution base = coordinate) || bool_decide (resolution base = visual)
  | _ => false
  end.

(** The position of a risk in [RISK_ORDER]. *)
Definition rank (risk : ExecutionPolicyRisk) : Z :=
  match risk with
  | Normal => 0 | ExternalSideEffect => 1 | Destructive => 2 | ProductionForbidden => 3
  end.

(** ** Decisions *)
Record ExecutionPermitDescriptor := {
  decisionId : string;
  descriptor_policyId : string;
  actionDigestSha256 : string;
  descriptor_risk : ExecutionPolicyRisk;
  descriptor_expiresAt : string;
}.

Inductive PolicyDecision :=
  | allowed (reason : string) (descriptor : option ExecutionPermitDescriptor)
  | denied (reason : string).

(** ** The action digest *)
Record RunnerPolicyActionDigestInput := {
  digest_runId : string;
  digest_action : ResolvedAction;
  digest_decisionId : string;
  digest_policyId : string;
  digest_risk : string;
  digest_expiresAt : string;
}.

Definition pattern_name (p : UiaPattern) : string :=
  match p with
  | Invoke => "Invoke" | Value => "Value" | Selection => "Selection"
  | SelectionItem => "SelectionItem" | Scroll => "Scroll" | ExpandCollapse => "ExpandCollapse"
  | Toggle => "Toggle" | Window => "Window"
  end.
Definition resolution_name (r : DesktopActionResolution) : string :=
  match r with
  | semantic => "semantic" | uia => "uia" | visual => "visual" | coordinate => "coordinate"
  end.
Definition operation_name (o : WindowOperation) : string :=
  match o with
  | focus => "focus" | minimize => "minimize" | restore => "restore" | close => "close"
  end.

Definition encode_element (t : ElementTarget) : json :=
  JObj [("nodeId", JStr (nodeId t)); ("selector", JStr (selector t))].

Definition web (kind : string) (rest : list (string * json)) : json :=
  JObj (("targetKind", JStr "web") :: ("kind", JStr kind) :: rest).

(** The properties of an action object; an [undefined] property is dropped by
    the canonical form. *)
Definition encode_action (action : ResolvedAction) : json :=
  match action with
  | WebNavigate url => web "navigate" [("url", JStr url)]
  | WebClick t g => web "click" [("target", encode_element t); ("graphId", JStr g)]
  | WebInput t g v =>
      web "input" [("target", encode_element t); ("graphId", JStr g); ("valueRef", JStr v)]
  | WebSelect t g v =>
      web "select" [("target", encode_element t); ("graphId", JStr g); ("valueRef", JStr v)]
  | WebScroll g t d a =>
      web "scroll" (("graphId", JStr g) :: ("direction", JStr (direction_name d)) ::
                    ("amount", JStr (amount_name a)) :: opt_field "target" encode_element t)
  | LegacyWebClick t g =>
      JObj [("kind", JStr "click"); ("target", encode_element t); ("graphId", JStr g)]
  | DesktopAction b k =>
      JObj (("targetKind", JStr "desktop") :: ("actionId", JStr (actionId b)) ::
            ("graphId", JStr (desktop_graphId b)) :: ("nodeId", JStr (desktop_nodeId b)) ::
            ("resolution", JStr (resolution_name (resolution b))) ::
            opt_field "uiaPattern" (λ p, JStr (pattern_name p)) (uiaPattern b) ++
            match k with
            | d_click => [("kind", JStr "click")]
            | d_input v => [("kind", JStr "input"); ("valueRef", JStr v)]
            | d_select v => [("kind", JStr "select"); ("valueRef", JStr v)]
            | d_scroll d a => [("kind", JStr "scroll"); ("direction", JStr (direction_name d));
                               ("amount", JStr (amount_name a))]
            | d_window o => [("kind", JStr "window"); ("windowOperation", JStr (operation_name o))]
            end)
  end.

Definition encode_digest_input (input : RunnerPolicyActionDigestInput) : json :=
  JObj [("schema", JStr "qualigence-runner-policy-action-digest/v1");
        ("runId", JStr (digest_runId input)); ("action", encode_action (digest_action input));
        ("decisionId", JStr (digest_decisionId input));
        ("policyId", JStr (digest_policyId input)); ("risk", JStr (digest_risk input));
        ("expiresAt", JStr (digest_expiresAt input))].

Section gate.
Context (parse_url : string → option Url) (number_text : number → string) (sha256 : string → string).

Definition runnerPolicyActionDigestSha256 (input : RunnerPolicyActionDigestInput) : string :=
  sha256 (CanonicalJson.canonicalize number_text (encode_digest_input input)).

Definition originOf (job : AcceptedExecutionJob) : string :=
  match target job with
  | WebTargetRef url => match parse_url url with Some u => origin u | None => EmptyString end
  | DesktopTargetRef _ => EmptyString
  end.

Definition decision_id (job : AcceptedExecutionJob) (id : string) : string :=
  "decision:" +:+ runId job +:+ ":" +:+ id.

(** [authorize(action, { job })] of a gate holding [policy], at [now]. *)
Definition authorize (policy : ExecutionPolicySnapshot) (now : number) (action : ResolvedAction)
    (job : AcceptedExecutionJob) : PolicyDecision :=
  match parseExecutionPolicySnapshot parse_url (Some (encode_policy policy)) with
  | Throw _ => denied "PolicyMalformed"
  | Ok _ =>
    match parse_iso (expiresAt policy) with
    | None => denied "PolicyMalformed"
    | Some expires =>
      if num_leb (num_of_Z expires) now then denied "PolicyExpired"
      else if match target job with
              | WebTargetRef _ => negb (includes (allowedOrigins policy) (originOf job))
              | DesktopTargetRef _ => false
              end then denied "TargetOriginDenied"
      else if bool_decide (environment policy = production) && explorationAllowed policy
      then denied "ProductionExplorationDenied"
      else if negb (includes (allowedActionKinds policy) (kind_of action))
      then denied "ActionKindDenied"
      else
        let risk := riskFor action in
        if bool_decide (maximumRisk policy = ProductionForbidden) ||
           bool_decide (risk = ProductionForbidden) || (rank (maximumRisk policy) <? rank risk)%Z
        then denied "RiskDenied"
        else if isFallback action then denied "FallbackDenied"
        else if bool_decide (environment policy = staging) &&
                (negb (bool_decide (kind_of action = k_click)) || negb (bool_decide (risk = Normal)))
        then denied "StagingPolicyDenied"
        else
          match action with
          | DesktopAction base _ =>
              let decision := decision_id job (actionId base) in
              allowed "PolicyAllowed" (Some
                {| decisionId := decision; descriptor_policyId := policyId policy;
                   actionDigestSha256 := runnerPolicyActionDigestSha256
                     {| digest_runId := runId job; digest_action := action;
                        digest_decisionId := decision; digest_policyId := policyId policy;
                        digest_risk := risk_name risk; digest_expiresAt := expiresAt policy |};
                   descriptor_risk := risk; descriptor_expiresAt := expiresAt policy |})
          | _ => allowed "PolicyAllowed" None
          end
    end
  end.

(** ** Admission of a job *)
Inductive DenialCode := PolicyMissing | PolicyDenied.
Inductive TargetAdmission :=
  | Accepted (policy : ExecutionPolicySnapshot)
  | Refused (code : DenialCode) (message : string).

(** [DeterministicRunnerPolicyGate.admitJob(job)]: the policy of the gate. *)
Definition admitJob (now : number) (job : option json) : TargetAdmission :=
  match parseExecutionJob parse_url job with
  | Throw ExecutionPlanPolicyError => Refused PolicyDenied "PlanActionDenied"
  | Throw _ => Refused PolicyMissing "execution Job policy is required"
  | Ok accepted =>
    let policy := policy accepted in
    if match parse_iso (expiresAt policy) with
       | Some expires => num_leb (num_of_Z expires) now
       | None => false
       end then Refused PolicyDenied "PolicyExpired"
    else
      let checked :=
        match target accepted with
        | WebTargetRef url =>
            match parse_url url with
            | None => Some "TargetInvalid"
            | Some u =>
                if (negb (String.eqb (protocol u) "http:") && negb (String.eqb (protocol u) "https:"))
                   || negb (includes (allowedOrigins policy) (origin u))
                then Some "TargetOriginDenied" else None
            end
        | DesktopTargetRef _ => None
        end in
      match checked with
      | Some message => Refused PolicyDenied message
      | None => if plan_denied policy (plan accepted) then Refused PolicyDenied "PlanActionDenied"
                else Accepted policy
      end
  end.
End gate.

(** ** What the gate lets through *)
Section permitted.
Context (parse_url : string → option Url).

(** The declarative rule: a live, well-formed policy names the origin of the
    job's target and the kind of the action, the risk of the action is within
    the policy's maximum, and a Desktop action is resolved semantically. *)
Record permitted (p : ExecutionPolicySnapshot) (now : number) (action : ResolvedAction)
    (job : AcceptedExecutionJob) : Prop := {
  per_wf : policy_wf parse_url p;
  per_live : ∃ e, parse_iso (expiresAt p) = Some e ∧ num_leb (num_of_Z e) now = false;
  per_origin : ∀ url, target job = WebTargetRef url → originOf parse_url job ∈ allowedOrigins p;
  per_exploration : environment p = production → explorationAllowed p = false;
  per_kind : kind_of action ∈ allowedActionKinds p;
  per_maximum : maximumRisk p ≠ ProductionForbidden;
  per_risk : (rank (riskFor action) <= rank (maximumRisk p))%Z;
  per_semantic : isFallback action = false;
}.

Lemma riskFor_not_forbidden a : riskFor a ≠ ProductionForbidden.
Proof. unfold riskFor. repeat case_bool_decide; repeat case_match; try done. Qed.

Lemma riskFor_desktop b k : riskFor (DesktopAction b k) = classifyDesktopActionRisk k.
Proof. by destruct k. Qed.

(** Each field parser returns the very value it accepts. *)
Lemma nonEmptyString_same s x : nonEmptyString (Some (JStr s)) = Ok x → x = s.
Proof. unfold nonEmptyString, fail. intros. by inv_parse. Qed.

Lemma isoInstant_same s x : isoInstant (Some (JStr s)) = Ok x → x = s.
Proof.
  unfold isoInstant, fail. intros H. apply bind_Ok in H as (s' & Hs & H).
  apply nonEmptyString_same in Hs as ->. by inv_parse.
Qed.

Lemma stringTuple_same l x : stringTuple (Some (encode_strings l)) = Ok x → x = l.
Proof.
  unfold stringTuple. intros H. apply bind_Ok in H as (raw & Hraw & H).
  unfold encode_strings in Hraw.
  assert (raw = JStr <$> l) as -> by (destruct l; cbn in Hraw; unfold fail in Hraw; by simplify_eq).
  clear Hraw. revert x H. induction l as [|s l IH]; cbn; intros x H; [by injection H as <-|].
  apply bind_Ok in H as (s' & Hs & H). apply bind_Ok in H as (x' & Hx & [= <-]).
  apply (nonEmptyString_same s) in Hs as ->. by rewrite (IH _ Hx).
Qed.

Lemma parse_policy_same p q :
  parseExecutionPolicySnapshot parse_url (Some (encode_policy p)) = Ok q → q = p.
Proof.
  unfold parseExecutionPolicySnapshot, encode_policy. cbn [record mbind outcome_bind].
  cbn [get_field String.eqb Ascii.eqb Bool.eqb].
  rewrite enum_environment, enum_risk. cbn [mbind outcome_bind]. intros H.
  apply bind_Ok in H as (i & Hi & H). apply bind_Ok in H as (raw & Hraw & H).
  apply bind_Ok in H as (os & Hos & H). apply bind_Ok in H as (ks & Hks & H).
  apply bind_Ok in H as (a & Ha & H). apply bind_Ok in H as (b & Hb & H).
  apply nonEmptyString_same in Hi as ->. apply stringTuple_same in Hraw as ->.
  apply parseOrigins_Ok in Hos as [-> _].
  apply isoInstant_same in Ha as ->. apply isoInstant_same in Hb as ->.
  destruct (decide (allowedActionKinds p = [])) as [Hnil|Hnil].
  { by rewrite Hnil in Hks. }
  rewrite enumArray_kinds in Hks by done. injection Hks as <-. inv_parse. by destruct p.
Qed.

(** A policy is well formed exactly when it parses. *)
Lemma policy_parses p :
  match parseExecutionPolicySnapshot parse_url (Some (encode_policy p)) with
  | Ok _ => policy_wf parse_url p
  | Throw _ => ¬ policy_wf parse_url p
  end.
Proof.
  destruct (parseExecutionPolicySnapshot _ _) as [q|e] eqn:H.
  - pose proof (parse_policy_same _ _ H) as ->. by eapply parseExecutionPolicySnapshot_Ok.
  - intros Hwf. by rewrite parseExecutionPolicySnapshot_encode in H.
Qed.

Lemma staging_harmless p now a job :
  permitted p now a job → environment p = staging →
  kind_of a = k_click ∧ riskFor a = Normal.
Proof.
  intros [] He. pose proof (pol_staging _ _ per_wf0 He) as Hs. unfold staging_ok in Hs. to_prop.
  rewrite H in per_kind0. apply list_elem_of_singleton in per_kind0. split; [done|].
  rewrite H1 in per_risk0. by destruct (riskFor a); cbn in per_risk0; try lia.
Qed.
End permitted.

(** ** Properties *)
Section properties.
Context (parse_url : string → option Url) (number_text : number → string) (sha256 : string → string).
Notation authorize := (authorize parse_url number_text sha256).

(** The decision rule.  An action is allowed exactly when it is [permitted];
    every other action is denied.  In particular the staging check of
    [authorize] never decides: a well-formed staging policy only permits
    harmless clicks. *)
Theorem authorize_decides p now a job :
  match authorize p now a job with
  | allowed reason _ => reason = "PolicyAllowed" ∧ permitted parse_url p now a job ∧
      (environment p = staging → kind_of a = k_click ∧ riskFor a = Normal)
  | denied reason => ¬ permitted parse_url p now a job ∧ reason ≠ "StagingPolicyDenied"
  end.
Proof.
  unfold PolicyGate.authorize. pose proof (policy_parses parse_url p) as Hp.
  destruct (parseExecutionPolicySnapshot _ _) as [q|e];
    [|split; [by intros []|done]].
  destruct (parse_iso (expiresAt p)) as [e|] eqn:He;
    [|split; [intros []; destruct per_live0 as (? & ? & ?); congruence|done]].
  destruct (num_leb (num_of_Z e) now) eqn:Hlive;
    [split; [intros []; destruct per_live0 as (? & ? & ?); congruence|done]|].
  destruct (match target job with WebTargetRef _ => _ | DesktopTargetRef _ => _ end) eqn:Horigin.
  { split; [|done]. intros []. destruct (target job) as [url|]; [|done].
    unfold includes in Horigin. to_prop. by apply Horigin, (per_origin0 url). }
  destruct (bool_decide (environment p = production) && explorationAllowed p) eqn:Hexp.
  { split; [|done]. intros []. apply andb_true_iff in Hexp as [Hprod Hexp].
    to_prop. by rewrite per_exploration0 in Hexp. }
  destruct (negb (includes (allowedActionKinds p) (kind_of a))) eqn:Hkind.
  { split; [|done]. intros []. unfold includes in Hkind. by to_prop. }
  cbv zeta.
  destruct (_ || _ || _)%bool eqn:Hrisk.
  { split; [|done]. intros []. clear Hexp Horigin. to_prop; [done| |lia].
    by apply riskFor_not_forbidden in H. }
  destruct (isFallback a) eqn:Hfall; [split; [intros []; congruence|done]|].
  assert (permitted parse_url p now a job) as Hper.
  { unfold includes in Hkind. apply negb_false_iff, bool_decide_eq_true in Hkind.
    apply orb_false_iff in Hrisk as [[Hmax _]%orb_false_iff Hle].
    apply bool_decide_eq_false in Hmax. apply Z.ltb_ge in Hle. split; try done.
    - by exists e.
    - intros url Hurl. rewrite Hurl in Horigin. unfold includes in Horigin. by to_prop.
    - intros Hprod. by rewrite Hprod in Hexp. }
  pose proof (staging_harmless _ _ _ _ _ Hper) as Hst.
  destruct (bool_decide (environment p = staging) && _) eqn:Hdead.
  { apply andb_true_iff in Hdead as [Hs Hdead]. apply bool_decide_eq_true in Hs.
    destruct (Hst Hs) as [E1 E2]. by rewrite !bool_decide_true in Hdead. }
  destruct a; by split_and!.
Qed.

(** Admission.  A job that the gate admits is a well-formed job whose policy
    is live and names the origin of its Web target; the gate holds that job's
    own policy, and for that job it never again finds the policy malformed or
    the target denied, nor denies the kind of an action that carries out an
    indexed step of the plan. *)
Theorem admitted_gate_coherent now v p :
  admitJob parse_url now v = Accepted p →
  ∃ job, parseExecutionJob parse_url v = Ok job ∧ p = policy job ∧ job_wf parse_url job ∧
    (∃ e, parse_iso (expiresAt p) = Some e ∧ num_leb (num_of_Z e) now = false) ∧
    (∀ url, target job = WebTargetRef url → originOf parse_url job ∈ allowedOrigins p) ∧
    (∀ now' a r, authorize p now' a job = denied r →
       r ≠ "PolicyMalformed" ∧ r ≠ "TargetOriginDenied" ∧
       (r = "ActionKindDenied" → ∀ pl st, plan job = Some pl → st ∈ steps pl →
          is_Some (stepIndex st) → action_kind (kind st) ≠ Some (kind_of a))).
Proof.
  unfold admitJob. destruct (parseExecutionJob parse_url v) as [job|[]] eqn:Hjob; try done.
  pose proof (parseExecutionJob_Ok _ _ _ Hjob) as Hwf.
  pose proof (jw_policy _ _ Hwf) as Hpol.
  destruct (pol_expires _ _ Hpol) as [_ Hiso]. unfold iso_instant_ok in Hiso.
  destruct (parse_iso (expiresAt (policy job))) as [e|] eqn:He; [|done].
  destruct (num_leb (num_of_Z e) now) eqn:Hlive; [done|]. cbv zeta.
  intros H. assert (p = policy job ∧
    ∀ url, target job = WebTargetRef url → originOf parse_url job ∈ allowedOrigins p) as [-> Horg].
  { unfold originOf. destruct (target job) as [url|app].
    - destruct (parse_url url) as [u|]; [|done].
      destruct (_ || _) eqn:Hor; [done|]. apply orb_false_iff in Hor as [_ Hor].
      unfold includes in Hor. to_prop. destruct (plan_denied _ _); [done|].
      injection H as <-. split; [done|]. done.
    - destruct (plan_denied _ _); [done|]. by injection H as <-. }
  clear H. exists job. split_and!; [done|done|done|by exists e|done|].
  intros now' a r. unfold PolicyGate.authorize. pose proof (policy_parses parse_url (policy job)) as Hp.
  destruct (parseExecutionPolicySnapshot _ _) as [q|e']; [|done]. rewrite He.
  destruct (num_leb (num_of_Z e) now'); [intros [= <-]; done|].
  destruct (match target job with WebTargetRef _ => _ | DesktopTargetRef _ => _ end) eqn:Ho.
  { destruct (target job) as [url|]; [|done]. unfold includes in Ho.
    apply negb_true_iff, bool_decide_eq_false in Ho. by destruct Ho; apply (Horg url). }
  destruct (bool_decide (environment (policy job) = production) && _); [intros [= <-]; done|].
  destruct (negb (includes (allowedActionKinds (policy job)) (kind_of a))) eqn:Hkind.
  { intros [= <-]. split_and!; [done|done|]. intros _ pl st Hpl Hst Hi Hk.
    pose proof (jw_allowed _ _ Hwf) as Hden. unfold plan_denied in Hden. rewrite Hpl in Hden.
    apply not_true_iff_false in Hden. apply Hden, existsb_exists. exists st.
    split; [by apply list_elem_of_In|]. unfold step_denied.
    by rewrite Hk, (bool_decide_true (is_Some _)) by done. }
  cbv zeta.
  destruct (bool_decide (maximumRisk (policy job) = _) || _ || _); [intros [= <-]; done|].
  destruct (isFallback a); [intros [= <-]; done|].
  destruct (bool_decide (environment (policy job) = staging) && _); [intros [= <-]; done|].
  by destruct a.
Qed.

End properties.

(** ** The digest determines what it was taken of *)
#[local] Instance pattern_name_inj : Inj (=) (=) pattern_name.
Proof. by intros [] []. Qed.
#[local] Instance resolution_name_inj : Inj (=) (=) resolution_name.
Proof. by intros [] []. Qed.
#[local] Instance operation_name_inj : Inj (=) (=) operation_name.
Proof. by intros [] []. Qed.
#[local] Instance direction_name_inj : Inj (=) (=) direction_name.
Proof. by intros [] []. Qed.
#[local] Instance amount_name_inj : Inj (=) (=) amount_name.
Proof. by intros [] []. Qed.
#[local] Instance risk_name_inj : Inj (=) (=) risk_name.
Proof. by intros [] []. Qed.

#[local] Arguments encode_element : simpl never.

Lemma action_inj a b :
  CanonicalJson.normalize (encode_action a) = CanonicalJson.normalize (encode_action b) → a = b.
Proof.
  destruct a as [u|[n s] g|[n s] g v|[n s] g v|g t d m|[n s] g|[ai ag an ar ap] k],
           b as [u'|[n' s'] g'|[n' s'] g' v'|[n' s'] g' v'|g' t' d' m'|[n' s'] g'|[ai' ag' an' ar' ap'] k'];
    intros H; pose proof (λ k, CanonicalJson.get_field_normalize k _ _ H) as Hf; clear H;
    CanonicalJson.fields Hf ["targetKind"; "kind"]; try discriminate; clear F F0.
  - CanonicalJson.fields Hf ["url"]. CanonicalJson.same_fields.
  - CanonicalJson.fields Hf ["target"; "graphId"]. CanonicalJson.same_fields.
  - CanonicalJson.fields Hf ["target"; "graphId"; "valueRef"]. CanonicalJson.same_fields.
  - CanonicalJson.fields Hf ["target"; "graphId"; "valueRef"]. CanonicalJson.same_fields.
  - destruct t as [[n s]|], t' as [[n' s']|];
      CanonicalJson.fields Hf ["target"; "graphId"; "direction"; "amount"]; try discriminate; CanonicalJson.same_fields.
  - CanonicalJson.fields Hf ["target"; "graphId"]. CanonicalJson.same_fields.
  - assert (ap = ap') as ->.
    { destruct ap, ap', k, k'; CanonicalJson.fields Hf ["uiaPattern"]; try discriminate; CanonicalJson.same_fields. }
    assert (k = k') as ->.
    { destruct ap', k, k'; CanonicalJson.fields Hf ["kind"; "valueRef"; "direction"; "amount"; "windowOperation"];
        try discriminate; CanonicalJson.same_fields. }
    CanonicalJson.fields Hf ["actionId"; "graphId"; "nodeId"; "resolution"]. CanonicalJson.same_fields.
Qed.

Lemma digest_input_inj i j :
  CanonicalJson.normalize (encode_digest_input i) = CanonicalJson.normalize (encode_digest_input j) →
  i = j.
Proof.
  intros H. pose proof (λ k, CanonicalJson.get_field_normalize k _ _ H) as Hf. clear H.
  pose proof (Hf "action") as Ha. cbn [get_field String.eqb Ascii.eqb Bool.eqb] in Ha.
  injection Ha as Ha. apply action_inj in Ha.
  CanonicalJson.fields Hf ["runId"; "decisionId"; "policyId"; "risk"; "expiresAt"].
  destruct i, j; cbn in *. CanonicalJson.same_fields.
Qed.

Lemma numberless_digest_input i : CanonicalJson.numberless (encode_digest_input i) = true.
Proof.
  destruct i as [r [u|t g|t g v|t g v|g [t|] d m|t g|[ai ag an ar [ap|]] []] d0 p ri e]; reflexivity.
Qed.

(** A permit is bound to its action.  Two allowed decisions whose permits
    carry the same action digest were taken for the same run, action, policy,
    risk and expiry, unless they exhibit a collision of SHA-256. *)
Theorem permit_binds_action parse_url number_text sha256 p p' now now' a a' job job' r r' d d' :
  authorize parse_url number_text sha256 p now a job = allowed r (Some d) →
  authorize parse_url number_text sha256 p' now' a' job' = allowed r' (Some d') →
  actionDigestSha256 d = actionDigestSha256 d' →
  (a = a' ∧ runId job = runId job' ∧ policyId p = policyId p' ∧ expiresAt p = expiresAt p' ∧ d = d') ∨
  (∃ x y, x ≠ y ∧ sha256 x = sha256 y).
Proof.
  assert (∀ p now a job r d, authorize parse_url number_text sha256 p now a job = allowed r (Some d) →
    ∃ i, actionDigestSha256 d = runnerPolicyActionDigestSha256 number_text sha256 i ∧
      digest_runId i = runId job ∧ digest_action i = a ∧ digest_decisionId i = decisionId d ∧
      digest_policyId i = policyId p ∧ digest_risk i = risk_name (descriptor_risk d) ∧
      digest_expiresAt i = expiresAt p ∧
      descriptor_policyId d = policyId p ∧ descriptor_expiresAt d = expiresAt p) as Hinv.
  { clear. intros p now a job r d. unfold authorize.
    destruct (parseExecutionPolicySnapshot _ _); [|done]. destruct (parse_iso _); [|done].
    repeat lazymatch goal with |- (if ?b then _ else _) = _ → _ => destruct b; [done|] end.
    cbv zeta.
    repeat lazymatch goal with |- (if ?b then _ else _) = _ → _ => destruct b; [done|] end.
    destruct a; try done. intros [= <- <-]. by eexists. }
  intros H H' Hd. apply Hinv in H as (i & Hi & ? & ? & ? & ? & ? & ? & ? & ?).
  apply Hinv in H' as (j & Hj & ? & ? & ? & ? & ? & ? & ? & ?).
  rewrite Hi, Hj in Hd. unfold runnerPolicyActionDigestSha256 in Hd.
  set (ti := CanonicalJson.canonicalize _ (encode_digest_input i)) in *.
  set (tj := CanonicalJson.canonicalize _ (encode_digest_input j)) in *.
  destruct (decide (ti = tj)) as [Ht|Ht]; [left|right; by exists ti, tj].
  apply CanonicalJson.canonicalize_inj in Ht; [|apply numberless_digest_input..].
  apply digest_input_inj in Ht as ->. destruct d as [d1 d2 d3 d4 d5], d' as [e1 e2 e3 e4 e5]. cbn in *.
  assert (d4 = e4) as -> by (apply (inj risk_name); congruence).
  split_and!; congruence.
Qed.

(** ** Witnesses *)
Definition demo_now : number := num_of_Z 1704100000000.
Definition demo_base : ResolvedDesktopActionBase :=
  {| actionId := "action"; desktop_graphId := "graph"; desktop_nodeId := "node";
     resolution := uia; uiaPattern := Some Invoke |}.
Definition demo_action : ResolvedAction := DesktopAction demo_base d_click.
Definition demo_digits (n : number) : string := "0".
Definition demo_sha256 (text : string) : string := text.

Lemma admitted_gate_coherent_witness :
  admitJob demo_url demo_now (Some (encode_job demo_job)) = Accepted demo_policy ∧
  ∃ job, parseExecutionJob demo_url (Some (encode_job demo_job)) = Ok job ∧ demo_policy = policy job.
Proof.
  assert (admitJob demo_url demo_now (Some (encode_job demo_job)) = Accepted demo_policy) as H
    by (vm_compute; reflexivity).
  split; [exact H|].
  destruct (admitted_gate_coherent demo_url demo_digits demo_sha256 _ _ _ H)
    as (job & Hjob & Hpol & _).
  exists job. split; [exact Hjob|exact Hpol].
Defined.

Lemma permit_binds_action_witness :
  ∃ r d, authorize demo_url demo_digits demo_sha256 demo_policy demo_now demo_action demo_job
           = allowed r (Some d) ∧
    ((demo_action = demo_action ∧ runId demo_job = runId demo_job ∧
      policyId demo_policy = policyId demo_policy ∧ expiresAt demo_policy = expiresAt demo_policy ∧
      d = d) ∨ ∃ x y, x ≠ y ∧ demo_sha256 x = demo_sha256 y).
Proof.
  eexists _, _. split; [vm_compute; reflexivity|].
  eapply (permit_binds_action demo_url demo_digits demo_sha256 demo_policy demo_policy
            demo_now demo_now demo_action demo_action demo_job demo_job).
  - vm_compute. reflexivity.
  - vm_compute. reflexivity.
  - reflexivity.
Defined.

End PolicyGate.
