(* ===== verification/ExecutionRuntime.v ===== *)
(** * The Runner's execution runtime

    Models [packages/runner-kernel/src/execution-runtime.ts]: the loop that
    observes, decides, resolves, authorizes, executes and verifies the steps of
    a job, records each stage, and ends with one terminal event.  The observer,
    the decision provider, the resolver, the gate, the executor, the verifier
    and the trace recorder are injected: they are the parameter [dependencies],
    over a world [W] they may change.  An awaited operation is a race with the
    deadline and the abort signals; what happens while it is awaited is part of
    its answer, so every interleaving with the other users of the budget is an
    instance. *)
From S2P Require Import Prelude Number AppTarget RunnerProtocol ExecutionBudget PolicyGate.

Module ExecutionRuntime.
Import RunnerProtocol PolicyGate.

(** ** Data *)
Inductive ProposedAction :=
  | p_navigate (path reason : string)
  | p_click (nodeId reason : string)
  | p_input (nodeId valueRef reason : string)
  | p_select (nodeId valueRef reason : string)
  | p_scroll (nodeId : option string) (direction : Direction) (amount : Amount) (reason : string)
  | p_window (nodeId : string) (operation : WindowOperation) (reason : string).

Definition proposed_kind (d : ProposedAction) : ExecutionPolicyActionKind :=
  match d with
  | p_navigate _ _ => k_navigate | p_click _ _ => k_click | p_input _ _ _ => k_input
  | p_select _ _ _ => k_select | p_scroll _ _ _ _ => k_scroll | p_window _ _ _ => k_window
  end.

(** [{ status: "ok" }] and [{ status: "failed", errorCode }]. *)
Record ActionOutcome := { ok : bool; errorCode : option string }.

Inductive Severity := low | medium | high.
Record VerificationEvidenceValue := { ev_graphId : string; ev_nodeId : string; ev_text : string }.
Record VerificationClaim := {
  expected : VerificationEvidenceValue;
  observed : VerificationEvidenceValue;
}.
Inductive VerificationResult :=
  | v_passed (summary : string)
  | v_failed (summary : string) (severitySuggestion : Severity) (claims : list VerificationClaim).

Record FindingEnvelope := {
  findingId : string;
  finding_runId : string;
  title : string;
  finding_summary : string;
  severity : Severity;
  finding_evidenceRefs : list string;
}.

Inductive CompletionStatus :=
  | passed
  | finding (f : FindingEnvelope)
  | blocked (errorCode : option string)
  | error (errorCode : string).
Record ExecutionCompletion := {
  completion_jobId : string;
  completion_runId : string;
  status : CompletionStatus;
}.

(** The errors the runtime distinguishes; [OtherError] is any other. *)
Inductive Err :=
  | ExecutionTargetError (errorCode : string) (fatal : bool)
  | ExecutionBlockedError (errorCode : string)
  | BudgetError (e : ExecutionBudget.ExecutionBudgetError)
  | ActionOutcomeUnknownError
  | TerminalTracePersistenceError (cause : string)
  | OtherError (message : string).

Record ActionDispatchSnapshot := { crossOriginNavigationCount : number }.

(** The state of an [ExecutionPermit]. *)
Record ExecutionPermit := {
  permit_reason : string;
  permit_descriptor : option ExecutionPermitDescriptor;
  dispatched : bool;
  snapshot : option ActionDispatchSnapshot;
}.

Definition fromAllowedDecision (decision : PolicyDecision) : outcome Err ExecutionPermit :=
  match decision with
  | allowed reason descriptor =>
      Ok {| permit_reason := reason; permit_descriptor := descriptor;
            dispatched := false; snapshot := None |}
  | denied _ => Throw (OtherError "ExecutionPermit requires an allowed policy decision.")
  end.

(** [assertAuthorizedForDispatch]: what the signal and the authorization window
    answer when they are asked, and the snapshot taken. *)
Definition assertAuthorizedForDispatch (abortedBefore abortedByWindow abortedAfter : option Err)
    (snap : option ActionDispatchSnapshot) (p : ExecutionPermit) : outcome Err ExecutionPermit :=
  match abortedBefore, abortedByWindow, abortedAfter with
  | Some e, _, _ | None, Some e, _ | None, None, Some e => Throw e
  | None, None, None =>
      Ok {| permit_reason := permit_reason p; permit_descriptor := permit_descriptor p;
            dispatched := true; snapshot := snap |}
  end.

(** One thing that happens while the runtime waits. *)
Inductive Tick :=
  | Activity (c : ExecutionBudget.Call)
  | CheckDeadline
  | Dispatch (abortedBefore abortedByWindow abortedAfter : option Err)
      (snap : option ActionDispatchSnapshot).

(** An awaited promise: what happens before the race is over, and the outcome of
    the race as far as the operation or an abort decides it. *)
Record Race (A : Type) := { waiting : list Tick; settled : outcome Err A }.
Arguments waiting {A}.
Arguments settled {A}.

Section runtime.
Context {W Graph : Type}.

Inductive TracePayload :=
  | t_observation (g : Graph)
  | t_decision (d : ProposedAction)
  | t_action_resolved (a : ResolvedAction)
  | t_policy_authorized (d : PolicyDecision)
  | t_policy_denied (d : PolicyDecision)
  | t_action_executed (o : ActionOutcome)
  | t_verification (v : VerificationResult)
  | t_finding (f : FindingEnvelope)
  | t_run_completed (c : CompletionStatus).
Record TraceEventInput := {
  event_runId : string;
  event_stepIndex : option number;
  payload : TracePayload;
}.

Record VerificationContext := {
  vc_before : Graph;
  vc_after : Graph;
  vc_claimIds : list string;
  vc_stepIndex : number;
  vc_action : option ResolvedAction;
  vc_outcome : option ActionOutcome;
}.

Record Dependencies := {
  observe : AcceptedExecutionJob → W → Race Graph * W;
  decide_ : AcceptedExecutionJob → Graph → option ExecutionPlanStep → number → W →
    Race ProposedAction * W;
  resolve : ProposedAction → Graph → W → Race ResolvedAction * W;
  authorize_ : ResolvedAction → AcceptedExecutionJob → W → Race PolicyDecision * W;
  execute : ResolvedAction → ExecutionPermit → W → Race ActionOutcome * W;
  verify_ : AcceptedExecutionJob → VerificationContext → W → Race VerificationResult * W;
  append_ : TraceEventInput → W → Race unit * W;
  (** The reason of the external abort signal, once it is aborted. *)
  aborted : W → option Err;
}.

(** The calls of the dependencies that matter to the properties, with their
    answers. *)
Inductive Event :=
  | EvDecided (d : ProposedAction)
  | EvAuthorized (a : ResolvedAction) (d : PolicyDecision)
  | EvExecute (a : ResolvedAction)
  | EvExecuted (a : ResolvedAction) (o : ActionOutcome)
  | EvVerified (claimIds : list string) (v : VerificationResult)
  | EvAppend (input : TraceEventInput)
  | EvAppended (input : TraceEventInput).

Record RT := {
  budget_ : ExecutionBudget.State;
  world : W;
  permit : option ExecutionPermit;
  currentStepIndex : option number;
  log : list Event;
}.

Definition M := js RT Err.

Definition set_budget (b : ExecutionBudget.State) (s : RT) : RT :=
  {| budget_ := b; world := world s; permit := permit s;
     currentStepIndex := currentStepIndex s; log := log s |}.
Definition set_world (w : W) (s : RT) : RT :=
  {| budget_ := budget_ s; world := w; permit := permit s;
     currentStepIndex := currentStepIndex s; log := log s |}.
Definition set_permit (p : ExecutionPermit) (s : RT) : RT :=
  {| budget_ := budget_ s; world := world s; permit := Some p;
     currentStepIndex := currentStepIndex s; log := log s |}.
Definition set_current (i : number) (s : RT) : RT :=
  {| budget_ := budget_ s; world := world s; permit := permit s;
     currentStepIndex := Some i; log := log s |}.
Definition emit (e : Event) (s : RT) : RT :=
  {| budget_ := budget_ s; world := world s; permit := permit s;
     currentStepIndex := currentStepIndex s; log := log s ++ [e] |}.

Definition emit_all (l : list Event) (s : RT) : RT :=
  {| budget_ := budget_ s; world := world s; permit := permit s;
     currentStepIndex := currentStepIndex s; log := log s ++ l |}.

Context (reading : nat → number) (deps : Dependencies)
  (validateLiveObservationGraph : Graph → option Err) (evidenceRefs : Graph → list string).

(** A synchronous call of the budget. *)
Definition on_budget {A} (m : ExecutionBudget.M A) : M A := λ s,
  match m (budget_ s) with
  | (Ok a, b) => (Ok a, set_budget b s)
  | (Throw e, b) => (Throw (BudgetError e), set_budget b s)
  end.

(** ** Waiting *)
Definition tick (runId : string) (t : Tick) : M unit :=
  match t with
  | Activity c => λ s, (Ok tt, set_budget (exec (ExecutionBudget.call reading c) (budget_ s)) s)
  | CheckDeadline =>
      _ ← on_budget (ExecutionBudget.remainingWallClockMs reading runId); mret tt
  | Dispatch before window after snap =>
      s ← get;
      match permit s with
      | None => mret tt
      | Some p =>
          match assertAuthorizedForDispatch before window after snap p with
          | Ok p' => modify (set_permit p')
          | Throw _ => mret tt
          end
      end
  end.

Definition settle {A} (o : outcome Err A) : M A :=
  match o with Ok a => mret a | Throw e => throw e end.

Definition start {A} (operation : W → Race A * W) : M (Race A) :=
  s ← get;
  let '(r, w) := operation (world s) in
  _ ← modify (set_world w);
  mret r.

(** [withinWallClock]: the deadline is checked before the operation starts and
    each time its timer fires; [external] says that the caller's signal is
    observed too, and [started] is what the log keeps of the operation's start. *)
Definition withinWallClock {A} (runId : string) (external : bool) (started : list Event)
    (operation : W → Race A * W) : M A :=
  _ ← on_budget (ExecutionBudget.remainingWallClockMs reading runId);
  s ← get;
  _ ← match (if external then aborted deps (world s) else None) with
      | Some reason => throw reason
      | None => mret tt
      end;
  _ ← modify (emit_all started);
  r ← start operation;
  _ ← for_each (waiting r) (tick runId);
  settle (settled r).

Definition record_ (input : TraceEventInput) : M unit :=
  _ ← withinWallClock (event_runId input) false [EvAppend input] (append_ deps input);
  modify (emit (EvAppended input)).

Definition recordStage (runId : string) (stepIndex : option number) (p : TracePayload) : M unit :=
  record_ {| event_runId := runId; event_stepIndex := stepIndex; payload := p |}.

(** ** One step *)
Definition traceIndex (job : AcceptedExecutionJob) (stepIndex : number) : option number :=
  match plan job with None => None | Some _ => Some stepIndex end.

Definition completion (job : AcceptedExecutionJob) (s : CompletionStatus) : ExecutionCompletion :=
  {| completion_jobId := jobId job; completion_runId := runId job; status := s |}.

(** [assertDecisionMatchesStep]. *)
Definition decision_matches (decision : ProposedAction) (step : StepKind) : bool :=
  bool_decide (action_kind step = Some (proposed_kind decision)) &&
  match step, decision with
  | navigate path, p_navigate path' _ => String.eqb path' path
  | input _ v, p_input _ v' _ | select _ v, p_select _ v' _ => String.eqb v' v
  | scroll _ d a, p_scroll _ d' a' _ => bool_decide (d' = d) && bool_decide (a' = a)
  | _, _ => true
  end.

Definition assertDecisionMatchesStep (decision : ProposedAction) (step : StepKind) : M unit :=
  throw_if (negb (decision_matches decision step)) (ExecutionBlockedError "PlanStepMismatch").

Definition capture (job : AcceptedExecutionJob) (stepIndex : option number) : M Graph :=
  observation ← withinWallClock (runId job) true [] (observe deps job);
  _ ← match validateLiveObservationGraph observation with
      | Some e => throw e
      | None => mret tt
      end;
  _ ← recordStage (runId job) stepIndex (t_observation observation);
  mret observation.

(** [catch (error) { if (permit.dispatchStarted) throw new
    ActionOutcomeUnknownError(); throw error; }]. *)
Definition dispatchStarted (s : RT) : bool :=
  match permit s with Some p => dispatched p | None => false end.

(** The part of [executeStep] after the gate allowed the action. *)
Definition perform (job : AcceptedExecutionJob) (trace : option number) (action : ResolvedAction)
    (policyDecision : PolicyDecision) : M (ExecutionCompletion + (ResolvedAction * ActionOutcome)) :=
  _ ← recordStage (runId job) trace (t_policy_authorized policyDecision);
  _ ← on_budget (ExecutionBudget.maximumOutputTokens reading (runId job));
  fresh ← settle (fromAllowedDecision policyDecision);
  _ ← modify (set_permit fresh);
  outcome ← try_catch
    (o ← withinWallClock (runId job) true [EvExecute action] (execute deps action fresh);
     _ ← modify (emit (EvExecuted action o));
     mret o)
    (λ e, s ← get; if dispatchStarted s then throw ActionOutcomeUnknownError else throw e);
  _ ← recordStage (runId job) trace (t_action_executed outcome);
  if ok outcome then mret (inr (action, outcome))
  else
    s ← get;
    if dispatchStarted s || bool_decide (errorCode outcome = Some "ActionOutcomeUnknown")
    then mret (inl (completion job (error "ActionOutcomeUnknown")))
    else mret (inl (completion job (blocked (Some (default "ActionFailed" (errorCode outcome)))))).

Definition executeStep (job : AcceptedExecutionJob) (step : option ExecutionPlanStep)
    (stepIndex : number) (observation : Graph)
    : M (ExecutionCompletion + (ResolvedAction * ActionOutcome)) :=
  let trace := traceIndex job stepIndex in
  decision ← withinWallClock (runId job) true [] (decide_ deps job observation step stepIndex);
  _ ← match step with
      | Some st => assertDecisionMatchesStep decision (kind st)
      | None => mret tt
      end;
  _ ← modify (emit (EvDecided decision));
  _ ← recordStage (runId job) trace (t_decision decision);
  action ← withinWallClock (runId job) true [] (resolve deps decision observation);
  _ ← recordStage (runId job) trace (t_action_resolved action);
  policyDecision ← withinWallClock (runId job) true [] (authorize_ deps action job);
  _ ← modify (emit (EvAuthorized action policyDecision));
  match policyDecision with
  | denied _ =>
      _ ← recordStage (runId job) trace (t_policy_denied policyDecision);
      mret (inl (completion job (blocked (Some "PolicyDenied"))))
  | allowed _ _ => perform job trace action policyDecision
  end.

(** ** Verification *)
Definition endpoint (v : VerificationEvidenceValue) : string :=
  ev_graphId v +:+ ":" +:+ ev_nodeId v.

(** [[...new Set(refs)]]: the first occurrence of each reference. *)
Definition unique (l : list string) : list string :=
  foldl (λ acc r, if includes acc r then acc else acc ++ [r]) [] l.

Definition findingFromVerification (runId : string) (summary : string) (suggestion : Severity)
    (claims : list VerificationClaim) (before after : Graph) : FindingEnvelope :=
  let claimRefs := flat_map (λ c, [endpoint (expected c); endpoint (observed c)]) claims in
  {| findingId := runId +:+ ":verification"; finding_runId := runId;
     title := "M1 verification failed"; finding_summary := summary; severity := suggestion;
     finding_evidenceRefs := unique (claimRefs ++ evidenceRefs before ++ evidenceRefs after) |}.

Definition verify (job : AcceptedExecutionJob) (context : VerificationContext)
    : M (option ExecutionCompletion) :=
  let trace := traceIndex job (vc_stepIndex context) in
  verification ← withinWallClock (runId job) true [] (verify_ deps job context);
  _ ← modify (emit (EvVerified (vc_claimIds context) verification));
  _ ← recordStage (runId job) trace (t_verification verification);
  match verification with
  | v_passed _ => mret None
  | v_failed summary suggestion claims =>
      let f := findingFromVerification (runId job) summary suggestion claims
                 (vc_before context) (vc_after context) in
      _ ← recordStage (runId job) trace (t_finding f);
      mret (Some (completion job (finding f)))
  end.

(** ** The steps of a plan *)
Record LoopState := {
  firstObservation : option Graph;
  lastAction : option ResolvedAction;
  lastOutcome : option ActionOutcome;
  lastStepIndex : number;
  hasExplicitVerification : bool;
}.

Fixpoint runSteps (job : AcceptedExecutionJob) (ordinal : Z) (l : list ExecutionPlanStep)
    (st : LoopState) : M (ExecutionCompletion + LoopState) :=
  match l with
  | [] => mret (inr st)
  | step :: rest =>
      let stepIndex := default (num_of_Z ordinal) (stepIndex step) in
      _ ← modify (set_current stepIndex);
      _ ← on_budget (ExecutionBudget.beforeStep reading (runId job) stepIndex);
      observation ← capture job (Some stepIndex);
      let first := default observation (firstObservation st) in
      match kind step with
      | RunnerProtocol.verify claimIds =>
          c ← verify job
            {| vc_before := first; vc_after := observation; vc_claimIds := claimIds;
               vc_stepIndex := stepIndex; vc_action := lastAction st; vc_outcome := lastOutcome st |};
          match c with
          | Some c => mret (inl c)
          | None => runSteps job (ordinal + 1) rest
              {| firstObservation := Some first; lastAction := lastAction st;
                 lastOutcome := lastOutcome st; lastStepIndex := stepIndex;
                 hasExplicitVerification := true |}
          end
      | _ =>
          r ← executeStep job (Some step) stepIndex observation;
          match r with
          | inl c => mret (inl c)
          | inr (action, outcome) => runSteps job (ordinal + 1) rest
              {| firstObservation := Some first; lastAction := Some action;
                 lastOutcome := Some outcome; lastStepIndex := stepIndex;
                 hasExplicitVerification := hasExplicitVerification st |}
          end
      end
  end.

Definition passedCompletion (job : AcceptedExecutionJob) : ExecutionCompletion :=
  completion job passed.

Definition runObjectiveOnly (job : AcceptedExecutionJob) : M ExecutionCompletion :=
  let stepIndex := num_of_Z 0 in
  _ ← modify (set_current stepIndex);
  _ ← on_budget (ExecutionBudget.beforeStep reading (runId job) stepIndex);
  before ← capture job None;
  result ← executeStep job None stepIndex before;
  match result with
  | inl c => mret c
  | inr (action, outcome) =>
      after ← capture job None;
      c ← verify job
        {| vc_before := before; vc_after := after; vc_claimIds := []; vc_stepIndex := stepIndex;
           vc_action := Some action; vc_outcome := Some outcome |};
      mret (default (passedCompletion job) c)
  end.

Definition initial_loop : LoopState :=
  {| firstObservation := None; lastAction := None; lastOutcome := None;
     lastStepIndex := num_of_Z 0; hasExplicitVerification := false |}.

Definition runUntilCompletion (job : AcceptedExecutionJob) : M ExecutionCompletion :=
  match plan job with
  | None => runObjectiveOnly job
  | Some p =>
      r ← runSteps job 0 (steps p) initial_loop;
      match r with
      | inl c => mret c
      | inr st =>
          if hasExplicitVerification st then mret (passedCompletion job)
          else
            after ← capture job (Some (lastStepIndex st));
            c ← verify job
              {| vc_before := default after (firstObservation st); vc_after := after;
                 vc_claimIds := expectedClaimIds p; vc_stepIndex := lastStepIndex st;
                 vc_action := lastAction st; vc_outcome := lastOutcome st |};
            mret (default (passedCompletion job) c)
      end
  end.

(** ** The whole run *)
Definition budget_code (c : ExecutionBudget.ExecutionBudgetErrorCode) : string :=
  match c with
  | ExecutionBudget.ExecutionBudgetInvalid => "ExecutionBudgetInvalid"
  | ExecutionBudget.ExecutionBudgetAlreadyActive => "ExecutionBudgetAlreadyActive"
  | ExecutionBudget.ExecutionBudgetNotActive => "ExecutionBudgetNotActive"
  | ExecutionBudget.StepBudgetExceeded => "StepBudgetExceeded"
  | ExecutionBudget.WallClockBudgetExceeded => "WallClockBudgetExceeded"
  | ExecutionBudget.ModelBudgetExceeded => "ModelBudgetExceeded"
  | ExecutionBudget.ModelUsageUnavailable => "ModelUsageUnavailable"
  end.

Definition completionFromError (job : AcceptedExecutionJob) (e : Err) : option ExecutionCompletion :=
  let by_code code :=
    if String.eqb code "ModelUsageUnavailable" || String.eqb code "ActionOutcomeUnknown"
    then error code else blocked (Some code) in
  match e with
  | ExecutionTargetError code fatal =>
      Some (completion job (if fatal then error code else blocked (Some code)))
  | ExecutionBlockedError code => Some (completion job (by_code code))
  | BudgetError e => Some (completion job (by_code (budget_code (ExecutionBudget.code e))))
  | ActionOutcomeUnknownError => Some (completion job (by_code "ActionOutcomeUnknown"))
  | TerminalTracePersistenceError _ | OtherError _ => None
  end.

Definition terminalTraceInput (c : ExecutionCompletion) (stepIndex : option number)
    : TraceEventInput :=
  {| event_runId := completion_runId c; event_stepIndex := stepIndex;
     payload := t_run_completed (status c) |}.

(** The terminal append races a timer of its own; the budget no longer counts. *)
Definition recordTerminal (c : ExecutionCompletion) (stepIndex : option number) : M unit :=
  let input := terminalTraceInput c stepIndex in
  _ ← modify (emit (EvAppend input));
  r ← start (append_ deps input);
  _ ← for_each (List.filter (λ t, match t with Activity _ => true | _ => false end) (waiting r))
        (tick (completion_runId c));
  _ ← settle (settled r);
  modify (emit (EvAppended input)).

(** [try { m } finally { f }]. *)
Definition finally {A} (m : M A) (f : M unit) : M A := λ s,
  match m s with
  | (o, s') => match f s' with (Ok _, s'') => (o, s'') | (Throw e, s'') => (Throw e, s'') end
  end.

Definition message_of (e : Err) : string :=
  match e with
  | ExecutionTargetError m _ | ExecutionBlockedError m | TerminalTracePersistenceError m
  | OtherError m => m
  | BudgetError e => budget_code (ExecutionBudget.code e)
  | ActionOutcomeUnknownError => "ActionOutcomeUnknown"
  end.

(** The locals of a run. *)
Definition enter (s : RT) : RT :=
  {| budget_ := budget_ s; world := world s; permit := None; currentStepIndex := None;
     log := log s |}.

Definition run (wall tokens : number) (job : AcceptedExecutionJob) : M ExecutionCompletion :=
  _ ← modify enter;
  _ ← on_budget (ExecutionBudget.begin reading wall tokens job);
  finally
    (c ← try_catch (runUntilCompletion job) (λ e,
       match completionFromError job e with None => throw e | Some c => mret c end);
     s ← get;
     try_catch
       (_ ← recordTerminal c (match plan job with None => None | Some _ => currentStepIndex s end);
        mret c)
       (λ cause, match cause with
                 | TerminalTracePersistenceError _ => throw cause
                 | _ => throw (TerminalTracePersistenceError (message_of cause))
                 end))
    (on_budget (ExecutionBudget.finish (runId job))).

(** ** The log of a run *)

(** [e] neither starts an action nor records the end of a run. *)
Definition quiet_event (e : Event) : bool :=
  match e with
  | EvExecute _ => false
  | EvAppend i | EvAppended i =>
      match payload i with t_run_completed _ => false | _ => true end
  | _ => true
  end.
Definition quiet (l : list Event) : bool := forallb quiet_event l.

Definition executions (l : list Event) : nat :=
  length (List.filter (λ e, match e with EvExecute _ => true | _ => false end) l).

Definition decisions (l : list Event) : list ProposedAction :=
  omap (λ e, match e with EvDecided d => Some d | _ => None end) l.
Definition outcomes (l : list Event) : list (ResolvedAction * ActionOutcome) :=
  omap (λ e, match e with EvExecuted a o => Some (a, o) | _ => None end) l.
Definition verifications (l : list Event) : list (list string * VerificationResult) :=
  omap (λ e, match e with EvVerified c v => Some (c, v) | _ => None end) l.

(** Every start of an action comes right after its authorization was given and
    durably recorded. *)
Definition authorized_log (l : list Event) : Prop :=
  ∀ l1 a l2, l = l1 ++ EvExecute a :: l2 →
  ∃ l0 r desc i, l1 = l0 ++ [EvAuthorized a (allowed r desc); EvAppend i; EvAppended i] ∧
    payload i = t_policy_authorized (allowed r desc).

(** What one step of a run adds: nothing that matters, or one authorized start. *)
Definition safe (l : list Event) : Prop :=
  quiet l = true ∨
  ∃ l1 a r desc i l2,
    l = (l1 ++ [EvAuthorized a (allowed r desc); EvAppend i; EvAppended i]) ++ EvExecute a :: l2 ∧
    payload i = t_policy_authorized (allowed r desc) ∧ quiet l1 = true ∧ quiet l2 = true.

Lemma quiet_app l l' : quiet (l ++ l') = quiet l && quiet l'.
Proof. apply forallb_app. Qed.

Lemma quiet_no_execution l a : quiet l = true → EvExecute a ∉ l.
Proof.
  intros H Hin%list_elem_of_In. unfold quiet in H. rewrite forallb_forall in H.
  by apply H in Hin.
Qed.

Lemma authorized_quiet l l' : authorized_log l → quiet l' = true → authorized_log (l ++ l').
Proof.
  intros Hl Hq l1 a l2 Heq. apply app_eq_app in Heq as (m & [[-> H]|[-> ->]]).
  - destruct m as [|e m]; cbn in H.
    + exfalso. apply (quiet_no_execution _ a Hq). rewrite <- H. set_solver.
    + injection H as <- ->. by apply (Hl l1 a m).
  - exfalso. apply (quiet_no_execution _ a Hq). set_solver.
Qed.

Lemma authorized_safe l l' : authorized_log l → safe l' → authorized_log (l ++ l').
Proof.
  intros Hl [Hq|(l1 & a & r & desc & i & l2 & -> & Hi & H1 & H2)]; [by apply authorized_quiet|].
  rewrite app_assoc. change (EvExecute a :: l2) with ([EvExecute a] ++ l2). rewrite app_assoc.
  apply authorized_quiet; [|done]. intros m1 b m2 Heq.
  assert (m2 = [] ∨ ∃ m, m2 = m ++ [EvExecute a]) as [->|[m ->]].
  { destruct m2 as [|e m2 _] using rev_ind; [by left|right]. exists m2.
    rewrite app_comm_cons, (app_assoc m1) in Heq. apply app_inj_tail in Heq as [_ <-]. done. }
  - apply app_inj_tail in Heq as [<- [= <-]]. exists (l ++ l1), r, desc, i.
    rewrite app_assoc. done.
  - rewrite app_comm_cons, (app_assoc m1) in Heq. apply app_inj_tail in Heq as [Heq _].
    assert (authorized_log (l ++ l1 ++ [EvAuthorized a (allowed r desc); EvAppend i; EvAppended i]))
      as Hpre.
    { apply authorized_quiet; [done|]. rewrite quiet_app, H1. cbn. by rewrite Hi. }
    by apply (Hpre m1 b m).
Qed.

Lemma executions_app l l' : executions (l ++ l') = (executions l + executions l')%nat.
Proof. unfold executions. by rewrite List.filter_app, length_app. Qed.

Lemma executions_quiet l : quiet l = true → executions l = O.
Proof.
  unfold quiet, executions. induction l as [|e l IH]; cbn; [done|]. intros H. to_prop.
  destruct e; try done; by apply IH.
Qed.

Lemma executions_safe l : safe l → (executions l <= 1)%nat.
Proof.
  intros [Hq|(l1 & a & r & desc & i & l2 & -> & _ & H1 & H2)].
  - rewrite executions_quiet by done. lia.
  - change (EvExecute a :: l2) with ([EvExecute a] ++ l2). rewrite !executions_app.
    rewrite (executions_quiet l1), (executions_quiet l2) by done. cbn. lia.
Qed.

(** ** The budget of the run stays active, and steps are paid for *)
Definition alive (i : string) (max n : Z) (b : ExecutionBudget.State) : Prop :=
  ExecutionBudget.Inv b ∧
  ∃ r k, ExecutionBudget.runs b !! i = Some r ∧ ExecutionBudget.maximumSteps r = num_of_Z max ∧
    ExecutionBudget.consumedSteps r = num_of_Z k ∧ (n <= k <= max)%Z.

Definition keeps (i : string) (b b' : ExecutionBudget.State) : Prop :=
  ∀ max n, alive i max n b → alive i max n b'.

#[local] Instance keeps_preorder i : PreOrder (keeps i).
Proof. split; [by intros ????|]. intros b1 b2 b3 H1 H2 max n H. by apply H2, H1. Qed.

(** A call that is not the end of the run keeps it alive; its own step counts. *)
Lemma call_alive c i max n b :
  ExecutionBudget.is_finish i c = false → alive i max n b →
  let '(o, b') := ExecutionBudget.call reading c b in
  alive i max (n + if ExecutionBudget.is_step i
    (c, match o with Ok _ => true | Throw _ => false end) then 1 else 0) b'.
Proof.
  intros Hc (HI & r & k & Hr & Hmax & Hk & Hn).
  assert (existsb (ExecutionBudget.is_finish i) [c] = false) as Hf by (cbn; by rewrite Hc).
  pose proof (ExecutionBudget.calls_effect reading [c] _ _ _ _ _ HI Hr Hf Hmax Hk) as He.
  cbn [ExecutionBudget.calls] in He. destruct (ExecutionBudget.call reading c b) as [o b'].
  destruct He as (HI' & _ & r' & k' & Hr' & Hlater & Hk' & Hle & Hsum). split; [done|].
  exists r', k'. rewrite (ExecutionBudget.lt_steps _ _ Hlater). split_and!; [done|done|done| |lia].
  cbn [List.filter] in Hsum. destruct (ExecutionBudget.is_step i _); cbn in Hsum; lia.
Qed.

Lemma call_keeps c i b :
  ExecutionBudget.is_finish i c = false →
  keeps i b (exec (ExecutionBudget.call reading c) b).
Proof.
  intros Hc max n H. pose proof (call_alive c i max n b Hc H) as Ha. unfold exec.
  destruct (ExecutionBudget.call reading c b) as [o b']. destruct Ha as (HI & r & k & ? & ? & ? & ?).
  split; [done|]. exists r, k. split_and!; try done;
    destruct (ExecutionBudget.is_step _ _); lia.
Qed.

(** [s'] follows [s] with [l] added to the log. *)
Definition follows (i : string) (l : list Event) (s s' : RT) : Prop :=
  log s' = log s ++ l ∧ keeps i (budget_ s) (budget_ s').

Lemma follows_refl i s : follows i [] s s.
Proof. split; [by rewrite app_nil_r|done]. Qed.

Lemma follows_trans i l1 l2 s1 s2 s3 :
  follows i l1 s1 s2 → follows i l2 s2 s3 → follows i (l1 ++ l2) s1 s3.
Proof. intros [H1 K1] [H2 K2]. split; [by rewrite H2, H1, app_assoc|by etrans]. Qed.

Lemma follows_emit i e s : follows i [e] s (emit e s).
Proof. done. Qed.

(** ** What the environment may do while the run waits

    Anything, except ending the run's own budget: only [run] calls [finish], and
    it does so only for a run it has begun. *)
Definition unfinished (i : string) (t : Tick) : Prop :=
  match t with Activity c => ExecutionBudget.is_finish i c = false | _ => True end.

Definition patient {A} (i : string) (operation : W → Race A * W) : Prop :=
  ∀ w, Forall (unfinished i) (waiting (operation w).1).

Record well_behaved (i : string) : Prop := {
  wb_observe : ∀ job, patient i (observe deps job);
  wb_decide : ∀ job g st n, patient i (decide_ deps job g st n);
  wb_resolve : ∀ d g, patient i (resolve deps d g);
  wb_authorize : ∀ a job, patient i (authorize_ deps a job);
  wb_execute : ∀ a p, patient i (execute deps a p);
  wb_verify : ∀ job c, patient i (verify_ deps job c);
  wb_append : ∀ e, patient i (append_ deps e);
}.

Lemma wp_on_budget {A} (m : ExecutionBudget.M A) Q R s :
  wp m (λ a b, Q a (set_budget b s)) (λ e b, R (BudgetError e) (set_budget b s)) (budget_ s) →
  wp (on_budget m) Q R s.
Proof. unfold wp, on_budget. by destruct (m (budget_ s)) as [[]]. Qed.

(** Queries of the budget keep it alive. *)
Lemma wp_query {A} i (m : ExecutionBudget.M A) c Q R s :
  ExecutionBudget.is_finish i c = false → ExecutionBudget.call reading c = ExecutionBudget.discard m →
  (∀ a s', follows i [] s s' → Q a s') → (∀ e s', follows i [] s s' → R e s') →
  wp (on_budget m) Q R s.
Proof.
  intros Hc Hm HQ HR. apply wp_on_budget.
  pose proof (call_keeps c i (budget_ s) Hc) as Hk. rewrite Hm in Hk.
  unfold exec, ExecutionBudget.discard, mbind, js_bind, mret, js_ret in Hk. unfold wp.
  assert (∀ b, keeps i (budget_ s) b → follows i [] s (set_budget b s)) as Hf.
  { intros b Hb. split; [cbn; by rewrite app_nil_r|done]. }
  destruct (m (budget_ s)) as [[a|e] b]; cbn in Hk; [apply HQ|apply HR]; by apply Hf.
Qed.

Lemma wp_tick i t Q R s :
  unfinished i t →
  (∀ s', follows i [] s s' → Q tt s') → (∀ e s', follows i [] s s' → R e s') →
  wp (tick i t) Q R s.
Proof.
  intros Ht HQ HR. destruct t as [c| |before window after snap]; cbn [tick].
  - apply HQ. split; [cbn; by rewrite app_nil_r|]. by apply call_keeps.
  - apply wp_bind. eapply (wp_query i _ (ExecutionBudget.RemainingWallClockMs i)); [done|done| |].
    + intros a s' H. by apply wp_ret, HQ.
    + intros e s' H. by apply HR.
  - apply wp_bind, wp_get. destruct (permit s) as [p|]; [|by apply wp_ret, HQ, follows_refl].
    destruct (assertAuthorizedForDispatch _ _ _ _ p); [apply wp_modify|apply wp_ret]; apply HQ;
      split; cbn; rewrite ?app_nil_r; done.
Qed.

Lemma wp_ticks i l Q R s :
  Forall (unfinished i) l →
  (∀ s', follows i [] s s' → Q tt s') → (∀ e s', follows i [] s s' → R e s') →
  wp (for_each l (tick i)) Q R s.
Proof.
  intros Hl HQ HR.
  apply (wp_for_each l (tick i) (λ l' s', Forall (unfinished i) l' ∧ follows i [] s s')).
  - by split; [|apply follows_refl].
  - intros t l' s1 [Hf Hs1]. apply Forall_cons in Hf as [Ht Hf]. apply wp_tick; [done| |].
    + intros s2 Hs2. split; [done|]. apply (follows_trans i [] [] _ _ _ Hs1 Hs2).
    + intros e s2 Hs2. apply HR. apply (follows_trans i [] [] _ _ _ Hs1 Hs2).
  - intros s' [_ Hs']. by apply HQ.
Qed.

Lemma wp_settle {A} (o : outcome Err A) Q R s :
  (∀ a, Q a s) → (∀ e, R e s) → wp (settle o) Q R s.
Proof. intros HQ HR. destruct o; [by apply wp_ret|by apply wp_throw]. Qed.

(** The deadline may stop an operation before it starts, or after. *)
Lemma wp_within {A} i external started (operation : W → Race A * W) Q R s :
  patient i operation →
  (∀ a s', follows i started s s' → Q a s') →
  (∀ e l s', l = [] ∨ l = started → follows i l s s' → R e s') →
  wp (withinWallClock i external started operation) Q R s.
Proof.
  intros Hop HQ HR. unfold withinWallClock. apply wp_bind.
  eapply (wp_query i _ (ExecutionBudget.RemainingWallClockMs i)); [done|done| |].
  2: { intros e s1 H1. by eapply HR; [left|]. }
  intros _ s1 H1. apply wp_bind, wp_get. apply wp_bind.
  destruct (if external then aborted deps (world s1) else None) as [reason|].
  { apply wp_throw. by eapply HR; [left|]. }
  apply wp_ret, wp_bind, wp_modify.
  assert (follows i started s (emit_all started s1)) as H2.
  { destruct H1 as [Hlog Hk]. split; [cbn; by rewrite Hlog, app_nil_r|done]. }
  apply wp_bind. unfold start. apply wp_bind, wp_get. cbn [world emit_all].
  specialize (Hop (world s1)). destruct (operation (world s1)) as [r w]. cbn in Hop.
  apply wp_bind, wp_modify, wp_ret, wp_bind.
  assert (follows i started s (set_world w (emit_all started s1))) as H3 by done.
  apply wp_ticks; [done| |].
  - intros s4 H4. pose proof (follows_trans i started [] _ _ _ H3 H4) as H5.
    rewrite app_nil_r in H5. apply wp_settle; [intros a; by apply HQ|].
    intros e. by eapply HR; [right|].
  - intros e s4 H4. pose proof (follows_trans i started [] _ _ _ H3 H4) as H5.
    rewrite app_nil_r in H5. by eapply HR; [right|].
Qed.

(** ** What each stage adds to the log *)
Section stages.
Context (job : AcceptedExecutionJob).
Notation i := (runId job).
Context (Henv : well_behaved i).

Definition stage_input (stepIndex : option number) (p : TracePayload) : TraceEventInput :=
  {| event_runId := i; event_stepIndex := stepIndex; payload := p |}.
Definition recorded (stepIndex : option number) (p : TracePayload) : list Event :=
  [EvAppend (stage_input stepIndex p); EvAppended (stage_input stepIndex p)].

Lemma follows_step l1 l2 s1 s2 s3 l :
  follows i l1 s1 s2 → follows i l2 s2 s3 → l = l1 ++ l2 → follows i l s1 s3.
Proof. intros H1 H2 ->. by eapply follows_trans. Qed.

Lemma wp_recordStage st p Q R s :
  (∀ s', follows i (recorded st p) s s' → Q tt s') →
  (∀ e l s', l = [] ∨ l = [EvAppend (stage_input st p)] → follows i l s s' → R e s') →
  wp (recordStage i st p) Q R s.
Proof.
  intros HQ HR. unfold recordStage, record_. apply wp_bind. cbn [event_runId].
  apply (wp_within i); [by apply wb_append| |exact HR].
  intros [] s' Hs'. apply wp_modify, HQ. eapply follows_step; [done|by apply follows_emit|done].
Qed.

(** Failing quietly, and failing possibly after an authorized start. *)
Definition calm (s s' : RT) : Prop := ∃ l, follows i l s s' ∧ quiet l = true.
Definition fails (s s' : RT) : Prop := ∃ l, follows i l s s' ∧ safe l.

Lemma calm_fails s s' : calm s s' → fails s s'.
Proof. intros (l & H & Hq). exists l. split; [done|by left]. Qed.

Lemma calm_after l1 l2 s s1 s2 :
  follows i l1 s s1 → quiet l1 = true → follows i l2 s1 s2 → quiet l2 = true → calm s s2.
Proof.
  intros H1 Hq1 H2 Hq2. exists (l1 ++ l2). split; [by eapply follows_trans|].
  by rewrite quiet_app, Hq1, Hq2.
Qed.

Definition no_end (p : TracePayload) : bool :=
  match p with t_run_completed _ => false | _ => true end.

Lemma recorded_quiet st p : no_end p = true → quiet (recorded st p) = true.
Proof. by destruct p. Qed.

Lemma partial_quiet st p l :
  no_end p = true → l = [] ∨ l = [EvAppend (stage_input st p)] → quiet l = true.
Proof. intros Hp [->| ->]; [done|by destruct p]. Qed.

(** A stage that is recorded, or fails to be, after a quiet beginning. *)
Lemma wp_record_after st p l Q R s0 s :
  follows i l s0 s → quiet l = true → no_end p = true →
  (∀ s', follows i (l ++ recorded st p) s0 s' → Q tt s') →
  (∀ e s', calm s0 s' → R e s') →
  wp (recordStage i st p) Q R s.
Proof.
  intros Hl Hq Hp HQ HR. apply wp_recordStage.
  - intros s' Hs'. apply HQ. by eapply follows_trans.
  - intros e l' s' Hl' Hs'. apply HR. eapply calm_after; [done|done|done|].
    by eapply partial_quiet.
Qed.

(** An operation awaited after a quiet beginning. *)
Lemma wp_within_after {A} external (operation : W → Race A * W) l Q R s0 s :
  patient i operation → follows i l s0 s → quiet l = true →
  (∀ a s', follows i l s0 s' → Q a s') →
  (∀ e s', calm s0 s' → R e s') →
  wp (withinWallClock i external [] operation) Q R s.
Proof.
  intros Hop Hl Hq HQ HR. apply (wp_within i); [done| |].
  - intros a s' Hs'. apply HQ. rewrite <- (app_nil_r l). by eapply follows_trans.
  - intros e l' s' Hl' Hs'. apply HR. eapply calm_after; [done|done|done|].
    by destruct Hl' as [->| ->].
Qed.

Lemma wp_capture st l Q R s0 s :
  follows i l s0 s → quiet l = true →
  (∀ g s', follows i (l ++ recorded st (t_observation g)) s0 s' → Q g s') →
  (∀ e s', calm s0 s' → R e s') →
  wp (capture job st) Q R s.
Proof.
  intros Hl Hq HQ HR. unfold capture. apply wp_bind.
  eapply wp_within_after; [by apply wb_observe|done|done| |done].
  intros g s1 H1. apply wp_bind. destruct (validateLiveObservationGraph g) as [e|].
  { apply wp_throw, HR. by eexists. }
  apply wp_ret, wp_bind. eapply wp_record_after; [done|done|done| |done].
  intros s2 H2. apply wp_ret. by apply HQ.
Qed.

(** What an allowed action adds when it is carried out. *)
Definition performed (trace : option number) (a : ResolvedAction) (d : PolicyDecision)
    (o : ActionOutcome) : list Event :=
  EvAuthorized a d :: recorded trace (t_policy_authorized d) ++
  EvExecute a :: EvExecuted a o :: recorded trace (t_action_executed o).

(** An authorized start after a quiet beginning is safe, with a quiet end. *)
Lemma safe_start l1 trace a reason desc l2 :
  quiet l1 = true → quiet l2 = true →
  safe ((l1 ++ [EvAuthorized a (allowed reason desc)]) ++
        recorded trace (t_policy_authorized (allowed reason desc)) ++ EvExecute a :: l2).
Proof.
  intros H1 H2. right.
  exists l1, a, reason, desc, (stage_input trace (t_policy_authorized (allowed reason desc))), l2.
  split; [|by split_and!].
  rewrite <- !app_assoc. done.
Qed.

Lemma wp_perform trace a reason desc l1 Q R s0 s :
  follows i (l1 ++ [EvAuthorized a (allowed reason desc)]) s0 s → quiet l1 = true →
  (∀ o s', follows i (l1 ++ performed trace a (allowed reason desc) o) s0 s' → ok o = true →
     Q (inr (a, o)) s') →
  (∀ c s', fails s0 s' → status c ≠ passed → completion_runId c = i → Q (inl c) s') →
  (∀ e s', fails s0 s' → R e s') →
  wp (perform job trace a (allowed reason desc)) Q R s.
Proof.
  intros H0 Hq HQ HC HR. unfold perform. apply wp_bind.
  eapply wp_record_after; [done|by rewrite quiet_app, Hq|done| |by intros; apply HR, calm_fails].
  intros s1 H1. apply wp_bind. clear H0.
  eapply (wp_query i _ (ExecutionBudget.MaximumOutputTokens i)); [done|done| |].
  2: { intros e s2 H2. apply HR, calm_fails. eapply calm_after; [done| |done|done].
       by rewrite !quiet_app, Hq. }
  intros n s2 H2. pose proof (follows_trans i _ _ _ _ _ H1 H2) as H3. clear H1 H2.
  rewrite app_nil_r in H3. apply wp_bind. cbn [fromAllowedDecision settle].
  apply wp_ret, wp_bind, wp_modify.
  set (fresh := {| permit_reason := _ |}).
  assert (follows i _ s0 (set_permit fresh s2)) as H4 by exact H3. clear H3.
  apply wp_bind, wp_try_catch, wp_bind. apply (wp_within i); [by apply wb_execute| |].
  2: { intros e l s5 Hl H5. pose proof (follows_trans i _ _ _ _ _ H4 H5) as H6.
       assert (fails s0 s5) as Hf.
       { eexists. split; [exact H6|]. destruct Hl as [->| ->].
         - left. by rewrite !quiet_app, Hq.
         - rewrite <- !app_assoc, app_assoc. by apply safe_start. }
       apply wp_bind, wp_get. destruct (dispatchStarted s5); by apply wp_throw, HR. }
  intros o s5 H5. apply wp_bind, wp_modify, wp_ret, wp_bind.
  pose proof (follows_trans i _ _ _ _ _ H4 H5) as H6. clear H4 H5.
  pose proof (follows_trans i _ _ _ _ _ H6 (follows_emit i (EvExecuted a o) s5)) as H7. clear H6.
  rewrite <- !app_assoc, app_assoc in H7. cbn [app] in H7.
  apply wp_recordStage.
  2: { intros e l s8 Hl H8. apply HR. eexists. split; [by eapply follows_trans|].
       pose proof (safe_start l1 trace a reason desc (EvExecuted a o :: l) Hq) as Hsafe.
       rewrite <- !app_assoc in Hsafe. rewrite <- !app_assoc. apply Hsafe. cbn.
       by apply (partial_quiet _ _ _ (eq_refl : no_end (t_action_executed o) = true)) in Hl. }
  intros s8 H8. pose proof (follows_trans i _ _ _ _ _ H7 H8) as H9. clear H7 H8.
  assert (fails s0 s8) as Hf.
  { eexists. split; [exact H9|]. pose proof (safe_start l1 trace a reason desc
      (EvExecuted a o :: recorded trace (t_action_executed o)) Hq) as Hsafe.
    rewrite <- !app_assoc in Hsafe. rewrite <- !app_assoc. by apply Hsafe. }
  rewrite <- !app_assoc in H9. destruct (ok o) eqn:Hok; [by apply wp_ret, HQ|].
  apply wp_bind, wp_get. destruct (dispatchStarted s8 || _); by apply wp_ret, HC.
Qed.

(** One step either completes the run without passing it, or executes exactly
    one action: decided as the step says, authorized, and reported [ok]. *)
Definition step_log (trace : option number) (d : ProposedAction) (a : ResolvedAction)
    (decision : PolicyDecision) (o : ActionOutcome) : list Event :=
  EvDecided d :: recorded trace (t_decision d) ++ recorded trace (t_action_resolved a) ++
  performed trace a decision o.

Lemma wp_executeStep step n g l0 Q R s0 s :
  follows i l0 s0 s → quiet l0 = true →
  (∀ d a reason desc o s',
     follows i (l0 ++ step_log (traceIndex job n) d a (allowed reason desc) o) s0 s' →
     ok o = true → from_option (λ st, decision_matches d (kind st) = true) True step →
     Q (inr (a, o)) s') →
  (∀ c s', fails s0 s' → status c ≠ passed → completion_runId c = i → Q (inl c) s') →
  (∀ e s', fails s0 s' → R e s') →
  wp (executeStep job step n g) Q R s.
Proof.
  intros H0 Hq HQ HC HR. unfold executeStep. cbv zeta. apply wp_bind.
  eapply wp_within_after; [by apply wb_decide|done|done| |by intros; apply HR, calm_fails]. intros d s1 H1. apply wp_bind.
  assert (∀ Q' R', (from_option (λ st, decision_matches d (kind st) = true) True step → Q' tt s1) →
    (∀ e, R' e s1) →
    wp (match step with Some st => assertDecisionMatchesStep d (kind st) | None => mret tt end)
      Q' R' s1) as Hmatch.
  { intros Q' R' HQ' HR'. destruct step as [st|]; [|by apply wp_ret, HQ'].
    apply wp_throw_if; intros Hm; [by apply HR'|]. apply negb_false_iff in Hm. by apply HQ'. }
  apply Hmatch; [|intros e; apply HR; apply calm_fails; by exists l0]. clear Hmatch. intros Hmatch.
  apply wp_bind, wp_modify.
  pose proof (follows_trans i _ _ _ _ _ H1 (follows_emit i (EvDecided d) s1)) as H2. clear H1.
  apply wp_bind. eapply wp_record_after; [done|by rewrite quiet_app, Hq|done| |by intros; apply HR, calm_fails].
  intros s3 H3. clear H2.
  apply wp_bind. eapply wp_within_after; [by apply wb_resolve|done|by rewrite !quiet_app, Hq| |by intros; apply HR, calm_fails].
  intros a s4 H4. clear H3.
  apply wp_bind. eapply wp_record_after; [done|by rewrite !quiet_app, Hq|done| |by intros; apply HR, calm_fails].
  intros s5 H5. clear H4.
  apply wp_bind. eapply wp_within_after; [by apply wb_authorize|done|by rewrite !quiet_app, Hq| |by intros; apply HR, calm_fails].
  intros dec s6 H6. clear H5. apply wp_bind, wp_modify.
  pose proof (follows_trans i _ _ _ _ _ H6 (follows_emit i (EvAuthorized a dec) s6)) as H7. clear H6.
  destruct dec as [reason desc|reason].
  - eapply wp_perform; [done|by rewrite !quiet_app, Hq| |done|done].
    intros o s8 H8 Hok. eapply HQ; [|done|done]. rewrite <- !app_assoc in H8. exact H8.
  - apply wp_bind. eapply wp_record_after; [done|by rewrite !quiet_app, Hq|done| |by intros; apply HR, calm_fails].
    intros s8 H8. apply wp_ret, HC; [|done|done]. apply calm_fails. eexists. split; [done|].
    by rewrite !quiet_app, Hq.
Qed.

(** Verification either passes, or completes the run with a finding. *)
Definition verified_log (trace : option number) (claimIds : list string) (v : VerificationResult)
    : list Event :=
  EvVerified claimIds v :: recorded trace (t_verification v).

Lemma wp_verify c l0 Q R s0 s :
  follows i l0 s0 s → quiet l0 = true →
  (∀ summary s',
     follows i (l0 ++ verified_log (traceIndex job (vc_stepIndex c)) (vc_claimIds c)
                 (v_passed summary)) s0 s' → Q None s') →
  (∀ c' s', calm s0 s' → status c' ≠ passed → completion_runId c' = i → Q (Some c') s') →
  (∀ e s', calm s0 s' → R e s') →
  wp (verify job c) Q R s.
Proof.
  intros H0 Hq HQ HC HR. unfold verify. cbv zeta. apply wp_bind.
  eapply wp_within_after; [by apply wb_verify|done|done| |done]. intros v s1 H1.
  apply wp_bind, wp_modify.
  pose proof (follows_trans i _ _ _ _ _ H1 (follows_emit i (EvVerified (vc_claimIds c) v) s1)) as H2.
  clear H1. apply wp_bind. eapply wp_record_after; [done|by rewrite !quiet_app, Hq|done| |done].
  intros s3 H3. clear H2. destruct v as [summary|summary suggestion claims].
  - apply wp_ret, (HQ summary). rewrite <- app_assoc in H3. exact H3.
  - apply wp_bind. eapply wp_record_after; [done|by rewrite !quiet_app, Hq|done| |done].
    intros s4 H4. apply wp_ret, HC; [|done|done]. eexists; split; [done|].
    by rewrite !quiet_app, Hq.
Qed.

Lemma safe_step l0 trace d a reason desc o :
  quiet l0 = true → safe (l0 ++ step_log trace d a (allowed reason desc) o).
Proof.
  intros Hq. pose proof (safe_start (l0 ++ EvDecided d :: recorded trace (t_decision d) ++
    recorded trace (t_action_resolved a)) trace a reason desc
    (EvExecuted a o :: recorded trace (t_action_executed o))) as Hs.
  rewrite <- !app_assoc in Hs. apply Hs; [by rewrite quiet_app, Hq|done].
Qed.

(** ** The progress of a run *)
Definition unended (l : list Event) : bool :=
  forallb (λ e, match e with
                | EvAppend i | EvAppended i => no_end (payload i)
                | _ => true
                end) l.

Lemma unended_app l l' : unended (l ++ l') = unended l && unended l'.
Proof. apply forallb_app. Qed.

Lemma unended_quiet l : quiet l = true → unended l = true.
Proof.
  unfold quiet, unended. intros H. rewrite forallb_forall in H |- *. intros e He.
  specialize (H e He). by destruct e.
Qed.

Lemma unended_safe l : safe l → unended l = true.
Proof.
  intros [Hq|(l1 & a & r & desc & j & l2 & -> & Hj & H1 & H2)]; [by apply unended_quiet|].
  rewrite !unended_app, (unended_quiet l1) by done. cbn. rewrite Hj. cbn.
  by apply unended_quiet.
Qed.

(** The run started in [s0] has added [l], with at least [credit] of its steps
    unused. *)
Definition progress (s0 : RT) (max : Z) (credit : nat) (l : list Event) (s : RT) : Prop :=
  log s = log s0 ++ l ∧ authorized_log l ∧ unended l = true ∧
  alive i max (Z.of_nat (executions l + credit)) (budget_ s).

Lemma progress_follows s0 max credit l l' s s' :
  progress s0 max (credit + 1) l s → follows i l' s s' → safe l' →
  progress s0 max credit (l ++ l') s'.
Proof.
  intros (Hlog & Hauth & Hun & HI & r & k & Hr & Hmax & Hk & Hn) [Hlog' Hkeep] Hsafe.
  split; [by rewrite Hlog', Hlog, app_assoc|]. split; [by apply authorized_safe|].
  split; [by rewrite unended_app, Hun, unended_safe|]. apply Hkeep. split; [done|].
  exists r, k. pose proof (executions_safe _ Hsafe). rewrite executions_app. split_and!; try done; lia.
Qed.

Lemma progress_quiet s0 max credit l l' s s' :
  progress s0 max credit l s → follows i l' s s' → quiet l' = true →
  progress s0 max credit (l ++ l') s'.
Proof.
  intros (Hlog & Hauth & Hun & Halive) [Hlog' Hkeep] Hq.
  split; [by rewrite Hlog', Hlog, app_assoc|]. split; [by apply authorized_quiet|].
  split; [by rewrite unended_app, Hun, unended_quiet|]. apply Hkeep.
  by rewrite executions_app, (executions_quiet l'), Nat.add_0_r.
Qed.

Lemma progress_less s0 max credit l s : progress s0 max (credit + 1) l s → progress s0 max credit l s.
Proof.
  intros H. rewrite <- (app_nil_r l). eapply progress_follows; [done|apply follows_refl|by left].
Qed.

Lemma progress_fails s0 max credit l s s' :
  progress s0 max (credit + 1) l s → fails s s' → ∃ l', progress s0 max credit l' s'.
Proof. intros H (l' & Hf & Hs). exists (l ++ l'). by eapply progress_follows. Qed.

(** [beforeStep] pays for one step, or stops the run. *)
Lemma wp_beforeStep n s0 max l Q R s :
  progress s0 max 0 l s →
  (∀ s', progress s0 max 1 l s' → currentStepIndex s' = currentStepIndex s → Q tt s') →
  (∀ e s', progress s0 max 0 l s' → R e s') →
  wp (on_budget (ExecutionBudget.beforeStep reading i n)) Q R s.
Proof.
  intros (Hlog & Hauth & Hun & Halive) HQ HR. apply wp_on_budget. unfold wp.
  pose proof (call_alive (ExecutionBudget.BeforeStep i n) i _ _ _ eq_refl Halive) as Ha.
  cbn [ExecutionBudget.call ExecutionBudget.is_step] in Ha. rewrite bool_decide_true in Ha by done.
  destruct (ExecutionBudget.beforeStep reading i n (budget_ s)) as [[[]|e] b].
  - apply HQ; [|done]. split_and!; try done. cbn in *.
    by replace (Z.of_nat (executions l + 1)) with (Z.of_nat (executions l + 0) + 1)%Z by lia.
  - apply HR. split_and!; try done. cbn in *. by rewrite Z.add_0_r in Ha.
Qed.

(** ** What a passed run has done *)
Definition claims_of (st : ExecutionPlanStep) : option (list string) :=
  match kind st with RunnerProtocol.verify claimIds => Some claimIds | _ => None end.
Definition is_action (st : ExecutionPlanStep) : bool :=
  match claims_of st with None => true | Some _ => false end.

(** The log [l] carries out [todo] and passes the verifications [claims]. *)
Record covers (todo : list ExecutionPlanStep) (claims : list (list string)) (l : list Event)
    : Prop := {
  cov_decisions :
    Forall2 (λ st d, decision_matches d (kind st) = true) (List.filter is_action todo) (decisions l);
  cov_outcomes : length (outcomes l) = length (List.filter is_action todo);
  cov_ok : Forall (λ ao, ok ao.2 = true) (outcomes l);
  cov_claims : (verifications l).*1 = claims;
  cov_passed : Forall (λ cv, ∃ summary, cv.2 = v_passed summary) (verifications l);
}.

Lemma decisions_app l l' : decisions (l ++ l') = decisions l ++ decisions l'.
Proof. apply omap_app. Qed.
Lemma outcomes_app l l' : outcomes (l ++ l') = outcomes l ++ outcomes l'.
Proof. apply omap_app. Qed.
Lemma verifications_app l l' : verifications (l ++ l') = verifications l ++ verifications l'.
Proof. apply omap_app. Qed.

Lemma covers_nil : covers [] [] [].
Proof. by repeat constructor. Qed.

Lemma covers_app t1 t2 c1 c2 l1 l2 :
  covers t1 c1 l1 → covers t2 c2 l2 → covers (t1 ++ t2) (c1 ++ c2) (l1 ++ l2).
Proof.
  intros [A1 A2 A3 A4 A5] [B1 B2 B3 B4 B5].
  split; rewrite ?decisions_app, ?outcomes_app, ?verifications_app, ?List.filter_app.
  - by apply Forall2_app.
  - by rewrite !length_app, A2, B2.
  - by apply Forall_app.
  - by rewrite fmap_app, A4, B4.
  - by apply Forall_app.
Qed.

Lemma covers_recorded st p : covers [] [] (recorded st p).
Proof. by repeat constructor. Qed.

Lemma covers_step trace d a decision o st :
  is_action st = true → decision_matches d (kind st) = true → ok o = true →
  covers [st] [] (step_log trace d a decision o).
Proof. intros Ha Hd Hok. split; cbn; rewrite ?Ha; repeat constructor; done. Qed.

Lemma covers_verified trace claims summary :
  covers [] [claims] (verified_log trace claims (v_passed summary)).
Proof. split; cbn; repeat constructor. by exists summary. Qed.

Lemma covers_verify_step st claims l :
  claims_of st = Some claims → covers [] [claims] l → covers [st] [claims] l.
Proof.
  intros Hc [A1 A2 A3 A4 A5].
  split; try done; cbn; unfold is_action; rewrite Hc; done.
Qed.

Definition is_verify (st : ExecutionPlanStep) : bool := negb (is_action st).

(** The end of the loop, from the log it started with. *)
Definition loop_end (s0 : RT) (max : Z) (todo : list ExecutionPlanStep) (before : bool)
    (acc : list Event) (r : ExecutionCompletion + LoopState) (s : RT) : Prop :=
  match r with
  | inl c => (∃ l, progress s0 max 0 l s) ∧ status c ≠ passed ∧ completion_runId c = i
  | inr st => ∃ l, progress s0 max 0 (acc ++ l) s ∧ covers todo (omap claims_of todo) l ∧
      hasExplicitVerification st = before || existsb is_verify todo
  end.
Definition stopped (s0 : RT) (max : Z) (e : Err) (s : RT) : Prop := ∃ l, progress s0 max 0 l s.

(** The rest of the loop after a step that added [l1]. *)
Lemma loop_end_cons s0 max step todo before before' acc l1 r s :
  covers [step] (option_list (claims_of step)) l1 → before' = before || is_verify step →
  loop_end s0 max todo before' (acc ++ l1) r s → loop_end s0 max (step :: todo) before acc r s.
Proof.
  intros H1 ->. destruct r as [c|st']; [done|]. intros (l2 & Hp & H2 & Hv).
  exists (l1 ++ l2). rewrite app_assoc. split; [done|]. split.
  - change (step :: todo) with ([step] ++ todo). rewrite omap_app.
    apply covers_app; [|done]. cbn. by destruct (claims_of step).
  - cbn. by rewrite Hv, orb_assoc.
Qed.

Lemma wp_rest s0 max step todo before st acc acc' l1 ordinal s1 s :
  (∀ s0 max ordinal st acc s, progress s0 max 0 acc s →
     wp (runSteps job ordinal todo st)
       (loop_end s0 max todo (hasExplicitVerification st) acc) (stopped s0 max) s) →
  progress s0 max 1 acc s1 → follows i l1 s1 s → safe l1 → acc' = acc →
  covers [step] (option_list (claims_of step)) l1 →
  hasExplicitVerification st = before || is_verify step →
  wp (runSteps job ordinal todo st) (loop_end s0 max (step :: todo) before acc') (stopped s0 max) s.
Proof.
  intros IH H1 Hf Hs -> Hc Hv. eapply wp_mono; [apply IH| |done].
  - by eapply progress_follows.
  - intros r s' Hend. by eapply loop_end_cons.
Qed.

Lemma wp_runSteps todo : ∀ s0 max ordinal st acc s,
  progress s0 max 0 acc s →
  wp (runSteps job ordinal todo st)
    (loop_end s0 max todo (hasExplicitVerification st) acc) (stopped s0 max) s.
Proof.
  induction todo as [|step todo IH]; intros s0 max ordinal st acc s Hp; cbn [runSteps].
  { apply wp_ret. exists []. rewrite app_nil_r, orb_false_r. split; [done|].
    split; [apply covers_nil|done]. }
  cbv zeta. apply wp_bind, wp_modify, wp_bind.
  apply (wp_beforeStep _ s0 max acc); [done| |by intros e s' H; exists acc].
  intros s1 H1 _. apply wp_bind.
  assert (∀ e s', fails s1 s' → stopped s0 max e s') as Hfail.
  { intros e s' Hf. by eapply progress_fails. }
  apply (wp_capture _ [] _ _ s1); [apply follows_refl|done| |by intros; apply Hfail, calm_fails].
  intros g s2 H2. cbn [app] in H2.
  assert (∀ c s', fails s1 s' → status c ≠ passed → completion_runId c = i →
    loop_end s0 max (step :: todo) (hasExplicitVerification st) acc (inl c) s') as Hstop.
  { intros c s' Hf Hc Hi. split; [by eapply progress_fails|done]. }
  destruct (claims_of step) as [claimIds|] eqn:Hclaims.
  - pose proof Hclaims as Hk. unfold claims_of in Hk. destruct (kind step) eqn:Hkind; try done.
    injection Hk as ->. apply wp_bind. eapply wp_verify; [done|done| | |by intros; apply Hfail, calm_fails].
    2: { intros c s3 H3 Hc Hi. by apply wp_ret, Hstop; [apply calm_fails|..]. }
    intros summary s3 H3. eapply wp_rest; [done|done|done|by left|done| |].
    + rewrite Hclaims. apply (covers_verify_step _ claimIds); [done|].
      apply (covers_app [] [] [] [claimIds]); [apply covers_recorded|apply covers_verified].
    + unfold is_verify, is_action. rewrite Hclaims. by rewrite orb_true_r.
  - enough (wp (r ← executeStep job (Some step) (default (num_of_Z ordinal) (stepIndex step)) g;
                match r with
                | inl c => mret (inl c)
                | inr (action, outcome) => runSteps job (ordinal + 1) todo
                    {| firstObservation := Some (default g (firstObservation st));
                       lastAction := Some action; lastOutcome := Some outcome;
                       lastStepIndex := default (num_of_Z ordinal) (stepIndex step);
                       hasExplicitVerification := hasExplicitVerification st |}
                end)
      (loop_end s0 max (step :: todo) (hasExplicitVerification st) acc) (stopped s0 max) s2) as Hact.
    { unfold claims_of in Hclaims. by destruct (kind step). }
    apply wp_bind. eapply wp_executeStep; [done|done| | |done].
    2: { intros c s3 H3 Hc Hi. by apply wp_ret, Hstop. }
    intros d a reason desc o s3 H3 Hok Hd.
    eapply wp_rest; [done|done|done|by apply safe_step|done| |].
    + rewrite Hclaims. apply (covers_app [] [step] [] []); [apply covers_recorded|].
      apply covers_step; [by unfold is_action; rewrite Hclaims|done|done].
    + unfold is_verify, is_action. rewrite Hclaims. by rewrite orb_false_r.
Qed.

(** A run that passes has carried out its plan: every action step decided as the
    plan says and executed with the outcome [ok], and every verification passed,
    the expected claims when the plan has no verification of its own.  A job
    without a plan is one action and one verification. *)
Definition accomplished (l : list Event) : Prop :=
  match plan job with
  | Some p =>
      covers (steps p)
        (if existsb is_verify (steps p) then omap claims_of (steps p) else [expectedClaimIds p]) l
  | None =>
      length (decisions l) = 1%nat ∧ length (outcomes l) = 1%nat ∧
      covers [] [[]] (List.filter (λ e, match e with EvVerified _ _ => true | _ => false end) l) ∧
      Forall (λ ao, ok ao.2 = true) (outcomes l)
  end.

Definition completed (s0 : RT) (max : Z) (c : ExecutionCompletion) (s : RT) : Prop :=
  ∃ l, progress s0 max 0 l s ∧ completion_runId c = i ∧ (status c = passed → accomplished l).

Lemma wp_runObjectiveOnly s0 max s :
  plan job = None → progress s0 max 0 [] s →
  wp (runObjectiveOnly job) (completed s0 max) (stopped s0 max) s.
Proof.
  intros Hplan Hp. unfold runObjectiveOnly. cbv zeta. apply wp_bind, wp_modify, wp_bind.
  apply (wp_beforeStep _ s0 max []); [done| |by intros e s' H; exists []].
  intros s1 H1 _. apply wp_bind.
  assert (∀ e s', fails s1 s' → stopped s0 max e s') as Hfail.
  { intros e s' Hf. by eapply progress_fails. }
  apply (wp_capture _ [] _ _ s1); [apply follows_refl|done| |by intros; apply Hfail, calm_fails].
  intros g s2 H2. cbn [app] in H2. apply wp_bind.
  eapply wp_executeStep; [done|done| | |done].
  2: { intros c s3 H3 Hc Hi. apply wp_ret. apply (progress_fails s0 max 0 _ _ _ H1) in H3 as [l Hl].
       exists l. by split_and!. }
  intros d a reason desc o s3 H3 Hok _. apply wp_bind.
  pose proof (safe_step (recorded None (t_observation g)) (traceIndex job (num_of_Z 0)) d a reason desc o
                eq_refl) as Hsafe.
  pose proof (progress_follows s0 max 0 [] _ s1 s3 H1 H3 Hsafe) as H4. cbn [app] in H4.
  assert (∀ s', calm s3 s' → ∃ l, progress s0 max 0 l s') as Hcalm.
  { intros s' (l & Hl & Hq). eexists. by eapply progress_quiet. }
  apply (wp_capture _ [] _ _ s3); [apply follows_refl|done| |by intros; apply Hcalm].
  intros g' s5 H5. apply wp_bind. eapply wp_verify; [done|done| | |by intros; apply Hcalm].
  2: { intros c s6 H6 Hc Hi. apply wp_ret. destruct (Hcalm _ H6) as [l Hl].
       exists l. by split_and!. }
  intros summary s6 H6. apply wp_ret. cbn [default]. cbn [vc_claimIds vc_stepIndex] in H6.
  eexists. split; [eapply progress_quiet; [exact H4|exact H6|done]|]. split; [done|]. intros _.
  unfold accomplished. rewrite Hplan. split_and!; [done|done| |cbn; by repeat constructor].
  split; cbn; repeat constructor. by exists summary.
Qed.

Lemma wp_runUntilCompletion s0 max s :
  progress s0 max 0 [] s →
  wp (runUntilCompletion job) (completed s0 max) (stopped s0 max) s.
Proof.
  intros Hp. unfold runUntilCompletion.
  destruct (plan job) as [p|] eqn:Hplan; [|by apply wp_runObjectiveOnly].
  apply wp_bind. eapply wp_mono; [by apply (wp_runSteps _ s0 max _ initial_loop [])| |done].
  intros [c|st] s1.
  { intros ([l Hl] & Hc & Hi). apply wp_ret. exists l. by split_and!. }
  intros (l & Hl & Hcov & Hv). cbn [app] in Hl.
  destruct (hasExplicitVerification st); cbn in Hv.
  { apply wp_ret. exists l. split; [done|]. split; [done|]. intros _. unfold accomplished.
    by rewrite Hplan, <- Hv. }
  assert (∀ s', calm s1 s' → ∃ l, progress s0 max 0 l s') as Hcalm.
  { intros s' (l' & Hl' & Hq). eexists. by eapply progress_quiet. }
  apply wp_bind. apply (wp_capture _ [] _ _ s1); [apply follows_refl|done| |by intros; apply Hcalm].
  intros g s2 H2. apply wp_bind. eapply wp_verify; [done|done| | |by intros; apply Hcalm].
  2: { intros c s6 H6 Hc Hi. apply wp_ret. destruct (Hcalm _ H6) as [l' Hl'].
       exists l'. by split_and!. }
  intros summary s6 H6. apply wp_ret. cbn [default]. cbn [vc_claimIds vc_stepIndex] in H6.
  eexists. split; [eapply progress_quiet; [exact Hl|exact H6|done]|]. split; [done|]. intros _.
  unfold accomplished. rewrite Hplan, <- Hv.
  assert (omap claims_of (steps p) = []) as Hnone.
  { clear -Hv. symmetry in Hv. induction (steps p) as [|st l IH]; [done|]. cbn in *.
    unfold is_verify, is_action in Hv. destruct (claims_of st); [done|]. by apply IH. }
  rewrite Hnone in Hcov.
  pose proof (covers_app _ _ _ _ _ _ Hcov (covers_app [] [] [] _ _ _
    (covers_recorded (Some (lastStepIndex st)) (t_observation g))
    (covers_verified (traceIndex job (lastStepIndex st)) (expectedClaimIds p) summary))) as Hall.
  by rewrite !app_nil_r in Hall.
Qed.

(** ** The whole run *)
Lemma wp_finally {A} (m : M A) f Q R s :
  wp m (λ a s', wp f (λ _ s'', Q a s'') R s') (λ e s', wp f (λ _ s'', R e s'') R s') s →
  wp (finally m f) Q R s.
Proof.
  unfold wp, finally. destruct (m s) as [[a|e] s']; by destruct (f s') as [[]].
Qed.

Lemma wp_recordTerminal c st Q R s :
  let t := terminalTraceInput c st in
  (∀ s', log s' = log s ++ [EvAppend t; EvAppended t] → Q tt s') →
  (∀ e s', log s' = log s ++ [EvAppend t] → R e s') →
  wp (recordTerminal c st) Q R s.
Proof.
  intros t HQ HR. unfold recordTerminal. cbv zeta. apply wp_bind, wp_modify, wp_bind.
  unfold start. apply wp_bind, wp_get. destruct (append_ deps _ _) as [r w].
  apply wp_bind, wp_modify, wp_ret, wp_bind.
  apply (wp_for_each _ _ (λ l s', Forall (λ t, ∃ c, t = Activity c) l ∧ log s' = log s ++ [EvAppend t])).
  - split; [|done]. rewrite Forall_forall. intros tk [_ Htk]%list_elem_of_In%List.filter_In.
    destruct tk; try done. by eexists.
  - intros tk l s1 [Hl Hlog]. apply Forall_cons in Hl as [[c' ->] Hl]. unfold tick, wp. by split.
  - intros s1 [_ Hlog]. apply wp_bind, wp_settle; [|by intros; apply HR].
    intros []. apply wp_modify, HQ. cbn. by rewrite Hlog, <- app_assoc.
Qed.

(** How a run that was begun ends. *)
Definition ended (max : Z) (o : outcome Err ExecutionCompletion) (s0 s : RT) : Prop :=
  ∃ l t, log s = log s0 ++ l ++ t ∧ authorized_log l ∧ unended l = true ∧
    (Z.of_nat (executions l) <= max)%Z ∧ ExecutionBudget.runs (budget_ s) !! i = None ∧
    match o with
    | Ok c => ∃ st, t = [EvAppend (terminalTraceInput c st); EvAppended (terminalTraceInput c st)] ∧
        completion_runId c = i ∧ (status c = passed → accomplished l)
    | Throw e => t = [] ∨ ∃ c st cause, e = TerminalTracePersistenceError cause ∧
        t = [EvAppend (terminalTraceInput c st)] ∧ completion_runId c = i
    end.

Lemma progress_bound s0 max credit l s :
  progress s0 max credit l s → (Z.of_nat (executions l) <= max)%Z.
Proof. intros (_ & _ & _ & _ & r & k & _ & _ & _ & ?). lia. Qed.

Lemma completionFromError_run e c :
  completionFromError job e = Some c → completion_runId c = i ∧ status c ≠ passed.
Proof.
  assert (∀ (b : bool) code, (if b then error code else blocked (Some code)) ≠ passed) as Hb
    by by intros [].
  destruct e; cbn [completionFromError]; try done; intros [= <-]; (split; [done|]);
    first [apply Hb|done].
Qed.

Lemma finish_ends max o l t s0 s :
  log s = log s0 ++ l ++ t → authorized_log l → unended l = true →
  (Z.of_nat (executions l) <= max)%Z →
  match o with
  | Ok c => ∃ st, t = [EvAppend (terminalTraceInput c st); EvAppended (terminalTraceInput c st)] ∧
      completion_runId c = i ∧ (status c = passed → accomplished l)
  | Throw e => t = [] ∨ ∃ c st cause, e = TerminalTracePersistenceError cause ∧
      t = [EvAppend (terminalTraceInput c st)] ∧ completion_runId c = i
  end →
  ∀ R, wp (on_budget (ExecutionBudget.finish i)) (λ _ s', ended max o s0 s') R s.
Proof.
  intros Hlog Ha Hu He Ho R. apply wp_on_budget. unfold ExecutionBudget.finish. apply wp_modify.
  exists l, t. split_and!; try done. cbn. by rewrite lookup_delete_eq.
Qed.

Lemma wp_body s0 max s :
  progress s0 max 0 [] s →
  wp (finally
    (c ← try_catch (runUntilCompletion job) (λ e,
       match completionFromError job e with None => throw e | Some c => mret c end);
     s ← get;
     try_catch
       (_ ← recordTerminal c (match plan job with None => None | Some _ => currentStepIndex s end);
        mret c)
       (λ cause, match cause with
                 | TerminalTracePersistenceError _ => throw cause
                 | _ => throw (TerminalTracePersistenceError (message_of cause))
                 end))
    (on_budget (ExecutionBudget.finish i)))
    (λ c, ended max (Ok c) s0) (λ e, ended max (Throw e) s0) s.
Proof.
  intros Hp. apply wp_finally, wp_bind, wp_try_catch.
  set (fin := on_budget (ExecutionBudget.finish i)).
  assert (∀ c s1, completed s0 max c s1 →
    wp (s ← get;
        try_catch
          (_ ← recordTerminal c (match plan job with None => None | Some _ => currentStepIndex s end);
           mret c)
          (λ cause, match cause with
                    | TerminalTracePersistenceError _ => throw cause
                    | _ => throw (TerminalTracePersistenceError (message_of cause))
                    end))
      (λ a s', wp fin (λ _ s'', ended max (Ok a) s0 s'') (λ e, ended max (Throw e) s0) s')
      (λ e s', wp fin (λ _ s'', ended max (Throw e) s0 s'') (λ e, ended max (Throw e) s0) s') s1)
    as Hterminal.
  { intros c s1 (l & Hl & Hi & Hacc). pose proof (progress_bound _ _ _ _ _ Hl) as Hb.
    destruct Hl as (Hlog & Ha & Hu & _). apply wp_bind, wp_get, wp_try_catch, wp_bind.
    apply wp_recordTerminal.
    - intros s2 H2. apply wp_ret. rewrite Hlog, <- app_assoc in H2.
      eapply finish_ends; [done..|]. by eexists.
    - intros e s2 H2. rewrite Hlog, <- app_assoc in H2.
      assert (∀ m, wp fin (λ _ s'', ended max (Throw (TerminalTracePersistenceError m)) s0 s'')
                     (λ e, ended max (Throw e) s0) s2) as Hend.
      { intros m. eapply finish_ends; [done..|]. right. by eexists _, _, _. }
      destruct e; apply wp_throw; apply Hend. }
  eapply wp_mono; [by apply wp_runUntilCompletion| |].
  - intros c s1 Hc. by apply Hterminal.
  - intros e s1 [l Hl]. destruct (completionFromError job e) as [c|] eqn:He.
    + apply wp_ret, Hterminal. apply completionFromError_run in He as [Hi Hn]. exists l. by split_and!.
    + apply wp_throw. pose proof (progress_bound _ _ _ _ _ Hl) as Hb.
      destruct Hl as (Hlog & Ha & Hu & _). eapply (finish_ends _ _ l []); rewrite ?app_nil_r; [done..|].
      by left.
Qed.

(** The maximum number of steps of the job. *)
Definition maximum_of : number :=
  match plan job with Some p => maximumStepsPerJob (budget p) | None => num_of_Z 1 end.

Lemma wp_run wall tokens s :
  ExecutionBudget.Inv (budget_ s) →
  wp (run wall tokens job)
    (λ c s', ∃ max, maximum_of = num_of_Z max ∧ ended max (Ok c) s s')
    (λ e s', (∃ e', e = BudgetError e' ∧ log s' = log s) ∨
       ∃ max, maximum_of = num_of_Z max ∧ ended max (Throw e) s s') s.
Proof.
  intros HI. unfold run. apply wp_bind, wp_modify, wp_bind, wp_on_budget. unfold wp at 1.
  pose proof (ExecutionBudget.call_inv reading (ExecutionBudget.Begin wall tokens job) _ HI) as HI1.
  unfold exec in HI1. cbn [ExecutionBudget.call] in HI1. cbn [budget_ enter].
  destruct (ExecutionBudget.begin reading wall tokens job (budget_ s)) as [[[]|e] b] eqn:Hb.
  2: { left. by exists e. }
  destruct (ExecutionBudget.begin_sets reading _ _ _ _ _ Hb) as (r & max & Hr & Hmax & H0 & _ & Hsrc).
  assert (maximum_of = num_of_Z max) as Hm.
  { unfold maximum_of. destruct (plan job); [congruence|by rewrite Hsrc]. }
  assert (progress (set_budget b (enter s)) max 0 [] (set_budget b (enter s))) as Hp.
  { split; [by rewrite app_nil_r|]. split; [by intros [] a l2|]. split; [done|].
    split; [exact HI1|].
    exists r, 0%Z. destruct (ExecutionBudget.rw_steps _ (HI1 _ _ Hr)) as (m & k & Hm' & Hk & ? & ?).
    rewrite Hmax in Hm'. apply num_of_Z_inj in Hm' as ->.
    split_and!; try done; cbn; lia. }
  eapply wp_mono; [by apply (wp_body (set_budget b (enter s)) max)| |].
  - intros c s' (l & t & H). by exists max; split; [|exists l, t].
  - intros e s' (l & t & H). right. by exists max; split; [|exists l, t].
Qed.

Lemma run_cases wall tokens s o s' :
  ExecutionBudget.Inv (budget_ s) → log s = [] → run wall tokens job s = (o, s') →
  (∃ e, o = Throw (BudgetError e) ∧ log s' = []) ∨
  ∃ max, maximum_of = num_of_Z max ∧ ended max o s s'.
Proof.
  intros HI Hlog Hrun. pose proof (wp_run wall tokens s HI) as H. unfold wp in H.
  rewrite Hrun in H. destruct o as [c|e]; [by right|].
  destruct H as [(e' & -> & Hl)|H]; [|by right]. left. exists e'. by rewrite Hl.
Qed.

(** An unknown outcome is an error.  When an allowed action was dispatched,
    the step either reports its outcome [ok] or completes with the error
    [ActionOutcomeUnknown], it throws [ActionOutcomeUnknownError], nothing was
    started for this step, or the executor did report the outcome and the
    failure is that of recording it. *)
Theorem unknown_outcome_reported trace a reason desc s r s' :
  perform job trace a (allowed reason desc) s = (r, s') → dispatchStarted s' = true →
  match r with
  | Ok (inr (a', o)) => a' = a ∧ ok o = true
  | Ok (inl c) => status c = error "ActionOutcomeUnknown"
  | Throw e => e = ActionOutcomeUnknownError ∨
      (∃ l, log s' = log s ++ l ∧ executions l = O) ∨ (∃ o, EvExecuted a o ∈ log s')
  end.
Proof.
  intros Hrun. enough (wp (perform job trace a (allowed reason desc))
    (λ r s', dispatchStarted s' = true →
       match r with inr (a', o) => a' = a ∧ ok o = true
                  | inl c => status c = error "ActionOutcomeUnknown" end)
    (λ e s', dispatchStarted s' = true → e = ActionOutcomeUnknownError ∨
      (∃ l, log s' = log s ++ l ∧ executions l = O) ∨ (∃ o, EvExecuted a o ∈ log s')) s) as H.
  { unfold wp in H. rewrite Hrun in H. by destruct r. }
  assert (∀ l s', follows i l s s' → quiet l = true → ∃ l, log s' = log s ++ l ∧ executions l = O)
    as Hquiet.
  { intros l s1 [Hl _] Hq. exists l. split; [done|by apply executions_quiet]. }
  unfold perform. apply wp_bind.
  eapply (wp_record_after _ _ [] _ _ s); [apply follows_refl|done|done| |].
  2: { intros e s1 (l & Hl & Hq) _. right. left. by eapply Hquiet. }
  intros s1 H1. apply wp_bind.
  eapply (wp_query i _ (ExecutionBudget.MaximumOutputTokens i)); [done|done| |].
  2: { intros e s2 H2 _. right. left. eapply Hquiet; [by eapply follows_trans|done]. }
  intros n s2 H2. pose proof (follows_trans i _ _ _ _ _ H1 H2) as H3. clear H1 H2.
  apply wp_bind. cbn [fromAllowedDecision settle]. apply wp_ret, wp_bind, wp_modify.
  set (fresh := {| permit_reason := _ |}). apply wp_bind, wp_try_catch, wp_bind.
  apply (wp_within i); [by apply wb_execute| |].
  2: { intros e l s5 Hl H5. apply wp_bind, wp_get.
       destruct (dispatchStarted s5) eqn:Hd; apply wp_throw; [intros _; by left|].
       intros Hd'. by rewrite Hd in Hd'. }
  intros o s5 H5. apply wp_bind, wp_modify, wp_ret, wp_bind.
  apply wp_recordStage.
  2: { intros e l s8 _ [Hl _] _. right. right. exists o. rewrite Hl. cbn. set_solver. }
  intros s8 _. destruct (ok o) eqn:Hok; [by apply wp_ret|]. apply wp_bind, wp_get.
  destruct (dispatchStarted s8) eqn:Hd; cbn [orb]; [by apply wp_ret|].
  destruct (bool_decide _); apply wp_ret; [done|]. intros Hd'. by rewrite Hd in Hd'.
Qed.

(** C1: no action without authority.  In every run, whatever the dependencies
    answer and wherever a deadline or an abort strikes, each start of an action
    comes immediately after the gate allowed that very action and the
    authorization was durably recorded. *)
Theorem executions_authorized wall tokens s o s' :
  ExecutionBudget.Inv (budget_ s) → log s = [] → run wall tokens job s = (o, s') →
  authorized_log (log s').
Proof.
  intros HI Hlog Hrun. destruct (run_cases _ _ _ _ _ HI Hlog Hrun) as [(e & _ & ->)|(max & _ & H)].
  { by intros [] a l2. }
  destruct H as (l & t & -> & Ha & _ & _ & _ & Ht). rewrite Hlog. cbn [app].
  assert (∀ a, EvExecute a ∉ t) as Hno.
  { destruct o as [c|e].
    - destruct Ht as (st & -> & _). set_solver.
    - destruct Ht as [->|(c & st & cause & _ & -> & _)]; set_solver. }
  intros l1 a l2 Heq. apply app_eq_app in Heq as (m & [[-> H]|[-> ->]]).
  - destruct m as [|e m]; cbn in H; [destruct (Hno a); rewrite <- H; set_solver|].
    injection H as <- ->. by apply (Ha l1 a m).
  - destruct (Hno a). set_solver.
Qed.

(** The step budget of a run.  A run starts at most as many actions as the
    plan's [maximumStepsPerJob], and at most one without a plan. *)
Theorem executions_within_budget wall tokens s o s' :
  ExecutionBudget.Inv (budget_ s) → log s = [] → run wall tokens job s = (o, s') →
  ∃ max, (maximum_of = num_of_Z max ∨ max = 0%Z) ∧ (Z.of_nat (executions (log s')) <= max)%Z.
Proof.
  intros HI Hlog Hrun. destruct (run_cases _ _ _ _ _ HI Hlog Hrun) as [(e & _ & ->)|(max & Hm & H)].
  { exists 0%Z. split; [by right|done]. }
  exists max. split; [by left|]. destruct H as (l & t & -> & _ & _ & Hle & _ & Ht).
  rewrite Hlog. cbn [app]. rewrite executions_app.
  enough (executions t = O) by lia. destruct o as [c|e].
  - by destruct Ht as (st & -> & _).
  - by destruct Ht as [->|(c & st & cause & _ & -> & _)].
Qed.

(** C2: one terminal event.  A run that returns a completion has recorded exactly
    one end of the run, as its last event, with the status it returns; a run
    that throws has recorded none, at most a last attempt that was not
    acknowledged.  In every case the budget of the run is released. *)
Theorem run_ends_once wall tokens s o s' :
  ExecutionBudget.Inv (budget_ s) → log s = [] → run wall tokens job s = (o, s') →
  match o with
  | Ok c => ∃ l st, log s' = l ++ [EvAppend (terminalTraceInput c st); EvAppended (terminalTraceInput c st)]
      ∧ unended l = true ∧ completion_runId c = i ∧ ExecutionBudget.runs (budget_ s') !! i = None
  | Throw e =>
      (∃ e', e = BudgetError e' ∧ log s' = []) ∨
      ExecutionBudget.runs (budget_ s') !! i = None ∧
      ∃ l, unended l = true ∧ (log s' = l ∨
        ∃ c st cause, log s' = l ++ [EvAppend (terminalTraceInput c st)] ∧
          e = TerminalTracePersistenceError cause)
  end.
Proof.
  intros HI Hlog Hrun. destruct (run_cases _ _ _ _ _ HI Hlog Hrun) as [(e & -> & Hl)|(max & _ & H)].
  { left. by exists e. }
  destruct H as (l & t & Hl & _ & Hu & _ & Hnone & Ht). rewrite Hlog in Hl. cbn [app] in Hl.
  destruct o as [c|e].
  - destruct Ht as (st & -> & Hi & _). by exists l, st.
  - right. split; [done|]. exists l. split; [done|]. destruct Ht as [->|(c & st & cause & -> & -> & _)].
    + left. by rewrite app_nil_r in Hl.
    + right. by exists c, st, cause.
Qed.

(** C3: what [passed] means.  A run that returns [passed] has [accomplished] its
    job. *)
Theorem passed_accomplished wall tokens s c s' :
  ExecutionBudget.Inv (budget_ s) → log s = [] → run wall tokens job s = (Ok c, s') →
  status c = passed →
  ∃ l, accomplished l ∧ unended l = true ∧ ∃ st,
    log s' = l ++ [EvAppend (terminalTraceInput c st); EvAppended (terminalTraceInput c st)].
Proof.
  intros HI Hlog Hrun Hc. destruct (run_cases _ _ _ _ _ HI Hlog Hrun) as [(e & ? & Hl)|(max & _ & H)];
    [done|]. destruct H as (l & t & Hl & _ & Hu & _ & _ & st & -> & _ & Hacc).
  rewrite Hlog in Hl. cbn [app] in Hl. exists l. split; [by apply Hacc|]. split; [done|]. by exists st.
Qed.
End stages.
End runtime.

(** ** A sample environment: every dependency answers at once *)
Definition at_once {A} (a : A) (w : unit) : Race A * unit := ({| waiting := []; settled := Ok a |}, w).

Definition demo_decide (step : option ExecutionPlanStep) : ProposedAction :=
  match step with
  | Some {| kind := navigate path |} => p_navigate path "open the page"
  | _ => p_click "node" "the button"
  end.
Definition demo_resolve (d : ProposedAction) : ResolvedAction :=
  match d with
  | p_navigate path _ => WebNavigate path
  | _ => WebClick {| nodeId := "node"; selector := "button" |} "graph"
  end.

Section sample.
Context (answer : ActionOutcome).

Definition demo_dependencies : Dependencies (W := unit) (Graph := unit) :=
  {| observe := λ _, at_once tt;
     decide_ := λ _ _ step _, at_once (demo_decide step);
     resolve := λ d _, at_once (demo_resolve d);
     authorize_ := λ a job, at_once
       (authorize demo_url demo_digits demo_sha256 demo_policy demo_now a job);
     execute := λ _ _ w,
       ({| waiting := [Dispatch None None None None]; settled := Ok answer |}, w);
     verify_ := λ _ _, at_once (v_passed "as expected");
     append_ := λ _, at_once tt;
     aborted := λ _, None |}.

Lemma demo_well_behaved i : well_behaved demo_dependencies i.
Proof. split; intros; intros w; repeat constructor. Qed.

Definition demo_start : RT (W := unit) (Graph := unit) :=
  {| budget_ := ExecutionBudget.empty_state; world := tt; permit := None;
     currentStepIndex := None; log := [] |}.

Definition demo_run (reading : nat → number) : outcome Err ExecutionCompletion * RT :=
  run reading demo_dependencies (λ _, None) (λ _, []) (num_of_Z 1000) (num_of_Z 100) demo_job
    demo_start.
End sample.

Definition all_well : ActionOutcome := {| ok := true; errorCode := None |}.
Definition still_clock (n : nat) : number := num_of_Z 0.
Definition demo_passed : RT := (demo_run all_well still_clock).2.

Definition demo_action : ResolvedAction := demo_resolve (p_click "node" "the button").
Definition demo_permitted : PolicyDecision := allowed "PolicyAllowed" None.
Definition timed_out : ActionOutcome := {| ok := false; errorCode := Some "Timeout" |}.

(** A clock that jumps past the deadline at its twelfth reading. *)
Definition jumping_clock (n : nat) : number := num_of_Z (if (n <? 12)%nat then 0 else 100000).

(** Where the outcome of a started action is lost.  The executor reports that
    the action it dispatched failed, and the deadline passes before that report
    is recorded: the run is completed as [blocked], the status of an action that
    was never started, and not with [ActionOutcomeUnknown]. *)
Theorem lost_outcome_blocked :
  let '(o, s) := demo_run timed_out jumping_clock in
  o = Ok (completion demo_job (blocked (Some "WallClockBudgetExceeded"))) ∧
  dispatchStarted s = true ∧
  omap (λ e, match e with EvExecuted a o => Some (kind_of a, ok o) | _ => None end) (log s)
    = [(k_navigate, false)].
Proof. vm_compute. split_and!; reflexivity. Qed.

(** ** Witnesses *)
Lemma demo_begins : ExecutionBudget.Inv (budget_ demo_start).
Proof. exact ExecutionBudget.empty_inv. Qed.

Lemma executions_authorized_witness :
  authorized_log (log (demo_run all_well still_clock).2).
Proof.
  apply (executions_authorized still_clock (demo_dependencies all_well) (λ _, None) (λ _, [])
           demo_job (demo_well_behaved all_well _) (num_of_Z 1000) (num_of_Z 100) demo_start
           (demo_run all_well still_clock).1).
  - exact demo_begins.
  - reflexivity.
  - apply surjective_pairing.
Defined.

Lemma executions_within_budget_witness :
  ∃ max, (maximum_of demo_job = num_of_Z max ∨ max = 0%Z) ∧
    (Z.of_nat (executions (log (demo_run all_well still_clock).2)) <= max)%Z.
Proof.
  apply (executions_within_budget still_clock (demo_dependencies all_well) (λ _, None) (λ _, [])
           demo_job (demo_well_behaved all_well _) (num_of_Z 1000) (num_of_Z 100) demo_start
           (demo_run all_well still_clock).1).
  - exact demo_begins.
  - reflexivity.
  - apply surjective_pairing.
Defined.

Lemma run_ends_once_witness :
  ∃ l st, log (demo_run all_well still_clock).2
    = l ++ [EvAppend (terminalTraceInput (passedCompletion demo_job) st);
            EvAppended (terminalTraceInput (passedCompletion demo_job) st)] ∧
    unended l = true ∧ completion_runId (passedCompletion demo_job) = runId demo_job ∧
    ExecutionBudget.runs (budget_ (demo_run all_well still_clock).2) !! runId demo_job = None.
Proof.
  apply (run_ends_once still_clock (demo_dependencies all_well) (λ _, None) (λ _, [])
           demo_job (demo_well_behaved all_well _) (num_of_Z 1000) (num_of_Z 100) demo_start
           (Ok (passedCompletion demo_job))).
  - exact demo_begins.
  - reflexivity.
  - vm_compute. reflexivity.
Defined.

Lemma passed_accomplished_witness :
  ∃ l, accomplished demo_job l ∧ unended l = true ∧ ∃ st,
    log (demo_run all_well still_clock).2
    = l ++ [EvAppend (terminalTraceInput (passedCompletion demo_job) st);
            EvAppended (terminalTraceInput (passedCompletion demo_job) st)].
Proof.
  apply (passed_accomplished still_clock (demo_dependencies all_well) (λ _, None) (λ _, [])
           demo_job (demo_well_behaved all_well _) (num_of_Z 1000) (num_of_Z 100) demo_start).
  - exact demo_begins.
  - reflexivity.
  - vm_compute. reflexivity.
  - reflexivity.
Defined.

Definition demo_performed : outcome Err (ExecutionCompletion + (ResolvedAction * ActionOutcome)) * RT :=
  perform still_clock (demo_dependencies timed_out) demo_job None demo_action demo_permitted
    (set_budget ExecutionBudget.demo_active demo_start).

Lemma unknown_outcome_reported_witness :
  demo_performed = (Ok (inl (completion demo_job (error "ActionOutcomeUnknown"))), demo_performed.2) ∧
  dispatchStarted demo_performed.2 = true ∧
  status (completion demo_job (error "ActionOutcomeUnknown")) = error "ActionOutcomeUnknown".
Proof.
  assert (demo_performed =
    (Ok (inl (completion demo_job (error "ActionOutcomeUnknown"))), demo_performed.2)) as H1
    by (vm_compute; reflexivity).
  assert (dispatchStarted demo_performed.2 = true) as H2 by (vm_compute; reflexivity).
  split; [exact H1|]. split; [exact H2|].
  exact (unknown_outcome_reported still_clock (demo_dependencies timed_out)
           demo_job (demo_well_behaved timed_out _) None demo_action "PolicyAllowed" None
           (set_budget ExecutionBudget.demo_active demo_start) _ _ H1 H2).
Defined.

End ExecutionRuntime.
