(* ===== verification/RunnerControl.v ===== *)
(** * Runner control: leases, completions and resume tokens

    Models [packages/core-modules/runner-control/src/runner-control-store.ts],
    its SQLite store
    [packages/storage-providers/sqlite-runtime/src/sqlite-runner-control-store.ts]
    over the tables of migration 006 (which declares no foreign keys), and the
    services [run-ownership-service.ts] and [runner-resume-token-service.ts] of
    [packages/core-application/src/runner/].

    A store call is atomic; a service method is a program of store calls and
    clock readings, between which any other party may act.  Lease rows keep the
    stored JSON of their job and parse it again on every read.  SHA-256,
    [new URL] and the text of a number are parameters. *)
From S2P Require Import Prelude.
From S2P Require Import Number.
From S2P Require Import Json.
From S2P Require Import IsoTime.
From S2P Require Import CanonicalJson.
From S2P Require Import AppTarget.
From S2P Require Import RunnerProtocol.
From S2P Require Import PolicyGate.
From S2P Require Import ExecutionRuntime.

Module RunnerControl.
Import RunnerProtocol ExecutionRuntime.

(** ** Records *)
(** The codes of [RunnerControlStoreError]; [Busy], [ConstraintViolation] and
    [MissingTenant] stand for the errors of the database layer. *)
Inductive StoreError :=
  | PolicyMissing | CompletionIdentityMismatch
  | Busy | ConstraintViolation | MissingTenant.

Record ResumePresentedIdentity := {
  presented_runnerId : string;
  presented_certificateFingerprint : string;
  presented_protocolMajor : Z;
}.
Record ResumeTokenBinding := {
  binding_runnerId : string;
  binding_certificateFingerprint : string;
  previousSessionId : string;
  binding_protocolMajor : Z;
}.
Record PersistedRunnerSession := {
  sessionId : string;
  session_runnerId : string;
  session_certificateFingerprint : string;
  capabilities : list string;
  session_protocolMajor : Z;
  createdAt : string;
}.
Record PersistedLeaseOwner := { owner_runnerId : string; owner_sessionId : string }.

#[export] Instance owner_eq_dec : EqDecision PersistedLeaseOwner.
Proof. solve_decision. Defined.

Record HashedResumeTokenRecord := {
  tokenHash : string;
  token_binding : ResumeTokenBinding;
  token_expiresAt : string;
}.
Record PersistedExecutionLease := {
  lease_job : AcceptedExecutionJob;
  lease_owner : PersistedLeaseOwner;
  leaseEpoch : Z;
  leaseTokenHash : string;
  lease_expiresAt : string;
  lostAt : option string;
  completedAt : option string;
  recoveryOfRunId : option string;
}.
Record RunnerCompletionRecord := {
  record_runId : string;
  record_jobId : string;
  record_jobSha256 : string;
  record_completion : ExecutionCompletion;
  record_completedAt : string;
}.

Inductive CompleteLeaseResult :=
  | r_completed | r_duplicate | r_rejected
  | completion_conflict (storedCompletion : ExecutionCompletion).
Inductive RotateOutcome := rotated | idempotent_retry.

Record RotateResumeTokenInput := {
  presentedTokenHash : string;
  replacementTokenHash : string;
  replacementExpiresAt : string;
  rotate_presented : ResumePresentedIdentity;
  rotatedAt : string;
}.

(** The lease a caller presents to the store. *)
Record PresentedLease := {
  p_runId : string;
  p_jobId : string;
  p_owner : PersistedLeaseOwner;
  p_leaseEpoch : Z;
  p_leaseTokenHash : string;
  p_checkedAt : string;
}.

(** ** Tables *)
Record TokenRow := {
  t_runner_id : string;
  t_certificate_fingerprint : string;
  t_previous_session_id : string;
  t_protocol_major : Z;
  t_expires_at : string;
  consumed_at : option string;
}.
Record LeaseRow := {
  job_id : string;
  runner_id : string;
  session_id : string;
  lease_epoch : Z;
  job_json : json;
  lease_token_hash : string;
  expires_at : string;
  lost_at : option string;
  completed_at : option string;
  recovery_of_run_id : option string;
}.
Record SessionRow := {
  s_runner_id : string;
  s_certificate_fingerprint : string;
  s_capabilities : list string;
  s_protocol_major : Z;
  created_at : string;
  closed_at : option string;
}.
Record CompletionRow := {
  c_job_id : string;
  completion_json : ExecutionCompletion;
  c_completed_at : string;
}.
Record Db := {
  runner_sessions : gmap string SessionRow;
  runner_resume_tokens : gmap string TokenRow;
  execution_leases : gmap string LeaseRow;
  execution_completions : gmap string CompletionRow;
}.

Definition set_sessions (m : gmap string SessionRow) (db : Db) : Db :=
  {| runner_sessions := m; runner_resume_tokens := runner_resume_tokens db;
     execution_leases := execution_leases db; execution_completions := execution_completions db |}.
Definition set_tokens (m : gmap string TokenRow) (db : Db) : Db :=
  {| runner_sessions := runner_sessions db; runner_resume_tokens := m;
     execution_leases := execution_leases db; execution_completions := execution_completions db |}.
Definition set_leases (m : gmap string LeaseRow) (db : Db) : Db :=
  {| runner_sessions := runner_sessions db; runner_resume_tokens := runner_resume_tokens db;
     execution_leases := m; execution_completions := execution_completions db |}.
Definition set_completions (m : gmap string CompletionRow) (db : Db) : Db :=
  {| runner_sessions := runner_sessions db; runner_resume_tokens := runner_resume_tokens db;
     execution_leases := execution_leases db; execution_completions := m |}.

Definition consume_token (at_ : string) (r : TokenRow) : TokenRow :=
  {| t_runner_id := t_runner_id r; t_certificate_fingerprint := t_certificate_fingerprint r;
     t_previous_session_id := t_previous_session_id r; t_protocol_major := t_protocol_major r;
     t_expires_at := t_expires_at r; consumed_at := Some at_ |}.
Definition with_expiry (e : string) (r : LeaseRow) : LeaseRow :=
  {| job_id := job_id r; runner_id := runner_id r; session_id := session_id r;
     lease_epoch := lease_epoch r; job_json := job_json r; lease_token_hash := lease_token_hash r;
     expires_at := e; lost_at := lost_at r; completed_at := completed_at r;
     recovery_of_run_id := recovery_of_run_id r |}.
Definition with_lost (at_ : string) (r : LeaseRow) : LeaseRow :=
  {| job_id := job_id r; runner_id := runner_id r; session_id := session_id r;
     lease_epoch := lease_epoch r; job_json := job_json r; lease_token_hash := lease_token_hash r;
     expires_at := expires_at r; lost_at := Some at_; completed_at := completed_at r;
     recovery_of_run_id := recovery_of_run_id r |}.
Definition with_completed (at_ : string) (r : LeaseRow) : LeaseRow :=
  {| job_id := job_id r; runner_id := runner_id r; session_id := session_id r;
     lease_epoch := lease_epoch r; job_json := job_json r; lease_token_hash := lease_token_hash r;
     expires_at := expires_at r; lost_at := lost_at r; completed_at := Some at_;
     recovery_of_run_id := recovery_of_run_id r |}.

(** ** Canonical payload hash *)
Definition severity_name (s : Severity) : string :=
  match s with low => "low" | medium => "medium" | high => "high" end.

Definition encode_finding (f : FindingEnvelope) : json :=
  JObj [("findingId", JStr (findingId f)); ("runId", JStr (finding_runId f));
        ("title", JStr (title f)); ("summary", JStr (finding_summary f));
        ("severity", JStr (severity_name (severity f)));
        ("evidenceRefs", encode_strings (finding_evidenceRefs f))].

Definition encode_completion (c : ExecutionCompletion) : json :=
  JObj (("jobId", JStr (completion_jobId c)) :: ("runId", JStr (completion_runId c)) ::
    match status c with
    | passed => [("status", JStr "passed")]
    | finding f => [("status", JStr "finding"); ("finding", encode_finding f)]
    | blocked e => ("status", JStr "blocked") :: opt_field "errorCode" JStr e
    | error e => [("status", JStr "error"); ("errorCode", JStr e)]
    end).

Section store.
Context (parse_url : string → option Url) (number_text : number → string) (sha256 : string → string).

Definition M := js Db StoreError.

(** [canonicalPayloadHash] of [packages/contracts/runner-protocol/src/index.ts]. *)
Definition canonicalPayloadHash (payload : json) : string :=
  sha256 (CanonicalJson.canonicalize number_text payload).
Definition completionHash (c : ExecutionCompletion) : string :=
  canonicalPayloadHash (encode_completion c).

(** Stored JSON that does not parse is [PolicyMissing]. *)
Definition parseJob (jobJson : json) : outcome StoreError AcceptedExecutionJob :=
  match parseExecutionJob parse_url (Some jobJson) with
  | Ok job => Ok job
  | Throw _ => Throw PolicyMissing
  end.

Definition lift {A} (o : outcome StoreError A) : M A :=
  match o with Ok a => mret a | Throw e => throw e end.

Definition leaseBindingMatches (r : PersistedExecutionLease) (p : PresentedLease) : bool :=
  bool_decide (lostAt r = None) && String.eqb (jobId (lease_job r)) (p_jobId p) &&
  String.eqb (owner_runnerId (lease_owner r)) (owner_runnerId (p_owner p)) &&
  String.eqb (owner_sessionId (lease_owner r)) (owner_sessionId (p_owner p)) &&
  (leaseEpoch r =? p_leaseEpoch p)%Z && String.eqb (leaseTokenHash r) (p_leaseTokenHash p).

Definition observedCompletionResult (stored : option ExecutionCompletion)
    (presented : ExecutionCompletion) : option CompleteLeaseResult :=
  match stored with
  | None => None
  | Some c => if String.eqb (completionHash c) (completionHash presented)
              then Some r_duplicate else Some (completion_conflict c)
  end.

Definition toBinding (r : TokenRow) : ResumeTokenBinding :=
  {| binding_runnerId := t_runner_id r; binding_certificateFingerprint := t_certificate_fingerprint r;
     previousSessionId := t_previous_session_id r; binding_protocolMajor := t_protocol_major r |}.

Definition toLease (r : LeaseRow) : outcome StoreError PersistedExecutionLease :=
  job ← parseJob (job_json r);
  Ok {| lease_job := job;
        lease_owner := {| owner_runnerId := runner_id r; owner_sessionId := session_id r |};
        leaseEpoch := lease_epoch r; leaseTokenHash := lease_token_hash r;
        lease_expiresAt := expires_at r; lostAt := lost_at r; completedAt := completed_at r;
        recoveryOfRunId := recovery_of_run_id r |}.

Definition leaseValues (l : PersistedExecutionLease) : LeaseRow :=
  {| job_id := jobId (lease_job l); runner_id := owner_runnerId (lease_owner l);
     session_id := owner_sessionId (lease_owner l); lease_epoch := leaseEpoch l;
     job_json := encode_job (lease_job l); lease_token_hash := leaseTokenHash l;
     expires_at := lease_expiresAt l; lost_at := lostAt l; completed_at := completedAt l;
     recovery_of_run_id := recoveryOfRunId l |}.

(** The [where] clauses of [constrainLiveLease], besides the key. *)
Definition constrainLiveLease (r : LeaseRow) (p : PresentedLease) : bool :=
  String.eqb (job_id r) (p_jobId p) && String.eqb (runner_id r) (owner_runnerId (p_owner p)) &&
  String.eqb (session_id r) (owner_sessionId (p_owner p)) &&
  (lease_epoch r =? p_leaseEpoch p)%Z && String.eqb (lease_token_hash r) (p_leaseTokenHash p) &&
  bool_decide (lost_at r = None) && bool_decide (completed_at r = None) &&
  text_ltb (p_checkedAt p) (expires_at r).

(** [update execution_leases set .. where <live>]: whether a row was updated. *)
Definition update_live (f : LeaseRow → LeaseRow) (p : PresentedLease) : M bool :=
  db ← get;
  match execution_leases db !! p_runId p with
  | Some r =>
      if constrainLiveLease r p then
        _ ← modify (set_leases (<[p_runId p := f r]> (execution_leases db))); mret true
      else mret false
  | None => mret false
  end.

Definition readCompletion (runId : string) : M (option ExecutionCompletion) :=
  gets (λ db, completion_json <$> execution_completions db !! runId).

(** ** Statements and transactions *)
Definition saveSession (s : PersistedRunnerSession) : M unit :=
  modify (λ db, set_sessions (<[sessionId s :=
    {| s_runner_id := session_runnerId s;
       s_certificate_fingerprint := session_certificateFingerprint s;
       s_capabilities := capabilities s; s_protocol_major := session_protocolMajor s;
       created_at := match runner_sessions db !! sessionId s with
                     | Some old => created_at old | None => createdAt s end;
       closed_at := None |}]> (runner_sessions db)) db).

Definition closeSession (id closedAt : string) : M unit :=
  modify (λ db, set_sessions (alter (λ r,
    {| s_runner_id := s_runner_id r; s_certificate_fingerprint := s_certificate_fingerprint r;
       s_capabilities := s_capabilities r; s_protocol_major := s_protocol_major r;
       created_at := created_at r; closed_at := Some closedAt |}) id (runner_sessions db)) db).

Definition token_row (b : ResumeTokenBinding) (expires : string) : TokenRow :=
  {| t_runner_id := binding_runnerId b; t_certificate_fingerprint := binding_certificateFingerprint b;
     t_previous_session_id := previousSessionId b; t_protocol_major := binding_protocolMajor b;
     t_expires_at := expires; consumed_at := None |}.

Definition issueResumeToken (r : HashedResumeTokenRecord) : M unit :=
  db ← get;
  _ ← throw_if (bool_decide (is_Some (runner_resume_tokens db !! tokenHash r))) ConstraintViolation;
  modify (λ db, set_tokens (<[tokenHash r := token_row (token_binding r) (token_expiresAt r)]>
    (runner_resume_tokens db)) db).

Definition presented_by (r : TokenRow) (i : ResumePresentedIdentity) : bool :=
  String.eqb (t_runner_id r) (presented_runnerId i) &&
  String.eqb (t_certificate_fingerprint r) (presented_certificateFingerprint i) &&
  (t_protocol_major r =? presented_protocolMajor i)%Z.

Definition consumeResumeToken_tx (hash : string) (presented : ResumePresentedIdentity)
    (consumedAt : string) : M (option ResumeTokenBinding) :=
  db ← get;
  match runner_resume_tokens db !! hash with
  | Some r =>
      if bool_decide (consumed_at r = None) && presented_by r presented &&
         text_ltb consumedAt (t_expires_at r) then
        _ ← modify (set_tokens (<[hash := consume_token consumedAt r]> (runner_resume_tokens db)));
        mret (Some (toBinding r))
      else mret None
  | None => mret None
  end.

Definition rotateResumeToken_tx (input : RotateResumeTokenInput)
    : M (option (RotateOutcome * ResumeTokenBinding)) :=
  db ← get;
  match runner_resume_tokens db !! presentedTokenHash input with
  | None => mret None
  | Some r =>
      if negb (presented_by r (rotate_presented input)) then mret None
      else if text_leb (t_expires_at r) (rotatedAt input) then
        _ ← modify (set_tokens (<[presentedTokenHash input := consume_token (rotatedAt input) r]>
              (runner_resume_tokens db)));
        mret None
      else if bool_decide (consumed_at r ≠ None) then
        mret (match runner_resume_tokens db !! replacementTokenHash input with
              | None => None
              | Some _ => Some (idempotent_retry, toBinding r)
              end)
      else
        _ ← modify (λ db, set_tokens
              (match runner_resume_tokens db !! replacementTokenHash input with
               | Some _ => runner_resume_tokens db
               | None => <[replacementTokenHash input :=
                   token_row (toBinding r) (replacementExpiresAt input)]> (runner_resume_tokens db)
               end) db);
        db ← get;
        match runner_resume_tokens db !! presentedTokenHash input with
        | Some r' =>
            if bool_decide (consumed_at r' = None) then
              _ ← modify (set_tokens (<[presentedTokenHash input :=
                    consume_token (rotatedAt input) r']> (runner_resume_tokens db)));
              mret (Some (rotated, toBinding r))
            else mret (Some (idempotent_retry, toBinding r))
        | None => mret (Some (idempotent_retry, toBinding r))
        end
  end.

Definition grantLease_tx (l : PersistedExecutionLease) : M bool :=
  db ← get;
  match execution_leases db !! runId (lease_job l) with
  | Some _ => mret false
  | None =>
      _ ← modify (set_leases (<[runId (lease_job l) := leaseValues l]> (execution_leases db)));
      mret true
  end.

Definition renewLease_tx (p : PresentedLease) (newExpiresAt : string) : M bool :=
  db ← get;
  _ ← match execution_leases db !! p_runId p with
      | Some r => _ ← lift (parseJob (job_json r)); mret tt
      | None => mret tt
      end;
  update_live (with_expiry newExpiresAt) p.

Definition completeLease_tx (p : PresentedLease) (c : ExecutionCompletion) : M CompleteLeaseResult :=
  db ← get;
  match execution_leases db !! p_runId p with
  | None => mret r_rejected
  | Some record =>
      lease ← lift (toLease record);
      if negb (leaseBindingMatches lease p) then mret r_rejected
      else
        existing ← readCompletion (p_runId p);
        match observedCompletionResult existing c with
        | Some observed => mret observed
        | None =>
            if text_leb (expires_at record) (p_checkedAt p) || bool_decide (completed_at record ≠ None)
            then mret r_rejected
            else
              updated ← update_live (with_completed (p_checkedAt p)) p;
              if negb updated then
                raced ← readCompletion (p_runId p);
                mret (default r_rejected (observedCompletionResult raced c))
              else
                db ← get;
                _ ← throw_if (bool_decide (is_Some (execution_completions db !! p_runId p)))
                      ConstraintViolation;
                _ ← modify (λ db, set_completions (<[p_runId p :=
                      {| c_job_id := p_jobId p; completion_json := c;
                         c_completed_at := p_checkedAt p |}]> (execution_completions db)) db);
                mret r_completed
        end
  end.

Definition markLeaseLost (runId lostAt : string) : M bool :=
  db ← get;
  match execution_leases db !! runId with
  | Some r =>
      if bool_decide (lost_at r = None) && bool_decide (completed_at r = None) then
        _ ← modify (set_leases (<[runId := with_lost lostAt r]> (execution_leases db))); mret true
      else mret false
  | None => mret false
  end.

Definition lease (runId : string) : M (option PersistedExecutionLease) :=
  db ← get;
  match execution_leases db !! runId with
  | None => mret None
  | Some r => l ← lift (toLease r); mret (Some l)
  end.

Definition completionRecord (id : string) : M (option RunnerCompletionRecord) :=
  db ← get;
  match execution_completions db !! id, execution_leases db !! id with
  | Some row, Some l =>
      job ← lift (parseJob (job_json l));
      let c := completion_json row in
      _ ← throw_if (negb (String.eqb (runId job) id && String.eqb (jobId job) (c_job_id row) &&
                          String.eqb (completion_runId c) id &&
                          String.eqb (completion_jobId c) (c_job_id row)))
            CompletionIdentityMismatch;
      mret (Some {| record_runId := id; record_jobId := c_job_id row;
                    record_jobSha256 := canonicalPayloadHash (encode_job job);
                    record_completion := c; record_completedAt := c_completed_at row |})
  | _, _ => mret None
  end.
End store.

(** ** Store calls

    [busy i] says whether SQLite reports attempt [i] busy; a statement outside
    [withWriteTransaction] is not retried. *)
Inductive Op : Type → Type :=
  | SaveSession (s : PersistedRunnerSession) : Op unit
  | CloseSession (id closedAt : string) : Op unit
  | IssueResumeToken (r : HashedResumeTokenRecord) : Op unit
  | ConsumeResumeToken (hash : string) (presented : ResumePresentedIdentity) (consumedAt : string)
      : Op (option ResumeTokenBinding)
  | RotateResumeToken (input : RotateResumeTokenInput) : Op (option (RotateOutcome * ResumeTokenBinding))
  | GrantLease (l : PersistedExecutionLease) : Op bool
  | RenewLease (p : PresentedLease) (newExpiresAt : string) : Op bool
  | CompleteLease (p : PresentedLease) (c : ExecutionCompletion) : Op CompleteLeaseResult
  | MarkLeaseLost (runId lostAt : string) : Op bool
  | ReadLease (runId : string) : Op (option PersistedExecutionLease)
  | ReadCompletion (runId : string) : Op (option ExecutionCompletion)
  | ReadCompletionRecord (runId : string) : Op (option RunnerCompletionRecord).

Section calls.
Context (parse_url : string → option Url) (number_text : number → string) (sha256 : string → string).

(** The effect of a call that SQLite lets through. *)
Definition statement {A} (op : Op A) : M A :=
  match op in Op A return M A with
  | SaveSession s => saveSession s
  | CloseSession id at_ => closeSession id at_
  | IssueResumeToken r => issueResumeToken r
  | ConsumeResumeToken h i at_ => consumeResumeToken_tx h i at_
  | RotateResumeToken i => rotateResumeToken_tx i
  | GrantLease l => grantLease_tx l
  | RenewLease p e => renewLease_tx parse_url p e
  | CompleteLease p c => completeLease_tx parse_url number_text sha256 p c
  | MarkLeaseLost id at_ => markLeaseLost id at_
  | ReadLease id => lease parse_url id
  | ReadCompletion id => readCompletion id
  | ReadCompletionRecord id => completionRecord parse_url number_text sha256 id
  end.

Definition transactional {A} (op : Op A) : bool :=
  match op with
  | ConsumeResumeToken _ _ _ | RotateResumeToken _ | GrantLease _ | RenewLease _ _
  | CompleteLease _ _ => true
  | _ => false
  end.

Definition store_call {A} (busy : nat → bool) (op : Op A) : M A :=
  if transactional op then withWriteTransaction busy Busy Busy 8 (statement op)
  else if busy O then throw Busy else statement op.

(** ** Service methods as programs *)
Inductive CoreErrorCode :=
  | RunOwnershipViolation | LeaseLost | CorePolicyMissing | RunnerResumeRejected
  | UnknownRun | RunCompleted | LeaseActive.
Inductive CoreError :=
  | CoreApplicationError (code : CoreErrorCode)
  | StoreFailure (e : StoreError).

Record IntegrityEvent := {
  event_run : string;
  event_leaseTokenHash : string;
  presentedCompletionHash : string;
  storedCompletionHash : string;
  observedAt : string;
}.

Inductive prog (A : Type) : Type :=
  | Ret (a : A)
  | Fail (e : CoreError)
  | Call {B : Type} (op : Op B) (k : outcome StoreError B → prog A)
  | Now (k : Z → prog A)
  | Generate (k : string → prog A)
  | Emit (e : IntegrityEvent) (p : prog A).
Arguments Ret {A} a.
Arguments Fail {A} e.
Arguments Call {A B} op k.
Arguments Now {A} k.
Arguments Generate {A} k.
Arguments Emit {A} e p.

#[export] Instance prog_ret : MRet prog := @Ret.
Fixpoint prog_bind_ {A B} (k : A → prog B) (p : prog A) : prog B :=
  match p with
  | Ret a => k a
  | Fail e => Fail e
  | Call op k' => Call op (λ o, prog_bind_ k (k' o))
  | Now k' => Now (λ t, prog_bind_ k (k' t))
  | Generate k' => Generate (λ x, prog_bind_ k (k' x))
  | Emit e p' => Emit e (prog_bind_ k p')
  end.
#[export] Instance prog_bind : MBind prog := @prog_bind_.

Definition now : prog Z := Now Ret.
Definition nowIso : prog string := Now (λ t, Ret (toISOString t)).
Definition generate : prog string := Generate Ret.
Definition core {A} (c : CoreErrorCode) : prog A := Fail (CoreApplicationError c).

(** A store call whose exception propagates as it is. *)
Definition call {B} (op : Op B) : prog B :=
  Call op (λ o, match o with Ok b => Ret b | Throw e => Fail (StoreFailure e) end).

(** A store call whose [RunnerControlStoreError] becomes [PolicyMissing]. *)
Definition policy_error (e : StoreError) : CoreError :=
  match e with
  | PolicyMissing | CompletionIdentityMismatch => CoreApplicationError CorePolicyMissing
  | _ => StoreFailure e
  end.
Definition guarded_call {B} (op : Op B) : prog B :=
  Call op (λ o, match o with Ok b => Ret b | Throw e => Fail (policy_error e) end).

Record ExecutionJobLease := {
  l_jobId : string;
  l_runId : string;
  leaseToken : string;
  l_leaseEpoch : Z;
  l_expiresAt : string;
}.

Context (leaseDurationMs ttlMs : Z) (hashToken : string → string) (base64url_sha256 : string → string).

Definition grant (job : AcceptedExecutionJob) (owner : PersistedLeaseOwner)
    (recoveryOf : option string) : prog ExecutionJobLease :=
  token ← generate;
  t ← now;
  let expiresAt := toISOString (t + leaseDurationMs) in
  granted ← call (GrantLease
    {| lease_job := job; lease_owner := owner; leaseEpoch := 1; leaseTokenHash := hashToken token;
       lease_expiresAt := expiresAt; lostAt := None; completedAt := None;
       recoveryOfRunId := recoveryOf |});
  if negb granted then core RunOwnershipViolation
  else mret {| l_jobId := jobId job; l_runId := runId job; leaseToken := token; l_leaseEpoch := 1;
               l_expiresAt := expiresAt |}.

Definition requireMatchingLease (l : ExecutionJobLease) : prog PersistedExecutionLease :=
  record ← guarded_call (ReadLease (l_runId l));
  match record with
  | None => core LeaseLost
  | Some record =>
      if bool_decide (lostAt record ≠ None) || negb (leaseEpoch record =? l_leaseEpoch l)%Z ||
         negb (String.eqb (leaseTokenHash record) (hashToken (leaseToken l)))
      then core LeaseLost
      else if bool_decide (completedAt record ≠ None) then mret record
      else
        at_ ← nowIso;
        if text_leb (lease_expiresAt record) at_ then
          lost ← nowIso;
          _ ← call (MarkLeaseLost (l_runId l) lost);
          core LeaseLost
        else mret record
  end.

Definition requireLiveLease (l : ExecutionJobLease) : prog PersistedExecutionLease :=
  record ← requireMatchingLease l;
  if bool_decide (completedAt record ≠ None) then core LeaseLost else mret record.

(** The lease a service presents for a record it has read. *)
Definition presented_record (r : PersistedExecutionLease) (at_ : string) : PresentedLease :=
  {| p_runId := runId (lease_job r); p_jobId := jobId (lease_job r); p_owner := lease_owner r;
     p_leaseEpoch := leaseEpoch r; p_leaseTokenHash := leaseTokenHash r; p_checkedAt := at_ |}.

Definition renew (l : ExecutionJobLease) : prog ExecutionJobLease :=
  t ← now;
  let newExpiresAt := toISOString (t + leaseDurationMs) in
  record ← requireLiveLease l;
  at_ ← nowIso;
  renewed ← guarded_call (RenewLease
    {| p_runId := l_runId l; p_jobId := l_jobId l; p_owner := lease_owner record;
       p_leaseEpoch := l_leaseEpoch l; p_leaseTokenHash := hashToken (leaseToken l);
       p_checkedAt := at_ |} newExpiresAt);
  if negb renewed then core LeaseLost
  else mret {| l_jobId := l_jobId l; l_runId := l_runId l; leaseToken := leaseToken l;
               l_leaseEpoch := leaseEpoch record; l_expiresAt := newExpiresAt |}.

Inductive RunCompletionDisposition := d_completed | d_duplicate.

Definition completeAgainst (record : PersistedExecutionLease) (c : ExecutionCompletion)
    (checkedAt : string) : prog RunCompletionDisposition :=
  outcome ← call (CompleteLease (presented_record record checkedAt) c);
  match outcome with
  | completion_conflict stored =>
      Emit {| event_run := runId (lease_job record); event_leaseTokenHash := leaseTokenHash record;
              presentedCompletionHash := completionHash number_text sha256 c;
              storedCompletionHash := completionHash number_text sha256 stored;
              observedAt := checkedAt |}
        (core RunOwnershipViolation)
  | r_rejected => core LeaseLost
  | r_completed => mret d_completed
  | r_duplicate => mret d_duplicate
  end.

Definition complete (l : ExecutionJobLease) (c : ExecutionCompletion) : prog RunCompletionDisposition :=
  record ← requireMatchingLease l;
  at_ ← nowIso;
  completeAgainst record c at_.

Definition completeStored (id : string) (c : ExecutionCompletion) : prog RunCompletionDisposition :=
  record ← call (ReadLease id);
  at_ ← nowIso;
  match record with
  | None => core LeaseLost
  | Some record =>
      if bool_decide (completedAt record ≠ None) then completeAgainst record c at_
      else if bool_decide (lostAt record ≠ None) then core LeaseLost
      else if text_leb (lease_expiresAt record) at_ then
        marked ← call (MarkLeaseLost id at_);
        if negb marked then
          latest ← call (ReadLease id);
          match latest with
          | Some latest =>
              if bool_decide (completedAt latest ≠ None) then completeAgainst latest c at_
              else core LeaseLost
          | None => core LeaseLost
          end
        else core LeaseLost
      else completeAgainst record c at_
  end.

Definition mayStartAction (l : ExecutionJobLease) : prog bool :=
  record ← guarded_call (ReadLease (l_runId l));
  match record with
  | None => mret false
  | Some r =>
      if bool_decide (lostAt r ≠ None) || bool_decide (completedAt r ≠ None) then mret false
      else if negb (leaseEpoch r =? l_leaseEpoch l)%Z then mret false
      else
        at_ ← nowIso;
        if text_leb (lease_expiresAt r) at_ then mret false
        else mret (String.eqb (leaseTokenHash r) (hashToken (leaseToken l)))
  end.

Definition markLost (id : string) : prog unit :=
  at_ ← nowIso; _ ← call (MarkLeaseLost id at_); mret tt.

Definition recoveryJob (original : AcceptedExecutionJob) (jobId runId : string) : AcceptedExecutionJob :=
  {| jobId := jobId; runId := runId; projectId := projectId original; target := target original;
     objective := objective original; policy := policy original; plan := plan original |}.

Definition createRecoveryRun (lostRunId : string) : prog (AcceptedExecutionJob * string) :=
  record ← call (ReadLease lostRunId);
  match record with
  | None => core UnknownRun
  | Some record =>
      if bool_decide (completedAt record ≠ None) then core RunCompleted
      else
        at_ ← nowIso;
        if bool_decide (lostAt record = None) && text_ltb at_ (lease_expiresAt record)
        then core LeaseActive
        else
          _ ← (if bool_decide (lostAt record = None)
               then _ ← call (MarkLeaseLost lostRunId at_); mret tt
               else mret tt);
          runId ← generate;
          jobId ← generate;
          mret (recoveryJob (lease_job record) jobId runId, lostRunId)
  end.

Definition authorizeTraceUpload (runnerId batch_runId : string) : prog unit :=
  record ← call (ReadLease batch_runId);
  match record with
  | None => core RunOwnershipViolation
  | Some r => if negb (String.eqb (owner_runnerId (lease_owner r)) runnerId)
              then core RunOwnershipViolation else mret tt
  end.

Definition ownerOf (id : string) : prog (option PersistedLeaseOwner) :=
  record ← guarded_call (ReadLease id);
  mret (match record with Some r => Some (lease_owner r) | None => None end).

Definition recoveryOf (id : string) : prog (option string) :=
  record ← call (ReadLease id);
  mret (match record with Some r => recoveryOfRunId r | None => None end).

Definition jobOf (id : string) : prog (option AcceptedExecutionJob) :=
  record ← call (ReadLease id);
  mret (match record with Some r => Some (lease_job r) | None => None end).

Definition completionOf (id : string) : prog (option ExecutionCompletion) := call (ReadCompletion id).

(** ** The resume-token service *)
Definition issue (b : ResumeTokenBinding) : prog string :=
  token ← generate;
  t ← now;
  _ ← call (IssueResumeToken {| tokenHash := hashToken token; token_binding := b;
                                token_expiresAt := toISOString (t + ttlMs) |});
  mret token.

Definition deriveReplacementToken (presentedToken : string) : string :=
  base64url_sha256 ("qualigence:resume-rotation:v1:" +:+ presentedToken).

Definition redeem (token : string) (presented : ResumePresentedIdentity)
    : prog (ResumeTokenBinding * string) :=
  let replacement := deriveReplacementToken token in
  t ← now;
  at_ ← nowIso;
  result ← call (RotateResumeToken
    {| presentedTokenHash := hashToken token; replacementTokenHash := hashToken replacement;
       replacementExpiresAt := toISOString (t + ttlMs); rotate_presented := presented;
       rotatedAt := at_ |});
  match result with
  | None => core RunnerResumeRejected
  | Some (_, b) => mret (b, replacement)
  end.
End calls.

End RunnerControl.
