(* ===== verification/LeaseSafety.v ===== *)
(** * Runner control: leases under interleaved callers

    The programs of [RunnerControl] run while other parties call the store and
    time passes.  This file holds the invariant of the lease, completion and
    token tables, the proof that every store call keeps it and only moves the
    tables forward, the rules to reason about a service method under
    interference, and what the services guarantee. *)
From S2P Require Import Prelude.
From S2P Require Import Number.
From S2P Require Import Json.
From S2P Require Import IsoTime.
From S2P Require Import CanonicalJson.
From S2P Require Import AppTarget.
From S2P Require Import RunnerProtocol.
From S2P Require Import PolicyGate.
From S2P Require Import ExecutionRuntime.
From S2P Require Import RunnerControl.

Module LeaseSafety.
Import RunnerProtocol ExecutionRuntime RunnerControl.

(** ** Interleavings

    Between two steps of a method any store call of any other party may take
    effect, and time may pass. *)
Record Sys := { db_of : Db; clock : Z }.

Section interleaving.
Context (parse_url : string → option Url) (number_text : number → string) (sha256 : string → string).
Notation store_call := (store_call parse_url number_text sha256).

(** Leases are granted as [grant] does: neither lost nor completed. *)
Definition issued {A} (op : Op A) : Prop :=
  match op with GrantLease l => lostAt l = None ∧ completedAt l = None | _ => True end.

Inductive env_step : Sys → Sys → Prop :=
  | env_call {A} busy (op : Op A) s : issued op →
      env_step s {| db_of := exec (store_call busy op) (db_of s); clock := clock s |}
  | env_tick s t : (clock s <= t)%Z → in_range t →
      env_step s {| db_of := db_of s; clock := t |}.

Inductive runs {A} : prog A → Sys → outcome CoreError A → Sys → Prop :=
  | runs_ret a s : runs (Ret _ a) s (Ok a) s
  | runs_fail e s : runs (Fail _ e) s (Throw e) s
  | runs_call B (op : Op B) k busy s s1 o s2 :
      rtc env_step s s1 →
      runs (k (result (store_call busy op) (db_of s1)))
        {| db_of := exec (store_call busy op) (db_of s1); clock := clock s1 |} o s2 →
      runs (Call _ op k) s o s2
  | runs_now k s s1 o s2 :
      rtc env_step s s1 → runs (k (clock s1)) s1 o s2 → runs (Now _ k) s o s2
  | runs_generate k x s o s2 : runs (k x) s o s2 → runs (Generate _ k) s o s2
  | runs_emit e p s o s2 : runs p s o s2 → runs (Emit _ e p) s o s2.

(** ** The invariant of the tables *)
Record row_ok (db : Db) (id : string) (r : LeaseRow) : Prop := {
  ro_job : ∃ job, job_json r = encode_job job ∧ runId job = id ∧ jobId job = job_id r;
  ro_exclusive : lost_at r = None ∨ completed_at r = None;
  ro_completed : ∀ at_, completed_at r = Some at_ →
    ∃ c, execution_completions db !! id = Some c ∧ c_completed_at c = at_ ∧ c_job_id c = job_id r;
}.

Record DbInv (db : Db) : Prop := {
  inv_rows : map_Forall (row_ok db) (execution_leases db);
  inv_completions : ∀ id c, execution_completions db !! id = Some c →
    ∃ r, execution_leases db !! id = Some r ∧ completed_at r = Some (c_completed_at c);
}.

(** ** What time can do to the tables *)
Definition same_grant (r r' : LeaseRow) : Prop :=
  job_id r' = job_id r ∧ runner_id r' = runner_id r ∧ session_id r' = session_id r ∧
  lease_epoch r' = lease_epoch r ∧ job_json r' = job_json r ∧
  lease_token_hash r' = lease_token_hash r ∧ recovery_of_run_id r' = recovery_of_run_id r.

Definition terminal (r : LeaseRow) : bool :=
  bool_decide (lost_at r ≠ None) || bool_decide (completed_at r ≠ None).

Definition lease_later (r r' : LeaseRow) : Prop :=
  same_grant r r' ∧ (terminal r = true → r' = r).

Definition token_later (r r' : TokenRow) : Prop :=
  toBinding r' = toBinding r ∧ t_expires_at r' = t_expires_at r ∧
  (is_Some (consumed_at r) → is_Some (consumed_at r')).

Record evolves (db db' : Db) : Prop := {
  ev_leases : ∀ id r, execution_leases db !! id = Some r →
    ∃ r', execution_leases db' !! id = Some r' ∧ lease_later r r';
  ev_completions : ∀ id c, execution_completions db !! id = Some c →
    execution_completions db' !! id = Some c;
  ev_tokens : ∀ h r, runner_resume_tokens db !! h = Some r →
    ∃ r', runner_resume_tokens db' !! h = Some r' ∧ token_later r r';
}.

#[export] Instance lease_later_preorder : PreOrder lease_later.
Proof.
  split; [by intros r|]. intros r1 r2 r3 [H1 T1] [H2 T2]. split.
  - unfold same_grant in *. intuition congruence.
  - intros Ht. pose proof (T1 Ht) as ->. by apply T2.
Qed.

#[export] Instance token_later_preorder : PreOrder token_later.
Proof.
  split; [by intros r|]. intros r1 r2 r3 (? & ? & ?) (? & ? & ?). unfold token_later.
  split; [congruence|]. split; [congruence|auto].
Qed.

#[export] Instance evolves_preorder : PreOrder evolves.
Proof.
  split.
  - intros db. split; [intros id r H; by exists r|done|intros h r H; by exists r].
  - intros d1 d2 d3 [L1 C1 T1] [L2 C2 T2]. split.
    + intros id r H. destruct (L1 _ _ H) as (r2 & H2 & ?). destruct (L2 _ _ H2) as (r3 & ? & ?).
      exists r3. split; [done|]. by etrans.
    + intros id c H. by apply C2, C1.
    + intros h r H. destruct (T1 _ _ H) as (r2 & H2 & ?). destruct (T2 _ _ H2) as (r3 & ? & ?).
      exists r3. split; [done|]. by etrans.
Qed.

(** ** Every call keeps the invariant and only moves the tables forward *)
Definition good {A} (m : M A) : Prop :=
  ∀ db, DbInv db → wp m (λ _ db', DbInv db' ∧ evolves db db') (λ _ db', DbInv db' ∧ evolves db db') db.

Lemma good_here db : DbInv db → DbInv db ∧ evolves db db.
Proof. intros H. by split. Qed.

(** Tables a call does not touch. *)
Lemma inv_other db db' :
  execution_leases db' = execution_leases db →
  execution_completions db' = execution_completions db → DbInv db → DbInv db'.
Proof.
  intros Hl Hc [H1 H2]. split.
  - rewrite Hl. intros id r Hr. destruct (H1 id r Hr) as [A B C]. split; [done|done|]. by rewrite Hc.
  - intros id c. rewrite Hc, Hl. apply H2.
Qed.

Lemma good_other db m : DbInv db → DbInv (set_sessions m db) ∧ evolves db (set_sessions m db).
Proof.
  intros HI. split; [by apply (inv_other db)|].
  split; [intros id r H; by exists r|done|intros h r H; by exists r].
Qed.

Lemma evolves_tokens db m :
  (∀ h r, runner_resume_tokens db !! h = Some r → ∃ r', m !! h = Some r' ∧ token_later r r') →
  evolves db (set_tokens m db).
Proof. intros H. split; [intros id r Hr; by exists r|done|done]. Qed.

Lemma good_tokens db m :
  DbInv db →
  (∀ h r, runner_resume_tokens db !! h = Some r → ∃ r', m !! h = Some r' ∧ token_later r r') →
  DbInv (set_tokens m db) ∧ evolves db (set_tokens m db).
Proof. intros HI H. split; [by apply (inv_other db)|by apply evolves_tokens]. Qed.

Lemma token_insert_later db h r r' :
  runner_resume_tokens db !! h = Some r → token_later r r' →
  ∀ h0 r0, runner_resume_tokens db !! h0 = Some r0 →
  ∃ r1, <[h := r']> (runner_resume_tokens db) !! h0 = Some r1 ∧ token_later r0 r1.
Proof.
  intros Hr Hl h0 r0 H0. destruct (decide (h = h0)) as [->|Hne].
  - rewrite lookup_insert_eq. simplify_eq. by eexists.
  - rewrite lookup_insert_ne by done. by eexists.
Qed.

Lemma token_insert_new (m : gmap string TokenRow) h r' :
  m !! h = None → ∀ h0 r0, m !! h0 = Some r0 →
  ∃ r1, <[h := r']> m !! h0 = Some r1 ∧ token_later r0 r1.
Proof.
  intros Hn h0 r0 H0. rewrite lookup_insert_ne by congruence. by exists r0.
Qed.

Lemma consume_later at_ r : token_later r (consume_token at_ r).
Proof. split; [done|]. split; [done|]. intros _. by eexists. Qed.

Lemma terminal_false r : terminal r = false → lost_at r = None ∧ completed_at r = None.
Proof.
  unfold terminal. intros [H1 H2]%orb_false_iff.
  apply bool_decide_eq_false, dec_stable in H1. apply bool_decide_eq_false, dec_stable in H2. done.
Qed.

(** Rewriting a live lease without completing it. *)
Lemma lease_rewrite db id r r' :
  DbInv db → execution_leases db !! id = Some r → terminal r = false → same_grant r r' →
  completed_at r' = None →
  DbInv (set_leases (<[id := r']> (execution_leases db)) db) ∧
  evolves db (set_leases (<[id := r']> (execution_leases db)) db).
Proof.
  intros [H1 H2] Hr Ht Hs Hc. pose proof Hs as (E1 & E2 & E3 & E4 & E5 & E6 & E7).
  apply terminal_false in Ht as Ht'. destruct Ht' as [Hl0 Hc0].
  split; [split|split].
  - intros id' q. cbn. rewrite lookup_insert_Some. intros [[<- <-]|[Hne Hq]].
    + destruct (H1 id r Hr) as [(job & A & B & C) _ _]. split.
      * exists job. split_and!; congruence.
      * by right.
      * intros at_. by rewrite Hc.
    + destruct (H1 id' q Hq). by split.
  - intros id' c Hcc. destruct (H2 _ _ Hcc) as (q & Hq & Hqc). exists q. cbn.
    rewrite lookup_insert_ne; [done|]. intros ->. congruence.
  - intros id' q Hq. cbn. destruct (decide (id = id')) as [->|Hne].
    + rewrite lookup_insert_eq. simplify_eq. exists r'. split; [done|]. split; [done|]. congruence.
    + rewrite lookup_insert_ne by done. by exists q.
  - done.
  - intros h q Hq. by exists q.
Qed.

Lemma live_terminal r p : constrainLiveLease r p = true → terminal r = false.
Proof.
  unfold constrainLiveLease, terminal. intros H. to_prop. by rewrite H2, H1.
Qed.

Lemma live_binding r p :
  constrainLiveLease r p = true → job_id r = p_jobId p.
Proof. unfold constrainLiveLease. intros H. to_prop. by apply String.eqb_eq. Qed.

Lemma wp_update_live f p Q R db :
  (∀ r, execution_leases db !! p_runId p = Some r → constrainLiveLease r p = true →
     Q true (set_leases (<[p_runId p := f r]> (execution_leases db)) db)) →
  Q false db → wp (update_live f p) Q R db.
Proof.
  intros HQ Hno. unfold update_live. apply wp_bind, wp_get.
  destruct (execution_leases db !! p_runId p) as [r|] eqn:Hr; [|by apply wp_ret].
  destruct (constrainLiveLease r p) eqn:Hlive; [|by apply wp_ret].
  apply wp_bind, wp_modify, wp_ret. by apply HQ.
Qed.

Lemma wp_lift {A} (o : outcome StoreError A) Q R db :
  (∀ a, o = Ok a → Q a db) → (∀ e, R e db) → wp (lift o) Q R db.
Proof. intros HQ HR. destruct o; [apply wp_ret; by apply HQ|by apply wp_throw]. Qed.

(** The two writes of a completion, in one transaction. *)
Lemma complete_writes db p c r :
  DbInv db → execution_leases db !! p_runId p = Some r → constrainLiveLease r p = true →
  execution_completions db !! p_runId p = None →
  let row := {| c_job_id := p_jobId p; completion_json := c; c_completed_at := p_checkedAt p |} in
  let db' := set_completions (<[p_runId p := row]> (execution_completions db))
    (set_leases (<[p_runId p := with_completed (p_checkedAt p) r]> (execution_leases db)) db) in
  DbInv db' ∧ evolves db db'.
Proof.
  intros [H1 H2] Hr Hlive Hnone row db'. pose proof (live_terminal _ _ Hlive) as Ht.
  apply terminal_false in Ht as Ht'. destruct Ht' as [Hl0 Hc0].
  split; [split|split].
  - intros id q. cbn. rewrite lookup_insert_Some. intros [[<- <-]|[Hne Hq]].
    + destruct (H1 _ r Hr) as [Hjob _ _]. split; [done|by left|].
      cbn. intros at_ [= <-]. exists row. rewrite lookup_insert_eq. split_and!; [done|done|].
      symmetry. by apply live_binding.
    + destruct (H1 id q Hq) as [A B C]. split; [done|done|].
      intros at_ Hat. destruct (C at_ Hat) as (c' & ? & ?). exists c'. cbn.
      by rewrite lookup_insert_ne.
  - intros id c'. cbn. rewrite lookup_insert_Some. intros [[<- <-]|[Hne Hq]].
    + exists (with_completed (p_checkedAt p) r). by rewrite lookup_insert_eq.
    + rewrite lookup_insert_ne by done. by apply H2.
  - intros id q Hq. cbn. destruct (decide (p_runId p = id)) as [<-|Hne].
    + rewrite lookup_insert_eq. simplify_eq. eexists. split; [done|]. split; [done|]. congruence.
    + rewrite lookup_insert_ne by done. by exists q.
  - intros id q Hq. cbn. rewrite lookup_insert_ne; [done|]. congruence.
  - intros h q Hq. by exists q.
Qed.

(** What a completion attempt that is let through leaves behind. *)
Definition completion_post (p : PresentedLease) (c : ExecutionCompletion) (db : Db)
    (o : CompleteLeaseResult) (db' : Db) : Prop :=
  DbInv db' ∧ evolves db db' ∧
  (o = r_completed → execution_completions db !! p_runId p = None) ∧
  match o with
  | r_completed | r_duplicate => ∃ row, execution_completions db' !! p_runId p = Some row ∧
      completionHash number_text sha256 (completion_json row) = completionHash number_text sha256 c
  | _ => True
  end.

Lemma observed_post p c db o :
  DbInv db →
  observedCompletionResult number_text sha256 (completion_json <$> execution_completions db !! p_runId p) c
    = Some o → completion_post p c db o db.
Proof.
  intros HI H. split; [done|]. split; [done|].
  destruct (execution_completions db !! p_runId p) as [row|]; [|done]. cbn in H.
  destruct (String.eqb_spec (completionHash number_text sha256 (completion_json row))
              (completionHash number_text sha256 c)) as [Heq|]; injection H as <-; [|done].
  split; [done|]. by exists row.
Qed.

Lemma wp_completeLease_tx p c db :
  DbInv db →
  wp (completeLease_tx parse_url number_text sha256 p c) (completion_post p c db)
    (λ _ db', DbInv db' ∧ evolves db db') db.
Proof.
  intros HI. pose proof (good_here db HI) as Hhere. unfold completeLease_tx. apply wp_bind, wp_get.
  destruct (execution_leases db !! p_runId p) as [r|] eqn:Hr; [|by apply wp_ret].
  apply wp_bind, wp_lift; [|done]. intros l _.
  destruct (negb (leaseBindingMatches l p)); [by apply wp_ret|].
  apply wp_bind. unfold readCompletion at 1. apply wp_gets.
  destruct (observedCompletionResult _ _ _ c) as [o|] eqn:Hobs.
  { by apply wp_ret, observed_post. }
  destruct (_ || _); [by apply wp_ret|]. apply wp_bind, wp_update_live; cbn [negb].
  - intros r' Hr' Hlive. rewrite Hr in Hr'. injection Hr' as <-.
    assert (execution_completions db !! p_runId p = None) as Hnone.
    { destruct (execution_completions db !! p_runId p); [|done]. cbn in Hobs.
      by destruct (String.eqb _ _). }
    apply wp_bind, wp_get, wp_bind, wp_throw_if; cbn.
    { rewrite Hnone. rewrite bool_decide_false; [done|]. by intros []. }
    intros _. apply wp_bind, wp_modify, wp_ret.
    destruct (complete_writes db p c r HI Hr Hlive Hnone) as [HI' Hev]. split; [done|].
    split; [done|]. split; [done|]. eexists. cbn. by rewrite lookup_insert_eq.
  - apply wp_bind. unfold readCompletion. apply wp_gets. rewrite Hobs. by apply wp_ret.
Qed.

Lemma good_tokens_call (hash : string) presented at_ : good (consumeResumeToken_tx hash presented at_).
Proof.
  intros db HI. unfold consumeResumeToken_tx. apply wp_bind, wp_get.
  destruct (runner_resume_tokens db !! hash) as [r|] eqn:Hr; [|by apply wp_ret].
  destruct (_ && _ && _); [|by apply wp_ret]. apply wp_bind, wp_modify, wp_ret.
  apply good_tokens; [done|]. eapply token_insert_later; [done|]. apply consume_later.
Qed.

Lemma good_rotate i : good (rotateResumeToken_tx i).
Proof.
  intros db HI. unfold rotateResumeToken_tx. apply wp_bind, wp_get.
  destruct (runner_resume_tokens db !! presentedTokenHash i) as [r|] eqn:Hr; [|by apply wp_ret].
  destruct (negb _); [by apply wp_ret|]. destruct (text_leb _ _).
  { apply wp_bind, wp_modify, wp_ret. apply good_tokens; [done|].
    eapply token_insert_later; [done|]. apply consume_later. }
  destruct (bool_decide (consumed_at r ≠ None)); [by apply wp_ret|].
  apply wp_bind, wp_modify.
  set (m := match runner_resume_tokens db !! replacementTokenHash i with Some _ => _ | None => _ end).
  assert (∀ h q, runner_resume_tokens db !! h = Some q → ∃ q', m !! h = Some q' ∧ token_later q q')
    as Hm.
  { intros h q Hq. unfold m. destruct (runner_resume_tokens db !! replacementTokenHash i) eqn:Hn.
    - by exists q.
    - by eapply token_insert_new. }
  destruct (good_tokens db m HI Hm) as [HI1 Hev1].
  apply wp_bind, wp_get. cbn [runner_resume_tokens set_tokens].
  destruct (m !! presentedTokenHash i) as [r'|] eqn:Hr'; [|by apply wp_ret].
  destruct (bool_decide _); [|by apply wp_ret]. apply wp_bind, wp_modify, wp_ret.
  destruct (good_tokens (set_tokens m db) (<[presentedTokenHash i := consume_token (rotatedAt i) r']> m))
    as [HI2 Hev2]; [done| |by split; [|etrans]].
  eapply token_insert_later; [done|]. apply consume_later.
Qed.

Lemma good_grant l : lostAt l = None → completedAt l = None → good (grantLease_tx l).
Proof.
  intros Hl Hc db HI. unfold grantLease_tx. apply wp_bind, wp_get.
  destruct (execution_leases db !! runId (lease_job l)) as [r|] eqn:Hr; [by apply wp_ret|].
  apply wp_bind, wp_modify, wp_ret. destruct HI as [H1 H2].
  split; [split|split; [|done|intros h q Hq; by exists q]].
  - intros id q. cbn. rewrite lookup_insert_Some. intros [[<- <-]|[Hne Hq]].
    + split; [by exists (lease_job l)|by left|]. cbn. by rewrite Hc.
    + destruct (H1 id q Hq). by split.
  - intros id c Hcc. destruct (H2 _ _ Hcc) as (q & Hq & ?). exists q. cbn.
    rewrite lookup_insert_ne; [done|]. congruence.
  - intros id q Hq. cbn. rewrite lookup_insert_ne by congruence. by exists q.
Qed.

Lemma good_renew p e : good (renewLease_tx parse_url p e).
Proof.
  intros db HI. unfold renewLease_tx. apply wp_bind, wp_get, wp_bind.
  assert (wp (update_live (with_expiry e) p) (λ _ db', DbInv db' ∧ evolves db db')
            (λ _ db', DbInv db' ∧ evolves db db') db) as Hup.
  { apply wp_update_live; [|done]. intros r Hr Hlive. pose proof (live_terminal _ _ Hlive) as Ht.
    apply (lease_rewrite db _ r); try done. by apply terminal_false in Ht as [_ ?]. }
  destruct (execution_leases db !! p_runId p) as [r|]; [|by apply wp_ret].
  apply wp_bind, wp_lift; [|done]. intros job _. by apply wp_ret.
Qed.

Lemma good_markLeaseLost id at_ : good (markLeaseLost id at_).
Proof.
  intros db HI. unfold markLeaseLost. apply wp_bind, wp_get.
  destruct (execution_leases db !! id) as [r|] eqn:Hr; [|by apply wp_ret].
  destruct (_ && _) eqn:Hlive; [|by apply wp_ret]. apply wp_bind, wp_modify, wp_ret.
  apply andb_true_iff in Hlive as [Hl%bool_decide_eq_true Hc%bool_decide_eq_true].
  apply (lease_rewrite db _ r); try done. unfold terminal. by rewrite Hl, Hc.
Qed.

Lemma good_statement {A} (op : Op A) :
  issued op → good (statement parse_url number_text sha256 op).
Proof.
  destruct op as [ses|id at_|t|h i at_|i|l|p e|p c|id at_|id|id|id]; cbn [issued statement]; intros Hop.
  - intros db HI. by apply wp_modify, good_other.
  - intros db HI. by apply wp_modify, good_other.
  - intros db HI. unfold issueResumeToken. wp_run; [done|]. apply good_tokens; [done|].
    apply token_insert_new. apply bool_decide_eq_false in H. by apply eq_None_not_Some.
  - apply good_tokens_call.
  - apply good_rotate.
  - by apply good_grant; destruct Hop.
  - apply good_renew.
  - intros db HI. eapply wp_mono; [by apply wp_completeLease_tx| |done]. intros o db' (? & ? & _). done.
  - apply good_markLeaseLost.
  - intros db HI. unfold lease. apply wp_bind, wp_get.
    destruct (execution_leases db !! id); [|by apply wp_ret].
    apply wp_bind, wp_lift; [|done]. intros. by apply wp_ret.
  - intros db HI. by apply wp_gets.
  - intros db HI. unfold completionRecord. apply wp_bind, wp_get.
    destruct (execution_completions db !! id); [|by apply wp_ret].
    destruct (execution_leases db !! id); [|by apply wp_ret].
    apply wp_bind, wp_lift; [|done]. intros. wp_run; done.
Qed.

(** A call is busy, or it is its statement, rolled back when it throws. *)
Lemma store_call_cases {A} busy (op : Op A) db :
  store_call busy op db = (Throw Busy, db) ∨
  store_call busy op db = statement parse_url number_text sha256 op db ∨
  store_call busy op db = transaction (statement parse_url number_text sha256 op) db.
Proof.
  unfold RunnerControl.store_call. destruct (transactional op).
  - destruct (withWriteTransaction_cases busy Busy Busy 8
      (statement parse_url number_text sha256 op) db); [lia|auto..].
  - destruct (busy O); [by left|auto].
Qed.

(** Reasoning about a call through its statement. *)
Lemma wp_store_call {A} busy (op : Op A) Q R db :
  wp (statement parse_url number_text sha256 op) Q (λ e db', R e db' ∧ R e db) db →
  R Busy db → wp (store_call busy op) Q R db.
Proof.
  intros H HB. unfold wp in *. destruct (store_call_cases busy op db) as [-> | [-> | ->]]; [done| |].
  - destruct (statement parse_url number_text sha256 op db) as [[a|e] db']; [done|apply H].
  - unfold transaction. destruct (statement parse_url number_text sha256 op db) as [[a|e] db'];
      [done|apply H].
Qed.

Lemma call_good {A} busy (op : Op A) db :
  issued op → DbInv db →
  DbInv (exec (store_call busy op) db) ∧ evolves db (exec (store_call busy op) db).
Proof.
  intros Hop HI. enough (wp (store_call busy op) (λ _ db', DbInv db' ∧ evolves db db')
    (λ _ db', DbInv db' ∧ evolves db db') db) as H.
  { unfold wp, exec in *. by destruct (store_call busy op db) as [[a|e] db']. }
  apply wp_store_call; [|done]. eapply wp_mono; [by apply good_statement|done|]. by intros.
Qed.

(** ** Executions *)
Record later (s s' : Sys) : Prop := {
  later_inv : DbInv (db_of s');
  later_evolves : evolves (db_of s) (db_of s');
  later_clock : (clock s <= clock s')%Z;
}.

Lemma sys_later_refl s : DbInv (db_of s) → later s s.
Proof. by split. Qed.

Lemma sys_later_trans s1 s2 s3 : later s1 s2 → later s2 s3 → later s1 s3.
Proof. intros [_ E1 C1] [I2 E2 C2]. split; [done|by etrans|lia]. Qed.

Lemma later_call {A} busy (op : Op A) s :
  issued op → DbInv (db_of s) →
  later s {| db_of := exec (store_call busy op) (db_of s); clock := clock s |}.
Proof. intros Hop HI. destruct (call_good busy op (db_of s) Hop HI). by split. Qed.

Lemma env_later s s' : rtc env_step s s' → DbInv (db_of s) → later s s'.
Proof.
  induction 1 as [s|s s1 s2 Hs Hr IH]; intros HI; [by apply sys_later_refl|].
  assert (later s s1) as H1 by (destruct Hs; [by apply later_call|by split]).
  eapply sys_later_trans; [done|]. apply IH, H1.
Qed.

(** [leads p Q s]: every execution of the method [p] from [s], whatever the
    other parties do meanwhile, ends in a state and with an outcome that [Q]
    accepts. *)
Fixpoint leads {A} (p : prog A) (Q : outcome CoreError A → Sys → Prop) (s : Sys) : Prop :=
  match p with
  | Ret _ a => Q (Ok a) s
  | Fail _ e => Q (Throw e) s
  | Call _ op k => ∀ busy s1, rtc env_step s s1 →
      leads (k (result (store_call busy op) (db_of s1))) Q
        {| db_of := exec (store_call busy op) (db_of s1); clock := clock s1 |}
  | Now _ k => ∀ s1, rtc env_step s s1 → leads (k (clock s1)) Q s1
  | Generate _ k => ∀ x, leads (k x) Q s
  | Emit _ e p => leads p Q s
  end.

Lemma runs_leads {A} (p : prog A) Q s o s' : runs p s o s' → leads p Q s → Q o s'.
Proof. induction 1; cbn; eauto. Qed.

Lemma leads_bind {A B} (p : prog A) (k : A → prog B) Q s :
  leads p (λ o s', match o with Ok a => leads (k a) Q s' | Throw e => Q (Throw e) s' end) s →
  leads (p ≫= k) Q s.
Proof. revert s. induction p; cbn; eauto. Qed.

Lemma leads_mono {A} (p : prog A) (Q Q' : outcome CoreError A → Sys → Prop) s :
  leads p Q s → (∀ o s', Q o s' → Q' o s') → leads p Q' s.
Proof. intros H HQ. revert s H. induction p; cbn; eauto. Qed.

Lemma leads_call {A} (f : StoreError → CoreError) (op : Op A) Q s :
  DbInv (db_of s) → issued op →
  (∀ busy s1, later s s1 → wp (store_call busy op)
     (λ a db, later s1 {| db_of := db; clock := clock s1 |} → Q (Ok a) {| db_of := db; clock := clock s1 |})
     (λ e db, later s1 {| db_of := db; clock := clock s1 |} → Q (Throw (f e)) {| db_of := db; clock := clock s1 |})
     (db_of s1)) →
  leads (Call _ op (λ o, match o with Ok b => Ret _ b | Throw e => Fail _ (f e) end)) Q s.
Proof.
  intros HI Hop H busy s1 Hs1. pose proof (env_later _ _ Hs1 HI) as Hl.
  specialize (H busy s1 Hl). pose proof (later_call busy op s1 Hop (later_inv _ _ Hl)) as Hc.
  unfold wp, result, exec in *. by destruct (store_call busy op (db_of s1)) as [[a|e] db]; apply H.
Qed.

Lemma leads_now (Q : outcome CoreError Z → Sys → Prop) s :
  DbInv (db_of s) → (∀ s1, later s s1 → Q (Ok (clock s1)) s1) → leads now Q s.
Proof. intros HI H s1 Hs1. by apply H, env_later. Qed.

Lemma leads_nowIso (Q : outcome CoreError string → Sys → Prop) s :
  DbInv (db_of s) → (∀ s1, later s s1 → Q (Ok (toISOString (clock s1))) s1) → leads nowIso Q s.
Proof. intros HI H s1 Hs1. by apply H, env_later. Qed.

(** ** What the calls return *)
Lemma encode_job_ids job j :
  parseExecutionJob parse_url (Some (encode_job job)) = Ok j → runId j = runId job ∧ jobId j = jobId job.
Proof.
  unfold parseExecutionJob, encode_job, record. cbn. intros H.
  apply bind_Ok in H as (x1 & H1 & H). apply bind_Ok in H as (x2 & H2 & H).
  apply PolicyGate.nonEmptyString_same in H1 as ->, H2 as ->.
  do 6 (apply bind_Ok in H as (? & _ & H)). by injection H as <-.
Qed.

Lemma toLease_fields r l :
  toLease parse_url r = Ok l →
  lease_owner l = {| owner_runnerId := runner_id r; owner_sessionId := session_id r |} ∧
  leaseEpoch l = lease_epoch r ∧ leaseTokenHash l = lease_token_hash r ∧
  lease_expiresAt l = expires_at r ∧ lostAt l = lost_at r ∧ completedAt l = completed_at r ∧
  recoveryOfRunId l = recovery_of_run_id r.
Proof. intros H. apply bind_Ok in H as (job & _ & [= <-]). by split_and!. Qed.

Lemma toLease_ids db id r l :
  DbInv db → execution_leases db !! id = Some r → toLease parse_url r = Ok l →
  runId (lease_job l) = id ∧ jobId (lease_job l) = job_id r.
Proof.
  intros [HI _] Hr H. destruct (HI id r Hr) as [(job & Hj & <- & Hid) _ _].
  apply bind_Ok in H as (j & Hp & [= <-]). cbn. unfold parseJob in Hp. rewrite Hj in Hp.
  destruct (parseExecutionJob _ _) eqn:He; [|done]. injection Hp as ->.
  apply encode_job_ids in He as [-> ->]. by split.
Qed.

Definition read_post (id : string) (db : Db) (l : option PersistedExecutionLease) (db' : Db) : Prop :=
  db' = db ∧
  match l with
  | None => execution_leases db !! id = None
  | Some l => ∃ r, execution_leases db !! id = Some r ∧ toLease parse_url r = Ok l
  end.

Lemma wp_read busy id db :
  wp (store_call busy (ReadLease id)) (read_post id db) (λ _ db', db' = db) db.
Proof.
  apply wp_store_call; [|done]. cbn. unfold lease. apply wp_bind, wp_get.
  destruct (execution_leases db !! id) as [r|] eqn:Hr; [|by apply wp_ret].
  apply wp_bind, wp_lift; [|done]. intros l Hl. apply wp_ret. by split; [|exists r].
Qed.

Lemma wp_complete_call busy p c db :
  DbInv db →
  wp (store_call busy (CompleteLease p c)) (completion_post p c db) (λ _ _, True) db.
Proof.
  intros HI. apply wp_store_call; [|done]. eapply wp_mono; [by apply wp_completeLease_tx|done|done].
Qed.

Lemma wp_any {A} (m : M A) (Q : A → Db → Prop) (R : StoreError → Db → Prop) db :
  (∀ a db', Q a db') → (∀ e db', R e db') → wp m Q R db.
Proof. intros HQ HR. unfold wp. by destruct (m db) as [[a|e] db']. Qed.

(** ** The services *)
Context (leaseDurationMs ttlMs : Z) (hashToken : string → string) (base64url_sha256 : string → string).

Notation requireMatchingLease := (requireMatchingLease hashToken).
Notation complete := (complete number_text sha256 hashToken).
Notation completeStored := (completeStored number_text sha256).
Notation completeAgainst := (completeAgainst number_text sha256).
Notation renew := (renew leaseDurationMs hashToken).
Notation mayStartAction := (mayStartAction hashToken).
Notation redeem := (redeem ttlMs hashToken base64url_sha256).

(** A lease record as some past state held it. *)
Record seen (s : Sys) (id : string) (r : LeaseRow) (l : PersistedExecutionLease) (s' : Sys) : Prop := {
  seen_inv : DbInv (db_of s);
  seen_row : execution_leases (db_of s) !! id = Some r;
  seen_lease : toLease parse_url r = Ok l;
  seen_later : later s s';
}.

Lemma seen_run s id r l s' : seen s id r l s' → runId (lease_job l) = id.
Proof. intros [HI Hr Hl _]. by eapply toLease_ids. Qed.

Lemma seen_weaken s id r l s1 s2 : seen s id r l s1 → later s1 s2 → seen s id r l s2.
Proof. intros [HI Hr Hl Hs] H. split; [done..|]. by eapply sys_later_trans. Qed.

(** Reading a lease, whatever an exception becomes. *)
Lemma leads_read f id Q s :
  DbInv (db_of s) →
  (∀ s0, later s s0 → execution_leases (db_of s0) !! id = None → Q (Ok None) s0) →
  (∀ s0 r l, later s s0 → seen s0 id r l s0 → Q (Ok (Some l)) s0) →
  (∀ e s0, later s s0 → Q (Throw (f e)) s0) →
  leads (Call _ (ReadLease id) (λ o, match o with Ok b => Ret _ b | Throw e => Fail _ (f e) end)) Q s.
Proof.
  intros HI Hnone Hsome Hthrow. apply leads_call; [done|done|]. intros busy s1 Hl.
  assert (∀ db, db = db_of s1 → {| db_of := db; clock := clock s1 |} = s1) as Heq
    by (intros ? ->; by destruct s1).
  eapply wp_mono; [apply wp_read| |].
  - intros a db [-> Ha] _. rewrite (Heq _ eq_refl). destruct a as [l|]; [|by apply Hnone].
    destruct Ha as (r & Hr & Ht). apply (Hsome _ r); [done|]. split; [apply Hl|done|done|].
    apply sys_later_refl, Hl.
  - intros e db -> _. rewrite (Heq _ eq_refl). by apply Hthrow.
Qed.

(** A call of whose effect only its being a step of the store matters. *)
Lemma leads_any {A} f (op : Op A) Q s :
  DbInv (db_of s) → issued op →
  (∀ a s1, later s s1 → Q (Ok a) s1) → (∀ e s1, later s s1 → Q (Throw (f e)) s1) →
  leads (Call _ op (λ o, match o with Ok b => Ret _ b | Throw e => Fail _ (f e) end)) Q s.
Proof.
  intros HI Hop HQ HR. apply leads_call; [done|done|]. intros busy s1 Hl.
  apply wp_any; intros ? db' H; [apply HQ|apply HR]; by eapply sys_later_trans.
Qed.

Definition matching_post (l : ExecutionJobLease) (s : Sys) (o : outcome CoreError PersistedExecutionLease)
    (s' : Sys) : Prop :=
  later s s' ∧
  match o with
  | Ok record => ∃ s0 r, later s s0 ∧ seen s0 (l_runId l) r record s' ∧ lost_at r = None ∧
      lease_epoch r = l_leaseEpoch l ∧ lease_token_hash r = hashToken (leaseToken l) ∧
      (completed_at r = None → text_leb (expires_at r) (toISOString (clock s')) = false)
  | Throw _ => True
  end.

Lemma leads_requireMatchingLease l s :
  DbInv (db_of s) → leads (requireMatchingLease l) (matching_post l s) s.
Proof.
  intros HI. unfold RunnerControl.requireMatchingLease. apply leads_bind, leads_read; [done|..].
  - by intros s0 Hs0 _.
  - intros s0 r record Hs0 Hseen. destruct (toLease_fields _ _ (seen_lease _ _ _ _ _ Hseen))
      as (E1 & E2 & E3 & E4 & E5 & E6 & E7).
    destruct (_ || _ || _) eqn:Hbind; [by split|]. to_prop.
    apply dec_stable in H. apply String.eqb_eq in H0.
    destruct (bool_decide (completedAt record ≠ None)) eqn:Hcomp.
    { apply bool_decide_eq_true in Hcomp. split; [done|]. exists s0, r.
      split_and!; try congruence. }
    apply leads_bind, leads_nowIso; [apply Hs0|]. intros s1 Hs1.
    assert (later s s1) as Hs by by eapply sys_later_trans.
    destruct (text_leb _ _) eqn:Hexp.
    + apply leads_bind, leads_nowIso; [apply Hs1|]. intros s2 Hs2.
      assert (later s s2) as Hs' by by eapply sys_later_trans.
      apply leads_bind, leads_any; [apply Hs2|done|..]; intros ? s3 Hs3;
        (split; [by eapply sys_later_trans|done]).
    + split; [done|]. exists s0, r. split; [done|]. split; [by eapply seen_weaken|].
      rewrite <- E4. split_and!; congruence || done.
  - by intros e s0 Hs0.
Qed.

(** The run has a stored completion with the payload of [c]. *)
Definition recorded (id : string) (c : ExecutionCompletion) (db : Db) : Prop :=
  ∃ row, execution_completions db !! id = Some row ∧
    completionHash number_text sha256 (completion_json row) = completionHash number_text sha256 c.

Lemma recorded_later id c s s' : recorded id c (db_of s) → later s s' → recorded id c (db_of s').
Proof. intros (row & Hrow & Hh) [_ E _]. exists row. split; [by apply (ev_completions _ _ E)|done]. Qed.

(** A completion that is answered as the first one found none stored. *)
Definition completing_post (id : string) (c : ExecutionCompletion) (s : Sys)
    (o : outcome CoreError RunCompletionDisposition) (s' : Sys) : Prop :=
  later s s' ∧ match o with
    | Ok d => recorded id c (db_of s') ∧ (d = d_completed → execution_completions (db_of s) !! id = None)
    | Throw _ => True
    end.

Lemma completing_later id c s1 s2 o s3 :
  later s1 s2 → completing_post id c s2 o s3 → completing_post id c s1 o s3.
Proof.
  intros H [H1 H2]. split; [by eapply sys_later_trans|]. destruct o as [d|]; [|done].
  destruct H2 as [Hrec Hnone]. split; [done|]. intros E. specialize (Hnone E). destruct H as [_ He _].
  apply eq_None_not_Some. intros [row Hrow]. by rewrite (ev_completions _ _ He _ _ Hrow) in Hnone.
Qed.

Lemma completing_throw id c s e s' : later s s' → completing_post id c s (Throw e) s'.
Proof. by split. Qed.

Lemma leads_completeAgainst record c at_ id s0 r s :
  seen s0 id r record s → leads (completeAgainst record c at_) (completing_post id c s) s.
Proof.
  intros Hseen. pose proof (seen_run _ _ _ _ _ Hseen) as Hid.
  pose proof (seen_later _ _ _ _ _ Hseen) as Hs.
  unfold RunnerControl.completeAgainst. apply leads_bind, leads_call; [apply Hs|done|].
  intros busy s1 Hs1. eapply wp_mono; [apply wp_complete_call, Hs1| |].
  - intros o db (HI & Hev & Hfirst & Ho) Hl. cbn [p_runId presented_record] in Hfirst, Ho.
    rewrite Hid in Hfirst, Ho.
    destruct o; cbn; apply (completing_later _ _ _ s1); try done; (split; [done|]); try done; (split; [exact Ho|]); intros [=]; by apply Hfirst.
  - intros e db _ Hl. by apply completing_throw; eapply sys_later_trans.
Qed.

Lemma leads_complete l c s :
  DbInv (db_of s) → leads (complete l c) (completing_post (l_runId l) c s) s.
Proof.
  intros HI. unfold RunnerControl.complete. apply leads_bind.
  eapply leads_mono; [by apply leads_requireMatchingLease|]. intros [record|e] s1 [Hs1 Hrec].
  - destruct Hrec as (s0 & r & _ & Hseen & _). apply leads_bind, leads_nowIso; [apply Hs1|].
    intros s2 Hs2. eapply leads_mono.
    + eapply leads_completeAgainst. by eapply seen_weaken.
    + intros o s3. apply completing_later. by eapply sys_later_trans.
  - by apply completing_throw.
Qed.

Lemma leads_completeStored id c s :
  DbInv (db_of s) → leads (completeStored id c) (completing_post id c s) s.
Proof.
  intros HI. unfold RunnerControl.completeStored. apply leads_bind, leads_read; [done|..].
  - intros s0 Hs0 _. apply leads_bind, leads_nowIso; [apply Hs0|]. intros s1 Hs1.
    apply completing_throw. by eapply sys_later_trans.
  - intros s0 r record Hs0 Hseen0. apply leads_bind, leads_nowIso; [apply Hs0|]. intros s1 Hs1.
    assert (later s s1) as Hs by by eapply sys_later_trans.
    pose proof (seen_weaken _ _ _ _ _ _ Hseen0 Hs1) as Hseen.
    assert (leads (completeAgainst record c (toISOString (clock s1))) (completing_post id c s) s1)
      as Hgo.
    { eapply leads_mono; [by eapply leads_completeAgainst|]. intros o s2. by apply completing_later. }
    destruct (bool_decide (completedAt record ≠ None)); [done|].
    destruct (bool_decide (lostAt record ≠ None)); [by apply completing_throw|].
    destruct (text_leb _ _); [|done]. apply leads_bind, leads_any; [apply Hs|done|..].
    + intros marked s2 Hs2. destruct (negb marked).
      2:{ apply completing_throw. by eapply sys_later_trans. }
      assert (later s s2) as Hss2 by by eapply sys_later_trans.
      apply leads_bind, leads_read; [apply Hs2|..].
      * intros s3 Hs3 _. apply completing_throw. by eapply sys_later_trans.
      * intros s3 r' latest Hs3 Hseen3. assert (later s s3) as Hss3 by by eapply sys_later_trans.
        destruct (bool_decide (completedAt latest ≠ None)); [|by apply completing_throw].
        eapply leads_mono; [by eapply leads_completeAgainst|]. intros o s4. by apply completing_later.
      * intros e s3 Hs3. apply completing_throw. by eapply sys_later_trans.
    + intros e s2 Hs2. apply completing_throw. by eapply sys_later_trans.
  - intros e s0 Hs0. by apply completing_throw.
Qed.

(** The two ways to complete a run. *)
Inductive completes : string → ExecutionCompletion → prog RunCompletionDisposition → Prop :=
  | by_lease l c : completes (l_runId l) c (complete l c)
  | by_store id c : completes id c (completeStored id c).

Lemma completes_recorded id c p s d s' :
  completes id c p → DbInv (db_of s) → runs p s (Ok d) s' →
  later s s' ∧ recorded id c (db_of s') ∧ (d = d_completed → execution_completions (db_of s) !! id = None).
Proof.
  intros Hc HI Hr. apply (runs_leads _ (completing_post id c s) _ _ _ Hr).
  destruct Hc; [by apply leads_complete|by apply leads_completeStored].
Qed.

(** A lost or completed lease row never changes again. *)
Lemma terminal_stays s s' id r :
  execution_leases (db_of s) !! id = Some r → terminal r = true → later s s' →
  execution_leases (db_of s') !! id = Some r.
Proof.
  intros Hr Ht [_ E _]. destruct (ev_leases _ _ E id r Hr) as (r' & Hr' & _ & Hsame).
  by rewrite Hr', Hsame.
Qed.

Lemma seen_terminal s s0 id r q l s' :
  execution_leases (db_of s) !! id = Some r → terminal r = true → later s s0 →
  seen s0 id q l s' → q = r.
Proof.
  intros Hr Ht Hs [_ Hq _ _]. pose proof (terminal_stays _ _ _ _ Hr Ht Hs). congruence.
Qed.

Lemma lost_terminal r at_ : lost_at r = Some at_ → terminal r = true.
Proof. intros H. unfold terminal. by rewrite H. Qed.

(** The row a successful [mayStartAction] has read. *)
Definition startable (l : ExecutionJobLease) (t : Z) (r : LeaseRow) : Prop :=
  lost_at r = None ∧ completed_at r = None ∧ lease_epoch r = l_leaseEpoch l ∧
  lease_token_hash r = hashToken (leaseToken l) ∧ text_leb (expires_at r) (toISOString t) = false.

Lemma leads_mayStartAction l s :
  DbInv (db_of s) →
  leads (mayStartAction l) (λ o s', later s s' ∧ (o = Ok true →
    ∃ s0 r, later s s0 ∧ later s0 s' ∧ execution_leases (db_of s0) !! l_runId l = Some r ∧
      startable l (clock s') r)) s.
Proof.
  intros HI. unfold RunnerControl.mayStartAction. apply leads_bind, leads_read; [done|..].
  - by intros s0 Hs0 _.
  - intros s0 r record Hs0 Hseen. destruct (toLease_fields _ _ (seen_lease _ _ _ _ _ Hseen))
      as (_ & E2 & E3 & E4 & E5 & E6 & _).
    destruct (_ || _) eqn:Hdead; [by split|]. to_prop.
    destruct (negb _) eqn:Hepoch; [by split|]. to_prop.
    apply leads_bind, leads_nowIso; [apply Hs0|]. intros s1 Hs1.
    assert (later s s1) as Hs by by eapply sys_later_trans.
    destruct (text_leb _ _) eqn:Hexp; [by split|]. split; [done|].
    intros [= Htok%String.eqb_eq]. exists s0, r. split_and!; [done|done|apply Hseen|].
    rewrite E4 in Hexp. apply dec_stable in H, H0. split_and!; congruence.
  - by intros e s0 Hs0.
Qed.

Lemma leads_requireLiveLease l s :
  DbInv (db_of s) →
  leads (requireLiveLease hashToken l) (λ o s', matching_post l s o s' ∧
    match o with Ok record => completedAt record = None | Throw _ => True end) s.
Proof.
  intros HI. unfold requireLiveLease. apply leads_bind.
  eapply leads_mono; [by apply leads_requireMatchingLease|]. intros [record|e] s1 Hpost; [|by split].
  destruct (bool_decide _) eqn:Hc; [by destruct Hpost|]. split; [done|].
  by apply bool_decide_eq_false, dec_stable in Hc.
Qed.

Lemma leads_renew_terminal l r s :
  DbInv (db_of s) → execution_leases (db_of s) !! l_runId l = Some r → terminal r = true →
  leads (renew l) (λ o _, ∀ x, o ≠ Ok x) s.
Proof.
  intros HI Hr Ht. unfold RunnerControl.renew. apply leads_bind, leads_now; [done|]. intros s1 Hs1.
  apply leads_bind. eapply leads_mono; [apply leads_requireLiveLease, Hs1|].
  intros [record|e] s2; [|done]. intros [[_ Hrec] Hc]. exfalso.
  destruct Hrec as (s0 & q & Hs0 & Hseen & Hlost & _).
  assert (q = r) as -> by (eapply seen_terminal; [done|done| |done]; by eapply sys_later_trans).
  destruct (toLease_fields _ _ (seen_lease _ _ _ _ _ Hseen)) as (_ & _ & _ & _ & _ & E6 & _).
  unfold terminal in Ht. rewrite Hlost, <- E6, Hc in Ht. done.
Qed.

Lemma leads_complete_lost id c p r at_ s :
  completes id c p → DbInv (db_of s) → execution_leases (db_of s) !! id = Some r →
  lost_at r = Some at_ → leads p (λ o _, ∀ x, o ≠ Ok x) s.
Proof.
  intros Hc HI Hr Hlost. pose proof (lost_terminal _ _ Hlost) as Ht. destruct Hc as [l c|id c].
  - unfold RunnerControl.complete. apply leads_bind.
    eapply leads_mono; [by apply leads_requireMatchingLease|]. intros [record|e] s1 [_ Hrec]; [|done].
    destruct Hrec as (s0 & q & Hs0 & Hseen & Hq & _).
    assert (q = r) as -> by by eapply seen_terminal. congruence.
  - unfold RunnerControl.completeStored. apply leads_bind, leads_read; [done|..].
    + intros s0 Hs0 _. by apply leads_bind, leads_nowIso; [apply Hs0|].
    + intros s0 q record Hs0 Hseen. assert (q = r) as -> by by eapply seen_terminal.
      destruct (toLease_fields _ _ (seen_lease _ _ _ _ _ Hseen)) as (_ & _ & _ & _ & E5 & E6 & _).
      assert (completed_at r = None) as Hcomp.
      { destruct (inv_rows _ HI _ _ Hr) as [_ [?|?] _]; congruence. }
      apply leads_bind, leads_nowIso; [apply Hs0|]. intros s1 _.
      rewrite E5, E6, Hcomp, Hlost. done.
    + done.
Qed.

(** Marking a lease lost leaves it lost or completed. *)
Lemma wp_markLost busy id at_ db :
  wp (store_call busy (MarkLeaseLost id at_))
    (λ _ db', ∀ r, execution_leases db !! id = Some r →
       ∃ r', execution_leases db' !! id = Some r' ∧ terminal r' = true) (λ _ _, True) db.
Proof.
  apply wp_store_call; [|done]. cbn. unfold markLeaseLost. apply wp_bind, wp_get.
  destruct (execution_leases db !! id) as [r|] eqn:Hr; [|by apply wp_ret].
  destruct (_ && _) eqn:Hlive.
  - apply wp_bind, wp_modify, wp_ret. intros _ _. exists (with_lost at_ r). cbn.
    by rewrite lookup_insert_eq.
  - apply wp_ret. intros r' [= <-]. exists r. split; [done|]. unfold terminal.
    apply andb_false_iff in Hlive as [H|H]; apply bool_decide_eq_false in H.
    + by rewrite (bool_decide_true (lost_at r ≠ None)).
    + by rewrite (bool_decide_true (completed_at r ≠ None)), orb_true_r.
Qed.

Definition abandoned (id : string) (s : Sys) : Prop :=
  ∃ r, execution_leases (db_of s) !! id = Some r ∧ terminal r = true.

Lemma abandoned_later id s s' : abandoned id s → later s s' → abandoned id s'.
Proof. intros (r & Hr & Ht) H. exists r. split; [by eapply terminal_stays|done]. Qed.

(** What a recovery job is made from. *)
Definition recovery_post (id : string) (s : Sys) (o : outcome CoreError (AcceptedExecutionJob * string))
    (s' : Sys) : Prop :=
  later s s' ∧
  match o with
  | Ok (job, lost) => lost = id ∧ abandoned id s' ∧ ∃ s0 r l, later s s0 ∧ seen s0 id r l s' ∧
      completed_at r = None ∧ job = recoveryJob (lease_job l) (jobId job) (runId job) ∧
      (lost_at r = None → ∃ t, (t <= clock s')%Z ∧ text_ltb (toISOString t) (expires_at r) = false)
  | Throw _ => True
  end.

Lemma leads_createRecoveryRun id s :
  DbInv (db_of s) → leads (createRecoveryRun id) (recovery_post id s) s.
Proof.
  intros HI. unfold createRecoveryRun. apply leads_bind, leads_read; [done|..].
  - by intros s0 Hs0 _.
  - intros s0 r record Hs0 Hseen. destruct (toLease_fields _ _ (seen_lease _ _ _ _ _ Hseen))
      as (_ & _ & _ & E4 & E5 & E6 & _).
    destruct (bool_decide _) eqn:Hc; [by split|]. apply bool_decide_eq_false, dec_stable in Hc.
    apply leads_bind, leads_nowIso; [apply Hs0|]. intros s1 Hs1.
    assert (later s s1) as Hs by by eapply sys_later_trans.
    destruct (_ && text_ltb _ _) eqn:Hactive; [by split|]. apply leads_bind.
    rewrite E5 in *. destruct (bool_decide (lost_at r = None)) eqn:Hlost.
    + apply leads_bind, leads_call; [apply Hs|done|]. intros busy s2 Hs2.
      eapply wp_mono; [apply wp_markLost| |].
      2:{ intros e db _ Hl. split; [|done]. by eapply sys_later_trans, sys_later_trans. }
      intros b db Hab Hl jid rid. set (s3 := {| db_of := db; clock := clock s2 |}) in *.
      assert (later s1 s3) as H13 by by eapply sys_later_trans.
      split; [by eapply sys_later_trans|]. split; [done|]. split.
      { assert (later s0 s2) as Hs02 by by eapply sys_later_trans.
        destruct (ev_leases _ _ (later_evolves _ _ Hs02) id r) as (r2 & Hr2 & _); [apply Hseen|].
        by apply (Hab r2). }
      exists s0, r, record. split; [done|]. split; [by eapply seen_weaken; [|eapply sys_later_trans]|].
      split; [congruence|]. split; [done|]. intros _. exists (clock s1).
      split; [apply H13|]. by rewrite <- E4.
    + intros jid rid. split; [done|]. split; [done|].
      apply bool_decide_eq_false in Hlost. split.
      { eapply (abandoned_later _ s0); [|done]. exists r. split; [apply Hseen|]. unfold terminal.
        by rewrite (bool_decide_true (lost_at r ≠ None)). }
      exists s0, r, record. split; [done|]. split; [by eapply seen_weaken|].
      split; [congruence|]. by split.
  - by intros e s0 Hs0.
Qed.

(** ** Resume tokens *)
Lemma presented_by_binding r r' i : toBinding r' = toBinding r → presented_by r' i = presented_by r i.
Proof. intros H. unfold presented_by. injection H as -> -> _ ->. done. Qed.

(** The token was exchanged for its replacement by the holder of [i]. *)
Definition redeemed (hash replacement : string) (i : ResumePresentedIdentity) (b : ResumeTokenBinding)
    (db : Db) : Prop :=
  ∃ r, runner_resume_tokens db !! hash = Some r ∧ is_Some (consumed_at r) ∧
    presented_by r i = true ∧ toBinding r = b ∧ is_Some (runner_resume_tokens db !! replacement).

Lemma redeemed_later hash replacement i b db db' :
  redeemed hash replacement i b db → evolves db db' → redeemed hash replacement i b db'.
Proof.
  intros (r & Hr & Hc & Hi & Hb & [q Hq]) E.
  destruct (ev_tokens _ _ E _ _ Hr) as (r' & Hr' & Hb' & _ & Hc').
  destruct (ev_tokens _ _ E _ _ Hq) as (q' & Hq' & _).
  exists r'. split_and!; [done|by apply Hc'|by rewrite (presented_by_binding r)|congruence|by exists q'].
Qed.

Lemma wp_rotate busy input db :
  wp (store_call busy (RotateResumeToken input))
    (λ o db', match o with
              | Some (_, b) => redeemed (presentedTokenHash input) (replacementTokenHash input)
                                 (rotate_presented input) b db'
              | None => True
              end) (λ _ _, True) db.
Proof.
  apply wp_store_call; [|done]. cbn. unfold rotateResumeToken_tx. apply wp_bind, wp_get.
  destruct (runner_resume_tokens db !! presentedTokenHash input) as [r|] eqn:Hr; [|by apply wp_ret].
  destruct (presented_by r _) eqn:Hpres; cbn [negb]; [|by apply wp_ret]. destruct (text_leb _ _).
  { by apply wp_bind, wp_modify, wp_ret. }
  destruct (bool_decide (consumed_at r ≠ None)) eqn:Hcons.
  { apply wp_ret. destruct (_ !! replacementTokenHash input) eqn:Hrep; [|done].
    apply bool_decide_eq_true, not_eq_None_Some in Hcons. exists r. by split_and!. }
  apply bool_decide_eq_false, dec_stable in Hcons.
  apply wp_bind, wp_modify, wp_bind, wp_get. cbn [runner_resume_tokens set_tokens].
  set (m := match runner_resume_tokens db !! replacementTokenHash input with Some _ => _ | None => _ end).
  assert (m !! presentedTokenHash input = Some r ∧ is_Some (m !! replacementTokenHash input)) as [Hm Hrep].
  { unfold m. destruct (runner_resume_tokens db !! replacementTokenHash input) eqn:Hn; [done|].
    rewrite lookup_insert_ne by congruence. by rewrite lookup_insert_eq. }
  rewrite Hm, bool_decide_true by done. apply wp_bind, wp_modify, wp_ret.
  exists (consume_token (rotatedAt input) r). cbn. rewrite lookup_insert_eq.
  split_and!; [done|done|done|done|].
  apply lookup_insert_is_Some'. by right.
Qed.

Lemma wp_rotate_again busy input b db :
  redeemed (presentedTokenHash input) (replacementTokenHash input) (rotate_presented input) b db →
  wp (store_call busy (RotateResumeToken input))
    (λ o _, match o with
            | Some (_, b') => b' = b
            | None => ∃ r, runner_resume_tokens db !! presentedTokenHash input = Some r ∧
                text_leb (t_expires_at r) (rotatedAt input) = true
            end) (λ e _, e = Busy) db.
Proof.
  intros (r & Hr & Hc & Hi & Hb & [q Hq]). apply wp_store_call; [|done]. cbn.
  unfold rotateResumeToken_tx. apply wp_bind, wp_get. rewrite Hr, Hi. cbn [negb].
  destruct (text_leb _ _) eqn:Hexp.
  { apply wp_bind, wp_modify, wp_ret. by exists r. }
  rewrite bool_decide_true by by apply not_eq_None_Some. by rewrite Hq.
Qed.

Lemma wp_consume_again busy hash i at_ r db :
  runner_resume_tokens db !! hash = Some r → is_Some (consumed_at r) →
  wp (store_call busy (ConsumeResumeToken hash i at_)) (λ o _, o = None) (λ e _, e = Busy) db.
Proof.
  intros Hr Hc. apply wp_store_call; [|done]. cbn. unfold consumeResumeToken_tx.
  apply wp_bind, wp_get. rewrite Hr, bool_decide_false; [done|]. by apply not_eq_None_Some.
Qed.

Lemma wp_consume busy hash i at_ db :
  wp (store_call busy (ConsumeResumeToken hash i at_))
    (λ o db', is_Some o → ∃ r, runner_resume_tokens db' !! hash = Some r ∧ is_Some (consumed_at r))
    (λ _ _, True) db.
Proof.
  apply wp_store_call; [|done]. cbn. unfold consumeResumeToken_tx. apply wp_bind, wp_get.
  destruct (runner_resume_tokens db !! hash) as [r|]; [|by apply wp_ret; intros []].
  destruct (_ && _ && _); [|by apply wp_ret; intros []].
  apply wp_bind, wp_modify, wp_ret. intros _. cbn. rewrite lookup_insert_eq. by eexists.
Qed.

Lemma leads_redeem token i s :
  DbInv (db_of s) → leads (redeem token i) (λ o s', later s s' ∧ match o with
    | Ok (b, r) => r = deriveReplacementToken base64url_sha256 token ∧
        redeemed (hashToken token) (hashToken r) i b (db_of s')
    | Throw _ => True end) s.
Proof.
  intros HI. unfold RunnerControl.redeem. apply leads_bind, leads_now; [done|]. intros s1 Hs1.
  apply leads_bind, leads_nowIso; [apply Hs1|]. intros s2 Hs2. assert (later s s2) by by eapply sys_later_trans.
  apply leads_bind, leads_call; [apply Hs2|done|]. intros busy s3 Hs3.
  eapply wp_mono; [apply wp_rotate| |].
  - intros [[o b]|] db Ho Hl; (split; [by eapply sys_later_trans, sys_later_trans|]); [|done].
    by split.
  - intros e db _ Hl. split; [by eapply sys_later_trans, sys_later_trans|done].
Qed.

Lemma leads_redeem_again token i b s :
  let r := deriveReplacementToken base64url_sha256 token in
  DbInv (db_of s) → redeemed (hashToken token) (hashToken r) i b (db_of s) →
  leads (redeem token i) (λ o s', o = Ok (b, r) ∨ o = Throw (StoreFailure Busy) ∨
    (o = Throw (CoreApplicationError RunnerResumeRejected) ∧ ∃ t q, (t <= clock s')%Z ∧
       runner_resume_tokens (db_of s) !! hashToken token = Some q ∧
       text_leb (t_expires_at q) (toISOString t) = true)) s.
Proof.
  intros r HI Hred. unfold RunnerControl.redeem. apply leads_bind, leads_now; [done|]. intros s1 Hs1.
  apply leads_bind, leads_nowIso; [apply Hs1|]. intros s2 Hs2. assert (later s s2) by by eapply sys_later_trans.
  apply leads_bind, leads_call; [apply Hs2|done|]. intros busy s3 Hs3.
  assert (later s s3) as Hss3 by by eapply sys_later_trans.
  eapply wp_mono; [apply (wp_rotate_again _ _ b)| |].
  - eapply redeemed_later; [done|apply Hss3].
  - intros [[o b']|] db Ho _; [by left; rewrite Ho|]. right; right. split; [done|].
    destruct Ho as (q & Hq & Hexp). destruct Hred as (q0 & Hq0 & _).
    destruct (ev_tokens _ _ (later_evolves _ _ Hss3) _ _ Hq0) as (q' & Hq' & _ & He & _).
    cbn [presentedTokenHash rotatedAt] in Hq, Hexp. rewrite Hq' in Hq. injection Hq as ->.
    exists (clock s2), q0. split; [apply Hs3|]. split; [done|]. by rewrite <- He.
  - intros e db -> _. by right; left.
Qed.

(** ** The services under interference *)

(** The hashed payload determines the completion. *)
#[local] Instance severity_name_inj : Inj (=) (=) severity_name.
Proof. by intros [] []. Qed.

Lemma finding_inj f f' :
  CanonicalJson.normalize (encode_finding f) = CanonicalJson.normalize (encode_finding f') → f = f'.
Proof.
  intros H. pose proof (λ k, CanonicalJson.get_field_normalize k _ _ H) as Hf. clear H.
  pose proof (Hf "evidenceRefs") as Ha.
  apply (inj Some (CanonicalJson.normalize (encode_strings _)) (CanonicalJson.normalize (encode_strings _))) in Ha.
  apply CanonicalJson.strings_inj in Ha.
  CanonicalJson.fields Hf ["findingId"; "runId"; "title"; "summary"; "severity"].
  destruct f, f'; cbn in *. CanonicalJson.same_fields.
Qed.

Lemma completion_inj c c' :
  CanonicalJson.normalize (encode_completion c) = CanonicalJson.normalize (encode_completion c') → c = c'.
Proof.
  intros H. pose proof (λ k, CanonicalJson.get_field_normalize k _ _ H) as Hf. clear H.
  destruct c as [j r st], c' as [j' r' st'].
  assert (st = st') as ->.
  { destruct st as [|f|[e|]|e], st' as [|f'|[e'|]|e']; try (CanonicalJson.fields Hf ["status"; "errorCode"]; done).
    - pose proof (Hf "finding") as Ha.
      apply (inj Some (CanonicalJson.normalize (encode_finding f)) (CanonicalJson.normalize (encode_finding f'))) in Ha.
      by apply finding_inj in Ha as ->.
    - CanonicalJson.fields Hf ["errorCode"]. CanonicalJson.same_fields.
    - CanonicalJson.fields Hf ["errorCode"]. CanonicalJson.same_fields. }
  CanonicalJson.fields Hf ["jobId"; "runId"]. CanonicalJson.same_fields.
Qed.

Lemma numberless_completion c : CanonicalJson.numberless (encode_completion c) = true.
Proof.
  destruct c as [j r [|f|[e|]|e]]; try done. cbn. rewrite andb_true_r.
  induction (finding_evidenceRefs f); [done|]. done.
Qed.

Lemma completionHash_inj c c' :
  completionHash number_text sha256 c = completionHash number_text sha256 c' →
  c = c' ∨ CanonicalJson.collision sha256.
Proof.
  intros [H|H]%CanonicalJson.digest_inj; [left|by right].
  apply completion_inj. by apply CanonicalJson.canonicalize_inj in H; try apply numberless_completion.
Qed.

(** C4: a run completes once.  Whatever calls are made meanwhile, in whatever
    order, when two completions of the same run are accepted (through its lease
    or from the trusted store path) they are the same completion, unless they
    exhibit a collision of SHA-256; and one that is presented after the first
    was accepted is answered as a duplicate or refused, never as completed. *)
Theorem completion_unique id c c' p p' s s1 d t t1 d' :
  DbInv (db_of s) → DbInv (db_of t) →
  completes id c p → runs p s (Ok d) s1 →
  completes id c' p' → runs p' t (Ok d') t1 →
  (rtc env_step s1 t1 → c = c' ∨ CanonicalJson.collision sha256) ∧
  (rtc env_step s1 t → d' = d_duplicate ∧ (c = c' ∨ CanonicalJson.collision sha256)).
Proof.
  intros Hs Ht Hc Hr Hc' Hr'.
  destruct (completes_recorded _ _ _ _ _ _ Hc Hs Hr) as (Hl1 & H1 & _).
  destruct (completes_recorded _ _ _ _ _ _ Hc' Ht Hr') as (Hl' & (row' & Hrow' & Hh') & Hfirst).
  assert (later s1 t1 → c = c' ∨ CanonicalJson.collision sha256) as Hsame.
  { intros Hl. destruct (recorded_later _ _ _ _ H1 Hl) as (row & Hrow & Hh). apply completionHash_inj. congruence. }
  split; intros Henv; pose proof (env_later _ _ Henv (later_inv _ _ Hl1)) as Hl; [by apply Hsame|].
  split; [|by eapply Hsame, sys_later_trans]. destruct d'; [|done].
  destruct (recorded_later _ _ _ _ H1 Hl) as (row & Hrow & _). by rewrite Hfirst in Hrow.
Qed.

(** C5: losing a lease is final.  Once a run's lease row is marked lost, no later
    execution of [renew], [mayStartAction] or any completion of that run
    succeeds, whatever the token, the clock and the other callers do. *)
Theorem lost_authority_final l r at_ s s1 :
  DbInv (db_of s) → execution_leases (db_of s) !! l_runId l = Some r → lost_at r = Some at_ →
  rtc env_step s s1 →
  (∀ o s2, runs (renew l) s1 o s2 → ∀ x, o ≠ Ok x) ∧
  (∀ o s2, runs (mayStartAction l) s1 o s2 → o ≠ Ok true) ∧
  (∀ c p o s2, completes (l_runId l) c p → runs p s1 o s2 → ∀ x, o ≠ Ok x).
Proof.
  intros HI Hr Hlost Henv. pose proof (env_later _ _ Henv HI) as Hs1.
  pose proof (lost_terminal _ _ Hlost) as Ht.
  pose proof (terminal_stays _ _ _ _ Hr Ht Hs1) as Hr1. apply later_inv in Hs1 as HI1.
  split_and!.
  - intros o s2 Hrun. by apply (runs_leads _ _ _ _ _ Hrun (leads_renew_terminal l r s1 HI1 Hr1 Ht)).
  - intros o s2 Hrun. pose proof (runs_leads _ _ _ _ _ Hrun (leads_mayStartAction l s1 HI1)) as [_ H].
    intros Ho. destruct (H Ho) as (s0 & q & Hs0 & _ & Hq & Hnone & _).
    pose proof (terminal_stays _ _ _ _ Hr1 Ht Hs0). congruence.
  - intros c p o s2 Hc Hrun.
    by apply (runs_leads _ _ _ _ _ Hrun (leads_complete_lost _ c p r at_ s1 Hc HI1 Hr1 Hlost)).
Qed.

(** An action is started only under a live lease.  When [mayStartAction]
    answers yes, the run's lease row was, at one moment of that call, neither
    lost nor completed and carried the presented epoch and token hash, and its
    expiry lies after the clock of the answer. *)
Theorem may_start_under_live_lease l s s' :
  DbInv (db_of s) → runs (mayStartAction l) s (Ok true) s' →
  ∃ s0 r, later s s0 ∧ later s0 s' ∧ execution_leases (db_of s0) !! l_runId l = Some r ∧
    startable l (clock s') r.
Proof.
  intros HI Hrun. by apply (runs_leads _ _ _ _ _ Hrun (leads_mayStartAction l s HI)).
Qed.

(** C6: the history of a lease.  However the store is called, a granted lease row
    keeps its job, owner, epoch, token hash and lineage for ever; it is never
    both lost and completed; once it is either it does not change at all; and
    it is completed exactly when the run has a stored completion. *)
Theorem lease_history s s' id r :
  DbInv (db_of s) → rtc env_step s s' → execution_leases (db_of s) !! id = Some r →
  ∃ r', execution_leases (db_of s') !! id = Some r' ∧ same_grant r r' ∧
    (terminal r = true → r' = r) ∧ (lost_at r' = None ∨ completed_at r' = None) ∧
    (is_Some (completed_at r') ↔ is_Some (execution_completions (db_of s') !! id)).
Proof.
  intros HI Henv Hr. destruct (env_later _ _ Henv HI) as [HI' E _].
  destruct (ev_leases _ _ E _ _ Hr) as (r' & Hr' & Hg & Ht). exists r'.
  destruct (inv_rows _ HI' _ _ Hr') as [_ Hex Hc]. split_and!; try done. split.
  - intros [at_ Hat]. destruct (Hc _ Hat) as (c & ? & _). by exists c.
  - intros [c Hcc]. destruct (inv_completions _ HI' _ _ Hcc) as (q & Hq & Hqc).
    rewrite Hr' in Hq. injection Hq as <-. by eexists.
Qed.

(** Redeeming a resume token is idempotent across a crash.  After a token was
    redeemed, redeeming it again with the same identity yields the very same
    binding and replacement token, or the store is busy, or the token has
    expired meanwhile; no second replacement ever appears. *)
Theorem redeem_replay token i b r s s1 s2 o s3 :
  DbInv (db_of s) → runs (redeem token i) s (Ok (b, r)) s1 → rtc env_step s1 s2 →
  runs (redeem token i) s2 o s3 →
  o = Ok (b, r) ∨ o = Throw (StoreFailure Busy) ∨
  (o = Throw (CoreApplicationError RunnerResumeRejected) ∧ ∃ t q, (t <= clock s3)%Z ∧
     runner_resume_tokens (db_of s2) !! hashToken token = Some q ∧
     text_leb (t_expires_at q) (toISOString t) = true).
Proof.
  intros HI Hrun Henv Hrun'.
  destruct (runs_leads _ _ _ _ _ Hrun (leads_redeem token i s HI)) as [H1 [-> Hred]].
  pose proof (env_later _ _ Henv (later_inv _ _ H1)) as H2.
  pose proof (redeemed_later _ _ _ _ _ _ Hred (later_evolves _ _ H2)) as Hred2.
  apply (runs_leads _ _ _ _ _ Hrun' (leads_redeem_again token i b s2 (later_inv _ _ H2) Hred2)).
Qed.

(** A consumed resume token stays spent.  After a token was consumed or
    redeemed, no later consumption of it succeeds, whoever presents it. *)
Theorem token_spent_once token i at_ b s s1 s2 busy :
  DbInv (db_of s) →
  (result (store_call busy (ConsumeResumeToken (hashToken token) i at_)) (db_of s) = Ok (Some b) ∧
   s1 = {| db_of := exec (store_call busy (ConsumeResumeToken (hashToken token) i at_)) (db_of s);
           clock := clock s |} ∨
   ∃ r, runs (redeem token i) s (Ok (b, r)) s1) →
  rtc env_step s1 s2 →
  ∀ busy' i' at', result (store_call busy' (ConsumeResumeToken (hashToken token) i' at')) (db_of s2)
    ∈ [Ok None; Throw Busy].
Proof.
  intros HI Hfirst Henv busy' i' at'.
  assert (DbInv (db_of s1) ∧ ∃ r, runner_resume_tokens (db_of s1) !! hashToken token = Some r ∧
            is_Some (consumed_at r)) as [HI1 (r & Hr & Hc)].
  { destruct Hfirst as [[Hok ->]|[r Hrun]].
    - split; [by apply later_call|]. cbn [db_of].
      pose proof (wp_consume busy (hashToken token) i at_ (db_of s)) as H. revert H Hok.
      unfold wp, result, exec. generalize (store_call busy (ConsumeResumeToken (hashToken token) i at_) (db_of s)).
      intros [[a|e] db] H [= ->]. by apply H.
    - destruct (runs_leads _ _ _ _ _ Hrun (leads_redeem token i s HI)) as [[HI1 _ _] [_ Hred]].
      split; [done|]. destruct Hred as (q & ? & ? & _). by exists q. }
  destruct (ev_tokens _ _ (later_evolves _ _ (env_later _ _ Henv HI1)) _ _ Hr) as (r' & Hr' & _ & _ & Hc').
  pose proof (wp_consume_again busy' (hashToken token) i' at' r' (db_of s2) Hr' (Hc' Hc)) as H.
  revert H. unfold wp, result.
  generalize (store_call busy' (ConsumeResumeToken (hashToken token) i' at') (db_of s2)).
  intros [[a|e] db] ->; rewrite !elem_of_cons; auto.
Qed.

(** A recovery run replaces an abandoned one.  When [createRecoveryRun]
    succeeds, the run it names had, when read, a lease that was not completed
    and was lost or past its expiry; the new job is that run's job under new
    ids; and on return the old lease is lost or completed for ever, so the old
    run has no authority left. *)
Theorem recovery_abandons_run id job lost s s' :
  DbInv (db_of s) → runs (createRecoveryRun id) s (Ok (job, lost)) s' →
  lost = id ∧ abandoned id s' ∧ ∃ s0 r l, later s s0 ∧ seen s0 id r l s' ∧
    completed_at r = None ∧ job = recoveryJob (lease_job l) (jobId job) (runId job) ∧
    (lost_at r = None → ∃ t, (t <= clock s')%Z ∧ text_ltb (toISOString t) (expires_at r) = false).
Proof.
  intros HI Hrun. by destruct (runs_leads _ _ _ _ _ Hrun (leads_createRecoveryRun id s HI)) as [_ H].
Qed.

(** The execution in which the other parties move the system by [env n] before
    the method's step number [n], no attempt is busy and every generated value
    is [x]. *)
Fixpoint played {A} (env : nat → Sys → Sys) (x : string) (p : prog A) (n : nat) (s : Sys)
    : outcome CoreError A * Sys :=
  match p with
  | Ret _ a => (Ok a, s)
  | Fail _ e => (Throw e, s)
  | Call _ op k =>
      let s1 := env n s in
      let '(o, db) := store_call (λ _, false) op (db_of s1) in
      played env x (k o) (S n) {| db_of := db; clock := clock s1 |}
  | Now _ k => let s1 := env n s in played env x (k (clock s1)) (S n) s1
  | Generate _ k => played env x (k x) n s
  | Emit _ _ p => played env x p n s
  end.

(** Every method can run to its end from every state, under any interference. *)
Lemma played_runs {A} env x (p : prog A) n s o s' :
  (∀ n s, rtc env_step s (env n s)) → played env x p n s = (o, s') → runs p s o s'.
Proof.
  intros Henv. revert n s. induction p as [a|e|B op k IH|k IH|k IH|e p IH]; intros n s H; cbn in H.
  - injection H as <- <-. constructor.
  - injection H as <- <-. constructor.
  - destruct (store_call (λ _, false) op (db_of (env n s))) as [o1 db] eqn:Hc.
    apply (runs_call _ _ _ (λ _, false) _ (env n s)); [done|]. unfold result, exec. rewrite Hc.
    by apply (IH _ (S n)).
  - apply (runs_now _ _ (env n s)); [done|]. by apply (IH _ (S n)).
  - apply (runs_generate _ x). by apply (IH _ n).
  - constructor. by apply (IH n).
Qed.

(** Without interference. *)
Definition solo {A} (x : string) (p : prog A) (s : Sys) : outcome CoreError A * Sys :=
  played (λ _ s, s) x p 0 s.

Lemma solo_runs {A} x (p : prog A) s o s' : solo x p s = (o, s') → runs p s o s'.
Proof. intros H. by apply (played_runs (λ _ s, s) x p 0). Qed.
End interleaving.

(** ** A concrete store *)
Definition demo_text (n : number) : string := "0".
Definition demo_hash (text : string) : string := text.
Definition small_job : AcceptedExecutionJob :=
  recoveryJob {| jobId := EmptyString; runId := EmptyString; projectId := "project";
     target := WebTargetRef "https://shop.test/cart"; objective := "buy";
     policy := demo_policy; plan := None |} "job" "run".
Definition small_lease : PersistedExecutionLease :=
  {| lease_job := small_job; lease_owner := {| owner_runnerId := "runner"; owner_sessionId := "session" |};
     leaseEpoch := 1; leaseTokenHash := "token"; lease_expiresAt := toISOString 1000;
     lostAt := None; completedAt := None; recoveryOfRunId := None |}.
Definition small_presented : ExecutionJobLease :=
  {| l_jobId := "job"; l_runId := "run"; leaseToken := "token"; l_leaseEpoch := 1;
     l_expiresAt := toISOString 1000 |}.
Definition small_binding : ResumeTokenBinding :=
  {| binding_runnerId := "runner"; binding_certificateFingerprint := "certificate";
     previousSessionId := "session"; binding_protocolMajor := 1 |}.
Definition small_identity : ResumePresentedIdentity :=
  {| presented_runnerId := "runner"; presented_certificateFingerprint := "certificate";
     presented_protocolMajor := 1 |}.
Definition small_db (f : LeaseRow → LeaseRow) : Db :=
  {| runner_sessions := ∅; runner_resume_tokens := {["resume" := token_row small_binding (toISOString 1000)]};
     execution_leases := {["run" := f (leaseValues small_lease)]}; execution_completions := ∅ |}.
Definition small_sys : Sys := {| db_of := small_db id; clock := 500 |}.
Definition lost_sys : Sys := {| db_of := small_db (with_lost (toISOString 400)); clock := 500 |}.
Definition small_completion : ExecutionCompletion :=
  {| completion_jobId := "job"; completion_runId := "run"; status := passed |}.

Lemma small_inv f :
  completed_at (f (leaseValues small_lease)) = None →
  job_json (f (leaseValues small_lease)) = encode_job small_job →
  job_id (f (leaseValues small_lease)) = "job" → DbInv (small_db f).
Proof.
  intros Hc Hj Hi. split; [|by intros id c].
  apply map_Forall_singleton. split; [by exists small_job|by right|]. by rewrite Hc.
Qed.

Lemma small_sys_inv : DbInv (db_of small_sys).
Proof. by apply small_inv. Qed.

Lemma lost_sys_inv : DbInv (db_of lost_sys).
Proof. by apply small_inv. Qed.

Notation solo_demo := (solo demo_url demo_text demo_hash "x").
Definition small_complete := complete demo_text demo_hash demo_hash small_presented small_completion.
Definition completed_sys : Sys := (solo_demo small_complete small_sys).2.

Lemma small_complete_runs : runs demo_url demo_text demo_hash small_complete small_sys (Ok d_completed) completed_sys.
Proof. apply (solo_runs _ _ _ "x"). vm_compute. reflexivity. Qed.

Lemma completed_sys_inv : DbInv (db_of completed_sys).
Proof.
  destruct (completes_recorded demo_url demo_text demo_hash demo_hash "run" small_completion _ _ _ _
    (by_lease _ _ _ small_presented small_completion) small_sys_inv small_complete_runs) as [[H _ _] _].
  exact H.
Qed.

(** Any completion from the store path that is accepted after the lease's own is
    the same one and is answered as a duplicate, and there is one. *)
Lemma completion_unique_witness :
  (∀ c o s', runs demo_url demo_text demo_hash (completeStored demo_text demo_hash "run" c) completed_sys (Ok o) s' →
     (small_completion = c ∨ CanonicalJson.collision demo_hash) ∧ o = d_duplicate) ∧
  ∃ s', runs demo_url demo_text demo_hash (completeStored demo_text demo_hash "run" small_completion)
          completed_sys (Ok d_duplicate) s'.
Proof.
  split.
  - intros c o s' Hrun. destruct (completion_unique demo_url demo_text demo_hash demo_hash "run" small_completion c
      small_complete (completeStored demo_text demo_hash "run" c)
      small_sys completed_sys d_completed completed_sys s' o small_sys_inv completed_sys_inv
      (by_lease _ _ _ small_presented _) small_complete_runs (by_store _ _ _ "run" c) Hrun) as [_ Hafter].
    destruct (Hafter (rtc_refl _ _)) as [Hdup Hsame]. split; [exact Hsame|exact Hdup].
  - eexists. apply (solo_runs _ _ _ "x"). vm_compute. reflexivity.
Defined.

Lemma lost_authority_final_witness :
  ∃ o s2, runs demo_url demo_text demo_hash (mayStartAction demo_hash small_presented) lost_sys o s2 ∧
    o ≠ Ok true.
Proof.
  eexists _, _. split.
  - apply (solo_runs _ _ _ "x"). vm_compute. reflexivity.
  - eapply (lost_authority_final demo_url demo_text demo_hash 1000 demo_hash small_presented
      (with_lost (toISOString 400) (leaseValues small_lease)) (toISOString 400) lost_sys lost_sys).
    + exact lost_sys_inv.
    + reflexivity.
    + reflexivity.
    + apply rtc_refl.
    + apply (solo_runs _ _ _ "x"). vm_compute. reflexivity.
Defined.

Lemma may_start_under_live_lease_witness :
  ∃ s0 r, later small_sys s0 ∧ later s0 small_sys ∧
    execution_leases (db_of s0) !! "run" = Some r ∧ startable demo_hash small_presented 500 r.
Proof.
  apply (may_start_under_live_lease demo_url demo_text demo_hash demo_hash small_presented small_sys small_sys).
  - exact small_sys_inv.
  - apply (solo_runs _ _ _ "x"). vm_compute. reflexivity.
Defined.

Lemma lease_history_witness :
  ∃ r', execution_leases (db_of completed_sys) !! "run" = Some r' ∧
    (lost_at r' = None ∨ completed_at r' = None).
Proof.
  destruct (lease_history demo_url demo_text demo_hash completed_sys completed_sys "run"
    (with_completed (toISOString 500) (leaseValues small_lease))) as (r' & Hr' & _ & _ & Hex & _).
  - exact completed_sys_inv.
  - apply rtc_refl.
  - vm_compute. reflexivity.
  - exists r'. split; [exact Hr'|exact Hex].
Defined.

Definition small_redeem := redeem 500 demo_hash demo_hash "resume" small_identity.
Definition redeemed_sys : Sys := (solo_demo small_redeem small_sys).2.

Lemma small_redeem_runs :
  runs demo_url demo_text demo_hash small_redeem small_sys
    (Ok (small_binding, deriveReplacementToken demo_hash "resume")) redeemed_sys.
Proof. apply (solo_runs _ _ _ "x"). vm_compute. reflexivity. Qed.

Lemma redeem_replay_witness :
  ∃ o s3, runs demo_url demo_text demo_hash small_redeem redeemed_sys o s3 ∧
    (o = Ok (small_binding, deriveReplacementToken demo_hash "resume") ∨
     o = Throw (StoreFailure Busy) ∨ o = Throw (CoreApplicationError RunnerResumeRejected)).
Proof.
  eexists _, _. split.
  - apply (solo_runs _ _ _ "x"). vm_compute. reflexivity.
  - destruct (redeem_replay demo_url demo_text demo_hash 500 demo_hash demo_hash "resume" small_identity
      small_binding (deriveReplacementToken demo_hash "resume") small_sys redeemed_sys redeemed_sys
      (Ok (small_binding, deriveReplacementToken demo_hash "resume")) redeemed_sys) as [H|[H|[H _]]].
    + exact small_sys_inv.
    + exact small_redeem_runs.
    + apply rtc_refl.
    + apply (solo_runs _ _ _ "x"). vm_compute. reflexivity.
    + left. exact H.
    + right; left. exact H.
    + right; right. exact H.
Defined.

Lemma token_spent_once_witness :
  result (store_call demo_url demo_text demo_hash (λ _, false)
    (ConsumeResumeToken "resume" small_identity (toISOString 600))) (db_of redeemed_sys)
  ∈ [Ok None; Throw Busy].
Proof.
  apply (token_spent_once demo_url demo_text demo_hash 500 demo_hash demo_hash "resume" small_identity
    (toISOString 500) small_binding small_sys redeemed_sys redeemed_sys (λ _, false)).
  - exact small_sys_inv.
  - right. eexists. exact small_redeem_runs.
  - apply rtc_refl.
Defined.

Lemma recovery_abandons_run_witness : abandoned "run" lost_sys.
Proof.
  eapply (recovery_abandons_run demo_url demo_text demo_hash "run" (recoveryJob small_job "x" "x") "run"
    lost_sys lost_sys).
  - exact lost_sys_inv.
  - apply (solo_runs _ _ _ "x"). vm_compute. reflexivity.
Defined.

(** ** A run that completes while it is being recovered *)
Definition race_presented : PresentedLease := presented_record small_lease (toISOString 500).

(** After the recovery has read the lease the clock passes its expiry; before the
    recovery marks it lost, a completion that was checked in time is stored. *)
Definition race_env (n : nat) (s : Sys) : Sys :=
  match n with
  | 1%nat => if (clock s <=? 2000)%Z then {| db_of := db_of s; clock := 2000 |} else s
  | 2%nat => {| db_of := exec (store_call demo_url demo_text demo_hash (λ _, false)
                    (CompleteLease race_presented small_completion)) (db_of s); clock := clock s |}
  | _ => s
  end.

Lemma race_env_steps n s : rtc (env_step demo_url demo_text demo_hash) s (race_env n s).
Proof.
  destruct n as [|[|[|n]]]; cbn [race_env]; [done| | |done].
  - destruct (Z.leb_spec (clock s) 2000); [|done]. apply rtc_once. by apply env_tick.
  - apply rtc_once. by apply (env_call demo_url demo_text demo_hash (λ _, false)).
Qed.

Definition race_end : outcome CoreError (AcceptedExecutionJob * string) * Sys :=
  played demo_url demo_text demo_hash race_env "x" (createRecoveryRun "run") 0 small_sys.

(** C40: a completed run can be recovered.  [createRecoveryRun] does not look at
    what [markLeaseLost] answers: when the run's completion is stored between
    the read of the lease and the mark, the mark changes nothing and the caller
    still gets a recovery job, so a run with a stored result is executed again. *)
Theorem recovery_of_completed_run :
  ∃ job s', runs demo_url demo_text demo_hash (createRecoveryRun "run") small_sys (Ok (job, "run")) s' ∧
    DbInv (db_of small_sys) ∧
    (∃ r, execution_leases (db_of s') !! "run" = Some r ∧ lost_at r = None ∧ is_Some (completed_at r)) ∧
    completion_json <$> execution_completions (db_of s') !! "run" = Some small_completion.
Proof.
  exists (recoveryJob small_job "x" "x"), race_end.2. split_and!.
  - apply (played_runs demo_url demo_text demo_hash race_env "x" _ 0); [apply race_env_steps|].
    vm_compute. reflexivity.
  - exact small_sys_inv.
  - eexists. split_and!; [vm_compute; reflexivity|reflexivity|by eexists].
  - vm_compute. reflexivity.
Qed.

End LeaseSafety.
