(* ===== verification/PostgresRunnerControl.v ===== *)
(** * Runner control on PostgreSQL

    Models
    [packages/storage-providers/postgres-runtime/src/postgres-runner-control-store.ts],
    the multi-tenant twin of the SQLite store: every table is keyed by the
    tenant besides the row's own key.  Each call runs alone in the tenant
    transaction that [tenant-transaction.ts] opens; what concurrent
    transactions may do to one another is not modelled here.

    The simulation at the end shows that a tenant's calls are the calls of the
    SQLite store on that tenant's rows, and leave the rows of every other
    tenant alone. *)
From S2P Require Import Prelude.
From S2P Require Import Number.
From S2P Require Import Json.
From S2P Require Import IsoTime.
From S2P Require Import CanonicalJson.
From S2P Require Import AppTarget.
From S2P Require Import RunnerProtocol.
From S2P Require Import PolicyGate.
From S2P Require Import ExecutionRuntime.
From S2P Require Import RunnerControl.

Module PostgresRunnerControl.
Import RunnerProtocol ExecutionRuntime RunnerControl.

(** ** Tables, keyed by tenant and row key *)
Record PgDb := {
  pg_sessions : gmap (string * string) SessionRow;
  pg_tokens : gmap (string * string) TokenRow;
  pg_leases : gmap (string * string) LeaseRow;
  pg_completions : gmap (string * string) CompletionRow;
}.

Definition set_pg_sessions (m : gmap (string * string) SessionRow) (db : PgDb) : PgDb :=
  {| pg_sessions := m; pg_tokens := pg_tokens db; pg_leases := pg_leases db;
     pg_completions := pg_completions db |}.
Definition set_pg_tokens (m : gmap (string * string) TokenRow) (db : PgDb) : PgDb :=
  {| pg_sessions := pg_sessions db; pg_tokens := m; pg_leases := pg_leases db;
     pg_completions := pg_completions db |}.
Definition set_pg_leases (m : gmap (string * string) LeaseRow) (db : PgDb) : PgDb :=
  {| pg_sessions := pg_sessions db; pg_tokens := pg_tokens db; pg_leases := m;
     pg_completions := pg_completions db |}.
Definition set_pg_completions (m : gmap (string * string) CompletionRow) (db : PgDb) : PgDb :=
  {| pg_sessions := pg_sessions db; pg_tokens := pg_tokens db; pg_leases := pg_leases db;
     pg_completions := m |}.

Section store.
Context (parse_url : string → option Url) (number_text : number → string) (sha256 : string → string).
Context (tenant : string).

Definition PgM := js PgDb StoreError.
Definition pg_lift {A} (o : outcome StoreError A) : PgM A :=
  match o with Ok a => mret a | Throw e => throw e end.

Definition pg_saveSession (s : PersistedRunnerSession) : PgM unit :=
  modify (λ db, set_pg_sessions (<[(tenant, sessionId s) :=
    {| s_runner_id := session_runnerId s;
       s_certificate_fingerprint := session_certificateFingerprint s;
       s_capabilities := capabilities s; s_protocol_major := session_protocolMajor s;
       created_at := match pg_sessions db !! (tenant, sessionId s) with
                     | Some old => created_at old | None => createdAt s end;
       closed_at := None |}]> (pg_sessions db)) db).

Definition pg_closeSession (id closedAt : string) : PgM unit :=
  modify (λ db, set_pg_sessions (alter (λ r,
    {| s_runner_id := s_runner_id r; s_certificate_fingerprint := s_certificate_fingerprint r;
       s_capabilities := s_capabilities r; s_protocol_major := s_protocol_major r;
       created_at := created_at r; closed_at := Some closedAt |}) (tenant, id) (pg_sessions db)) db).

Definition pg_issueResumeToken (r : HashedResumeTokenRecord) : PgM unit :=
  db ← get;
  _ ← throw_if (bool_decide (is_Some (pg_tokens db !! (tenant, tokenHash r)))) ConstraintViolation;
  modify (λ db, set_pg_tokens (<[(tenant, tokenHash r) := token_row (token_binding r) (token_expiresAt r)]>
    (pg_tokens db)) db).

Definition pg_consumeResumeToken (hash : string) (presented : ResumePresentedIdentity)
    (consumedAt : string) : PgM (option ResumeTokenBinding) :=
  db ← get;
  match pg_tokens db !! (tenant, hash) with
  | Some r =>
      if bool_decide (consumed_at r = None) && presented_by r presented &&
         text_ltb consumedAt (t_expires_at r) then
        _ ← modify (λ db, set_pg_tokens (<[(tenant, hash) := consume_token consumedAt r]> (pg_tokens db)) db);
        mret (Some (toBinding r))
      else mret None
  | None => mret None
  end.

Definition pg_rotateResumeToken (input : RotateResumeTokenInput)
    : PgM (option (RotateOutcome * ResumeTokenBinding)) :=
  db ← get;
  match pg_tokens db !! (tenant, presentedTokenHash input) with
  | None => mret None
  | Some r =>
      if negb (presented_by r (rotate_presented input)) then mret None
      else if text_leb (t_expires_at r) (rotatedAt input) then
        _ ← modify (λ db, set_pg_tokens (<[(tenant, presentedTokenHash input) :=
              consume_token (rotatedAt input) r]> (pg_tokens db)) db);
        mret None
      else if bool_decide (consumed_at r ≠ None) then
        mret (match pg_tokens db !! (tenant, replacementTokenHash input) with
              | None => None
              | Some _ => Some (idempotent_retry, toBinding r)
              end)
      else
        _ ← modify (λ db, set_pg_tokens
              (match pg_tokens db !! (tenant, replacementTokenHash input) with
               | Some _ => pg_tokens db
               | None => <[(tenant, replacementTokenHash input) :=
                   token_row (toBinding r) (replacementExpiresAt input)]> (pg_tokens db)
               end) db);
        db ← get;
        match pg_tokens db !! (tenant, presentedTokenHash input) with
        | Some r' =>
            if bool_decide (consumed_at r' = None) then
              _ ← modify (λ db, set_pg_tokens (<[(tenant, presentedTokenHash input) :=
                    consume_token (rotatedAt input) r']> (pg_tokens db)) db);
              mret (Some (rotated, toBinding r))
            else mret (Some (idempotent_retry, toBinding r))
        | None => mret (Some (idempotent_retry, toBinding r))
        end
  end.

Definition pg_grantLease (l : PersistedExecutionLease) : PgM bool :=
  db ← get;
  match pg_leases db !! (tenant, runId (lease_job l)) with
  | Some _ => mret false
  | None =>
      _ ← modify (λ db, set_pg_leases (<[(tenant, runId (lease_job l)) := leaseValues l]> (pg_leases db)) db);
      mret true
  end.

(** [update execution_leases set .. where <constrainLiveLease>]. *)
Definition pg_update_live (f : LeaseRow → LeaseRow) (p : PresentedLease) : PgM bool :=
  db ← get;
  match pg_leases db !! (tenant, p_runId p) with
  | Some r =>
      if constrainLiveLease r p then
        _ ← modify (λ db, set_pg_leases (<[(tenant, p_runId p) := f r]> (pg_leases db)) db); mret true
      else mret false
  | None => mret false
  end.

Definition pg_renewLease (p : PresentedLease) (newExpiresAt : string) : PgM bool :=
  db ← get;
  _ ← match pg_leases db !! (tenant, p_runId p) with
      | Some r => _ ← pg_lift (parseJob parse_url (job_json r)); mret tt
      | None => mret tt
      end;
  pg_update_live (with_expiry newExpiresAt) p.

Definition pg_readCompletion (id : string) : PgM (option ExecutionCompletion) :=
  gets (λ db, completion_json <$> pg_completions db !! (tenant, id)).

Definition pg_completeLease (p : PresentedLease) (c : ExecutionCompletion) : PgM CompleteLeaseResult :=
  db ← get;
  match pg_leases db !! (tenant, p_runId p) with
  | None => mret r_rejected
  | Some record =>
      lease ← pg_lift (toLease parse_url record);
      if negb (leaseBindingMatches lease p) then mret r_rejected
      else
        existing ← pg_readCompletion (p_runId p);
        match observedCompletionResult number_text sha256 existing c with
        | Some observed => mret observed
        | None =>
            if text_leb (expires_at record) (p_checkedAt p) || bool_decide (completed_at record ≠ None)
            then mret r_rejected
            else
              updated ← pg_update_live (with_completed (p_checkedAt p)) p;
              if negb updated then
                raced ← pg_readCompletion (p_runId p);
                mret (default r_rejected (observedCompletionResult number_text sha256 raced c))
              else
                db ← get;
                _ ← throw_if (bool_decide (is_Some (pg_completions db !! (tenant, p_runId p))))
                      ConstraintViolation;
                _ ← modify (λ db, set_pg_completions (<[(tenant, p_runId p) :=
                      {| c_job_id := p_jobId p; completion_json := c;
                         c_completed_at := p_checkedAt p |}]> (pg_completions db)) db);
                mret r_completed
        end
  end.

Definition pg_markLeaseLost (id lostAt : string) : PgM bool :=
  db ← get;
  match pg_leases db !! (tenant, id) with
  | Some r =>
      if bool_decide (lost_at r = None) && bool_decide (completed_at r = None) then
        _ ← modify (λ db, set_pg_leases (<[(tenant, id) := with_lost lostAt r]> (pg_leases db)) db);
        mret true
      else mret false
  | None => mret false
  end.

Definition pg_lease (id : string) : PgM (option PersistedExecutionLease) :=
  db ← get;
  match pg_leases db !! (tenant, id) with
  | None => mret None
  | Some r => l ← pg_lift (toLease parse_url r); mret (Some l)
  end.

Definition pg_completionRecord (id : string) : PgM (option RunnerCompletionRecord) :=
  db ← get;
  match pg_completions db !! (tenant, id), pg_leases db !! (tenant, id) with
  | Some row, Some l =>
      job ← pg_lift (parseJob parse_url (job_json l));
      let c := completion_json row in
      _ ← throw_if (negb (String.eqb (runId job) id && String.eqb (jobId job) (c_job_id row) &&
                          String.eqb (completion_runId c) id &&
                          String.eqb (completion_jobId c) (c_job_id row)))
            CompletionIdentityMismatch;
      mret (Some {| record_runId := id; record_jobId := c_job_id row;
                    record_jobSha256 := canonicalPayloadHash number_text sha256 (encode_job job);
                    record_completion := c; record_completedAt := c_completed_at row |})
  | _, _ => mret None
  end.

Definition pg_statement {A} (op : Op A) : PgM A :=
  match op in Op A return PgM A with
  | SaveSession s => pg_saveSession s
  | CloseSession id at_ => pg_closeSession id at_
  | IssueResumeToken r => pg_issueResumeToken r
  | ConsumeResumeToken h i at_ => pg_consumeResumeToken h i at_
  | RotateResumeToken i => pg_rotateResumeToken i
  | GrantLease l => pg_grantLease l
  | RenewLease p e => pg_renewLease p e
  | CompleteLease p c => pg_completeLease p c
  | MarkLeaseLost id at_ => pg_markLeaseLost id at_
  | ReadLease id => pg_lease id
  | ReadCompletion id => pg_readCompletion id
  | ReadCompletionRecord id => pg_completionRecord id
  end.

(** [withTenant] of [tenant-transaction.ts]. *)
Definition withTenant {A} (op : PgM A) : PgM A :=
  if bool_decide (tenant = EmptyString) then throw MissingTenant else transaction op.

(** A call of the long-lived facade: the operation in a fresh transaction. *)
Definition pg_call {A} (op : Op A) : PgM A := withTenant (pg_statement op).
End store.

(** ** Simulation *)
Section simulation.
Context (parse_url : string → option Url) (number_text : number → string) (sha256 : string → string).
Context (tenant : string).

(** [db] holds what [tenant] can see of [pg]. *)
Record tenant_view (pg : PgDb) (db : Db) : Prop := {
  view_sessions id : runner_sessions db !! id = pg_sessions pg !! (tenant, id);
  view_tokens id : runner_resume_tokens db !! id = pg_tokens pg !! (tenant, id);
  view_leases id : execution_leases db !! id = pg_leases pg !! (tenant, id);
  view_completions id : execution_completions db !! id = pg_completions pg !! (tenant, id);
}.

(** Everybody else's rows. *)
Record others_kept (pg pg' : PgDb) : Prop := {
  kept_sessions k : k.1 ≠ tenant → pg_sessions pg' !! k = pg_sessions pg !! k;
  kept_tokens k : k.1 ≠ tenant → pg_tokens pg' !! k = pg_tokens pg !! k;
  kept_leases k : k.1 ≠ tenant → pg_leases pg' !! k = pg_leases pg !! k;
  kept_completions k : k.1 ≠ tenant → pg_completions pg' !! k = pg_completions pg !! k;
}.

#[export] Instance others_kept_preorder : PreOrder others_kept.
Proof.
  split; [by split|]. intros p1 p2 p3 [A1 B1 C1 D1] [A2 B2 C2 D2].
  split; intros k Hk; [by rewrite A2, A1|by rewrite B2, B1|by rewrite C2, C1|by rewrite D2, D1].
Qed.

(** The two computations answer alike and stay related. *)
Definition sim {A} (m : js PgDb StoreError A) (m' : js Db StoreError A) (pg : PgDb) (db : Db) : Prop :=
  result m pg = result m' db ∧ tenant_view (exec m pg) (exec m' db) ∧ others_kept pg (exec m pg).

Lemma sim_same {A} (o : outcome StoreError A) pg db :
  tenant_view pg db → sim (λ s, (o, s)) (λ s, (o, s)) pg db.
Proof. intros Hv. split; [done|]. by split. Qed.

Lemma sim_bind {A B} (m : js PgDb StoreError A) (m' : js Db StoreError A)
    (k : A → js PgDb StoreError B) (k' : A → js Db StoreError B) pg db :
  sim m m' pg db →
  (∀ a pg' db', tenant_view pg' db' → sim (k a) (k' a) pg' db') → sim (m ≫= k) (m' ≫= k') pg db.
Proof.
  unfold sim, result, exec, mbind, js_bind. destruct (m pg) as [[a|e] pg'], (m' db) as [[a'|e'] db'];
    cbn; intros (Ho & Hv & Hk) H; simplify_eq; [|done].
  destruct (H a' _ _ Hv) as (? & ? & ?). split; [done|]. split; [done|]. by etrans.
Qed.

Lemma sim_get {B} (k : PgDb → js PgDb StoreError B) (k' : Db → js Db StoreError B) pg db :
  sim (k pg) (k' db) pg db → sim (get ≫= k) (get ≫= k') pg db.
Proof. done. Qed.

Lemma sim_modify f f' pg db :
  tenant_view (f pg) (f' db) → others_kept pg (f pg) → sim (modify f) (modify f') pg db.
Proof. intros Hv Hk. split; [done|]. by split. Qed.

Lemma sim_throw_if b e pg db : tenant_view pg db → sim (throw_if b e) (throw_if b e) pg db.
Proof. intros Hv. destruct b; by apply sim_same. Qed.

Lemma sim_lift {A} (o : outcome StoreError A) pg db :
  tenant_view pg db → sim (pg_lift o) (lift o) pg db.
Proof. intros Hv. destruct o; by apply sim_same. Qed.

(** Writing one row of the tenant on both sides. *)
Lemma view_insert {R} (m : gmap (string * string) R) (m' : gmap string R) id r :
  (∀ id, m' !! id = m !! (tenant, id)) →
  ∀ id', <[id := r]> m' !! id' = <[(tenant, id) := r]> m !! (tenant, id').
Proof.
  intros H id'. destruct (decide (id = id')) as [->|Hne]; [by rewrite !lookup_insert_eq|].
  rewrite !lookup_insert_ne by congruence. apply H.
Qed.

Lemma view_alter {R} (m : gmap (string * string) R) (m' : gmap string R) f id :
  (∀ id, m' !! id = m !! (tenant, id)) →
  ∀ id', alter f id m' !! id' = alter f (tenant, id) m !! (tenant, id').
Proof.
  intros H id'. destruct (decide (id = id')) as [->|Hne]; [by rewrite !lookup_alter_eq, H|].
  rewrite !lookup_alter_ne by congruence. apply H.
Qed.

Lemma kept_insert {R} (m : gmap (string * string) R) id r (k : string * string) :
  k.1 ≠ tenant → <[(tenant, id) := r]> m !! k = m !! k.
Proof. intros Hk. rewrite lookup_insert_ne; [done|]. by intros <-. Qed.

Lemma kept_alter {R} (m : gmap (string * string) R) f id (k : string * string) :
  k.1 ≠ tenant → alter f (tenant, id) m !! k = m !! k.
Proof. intros Hk. rewrite lookup_alter_ne; [done|]. by intros <-. Qed.

(** [insert .. on conflict do nothing]. *)
Lemma view_upsert {R} (m : gmap (string * string) R) (m' : gmap string R) id r :
  (∀ id, m' !! id = m !! (tenant, id)) →
  ∀ id', (match m' !! id with Some _ => m' | None => <[id := r]> m' end) !! id' =
         (match m !! (tenant, id) with Some _ => m | None => <[(tenant, id) := r]> m end) !! (tenant, id').
Proof. intros H id'. rewrite H. destruct (m !! (tenant, id)); [apply H|by apply view_insert]. Qed.

Lemma kept_upsert {R} (m : gmap (string * string) R) id r (k : string * string) :
  k.1 ≠ tenant →
  (match m !! (tenant, id) with Some _ => m | None => <[(tenant, id) := r]> m end) !! k = m !! k.
Proof. intros Hk. destruct (m !! (tenant, id)); [done|by apply kept_insert]. Qed.

Ltac sim_write :=
  apply sim_modify;
    [match goal with H : tenant_view _ _ |- _ => destruct H end; split; cbn; try done;
       solve [apply view_insert; done | apply view_alter; done | apply view_upsert; done]
    |split; cbn; intros; try done; solve [by apply kept_insert | by apply kept_alter | by apply kept_upsert]].

Ltac sim_step :=
  match goal with
  | |- sim (get ≫= _) (get ≫= _) _ _ => apply sim_get
  | |- sim (mret _) (mret _) _ _ => by apply sim_same
  | |- sim (throw_if _ _) (throw_if _ _) _ _ => by apply sim_throw_if
  | |- sim (pg_lift _) (lift _) _ _ => by apply sim_lift
  | |- sim (modify _) (modify _) _ _ => sim_write
  | |- sim (_ ≫= _) (_ ≫= _) _ _ => apply sim_bind; [|intros ? ? ? ?]
  | Hv : tenant_view ?pg ?db |- sim _ _ ?pg ?db =>
      first [rewrite (view_tokens _ _ Hv) | rewrite (view_leases _ _ Hv) |
             rewrite (view_completions _ _ Hv)]
  | |- sim (if ?b then _ else _) _ _ _ => destruct b
  | |- sim (match ?x with _ => _ end) _ _ _ => destruct x eqn:?
  end.

Lemma sim_update_live f p pg db :
  tenant_view pg db → sim (pg_update_live tenant f p) (update_live f p) pg db.
Proof. intros Hv. unfold pg_update_live, update_live. repeat sim_step. Qed.

Lemma sim_readCompletion id pg db :
  tenant_view pg db → sim (pg_readCompletion tenant id) (readCompletion id) pg db.
Proof.
  intros Hv. unfold pg_readCompletion, readCompletion, gets, sim. split; [|by split].
  cbn. by rewrite (view_completions _ _ Hv).
Qed.

Ltac sim_run := repeat first [by apply sim_update_live | by apply sim_readCompletion | sim_step].

Lemma sim_rotate input pg db :
  tenant_view pg db → sim (pg_rotateResumeToken tenant input) (rotateResumeToken_tx input) pg db.
Proof.
  intros Hv. unfold pg_rotateResumeToken, rotateResumeToken_tx. sim_run.
Qed.

Lemma sim_completeLease p c pg db :
  tenant_view pg db →
  sim (pg_completeLease parse_url number_text sha256 tenant p c)
    (completeLease_tx parse_url number_text sha256 p c) pg db.
Proof. intros Hv. unfold pg_completeLease, completeLease_tx. sim_run. Qed.

Lemma sim_statement {A} (op : Op A) pg db :
  tenant_view pg db →
  sim (pg_statement parse_url number_text sha256 tenant op) (statement parse_url number_text sha256 op) pg db.
Proof.
  intros Hv. destruct op; cbn [pg_statement statement].
  - apply sim_modify; [|split; cbn; intros; try done; by apply kept_insert].
    destruct Hv as [Hs ???]. split; cbn; try done. rewrite Hs. by apply view_insert.
  - unfold pg_closeSession, closeSession. sim_run.
  - unfold pg_issueResumeToken, issueResumeToken. sim_run.
  - unfold pg_consumeResumeToken, consumeResumeToken_tx. sim_run.
  - by apply sim_rotate.
  - unfold pg_grantLease, grantLease_tx. sim_run.
  - unfold pg_renewLease, renewLease_tx. sim_run.
  - by apply sim_completeLease.
  - unfold pg_markLeaseLost, markLeaseLost. sim_run.
  - unfold pg_lease, lease. sim_run.
  - by apply sim_readCompletion.
  - unfold pg_completionRecord, completionRecord. sim_run.
Qed.

(** A throwing call outside [withWriteTransaction] has not written. *)
Lemma throw_unchanged {A} (op : Op A) db :
  transactional op = false →
  wp (statement parse_url number_text sha256 op) (λ _ _, True) (λ _ db', db' = db) db.
Proof.
  destruct op; cbn [transactional statement]; intros Ht; try discriminate Ht; clear Ht;
    unfold saveSession, closeSession, issueResumeToken, markLeaseLost, lease, readCompletion,
      completionRecord, lift; wp_run; done.
Qed.

Lemma free_call_transaction {A} (op : Op A) db :
  store_call parse_url number_text sha256 (λ _, false) op db =
  transaction (statement parse_url number_text sha256 op) db.
Proof.
  unfold store_call. destruct (transactional op) eqn:Ht; [done|].
  pose proof (throw_unchanged op db Ht) as H. unfold transaction, wp in *. cbn.
  destruct (statement _ _ _ op db) as [[a|e] db']; [done|]. by rewrite H.
Qed.

(** C7: the PostgreSQL store is the SQLite store of each tenant.  Whatever rows
    the other tenants have, a call of a tenant answers as the SQLite store that
    holds just that tenant's rows answers a call that is not busy, leaves that
    tenant's rows as the SQLite call leaves its own, and touches no row of any
    other tenant. *)
Theorem postgres_tenant_is_sqlite {A} (op : Op A) pg db :
  tenant ≠ EmptyString → tenant_view pg db →
  sim (pg_call parse_url number_text sha256 tenant op)
    (store_call parse_url number_text sha256 (λ _, false) op) pg db.
Proof.
  intros Ht Hv. pose proof (sim_statement op pg db Hv) as H. unfold sim, result, exec in *.
  rewrite free_call_transaction. unfold pg_call, withTenant. rewrite bool_decide_false by done.
  unfold transaction.
  destruct (pg_statement _ _ _ _ op pg) as [[a|e] pg'], (statement _ _ _ op db) as [[a'|e'] db'];
    cbn in *; destruct H as (Ho & Hv' & Hk); try done.
Qed.
End simulation.

(** ** Witness: two tenants share a run id *)
Definition pg_demo_row : LeaseRow :=
  {| job_id := "job"; runner_id := "runner"; session_id := "session"; lease_epoch := 1;
     job_json := encode_job demo_job; lease_token_hash := "token"; expires_at := "2024";
     lost_at := None; completed_at := None; recovery_of_run_id := None |}.
Definition pg_demo : PgDb :=
  {| pg_sessions := ∅; pg_tokens := ∅; pg_completions := ∅;
     pg_leases := <[("one", "run") := pg_demo_row]> {[("two", "run") := pg_demo_row]} |}.
Definition local_demo : Db :=
  {| runner_sessions := ∅; runner_resume_tokens := ∅; execution_completions := ∅;
     execution_leases := {["run" := pg_demo_row]} |}.

Lemma postgres_tenant_is_sqlite_witness :
  sim "one" (pg_call demo_url (λ _, "0") (λ x, x) "one" (MarkLeaseLost "run" "2023"))
    (store_call demo_url (λ _, "0") (λ x, x) (λ _, false) (MarkLeaseLost "run" "2023")) pg_demo local_demo ∧
  pg_leases (exec (pg_call demo_url (λ _, "0") (λ x, x) "one" (MarkLeaseLost "run" "2023")) pg_demo)
    !! ("two", "run") = Some pg_demo_row.
Proof.
  assert (tenant_view "one" pg_demo local_demo) as Hv.
  { split; cbn; try done. intros k. destruct (decide (k = "run")) as [->|Hne]; [done|].
    rewrite lookup_singleton_ne, lookup_insert_ne, lookup_singleton_ne by congruence. done. }
  pose proof (postgres_tenant_is_sqlite demo_url (λ _, "0") (λ x, x) "one"
    (MarkLeaseLost "run" "2023") pg_demo local_demo ltac:(done) Hv) as H.
  split; [exact H|]. destruct H as (_ & _ & [_ _ K _]). by rewrite K.
Defined.

End PostgresRunnerControl.
