(* ===== verification/TraceIngest.v ===== *)
(** * Trace ingestion

    Models the server's side of a run's trace: the SQLite trace and run stores
    [packages/storage-providers/sqlite-runtime/src/sqlite-trace-store.ts] and
    [sqlite-run-store.ts] over the tables of migration 001, the [TraceIngestor] of
    [packages/core-modules/evidence/src/trace-ingestor.ts], and
    [RunnerSessionService.ingest] of
    [packages/core-application/src/runner/runner-session-service.ts].

    Every store transaction is atomic and finds SQLite busy or not as the list
    [contention] says.  The authority that knows which artifacts were uploaded
    is the injected parameter [artifacts]; SHA-256 and the text of a number are
    parameters. *)
From S2P Require Import Prelude.
From S2P Require Import Number.
From S2P Require Import Json.
From S2P Require Import IsoTime.
From S2P Require Import CanonicalJson.
From S2P Require Import AppTarget.
From S2P Require Import RunnerProtocol.
From S2P Require Import ExecutionRuntime.
From S2P Require Import RunnerControl.
From S2P Require Import LeaseSafety.
From Stdlib Require Import Sorted.

Module TraceIngest.
Import ExecutionRuntime.

(** ** Trace events *)
Inductive TraceStage :=
  | observation | decision | action_resolved | policy_authorized | policy_denied
  | action_executed | verification | run_completed.

(** The stage of an event and its payload; the payload of a finding is a
    [FindingEnvelope], the others are carried as JSON. *)
Inductive TracePayload :=
  | p_finding (f : FindingEnvelope)
  | p_stage (s : TraceStage) (body : json).

(** [TraceEventHashInput], an event without its hash. *)
Record TraceEventHashInput := {
  messageId : string;
  idempotencyKey : string;
  event_run : string;
  sequenceNumber : Z;
  stepIndex : option number;
  occurredAt : string;
  payload : TracePayload;
}.
Record TraceEvent := { body : TraceEventHashInput; payloadHash : string }.

Definition stage_name (s : TraceStage) : string :=
  match s with
  | observation => "observation" | decision => "decision" | action_resolved => "action_resolved"
  | policy_authorized => "policy_authorized" | policy_denied => "policy_denied"
  | action_executed => "action_executed" | verification => "verification"
  | run_completed => "run_completed"
  end.

Definition payload_json (p : TracePayload) : string * json :=
  match p with
  | p_finding f => ("finding", RunnerControl.encode_finding f)
  | p_stage s j => (stage_name s, j)
  end.

Definition encode_event (e : TraceEventHashInput) : json :=
  let '(stage, j) := payload_json (payload e) in
  JObj ([("protocolVersion", JStr "runner-protocol/v1"); ("schemaVersion", JStr "trace-event/v1");
         ("messageId", JStr (messageId e)); ("idempotencyKey", JStr (idempotencyKey e));
         ("runId", JStr (event_run e)); ("sequenceNumber", JNum (num_of_Z (sequenceNumber e)))] ++
        opt_field "stepIndex" JNum (stepIndex e) ++
        [("occurredAt", JStr (occurredAt e)); ("stage", JStr stage); ("payload", j)]).

(** ** Tables *)
Inductive RunStatus := running | ended (s : string).

#[export] Instance run_status_eq_dec : EqDecision RunStatus.
Proof. solve_decision. Defined.

Record ExecutionRunRecord := {
  run_id : string;
  run_job_id : string;
  target_kind : string;
  objective : string;
  run_status : RunStatus;
  next_sequence_number : Z;
  run_created_at : string;
  run_completed_at : option string;
  run_error_code : option string;
}.
Record RunTerminalUpdate := {
  terminal_status : string;
  terminal_completedAt : string;
  terminal_errorCode : option string;
}.
Record FindingRow := { stored_finding : FindingEnvelope; finding_hash : string; finding_created_at : string }.

Record Db := {
  execution_runs : gmap string ExecutionRunRecord;
  trace_events : gmap (string * Z) TraceEvent;
  findings : gmap string FindingRow;
}.
Definition set_runs (m : gmap string ExecutionRunRecord) (db : Db) : Db :=
  {| execution_runs := m; trace_events := trace_events db; findings := findings db |}.
Definition set_events (m : gmap (string * Z) TraceEvent) (db : Db) : Db :=
  {| execution_runs := execution_runs db; trace_events := m; findings := findings db |}.
Definition set_findings (m : gmap string FindingRow) (db : Db) : Db :=
  {| execution_runs := execution_runs db; trace_events := trace_events db; findings := m |}.

Definition with_next (n : Z) (r : ExecutionRunRecord) : ExecutionRunRecord :=
  {| run_id := run_id r; run_job_id := run_job_id r; target_kind := target_kind r;
     objective := objective r; run_status := run_status r; next_sequence_number := n;
     run_created_at := run_created_at r; run_completed_at := run_completed_at r;
     run_error_code := run_error_code r |}.
Definition with_terminal (t : RunTerminalUpdate) (r : ExecutionRunRecord) : ExecutionRunRecord :=
  {| run_id := run_id r; run_job_id := run_job_id r; target_kind := target_kind r;
     objective := objective r; run_status := ended (terminal_status t);
     next_sequence_number := next_sequence_number r; run_created_at := run_created_at r;
     run_completed_at := Some (terminal_completedAt t); run_error_code := terminal_errorCode t |}.

Inductive TraceError :=
  | StorageBusy | ConstraintFailed | RunTerminalConflict
  | UnknownSession | RunOwnershipViolation | ArtifactUnacknowledged | TraceIntegrityViolation
  | OwnershipFailure (e : RunnerControl.CoreError).

(** ** Results *)
Inductive TraceIngestResult :=
  | accepted (nextSequenceNumber : Z)
  | duplicate (nextSequenceNumber : Z)
  | sequence_gap (expectedSequenceNumber : Z)
  | hash_mismatch (declared computed : string)
  | integrity_violation (existingPayloadHash : string)
  | artifact_unacknowledged (missingArtifactIds : list string).
Inductive FindingIngestResult :=
  | f_accepted | f_duplicate | f_integrity_violation (existingPayloadHash : string).

(** ** Sessions and batches *)
Record RunnerSessionRecord := { live_runnerId : string; live_protocolMajor : Z }.
Record ExecutionEventBatch := {
  batchId : string;
  batch_runId : string;
  firstSequenceNumber : Z;
  batch_events : list TraceEvent;
}.
Record ExecutionEventAck := {
  ack_batchId : string;
  ack_runId : string;
  nextExpectedSequenceNumber : Z;
}.

(** The server: the trace tables, the runner-control tables, the live sessions,
    and what SQLite answers to the next [BEGIN IMMEDIATE]s. *)
Record Server := {
  trace : Db;
  control : RunnerControl.Db;
  live : gmap string RunnerSessionRecord;
  contention : list bool;
}.
Definition set_trace (db : Db) (s : Server) : Server :=
  {| trace := db; control := control s; live := live s; contention := contention s |}.
Definition set_contention (l : list bool) (s : Server) : Server :=
  {| trace := trace s; control := control s; live := live s; contention := l |}.

(** ** The store *)
Definition M := js Server TraceError.

(** [withImmediateTransaction]: busy, or the body committed or rolled back. *)
Definition withImmediateTransaction {A} (body : js Db TraceError A) : M A := λ s,
  let '(busy, rest) := match contention s with [] => (false, []) | b :: l => (b, l) end in
  let s := set_contention rest s in
  if busy then (Throw StorageBusy, s)
  else let '(o, db) := transaction body (trace s) in (o, set_trace db s).

(** [select payload_hash from trace_events where <column> = <value>]. *)
Definition find_event (p : TraceEvent → bool) (db : Db) : option TraceEvent :=
  snd <$> head (filter (λ kv, Is_true (p kv.2)) (map_to_list (trace_events db))).

Definition appendTraceEvent_tx (event : TraceEvent) : js Db TraceError TraceIngestResult :=
  db ← get;
  let e := body event in
  let cursor := match execution_runs db !! event_run e with
                | Some run => next_sequence_number run | None => 1%Z end in
  match trace_events db !! (event_run e, sequenceNumber e) with
  | Some existing =>
      if String.eqb (payloadHash existing) (payloadHash event) then mret (duplicate cursor)
      else mret (integrity_violation (payloadHash existing))
  | None =>
      if negb (sequenceNumber e =? cursor)%Z then mret (sequence_gap cursor)
      else
        match find_event (λ x, String.eqb (idempotencyKey (body x)) (idempotencyKey e)) db with
        | Some conflict => mret (integrity_violation (payloadHash conflict))
        | None =>
            match find_event (λ x, String.eqb (messageId (body x)) (messageId e)) db with
            | Some conflict => mret (integrity_violation (payloadHash conflict))
            | None =>
                _ ← throw_if (bool_decide (execution_runs db !! event_run e = None)) ConstraintFailed;
                _ ← modify (λ db, set_events (<[(event_run e, sequenceNumber e) := event]> (trace_events db)) db);
                _ ← modify (λ db, set_runs (alter (with_next (cursor + 1)) (event_run e) (execution_runs db)) db);
                mret (accepted (cursor + 1))
            end
        end
  end.

Definition appendFinding_tx (now : string) (f : FindingEnvelope) (payloadHash : string)
    : js Db TraceError FindingIngestResult :=
  db ← get;
  match findings db !! findingId f with
  | Some existing =>
      if String.eqb (finding_hash existing) payloadHash then mret f_duplicate
      else mret (f_integrity_violation (finding_hash existing))
  | None =>
      _ ← throw_if (bool_decide (execution_runs db !! finding_runId f = None)) ConstraintFailed;
      _ ← modify (λ db, set_findings (<[findingId f :=
            {| stored_finding := f; finding_hash := payloadHash; finding_created_at := now |}]>
            (findings db)) db);
      mret f_accepted
  end.

Definition appendTraceEvent (event : TraceEvent) : M TraceIngestResult :=
  withImmediateTransaction (appendTraceEvent_tx event).
Definition appendFinding (now : string) (f : FindingEnvelope) (payloadHash : string)
    : M FindingIngestResult :=
  withImmediateTransaction (appendFinding_tx now f payloadHash).

Definition eventAt (runId : string) (n : Z) : M (option TraceEvent) :=
  gets (λ s, trace_events (trace s) !! (runId, n)).
Definition nextTraceSequenceNumber (runId : string) : M Z :=
  gets (λ s, match execution_runs (trace s) !! runId with
             | Some run => next_sequence_number run | None => 1%Z end).

(** ** The run store *)
Definition create_tx (record : ExecutionRunRecord) : js Db TraceError unit :=
  db ← get;
  _ ← throw_if (bool_decide (is_Some (execution_runs db !! run_id record))) ConstraintFailed;
  modify (λ db, set_runs (<[run_id record := record]> (execution_runs db)) db).

Inductive CompleteResult := run_completed_ | run_duplicate.

Definition complete_tx (id : string) (t : RunTerminalUpdate) : js Db TraceError CompleteResult :=
  db ← get;
  match execution_runs db !! id with
  | None => throw RunTerminalConflict
  | Some row =>
      match run_status row with
      | running =>
          _ ← modify (λ db, set_runs (alter (with_terminal t) id (execution_runs db)) db);
          mret run_completed_
      | ended status =>
          if String.eqb status (terminal_status t) &&
             bool_decide (run_completed_at row = Some (terminal_completedAt t)) &&
             bool_decide (run_error_code row = terminal_errorCode t)
          then mret run_duplicate else throw RunTerminalConflict
      end
  end.

Definition create (record : ExecutionRunRecord) : M unit := withImmediateTransaction (create_tx record).
Definition complete (id : string) (t : RunTerminalUpdate) : M CompleteResult :=
  withImmediateTransaction (complete_tx id t).
Definition get_run (id : string) : M (option ExecutionRunRecord) :=
  gets (λ s, execution_runs (trace s) !! id).

(** ** The ingestor *)
Section ingestor.
Context (parse_url : string → option Url) (number_text : number → string) (sha256 : string → string).
(** [ArtifactReferenceAuthority], when the ingestor has one. *)
Context (artifacts : option (string → list string → list string)).
Context (clock_now : string).
(** Whether the session service is given an ownership service. *)
Context (ownership : bool).

Definition canonicalTraceEventHash (e : TraceEventHashInput) : string :=
  RunnerControl.canonicalPayloadHash number_text sha256 (encode_event e).

(** [add]: the non-empty strings of a JSON array. *)
Definition addArray (value : option json) : list string :=
  match value with
  | Some (JArr l) => omap (λ v, match v with
                                | JStr s => if String.eqb s EmptyString then None else Some s
                                | _ => None end) l
  | _ => []
  end.

Definition field_of (key : string) (value : json) : option json :=
  match value with JObj fields => get_field key fields | _ => None end.

Definition artifactRefs (e : TraceEventHashInput) : list string :=
  let refs :=
    match payload e with
    | p_finding f => filter (λ s, negb (String.eqb s EmptyString)) (finding_evidenceRefs f)
    | p_stage observation j =>
        addArray (field_of "evidenceRefs" j) ++ addArray (field_of "artifactRefs" j) ++
        match field_of "nodes" j with
        | Some (JArr nodes) => nodes ≫= λ node, addArray (field_of "evidenceRefs" node)
        | _ => []
        end
    | p_stage _ _ => []
    end in
  (CanonicalJson.sort_fields ((λ s, (s, tt)) <$> remove_dups refs)).*1.

Definition ingest (submission : TraceEvent) : M TraceIngestResult :=
  let computed := canonicalTraceEventHash (body submission) in
  if negb (String.eqb (payloadHash submission) computed)
  then mret (hash_mismatch (payloadHash submission) computed)
  else
    let missing :=
      match artifacts with
      | Some acknowledgedArtifactIds =>
          let referenced := artifactRefs (body submission) in
          filter (λ id, id ∉ acknowledgedArtifactIds (event_run (body submission)) referenced) referenced
      | None => []
      end in
    if bool_decide (missing ≠ []) then mret (artifact_unacknowledged missing)
    else appendTraceEvent submission.

Definition ingestFinding (f : FindingEnvelope) : M FindingIngestResult :=
  appendFinding clock_now f
    (RunnerControl.canonicalPayloadHash number_text sha256 (RunnerControl.encode_finding f)).

(** ** Ingesting a batch for a session *)

(** The ownership service's answer, read from the runner-control tables. *)
Definition authorizeTraceUpload (runnerId batch_run : string) : M unit :=
  s ← get;
  match (LeaseSafety.solo parse_url number_text sha256 EmptyString
           (RunnerControl.authorizeTraceUpload runnerId batch_run)
           {| LeaseSafety.db_of := control s; LeaseSafety.clock := 0 |}).1 with
  | Ok _ => mret tt
  | Throw (RunnerControl.CoreApplicationError RunnerControl.RunOwnershipViolation) =>
      throw RunOwnershipViolation
  | Throw e => throw (OwnershipFailure e)
  end.

(** The [for] loop over the events; [inl] is an early return. *)
Fixpoint ingest_events (events : list TraceEvent) (next : Z) : M (Z + Z) :=
  match events with
  | [] => mret (inr next)
  | event :: rest =>
      result ← ingest event;
      match result with
      | accepted n =>
          _ ← (match payload (body event) with
               | p_finding f => _ ← ingestFinding f; mret tt
               | p_stage _ _ => mret tt
               end);
          ingest_events rest n
      | duplicate n => ingest_events rest n
      | sequence_gap n => mret (inl n)
      | artifact_unacknowledged _ => throw ArtifactUnacknowledged
      | hash_mismatch _ _ | integrity_violation _ => throw TraceIntegrityViolation
      end
  end.

Definition session_ingest (sessionId : string) (batch : ExecutionEventBatch) : M ExecutionEventAck :=
  s ← get;
  match live s !! sessionId with
  | None => throw UnknownSession
  | Some session =>
      _ ← (if ownership then authorizeTraceUpload (live_runnerId session) (batch_runId batch)
           else mret tt);
      next ← ingest_events (batch_events batch) (firstSequenceNumber batch);
      mret {| ack_batchId := batchId batch; ack_runId := batch_runId batch;
              nextExpectedSequenceNumber := match next with inl n | inr n => n end |}
  end.
End ingestor.

(** ** The invariant of the trace tables *)
Definition cursor (db : Db) (id : string) : Z :=
  match execution_runs db !! id with Some run => next_sequence_number run | None => 1 end.

Record Inv (db : Db) : Prop := {
  i_runs : map_Forall (λ id r, run_id r = id ∧ (1 <= next_sequence_number r)%Z) (execution_runs db);
  i_contiguous : ∀ id n, is_Some (trace_events db !! (id, n)) ↔ (1 <= n < cursor db id)%Z;
  i_events : map_Forall (λ k e, event_run (body e) = k.1 ∧ sequenceNumber (body e) = k.2)
    (trace_events db);
  i_unique : ∀ k k' e e', trace_events db !! k = Some e → trace_events db !! k' = Some e' →
    idempotencyKey (body e) = idempotencyKey (body e') ∨ messageId (body e) = messageId (body e') →
    k = k';
  i_findings : map_Forall (λ k r, findingId (stored_finding r) = k ∧
    is_Some (execution_runs db !! finding_runId (stored_finding r))) (findings db);
}.

(** What happens to the tables over time: nothing stored is lost or changed. *)
Record grows (db db' : Db) : Prop := {
  g_runs : ∀ id r, execution_runs db !! id = Some r → ∃ r', execution_runs db' !! id = Some r' ∧
    run_job_id r' = run_job_id r ∧ (next_sequence_number r <= next_sequence_number r')%Z ∧
    (run_status r ≠ running → run_status r' = run_status r ∧
       run_completed_at r' = run_completed_at r ∧ run_error_code r' = run_error_code r);
  g_events : trace_events db ⊆ trace_events db';
  g_findings : findings db ⊆ findings db';
}.

#[export] Instance grows_preorder : PreOrder grows.
Proof.
  split.
  - intros db. split; [|done|done]. intros id r H. exists r. by split_and!.
  - intros d1 d2 d3 [R1 E1 F1] [R2 E2 F2]. split; [|by etrans|by etrans].
    intros id r H. destruct (R1 _ _ H) as (r2 & H2 & J2 & N2 & T2).
    destruct (R2 _ _ H2) as (r3 & H3 & J3 & N3 & T3). exists r3.
    split_and!; [done|congruence|lia|]. intros Ht. destruct (T2 Ht) as (A & B & C).
    destruct T3 as (A' & B' & C'); [congruence|]. split_and!; congruence.
Qed.

Lemma find_event_none p db k e :
  find_event p db = None → trace_events db !! k = Some e → p e = false.
Proof.
  unfold find_event. intros H Hk. apply not_true_iff_false. intros Hp.
  destruct (filter _ (map_to_list (trace_events db))) as [|x l] eqn:Hf; [|done].
  enough ((k, e) ∈ filter (λ kv : string * Z * TraceEvent, Is_true (p kv.2)) (map_to_list (trace_events db)))
    as Hin by (rewrite Hf in Hin; by apply elem_of_nil in Hin).
  apply list_elem_of_filter. split; [cbn; by rewrite Hp|]. by apply elem_of_map_to_list.
Qed.

Lemma find_event_fresh p db :
  (∀ k e, trace_events db !! k = Some e → p e = false) → find_event p db = None.
Proof.
  unfold find_event. intros H.
  destruct (filter _ (map_to_list (trace_events db))) as [|[k x] l] eqn:Hf; [done|].
  assert ((k, x) ∈ filter (λ kv : string * Z * TraceEvent, Is_true (p kv.2)) (map_to_list (trace_events db)))
    as Hin by (rewrite Hf; apply elem_of_cons; by left).
  apply list_elem_of_filter in Hin as [Hp Hin]. apply elem_of_map_to_list in Hin.
  cbn in Hp. by rewrite (H _ _ Hin) in Hp.
Qed.

Lemma cursor_other db m id : cursor (set_events m db) id = cursor db id.
Proof. done. Qed.

Lemma inv_append db event r :
  Inv db → execution_runs db !! event_run (body event) = Some r →
  sequenceNumber (body event) = next_sequence_number r →
  (∀ k e, trace_events db !! k = Some e →
     idempotencyKey (body e) ≠ idempotencyKey (body event) ∧ messageId (body e) ≠ messageId (body event)) →
  let db' := set_runs (alter (with_next (next_sequence_number r + 1)) (event_run (body event))
      (execution_runs db))
    (set_events (<[(event_run (body event), sequenceNumber (body event)) := event]> (trace_events db)) db) in
  Inv db' ∧ grows db db' ∧ cursor db' (event_run (body event)) = (next_sequence_number r + 1)%Z.
Proof.
  intros [I1 I2 I3 I4 I5] Hr Hseq Hfresh db'. set (id := event_run (body event)) in *.
  assert (Hnone : trace_events db !! (id, sequenceNumber (body event)) = None).
  { apply eq_None_not_Some. rewrite I2. unfold cursor. rewrite Hr. lia. }
  assert (Hcur : ∀ id', cursor db' id' = if decide (id' = id) then (next_sequence_number r + 1)%Z
                                         else cursor db id').
  { intros id'. unfold cursor, db'. cbn. case_decide as Hd; [subst id'|].
    - by rewrite lookup_alter_eq, Hr.
    - by rewrite lookup_alter_ne. }
  split; [split|split; [split|]].
  - intros id' r'. cbn. destruct (decide (id' = id)) as [->|Hne].
    + rewrite lookup_alter_eq, Hr. intros [= <-]. destruct (I1 id r Hr). cbn. split; [done|lia].
    + rewrite lookup_alter_ne by done. apply I1.
  - intros id' n. rewrite Hcur. cbn. case_decide as Hd; [subst id'|].
    + destruct (decide (n = sequenceNumber (body event))) as [->|Hne].
      * rewrite lookup_insert_eq. destruct (I1 id r Hr). split; [lia|by eexists].
      * rewrite lookup_insert_ne by congruence. rewrite I2. unfold cursor. rewrite Hr. lia.
    + rewrite lookup_insert_ne by congruence. apply I2.
  - apply map_Forall_insert; done.
  - intros k k' e e' Hk Hk' Heq. cbn in Hk, Hk'. apply lookup_insert_Some in Hk, Hk'.
    destruct Hk as [[<- <-]|[_ Hk]], Hk' as [[<- <-]|[_ Hk']]; [done| | |by eapply I4].
    + destruct (Hfresh _ _ Hk'). naive_solver.
    + destruct (Hfresh _ _ Hk). naive_solver.
  - intros k f Hf. destruct (I5 k f Hf) as [? Hrun]. split; [done|]. cbn.
    by apply lookup_alter_is_Some.
  - intros id' r' Hr'. cbn. destruct (decide (id' = id)) as [->|Hne].
    + rewrite lookup_alter_eq. rewrite Hr' in *. injection Hr as ->. eexists. split; [done|].
      split_and!; [done|cbn; lia|done].
    + rewrite lookup_alter_ne by done. exists r'. by split_and!.
  - cbn. by apply insert_subseteq.
  - done.
  - rewrite Hcur. by rewrite decide_True.
Qed.

(** What an append answers, and leaves behind. *)
Definition append_post (event : TraceEvent) (db : Db) (r : TraceIngestResult) (db' : Db) : Prop :=
  let e := body event in
  Inv db' ∧ grows db db' ∧
  match r with
  | accepted n => n = (sequenceNumber e + 1)%Z ∧ cursor db' (event_run e) = n ∧
      trace_events db' = <[(event_run e, sequenceNumber e) := event]> (trace_events db)
  | duplicate n => db' = db ∧ n = cursor db (event_run e) ∧ ∃ x, payloadHash x = payloadHash event ∧
      trace_events db !! (event_run e, sequenceNumber e) = Some x
  | sequence_gap n => db' = db ∧ n = cursor db (event_run e) ∧ n ≠ sequenceNumber e ∧
      trace_events db !! (event_run e, sequenceNumber e) = None
  | _ => db' = db
  end.

Lemma wp_append event db :
  Inv db → wp (appendTraceEvent_tx event) (append_post event db) (λ _ db', db' = db) db.
Proof.
  intros HI. assert (Inv db ∧ grows db db) as Hhere by done.
  unfold appendTraceEvent_tx. apply wp_bind, wp_get. fold (cursor db (event_run (body event))).
  destruct (trace_events db !! _) as [x|] eqn:Hx.
  { destruct (String.eqb_spec (payloadHash x) (payloadHash event)); apply wp_ret; split_and!; try done.
    by exists x. }
  destruct (Z.eqb_spec (sequenceNumber (body event)) (cursor db (event_run (body event)))) as [Hseq|Hseq];
    cbn [negb].
  2:{ apply wp_ret. by split_and!. }
  destruct (find_event _ db) as [c|] eqn:Hidem; [by apply wp_ret|].
  destruct (find_event (λ x, String.eqb (messageId _) _) db) as [c|] eqn:Hmsg; [by apply wp_ret|].
  apply wp_bind, wp_throw_if; [done|]. intros Hrun.
  apply bool_decide_eq_false in Hrun. destruct (execution_runs db !! _) as [r|] eqn:Hr; [|done].
  apply wp_bind, wp_modify, wp_bind, wp_modify, wp_ret. cbn [execution_runs set_events].
  unfold cursor in *. rewrite Hr in *.
  destruct (inv_append db event r HI Hr Hseq) as (HI' & Hg & Hc).
  { intros k e Hk. split; apply String.eqb_neq;
      [by apply (find_event_none _ _ _ _ Hidem Hk)|by apply (find_event_none _ _ _ _ Hmsg Hk)]. }
  split; [done|]. split; [done|]. split_and!; [by rewrite Hseq|done|done].
Qed.

(** The answers to the next event of a known run, and to a stored one. *)
Lemma append_accepts event db :
  is_Some (execution_runs db !! event_run (body event)) → Inv db →
  sequenceNumber (body event) = cursor db (event_run (body event)) →
  (∀ k e, trace_events db !! k = Some e →
     idempotencyKey (body e) ≠ idempotencyKey (body event) ∧ messageId (body e) ≠ messageId (body event)) →
  (appendTraceEvent_tx event db).1 = Ok (accepted (cursor db (event_run (body event)) + 1)).
Proof.
  intros Hrun HI Hseq Hfresh. unfold appendTraceEvent_tx, mbind, js_bind, get.
  fold (cursor db (event_run (body event))).
  destruct (trace_events db !! _) as [x|] eqn:Hx.
  { pose proof (mk_is_Some _ _ Hx) as Hi. apply (i_contiguous _ HI) in Hi. lia. }
  rewrite Hseq, Z.eqb_refl. cbn [negb]. rewrite !find_event_fresh.
  - rewrite bool_decide_eq_false_2 by (by apply not_eq_None_Some). done.
  - intros k e Hk. apply String.eqb_neq. by apply (Hfresh k e).
  - intros k e Hk. apply String.eqb_neq. by apply (Hfresh k e).
Qed.

Lemma append_duplicates event db :
  trace_events db !! (event_run (body event), sequenceNumber (body event)) = Some event →
  (appendTraceEvent_tx event db).1 = Ok (duplicate (cursor db (event_run (body event)))).
Proof.
  intros Hx. unfold appendTraceEvent_tx, mbind, js_bind, get. rewrite Hx. by rewrite String.eqb_refl.
Qed.

Lemma wp_appendFinding now f h db :
  Inv db → wp (appendFinding_tx now f h)
    (λ _ db', Inv db' ∧ grows db db' ∧ trace_events db' = trace_events db ∧
       execution_runs db' = execution_runs db) (λ _ db', db' = db) db.
Proof.
  intros HI. unfold appendFinding_tx. apply wp_bind, wp_get.
  destruct (findings db !! findingId f) as [x|] eqn:Hx.
  { destruct (String.eqb _ _); by apply wp_ret. }
  apply wp_bind, wp_throw_if; [done|]. intros Hrun. apply bool_decide_eq_false in Hrun.
  apply wp_bind, wp_modify, wp_ret. destruct HI as [I1 I2 I3 I4 I5].
  split; [split; try done|split; [split|done]].
  - intros k r. cbn. rewrite lookup_insert_Some. intros [[<- <-]|[_ Hk]]; [|by apply I5].
    split; [done|]. by apply not_eq_None_Some.
  - intros id r Hr. exists r. by split_and!.
  - done.
  - cbn. by apply insert_subseteq.
Qed.

Lemma appendFinding_ok now f h db :
  is_Some (execution_runs db !! finding_runId f) → ∃ r, (appendFinding_tx now f h db).1 = Ok r.
Proof.
  intros Hrun. unfold appendFinding_tx, mbind, js_bind, get.
  destruct (findings db !! findingId f) as [x|]; [destruct (String.eqb _ _); by eexists|].
  rewrite bool_decide_eq_false_2 by (by apply not_eq_None_Some). by eexists.
Qed.

(** ** The server *)
Record srv_later (s s' : Server) : Prop := {
  sl_inv : Inv (trace s');
  sl_grows : grows (trace s) (trace s');
  sl_control : control s' = control s;
  sl_live : live s' = live s;
}.

Lemma srv_refl s : Inv (trace s) → srv_later s s.
Proof. by split. Qed.

Lemma srv_trans s1 s2 s3 : srv_later s1 s2 → srv_later s2 s3 → srv_later s1 s3.
Proof.
  intros [_ G1 C1 L1] [I2 G2 C2 L2]. split; [done|by etrans|congruence|congruence].
Qed.

Lemma wp_immediate {A} (m : js Db TraceError A) (Q : A → Db → Prop) s :
  Inv (trace s) →
  wp m (λ a db', Inv db' ∧ grows (trace s) db' ∧ Q a db') (λ _ db', db' = trace s) (trace s) →
  wp (withImmediateTransaction m) (λ a s', srv_later s s' ∧ Q a (trace s'))
    (λ _ s', srv_later s s' ∧ trace s' = trace s) s.
Proof.
  intros HI H. unfold wp, withImmediateTransaction, transaction in *.
  destruct (match contention s with [] => _ | _ => _ end) as [[] rest]; [by split|].
  cbn [trace set_contention]. destruct (m (trace s)) as [[a|e] db'].
  - destruct H as (? & ? & ?). by split.
  - by split.
Qed.

Section batches.
Context (parse_url : string → option Url) (number_text : number → string) (sha256 : string → string).
Context (artifacts : option (string → list string → list string)) (clock_now : string)
  (ownership : bool).

Notation ingest := (ingest number_text sha256 artifacts).
Notation ingestFinding := (ingestFinding number_text sha256 clock_now).
Notation ingest_events := (ingest_events number_text sha256 artifacts clock_now).
Notation session_ingest := (session_ingest parse_url number_text sha256 artifacts clock_now ownership).

Lemma wp_ingest event s :
  Inv (trace s) →
  wp (ingest event) (λ r s', srv_later s s' ∧
      match r with
      | hash_mismatch _ _ | artifact_unacknowledged _ => trace s' = trace s
      | r => append_post event (trace s) r (trace s')
      end)
    (λ _ s', srv_later s s' ∧ trace s' = trace s) s.
Proof.
  intros HI. unfold TraceIngest.ingest. destruct (negb _).
  { apply wp_ret. by split. }
  case_bool_decide; [by apply wp_ret|]. eapply wp_mono.
  - apply (wp_immediate _ (append_post event (trace s))); [done|].
    eapply wp_mono; [by apply wp_append| |done]. intros r db' Hp. pose proof Hp as (? & ? & _). done.
  - intros r s' [Hl Hp]. split; [done|]. destruct r; try done; by destruct Hp as (_ & _ & ->).
  - done.
Qed.

Lemma wp_ingestFinding f s :
  Inv (trace s) →
  wp (ingestFinding f) (λ _ s', srv_later s s' ∧ trace_events (trace s') = trace_events (trace s) ∧
      execution_runs (trace s') = execution_runs (trace s))
    (λ _ s', srv_later s s' ∧ trace s' = trace s) s.
Proof.
  intros HI. apply (wp_immediate _ (λ _ db', trace_events db' = trace_events (trace s) ∧
    execution_runs db' = execution_runs (trace s))); [done|].
  eapply wp_mono; [by apply wp_appendFinding|done|done].
Qed.

(** The finding of an event, whatever the ingestor answers about it. *)
Lemma wp_finding_of event s :
  Inv (trace s) →
  wp (match payload (body event) with
      | p_finding f => _ ← ingestFinding f; mret tt
      | p_stage _ _ => mret tt
      end) (λ _ s', srv_later s s' ∧ trace_events (trace s') = trace_events (trace s) ∧
      execution_runs (trace s') = execution_runs (trace s))
    (λ _ s', srv_later s s' ∧ trace s' = trace s) s.
Proof.
  intros HI. destruct (payload (body event)); [|by apply wp_ret]. apply wp_bind.
  eapply wp_mono; [by apply wp_ingestFinding|by intros; apply wp_ret|done].
Qed.

Definition seq_of (e : TraceEvent) : Z := sequenceNumber (body e).
Definition run_of (e : TraceEvent) : string := event_run (body e).
Definition out (v : Z + Z) : Z := match v with inl n | inr n => n end.

(** The event is stored, or one of the same hash is. *)
Definition stored (db : Db) (e : TraceEvent) : Prop :=
  ∃ x, trace_events db !! (run_of e, seq_of e) = Some x ∧ payloadHash x = payloadHash e.

Lemma stored_grows db db' e : stored db e → grows db db' → stored db' e.
Proof.
  intros (x & Hx & Hh) G. exists x. split; [|done]. by eapply lookup_weaken; [|apply G].
Qed.

(** Nothing but the given events is added. *)
Definition only (events : list TraceEvent) (db db' : Db) : Prop :=
  ∀ k e, trace_events db' !! k = Some e → trace_events db !! k = Some e ∨ e ∈ events.

Lemma only_trans l1 l2 l d1 d2 d3 :
  only l1 d1 d2 → only l2 d2 d3 → l1 ⊆ l → l2 ⊆ l → only l d1 d3.
Proof.
  intros H1 H2 S1 S2 k e H. destruct (H2 _ _ H) as [H'|H']; [|by right; apply S2].
  destruct (H1 _ _ H') as [?|?]; [by left|right; by apply S1].
Qed.

Lemma only_same l d d' : trace_events d' = trace_events d → only l d d'.
Proof. intros E k e H. left. by rewrite <- E. Qed.

Lemma only_append event db r db' : append_post event db r db' → only [event] db db'.
Proof.
  intros (_ & _ & Hr). destruct r; try (by destruct Hr as [-> _]; apply only_same);
    try (by subst; apply only_same).
  destruct Hr as (_ & _ & E). intros k e. rewrite E, lookup_insert_Some.
  intros [[_ <-]|[_ Hk]]; [right; by apply list_elem_of_singleton|by left].
Qed.

Lemma stored_append event db n db' : append_post event db (accepted n) db' → stored db' event.
Proof.
  intros (_ & _ & _ & _ & E). exists event. split; [|done]. rewrite E. apply lookup_insert_eq.
Qed.

(** Sequence numbers from 1 on, in order. *)
Definition ascending (events : list TraceEvent) : Prop :=
  StronglySorted Z.lt (seq_of <$> events) ∧ Forall (λ e, 1 <= seq_of e)%Z events.

Definition loop_post (id : string) (events : list TraceEvent) (s : Server) (v : Z + Z) (s' : Server) : Prop :=
  srv_later s s' ∧ only events (trace s) (trace s') ∧ out v = cursor (trace s') id ∧
  (ascending events → ∀ e, e ∈ events → (seq_of e < out v)%Z → stored (trace s') e).

Definition loop_threw (events : list TraceEvent) (s s' : Server) : Prop :=
  srv_later s s' ∧ only events (trace s) (trace s').

Lemma loop_post_cons id e events s s1 v s' :
  srv_later s s1 → only [e] (trace s) (trace s1) → stored (trace s1) e →
  loop_post id events s1 v s' → loop_post id (e :: events) s v s'.
Proof.
  intros H1 O1 St (H2 & O2 & Hv & Hst). split; [by eapply srv_trans|]. split.
  { eapply only_trans; [done|done|set_solver|set_solver]. }
  split; [done|]. intros [Hs Hp] x Hx Hlt. apply elem_of_cons in Hx as [->|Hx].
  - eapply stored_grows; [done|apply H2].
  - apply Hst; [|done|done]. cbn in Hs. apply StronglySorted_inv in Hs as [Hs _].
    split; [done|by inversion Hp].
Qed.

Lemma loop_threw_cons e events s s1 s' :
  srv_later s s1 → only [e] (trace s) (trace s1) → loop_threw events s1 s' →
  loop_threw (e :: events) s s'.
Proof.
  intros H1 O1 [H2 O2]. split; [by eapply srv_trans|].
  eapply only_trans; [done|done|set_solver|set_solver].
Qed.

Lemma loop_threw_here events s s' : srv_later s s' → trace s' = trace s → loop_threw events s s'.
Proof. intros H E. split; [done|]. apply only_same. by rewrite E. Qed.

Lemma gap_none_below id e events db n :
  Inv db → trace_events db !! (id, seq_of e) = None → n ≠ seq_of e → n = cursor db id →
  ascending (e :: events) → ∀ x, x ∈ e :: events → ¬ (seq_of x < n)%Z.
Proof.
  intros HI Hnone Hne -> [Hs Hp] x Hx Hlt. apply eq_None_not_Some in Hnone.
  rewrite (i_contiguous _ HI) in Hnone. inversion Hp as [|?? He _]; subst.
  cbn in Hs. apply StronglySorted_inv in Hs as [_ Hall]. apply elem_of_cons in Hx as [->|Hx]; [lia|].
  rewrite Forall_fmap, Forall_forall in Hall. specialize (Hall x Hx). cbn in Hall. lia.
Qed.

Lemma wp_ingest_events id events next s :
  Inv (trace s) → Forall (λ e, run_of e = id) events →
  (events = [] → next = cursor (trace s) id) →
  wp (ingest_events events next) (loop_post id events s) (λ _ s', loop_threw events s s') s.
Proof.
  revert next s. induction events as [|e events IH]; intros next s HI Hid Hnext; cbn [TraceIngest.ingest_events].
  { apply wp_ret. split; [by apply srv_refl|]. split; [by apply only_same|]. split; [by apply Hnext|].
    intros _ x Hx. by apply elem_of_nil in Hx. }
  apply Forall_cons in Hid as [He Hid].
  apply wp_bind. eapply wp_mono; [by apply wp_ingest| |intros ? s' []; by apply loop_threw_here].
  intros r s1 [H1 Hr]. pose proof (sl_inv _ _ H1) as HI1. destruct r as [n|n|n|d c|h|missing].
  - pose proof (only_append _ _ _ _ Hr) as O1. pose proof (stored_append _ _ _ _ Hr) as St.
    destruct Hr as (_ & _ & _ & Hcur & _). apply wp_bind.
    eapply wp_mono; [by apply wp_finding_of| |].
    + intros ? s2 (H2 & E2 & R2). assert (only [e] (trace s) (trace s2)) as O2.
      { intros k x. rewrite E2. apply O1. }
      eapply wp_mono; [apply (IH n s2); [apply H2|done|]| |].
      * intros _. rewrite <- Hcur. unfold cursor. by rewrite R2, <- He.
      * intros v s3. apply loop_post_cons; [by eapply srv_trans|done|].
        eapply stored_grows; [done|apply H2].
      * intros ? s3. apply loop_threw_cons; [by eapply srv_trans|done].
    + intros ? s2 [H2 E2]. eapply loop_threw_cons; [done|done|]. by apply loop_threw_here.
  - pose proof (only_append _ _ _ _ Hr) as O1.
    destruct Hr as (_ & _ & Ht & -> & x & Hh & Hx).
    assert (stored (trace s1) e) as St by (exists x; by rewrite Ht).
    eapply wp_mono; [apply (IH _ s1); [done|done|]| |].
    + intros _. by rewrite Ht, <- He.
    + intros v s2. by apply loop_post_cons.
    + intros ? s2. by apply loop_threw_cons.
  - destruct Hr as (_ & _ & Ht & Hn & Hne & Hnone). apply wp_ret. split; [done|].
    split; [by apply only_same; rewrite Ht|]. split; [by rewrite Ht, <- He|].
    intros Hasc y Hy Hlt. exfalso. revert Hlt.
    apply (gap_none_below id e events (trace s) n); [done| |done| |done|done]; by rewrite <- He.
  - apply wp_throw. by apply loop_threw_here.
  - apply wp_throw. apply loop_threw_here; [done|]. by destruct Hr as (_ & _ & ->).
  - apply wp_throw. by apply loop_threw_here.
Qed.

Lemma wp_authorize runner run s :
  Inv (trace s) →
  wp (authorizeTraceUpload parse_url number_text sha256 runner run) (λ _ s', s' = s) (λ _ s', s' = s) s.
Proof.
  intros HI. unfold authorizeTraceUpload. apply wp_bind, wp_get.
  destruct (LeaseSafety.solo _ _ _ _ _ _) as [[u|[[]|]] st]; by (apply wp_ret || apply wp_throw).
Qed.

Lemma wp_session_ingest sessionId batch s :
  Inv (trace s) → batch_events batch ≠ [] →
  Forall (λ e, run_of e = batch_runId batch) (batch_events batch) → ascending (batch_events batch) →
  wp (session_ingest sessionId batch)
    (λ ack s', srv_later s s' ∧ only (batch_events batch) (trace s) (trace s') ∧
       ack_batchId ack = batchId batch ∧ ack_runId ack = batch_runId batch ∧
       nextExpectedSequenceNumber ack = cursor (trace s') (batch_runId batch) ∧
       ∀ e, e ∈ batch_events batch → (seq_of e < nextExpectedSequenceNumber ack)%Z →
         stored (trace s') e)
    (λ _ s', srv_later s s' ∧ only (batch_events batch) (trace s) (trace s')) s.
Proof.
  intros HI Hne Hrun Hasc. unfold TraceIngest.session_ingest. apply wp_bind, wp_get.
  destruct (live s !! sessionId) as [session|]; [|by apply wp_throw, loop_threw_here; [apply srv_refl|]].
  apply wp_bind. apply (wp_mono _ (λ _ s', s' = s) _ (λ _ s', s' = s)).
  - destruct ownership; [by apply wp_authorize|by apply wp_ret].
  - intros ? ? ->. apply wp_bind. eapply wp_mono; [by apply wp_ingest_events| |done].
    intros v s' (H & Ho & Hv & Hst). apply wp_ret. split_and!; try done. by apply Hst.
  - intros ? ? ->. by apply loop_threw_here; [apply srv_refl|].
Qed.

(** An acknowledgement is durable.  When the server acknowledges a non-empty
    batch of one run's events in sequence order, it acknowledges exactly up to
    that run's cursor, and every event of the batch below the acknowledged
    number is stored, with its hash; whatever else happens, including an error
    half way, nothing already stored is lost or altered, only events of the
    batch are added, and each run's stored events remain exactly the numbers
    from 1 up to its cursor. *)
Theorem ack_is_durable sessionId batch s :
  Inv (trace s) → batch_events batch ≠ [] →
  Forall (λ e, run_of e = batch_runId batch) (batch_events batch) → ascending (batch_events batch) →
  wp (session_ingest sessionId batch)
    (λ ack s', srv_later s s' ∧ only (batch_events batch) (trace s) (trace s') ∧
       ack_batchId ack = batchId batch ∧ ack_runId ack = batch_runId batch ∧
       nextExpectedSequenceNumber ack = cursor (trace s') (batch_runId batch) ∧
       ∀ e, e ∈ batch_events batch → (seq_of e < nextExpectedSequenceNumber ack)%Z →
         stored (trace s') e)
    (λ _ s', srv_later s s' ∧ only (batch_events batch) (trace s) (trace s')) s.
Proof. apply wp_session_ingest. Qed.

(** ** Everything that happens to the tables *)
Lemma wp_create r db :
  Inv db → next_sequence_number r = 1%Z →
  wp (create_tx r) (λ _ db', Inv db' ∧ grows db db') (λ _ db', db' = db) db.
Proof.
  intros [I1 I2 I3 I4 I5] Hn. unfold create_tx. apply wp_bind, wp_get, wp_bind, wp_throw_if; [done|].
  intros Hno. apply bool_decide_eq_false, eq_None_not_Some in Hno. apply wp_modify.
  split; [split|split; [|done|done]]; try done.
  - apply map_Forall_insert; [done|]. split; [|done]. split; [done|lia].
  - intros id n. cbn. rewrite I2. unfold cursor. cbn. destruct (decide (run_id r = id)) as [<-|Hne].
    + by rewrite lookup_insert_eq, Hno, Hn.
    + by rewrite lookup_insert_ne.
  - intros k f Hf. destruct (I5 k f Hf) as [? Hr]. split; [done|]. cbn.
    apply lookup_insert_is_Some'. by right.
  - intros id r' Hr'. exists r'. split_and!; try done. cbn. by rewrite lookup_insert_ne by congruence.
Qed.

Lemma wp_complete id t db :
  Inv db → wp (complete_tx id t) (λ _ db', Inv db' ∧ grows db db') (λ _ db', db' = db) db.
Proof.
  intros HI. unfold complete_tx. apply wp_bind, wp_get.
  destruct (execution_runs db !! id) as [r|] eqn:Hr; [|by apply wp_throw].
  destruct (run_status r) eqn:Hst.
  2:{ destruct (_ && _ && _); [by apply wp_ret|by apply wp_throw]. }
  apply wp_bind, wp_modify, wp_ret. destruct HI as [I1 I2 I3 I4 I5].
  assert (∀ id', cursor (set_runs (alter (with_terminal t) id (execution_runs db)) db) id' = cursor db id')
    as Hcur.
  { intros id'. unfold cursor. cbn. destruct (decide (id = id')) as [<-|Hne].
    - by rewrite lookup_alter_eq, Hr.
    - by rewrite lookup_alter_ne. }
  split; [split|split; [|done|done]]; try done.
  - intros id' r'. cbn. destruct (decide (id = id')) as [<-|Hne].
    + rewrite lookup_alter_eq, Hr. intros [= <-]. apply (I1 _ _ Hr).
    + rewrite lookup_alter_ne by done. apply I1.
  - intros id' n. cbn. by rewrite Hcur.
  - intros k f Hf. destruct (I5 k f Hf) as [? Hx]. split; [done|]. cbn. by apply lookup_alter_is_Some.
  - intros id' r' Hr'. cbn. destruct (decide (id = id')) as [<-|Hne].
    + rewrite lookup_alter_eq, Hr. simplify_eq. eexists. split; [done|].
      split_and!; [done|cbn; lia|]. by rewrite Hst.
    + rewrite lookup_alter_ne by done. exists r'. by split_and!.
Qed.

(** One transaction on the tables, of whatever caller. *)
Inductive tx_step : Db → Db → Prop :=
  | tx_event e db : tx_step db (exec (transaction (appendTraceEvent_tx e)) db)
  | tx_finding now f h db : tx_step db (exec (transaction (appendFinding_tx now f h)) db)
  | tx_create r db : next_sequence_number r = 1%Z → tx_step db (exec (transaction (create_tx r)) db)
  | tx_complete id t db : tx_step db (exec (transaction (complete_tx id t)) db).

Definition empty_trace : Db := {| execution_runs := ∅; trace_events := ∅; findings := ∅ |}.

Lemma empty_trace_inv : Inv empty_trace.
Proof.
  split; [done| |done|done|done]. intros id n. unfold cursor. cbn. rewrite !lookup_empty.
  split; [by intros []|lia].
Qed.

Lemma exec_transaction {A} (m : js Db TraceError A) (P : Db → Prop) db :
  wp m (λ _, P) (λ _ _, True) db → P db → P (exec (transaction m) db).
Proof. unfold wp, exec, transaction. by destruct (m db) as [[a|e] db']. Qed.

Lemma tx_step_good db db' : tx_step db db' → Inv db → Inv db' ∧ grows db db'.
Proof.
  intros Hs HI. destruct Hs as [e db|now f h db|r db Hn|id t db];
    apply (exec_transaction _ (λ db', Inv db' ∧ grows db db')); try done;
    (eapply wp_mono; [|clear|done]).
  - by apply wp_append.
  - by intros a db' (? & ? & _).
  - by apply wp_appendFinding.
  - by intros a db' (? & ? & _).
  - by apply wp_create.
  - done.
  - by apply wp_complete.
  - done.
Qed.

(** The trace is an append-only, gap-free log.  From an empty database,
    through any sequence of transactions of any callers: the stored sequence
    numbers of a run are exactly 1 up to its cursor, each under its own run and
    number, no message id or idempotency key occurs twice, every finding belongs
    to a known run; and from any reachable state on, no event or finding is
    removed or changed, cursors never go back, and a run that has ended keeps
    its result. *)
Theorem trace_history db db' :
  rtc tx_step empty_trace db → rtc tx_step db db' → Inv db ∧ Inv db' ∧ grows db db'.
Proof.
  intros H1 H2. assert (Inv db) as HI.
  { apply (rtc_invariant tx_step Inv empty_trace); [apply empty_trace_inv| |done].
    intros a b Ha Hs. by apply (tx_step_good a b). }
  split; [done|]. clear H1. induction H2 as [x|x y z Hxy _ IH]; [done|].
  destruct (tx_step_good x y Hxy HI) as [HIy Hg]. destruct (IH HIy) as [? ?]. split; [done|by etrans].
Qed.
End batches.

(** ** Concrete servers *)
Definition demo_run (id : string) : ExecutionRunRecord :=
  {| run_id := id; run_job_id := "job"; target_kind := "web"; objective := "buy";
     run_status := running; next_sequence_number := 1; run_created_at := "2024";
     run_completed_at := None; run_error_code := None |}.
Definition demo_finding (run : string) : FindingEnvelope :=
  {| findingId := "finding"; finding_runId := run; title := "broken"; finding_summary := "broken";
     severity := high; finding_evidenceRefs := [] |}.
Definition demo_hash_input (run : string) : TraceEventHashInput :=
  {| messageId := run +:+ ":1"; idempotencyKey := run +:+ ":1"; event_run := run; sequenceNumber := 1;
     stepIndex := None; occurredAt := "2026"; payload := p_finding (demo_finding run) |}.
Definition demo_event (run : string) : TraceEvent :=
  {| body := demo_hash_input run;
     payloadHash := canonicalTraceEventHash LeaseSafety.demo_text LeaseSafety.demo_hash
                      (demo_hash_input run) |}.
Definition demo_batch (id : string) (events : list TraceEvent) : ExecutionEventBatch :=
  {| batchId := "batch"; batch_runId := id; firstSequenceNumber := 1; batch_events := events |}.

Definition other_lease : RunnerControl.LeaseRow :=
  {| RunnerControl.job_id := "other-job"; RunnerControl.runner_id := "other-runner";
     RunnerControl.session_id := "other-session"; RunnerControl.lease_epoch := 1;
     RunnerControl.job_json := RunnerProtocol.encode_job
       (RunnerControl.recoveryJob LeaseSafety.small_job "other-job" "victim");
     RunnerControl.lease_token_hash := "other-token"; RunnerControl.expires_at := "2027";
     RunnerControl.lost_at := None; RunnerControl.completed_at := None;
     RunnerControl.recovery_of_run_id := None |}.

(** Two runs; "run" is leased to the runner of the session, "victim" to another. *)
Definition demo_server (contention_ : list bool) : Server :=
  {| trace := {| execution_runs := <["run" := demo_run "run"]> {["victim" := demo_run "victim"]};
                 trace_events := ∅; findings := ∅ |};
     control := RunnerControl.set_leases
       (<["victim" := other_lease]> (RunnerControl.execution_leases (LeaseSafety.small_db id)))
       (LeaseSafety.small_db id);
     live := {["session" := {| live_runnerId := "runner"; live_protocolMajor := 1 |}]};
     contention := contention_ |}.

Notation demo_ingest := (session_ingest RunnerProtocol.demo_url LeaseSafety.demo_text
  LeaseSafety.demo_hash None "2026" true).

(** Trace upload is authorized for the wrong run.  The session service checks
    that the runner owns the run the batch names, and then appends every event
    under the run the event itself names: a runner that is refused the trace of
    another runner's run writes to it through a batch for a run of its own. *)
Theorem foreign_trace_accepted :
  let s := demo_server [] in
  let event := demo_event "victim" in
  result (demo_ingest "session" (demo_batch "victim" [event])) s = Throw RunOwnershipViolation ∧
  result (demo_ingest "session" (demo_batch "run" [event])) s =
    Ok {| ack_batchId := "batch"; ack_runId := "run"; nextExpectedSequenceNumber := 2 |} ∧
  trace_events (trace (exec (demo_ingest "session" (demo_batch "run" [event])) s)) !! ("victim", 1%Z)
    = Some event.
Proof. split_and!; vm_compute; reflexivity. Qed.

(** A finding can be lost for good.  An event and the finding it carries are
    stored in two transactions.  When SQLite is busy for the second, the upload
    fails with the event already stored; the runner's retry of the same batch is
    acknowledged as a duplicate, so the runner deletes it from its spool, and
    the finding is never stored. *)
Theorem finding_lost_on_retry :
  let s := demo_server [false; true] in
  let upload := demo_ingest "session" (demo_batch "run" [demo_event "run"]) in
  result upload s = Throw StorageBusy ∧
  result upload (exec upload s) =
    Ok {| ack_batchId := "batch"; ack_runId := "run"; nextExpectedSequenceNumber := 2 |} ∧
  findings (trace (exec upload (exec upload s))) = ∅ ∧
  is_Some (findings (trace (exec upload (demo_server []))) !! "finding").
Proof.
  split_and!; [vm_compute; reflexivity..|]. vm_compute. eexists. reflexivity.
Qed.

(** ** Witnesses *)
Lemma demo_runs_inv l : Inv (trace (demo_server l)).
Proof.
  assert (∀ id r, execution_runs (trace (demo_server l)) !! id = Some r → r = demo_run id) as H.
  { intros id r. cbn. rewrite lookup_insert_Some, lookup_singleton_Some. naive_solver. }
  split; try done.
  - intros id r Hr. by rewrite (H id r Hr).
  - intros id n. unfold cursor. cbn [trace_events trace demo_server]. rewrite lookup_empty.
    destruct (execution_runs (trace (demo_server l)) !! id) as [r|] eqn:Hr; cbn in Hr |- *; rewrite Hr.
    + rewrite (H id r Hr). split; [by intros []|cbn; lia].
    + split; [by intros []|lia].
Qed.

Lemma ack_is_durable_witness :
  wp (demo_ingest "session" (demo_batch "run" [demo_event "run"]))
    (λ ack s', nextExpectedSequenceNumber ack = cursor (trace s') "run")
    (λ _ _, True) (demo_server []).
Proof.
  eapply wp_mono.
  - apply (ack_is_durable RunnerProtocol.demo_url LeaseSafety.demo_text LeaseSafety.demo_hash None "2026" true
      "session" (demo_batch "run" [demo_event "run"]) (demo_server [])).
    + exact (demo_runs_inv []).
    + discriminate.
    + constructor; [reflexivity|constructor].
    + split; [repeat constructor|constructor; [discriminate|constructor]].
  - intros ack s' (_ & _ & _ & _ & H & _). exact H.
  - intros e s' H. exact I.
Defined.

Lemma trace_history_witness :
  Inv (exec (transaction (create_tx (demo_run "run"))) empty_trace).
Proof.
  apply (trace_history (exec (transaction (create_tx (demo_run "run"))) empty_trace)
    (exec (transaction (create_tx (demo_run "run"))) empty_trace)).
  - apply rtc_once, tx_create. reflexivity.
  - apply rtc_refl.
Defined.

End TraceIngest.
