(* ===== verification/RunnerSpool.v ===== *)
(** * The runner's durable spool

    Models [packages/runner-components/runner-spool/src/sqlite-runner-spool.ts]
    over the tables of [migrations.ts], and the sealing of secrets of
    [spool-crypto.ts].  The connection is synchronous, so every method is one
    step.  AES-256-GCM, SHA-256, the measured size of an event and the clock are
    parameters; a stored JSON text is kept as the value it parses to. *)
From S2P Require Import Prelude.
From S2P Require Import Number.
From S2P Require Import Json.
From S2P Require Import IsoTime.
From S2P Require Import CanonicalJson.
From S2P Require Import RunnerProtocol.
From S2P Require Import ExecutionRuntime.
From S2P Require Import RunnerControl.
From S2P Require Import LeaseSafety.
From S2P Require Import TraceIngest.
From stdpp Require Import sorting.

Module RunnerSpool.
Import TraceIngest.

(** ** Data *)
Inductive RunnerSpoolErrorCode :=
  | SpoolOpenFailed | SpoolCapacityExceeded | SpoolIntegrityViolation
  | SpoolLeaseIntegrityViolation | SpoolResumeIntegrityViolation
  | SpoolKeyUnavailable | SpoolConstraint.

Record SpoolBatchLimit := { maximumEvents : Z; maximumBytes : Z }.
Record SpoolLeaseRecord := {
  sl_jobId : string;
  sl_runId : string;
  sl_leaseEpoch : Z;
  sl_expiresAt : string;
  sl_leaseToken : string;
}.
Record SpoolResumeTokenRecord := { sr_sessionId : string; sr_resumeToken : string }.
Record SpoolUsage := { usage_bytes : Z; usage_events : Z }.
Record SpoolCapacityState := { cap_usage : SpoolUsage; cap_soft : bool; cap_hard : bool }.

Record ArtifactByteRange := { range_offset : Z; range_length : Z }.
Record ArtifactUploadManifest := {
  m_artifactId : string;
  m_tenantId : string;
  m_projectId : string;
  m_runId : string;
  m_sizeBytes : Z;
  m_sha256 : string;
  m_mediaType : string;
  m_sensitivity : string;
  m_chunkSizeBytes : Z;
  m_totalChunks : Z;
}.
Record ArtifactUploadChunk := {
  ch_artifactId : string;
  ch_tenantId : string;
  ch_projectId : string;
  ch_runId : string;
  ch_offset : Z;
  ch_bytes : string;
  ch_sha256 : string;
}.
Record ArtifactUploadAck := {
  up_artifactId : string;
  up_runId : string;
  up_missingRanges : list ArtifactByteRange;
  up_acknowledged : bool;
}.

#[export] Instance manifest_eq_dec : EqDecision ArtifactUploadManifest.
Proof. solve_decision. Defined.

(** ** Tables *)
Record EventRow := { row_event : TraceEvent; row_size : Z; row_created : string }.
Record ManifestRow := { row_manifest : ArtifactUploadManifest; manifest_created : string }.
Record ChunkRow := { row_chunk : ArtifactUploadChunk; chunk_size : Z; chunk_created : string }.
Record Sealed := { sealed_nonce : string; sealed_text : string; sealed_tag : string }.
Record LeaseRow := {
  lr_run_id : string;
  lr_lease_epoch : Z;
  lr_expires_at : string;
  lr_schema_version : string;
  lr_sealed : Sealed;
  lr_updated_at : string;
}.
Record ResumeRow := { rr_session_id : string; rr_schema_version : string; rr_sealed : Sealed }.

Record Spool := {
  spool_events : gmap (string * Z) EventRow;
  spool_cursors : gmap string Z;
  spool_manifests : gmap string ManifestRow;
  spool_chunks : gmap (string * Z) ChunkRow;
  spool_progress : gmap string ArtifactUploadAck;
  spool_leases : gmap string LeaseRow;
  spool_resume : option ResumeRow;
  closed : bool;
}.

Definition set_events (m : gmap (string * Z) EventRow) (s : Spool) : Spool :=
  {| spool_events := m; spool_cursors := spool_cursors s; spool_manifests := spool_manifests s;
     spool_chunks := spool_chunks s; spool_progress := spool_progress s;
     spool_leases := spool_leases s; spool_resume := spool_resume s; closed := closed s |}.
Definition set_cursors (m : gmap string Z) (s : Spool) : Spool :=
  {| spool_events := spool_events s; spool_cursors := m; spool_manifests := spool_manifests s;
     spool_chunks := spool_chunks s; spool_progress := spool_progress s;
     spool_leases := spool_leases s; spool_resume := spool_resume s; closed := closed s |}.
Definition set_artifacts (m : gmap string ManifestRow) (c : gmap (string * Z) ChunkRow)
    (p : gmap string ArtifactUploadAck) (s : Spool) : Spool :=
  {| spool_events := spool_events s; spool_cursors := spool_cursors s; spool_manifests := m;
     spool_chunks := c; spool_progress := p; spool_leases := spool_leases s;
     spool_resume := spool_resume s; closed := closed s |}.
Definition set_secrets (l : gmap string LeaseRow) (r : option ResumeRow) (s : Spool) : Spool :=
  {| spool_events := spool_events s; spool_cursors := spool_cursors s;
     spool_manifests := spool_manifests s; spool_chunks := spool_chunks s;
     spool_progress := spool_progress s; spool_leases := l; spool_resume := r; closed := closed s |}.
Definition set_closed (b : bool) (s : Spool) : Spool :=
  {| spool_events := spool_events s; spool_cursors := spool_cursors s;
     spool_manifests := spool_manifests s; spool_chunks := spool_chunks s;
     spool_progress := spool_progress s; spool_leases := spool_leases s;
     spool_resume := spool_resume s; closed := b |}.

Definition M := js Spool RunnerSpoolErrorCode.

Definition assertOpen : M unit := s ← get; throw_if (closed s) SpoolOpenFailed.

(** [currentBytes]. *)
Definition currentBytes (s : Spool) : Z :=
  (msum row_size (spool_events s) + msum chunk_size (spool_chunks s))%Z.

(** Ascending sequence numbers. *)
Definition row_le (a b : EventRow) : Prop :=
  (sequenceNumber (body (row_event a)) <= sequenceNumber (body (row_event b)))%Z.
#[export] Instance row_le_dec : RelDecision row_le.
Proof. intros a b. unfold row_le. apply _. Defined.

(** [select .. where run_id = ? and sequence_number >= ? order by sequence_number]. *)
Definition rows_from (runId : string) (from : Z) (s : Spool) : list EventRow :=
  merge_sort row_le (snd <$> filter (λ kv : string * Z * EventRow, kv.1.1 = runId ∧ (from <= kv.1.2)%Z)
                       (map_to_list (spool_events s))).

(** The loop of [pending]. *)
Fixpoint take_batch (limit : SpoolBatchLimit) (count accumulated : Z) (rows : list EventRow)
    : list TraceEvent :=
  match rows with
  | [] => []
  | row :: rest =>
      if (maximumEvents limit <=? count)%Z then []
      else if (0 <? count)%Z && (maximumBytes limit <? accumulated + row_size row)%Z then []
      else row_event row :: take_batch limit (count + 1) (accumulated + row_size row) rest
  end.

Definition in_range (offset : Z) (r : ArtifactByteRange) : bool :=
  (range_offset r <=? offset)%Z && (offset <? range_offset r + range_length r)%Z.

Section spool.
Context (measureEventBytes : TraceEvent → Z) (sha256Hex : string → string) (now : string).
Context (softLimitBytes hardLimitBytes : Z).

Definition append (event : TraceEvent) : M unit :=
  _ ← assertOpen;
  let size := measureEventBytes event in
  let key := (event_run (body event), sequenceNumber (body event)) in
  s ← get;
  match spool_events s !! key with
  | Some existing =>
      if String.eqb (payloadHash (row_event existing)) (payloadHash event) then mret tt
      else throw SpoolIntegrityViolation
  | None =>
      _ ← throw_if (hardLimitBytes <? currentBytes s + size)%Z SpoolCapacityExceeded;
      modify (λ s, set_events (<[key := {| row_event := event; row_size := size; row_created := now |}]>
        (spool_events s)) s)
  end.

Definition pending (runId : string) (fromSequence : Z) (limit : SpoolBatchLimit) : M (list TraceEvent) :=
  _ ← assertOpen;
  gets (λ s, take_batch limit 0 0 (rows_from runId fromSequence s)).

Definition acknowledge (runId : string) (nextExpectedSequenceNumber : Z) : M unit :=
  _ ← assertOpen;
  _ ← modify (λ s, set_cursors (<[runId := Z.max (default 1%Z (spool_cursors s !! runId))
        nextExpectedSequenceNumber]> (spool_cursors s)) s);
  modify (λ s, set_events (filter (λ kv : string * Z * EventRow,
    ¬ (kv.1.1 = runId ∧ (kv.1.2 < nextExpectedSequenceNumber)%Z)) (spool_events s)) s).

Definition saveArtifactManifest (manifest : ArtifactUploadManifest) : M unit :=
  _ ← assertOpen;
  s ← get;
  match spool_manifests s !! m_artifactId manifest with
  | Some existing =>
      if bool_decide (row_manifest existing = manifest) then mret tt else throw SpoolIntegrityViolation
  | None =>
      modify (λ s, set_artifacts (<[m_artifactId manifest :=
        {| row_manifest := manifest; manifest_created := now |}]> (spool_manifests s))
        (spool_chunks s) (spool_progress s) s)
  end.

Definition saveArtifactChunk (chunk : ArtifactUploadChunk) : M unit :=
  _ ← assertOpen;
  _ ← throw_if (negb (String.eqb (sha256Hex (ch_bytes chunk)) (ch_sha256 chunk))) SpoolIntegrityViolation;
  let key := (ch_artifactId chunk, ch_offset chunk) in
  let size := Z.of_nat (String.length (ch_bytes chunk)) in
  s ← get;
  match spool_chunks s !! key with
  | Some existing =>
      if String.eqb (ch_sha256 (row_chunk existing)) (ch_sha256 chunk) &&
         String.eqb (ch_bytes (row_chunk existing)) (ch_bytes chunk)
      then mret tt else throw SpoolIntegrityViolation
  | None =>
      _ ← throw_if (hardLimitBytes <? currentBytes s + size)%Z SpoolCapacityExceeded;
      _ ← throw_if (bool_decide (spool_manifests s !! ch_artifactId chunk = None)) SpoolConstraint;
      modify (λ s, set_artifacts (spool_manifests s)
        (<[key := {| row_chunk := chunk; chunk_size := size; chunk_created := now |}]> (spool_chunks s))
        (spool_progress s) s)
  end.

(** [order by created_at, artifact_id]. *)
Definition manifest_le (a b : ManifestRow) : Prop :=
  text_ltb (manifest_created a) (manifest_created b) ||
  (String.eqb (manifest_created a) (manifest_created b) &&
   text_leb (m_artifactId (row_manifest a)) (m_artifactId (row_manifest b))) = true.
#[local] Instance manifest_le_dec : RelDecision manifest_le.
Proof. intros a b. unfold manifest_le. apply _. Defined.

Definition pendingArtifactManifests (runId : string) : M (list ArtifactUploadManifest) :=
  _ ← assertOpen;
  gets (λ s, row_manifest <$> merge_sort manifest_le
    (snd <$> filter (λ kv : string * ManifestRow, m_runId (row_manifest kv.2) = runId)
       (map_to_list (spool_manifests s)))).

Definition chunk_le (a b : ChunkRow) : Prop := (ch_offset (row_chunk a) <= ch_offset (row_chunk b))%Z.
#[local] Instance chunk_le_dec : RelDecision chunk_le.
Proof. intros a b. unfold chunk_le. apply _. Defined.

Definition chunk_rows (runId artifactId : string) (s : Spool) : list ChunkRow :=
  merge_sort chunk_le (snd <$> filter (λ kv : string * Z * ChunkRow,
    ch_runId (row_chunk kv.2) = runId ∧ kv.1.1 = artifactId) (map_to_list (spool_chunks s))).

Definition pendingArtifactChunks (runId artifactId : string) (missingRanges : list ArtifactByteRange)
    : M (list ArtifactUploadChunk) :=
  _ ← assertOpen;
  if bool_decide (length missingRanges = 0) then mret []
  else gets (λ s, row_chunk <$> filter (λ row, Is_true (existsb (in_range (ch_offset (row_chunk row)))
                    missingRanges)) (chunk_rows runId artifactId s)).

Definition artifactUploadProgress (runId artifactId : string) : M (option ArtifactUploadAck) :=
  _ ← assertOpen;
  s ← get;
  match spool_progress s !! artifactId with
  | Some progress => if String.eqb (up_runId progress) runId then mret (Some progress) else mret None
  | None => mret None
  end.

(** Rows of an artifact of a run, whose deletion the foreign keys cascade. *)
Definition drop_artifact (runId artifactId : string) (s : Spool) : Spool :=
  let chunks := filter (λ kv : string * Z * ChunkRow,
    ¬ (kv.1.1 = artifactId ∧ ch_runId (row_chunk kv.2) = runId)) (spool_chunks s) in
  let progress := match spool_progress s !! artifactId with
                  | Some p => if String.eqb (up_runId p) runId then delete artifactId (spool_progress s)
                              else spool_progress s
                  | None => spool_progress s end in
  match spool_manifests s !! artifactId with
  | Some m =>
      if String.eqb (m_runId (row_manifest m)) runId then
        set_artifacts (delete artifactId (spool_manifests s))
          (filter (λ kv : string * Z * ChunkRow, kv.1.1 ≠ artifactId) chunks) (delete artifactId progress) s
      else set_artifacts (spool_manifests s) chunks progress s
  | None => set_artifacts (spool_manifests s) chunks progress s
  end.

Definition acknowledgeArtifactProgress (progress : ArtifactUploadAck) : M unit :=
  _ ← assertOpen;
  if up_acknowledged progress then modify (drop_artifact (up_runId progress) (up_artifactId progress))
  else
    s ← get;
    _ ← throw_if (bool_decide (spool_manifests s !! up_artifactId progress = None)) SpoolConstraint;
    modify (λ s, set_artifacts (spool_manifests s)
      (filter (λ kv : string * Z * ChunkRow,
         ¬ (kv.1.1 = up_artifactId progress ∧ ch_runId (row_chunk kv.2) = up_runId progress ∧
            existsb (in_range kv.1.2) (up_missingRanges progress) = false)) (spool_chunks s))
      (<[up_artifactId progress := progress]> (spool_progress s)) s).

Definition text_le (a b : string) : Prop := text_leb a b = true.
#[local] Instance text_le_dec : RelDecision text_le.
Proof. intros a b. unfold text_le. apply _. Defined.

(** [select run_id .. union select run_id .. order by run_id]. *)
Definition pendingRunIds : M (list string) :=
  _ ← assertOpen;
  gets (λ s, merge_sort text_le (remove_dups
    ((map_to_list (spool_events s)).*1.*1 ++
     ((λ kv : string * ManifestRow, m_runId (row_manifest kv.2)) <$> map_to_list (spool_manifests s))))).

Definition usage : M SpoolUsage :=
  _ ← assertOpen;
  gets (λ s, {| usage_bytes := currentBytes s; usage_events := Z.of_nat (size (spool_events s)) |}).

Definition capacityState : M SpoolCapacityState :=
  u ← usage;
  mret {| cap_usage := u; cap_soft := (softLimitBytes <=? usage_bytes u)%Z;
          cap_hard := (hardLimitBytes <=? usage_bytes u)%Z |}.

Definition close : M unit :=
  s ← get; if closed s then mret tt else modify (set_closed true).
End spool.

(** ** Secrets *)
Definition SPOOL_LEASE_SCHEMA_VERSION : string := "spool-lease/v1".
Definition SPOOL_RESUME_SCHEMA_VERSION : string := "spool-resume/v1".
Definition GCM_NONCE_BYTES : nat := 12.
Definition GCM_TAG_BYTES : nat := 16.

Section secrets.
(** The spool key if there is one, and AES-256-GCM: [seal key nonce data text] is
    the ciphertext and its tag, [unseal] the text if the tag authenticates. *)
Context (key : option string).
Context (seal : string → string → string → string → string * string).
Context (unseal : string → string → string → string → string → option string).
Context (number_text : number → string) (now : string).

Definition requireCrypto : M string :=
  match key with Some k => mret k | None => throw SpoolKeyUnavailable end.

(** The keys of the object are in their canonical order. *)
Definition leaseAssociatedData (schemaVersion jobId runId : string) (leaseEpoch : Z) (expiresAt : string)
    : string :=
  CanonicalJson.canonicalize number_text
    (JObj [("expiresAt", JStr expiresAt); ("jobId", JStr jobId);
           ("leaseEpoch", JNum (num_of_Z leaseEpoch)); ("runId", JStr runId);
           ("schemaVersion", JStr schemaVersion)]).
Definition resumeAssociatedData (schemaVersion sessionId : string) : string :=
  CanonicalJson.canonicalize number_text
    (JObj [("schemaVersion", JStr schemaVersion); ("sessionId", JStr sessionId)]).

Definition encryptSecret (k nonce secret associatedData : string) : Sealed :=
  let '(text, tag) := seal k nonce associatedData secret in
  {| sealed_nonce := nonce; sealed_text := text; sealed_tag := tag |}.

Definition decryptSecret (k : string) (s : Sealed) (associatedData : string)
    (integrityCode : RunnerSpoolErrorCode) : M string :=
  if negb (Nat.eqb (String.length (sealed_nonce s)) GCM_NONCE_BYTES) ||
     negb (Nat.eqb (String.length (sealed_tag s)) GCM_TAG_BYTES)
  then throw integrityCode
  else match unseal k (sealed_nonce s) associatedData (sealed_text s) (sealed_tag s) with
       | Some secret => mret secret
       | None => throw integrityCode
       end.

(** [nonce] are the random bytes drawn. *)
Definition saveLease (nonce : string) (r : SpoolLeaseRecord) : M unit :=
  _ ← assertOpen;
  k ← requireCrypto;
  let sealed := encryptSecret k nonce (sl_leaseToken r)
    (leaseAssociatedData SPOOL_LEASE_SCHEMA_VERSION (sl_jobId r) (sl_runId r) (sl_leaseEpoch r)
       (sl_expiresAt r)) in
  modify (λ s, set_secrets (<[sl_jobId r :=
    {| lr_run_id := sl_runId r; lr_lease_epoch := sl_leaseEpoch r; lr_expires_at := sl_expiresAt r;
       lr_schema_version := SPOOL_LEASE_SCHEMA_VERSION; lr_sealed := sealed; lr_updated_at := now |}]>
    (spool_leases s)) (spool_resume s) s).

Definition decryptLeaseRow (jobId : string) (row : LeaseRow) : M SpoolLeaseRecord :=
  k ← requireCrypto;
  token ← decryptSecret k (lr_sealed row)
    (leaseAssociatedData (lr_schema_version row) jobId (lr_run_id row) (lr_lease_epoch row)
       (lr_expires_at row)) SpoolLeaseIntegrityViolation;
  mret {| sl_jobId := jobId; sl_runId := lr_run_id row; sl_leaseEpoch := lr_lease_epoch row;
          sl_expiresAt := lr_expires_at row; sl_leaseToken := token |}.

Definition loadLease (jobId : string) : M (option SpoolLeaseRecord) :=
  _ ← assertOpen;
  _ ← requireCrypto;
  s ← get;
  match spool_leases s !! jobId with
  | None => mret None
  | Some row => r ← decryptLeaseRow jobId row; mret (Some r)
  end.

(** [order by updated_at desc limit 1]; SQLite may break ties either way. *)
Definition newest (a b : string * LeaseRow) : Prop :=
  text_leb (lr_updated_at b.2) (lr_updated_at a.2) = true.
#[local] Instance newest_dec : RelDecision newest.
Proof. intros a b. unfold newest. apply _. Defined.

Definition loadLeaseForRun (runId : string) : M (option SpoolLeaseRecord) :=
  _ ← assertOpen;
  s ← get;
  match merge_sort newest (filter (λ kv : string * LeaseRow, lr_run_id kv.2 = runId)
                             (map_to_list (spool_leases s))) with
  | [] => mret None
  | (jobId, row) :: _ => r ← decryptLeaseRow jobId row; mret (Some r)
  end.

Definition saveResumeToken (nonce : string) (r : SpoolResumeTokenRecord) : M unit :=
  _ ← assertOpen;
  k ← requireCrypto;
  let sealed := encryptSecret k nonce (sr_resumeToken r)
    (resumeAssociatedData SPOOL_RESUME_SCHEMA_VERSION (sr_sessionId r)) in
  modify (λ s, set_secrets (spool_leases s)
    (Some {| rr_session_id := sr_sessionId r; rr_schema_version := SPOOL_RESUME_SCHEMA_VERSION;
             rr_sealed := sealed |}) s).

Definition loadResumeToken : M (option SpoolResumeTokenRecord) :=
  _ ← assertOpen;
  s ← get;
  match spool_resume s with
  | None => mret None
  | Some row =>
      k ← requireCrypto;
      token ← decryptSecret k (rr_sealed row)
        (resumeAssociatedData (rr_schema_version row) (rr_session_id row)) SpoolResumeIntegrityViolation;
      mret (Some {| sr_sessionId := rr_session_id row; sr_resumeToken := token |})
  end.

(** [open] on an existing file: without the key the secrets are dropped. *)
Definition reopen (s : Spool) : Spool :=
  let s := set_closed false s in
  match key with Some _ => s | None => set_secrets ∅ None s end.
End secrets.

(** ** The invariant of the spool *)
Record SpoolInv (hardLimitBytes : Z) (s : Spool) : Prop := {
  si_events : map_Forall (λ k r, event_run (body (row_event r)) = k.1 ∧
    sequenceNumber (body (row_event r)) = k.2 ∧ (0 <= row_size r)%Z) (spool_events s);
  si_chunks : map_Forall (λ k r, k = (ch_artifactId (row_chunk r), ch_offset (row_chunk r)) ∧
    (0 <= chunk_size r)%Z) (spool_chunks s);
  si_manifests : map_Forall (λ k r, m_artifactId (row_manifest r) = k) (spool_manifests s);
  si_chunk_fk : ∀ k r, spool_chunks s !! k = Some r → is_Some (spool_manifests s !! k.1);
  si_progress_fk : ∀ k r, spool_progress s !! k = Some r → is_Some (spool_manifests s !! k);
  si_capacity : (currentBytes s <= hardLimitBytes)%Z;
}.

(** ** Rows in order *)
#[export] Instance row_le_total : Total row_le.
Proof. intros a b. unfold row_le. lia. Qed.
#[export] Instance row_le_trans : Transitive row_le.
Proof. intros a b c. unfold row_le. lia. Qed.

Lemma elem_of_rows_from runId from s r :
  r ∈ rows_from runId from s ↔
  ∃ n, spool_events s !! (runId, n) = Some r ∧ (from <= n)%Z.
Proof.
  unfold rows_from. rewrite merge_sort_Permutation, list_elem_of_fmap. split.
  - intros ([[id n] r'] & -> & Hin). apply list_elem_of_filter in Hin as [Hc Hin]. cbn in Hc.
    destruct Hc as [-> Hle].
    apply elem_of_map_to_list in Hin. by exists n.
  - intros (n & Hn & Hle). exists ((runId, n), r). split; [done|].
    apply list_elem_of_filter. split; [done|]. by apply elem_of_map_to_list.
Qed.

Lemma rows_from_sorted runId from s : StronglySorted row_le (rows_from runId from s).
Proof. unfold rows_from. apply (StronglySorted_merge_sort row_le). Qed.

Lemma rows_from_nodup runId from s hard : SpoolInv hard s → NoDup (rows_from runId from s).
Proof.
  intros HI. unfold rows_from. rewrite merge_sort_Permutation. apply NoDup_fmap_2_strong.
  - intros [k r] [k' r'] Hk Hk' Heq. cbn in Heq. subst r'.
    apply list_elem_of_filter in Hk as [_ Hk], Hk' as [_ Hk'].
    apply elem_of_map_to_list in Hk, Hk'. destruct (si_events _ _ HI _ _ Hk) as (A & B & _).
    destruct (si_events _ _ HI _ _ Hk') as (A' & B' & _). f_equal. destruct k, k'. cbn in *. congruence.
  - apply NoDup_filter, NoDup_map_to_list.
Qed.

(** Distinct rows of a run have distinct numbers, so the order is strict. *)
Lemma rows_from_ascending runId from s hard :
  SpoolInv hard s →
  StronglySorted Z.lt ((λ r, sequenceNumber (body (row_event r))) <$> rows_from runId from s).
Proof.
  intros HI. pose proof (rows_from_sorted runId from s) as Hs.
  pose proof (rows_from_nodup runId from s hard HI) as Hn.
  assert (∀ r, r ∈ rows_from runId from s →
    spool_events s !! (runId, sequenceNumber (body (row_event r))) = Some r) as Hin.
  { intros r Hr. apply elem_of_rows_from in Hr as (n & Hr & _).
    destruct (si_events _ _ HI _ _ Hr) as (_ & Hseq & _). cbn in Hseq. by rewrite Hseq. }
  induction Hs as [|r rows Hs IH Hall]; cbn; [constructor|]. apply NoDup_cons in Hn as [Hnin Hn].
  constructor; [apply IH; [done|intros; apply Hin; set_solver]|].
  rewrite Forall_fmap, Forall_forall in *. intros x Hx. specialize (Hall x Hx). unfold row_le in Hall.
  cbn. apply Z.le_neq. split; [done|]. intros Heq. apply Hnin.
  pose proof (Hin r ltac:(set_solver)) as H1. pose proof (Hin x ltac:(set_solver)) as H2. congruence.
Qed.

(** ** A batch is a prefix *)
Lemma take_batch_prefix limit count acc rows :
  ∃ k, take_batch limit count acc rows = row_event <$> take k rows.
Proof.
  revert count acc. induction rows as [|r rows IH]; intros count acc; cbn; [by exists 0%nat|].
  destruct (_ <=? _)%Z; [by exists 0%nat|]. destruct (_ && _); [by exists 0%nat|].
  destruct (IH (count + 1)%Z (acc + row_size r)%Z) as [k ->]. by exists (S k).
Qed.

Lemma take_batch_nonempty limit rows :
  rows ≠ [] → (1 <= maximumEvents limit)%Z → take_batch limit 0 0 rows ≠ [].
Proof.
  destruct rows as [|r rows]; [done|]. intros _ Hm. cbn.
  destruct (Z.leb_spec (maximumEvents limit) 0); [lia|]. done.
Qed.

Definition sizes (rows : list EventRow) : Z := foldr Z.add 0%Z (row_size <$> rows).

Lemma take_batch_limits limit count acc rows :
  Forall (λ r, (0 <= row_size r)%Z) rows → (0 <= count)%Z →
  ∃ k, take_batch limit count acc rows = row_event <$> take k rows ∧ (k <= length rows)%nat ∧
    (k = 0%nat ∨ (count + Z.of_nat k <= maximumEvents limit)%Z) ∧
    (k = 0%nat ∨ (count = 0%Z ∧ k = 1%nat) ∨ (acc + sizes (take k rows) <= maximumBytes limit)%Z).
Proof.
  revert count acc. induction rows as [|r rows IH]; intros count acc Hp Hc; cbn.
  { exists 0%nat. split_and!; auto; lia. }
  apply Forall_cons in Hp as [Hr Hp].
  destruct (Z.leb_spec (maximumEvents limit) count); [exists 0%nat; split_and!; auto; lia|].
  destruct (_ && _) eqn:Hover; [exists 0%nat; split_and!; auto; lia|].
  destruct (IH (count + 1)%Z (acc + row_size r)%Z Hp ltac:(lia)) as (k & -> & Hk & Hev & Hby).
  exists (S k). cbn [take fmap list_fmap sizes foldr length]. split_and!; [done|lia|right; lia|right].
  fold (sizes (take k rows)). destruct (Z.ltb_spec 0 count) as [H0|H0]; cbn in Hover.
  - right. apply Z.ltb_ge in Hover. destruct Hby as [->|[[? ?]|Hby]]; [|lia..].
    change (sizes (take 0 rows)) with 0%Z. lia.
  - destruct Hby as [->|[[? ?]|Hby]]; [left; lia|lia|]. right. lia.
Qed.

Lemma sorted_take_before (rows : list EventRow) k x y :
  StronglySorted row_le rows → x ∈ take k rows → y ∈ rows →
  (sequenceNumber (body (row_event y)) < sequenceNumber (body (row_event x)))%Z → y ∈ take k rows.
Proof.
  intros Hs Hx Hy Hlt. rewrite <- (take_drop k rows) in Hy, Hs.
  apply elem_of_app in Hy as [?|Hy]; [done|]. exfalso.
  pose proof (StronglySorted_app_1_elem_of _ _ _ _ _ Hs Hx Hy) as H. unfold row_le in H. lia.
Qed.

(** ** Operations *)
Inductive SpoolOp :=
  | OpAppend (size_of : TraceEvent → Z) (now : string) (e : TraceEvent)
  | OpAcknowledge (runId : string) (next : Z)
  | OpManifest (now : string) (m : ArtifactUploadManifest)
  | OpChunk (now : string) (c : ArtifactUploadChunk)
  | OpArtifactProgress (p : ArtifactUploadAck)
  | OpSecrets (l : gmap string LeaseRow) (r : option ResumeRow)
  | OpClose | OpReopen (key : option string).

Section invariant.
Context (sha256Hex : string → string) (hard : Z).

(** Reads change nothing and are left out; [OpSecrets] stands for any write to
    the tables of secrets. *)
Definition run_op (op : SpoolOp) : M unit :=
  match op with
  | OpAppend size_of now e => append size_of now hard e
  | OpAcknowledge id n => acknowledge id n
  | OpManifest now m => saveArtifactManifest now m
  | OpChunk now c => saveArtifactChunk sha256Hex now hard c
  | OpArtifactProgress p => acknowledgeArtifactProgress p
  | OpSecrets l r => modify (set_secrets l r)
  | OpClose => close
  | OpReopen key => modify (reopen key)
  end.

(** Sizes are measured as at least zero. *)
Definition measured (op : SpoolOp) : Prop :=
  match op with OpAppend size_of _ _ => ∀ e, (0 <= size_of e)%Z | _ => True end.

(** The events an operation may remove. *)
Definition removes (op : SpoolOp) (k : string * Z) : Prop :=
  match op with OpAcknowledge id n => k.1 = id ∧ (k.2 < n)%Z | _ => False end.

Definition op_post (op : SpoolOp) (s s' : Spool) : Prop :=
  SpoolInv hard s' ∧
  ∀ k r, spool_events s !! k = Some r → ¬ removes op k → spool_events s' !! k = Some r.

Lemma op_post_same op s : SpoolInv hard s → op_post op s s.
Proof. by split. Qed.

Lemma inv_same_bytes s s' :
  SpoolInv hard s → spool_events s' = spool_events s → spool_chunks s' = spool_chunks s →
  spool_manifests s' = spool_manifests s → spool_progress s' = spool_progress s → SpoolInv hard s'.
Proof.
  intros [I1 I2 I3 I4 I5 I6] E1 E2 E3 E4. split; unfold currentBytes in *; by rewrite ?E1, ?E2, ?E3, ?E4.
Qed.

Lemma wp_assertOpen Q (R : RunnerSpoolErrorCode → Spool → Prop) s :
  Q tt s → R SpoolOpenFailed s → wp assertOpen Q R s.
Proof. intros HQ HR. unfold assertOpen. apply wp_bind, wp_get, wp_throw_if; by intros. Qed.

Lemma op_append size_of now e s :
  (∀ e, (0 <= size_of e)%Z) → SpoolInv hard s →
  wp (append size_of now hard e)
    (λ _ s', op_post (OpAppend size_of now e) s s' ∧
       ∃ r, spool_events s' !! (run_of e, seq_of e) = Some r ∧ payloadHash (row_event r) = payloadHash e ∧
         (spool_events s !! (run_of e, seq_of e) = None → row_event r = e) ∧
         ∀ k x, spool_events s' !! k = Some x → spool_events s !! k = Some x ∨ row_event x = e)
    (λ _ s', s' = s) s.
Proof.
  intros Hsz HI. unfold append. apply wp_bind, wp_assertOpen; [|done]. apply wp_bind, wp_get.
  fold (run_of e) (seq_of e). destruct (spool_events s !! (run_of e, seq_of e)) as [r|] eqn:Hr.
  { destruct (String.eqb_spec (payloadHash (row_event r)) (payloadHash e)); [|by apply wp_throw].
    apply wp_ret. split; [by apply op_post_same|]. exists r. split_and!; [done..|by left]. }
  apply wp_bind, wp_throw_if; [done|]. intros Hcap%Z.ltb_ge. apply wp_modify.
  split; [split|].
  - destruct HI as [I1 I2 I3 I4 I5 I6]. split; try done.
    + apply map_Forall_insert; [done|]. split; [|done]. split_and!; [done|done|apply Hsz].
    + unfold currentBytes in *. cbn. rewrite msum_insert by done. cbn. lia.
  - intros k r Hk _. cbn. rewrite lookup_insert_ne; [done|]. congruence.
  - eexists. cbn. rewrite lookup_insert_eq. split_and!; [done..|].
    intros k x. rewrite lookup_insert_Some. intros [[_ <-]|[_ ?]]; [by right|by left].
Qed.

Lemma bytes_le s s' :
  SpoolInv hard s → spool_events s' ⊆ spool_events s → spool_chunks s' ⊆ spool_chunks s →
  (currentBytes s' <= currentBytes s)%Z.
Proof.
  intros HI He Hc. unfold currentBytes.
  assert (msum row_size (spool_events s') <= msum row_size (spool_events s))%Z.
  { apply msum_subseteq; [done|]. intros k r Hk. apply (si_events _ _ HI _ _ Hk). }
  assert (msum chunk_size (spool_chunks s') <= msum chunk_size (spool_chunks s))%Z; [|lia].
  apply msum_subseteq; [done|]. intros k r Hk. apply (si_chunks _ _ HI _ _ Hk).
Qed.

(** Dropping events and chunks. *)
Lemma inv_shrink s s' :
  SpoolInv hard s → spool_events s' ⊆ spool_events s → spool_chunks s' ⊆ spool_chunks s →
  spool_manifests s' ⊆ spool_manifests s →
  (∀ k r, spool_chunks s' !! k = Some r → is_Some (spool_manifests s' !! k.1)) →
  (∀ k r, spool_progress s' !! k = Some r → is_Some (spool_manifests s' !! k)) → SpoolInv hard s'.
Proof.
  intros HI He Hc Hm Hf Hp. pose proof (bytes_le _ _ HI He Hc) as Hb. destruct HI as [I1 I2 I3 I4 I5 I6].
  split; [| | |done|done|lia]; intros k r Hk.
  - by apply I1, (lookup_weaken _ _ _ _ Hk).
  - by apply I2, (lookup_weaken _ _ _ _ Hk).
  - by apply I3, (lookup_weaken _ _ _ _ Hk).
Qed.

Lemma op_acknowledge id n s :
  SpoolInv hard s →
  wp (acknowledge id n) (λ _ s', op_post (OpAcknowledge id n) s s' ∧
      ∀ k r, spool_events s' !! k = Some r → spool_events s !! k = Some r ∧ ¬ (k.1 = id ∧ (k.2 < n)%Z))
    (λ _ s', s' = s) s.
Proof.
  intros HI. unfold acknowledge. apply wp_bind, wp_assertOpen; [|done].
  apply wp_bind, wp_modify, wp_modify. split; [split|].
  - apply (inv_shrink s); try done; [apply map_filter_subseteq|apply HI|apply HI].
  - intros k r Hk Hkeep. cbn. by apply map_lookup_filter_Some.
  - intros k r. cbn. intros [? ?]%map_lookup_filter_Some. done.
Qed.

Lemma op_manifest now m s :
  SpoolInv hard s → wp (saveArtifactManifest now m) (λ _ s', op_post (OpManifest now m) s s') (λ _ s', s' = s) s.
Proof.
  intros HI. unfold saveArtifactManifest. apply wp_bind, wp_assertOpen; [|done]. apply wp_bind, wp_get.
  destruct (spool_manifests s !! m_artifactId m) eqn:Hm.
  { case_bool_decide; [by apply wp_ret, op_post_same|by apply wp_throw]. }
  apply wp_modify. split; [|done]. destruct HI as [I1 I2 I3 I4 I5 I6]. split; try done; cbn.
  - by apply map_Forall_insert.
  - intros k r Hk. apply lookup_insert_is_Some'. right. by eapply I4.
  - intros k r Hk. apply lookup_insert_is_Some'. right. by eapply I5.
Qed.

Lemma op_chunk now c s :
  SpoolInv hard s →
  wp (saveArtifactChunk sha256Hex now hard c) (λ _ s', op_post (OpChunk now c) s s') (λ _ s', s' = s) s.
Proof.
  intros HI. unfold saveArtifactChunk. apply wp_bind, wp_assertOpen; [|done].
  apply wp_bind, wp_throw_if; [done|]. intros _. apply wp_bind, wp_get.
  destruct (spool_chunks s !! _) eqn:Hc.
  { destruct (_ && _); [by apply wp_ret, op_post_same|by apply wp_throw]. }
  apply wp_bind, wp_throw_if; [done|]. intros Hcap%Z.ltb_ge.
  apply wp_bind, wp_throw_if; [done|]. intros Hm%bool_decide_eq_false%not_eq_None_Some.
  apply wp_modify. split; [|done]. destruct HI as [I1 I2 I3 I4 I5 I6]. split; try done; cbn.
  - apply map_Forall_insert; [done|]. split; [|done]. split; [done|]. cbn. lia.
  - intros k r. rewrite lookup_insert_Some. intros [[<- <-]|[_ Hk]]; [done|by eapply I4].
  - unfold currentBytes in *. cbn. rewrite msum_insert by done. cbn. lia.
Qed.

Lemma progress_dropped id a k r (m : gmap string ArtifactUploadAck) :
  match m !! a with Some p => if String.eqb (up_runId p) id then delete a m else m | None => m end !! k
    = Some r → m !! k = Some r.
Proof. destruct (m !! a); [destruct (String.eqb _ _)|]; [by intros [_ ?]%lookup_delete_Some|done..]. Qed.

Lemma drop_artifact_inv id a s : SpoolInv hard s → SpoolInv hard (drop_artifact id a s).
Proof.
  intros HI. unfold drop_artifact. destruct (spool_manifests s !! a) as [m|] eqn:Hm;
    [destruct (String.eqb _ _)|].
  - apply (inv_shrink s); cbn; try done.
    + etrans; apply map_filter_subseteq.
    + apply delete_subseteq.
    + intros k r [Hk Hne]%map_lookup_filter_Some. apply map_lookup_filter_Some in Hk as [Hk _].
      rewrite lookup_delete_ne by done. by eapply si_chunk_fk.
    + intros k r [Hne Hk]%lookup_delete_Some. rewrite lookup_delete_ne by done.
      by eapply (si_progress_fk _ _ HI k r), progress_dropped.
  - apply (inv_shrink s); cbn; try done; [apply map_filter_subseteq| |].
    + intros k r [Hk _]%map_lookup_filter_Some. by eapply si_chunk_fk.
    + intros k r Hk. by eapply (si_progress_fk _ _ HI k r), progress_dropped.
  - apply (inv_shrink s); cbn; try done; [apply map_filter_subseteq| |].
    + intros k r [Hk _]%map_lookup_filter_Some. by eapply si_chunk_fk.
    + intros k r Hk. by eapply (si_progress_fk _ _ HI k r), progress_dropped.
Qed.

Lemma drop_artifact_events id a s : spool_events (drop_artifact id a s) = spool_events s.
Proof. unfold drop_artifact. destruct (spool_manifests s !! a); [destruct (String.eqb _ _)|]; done. Qed.

Lemma op_progress p s :
  SpoolInv hard s →
  wp (acknowledgeArtifactProgress p) (λ _ s', op_post (OpArtifactProgress p) s s') (λ _ s', s' = s) s.
Proof.
  intros HI. unfold acknowledgeArtifactProgress. apply wp_bind, wp_assertOpen; [|done].
  destruct (up_acknowledged p).
  { apply wp_modify. split; [by apply drop_artifact_inv|]. intros k r Hk _. by rewrite drop_artifact_events. }
  apply wp_bind, wp_get, wp_bind, wp_throw_if; [done|]. intros Hm%bool_decide_eq_false%not_eq_None_Some.
  apply wp_modify. split; [|done]. apply (inv_shrink s); cbn; try done.
  - apply map_filter_subseteq.
  - intros k r [Hk _]%map_lookup_filter_Some. by eapply si_chunk_fk.
  - intros k r. rewrite lookup_insert_Some. intros [[<- _]|[_ Hk]]; [done|]. by eapply si_progress_fk.
Qed.

Lemma run_op_good op s :
  measured op → SpoolInv hard s → op_post op s (exec (run_op op) s).
Proof.
  intros Hm HI. enough (wp (run_op op) (λ _ s', op_post op s s') (λ _ s', s' = s) s) as H.
  { unfold wp, exec in *. destruct (run_op op s) as [[a|e] s']; [done|]. rewrite H. by apply op_post_same. }
  destruct op as [z now e|id n|now m|now c|p|l r| |key]; cbn [run_op].
  - eapply wp_mono; [by apply op_append|by intros ?? []|done].
  - eapply wp_mono; [by apply op_acknowledge|by intros ?? []|done].
  - by apply op_manifest.
  - by apply op_chunk.
  - by apply op_progress.
  - apply wp_modify. split; [|done]. by apply (inv_same_bytes s).
  - unfold close. apply wp_bind, wp_get. destruct (closed s); [by apply wp_ret, op_post_same|].
    apply wp_modify. split; [|done]. by apply (inv_same_bytes s).
  - apply wp_modify. split.
    + apply (inv_same_bytes s); [done|unfold reopen; by destruct key..].
    + intros k r Hk _. unfold reopen. by destruct key.
Qed.

(** The operations on artifacts and secrets, closing and reopening leave the
    events alone. *)
Definition on_events (op : SpoolOp) : bool :=
  match op with OpAppend _ _ _ | OpAcknowledge _ _ => true | _ => false end.

Lemma run_op_events op s : on_events op = false → spool_events (exec (run_op op) s) = spool_events s.
Proof.
  intros Hop. enough (wp (run_op op) (λ _ s', spool_events s' = spool_events s)
    (λ _ s', spool_events s' = spool_events s) s) as H.
  { unfold wp, exec in *. by destruct (run_op op s) as [[a|e] s']. }
  destruct op; try done; cbn [run_op].
  - unfold saveArtifactManifest, assertOpen. by wp_run.
  - unfold saveArtifactChunk, assertOpen. by wp_run.
  - unfold acknowledgeArtifactProgress, assertOpen. wp_run; try done. apply drop_artifact_events.
  - unfold close. by wp_run.
  - apply wp_modify. unfold reopen. by destruct key.
Qed.

(** The spool after a sequence of operations, failed ones included. *)
Definition run_ops (ops : list SpoolOp) (s : Spool) : Spool := foldl (λ s op, exec (run_op op) s) s ops.

(** C33: the spool is bounded and keeps its trace.  Through any sequence of
    operations, closings and reopenings with or without the key: the bytes of
    the stored events and artifact chunks never exceed the hard limit, chunks
    and progress belong to known manifests, and an event stays, unchanged,
    until an acknowledgement of its run beyond its number. *)
Theorem spool_keeps_trace ops s :
  Forall measured ops → SpoolInv hard s →
  SpoolInv hard (run_ops ops s) ∧ (currentBytes (run_ops ops s) <= hard)%Z ∧
  ∀ k r, spool_events s !! k = Some r → Forall (λ op, ¬ removes op k) ops →
    spool_events (run_ops ops s) !! k = Some r.
Proof.
  intros Hm HI. enough (SpoolInv hard (run_ops ops s) ∧ ∀ k r, spool_events s !! k = Some r →
    Forall (λ op, ¬ removes op k) ops → spool_events (run_ops ops s) !! k = Some r) as [H1 H2].
  { split; [done|]. split; [apply H1|done]. }
  revert s HI. induction Hm as [|op ops Hop _ IH]; intros s HI; [done|].
  destruct (run_op_good op s Hop HI) as [HI' Hkeep]. destruct (IH _ HI') as [H1 H2].
  split; [done|]. intros k r Hk [Hno Hrest]%Forall_cons. apply H2; [|done]. by apply Hkeep.
Qed.
End invariant.

Lemma pending_spec hard runId from limit s :
  SpoolInv hard s → closed s = false → (1 <= maximumEvents limit)%Z →
  ∃ events, pending runId from limit s = (Ok events, s) ∧
    StronglySorted Z.lt (seq_of <$> events) ∧
    (∀ e, e ∈ events → ∃ r, spool_events s !! (runId, seq_of e) = Some r ∧ row_event r = e ∧
       run_of e = runId ∧ (from <= seq_of e)%Z) ∧
    (∀ e n, e ∈ events → (from <= n < seq_of e)%Z → is_Some (spool_events s !! (runId, n)) →
       n ∈ seq_of <$> events) ∧
    (Z.of_nat (length events) <= maximumEvents limit)%Z ∧
    ((length events <= 1)%nat ∨ ∃ rows, row_event <$> rows = events ∧
       (sizes rows <= maximumBytes limit)%Z) ∧
    ((∃ n, (from <= n)%Z ∧ is_Some (spool_events s !! (runId, n))) → events ≠ []).
Proof.
  intros HI Hop Hmax. set (rows := rows_from runId from s).
  assert (∀ r, r ∈ rows → spool_events s !! (runId, seq_of (row_event r)) = Some r ∧
    run_of (row_event r) = runId ∧ (from <= seq_of (row_event r))%Z) as Hin.
  { intros r Hr. apply elem_of_rows_from in Hr as (n & Hr & Hle).
    destruct (si_events _ _ HI _ _ Hr) as (Hid & Hseq & _). cbn in Hid, Hseq. unfold seq_of, run_of.
    rewrite Hseq. by split_and!. }
  assert (Forall (λ r, (0 <= row_size r)%Z) rows) as Hsz.
  { apply Forall_forall. intros r Hr. apply (si_events _ _ HI _ _ (proj1 (Hin r Hr))). }
  destruct (take_batch_limits limit 0 0 rows Hsz ltac:(lia)) as (k & Heq & Hk & Hev & Hby).
  pose proof (rows_from_sorted runId from s) as Hs. fold rows in Hs.
  exists (row_event <$> take k rows). split_and!.
  - unfold pending, assertOpen, gets, get, throw_if, mbind, js_bind. rewrite Hop. cbn.
    fold rows. by rewrite Heq.
  - pose proof (rows_from_ascending runId from s hard HI) as Ha. fold rows in Ha.
    rewrite <- list_fmap_compose. rewrite <- (take_drop k rows), fmap_app in Ha.
    by apply StronglySorted_app_1_l in Ha.
  - intros e He. apply list_elem_of_fmap in He as (r & -> & Hr).
    apply elem_of_take in Hr as (j & Hr & _). destruct (Hin r) as (? & ? & ?); [|by exists r].
    by eapply list_elem_of_lookup_2.
  - intros e n He Hn [r Hr]. apply list_elem_of_fmap in He as (x & -> & Hx).
    assert (r ∈ rows) as Hrr by (apply elem_of_rows_from; exists n; split; [done|lia]).
    assert (seq_of (row_event r) = n) as Hseq by apply (si_events _ _ HI _ _ Hr).
    apply list_elem_of_fmap. exists (row_event r). split; [done|]. apply list_elem_of_fmap_2.
    apply (sorted_take_before rows k x r); [done|done|done|]. unfold seq_of in *. lia.
  - rewrite length_fmap, length_take. lia.
  - rewrite length_fmap, length_take. destruct Hby as [->|[[_ ->]|Hby]]; [left; lia|left; lia|].
    right. by exists (take k rows).
  - intros (n & Hle & r & Hr). rewrite <- Heq. apply take_batch_nonempty; [|done].
    intros Hnil. assert (r ∈ rows) as Hrr by (apply elem_of_rows_from; by exists n).
    rewrite Hnil in Hrr. by apply elem_of_nil in Hrr.
Qed.

(** A pending batch is the next events in order.  [pending] changes nothing
    and returns stored events of the run from the given number on, in strictly
    increasing order and skipping none; at most the event limit; within the byte
    limit unless the batch is a single event; and not empty when something is
    pending, so that draining always makes progress. *)
Theorem pending_batch hard runId from limit s :
  SpoolInv hard s → closed s = false → (1 <= maximumEvents limit)%Z →
  ∃ events, pending runId from limit s = (Ok events, s) ∧
    StronglySorted Z.lt (seq_of <$> events) ∧
    (∀ e, e ∈ events → ∃ r, spool_events s !! (runId, seq_of e) = Some r ∧ row_event r = e ∧
       run_of e = runId ∧ (from <= seq_of e)%Z) ∧
    (∀ e n, e ∈ events → (from <= n < seq_of e)%Z → is_Some (spool_events s !! (runId, n)) →
       n ∈ seq_of <$> events) ∧
    (Z.of_nat (length events) <= maximumEvents limit)%Z ∧
    ((length events <= 1)%nat ∨ ∃ rows, row_event <$> rows = events ∧
       (sizes rows <= maximumBytes limit)%Z) ∧
    ((∃ n, (from <= n)%Z ∧ is_Some (spool_events s !! (runId, n))) → events ≠ []).
Proof. apply pending_spec. Qed.

(** Secrets survive a restart, or are gone.  With the spool key, a saved lease
    loads as it was saved, before and after reopening the file; a file reopened
    without the key has lost the lease for good, while its trace is untouched.
    AES-256-GCM is assumed to open what it sealed, with a 16-byte tag. *)
Theorem lease_secret_roundtrip seal unseal number_text now k nonce r s :
  (∀ key n data x, unseal key n data (seal key n data x).1 (seal key n data x).2 = Some x) →
  (∀ key n data x, String.length (seal key n data x).2 = GCM_TAG_BYTES) →
  String.length nonce = GCM_NONCE_BYTES → closed s = false →
  let saved := exec (saveLease (Some k) seal number_text now nonce r) s in
  let load key := result (loadLease key unseal number_text (sl_jobId r)) in
  result (saveLease (Some k) seal number_text now nonce r) s = Ok tt ∧
  load (Some k) saved = Ok (Some r) ∧
  load (Some k) (reopen (Some k) (exec close saved)) = Ok (Some r) ∧
  load None (reopen None (exec close saved)) = Throw SpoolKeyUnavailable ∧
  load (Some k) (reopen (Some k) (exec close (reopen None (exec close saved)))) = Ok None ∧
  spool_events (reopen None (exec close saved)) = spool_events s.
Proof.
  intros Hopen Htag Hnonce Hcl saved load. destruct s as [ev cu ma ch pr le re cl]. cbn in Hcl. subst cl.
  set (data := leaseAssociatedData number_text SPOOL_LEASE_SCHEMA_VERSION (sl_jobId r) (sl_runId r)
    (sl_leaseEpoch r) (sl_expiresAt r)).
  set (row := {| lr_run_id := sl_runId r; lr_lease_epoch := sl_leaseEpoch r;
    lr_expires_at := sl_expiresAt r; lr_schema_version := SPOOL_LEASE_SCHEMA_VERSION;
    lr_sealed := encryptSecret seal k nonce (sl_leaseToken r) data; lr_updated_at := now |}).
  assert (∀ st, decryptLeaseRow (Some k) unseal number_text (sl_jobId r) row st = (Ok r, st)) as Hdec.
  { intros st. unfold decryptLeaseRow, row. cbn [lr_sealed lr_schema_version lr_run_id lr_lease_epoch lr_expires_at].
    fold data. unfold encryptSecret. destruct (seal k nonce data (sl_leaseToken r)) as [text tag] eqn:Hseal.
    unfold decryptSecret. cbn [sealed_nonce sealed_tag sealed_text].
    pose proof (Htag k nonce data (sl_leaseToken r)) as Ht. rewrite Hseal in Ht. cbn in Ht.
    rewrite Hnonce, Ht. pose proof (Hopen k nonce data (sl_leaseToken r)) as Ho. rewrite Hseal in Ho.
    cbn in Ho. unfold mbind, js_bind, requireCrypto, mret, js_ret. cbn. rewrite Ho. by destruct r. }
  assert (∀ st, closed st = false → spool_leases st !! sl_jobId r = Some row →
    load (Some k) st = Ok (Some r)) as Hload.
  { intros st Ho Hrow. unfold load, result, loadLease, assertOpen, throw_if, get, requireCrypto, mbind,
      js_bind, mret, js_ret. rewrite Ho, Hrow. by rewrite Hdec. }
  split_and!; [done| | |done| |done].
  - apply Hload; [done|]. apply lookup_insert_eq.
  - apply Hload; [done|]. apply lookup_insert_eq.
  - unfold load, result, loadLease. done.
Qed.

(** ** Witnesses *)
Definition demo_limit : SpoolBatchLimit := {| maximumEvents := 10; maximumBytes := 100 |}.
Definition empty_spool : Spool :=
  {| spool_events := ∅; spool_cursors := ∅; spool_manifests := ∅; spool_chunks := ∅;
     spool_progress := ∅; spool_leases := ∅; spool_resume := None; closed := false |}.
Definition demo_append : SpoolOp := OpAppend (λ _, 40%Z) "2026" (demo_event "run").
Definition demo_spool : Spool := exec (run_op (λ x, x) 100 demo_append) empty_spool.

Lemma empty_spool_inv : SpoolInv 100 empty_spool.
Proof. split; try done. Qed.

Lemma demo_spool_inv : SpoolInv 100 demo_spool.
Proof. apply (run_op_good (λ x, x) 100 demo_append empty_spool); [done|exact empty_spool_inv]. Qed.

Lemma spool_keeps_trace_witness :
  (currentBytes (run_ops (λ x, x) 100 [OpAcknowledge "other" 5; OpReopen None] demo_spool) <= 100)%Z.
Proof.
  apply (spool_keeps_trace (λ x, x) 100 [OpAcknowledge "other" 5; OpReopen None] demo_spool).
  - repeat constructor.
  - exact demo_spool_inv.
Defined.

Lemma pending_batch_witness : ∃ events, pending "run" 1 demo_limit demo_spool = (Ok events, demo_spool).
Proof.
  destruct (pending_batch 100 "run" 1 demo_limit demo_spool) as (events & H & _).
  - exact demo_spool_inv.
  - reflexivity.
  - discriminate.
  - exists events. exact H.
Defined.

Definition demo_lease : SpoolLeaseRecord :=
  {| sl_jobId := "job"; sl_runId := "run"; sl_leaseEpoch := 1; sl_expiresAt := "2026"; sl_leaseToken := "secret" |}.
Definition demo_seal (k n data x : string) : string * string := (x, "0123456789abcdef").
Definition demo_unseal (k n data c t : string) : option string := Some c.

Lemma lease_secret_roundtrip_witness :
  result (saveLease (Some "key") demo_seal (λ _, "0") "2026" "0123456789ab" demo_lease) empty_spool = Ok tt.
Proof.
  apply (lease_secret_roundtrip demo_seal demo_unseal (λ _, "0") "2026" "key" "0123456789ab" demo_lease
    empty_spool); reflexivity.
Defined.

End RunnerSpool.
