(* ===== verification/TraceDelivery.v ===== *)
(** * From the runner's recorder to the server's trace

    Models [apps/runner/src/spooling-trace-recorder.ts], which spools every event
    of a run before anything is sent, and [apps/runner/src/trace-upload-pump.ts],
    which drains the spool, composed with the spool of [RunnerSpool] and the
    server of [TraceIngest].  The theorems say that no recorded event is lost,
    that the server's trace is a prefix of what was recorded, and that draining
    ends with the whole trace on the server. *)
From S2P Require Import Prelude.
From S2P Require Import Number.
From S2P Require Import Json.
From S2P Require Import IsoTime.
From S2P Require Import CanonicalJson.
From S2P Require Import RunnerProtocol.
From S2P Require Import ExecutionRuntime.
From S2P Require Import RunnerControl.
From S2P Require Import LeaseSafety.
From S2P Require Import TraceIngest.
From S2P Require Import RunnerSpool.
From stdpp Require Import sorting pretty.

Module TraceDelivery.
Import TraceIngest RunnerSpool.

(** ** The runner *)
Record TraceEventInput := {
  input_run : string;
  input_stepIndex : option number;
  input_payload : TracePayload;
}.

Inductive RunnerError :=
  | InvalidObservation
  | SpoolFailure (e : RunnerSpoolErrorCode)
  | TerminalTracePersistenceError (cause : RunnerSpoolErrorCode)
  | TransportFailure
  | ServerRejected (e : TraceError).

(** What becomes of a submission: it arrives and so does the answer; it is lost
    or aborted on the way; it arrives and the answer is lost or aborted; or the
    pump is aborted once the spool has been acknowledged. *)
Inductive Transport := delivered | request_lost | ack_lost | ack_interrupted.

Record System := {
  spool : Spool;
  nextSequenceByRun : gmap string Z;
  pump_cursor : Z;
  server : Server;
  transport : list Transport;
}.

Definition set_spool (x : Spool) (s : System) : System :=
  {| spool := x; nextSequenceByRun := nextSequenceByRun s; pump_cursor := pump_cursor s;
     server := server s; transport := transport s |}.
Definition set_next (m : gmap string Z) (s : System) : System :=
  {| spool := spool s; nextSequenceByRun := m; pump_cursor := pump_cursor s;
     server := server s; transport := transport s |}.
Definition set_cursor (n : Z) (s : System) : System :=
  {| spool := spool s; nextSequenceByRun := nextSequenceByRun s; pump_cursor := n;
     server := server s; transport := transport s |}.
Definition set_server (x : Server) (s : System) : System :=
  {| spool := spool s; nextSequenceByRun := nextSequenceByRun s; pump_cursor := pump_cursor s;
     server := x; transport := transport s |}.
Definition set_transport (l : list Transport) (s : System) : System :=
  {| spool := spool s; nextSequenceByRun := nextSequenceByRun s; pump_cursor := pump_cursor s;
     server := server s; transport := l |}.

Definition M := js System RunnerError.

Definition on_spool {A} (m : RunnerSpool.M A) : M A := λ s,
  let '(o, x) := m (spool s) in
  (match o with Ok a => Ok a | Throw e => Throw (SpoolFailure e) end, set_spool x s).
Definition on_server {A} (m : TraceIngest.M A) : M A := λ s,
  let '(o, x) := m (server s) in
  (match o with Ok a => Ok a | Throw e => Throw (ServerRejected e) end, set_server x s).
Definition next_transport : M Transport := λ s,
  match transport s with
  | [] => (Ok delivered, s)
  | t :: l => (Ok t, set_transport l s)
  end.

Section delivery.
Context (parse_url : string → option RunnerProtocol.Url) (number_text : number → string)
  (sha256 : string → string).
Context (artifacts : option (string → list string → list string)) (clock_now : string)
  (ownership : bool).
(** The observation validator, and the measured size of an event. *)
Context (valid_observation : json → bool) (measureEventBytes : TraceEvent → Z).
Context (now : string) (hardLimitBytes : Z).

(** ** The recorder *)
Definition validateTraceInput (input : TraceEventInput) : bool :=
  match input_payload input with p_stage observation g => valid_observation g | _ => true end.

Definition withEnvelope (input : TraceEventInput) (n : Z) : TraceEventHashInput :=
  {| messageId := input_run input +:+ ":" +:+ number_text (num_of_Z n);
     idempotencyKey := input_run input +:+ ":" +:+ number_text (num_of_Z n);
     event_run := input_run input; sequenceNumber := n; stepIndex := input_stepIndex input;
     occurredAt := "2026-08-01T00:00:00.000Z"; payload := input_payload input |}.
Definition withHash (e : TraceEventHashInput) : TraceEvent :=
  {| body := e; payloadHash := canonicalTraceEventHash number_text sha256 e |}.

Definition record_append (input : TraceEventInput) : M TraceEvent :=
  s ← get;
  let n := default 1%Z (nextSequenceByRun s !! input_run input) in
  _ ← throw_if (negb (validateTraceInput input)) InvalidObservation;
  let event := withHash (withEnvelope input n) in
  _ ← try_catch (on_spool (append measureEventBytes now hardLimitBytes event))
        (λ e, match input_payload input, e with
              | p_stage run_completed _, SpoolFailure cause => throw (TerminalTracePersistenceError cause)
              | _, _ => throw e
              end);
  _ ← modify (λ s, set_next (<[input_run input := (n + 1)%Z]> (nextSequenceByRun s)) s);
  mret event.

(** ** The pump *)
Section pump.
Context (sessionId runId : string) (limit : SpoolBatchLimit) (batch_id : string).

(** [submitter.submit]: the server's answer, as far as the transport lets it through. *)
Definition submit (t : Transport) (batch : ExecutionEventBatch) : M ExecutionEventAck :=
  match t with
  | request_lost => throw TransportFailure
  | _ => ack ← on_server (session_ingest parse_url number_text sha256 artifacts clock_now ownership
                 sessionId batch);
         match t with ack_lost => throw TransportFailure | _ => mret ack end
  end.

(** The number of events submitted, and whether nothing more is pending. *)
Definition pumpOnce : M (Z * bool) :=
  s ← get;
  events ← on_spool (pending runId (pump_cursor s) limit);
  match events with
  | [] => mret (0%Z, true)
  | first :: _ =>
      t ← next_transport;
      ack ← submit t {| batchId := batch_id; batch_runId := runId;
                        firstSequenceNumber := sequenceNumber (body first); batch_events := events |};
      _ ← on_spool (acknowledge runId (nextExpectedSequenceNumber ack));
      _ ← (match t with ack_interrupted => throw TransportFailure | _ => mret tt end);
      _ ← modify (λ s, set_cursor (Z.max (pump_cursor s) (nextExpectedSequenceNumber ack)) s);
      s ← get;
      remaining ← on_spool (pending runId (pump_cursor s) limit);
      mret (Z.of_nat (length events), bool_decide (length remaining = 0))
  end.

(** [for (;;)]: [None] when the fuel runs out before the loop ends. *)
Fixpoint drain (fuel : nat) : M (option unit) :=
  match fuel with
  | O => mret None
  | S fuel =>
      '(_, done) ← pumpOnce;
      if (done : bool) then mret (Some tt) else drain fuel
  end.
End pump.
End delivery.

(** ** The run under observation *)
Section run.
Context (parse_url : string → option RunnerProtocol.Url) (number_text : number → string)
  (sha256 : string → string).
Context (artifacts : option (string → list string → list string)) (clock_now : string)
  (ownership : bool).
Context (valid_observation : json → bool) (measureEventBytes : TraceEvent → Z).
Context (now : string) (hardLimitBytes : Z).
Context (runId : string) (limit : SpoolBatchLimit).
Hypothesis limit_ok : (1 <= maximumEvents limit)%Z.
Hypothesis measure_ok : ∀ e, (0 <= measureEventBytes e)%Z.

Notation record_append := (record_append number_text sha256 valid_observation measureEventBytes now hardLimitBytes).
Notation pumpOnce sid b := (pumpOnce parse_url number_text sha256 artifacts clock_now ownership sid runId limit b).
Notation session_ingest := (session_ingest parse_url number_text sha256 artifacts clock_now ownership).
Notation drain sid b := (drain parse_url number_text sha256 artifacts clock_now ownership sid runId limit b).
Notation withHash := (withHash number_text sha256).

Definition in_spool (e : TraceEvent) (s : System) : Prop :=
  ∃ r, spool_events (spool s) !! (runId, seq_of e) = Some r ∧ row_event r = e.
Definition on_trace (e : TraceEvent) (s : System) : Prop :=
  trace_events (trace (server s)) !! (runId, seq_of e) = Some e.

(** [recorded]: the events [record_append] has returned for the run, in order. *)
Record Delivery (recorded : list TraceEvent) (recording : bool) (s : System) : Prop := {
  d_spool : SpoolInv hardLimitBytes (spool s);
  d_server : TraceIngest.Inv (trace (server s));
  d_numbered : ∀ i e, recorded !! i = Some e →
    run_of e = runId ∧ seq_of e = (Z.of_nat i + 1)%Z ∧
    ∃ input, e = withHash (withEnvelope number_text input (Z.of_nat i + 1)) ∧ input_run input = runId;
  d_next : recording = true →
    default 1%Z (nextSequenceByRun s !! runId) = (Z.of_nat (length recorded) + 1)%Z;
  d_spooled : ∀ n r, spool_events (spool s) !! (runId, n) = Some r → row_event r ∈ recorded;
  d_stored : ∀ n e, trace_events (trace (server s)) !! (runId, n) = Some e → e ∈ recorded;
  d_kept : ∀ e, e ∈ recorded → in_spool e s ∨ on_trace e s;
  d_cursor : (pump_cursor s <= cursor (trace (server s)) runId)%Z;
}.

Lemma recorded_seq recorded recording s e :
  Delivery recorded recording s → e ∈ recorded →
  (1 <= seq_of e <= Z.of_nat (length recorded))%Z ∧ run_of e = runId.
Proof.
  intros D He. apply list_elem_of_lookup_1 in He as [i Hi].
  destruct (d_numbered _ _ _ D i e Hi) as (Hr & Hs & _). apply lookup_lt_Some in Hi.
  split; [lia|done].
Qed.

Lemma recorded_inj recorded recording s e e' :
  Delivery recorded recording s → e ∈ recorded → e' ∈ recorded → seq_of e = seq_of e' → e = e'.
Proof.
  intros D He He' Heq. apply list_elem_of_lookup_1 in He as [i Hi], He' as [j Hj].
  destruct (d_numbered _ _ _ D i e Hi) as (_ & Hs & _).
  destruct (d_numbered _ _ _ D j e' Hj) as (_ & Hs' & _).
  assert (i = j) as -> by lia. congruence.
Qed.

Lemma spooled_seq recorded recording s n r :
  Delivery recorded recording s → spool_events (spool s) !! (runId, n) = Some r →
  seq_of (row_event r) = n.
Proof. intros D Hr. apply (si_events _ _ (d_spool _ _ _ D) _ _ Hr). Qed.

Lemma stored_seq recorded recording s n e :
  Delivery recorded recording s → trace_events (trace (server s)) !! (runId, n) = Some e → seq_of e = n.
Proof. intros D He. apply (i_events _ (d_server _ _ _ D) _ _ He). Qed.

(** A recorded event that the server holds the number of is the one it holds. *)
Lemma on_trace_below recorded recording s e :
  Delivery recorded recording s → e ∈ recorded →
  (seq_of e < cursor (trace (server s)) runId)%Z → on_trace e s.
Proof.
  intros D He Hlt. destruct (recorded_seq _ _ _ _ D He) as [Hs _].
  assert (is_Some (trace_events (trace (server s)) !! (runId, seq_of e))) as [x Hx].
  { apply (i_contiguous _ (d_server _ _ _ D)). lia. }
  pose proof (d_stored _ _ _ D _ _ Hx) as Hin. pose proof (stored_seq _ _ _ _ _ D Hx) as Hxs.
  assert (e = x) as -> by (by eapply recorded_inj). done.
Qed.

Lemma not_stored_spooled recorded recording s e :
  Delivery recorded recording s → e ∈ recorded →
  (cursor (trace (server s)) runId <= seq_of e)%Z → in_spool e s.
Proof.
  intros D He Hle. destruct (d_kept _ _ _ D e He) as [?|Ht]; [done|exfalso].
  assert (is_Some (trace_events (trace (server s)) !! (runId, seq_of e))) as Hx by by exists e.
  apply (i_contiguous _ (d_server _ _ _ D)) in Hx. lia.
Qed.

(** ** The server moves on *)
Lemma delivery_server recorded recording s s' :
  Delivery recorded recording s →
  spool s' = spool s → nextSequenceByRun s' = nextSequenceByRun s →
  (pump_cursor s' <= cursor (trace (server s')) runId)%Z →
  TraceIngest.Inv (trace (server s')) → grows (trace (server s)) (trace (server s')) →
  (∀ n e, trace_events (trace (server s')) !! (runId, n) = Some e →
     trace_events (trace (server s)) !! (runId, n) = Some e ∨ e ∈ recorded) →
  Delivery recorded recording s'.
Proof.
  intros D Esp Enx Hcur HI Hg Honly.
  split; [by rewrite Esp; apply D|done|apply D|by rewrite Enx; apply D|by rewrite Esp; apply D| | |done].
  - intros n e He. destruct (Honly n e He) as [?|?]; [by eapply d_stored|done].
  - intros e He. destruct (d_kept _ _ _ D e He) as [(r & Hr & Hre)|Ht].
    + left. exists r. by rewrite Esp.
    + right. unfold on_trace in *. by eapply lookup_weaken, g_events.
Qed.

Lemma cursor_grows db db' id :
  grows db db' → TraceIngest.Inv db' → (cursor db id <= cursor db' id)%Z.
Proof.
  intros G HI. unfold cursor. destruct (execution_runs db !! id) as [r|] eqn:Hr.
  - destruct (g_runs _ _ G _ _ Hr) as (r' & -> & _ & Hle & _). done.
  - destruct (execution_runs db' !! id) as [r'|] eqn:Hr'; [|done].
    apply (i_runs _ HI _ _ Hr').
Qed.
(** ** The two halves of the system *)
Lemma set_spool_id s : set_spool (spool s) s = s. Proof. by destruct s. Qed.
Lemma set_server_id s : set_server (server s) s = s. Proof. by destruct s. Qed.

Lemma wp_on_spool {A} (m : RunnerSpool.M A) Q R s :
  wp m (λ a x, Q a (set_spool x s)) (λ e x, R (SpoolFailure e) (set_spool x s)) (spool s) →
  wp (on_spool m) Q R s.
Proof. unfold wp, on_spool. by destruct (m (spool s)) as [[a|e] x]. Qed.

Lemma wp_on_server {A} (m : TraceIngest.M A) Q R s :
  wp m (λ a x, Q a (set_server x s)) (λ e x, R (ServerRejected e) (set_server x s)) (server s) →
  wp (on_server m) Q R s.
Proof. unfold wp, on_server. by destruct (m (server s)) as [[a|e] x]. Qed.

(** Reading the pending batch: an interval of the recorded events. *)
Definition batch_of (recorded : list TraceEvent) (s : System) (events : list TraceEvent) : Prop :=
  ascending events ∧ events ⊆ recorded ∧ (∀ e, e ∈ events → in_spool e s) ∧
  (∀ e n, e ∈ events → (pump_cursor s <= n < seq_of e)%Z →
     is_Some (spool_events (spool s) !! (runId, n)) → n ∈ seq_of <$> events).

Lemma batch_facts recorded recording s events :
  Delivery recorded recording s → closed (spool s) = false →
  pending runId (pump_cursor s) limit (spool s) = (Ok events, spool s) →
  batch_of recorded s events ∧
  (events = [] → ∀ n, (pump_cursor s <= n)%Z → spool_events (spool s) !! (runId, n) = None).
Proof.
  intros D Hop Hp.
  destruct (pending_spec _ runId (pump_cursor s) limit _ (d_spool _ _ _ D) Hop limit_ok)
    as (events' & Hp' & Hs & Hin & Hgap & _ & _ & Hne).
  rewrite Hp in Hp'. injection Hp' as <-.
  assert (∀ e, e ∈ events → e ∈ recorded ∧ in_spool e s) as Hrec.
  { intros e He. destruct (Hin e He) as (r & Hr & <- & _). split; [by eapply d_spooled|by exists r]. }
  split.
  - split_and!; [split; [done|]|by intros e He; apply Hrec|by intros e He; apply Hrec|done].
    apply Forall_forall. intros e He. by eapply (recorded_seq _ _ _ _ D), Hrec.
  - intros -> n Hle. apply eq_None_not_Some. intros Hn. by apply Hne; [exists n|].
Qed.

Lemma wp_pending recorded recording s :
  Delivery recorded recording s →
  wp (on_spool (pending runId (pump_cursor s) limit))
    (λ events s', s' = s ∧ batch_of recorded s events ∧
       (events = [] → ∀ n, (pump_cursor s <= n)%Z → spool_events (spool s) !! (runId, n) = None))
    (λ _ s', s' = s) s.
Proof.
  intros D. apply wp_on_spool. destruct (closed (spool s)) eqn:Hcl.
  - unfold pending, assertOpen. apply wp_bind, wp_bind, wp_get. rewrite Hcl. apply set_spool_id.
  - destruct (pending_spec _ runId (pump_cursor s) limit _ (d_spool _ _ _ D) Hcl limit_ok)
      as (events & Hp & _).
    unfold wp. rewrite Hp. split; [apply set_spool_id|]. by eapply batch_facts.
Qed.

(** ** Recording *)
Lemma fresh_number recorded s :
  Delivery recorded true s →
  spool_events (spool s) !! (runId, (Z.of_nat (length recorded) + 1)%Z) = None.
Proof.
  intros D. apply eq_None_not_Some. intros [r Hr].
  pose proof (spooled_seq _ _ _ _ _ D Hr) as Hs. pose proof (d_spooled _ _ _ D _ _ Hr) as Hin.
  destruct (recorded_seq _ _ _ _ D Hin). lia.
Qed.

Lemma delivery_recorded recorded s s' input :
  let n := (Z.of_nat (length recorded) + 1)%Z in
  let e := withHash (withEnvelope number_text input n) in
  Delivery recorded true s → input_run input = runId →
  SpoolInv hardLimitBytes (spool s') → server s' = server s → pump_cursor s' = pump_cursor s →
  nextSequenceByRun s' !! runId = Some (n + 1)%Z →
  (∀ k r, spool_events (spool s) !! k = Some r → spool_events (spool s') !! k = Some r) →
  (∀ k r, spool_events (spool s') !! k = Some r → spool_events (spool s) !! k = Some r ∨ row_event r = e) →
  in_spool e s' → Delivery (recorded ++ [e]) true s'.
Proof.
  intros n e D Hrun HI Hsrv Hcur Hnext Hkeep Honly Hin. split; rewrite ?Hsrv, ?Hcur; try apply D; try done.
  - intros i x Hi. apply lookup_app_Some in Hi as [Hi|[Hge Hi]]; [by apply D|].
    apply list_lookup_singleton_Some in Hi as [Hi <-].
    assert (Z.of_nat i + 1 = n)%Z as -> by (unfold n; lia). split_and!; [done|done|]. by exists input.
  - intros _. rewrite Hnext, length_app. cbn. unfold n. lia.
  - intros k r Hr. apply elem_of_app. destruct (Honly _ _ Hr) as [?| ->]; [|set_solver].
    left. by eapply d_spooled.
  - intros k x Hx. apply elem_of_app. left. by eapply d_stored.
  - intros x Hx. apply elem_of_app in Hx as [Hx|Hx]; [|left; set_solver].
    destruct (d_kept _ _ _ D x Hx) as [(r & Hr & Hre)|Ht]; [left; exists r; auto|right].
    unfold on_trace. by rewrite Hsrv.
Qed.

Lemma wp_record recorded s input :
  Delivery recorded true s → input_run input = runId →
  wp (record_append input)
    (λ e s', Delivery (recorded ++ [e]) true s' ∧ server s' = server s ∧
       e = withHash (withEnvelope number_text input (Z.of_nat (length recorded) + 1)))
    (λ _ s', s' = s) s.
Proof.
  intros D Hrun. unfold TraceDelivery.record_append. apply wp_bind, wp_get.
  rewrite Hrun, (d_next _ _ _ D eq_refl). set (n := (Z.of_nat (length recorded) + 1)%Z).
  apply wp_bind, wp_throw_if; [done|]. intros _. set (e := withHash (withEnvelope number_text input n)).
  assert (run_of e = runId ∧ seq_of e = n) as [He Hseq] by done.
  apply wp_bind, wp_try_catch, wp_on_spool. eapply wp_mono.
  - apply (op_append hardLimitBytes measureEventBytes now e (spool s) measure_ok (d_spool _ _ _ D)).
  - intros [] x [[HI Hkeep] (r & Hr & _ & Hnew & Honly)]. apply wp_bind, wp_modify, wp_ret.
    rewrite He, Hseq in Hr, Hnew. specialize (Hnew (fresh_number _ _ D)).
    split; [|done].
    apply (delivery_recorded recorded s); cbn; try done; [apply lookup_insert_eq|by eauto|].
    exists r. by split; [|apply Hnew].
  - intros err x ->. destruct (input_payload input) as [f|st j]; [|destruct st]; apply set_spool_id.
Qed.

(** ** Pumping *)
Lemma delivery_cursor recorded recording s n :
  Delivery recorded recording s → (n <= cursor (trace (server s)) runId)%Z →
  Delivery recorded recording (set_cursor n s).
Proof. intros [] Hn. by split. Qed.

Lemma delivery_transport recorded recording s l :
  Delivery recorded recording s → Delivery recorded recording (set_transport l s).
Proof. intros []. by split. Qed.

(** The spool drops nothing of the run but what the server has. *)
Lemma delivery_spool recorded recording s x :
  Delivery recorded recording s → SpoolInv hardLimitBytes x →
  (∀ n r, spool_events x !! (runId, n) = Some r → spool_events (spool s) !! (runId, n) = Some r) →
  (∀ n r, spool_events (spool s) !! (runId, n) = Some r →
     spool_events x !! (runId, n) = Some r ∨ (n < cursor (trace (server s)) runId)%Z) →
  Delivery recorded recording (set_spool x s).
Proof.
  intros D HI Hsub Hdrop. split; try apply D; [done| |].
  - intros n r Hr. by eapply d_spooled, Hsub.
  - intros e He. destruct (d_kept _ _ _ D e He) as [(r & Hr & Hre)|Ht]; [|by right].
    destruct (Hdrop _ _ Hr) as [Hx|Hlt]; [left; by exists r|right]. by eapply (on_trace_below _ _ s).
Qed.

Lemma wp_submit recorded recording s sid t batch :
  Delivery recorded recording s → batch_runId batch = runId → batch_events batch ≠ [] →
  ascending (batch_events batch) → batch_events batch ⊆ recorded →
  wp (submit parse_url number_text sha256 artifacts clock_now ownership sid t batch)
    (λ ack s', Delivery recorded recording s' ∧ spool s' = spool s ∧ pump_cursor s' = pump_cursor s ∧
       nextExpectedSequenceNumber ack = cursor (trace (server s')) runId)
    (λ _ s', Delivery recorded recording s') s.
Proof.
  intros D Hrun Hne Hasc Hrec.
  assert (∀ x, srv_later (server s) x → only (batch_events batch) (trace (server s)) (trace x) →
    Delivery recorded recording (set_server x s)) as Hlater.
  { intros x [HI Hg _ _] Ho. apply (delivery_server _ _ s); try done.
    - etrans; [apply D|]. by apply cursor_grows.
    - intros n e He. destruct (Ho _ _ He) as [?|?]; [by left|right; by apply Hrec]. }
  assert (wp (on_server (session_ingest sid batch))
    (λ ack s', Delivery recorded recording s' ∧ spool s' = spool s ∧ pump_cursor s' = pump_cursor s ∧
       nextExpectedSequenceNumber ack = cursor (trace (server s')) runId)
    (λ _ s', Delivery recorded recording s') s) as Hsub.
  { apply wp_on_server. eapply wp_mono; [apply wp_session_ingest; [apply D|done| |done]| |].
    - apply Forall_forall. intros e He. rewrite Hrun. eapply (recorded_seq _ _ _ e D). by apply Hrec.
    - intros ack x (Hl & Ho & _ & _ & Hn & _). rewrite Hrun in Hn. by split_and!; [apply Hlater|..].
    - intros err x [Hl Ho]. by apply Hlater. }
  destruct t; [|by apply wp_throw|..]; apply wp_bind; (eapply wp_mono; [exact Hsub| |done]);
    intros ack s' H; (apply wp_ret || apply wp_throw); [done|apply H|done].
Qed.

Lemma wp_acknowledge recorded recording s n :
  Delivery recorded recording s → (n <= cursor (trace (server s)) runId)%Z →
  wp (on_spool (acknowledge runId n))
    (λ _ s', Delivery recorded recording s' ∧ server s' = server s ∧ pump_cursor s' = pump_cursor s)
    (λ _ s', Delivery recorded recording s') s.
Proof.
  intros D Hn. apply wp_on_spool. eapply wp_mono; [by apply op_acknowledge, D| |].
  - intros _ x [[HI Hkeep] Honly]. split; [|done]. apply delivery_spool; [done|done| |].
    + intros m r Hr. by apply Honly.
    + intros m r Hr. destruct (decide (m < n)%Z) as [Hlt|Hge]; [right; lia|left].
      apply Hkeep; [done|]. cbn. tauto.
  - intros e x ->. by rewrite set_spool_id.
Qed.

Lemma wp_next_transport recorded recording s :
  Delivery recorded recording s →
  wp (next_transport) (λ _ s', ∃ l, s' = set_transport l s) (λ _ _, False) s.
Proof.
  intros D. unfold wp, next_transport. destruct (transport s) as [|t l] eqn:Ht; [|by exists l].
  exists []. destruct s; cbn in Ht; by subst.
Qed.

Lemma wp_pumpOnce recorded recording sid b s :
  Delivery recorded recording s →
  wp (pumpOnce sid b) (λ _ s', Delivery recorded recording s') (λ _ s', Delivery recorded recording s') s.
Proof.
  intros D. unfold TraceDelivery.pumpOnce. apply wp_bind, wp_get, wp_bind.
  eapply wp_mono; [by apply (wp_pending recorded recording)| |by intros ?? ->].
  intros events s' (-> & (Hasc & Hrec & _) & _). destruct events as [|first events]; [by apply wp_ret|].
  apply wp_bind. eapply wp_mono; [by eapply wp_next_transport| |done].
  intros t s1 [l ->]. pose proof (delivery_transport _ _ _ l D) as D1. apply wp_bind.
  eapply wp_mono; [by apply (wp_submit recorded recording)| |done].
  intros ack s2 (D2 & _ & _ & Hack). apply wp_bind.
  eapply wp_mono; [apply (wp_acknowledge recorded recording); [done|lia]| |done].
  intros _ s3 (D3 & Hsrv & _). apply wp_bind.
  assert (wp (mret tt : M unit) (λ _ s', s' = s3) (λ _ s', s' = s3) s3 ∧
          wp (throw TransportFailure : M unit) (λ _ s', s' = s3) (λ _ s', s' = s3) s3) as [Hr Ht] by done.
  eapply (wp_mono _ (λ _ s', s' = s3) _ (λ _ s', s' = s3)); [by destruct t| |by intros ?? ->].
  intros _ s4 ->. apply wp_bind, wp_modify, wp_bind, wp_get.
  assert (Delivery recorded recording
    (set_cursor (Z.max (pump_cursor s3) (nextExpectedSequenceNumber ack)) s3)) as D5.
  { apply delivery_cursor; [done|]. rewrite Hsrv, Hack. pose proof (d_cursor _ _ _ D3).
    rewrite Hsrv in *. lia. }
  apply wp_bind. eapply wp_mono; [by apply (wp_pending recorded recording)| |by intros ?? ->].
  intros rest s6 (-> & _). by apply wp_ret.
Qed.

(** ** The system over time *)

(** What an observer knows: the events returned by the recorder, and whether the
    recorder that numbered them is still alive. *)
Record Observed := { recorded : list TraceEvent; recording : bool; sys : System }.

Definition observed_append (input : TraceEventInput) (o : Observed) : Observed :=
  {| recorded := match result (record_append input) (sys o) with
                 | Ok e => recorded o ++ [e] | Throw _ => recorded o end;
     recording := recording o; sys := exec (record_append input) (sys o) |}.
Definition with_sys (s : System) (o : Observed) : Observed :=
  {| recorded := recorded o; recording := recording o; sys := s |}.

(** Operations of others on the runner's spool: they neither write nor
    acknowledge the run. *)
Definition others_op (op : SpoolOp) : Prop :=
  measured op ∧
  match op with
  | OpAppend _ _ e => run_of e ≠ runId
  | OpAcknowledge id _ => id ≠ runId
  | _ => True
  end.

(** The recorder appends; the pump runs, over any transport; a batch of recorded
    events arrives at the server late or again; the runner restarts, losing the
    recorder's numbers and the pump's cursor; others use the spool; others use
    the server, short of writing to this run's trace; sessions, leases and
    contention change at will. *)
Inductive system_step : Observed → Observed → Prop :=
  | step_record input o : recording o = true → input_run input = runId →
      system_step o (observed_append input o)
  | step_pump sid b l o :
      system_step o (with_sys (exec (pumpOnce sid b) (set_transport l (sys o))) o)
  | step_late sid t batch o : batch_runId batch = runId → batch_events batch ≠ [] →
      ascending (batch_events batch) → batch_events batch ⊆ recorded o →
      system_step o (with_sys (exec (submit parse_url number_text sha256 artifacts clock_now ownership
        sid t batch) (sys o)) o)
  | step_restart o :
      system_step o {| recorded := recorded o; recording := false;
                       sys := set_next ∅ (set_cursor 1 (sys o)) |}
  | step_spool op o : others_op op →
      system_step o (with_sys (set_spool (exec (run_op sha256 hardLimitBytes op) (spool (sys o)))
        (sys o)) o)
  | step_server db o : tx_step (trace (server (sys o))) db →
      (∀ n, trace_events db !! (runId, n) = trace_events (trace (server (sys o))) !! (runId, n)) →
      system_step o (with_sys (set_server (set_trace db (server (sys o))) (sys o)) o)
  | step_world c sessions busy o :
      system_step o (with_sys (set_server {| trace := trace (server (sys o)); control := c;
        live := sessions; contention := busy |} (sys o)) o).

Definition Delivered (o : Observed) : Prop := Delivery (recorded o) (recording o) (sys o).

Lemma others_keep op recorded recording s :
  Delivery recorded recording s → others_op op →
  Delivery recorded recording (set_spool (exec (run_op sha256 hardLimitBytes op) (spool s)) s).
Proof.
  intros D [Hm Hop].
  destruct (run_op_good sha256 hardLimitBytes op (spool s) Hm (d_spool _ _ _ D)) as [HI Hkeep].
  apply delivery_spool; [done|done| |].
  - intros n r Hr. destruct op as [z now' e|id k|now' m|now' c|p|l r'| |key]; cbn [run_op] in *; try done.
    + pose proof (op_append hardLimitBytes z now' e (spool s) Hm (d_spool _ _ _ D)) as Ha.
      unfold wp, exec in *. destruct (append z now' hardLimitBytes e (spool s)) as [[u|x] s'] eqn:Heq; [|by subst].
      destruct Ha as (_ & _ & _ & _ & _ & Honly). destruct (Honly _ _ Hr) as [?|<-]; [done|].
      destruct Hop. apply (si_events _ _ HI _ _ Hr).
    + pose proof (op_acknowledge hardLimitBytes id k (spool s) (d_spool _ _ _ D)) as Ha.
      unfold wp, exec in *. destruct (acknowledge id k (spool s)) as [[u|x] s'] eqn:Heq; [|by subst].
      by apply Ha.
    + by rewrite (run_op_events sha256 hardLimitBytes (OpManifest now' m)) in Hr.
    + by rewrite (run_op_events sha256 hardLimitBytes (OpChunk now' c)) in Hr.
    + by rewrite (run_op_events sha256 hardLimitBytes (OpArtifactProgress p)) in Hr.
    + by rewrite (run_op_events sha256 hardLimitBytes OpClose) in Hr.
    + by rewrite (run_op_events sha256 hardLimitBytes (OpReopen key)) in Hr.
  - intros n r Hr. left. apply Hkeep; [done|]. destruct op; cbn; try tauto. intros [Heq _]. by apply Hop.
Qed.

Lemma system_step_delivered o o' : Delivered o → system_step o o' → Delivered o'.
Proof.
  unfold Delivered. intros D Hs. destruct Hs as [input o Hrec Hrun|sid b l o|sid t batch o Hrun Hne Ha Hin
    |o|op o Hop|db o Htx Hsame|c se bu o]; cbn [recorded recording sys with_sys observed_append] in *.
  - rewrite Hrec in *. pose proof (wp_record _ _ input D Hrun) as H. unfold wp, result, exec in *.
    destruct (record_append input (sys o)) as [[e|x] s'] eqn:Heq; [apply H|]. by subst.
  - pose proof (wp_pumpOnce _ _ sid b _ (delivery_transport _ _ _ l D)) as H. unfold wp, exec in *.
    by destruct (pumpOnce sid b _) as [[a|x] s'].
  - pose proof (wp_submit _ _ _ sid t batch D Hrun Hne Ha Hin) as H. unfold wp, exec in *.
    destruct (submit _ _ _ _ _ _ sid t batch (sys o)) as [[a|x] s']; [apply H|done].
  - assert (pump_cursor (set_cursor 1 (sys o)) <= cursor (trace (server (sys o))) runId)%Z as Hc.
    { cbn. unfold cursor. destruct (execution_runs _ !! runId) as [r|] eqn:Hr; [|done].
      apply (i_runs _ (d_server _ _ _ D) _ _ Hr). }
    destruct D. by split.
  - by apply others_keep.
  - destruct (tx_step_good _ _ Htx (d_server _ _ _ D)) as [HI Hg].
    apply (delivery_server _ _ (sys o)); try done.
    + etrans; [apply D|]. by apply cursor_grows.
    + intros n e He. left. by rewrite <- Hsame.
  - apply (delivery_server _ _ (sys o)); try done; [apply D..|by left].
Qed.

(** A run begins: nothing of it is spooled or stored, and the recorder and the
    pump are new. *)
Record Started (o : Observed) : Prop := {
  st_recorded : recorded o = [];
  st_recording : recording o = true;
  st_spool : SpoolInv hardLimitBytes (spool (sys o));
  st_server : TraceIngest.Inv (trace (server (sys o)));
  st_unspooled : ∀ n, spool_events (spool (sys o)) !! (runId, n) = None;
  st_unstored : ∀ n, trace_events (trace (server (sys o))) !! (runId, n) = None;
  st_next : nextSequenceByRun (sys o) !! runId = None;
  st_cursor : pump_cursor (sys o) = 1%Z;
}.

Lemma started_delivered o : Started o → Delivered o.
Proof.
  intros [H1 H2 H3 H4 H5 H6 H7 H8]. unfold Delivered. rewrite H1, H2. split; try done.
  - by rewrite H7.
  - intros n r. by rewrite H5.
  - intros n e. by rewrite H6.
  - intros e He. by apply elem_of_nil in He.
  - rewrite H8. unfold cursor. destruct (execution_runs _ !! runId) as [r|] eqn:Hr; [|done].
    apply (i_runs _ H4 _ _ Hr).
Qed.

Lemma reachable_delivered o o' : Started o → rtc system_step o o' → Delivered o'.
Proof.
  intros Hs. apply rtc_invariant; [by apply started_delivered|]. by intros; eapply system_step_delivered.
Qed.

(** C30: no recorded event is ever lost.  From the start of a run, whatever the
    recorder, the pump, the network, restarts of the runner and the other users
    of the spool and of the server do, short of others writing to this run's
    trace: the recorder has numbered its events 1, 2, 3, ..; each of them is
    still in the spool or on the server, unchanged; and the server's trace of the
    run is exactly the events recorded up to its cursor, in their order. *)
Theorem trace_never_lost o o' :
  Started o → rtc system_step o o' →
  (∀ i e, recorded o' !! i = Some e → run_of e = runId ∧ seq_of e = (Z.of_nat i + 1)%Z) ∧
  (∀ e, e ∈ recorded o' → in_spool e (sys o') ∨ on_trace e (sys o')) ∧
  (∀ n e, trace_events (trace (server (sys o'))) !! (runId, n) = Some e ↔
     (1 <= n < cursor (trace (server (sys o'))) runId)%Z ∧ recorded o' !! Z.to_nat (n - 1) = Some e).
Proof.
  intros Hs Hr. pose proof (reachable_delivered _ _ Hs Hr) as D. split_and!.
  - intros i e Hi. destruct (d_numbered _ _ _ D i e Hi) as (? & ? & _). done.
  - apply D.
  - intros n e. rewrite <- (i_contiguous _ (d_server _ _ _ D)). split.
    + intros He. split; [by exists e|]. pose proof (stored_seq _ _ _ _ _ D He) as Hseq.
      pose proof (d_stored _ _ _ D _ _ He) as Hin. apply list_elem_of_lookup_1 in Hin as [i Hi].
      destruct (d_numbered _ _ _ D i e Hi) as (_ & Hn & _).
      by replace (Z.to_nat (n - 1)) with i by lia.
    + intros [[x Hx] Hi]. rewrite Hx. f_equal.
      pose proof (i_contiguous _ (d_server _ _ _ D) runId n) as [Hc _]. specialize (Hc (mk_is_Some _ _ Hx)).
      apply (recorded_inj _ _ _ x e D); [by eapply d_stored|by eapply list_elem_of_lookup_2|].
      rewrite (stored_seq _ _ _ _ _ D Hx). destruct (d_numbered _ _ _ D _ _ Hi) as (_ & -> & _). lia.
Qed.

(** ** Draining *)
Hypothesis number_text_inj : ∀ m n, (1 <= m <= max_safe_integer)%Z → (1 <= n <= max_safe_integer)%Z →
  number_text (num_of_Z m) = number_text (num_of_Z n) → m = n.

(** The server can take the run: it is not busy, the run exists and owns the
    session, its artifacts are acknowledged, its findings belong to known runs,
    and its message ids and idempotency keys are its own. *)
Record Takes (events : list TraceEvent) (sid : string) (x : Server) : Prop := {
  tk_contention : contention x = [];
  tk_session : ∃ session, live x !! sid = Some session ∧
    (ownership = true → ∃ u,
       result (authorizeTraceUpload parse_url number_text sha256 (live_runnerId session) runId) x = Ok u);
  tk_run : is_Some (execution_runs (trace x) !! runId);
  tk_artifacts : ∀ e acknowledgedArtifactIds, e ∈ events → artifacts = Some acknowledgedArtifactIds →
    artifactRefs (body e) ⊆ acknowledgedArtifactIds runId (artifactRefs (body e));
  tk_findings : ∀ e f, e ∈ events → payload (body e) = p_finding f →
    is_Some (execution_runs (trace x) !! ExecutionRuntime.finding_runId f);
  tk_keys : ∀ k x' e, trace_events (trace x) !! k = Some x' → k.1 ≠ runId → e ∈ events →
    idempotencyKey (body x') ≠ idempotencyKey (body e) ∧ messageId (body x') ≠ messageId (body e);
  tk_length : (Z.of_nat (length events) <= max_safe_integer)%Z;
}.

(** Whatever happens to the server but others' work leaves it ready. *)
Lemma takes_later events sid x x' :
  Takes events sid x → srv_later x x' → contention x' = [] →
  (∀ k e, k.1 ≠ runId → trace_events (trace x') !! k = Some e → trace_events (trace x) !! k = Some e) →
  Takes events sid x'.
Proof.
  intros [T1 (se & Hl & Ha) T3 T4 T5 T6 T7] [HI Hg Hc Hlive] Hbusy Hother.
  assert (∀ id, is_Some (execution_runs (trace x) !! id) → is_Some (execution_runs (trace x') !! id)) as Hruns.
  { intros id [r Hr]. destruct (g_runs _ _ Hg _ _ Hr) as (r' & Hr' & _). by exists r'. }
  split; [done| |by apply Hruns|done| | |done].
  - exists se. rewrite Hlive. split; [done|]. intros Ho. destruct (Ha Ho) as [u Hu]. exists u.
    unfold result, authorizeTraceUpload, mbind, js_bind, get in *. rewrite Hc.
    destruct (LeaseSafety.solo _ _ _ _ _ _) as [[v|[[]|]] st]; done.
  - intros e f He Hf. apply Hruns. by eapply T5.
  - intros k e' e He' Hk. apply (T6 k); [|done]. by apply Hother.
Qed.

Lemma recorded_fresh recorded recording s sid k x e :
  Delivery recorded recording s → Takes recorded sid (server s) → e ∈ recorded →
  seq_of e = cursor (trace (server s)) runId → trace_events (trace (server s)) !! k = Some x →
  idempotencyKey (body x) ≠ idempotencyKey (body e) ∧ messageId (body x) ≠ messageId (body e).
Proof.
  intros D T He Hseq Hx. destruct k as [id n]. destruct (decide (id = runId)) as [->|Hid].
  2:{ by apply (tk_keys _ _ _ T (id, n)). }
  pose proof (d_stored _ _ _ D _ _ Hx) as Hin. pose proof (stored_seq _ _ _ _ _ D Hx) as Hn.
  pose proof (proj1 (i_contiguous _ (d_server _ _ _ D) runId n) (mk_is_Some _ _ Hx)) as Hlt.
  destruct (recorded_seq _ _ _ _ D He) as [Hr _], (recorded_seq _ _ _ _ D Hin) as [Hr' _].
  pose proof (tk_length _ _ _ T) as Hmax.
  apply list_elem_of_lookup_1 in He as [i Hi], Hin as [j Hj].
  destruct (d_numbered _ _ _ D _ _ Hi) as (_ & Hs & input & -> & Hrun).
  destruct (d_numbered _ _ _ D _ _ Hj) as (_ & Hs' & input' & -> & Hrun').
  cbn [body TraceDelivery.withHash withEnvelope idempotencyKey messageId]. rewrite Hrun, Hrun'.
  assert (runId +:+ ":" +:+ number_text (num_of_Z (Z.of_nat j + 1)) ≠
          runId +:+ ":" +:+ number_text (num_of_Z (Z.of_nat i + 1))); [|done].
  intros Heq%(inj _)%(inj _). apply number_text_inj in Heq; lia.
Qed.

Lemma recorded_hash recorded recording s e :
  Delivery recorded recording s → e ∈ recorded →
  payloadHash e = canonicalTraceEventHash number_text sha256 (body e).
Proof.
  intros D He. apply list_elem_of_lookup_1 in He as [i Hi].
  by destruct (d_numbered _ _ _ D _ _ Hi) as (_ & _ & input & -> & _).
Qed.

Notation ingest := (ingest number_text sha256 artifacts).
Notation ingestFinding := (ingestFinding number_text sha256 clock_now).
Notation ingest_events := (ingest_events number_text sha256 artifacts clock_now).

(** A transaction that cannot fail, on an idle database, succeeds. *)
Lemma wp_idle {A} (m : js Db TraceError A) (Q : A → Db → Prop) a x :
  contention x = [] → TraceIngest.Inv (trace x) → (m (trace x)).1 = Ok a →
  wp m (λ a db', TraceIngest.Inv db' ∧ grows (trace x) db' ∧ Q a db') (λ _ db', db' = trace x) (trace x) →
  wp (withImmediateTransaction m)
    (λ b x', b = a ∧ srv_later x x' ∧ contention x' = [] ∧ Q a (trace x')) (λ _ _, False) x.
Proof.
  intros Hc HI Ha H. unfold wp, withImmediateTransaction, transaction in *. rewrite Hc.
  cbn [trace set_contention]. destruct (m (trace x)) as [[b|e] db']; [|done]. cbn in Ha.
  injection Ha as ->. destruct H as (? & ? & ?). by split_and!.
Qed.

Lemma wp_ingest_next recorded recording s sid e x :
  Delivery recorded recording (set_server x s) → Takes recorded sid x → e ∈ recorded →
  (seq_of e <= cursor (trace x) runId)%Z →
  wp (ingest e) (λ r x', srv_later x x' ∧ contention x' = [] ∧ append_post e (trace x) r (trace x') ∧
      match r with accepted _ | duplicate _ => True | _ => False end) (λ _ _, False) x.
Proof.
  intros D T He Hle. destruct (recorded_seq _ _ _ _ D He) as [_ Hr]. unfold run_of, seq_of in *.
  pose proof (d_server _ _ _ D) as HI. cbn in HI.
  unfold TraceIngest.ingest. rewrite (recorded_hash _ _ _ _ D He), String.eqb_refl. cbn [negb].
  rewrite bool_decide_eq_false_2.
  2:{ intros Hm. apply Hm. destruct artifacts as [acks|] eqn:Ha; [|done].
      apply elem_of_nil_inv. intros id Hid. apply list_elem_of_filter in Hid as [Hno Hin].
      apply Hno. rewrite Hr. by apply (tk_artifacts _ _ _ T e). }
  assert (∀ a, (appendTraceEvent_tx e (trace x)).1 = Ok a →
    match a with accepted _ | duplicate _ => True | _ => False end →
    wp (appendTraceEvent e) (λ r x', srv_later x x' ∧ contention x' = [] ∧
      append_post e (trace x) r (trace x') ∧
      match r with accepted _ | duplicate _ => True | _ => False end) (λ _ _, False) x) as Hgo.
  { intros a Ha Hok. eapply wp_mono; [apply (wp_idle _ (append_post e (trace x)) a)| |done].
    - apply T.
    - done.
    - done.
    - eapply wp_mono; [by apply wp_append| |done]. intros r db' Hp. pose proof Hp as (? & ? & _). done.
    - intros r x' (-> & ? & ? & ?). done. }
  destruct (decide (seq_of e < cursor (trace x) runId)%Z) as [Hlt|Hge].
  - pose proof (on_trace_below _ _ _ _ D He Hlt) as Hst. unfold on_trace in Hst. cbn in Hst.
    eapply Hgo; [apply append_duplicates; by rewrite Hr|done].
  - assert (seq_of e = cursor (trace x) runId) as Hseq by (unfold seq_of in *; lia).
    eapply Hgo; [apply append_accepts; [rewrite Hr; apply T|done|by rewrite Hr|]|done].
    intros k x' Hx. by eapply (recorded_fresh _ _ _ sid k x' e D).
Qed.

Lemma wp_finding_next recorded sid e x :
  Takes recorded sid x → TraceIngest.Inv (trace x) → e ∈ recorded →
  wp (match payload (body e) with
      | p_finding f => _ ← ingestFinding f; mret tt
      | p_stage _ _ => mret tt
      end) (λ _ x', srv_later x x' ∧ contention x' = [] ∧ trace_events (trace x') = trace_events (trace x) ∧
      execution_runs (trace x') = execution_runs (trace x)) (λ _ _, False) x.
Proof.
  intros T HI He. destruct (payload (body e)) as [f|st j] eqn:Hp.
  2:{ apply wp_ret. split; [by apply srv_refl|]. split; [apply T|done]. }
  apply wp_bind. destruct (appendFinding_ok clock_now f
    (RunnerControl.canonicalPayloadHash number_text sha256 (RunnerControl.encode_finding f)) (trace x))
    as [r Hr]; [by eapply tk_findings|].
  eapply wp_mono; [apply (wp_idle _ (λ _ db', trace_events db' = trace_events (trace x) ∧
    execution_runs db' = execution_runs (trace x)) r); [apply T|done|done|]| |done].
  - eapply wp_mono; [by apply wp_appendFinding|done|done].
  - intros b x' (_ & ? & ? & ? & ?). by apply wp_ret.
Qed.

(** Sequence numbers from the cursor on are all there. *)
Definition gapless (events : list TraceEvent) (n : Z) : Prop :=
  ∀ e m, e ∈ events → (n <= m < seq_of e)%Z → m ∈ seq_of <$> events.

Lemma ascending_cons e events : ascending (e :: events) →
  ascending events ∧ (1 <= seq_of e)%Z ∧ ∀ x, x ∈ events → (seq_of e < seq_of x)%Z.
Proof.
  intros [Hs Hp]. cbn in Hs. apply StronglySorted_inv in Hs as [Hs Hall]. inversion Hp; subst.
  split; [done|]. split; [done|]. intros x Hx. rewrite Forall_fmap, Forall_forall in Hall. by apply Hall.
Qed.

Lemma gapless_head e events n : ascending (e :: events) → gapless (e :: events) n → (seq_of e <= n)%Z.
Proof.
  intros Ha Hg. destruct (ascending_cons _ _ Ha) as (_ & _ & Hlt). apply Z.nlt_ge. intros Hn.
  assert (n ∈ seq_of <$> (e :: events)) as Hin by (apply (Hg e); [set_solver|lia]).
  cbn in Hin. apply elem_of_cons in Hin as [->|Hin]; [lia|].
  apply list_elem_of_fmap in Hin as (x & -> & Hx). specialize (Hlt x Hx). lia.
Qed.

Lemma gapless_tail e events n m :
  ascending (e :: events) → gapless (e :: events) n → (n <= m)%Z → (seq_of e < m)%Z → gapless events m.
Proof.
  intros Ha Hg Hm He x k Hx Hk.
  assert (k ∈ seq_of <$> (e :: events)) as Hin by (apply (Hg x); [set_solver|lia]).
  cbn in Hin. apply elem_of_cons in Hin as [->|Hin]; [lia|done].
Qed.

Lemma ingest_later recorded recording s sid x x' :
  Delivery recorded recording (set_server x s) → Takes recorded sid x →
  srv_later x x' → contention x' = [] → only recorded (trace x) (trace x') →
  Delivery recorded recording (set_server x' s) ∧ Takes recorded sid x' ∧
  (cursor (trace x) runId <= cursor (trace x') runId)%Z.
Proof.
  intros D T Hl Hc Ho. pose proof (cursor_grows _ _ runId (sl_grows _ _ Hl) (sl_inv _ _ Hl)) as Hle.
  split_and!; [| |done].
  - apply (delivery_server _ _ (set_server x s)); try done; cbn; [|apply Hl..|].
    + etrans; [apply (d_cursor _ _ _ D)|done].
    + intros n e He. by apply (Ho _ _ He).
  - apply (takes_later _ _ x); try done. intros k e Hk He. destruct (Ho _ _ He) as [?|Hin]; [done|].
    destruct Hk. destruct (i_events _ (sl_inv _ _ Hl) _ _ He) as [<- _].
    apply (recorded_seq _ _ _ _ D Hin).
Qed.

Lemma only_weaken l l' db db' : only l db db' → l ⊆ l' → only l' db db'.
Proof. intros H Hs k e He. destruct (H k e He) as [?|?]; [by left|right; by apply Hs]. Qed.

(** One event of the loop: the rest starts from a state as good. *)
Lemma ingest_all_cons recorded recording s sid e events x x1 m :
  Delivery recorded recording (set_server x1 s) → Takes recorded sid x1 →
  (cursor (trace x) runId <= cursor (trace x1) runId)%Z → (seq_of e < cursor (trace x1) runId)%Z →
  m = cursor (trace x1) runId →
  (wp (ingest_events events m)
    (λ v x', Delivery recorded recording (set_server x' s) ∧ Takes recorded sid x' ∧
       (events ≠ [] → v = inr (cursor (trace x') runId)) ∧
       (events = [] → v = inr m ∧ x' = x1) ∧
       (cursor (trace x1) runId <= cursor (trace x') runId)%Z ∧
       ∀ e, e ∈ events → (seq_of e < cursor (trace x') runId)%Z)
    (λ _ _, False) x1) →
  wp (ingest_events events m)
    (λ v x', Delivery recorded recording (set_server x' s) ∧ Takes recorded sid x' ∧
       v = inr (cursor (trace x') runId) ∧
       (cursor (trace x) runId <= cursor (trace x') runId)%Z ∧
       ∀ e', e' ∈ e :: events → (seq_of e' < cursor (trace x') runId)%Z)
    (λ _ _, False) x1.
Proof.
  intros D T Hle Hlt -> H. eapply wp_mono; [exact H| |done].
  intros v x' (D' & T' & Hv & Hnil & Hle' & Hall). split_and!; [done|done| |lia|].
  - destruct events; [by destruct Hnil as [-> ->]|by apply Hv].
  - intros e' [->|He']%elem_of_cons; [lia|by apply Hall].
Qed.

Lemma wp_ingest_all recorded recording s sid events next x :
  Delivery recorded recording (set_server x s) → Takes recorded sid x → events ⊆ recorded →
  ascending events → gapless events (cursor (trace x) runId) →
  wp (ingest_events events next)
    (λ v x', Delivery recorded recording (set_server x' s) ∧ Takes recorded sid x' ∧
       (events ≠ [] → v = inr (cursor (trace x') runId)) ∧ (events = [] → v = inr next ∧ x' = x) ∧
       (cursor (trace x) runId <= cursor (trace x') runId)%Z ∧
       ∀ e, e ∈ events → (seq_of e < cursor (trace x') runId)%Z)
    (λ _ _, False) x.
Proof.
  revert next x. induction events as [|e events IH]; intros next x D T Hsub Ha Hg.
  { apply wp_ret. split_and!; try done. intros e He. by apply elem_of_nil in He. }
  assert (e ∈ recorded) as He by set_solver. assert (events ⊆ recorded) as Hsub' by set_solver.
  pose proof (gapless_head _ _ _ Ha Hg) as Hle. destruct (ascending_cons _ _ Ha) as (Ha' & _ & _).
  destruct (recorded_seq _ _ _ _ D He) as [_ Hr]. pose proof (d_server _ _ _ D) as HI.
  apply (wp_mono _ (λ v x', Delivery recorded recording (set_server x' s) ∧ Takes recorded sid x' ∧
       v = inr (cursor (trace x') runId) ∧
       (cursor (trace x) runId <= cursor (trace x') runId)%Z ∧
       ∀ e', e' ∈ e :: events → (seq_of e' < cursor (trace x') runId)%Z) _ (λ _ _, False)).
  2:{ intros v x' (? & ? & ? & ? & ?). by split_and!. }
  2:{ done. }
  cbn [TraceIngest.ingest_events]. apply wp_bind.
  eapply wp_mono; [by eapply wp_ingest_next| |done]. intros r x1 (Hl & Hc & Hp & Hok).
  pose proof (only_weaken _ recorded _ _ (only_append _ _ _ _ Hp) ltac:(set_solver)) as Ho.
  destruct (ingest_later _ _ s sid x x1 D T Hl Hc Ho) as (D1 & T1 & Hle1). unfold run_of in Hr.
  destruct r as [n|n|n|d c|h|missing]; try done; destruct Hp as (_ & _ & Hp); rewrite Hr in Hp.
  - destruct Hp as (Hn & Hcur & _). apply wp_bind.
    eapply wp_mono; [by eapply wp_finding_next; [exact T1|apply Hl|]| |done].
    intros _ x2 (Hl2 & Hc2 & He2 & Hr2).
    destruct (ingest_later _ _ s sid x1 x2 D1 T1 Hl2 Hc2 (only_same _ _ _ He2)) as (D2 & T2 & Hle2).
    assert (cursor (trace x2) runId = n) as Hn2 by (unfold cursor in *; by rewrite Hr2).
    assert (seq_of e < cursor (trace x2) runId)%Z as Hlt by (unfold seq_of; lia).
    apply (ingest_all_cons recorded recording s sid e events x x2); [done|done|lia|done|done|].
    apply IH; [done..|]. eapply gapless_tail; [done|done|lia|done].
  - destruct Hp as (Heq & -> & x' & _ & Hx').
    assert (seq_of e < cursor (trace x) runId)%Z as Hlt.
    { apply (i_contiguous _ HI). by exists x'. }
    assert (cursor (trace x1) runId = cursor (trace x) runId) as Hc1 by by rewrite Heq.
    apply (ingest_all_cons recorded recording s sid e events x x1); [done|done|done|lia|done|].
    apply IH; [done..|]. eapply gapless_tail; [done|done|lia|lia].
Qed.

Lemma wp_session_takes recorded recording s sid batch x :
  Delivery recorded recording (set_server x s) → Takes recorded sid x →
  batch_runId batch = runId → batch_events batch ≠ [] → batch_events batch ⊆ recorded →
  ascending (batch_events batch) → gapless (batch_events batch) (cursor (trace x) runId) →
  wp (session_ingest sid batch)
    (λ ack x', Delivery recorded recording (set_server x' s) ∧ Takes recorded sid x' ∧
       nextExpectedSequenceNumber ack = cursor (trace x') runId ∧
       ∀ e, e ∈ batch_events batch → (seq_of e < cursor (trace x') runId)%Z)
    (λ _ _, False) x.
Proof.
  intros D T Hrun Hne Hsub Ha Hg. unfold TraceIngest.session_ingest. apply wp_bind, wp_get.
  destruct (tk_session _ _ _ T) as (se & -> & Hauth). apply wp_bind. rewrite Hrun.
  apply (wp_mono _ (λ _ x', x' = x) _ (λ _ _, False)); [|intros [] ? ->|done].
  - destruct ownership; [|by apply wp_ret]. destruct (Hauth eq_refl) as [u Hu].
    pose proof (wp_authorize parse_url number_text sha256 (live_runnerId se) runId x (d_server _ _ _ D)) as H.
    unfold wp, result in *. by destruct (authorizeTraceUpload _ _ _ _ _ x) as [[v|e] x'].
  - apply wp_bind. eapply wp_mono; [by eapply wp_ingest_all| |done].
    intros v x' (D' & T' & Hv & _ & _ & Hall). apply wp_ret. by rewrite Hv.
Qed.

(** Nothing stands in the way of the pump. *)
Record Clear (recorded : list TraceEvent) (recording : bool) (sid : string) (s : System) : Prop := {
  cl_delivery : Delivery recorded recording s;
  cl_takes : Takes recorded sid (server s);
  cl_open : closed (spool s) = false;
  cl_transport : transport s = [];
}.

Definition nothing_pending (s : System) : Prop :=
  ∀ n, (pump_cursor s <= n)%Z → spool_events (spool s) !! (runId, n) = None.

Lemma wp_pending_clear recorded recording sid s :
  Clear recorded recording sid s →
  wp (on_spool (pending runId (pump_cursor s) limit))
    (λ events s', s' = s ∧ batch_of recorded s events ∧ (events = [] → nothing_pending s))
    (λ _ _, False) s.
Proof.
  intros [D _ Hop _]. apply wp_on_spool.
  destruct (pending_spec _ runId (pump_cursor s) limit _ (d_spool _ _ _ D) Hop limit_ok)
    as (events & Hp & _).
  unfold wp. rewrite Hp. split; [apply set_spool_id|]. by eapply batch_facts.
Qed.

Lemma batch_gapless recorded recording s events :
  Delivery recorded recording s → batch_of recorded s events →
  gapless events (cursor (trace (server s)) runId).
Proof.
  intros D (_ & Hsub & _ & Hskip) e m He Hm. destruct (recorded_seq _ _ _ e D) as [Hs _]; [by apply Hsub|].
  pose proof (d_cursor _ _ _ D) as Hc.
  assert (1 <= cursor (trace (server s)) runId)%Z as H1.
  { unfold cursor. destruct (execution_runs _ !! runId) as [r|] eqn:Hr; [|done].
    apply (i_runs _ (d_server _ _ _ D) _ _ Hr). }
  destruct (lookup_lt_is_Some_2 recorded (Z.to_nat (m - 1))) as [x Hx]; [lia|].
  destruct (d_numbered _ _ _ D _ _ Hx) as (_ & Hxs & _).
  destruct (not_stored_spooled recorded recording s x D) as (r & Hr & _);
    [by eapply list_elem_of_lookup_2|lia|].
  apply (Hskip e); [done|lia|]. exists r. rewrite <- Hr. do 2 f_equal. lia.
Qed.

Lemma wp_acknowledge_clear recorded recording sid s n e :
  Clear recorded recording sid s → (n <= cursor (trace (server s)) runId)%Z →
  in_spool e s → (seq_of e < n)%Z →
  wp (on_spool (acknowledge runId n))
    (λ _ s', Clear recorded recording sid s' ∧ pump_cursor s' = pump_cursor s ∧ server s' = server s ∧
       (size (spool_events (spool s')) < size (spool_events (spool s)))%nat)
    (λ _ _, False) s.
Proof.
  intros [D T Hop Ht] Hn (r & Hr & _) Hlt.
  pose proof (wp_acknowledge recorded recording s n D Hn) as H. unfold wp in *.
  unfold on_spool, acknowledge, assertOpen, mbind, js_bind, get, throw_if in *. rewrite Hop in *.
  cbn in *. destruct H as (D' & _ & _). split; [by split|]. split; [done|]. split; [done|].
  apply map_subset_size, map_subset_alt. split; [apply map_filter_subseteq|].
  exists (runId, seq_of e). split; [|by rewrite Hr].
  apply map_lookup_filter_None. right. intros r' _. cbn. intros Hno. by apply Hno.
Qed.

Lemma wp_pump_clear recorded recording sid b s :
  Clear recorded recording sid s →
  wp (pumpOnce sid b)
    (λ '(_, done) s', Clear recorded recording sid s' ∧
       if done : bool then nothing_pending s'
       else (size (spool_events (spool s')) < size (spool_events (spool s)))%nat)
    (λ _ _, False) s.
Proof.
  intros C. unfold TraceDelivery.pumpOnce. apply wp_bind, wp_get, wp_bind.
  eapply wp_mono; [by apply (wp_pending_clear recorded recording sid)| |done].
  intros events s' (-> & Hb & Hnone). destruct events as [|first events].
  { apply wp_ret. split; [done|]. by apply Hnone. }
  pose proof (batch_gapless _ _ _ _ (cl_delivery _ _ _ _ C) Hb) as Hg.
  destruct Hb as (Ha & Hsub & Hin & _).
  apply wp_bind. unfold wp at 1, next_transport. rewrite (cl_transport _ _ _ _ C).
  apply wp_bind. unfold submit. apply wp_bind, wp_on_server.
  eapply wp_mono; [apply (wp_session_takes recorded recording s sid); rewrite ?set_server_id; by try apply C| |done].
  intros ack x (D' & T' & Hack & Hall). apply wp_ret. apply wp_bind.
  set (s1 := set_server x s).
  assert (Clear recorded recording sid s1) as C1 by (split; [done|done|apply C|apply C]).
  assert (in_spool first s1) as Hf by (apply Hin; apply elem_of_cons; by left).
  eapply wp_mono; [apply (wp_acknowledge_clear recorded recording sid s1 _ first C1)| |done].
  { by rewrite Hack. }
  { done. }
  { rewrite Hack. apply Hall, elem_of_cons. by left. }
  intros _ s2 (C2 & Hcur & Hsrv & Hsize). apply wp_bind, wp_ret, wp_bind, wp_modify, wp_bind, wp_get.
  assert (Clear recorded recording sid
    (set_cursor (Z.max (pump_cursor s2) (nextExpectedSequenceNumber ack)) s2)) as C3.
  { split; [|apply C2..]. apply delivery_cursor; [apply C2|].
    pose proof (d_cursor _ _ _ (cl_delivery _ _ _ _ C2)). rewrite Hsrv in *. cbn in *. lia. }
  apply wp_bind. eapply wp_mono; [by apply (wp_pending_clear recorded recording sid)| |done].
  intros rest s3 (-> & _ & Hnone3). apply wp_ret. split; [done|].
  case_bool_decide as Hlen; [|done]. apply Hnone3. by destruct rest.
Qed.

Lemma nothing_pending_on_trace recorded recording s e :
  Delivery recorded recording s → nothing_pending s → e ∈ recorded → on_trace e s.
Proof.
  intros D Hno He. destruct (d_kept _ _ _ D e He) as [(r & Hr & _)|]; [|done].
  apply (on_trace_below _ _ _ _ D He). pose proof (d_cursor _ _ _ D).
  destruct (decide (pump_cursor s <= seq_of e)%Z) as [Hle|]; [|lia].
  by rewrite (Hno _ Hle) in Hr.
Qed.

Lemma wp_drain recorded recording sid b fuel s :
  Clear recorded recording sid s → (size (spool_events (spool s)) < fuel)%nat →
  wp (drain sid b fuel)
    (λ r s', r = Some tt ∧ Clear recorded recording sid s' ∧ ∀ e, e ∈ recorded → on_trace e s')
    (λ _ _, False) s.
Proof.
  revert s. induction fuel as [|fuel IH]; intros s C Hf; [lia|]. cbn [TraceDelivery.drain].
  apply wp_bind. eapply wp_mono; [by apply wp_pump_clear| |done].
  intros [n done] s' [C' Hd]. destruct done.
  - apply wp_ret. split_and!; [done|done|]. intros e He.
    eapply nothing_pending_on_trace; [apply C'|done|done].
  - apply IH; [done|lia].
Qed.

(** C31: draining ends, and delivers everything.  From any state the system can
    reach, however often submissions, answers or the runner were lost before:
    once the network is back, the spool is open and the server takes the run's
    events, [drain] terminates within one round per spooled event and one more,
    without an error, and every recorded event is on the server unchanged. *)
Theorem drain_delivers o o' sid b :
  Started o → rtc system_step o o' →
  closed (spool (sys o')) = false → transport (sys o') = [] →
  Takes (recorded o') sid (server (sys o')) →
  ∃ s', drain sid b (S (size (spool_events (spool (sys o'))))) (sys o') = (Ok (Some tt), s') ∧
    ∀ e, e ∈ recorded o' → on_trace e s'.
Proof.
  intros Hs Hr Hop Ht T. pose proof (reachable_delivered _ _ Hs Hr) as D.
  pose proof (wp_drain (recorded o') (recording o') sid b (S (size (spool_events (spool (sys o')))))
    (sys o') ltac:(by split) ltac:(lia)) as H.
  unfold wp in H. destruct (drain sid b _ (sys o')) as [[r|e] s']; [|done].
  destruct H as (-> & _ & Hall). by exists s'.
Qed.
End run.

(** ** Witnesses *)
Definition demo_text (n : number) : string :=
  match integer_of n with Some z => pretty z | None => "NaN" end.

Lemma demo_text_inj m n :
  (1 <= m <= max_safe_integer)%Z → (1 <= n <= max_safe_integer)%Z →
  demo_text (num_of_Z m) = demo_text (num_of_Z n) → m = n.
Proof. intros _ _. unfold demo_text. rewrite !integer_of_Z. apply (inj pretty). Qed.

Definition demo_input : TraceEventInput :=
  {| input_run := "run"; input_stepIndex := None; input_payload := p_stage decision (JStr "go") |}.

Definition demo_sys : System :=
  {| spool := empty_spool; nextSequenceByRun := ∅; pump_cursor := 1; server := demo_server [];
     transport := [] |}.
Definition demo_start : Observed := {| recorded := []; recording := true; sys := demo_sys |}.

Lemma demo_started : Started 100 "run" demo_start.
Proof.
  split; try reflexivity.
  - exact empty_spool_inv.
  - exact (demo_runs_inv []).
Qed.

Notation demo_append_step := (observed_append demo_text LeaseSafety.demo_hash (λ _, true) (λ _, 40%Z) "2026" 100).
Notation demo_step := (system_step RunnerProtocol.demo_url demo_text LeaseSafety.demo_hash None "2026" true
  (λ _, true) (λ _, 40%Z) "2026" 100 "run" demo_limit).

Lemma demo_reach : rtc demo_step demo_start (demo_append_step demo_input demo_start).
Proof. apply rtc_once, step_record; reflexivity. Qed.

Lemma demo_recorded :
  recorded (demo_append_step demo_input demo_start) =
    [withHash demo_text LeaseSafety.demo_hash (withEnvelope demo_text demo_input 1)].
Proof. vm_compute. reflexivity. Qed.

Definition demo_first : TraceEvent := withHash demo_text LeaseSafety.demo_hash (withEnvelope demo_text demo_input 1).

Lemma trace_never_lost_witness :
  in_spool "run" demo_first (sys (demo_append_step demo_input demo_start)) ∨
  on_trace "run" demo_first (sys (demo_append_step demo_input demo_start)).
Proof.
  destruct (trace_never_lost RunnerProtocol.demo_url demo_text LeaseSafety.demo_hash None "2026" true
    (λ _, true) (λ _, 40%Z) "2026" 100 "run" demo_limit ltac:(discriminate) ltac:(discriminate)
    demo_start (demo_append_step demo_input demo_start)) as (_ & Hkept & _).
  - exact demo_started.
  - exact demo_reach.
  - apply Hkept. rewrite demo_recorded. apply list_elem_of_singleton. reflexivity.
Defined.

Lemma demo_takes :
  Takes RunnerProtocol.demo_url demo_text LeaseSafety.demo_hash None true "run"
    (recorded (demo_append_step demo_input demo_start)) "session"
    (server (sys (demo_append_step demo_input demo_start))).
Proof.
  rewrite demo_recorded. split; try done.
  - exists {| live_runnerId := "runner"; live_protocolMajor := 1 |}. split; [reflexivity|].
    intros _. exists tt. vm_compute. reflexivity.
  - intros e f He. apply list_elem_of_singleton in He as ->. done.
Qed.

Lemma drain_delivers_witness :
  ∃ s', drain RunnerProtocol.demo_url demo_text LeaseSafety.demo_hash None "2026" true "session" "run"
      demo_limit "batch" 2 (sys (demo_append_step demo_input demo_start)) = (Ok (Some tt), s') ∧
    ∀ e, e ∈ recorded (demo_append_step demo_input demo_start) → on_trace "run" e s'.
Proof.
  apply (drain_delivers RunnerProtocol.demo_url demo_text LeaseSafety.demo_hash None "2026" true
    (λ _, true) (λ _, 40%Z) "2026" 100 "run" demo_limit ltac:(discriminate) ltac:(discriminate)
    demo_text_inj demo_start (demo_append_step demo_input demo_start) "session" "batch").
  - exact demo_started.
  - exact demo_reach.
  - reflexivity.
  - reflexivity.
  - exact demo_takes.
Defined.

End TraceDelivery.
