(* ===== verification/Interact.v ===== *)
(** * Programs that call out

    An [async] method whose calls to the outside (a device, a model, a store, a
    clock) may answer anything.  [prog] is the tree of its calls; [tri] is the
    rule for reasoning about every answer, with the calls made so far as a
    history; [runs] is what one execution can do; [sched] interleaves many
    programs over a shared state, any of which may stop at any call. *)
From S2P Require Import Prelude.

Section interact.
Context {E : Type → Type} {X N : Type}.

(** ** Programs *)
Inductive prog (A : Type) : Type :=
  | Ret (a : A)
  | Fail (e : X)
  | Vis {B : Type} (e : E B) (k : B → prog A).
Arguments Ret {A} a.
Arguments Fail {A} e.
Arguments Vis {A B} e k.

#[export] Instance prog_ret : MRet prog := @Ret.
Fixpoint prog_bind_ {A B} (k : A → prog B) (p : prog A) : prog B :=
  match p with
  | Ret a => k a
  | Fail e => Fail e
  | Vis e k' => Vis e (λ b, prog_bind_ k (k' b))
  end.
#[export] Instance prog_bind : MBind prog := @prog_bind_.

Definition ask {B} (e : E B) : prog B := Vis e Ret.
(** [if (b) throw e;] *)
Definition fail_if (b : bool) (e : X) : prog unit := if b then Fail e else Ret tt.
(** A pure function that may throw. *)
Definition lift_outcome {A} (o : outcome X A) : prog A :=
  match o with Ok a => Ret a | Throw e => Fail e end.

(** ** Histories *)

(** [note e b] is what is remembered of call [e] answered by [b]; a history is
    the notes of the calls made, the latest first. *)
Context (note : ∀ B, E B → B → N).

(** [sound e b]: what the callee promises of answer [b] to call [e]. *)
Context (sound : ∀ B, E B → B → Prop).
(** [allowed h e]: call [e] may be made after history [h]. *)
Context (allowed : ∀ B, list N → E B → Prop).

(** Whatever is answered within the promise, every call made is allowed, and the
    program ends with [Q]. *)
Fixpoint tri {A} (p : prog A) (Q : outcome X A → list N → Prop) (h : list N) : Prop :=
  match p with
  | Ret a => Q (Ok a) h
  | Fail e => Q (Throw e) h
  | Vis e k => allowed _ h e ∧ ∀ b, sound _ e b → tri (k b) Q (note _ e b :: h)
  end.

Lemma tri_bind {A B} (p : prog A) (k : A → prog B) Q h :
  tri p (λ o h', match o with Ok a => tri (k a) Q h' | Throw e => Q (Throw e) h' end) h →
  tri (p ≫= k) Q h.
Proof. revert h. induction p as [a|e|? e k' IH]; cbn; [done..|]. intros h [? H]. by split; [|intros b Hb; apply IH, H]. Qed.

Lemma tri_mono {A} (p : prog A) (Q Q' : outcome X A → list N → Prop) h :
  tri p Q h → (∀ o h', Q o h' → Q' o h') → tri p Q' h.
Proof.
  intros H HQ. revert h H. induction p as [a|e|? e k' IH]; cbn; [by auto..|].
  intros h [? H]. by split; [|intros b Hb; apply IH, H].
Qed.

Lemma tri_ret {A} (a : A) Q h : Q (Ok a) h → tri (Ret a) Q h.
Proof. done. Qed.
Lemma tri_fail {A} e (Q : outcome X A → list N → Prop) h : Q (Throw e) h → tri (Fail e) Q h.
Proof. done. Qed.
Lemma tri_ask {B} (e : E B) Q h :
  allowed _ h e → (∀ b, sound _ e b → Q (Ok b) (note _ e b :: h)) → tri (ask e) Q h.
Proof. done. Qed.
Lemma tri_fail_if b e Q h :
  (b = true → Q (Throw e) h) → (b = false → Q (Ok tt) h) → tri (fail_if b e) Q h.
Proof. destruct b; cbn; auto. Qed.

(** ** One execution, up to a point *)
Inductive runs {A} : prog A → list N → prog A → list N → Prop :=
  | runs_here p h : runs p h p h
  | runs_call B (e : E B) k b h p' h' :
      sound _ e b → runs (k b) (note _ e b :: h) p' h' → runs (Vis e k) h p' h'.

Lemma runs_tri {A} (p p' : prog A) Q h h' : runs p h p' h' → tri p Q h → tri p' Q h'.
Proof. induction 1; [done|]. intros [_ H']. by apply IHruns, H'. Qed.

(** Every call an execution makes is allowed when it makes it. *)
Lemma runs_allowed {A B} (p : prog A) Q h h' (e : E B) k :
  runs p h (Vis e k) h' → tri p Q h → allowed _ h' e.
Proof. intros Hr Ht. by destruct (runs_tri _ _ _ _ _ Hr Ht). Qed.

(** The history only grows. *)
Lemma runs_history {A} (p p' : prog A) h h' : runs p h p' h' → ∃ l, h' = l ++ h.
Proof.
  induction 1 as [|B e k b h p' h' _ _ [l ->]]; [by exists []|]. exists (l ++ [note _ e b]).
  by rewrite <- app_assoc.
Qed.

(** Every note of the history is of a call that was allowed when it was made. *)
Fixpoint lawful (h : list N) : Prop :=
  match h with
  | [] => True
  | n :: h => (∃ B (e : E B) b, n = note _ e b ∧ allowed _ h e) ∧ lawful h
  end.

Lemma lawful_app h1 h2 : lawful (h1 ++ h2) → lawful h2.
Proof. induction h1 as [|n h1 IH]; [done|]. intros [_ H]. by apply IH. Qed.

Lemma runs_lawful {A} (p p' : prog A) Q h h' : runs p h p' h' → tri p Q h → lawful h → lawful h'.
Proof.
  induction 1 as [|B e k b h p' h' Hs _ IH]; [done|]. intros [Ha Ht] Hl. apply IH; [by apply Ht|].
  split; [|done]. by exists B, e, b.
Qed.

(** ** Many programs over a shared state *)
Context {S A : Type}.
(** [answers e s b s']: in shared state [s], call [e] may be answered [b] and
    leave [s']. *)
Context (answers : ∀ B, E B → S → B → S → Prop).

(** [midway e s s']: a call in progress may take the shared state from [s] to [s']
    before it is answered, as a call of several statements does. *)
Context (midway : ∀ B, E B → S → S → Prop).

(** A process: its program and its history.  A process that crashed is one that
    is never scheduled again. *)
Definition process : Type := prog A * list N.
Record sched_state : Type := { shared : S; processes : list process }.

(** The programs that may be started. *)
Context (startable : prog A → Prop).

Inductive sched : sched_state → sched_state → Prop :=
  | sched_start p s l : startable p →
      sched {| shared := s; processes := l |} {| shared := s; processes := l ++ [(p, [])] |}
  | sched_midway B i (e : E B) k h s s' l :
      l !! i = Some (Vis e k, h) → midway B e s s' →
      sched {| shared := s; processes := l |} {| shared := s'; processes := l |}
  | sched_call B i (e : E B) k h b s s' l :
      l !! i = Some (Vis e k, h) → answers B e s b s' →
      sched {| shared := s; processes := l |}
        {| shared := s'; processes := <[i := (k b, note _ e b :: h)]> l |}.

(** Every process makes allowed calls only. *)
Lemma sched_tri Q st st' :
  (∀ i B (e : E B) k h b s', processes st !! i = Some (Vis e k, h) → answers B e (shared st) b s' → sound _ e b) →
  (∀ p, startable p → tri p Q []) →
  Forall (λ ph, tri ph.1 Q ph.2) (processes st) → sched st st' →
  Forall (λ ph, tri ph.1 Q ph.2) (processes st').
Proof.
  intros Hsound Hstart Hall Hs. destruct Hs as [p s l Hp|B i e k h s s' l Hi Ha|B i e k h b s s' l Hi Ha]; cbn in *; [|done|].
  - apply Forall_app. split; [done|]. constructor; [by apply Hstart|done].
  - apply Forall_insert; [done|]. rewrite Forall_lookup in Hall. apply (Hall i _ Hi).
    exact (Hsound _ _ _ _ _ _ _ Hi Ha).
Qed.

(** One process: it goes on as its rule says, and its history grows by the note of
    an allowed call that was answered. *)
Lemma sched_tri_at Q i p h st st' :
  (∀ B (e : E B) k b s', p = Vis e k → answers B e (shared st) b s' → sound _ e b) →
  processes st !! i = Some (p, h) → tri p Q h → sched st st' →
  ∃ p' h', processes st' !! i = Some (p', h') ∧ tri p' Q h' ∧
    (h' = h ∨ ∃ B (e : E B) b s', allowed _ h e ∧ answers B e (shared st) b s' ∧ h' = note _ e b :: h).
Proof.
  intros Hsound Hi Ht Hs. destruct Hs as [q s l Hq|B j e k hj s s' l Hj Hm|B j e k hj b s s' l Hj Ha]; cbn in *.
  - exists p, h. split; [|by auto]. by apply lookup_app_l_Some.
  - exists p, h. by auto.
  - destruct (decide (i = j)) as [<-|Hne].
    + rewrite Hi in Hj. injection Hj as -> ->. destruct Ht as [Hal Ht].
      exists (k b), (note _ e b :: hj). rewrite list_lookup_insert_eq by (by eapply lookup_lt_Some).
      split; [done|]. split; [by apply Ht, (Hsound _ _ _ _ _ eq_refl Ha)|]. right. by eexists _, _, _, _.
    + exists p, h. rewrite list_lookup_insert_ne by done. by auto.
Qed.

Lemma sched_lawful Q st st' :
  Forall (λ ph, tri ph.1 Q ph.2) (processes st) → Forall (λ ph, lawful ph.2) (processes st) →
  sched st st' → Forall (λ ph, lawful ph.2) (processes st').
Proof.
  intros Ht Hl Hs. destruct Hs as [p s l Hp|B i e k h s s' l Hi Ha|B i e k h b s s' l Hi Ha]; cbn in *; [|done|].
  - apply Forall_app. split; [done|]. by constructor.
  - apply Forall_insert; [done|]. rewrite Forall_lookup in Ht. rewrite Forall_lookup in Hl. split.
    + exists B, e, b. split; [done|]. by apply (Ht i (Vis e k, h)).
    + by apply (Hl i (Vis e k, h)).
Qed.

(** The history of a process only grows. *)
Lemma sched_history st st' i p h :
  processes st !! i = Some (p, h) → sched st st' → ∃ p' l, processes st' !! i = Some (p', l ++ h).
Proof.
  intros Hi Hs. destruct Hs as [q s l Hp|B j e k hj s s' l Hj Ha|B j e k hj b s s' l Hj Ha]; cbn in *.
  - exists p, []. by apply lookup_app_l_Some.
  - by exists p, [].
  - destruct (decide (i = j)) as [-> |].
    + exists (k b), [note _ e b]. rewrite list_lookup_insert_eq by (by eapply lookup_lt_Some). cbn. congruence.
    + exists p, []. by rewrite list_lookup_insert_ne.
Qed.

(** ** Stores that only grow

    What a note says of the shared state stays true when every call takes the
    state up in an order that keeps it true. *)
Section monotone.
Context (le : S → S → Prop) (holds : S → N → Prop).
Context (le_refl : ∀ s, le s s) (holds_mono : ∀ s s' n, le s s' → holds s n → holds s' n).
Context (answers_le : ∀ B (e : E B) s b s', answers B e s b s' → le s s').
Context (midway_le : ∀ B (e : E B) s s', midway B e s s' → le s s').
Lemma sched_le st st' : sched st st' → le (shared st) (shared st').
Proof. intros []; cbn; eauto. Qed.

(** It is enough that the note of the call that is answered holds. *)
Lemma sched_holds_at st st' :
  (∀ i B (e : E B) k h b s', processes st !! i = Some (Vis e k, h) → answers B e (shared st) b s' → holds s' (note _ e b)) →
  Forall (λ ph, Forall (holds (shared st)) ph.2) (processes st) → sched st st' →
  Forall (λ ph, Forall (holds (shared st')) ph.2) (processes st').
Proof.
  intros Hnote Hall Hs. pose proof (sched_le _ _ Hs) as Hle.
  assert (Forall (λ ph, Forall (holds (shared st')) ph.2) (processes st)) as Hold.
  { eapply Forall_impl; [exact Hall|]. intros ph H. eapply Forall_impl; [exact H|]. eauto. }
  destruct Hs as [p s l Hp|B i e k h s s' l Hi Ha|B i e k h b s s' l Hi Ha]; cbn in *; [|done|].
  - apply Forall_app. split; [done|]. by repeat constructor.
  - apply Forall_insert; [done|]. constructor; [by eapply Hnote|].
    rewrite Forall_lookup in Hold. exact (Hold _ _ Hi).
Qed.

Context (answers_holds : ∀ B (e : E B) s b s', answers B e s b s' → holds s' (note _ e b)).

Lemma sched_holds st st' :
  Forall (λ ph, Forall (holds (shared st)) ph.2) (processes st) → sched st st' →
  Forall (λ ph, Forall (holds (shared st')) ph.2) (processes st').
Proof. apply sched_holds_at. eauto. Qed.
End monotone.

(** ** A scripted world *)
Section play.
Context {W : Type} (db : W → S) (respond : ∀ B, E B → W → B * W).

(** A whole execution. *)
Fixpoint interp {C} (p : prog C) (w : W) : outcome X C * W :=
  match p with
  | Ret a => (Ok a, w)
  | Fail e => (Throw e, w)
  | Vis e k => let '(b, w') := respond _ e w in interp (k b) w'
  end.

(** It returns, with [Q]. *)
Definition ends {C} (p : prog C) (Q : C → W → Prop) (w : W) : Prop :=
  ∃ a w', interp p w = (Ok a, w') ∧ Q a w'.

Lemma ends_ret {C} (a : C) Q w : Q a w → ends (Ret a) Q w.
Proof. intros H. by exists a, w. Qed.
Lemma ends_bind {C D} (p : prog C) (k : C → prog D) Q w :
  ends p (λ a w', ends (k a) Q w') w → ends (p ≫= k) Q w.
Proof.
  intros (a & w' & Hp & b & w2 & Hk & HQ). exists b, w2. split; [|done]. revert w Hp.
  induction p as [a'|e|B e k' IH]; intros w; cbn.
  - by intros [= -> ->].
  - done.
  - destruct (respond B e w) as [b' w1]. apply IH.
Qed.
Lemma ends_ask {B} (e : E B) Q w : Q (respond _ e w).1 (respond _ e w).2 → ends (ask e) Q w.
Proof. intros H. exists (respond _ e w).1, (respond _ e w).2. split; [|done]. cbn. by destruct (respond B e w). Qed.
Lemma ends_call {B} (e : E (outcome X B)) Q w b w' :
  respond _ e w = (Ok b, w') → Q b w' → ends (ask e ≫= lift_outcome) Q w.
Proof. intros He HQ. apply ends_bind, ends_ask. rewrite He. by apply ends_ret. Qed.
Lemma ends_fail_if b e (Q : unit → W → Prop) w : b = false → Q tt w → ends (fail_if b e) Q w.
Proof. intros ->. apply ends_ret. Qed.
Lemma ends_mono {C} (p : prog C) (Q Q' : C → W → Prop) w :
  ends p Q w → (∀ a w', Q a w' → Q' a w') → ends p Q' w.
Proof. intros (a & w' & Hp & HQ) H. exists a, w'. auto. Qed.

(** At most [n] calls of one program. *)
Fixpoint play (n : nat) (p : prog A) (h : list N) (w : W) : prog A * list N * W :=
  match n, p with
  | O, _ | _, Ret _ | _, Fail _ => (p, h, w)
  | Datatypes.S n, Vis e k => let '(b, w') := respond _ e w in play n (k b) (note _ e b :: h) w'
  end.

Lemma play_steps n i l p h w p' h' w' :
  (∀ B (e : E B) w b w', respond B e w = (b, w') → answers B e (db w) b (db w')) →
  l !! i = Some (p, h) → play n p h w = (p', h', w') →
  rtc sched {| shared := db w; processes := l |} {| shared := db w'; processes := <[i := (p', h')]> l |}.
Proof.
  intros Hans. revert p h w l. induction n as [|n IH]; intros p h w l Hi; cbn.
  - intros [= <- <- <-]. by rewrite list_insert_id.
  - destruct p as [a|e|B e k]; [intros [= <- <- <-]; by rewrite list_insert_id..|].
    destruct (respond B e w) as [b w1] eqn:He. intros Hp. eapply rtc_l; [by eapply sched_call, Hans|].
    pose proof (IH (k b) (note _ e b :: h) w1 (<[i := (k b, note _ e b :: h)]> l)) as Hr.
    rewrite list_insert_insert_eq in Hr. apply Hr; [|done]. apply list_lookup_insert_eq. by eapply lookup_lt_Some.
Qed.

Lemma play_runs n p h w p' h' w' :
  (∀ B (e : E B) b, sound B e b) → play n p h w = (p', h', w') → runs p h p' h'.
Proof.
  intros Hsound. revert p h w. induction n as [|n IH]; intros p h w; cbn; [intros [= <- <- <-]; constructor|].
  destruct p as [a|e|B e k]; [intros [= <- <- <-]; constructor..|].
  destruct (respond B e w) as [b w1]. intros Hp. econstructor; [done|by eapply IH].
Qed.
End play.

(** Programs one after the other, each for at most [n] calls. *)
Section play_all.
Context (respond : ∀ B, E B → S → B * S).

Fixpoint play_all (n : nat) (ps : list (prog A)) (st : sched_state) : sched_state :=
  match ps with
  | [] => st
  | p :: ps =>
      let '(p', h', s) := play respond n p [] (shared st) in
      play_all n ps {| shared := s; processes := processes st ++ [(p', h')] |}
  end.

Lemma play_all_steps n ps st :
  (∀ B (e : E B) s b s', respond B e s = (b, s') → answers B e s b s') → Forall startable ps →
  rtc sched st (play_all n ps st).
Proof.
  intros Hans. revert st. induction ps as [|p ps IH]; intros st Hps; [done|]. apply Forall_cons in Hps as [Hp Hps].
  cbn [play_all]. destruct (play respond n p [] (shared st)) as [[p' h'] s'] eqn:Hplay.
  etrans; [|by apply IH]. destruct st as [s l]. eapply rtc_l; [by apply sched_start|]. cbn [processes shared] in *.
  pose proof (play_steps (λ s : S, s) respond n (length l) (l ++ [(p, [])]) p [] s p' h' s' Hans) as Hr.
  rewrite insert_app_r_alt, Nat.sub_diag in Hr by done. cbn in Hr. apply Hr; [|done].
  by rewrite lookup_app_r, Nat.sub_diag.
Qed.
End play_all.

(** What each process has returned, where it has. *)
Definition returned_values (ps : list process) : list (option A) :=
  (λ ph : process, match ph.1 with Ret r => Some r | _ => None end) <$> ps.

Lemma returned_values_lookup ps i r :
  returned_values ps !! i = Some (Some r) → ps !! i = Some (Ret r, default [] (snd <$> ps !! i)).
Proof.
  unfold returned_values. rewrite list_lookup_fmap. intros H.
  destruct (ps !! i) as [[[a|e|B e k] h]|]; cbn in *; try done. by injection H as ->.
Qed.
End interact.
Arguments prog : clear implicits.
Arguments Ret {E X A} a.
Arguments Fail {E X A} e.
Arguments Vis {E X A B} e k.
