(* ===== verification/ArtifactUpload.v ===== *)
(** * Artifact uploads

    Models the server's side of an artifact's upload: the [ArtifactUploadService]
    of [packages/core-modules/evidence/src/artifact-upload-service.ts] over
    [packages/storage-providers/postgres-runtime/src/postgres-artifact-upload-store.ts]
    and the [LocalArtifactStore] of
    [packages/storage-providers/artifact-fs/src/local-artifact-store.ts], put
    together as [apps/server/src/self-hosted-runner-protocol.ts] does for one
    tenant.

    Every statement and every file access is a call, so other uploads run between
    any two of them.  A store method writes with its last statement, which is
    when its transaction commits.  Bytes are [ascii] characters; sizes and
    offsets are integers; SHA-256 is a parameter; paths are POSIX paths. *)
From S2P Require Import Prelude.
From S2P Require Import Number.
From S2P Require Import Json.
From S2P Require Import Interact.
From S2P Require Import RunnerSpool.
From stdpp Require Import sorting.
From Stdlib Require Import Ascii.

Module ArtifactUpload.
Export RunnerSpool(ArtifactByteRange, range_offset, range_length, Build_ArtifactByteRange,
  ArtifactUploadManifest, m_artifactId, m_tenantId, m_projectId, m_runId, m_sizeBytes, m_sha256,
  m_mediaType, m_sensitivity, m_chunkSizeBytes, m_totalChunks, Build_ArtifactUploadManifest,
  ArtifactUploadChunk, ch_artifactId, ch_tenantId, ch_projectId, ch_runId, ch_offset, ch_bytes, ch_sha256,
  Build_ArtifactUploadChunk,
  ArtifactUploadAck, up_artifactId, up_runId, up_missingRanges, up_acknowledged, Build_ArtifactUploadAck).

(** ** Data *)
Notation buffer := (list ascii).

Definition ARTIFACT_CHUNK_SIZE_BYTES : Z := 256 * 1024.

Inductive ArtifactUploadErrorCode :=
  | ArtifactUploadValidationFailed | ArtifactManifestConflict | ArtifactChunkConflict
  | ArtifactUploadNotRegistered | ArtifactUploadForbidden | ArtifactHashMismatch.

(** What a method may throw: an [ArtifactUploadError], the [RangeError] of
    [Uint8Array], an error of the database, the manifest store's own [Error], and
    the errors of the file store and of the root it is opened at. *)
Inductive UploadError :=
  | Rejected (code : ArtifactUploadErrorCode)
  | RangeError
  | DatabaseError
  | ManifestConflictsWithDurableState
  | ArtifactPathRejected
  | ArtifactWriteFailed
  | UnsafeRoot.

Record ArtifactUploadIdentity := { id_tenantId : string; id_projectId : string; id_runnerId : string }.
Record ArtifactUploadChunkIdentity :=
  { cid_identity : ArtifactUploadIdentity; cid_runId : string; cid_artifactId : string }.
Record RegisterArtifactManifestInput := {
  reg_identity : ArtifactUploadIdentity;
  reg_jobId : string;
  reg_leaseEpoch : Z;
  reg_manifest : ArtifactUploadManifest;
}.
Record UploadArtifactChunkInput := {
  up_identity : ArtifactUploadChunkIdentity;
  up_chunk : ArtifactUploadChunk;
}.

#[export] Instance upload_manifest_eq_dec : EqDecision ArtifactUploadManifest.
Proof. solve_decision. Defined.

Inductive ArtifactUploadStatus := registered | verified.
#[export] Instance upload_status_eq_dec : EqDecision ArtifactUploadStatus.
Proof. solve_decision. Defined.

Record ArtifactUploadManifestRecord := {
  upload : ArtifactUploadManifest;
  jobId : string;
  registeredByRunnerId : string;
  registeredLeaseEpoch : Z;
  status : ArtifactUploadStatus;
  createdAt : string;
  relativePath : option string;
  verifiedAt : option string;
}.
Record ArtifactUploadChunkRecord := {
  chunk : ArtifactUploadChunk;
  sizeBytes : Z;
  chunk_createdAt : string;
}.
Inductive ArtifactUploadRegisterResult :=
  | reg_accepted (m : ArtifactUploadManifestRecord)
  | reg_duplicate (m : ArtifactUploadManifestRecord)
  | reg_conflict.
Inductive ArtifactUploadChunkResult := chunk_accepted | chunk_duplicate | chunk_conflict.

Record ArtifactWriteRequest := {
  w_artifactId : string;
  w_runId : string;
  w_name : string;
  w_kind : string;
  w_mediaType : string;
  w_bytes : buffer;
}.
Record ArtifactManifest := {
  am_artifactId : string;
  am_runId : string;
  am_kind : string;
  am_mediaType : string;
  am_relativePath : string;
  am_sha256 : string;
  am_size : Z;
  am_createdAt : string;
}.
#[export] Instance artifact_manifest_eq_dec : EqDecision ArtifactManifest.
Proof. solve_decision. Defined.
Inductive AppendResult := append_accepted | append_duplicate.

(** ** The tenant's tables and the files

    A row of [artifact_upload_manifests] is kept as the record it is read as. *)
Record ChunkRow := { row_sizeBytes : Z; row_sha256 : string; row_bytes : string; row_createdAt : string }.
Notation path := (list string).
Record Db := {
  upload_manifests : gmap string ArtifactUploadManifestRecord;
  upload_chunks : gmap (string * Z) ChunkRow;
  artifact_manifests : gmap string ArtifactManifest;
  files : gmap path buffer;
}.
Definition set_manifests (m : gmap string ArtifactUploadManifestRecord) (db : Db) : Db :=
  {| upload_manifests := m; upload_chunks := upload_chunks db; artifact_manifests := artifact_manifests db;
     files := files db |}.
Definition set_chunks (c : gmap (string * Z) ChunkRow) (db : Db) : Db :=
  {| upload_manifests := upload_manifests db; upload_chunks := c; artifact_manifests := artifact_manifests db;
     files := files db |}.
Definition set_artifacts (m : gmap string ArtifactManifest) (db : Db) : Db :=
  {| upload_manifests := upload_manifests db; upload_chunks := upload_chunks db; artifact_manifests := m;
     files := files db |}.
Definition set_files (f : gmap path buffer) (db : Db) : Db :=
  {| upload_manifests := upload_manifests db; upload_chunks := upload_chunks db;
     artifact_manifests := artifact_manifests db; files := f |}.

(** ** Statements: [None] when a key or a check refuses the row *)

(** The scope and the identity of an artifact, as the store's methods take them. *)
Record ArtifactKey := { k_tenantId : string; k_projectId : string; k_runId : string; k_artifactId : string }.
Definition key_of (m : ArtifactUploadManifest) : ArtifactKey :=
  {| k_tenantId := m_tenantId m; k_projectId := m_projectId m; k_runId := m_runId m; k_artifactId := m_artifactId m |}.

Definition select_manifest (k : ArtifactKey) (db : Db) : option ArtifactUploadManifestRecord :=
  match upload_manifests db !! k_artifactId k with
  | Some r => if String.eqb (m_projectId (upload r)) (k_projectId k) && String.eqb (m_runId (upload r)) (k_runId k)
              then Some r else None
  | None => None
  end.

Definition insert_manifest (r : ArtifactUploadManifestRecord) (db : Db) : option Db :=
  let m := upload r in
  if bool_decide (upload_manifests db !! m_artifactId m = None) && (0 <=? m_sizeBytes m)%Z &&
     (m_chunkSizeBytes m =? 262144)%Z && (0 <=? m_totalChunks m)%Z
  then Some (set_manifests (<[m_artifactId m := r]> (upload_manifests db)) db) else None.

Definition select_chunk (artifactId : string) (offset : Z) (db : Db) : option ChunkRow :=
  upload_chunks db !! (artifactId, offset).

Definition insert_chunk (artifactId : string) (offset : Z) (row : ChunkRow) (db : Db) : option Db :=
  if bool_decide (upload_chunks db !! (artifactId, offset) = None) &&
     bool_decide (is_Some (upload_manifests db !! artifactId)) && (0 <=? offset)%Z &&
     (0 <? row_sizeBytes row)%Z && (row_sizeBytes row <=? 262144)%Z
  then Some (set_chunks (<[(artifactId, offset) := row]> (upload_chunks db)) db) else None.

(** The join of the chunks of an artifact with its manifest, [order by offset_bytes]. *)
Definition chunk_record (tenantId : string) (m : ArtifactUploadManifest) (kv : string * Z * ChunkRow)
    : ArtifactUploadChunkRecord :=
  {| chunk := {| ch_artifactId := kv.1.1; ch_tenantId := tenantId; ch_projectId := m_projectId m; ch_runId := m_runId m;
       ch_offset := kv.1.2; ch_bytes := row_bytes kv.2; ch_sha256 := row_sha256 kv.2 |};
     sizeBytes := row_sizeBytes kv.2; chunk_createdAt := row_createdAt kv.2 |}.
Definition offset_le (a b : ArtifactUploadChunkRecord) : Prop := (ch_offset (chunk a) <= ch_offset (chunk b))%Z.
#[export] Instance offset_le_dec : RelDecision offset_le.
Proof. intros a b. unfold offset_le. apply _. Defined.
Definition select_chunks (tenantId : string) (k : ArtifactKey) (db : Db) : list ArtifactUploadChunkRecord :=
  match select_manifest k db with
  | None => []
  | Some r => merge_sort offset_le (chunk_record tenantId (upload r) <$>
      filter (λ kv : string * Z * ChunkRow, kv.1.1 = k_artifactId k) (map_to_list (upload_chunks db)))
  end.

Definition update_verified (k : ArtifactKey) (rel at_ : string) (db : Db) : option Db :=
  match select_manifest k db with
  | None => Some db
  | Some r => Some (set_manifests (<[k_artifactId k :=
      {| upload := upload r; jobId := jobId r; registeredByRunnerId := registeredByRunnerId r;
         registeredLeaseEpoch := registeredLeaseEpoch r; status := verified; createdAt := createdAt r;
         relativePath := Some rel; verifiedAt := Some at_ |}]> (upload_manifests db)) db)
  end.

Definition select_artifact (artifactId : string) (db : Db) : option ArtifactManifest :=
  artifact_manifests db !! artifactId.

(** [on conflict do nothing returning]: whether a row was inserted. *)
Definition insert_artifact (m : ArtifactManifest) (db : Db) : bool * Db :=
  if bool_decide (artifact_manifests db !! am_artifactId m = None) &&
     forallb (λ kv : string * ArtifactManifest, negb (String.eqb (am_relativePath kv.2) (am_relativePath m)))
       (map_to_list (artifact_manifests db))
  then (true, set_artifacts (<[am_artifactId m := m]> (artifact_manifests db)) db) else (false, db).

(** [acknowledgedArtifactIds]: the artifacts of [ids] that a trace may refer to. *)
Definition acknowledged (runId : string) (db : Db) (a : string) : bool :=
  match upload_manifests db !! a with
  | Some r => String.eqb (m_runId (upload r)) runId && bool_decide (status r = verified)
  | None => false
  end.
Definition acknowledgedArtifactIds (runId : string) (ids : list string) (db : Db) : gset string :=
  list_to_set (filter (λ a, acknowledged runId db a = true) ids).

(** ** Calls *)
Inductive Call : Type → Type :=
  | Now : Call string
  | SelectManifest (k : ArtifactKey) : Call (outcome UploadError (option ArtifactUploadManifestRecord))
  | InsertManifest (r : ArtifactUploadManifestRecord) : Call (outcome UploadError unit)
  | SelectChunk (artifactId : string) (offset : Z) : Call (outcome UploadError (option ChunkRow))
  | InsertChunk (artifactId : string) (offset : Z) (row : ChunkRow) : Call (outcome UploadError unit)
  | SelectChunks (k : ArtifactKey) : Call (outcome UploadError (list ArtifactUploadChunkRecord))
  | UpdateVerified (k : ArtifactKey) (rel at_ : string) : Call (outcome UploadError unit)
  | SelectArtifact (artifactId : string) : Call (outcome UploadError (option ArtifactManifest))
  | InsertArtifact (m : ArtifactManifest) : Call (outcome UploadError bool)
  | WriteFile (p : path) (bytes : buffer) : Call (outcome UploadError unit)
  | ReadFile (p : path) : Call (option buffer).

Definition M := prog Call UploadError.
Definition call {B} (e : Call (outcome UploadError B)) : M B :=
  o ← ask e; lift_outcome o.
Definition reject {A} (code : ArtifactUploadErrorCode) : M A := Fail (Rejected code).

(** ** The file store *)
Fixpoint has_char (c : ascii) (s : string) : bool :=
  match s with EmptyString => false | String d s' => bool_decide (c = d) || has_char c s' end.
Definition is_letter (c : ascii) : bool :=
  let n := N_of_ascii c in ((65 <=? n) && (n <=? 90) || (97 <=? n) && (n <=? 122))%N.
(** [/^[a-zA-Z]:/] *)
Definition has_drive (s : string) : bool :=
  match s with String c (String ":" _) => is_letter c | _ => false end.

Definition safe_segment (value : string) : bool :=
  negb (String.eqb value "" || String.eqb value "." || String.eqb value ".." ||
        has_char "/" value || has_char "\" value || has_char "000" value).
(** [assertSafeSegment] of the file store also refuses an absolute path, which
    on POSIX holds a slash. *)
Definition assertSafeSegment (value : string) : M unit :=
  fail_if (negb (safe_segment value) || str_startsWith value "/" || has_drive value) ArtifactPathRejected.

(** The segments of a text between its slashes, and [resolve(root, p)]. *)
Fixpoint split_path (s : string) : list string :=
  match s with
  | EmptyString => [EmptyString]
  | String c s' =>
      match split_path s' with
      | seg :: rest => if bool_decide (c = "/"%char) then EmptyString :: seg :: rest else String c seg :: rest
      | [] => [String c EmptyString]
      end
  end.
Definition walk (acc : path) (seg : string) : path :=
  if String.eqb seg "" || String.eqb seg "." then acc
  else if String.eqb seg ".." then removelast acc
  else acc ++ [seg].
Definition resolve (root : path) (p : string) : path :=
  foldl walk (if str_startsWith p "/" then [] else root) (split_path p).

(** What is below [root] of a path, if it is below it. *)
Fixpoint below (root p : path) : option path :=
  match root, p with
  | [], _ => Some p
  | r :: root, s :: p => if String.eqb r s then below root p else None
  | _ :: _, [] => None
  end.
(** [relative] starts with [..] outside the root, and with the first segment
    inside it. *)
Definition resolveWithinRoot (root candidate : path) : M path :=
  match below root candidate with
  | Some (seg :: _) => if str_startsWith seg ".." then Fail ArtifactPathRejected else Ret candidate
  | _ => Fail ArtifactPathRejected
  end.

Definition string_of (b : buffer) : string := String.string_of_list_ascii b.
Definition size_of (b : buffer) : Z := Z.of_nat (length b).

Section service.
Context (sha256Hex : string → string).

(** [LocalArtifactStore.write]; its temporary file has a name of its own, and the
    rename puts the whole file in place at once. *)
Definition local_write (root : path) (request : ArtifactWriteRequest) : M ArtifactManifest :=
  _ ← assertSafeSegment (w_runId request);
  _ ← assertSafeSegment (w_name request);
  let rel := w_runId request +:+ "/" +:+ w_name request in
  finalPath ← resolveWithinRoot root (resolve root rel);
  _ ← call (WriteFile finalPath (w_bytes request));
  now ← ask Now;
  mret {| am_artifactId := w_artifactId request; am_runId := w_runId request; am_kind := w_kind request;
          am_mediaType := w_mediaType request; am_relativePath := rel;
          am_sha256 := sha256Hex (string_of (w_bytes request)); am_size := size_of (w_bytes request);
          am_createdAt := now |}.

(** [LocalArtifactStore.verify]; a file that cannot be read reads as [None]. *)
Definition local_verify (root : path) (m : ArtifactManifest) : M bool :=
  p ← resolveWithinRoot root (resolve root (am_relativePath m));
  content ← ask (ReadFile p);
  mret match content with
       | None => false
       | Some b => (size_of b =? am_size m)%Z && String.eqb (sha256Hex (string_of b)) (am_sha256 m)
       end.

(** ** The stores of a tenant *)
Context (tenantId : string).

Definition scoped (r : ArtifactUploadManifestRecord) : ArtifactUploadManifestRecord :=
  let m := upload r in
  {| upload := {| m_artifactId := m_artifactId m; m_tenantId := tenantId; m_projectId := m_projectId m;
       m_runId := m_runId m; m_sizeBytes := m_sizeBytes m; m_sha256 := m_sha256 m; m_mediaType := m_mediaType m;
       m_sensitivity := m_sensitivity m; m_chunkSizeBytes := m_chunkSizeBytes m; m_totalChunks := m_totalChunks m |};
     jobId := jobId r; registeredByRunnerId := registeredByRunnerId r; registeredLeaseEpoch := registeredLeaseEpoch r;
     status := status r; createdAt := createdAt r; relativePath := relativePath r; verifiedAt := verifiedAt r |}.

Definition sameManifest (l r : ArtifactUploadManifestRecord) : bool :=
  bool_decide (upload l = upload r) && String.eqb (jobId l) (jobId r) &&
  String.eqb (registeredByRunnerId l) (registeredByRunnerId r) &&
  (registeredLeaseEpoch l =? registeredLeaseEpoch r)%Z.

Definition store_manifest (k : ArtifactKey) : M (option ArtifactUploadManifestRecord) :=
  if negb (String.eqb (k_tenantId k) tenantId) then mret None else call (SelectManifest k).

Definition store_registerManifest (m : ArtifactUploadManifestRecord) : M ArtifactUploadRegisterResult :=
  existing ← store_manifest (key_of (upload m));
  match existing with
  | Some e => mret (if sameManifest e m then reg_duplicate e else reg_conflict)
  | None => _ ← call (InsertManifest (scoped m)); mret (reg_accepted m)
  end.

Definition store_appendChunk (c : ArtifactUploadChunkRecord) : M ArtifactUploadChunkResult :=
  if negb (String.eqb (ch_tenantId (chunk c)) tenantId) then mret chunk_conflict
  else
    existing ← call (SelectChunk (ch_artifactId (chunk c)) (ch_offset (chunk c)));
    match existing with
    | Some e => mret (if String.eqb (row_sha256 e) (ch_sha256 (chunk c)) && String.eqb (row_bytes e) (ch_bytes (chunk c))
                      then chunk_duplicate else chunk_conflict)
    | None =>
        _ ← call (InsertChunk (ch_artifactId (chunk c)) (ch_offset (chunk c))
              {| row_sizeBytes := sizeBytes c; row_sha256 := ch_sha256 (chunk c); row_bytes := ch_bytes (chunk c);
                 row_createdAt := chunk_createdAt c |});
        mret chunk_accepted
    end.

Definition store_chunks (k : ArtifactKey) : M (list ArtifactUploadChunkRecord) :=
  if negb (String.eqb (k_tenantId k) tenantId) then mret [] else call (SelectChunks k).

Definition store_markVerified (k : ArtifactKey) (rel at_ : string) : M unit :=
  if negb (String.eqb (k_tenantId k) tenantId) then mret tt else call (UpdateVerified k rel at_).

(** [PostgresArtifactManifestStore.append] *)
Definition manifestStore_append (m : ArtifactManifest) : M AppendResult :=
  existing ← call (SelectArtifact (am_artifactId m));
  match existing with
  | Some _ => mret append_duplicate
  | None =>
      inserted ← call (InsertArtifact m);
      if (inserted : bool) then mret append_accepted
      else
        duplicate ← call (SelectArtifact (am_artifactId m));
        if bool_decide (duplicate = Some m) then mret append_duplicate
        else Fail ManifestConflictsWithDurableState
  end.

(** ** The service *)
Context (artifactDataDir : path).

(** [artifactStoreFor]: the root of the project's file store. *)
Definition artifactStoreFor (projectId : string) : M path :=
  _ ← fail_if (negb (safe_segment tenantId)) UnsafeRoot;
  _ ← fail_if (negb (safe_segment projectId)) UnsafeRoot;
  Ret (artifactDataDir ++ [tenantId; projectId]).

Definition nonEmpty (value : string) : bool := negb (is_blank value).
Definition is_hex (c : ascii) : bool :=
  let n := N_of_ascii c in ((97 <=? n) && (n <=? 102) || (48 <=? n) && (n <=? 57))%N.
(** [SHA256_HEX.test] *)
Definition is_sha256_hex (s : string) : bool :=
  (String.length s =? 64)%nat && forallb is_hex (String.list_ascii_of_string s).
Definition isSafeInteger (n : Z) : bool := (Z.abs n <=? max_safe_integer)%Z.
(** [Math.ceil(n / ARTIFACT_CHUNK_SIZE_BYTES)]: dividing by a power of two is exact. *)
Definition ceil_chunks (n : Z) : Z := - ((- n) / ARTIFACT_CHUNK_SIZE_BYTES).

Definition manifest_valid (m : ArtifactUploadManifest) : bool :=
  nonEmpty (m_artifactId m) && nonEmpty (m_tenantId m) && nonEmpty (m_projectId m) && nonEmpty (m_runId m) &&
  nonEmpty (m_mediaType m) && is_sha256_hex (m_sha256 m) &&
  includes ["public"; "internal"; "sensitive"; "secret"] (m_sensitivity m) &&
  isSafeInteger (m_sizeBytes m) && (0 <=? m_sizeBytes m)%Z &&
  (m_chunkSizeBytes m =? ARTIFACT_CHUNK_SIZE_BYTES)%Z && (m_totalChunks m =? ceil_chunks (m_sizeBytes m))%Z.
Definition validateManifest (m : ArtifactUploadManifest) : M unit :=
  fail_if (negb (manifest_valid m)) (Rejected ArtifactUploadValidationFailed).

Definition bytes_length (s : string) : Z := Z.of_nat (String.length s).
Definition chunk_valid (c : ArtifactUploadChunk) : bool :=
  nonEmpty (ch_artifactId c) && nonEmpty (ch_tenantId c) && nonEmpty (ch_projectId c) && nonEmpty (ch_runId c) &&
  is_sha256_hex (ch_sha256 c) && isSafeInteger (ch_offset c) && (0 <=? ch_offset c)%Z &&
  (Z.rem (ch_offset c) ARTIFACT_CHUNK_SIZE_BYTES =? 0)%Z &&
  (bytes_length (ch_bytes c) <=? ARTIFACT_CHUNK_SIZE_BYTES)%Z && String.eqb (sha256Hex (ch_bytes c)) (ch_sha256 c).
Definition validateChunk (c : ArtifactUploadChunk) : M unit :=
  fail_if (negb (chunk_valid c)) (Rejected ArtifactUploadValidationFailed).

Definition assertManifestScope (i : ArtifactUploadIdentity) (m : ArtifactUploadManifest) : M unit :=
  fail_if (negb (String.eqb (m_tenantId m) (id_tenantId i) && String.eqb (m_projectId m) (id_projectId i)))
    (Rejected ArtifactUploadForbidden).
Definition assertChunkScope (i : ArtifactUploadChunkIdentity) (c : ArtifactUploadChunk) : M unit :=
  fail_if (negb (String.eqb (ch_tenantId c) (id_tenantId (cid_identity i)) &&
                 String.eqb (ch_projectId c) (id_projectId (cid_identity i)) &&
                 String.eqb (ch_runId c) (cid_runId i) && String.eqb (ch_artifactId c) (cid_artifactId i)))
    (Rejected ArtifactUploadForbidden).
Definition assertChunkMatchesManifest (c : ArtifactUploadChunk) (r : ArtifactUploadManifestRecord) : M unit :=
  let m := upload r in
  _ ← fail_if (negb (String.eqb (ch_tenantId c) (m_tenantId m) && String.eqb (ch_projectId c) (m_projectId m) &&
                     String.eqb (ch_runId c) (m_runId m) && String.eqb (ch_artifactId c) (m_artifactId m)))
        (Rejected ArtifactUploadForbidden);
  let maximumLength := Z.min (m_chunkSizeBytes m) (m_sizeBytes m - ch_offset c) in
  fail_if ((ch_offset c <? 0) || (Z.max 1 (m_sizeBytes m) <=? ch_offset c) ||
           negb (bytes_length (ch_bytes c) =? maximumLength))%Z
    (Rejected ArtifactUploadValidationFailed).

(** The [for] loop of [missingRanges]: [fuel] rounds reach the end of the file. *)
Fixpoint missing_from (fuel : nat) (m : ArtifactUploadManifest) (present : list Z) (offset : Z)
    : list ArtifactByteRange :=
  match fuel with
  | O => []
  | S fuel =>
      if (offset <? m_sizeBytes m)%Z then
        (if includes present offset then []
         else [{| range_offset := offset; range_length := Z.min (m_chunkSizeBytes m) (m_sizeBytes m - offset) |}]) ++
        missing_from fuel m present (offset + m_chunkSizeBytes m)
      else []
  end.
Definition missingRanges (m : ArtifactUploadManifest) (chunks : list ArtifactUploadChunkRecord)
    : list ArtifactByteRange :=
  if (m_sizeBytes m =? 0)%Z then []
  else missing_from (S (Z.to_nat (m_sizeBytes m / m_chunkSizeBytes m))) m ((λ c, ch_offset (chunk c)) <$> chunks) 0.

(** [new Uint8Array(n)] and [bytes.set(chunk, offset)]. *)
Definition new_buffer (n : Z) : buffer := replicate (Z.to_nat n) "000"%char.
Definition set_bytes (b : buffer) (data : buffer) (offset : Z) : M buffer :=
  if ((offset <? 0) || (size_of b <? offset + size_of data))%Z then Fail RangeError
  else Ret (take (Z.to_nat offset) b ++ data ++ drop (Z.to_nat offset + length data) b).
Fixpoint assemble (chunks : list ArtifactUploadChunkRecord) (b : buffer) : M buffer :=
  match chunks with
  | [] => mret b
  | c :: rest =>
      b ← set_bytes b (String.list_ascii_of_string (ch_bytes (chunk c))) (ch_offset (chunk c));
      assemble rest b
  end.

Definition verifyAndCommit (r : ArtifactUploadManifestRecord) (chunks : list ArtifactUploadChunkRecord) : M unit :=
  let m := upload r in
  bytes ← assemble (merge_sort offset_le chunks) (new_buffer (m_sizeBytes m));
  let digest := sha256Hex (string_of bytes) in
  _ ← fail_if (negb (size_of bytes =? m_sizeBytes m)%Z || negb (String.eqb digest (m_sha256 m)))
        (Rejected ArtifactHashMismatch);
  root ← artifactStoreFor (m_projectId m);
  stored ← local_write root {| w_artifactId := m_artifactId m; w_runId := m_runId m; w_name := m_artifactId m;
             w_kind := "other"; w_mediaType := m_mediaType m; w_bytes := bytes |};
  root ← artifactStoreFor (m_projectId m);
  ok ← local_verify root stored;
  _ ← fail_if (negb ok) (Rejected ArtifactHashMismatch);
  _ ← manifestStore_append stored;
  now ← ask Now;
  store_markVerified (key_of m) (am_relativePath stored) now.

Definition acknowledgement (m : ArtifactUploadManifest) (missing : list ArtifactByteRange) (done : bool)
    : ArtifactUploadAck :=
  {| up_artifactId := m_artifactId m; up_runId := m_runId m; up_missingRanges := missing; up_acknowledged := done |}.

Definition progressFor (r : ArtifactUploadManifestRecord) : M ArtifactUploadAck :=
  if bool_decide (status r = verified) then mret (acknowledgement (upload r) [] true)
  else
    chunks ← store_chunks (key_of (upload r));
    match missingRanges (upload r) chunks with
    | [] => _ ← verifyAndCommit r chunks; mret (acknowledgement (upload r) [] true)
    | missing => mret (acknowledgement (upload r) missing false)
    end.

Definition registerManifest (input : RegisterArtifactManifestInput) : M ArtifactUploadAck :=
  _ ← validateManifest (reg_manifest input);
  _ ← assertManifestScope (reg_identity input) (reg_manifest input);
  now ← ask Now;
  registration ← store_registerManifest
    {| upload := reg_manifest input; jobId := reg_jobId input;
       registeredByRunnerId := id_runnerId (reg_identity input); registeredLeaseEpoch := reg_leaseEpoch input;
       status := registered; createdAt := now; relativePath := None; verifiedAt := None |};
  match registration with
  | reg_conflict => reject ArtifactManifestConflict
  | reg_accepted r | reg_duplicate r => progressFor r
  end.

Definition chunk_key (c : ArtifactUploadChunk) : ArtifactKey :=
  {| k_tenantId := ch_tenantId c; k_projectId := ch_projectId c; k_runId := ch_runId c;
     k_artifactId := ch_artifactId c |}.

Definition uploadChunk (input : UploadArtifactChunkInput) : M ArtifactUploadAck :=
  let c := up_chunk input in
  _ ← validateChunk c;
  _ ← assertChunkScope (up_identity input) c;
  found ← store_manifest (chunk_key c);
  match found with
  | None => reject ArtifactUploadNotRegistered
  | Some r =>
      _ ← fail_if (negb (String.eqb (registeredByRunnerId r) (id_runnerId (cid_identity (up_identity input)))))
            (Rejected ArtifactUploadForbidden);
      _ ← assertChunkMatchesManifest c r;
      if bool_decide (status r = verified) then mret (acknowledgement (upload r) [] true)
      else
        now ← ask Now;
        res ← store_appendChunk {| chunk := c; sizeBytes := bytes_length (ch_bytes c); chunk_createdAt := now |};
        match res with
        | chunk_conflict => reject ArtifactChunkConflict
        | _ => progressFor r
        end
  end.
End service.
End ArtifactUpload.
