(* ===== verification/ArtifactSafety.v ===== *)
(** * Artifact uploads: what is acknowledged is stored

    Any number of registrations and uploads of [ArtifactUpload] run over one
    tenant's tables and files; each may crash at any call, and the database and
    the file system may refuse any call, after doing its work or before. *)
From S2P Require Import Prelude.
From S2P Require Import Number.
From S2P Require Import Json.
From S2P Require Import Interact.
From S2P Require Import ArtifactUpload.
From stdpp Require Import sorting.
From Stdlib Require Import Ascii.

Module ArtifactSafety.
Import ArtifactUpload.

(** ** What the stores answer *)
Definition reads {B} (f : Db → B) (db : Db) (o : outcome UploadError B) (db' : Db) : Prop :=
  (o = Ok (f db) ∨ o = Throw DatabaseError) ∧ db' = db.
(** A write that is refused may have been carried out all the same. *)
Definition writes (e : UploadError) (f : Db → option Db) (db : Db) (o : outcome UploadError unit) (db' : Db) : Prop :=
  (o = Ok tt ∧ f db = Some db') ∨ (o = Throw e ∧ (db' = db ∨ f db = Some db')).

Definition midway (B : Type) (e : Call B) (db db' : Db) : Prop := False.

(** ** What is remembered of a call *)
Inductive Note :=
  | n_manifest (k : ArtifactKey) (o : outcome UploadError (option ArtifactUploadManifestRecord))
  | n_inserted (r : ArtifactUploadManifestRecord) (o : outcome UploadError unit)
  | n_chunks (k : ArtifactKey) (o : outcome UploadError (list ArtifactUploadChunkRecord))
  | n_written (p : path) (o : outcome UploadError unit)
  | n_marked (k : ArtifactKey) (o : outcome UploadError unit)
  | n_other.
Definition note (B : Type) (e : Call B) : B → Note :=
  match e in Call B return B → Note with
  | SelectManifest k => n_manifest k
  | InsertManifest r => n_inserted r
  | SelectChunks k => n_chunks k
  | WriteFile p _ => n_written p
  | UpdateVerified k _ _ => n_marked k
  | _ => λ _, n_other
  end.

(** ** The tables only grow *)

(** A manifest never changes; it may become verified. *)
Definition evolves (r r' : ArtifactUploadManifestRecord) : Prop :=
  upload r' = upload r ∧ (status r = verified → status r' = verified).
Lemma evolves_refl r : evolves r r.
Proof. done. Qed.
Lemma evolves_trans a b c : evolves a b → evolves b c → evolves a c.
Proof. intros [H1 H2] [H3 H4]. split; [congruence|auto]. Qed.

Record le (db db' : Db) : Prop := {
  le_manifests : ∀ a r, upload_manifests db !! a = Some r →
    ∃ r', upload_manifests db' !! a = Some r' ∧ evolves r r';
  le_chunks : upload_chunks db ⊆ upload_chunks db';
  le_files : ∀ p, is_Some (files db !! p) → is_Some (files db' !! p);
}.
Lemma upload_le_refl db : le db db.
Proof. split; [|done|done]. intros a r H. by exists r. Qed.

Lemma insert_manifest_cases r db db' :
  insert_manifest r db = Some db' →
  upload_manifests db !! m_artifactId (upload r) = None ∧
  db' = set_manifests (<[m_artifactId (upload r) := r]> (upload_manifests db)) db.
Proof. unfold insert_manifest. intros H. case_match eqn:E; [|done]. simplify_eq. by to_prop. Qed.

Lemma insert_chunk_cases a off row db db' :
  insert_chunk a off row db = Some db' →
  upload_chunks db !! (a, off) = None ∧ is_Some (upload_manifests db !! a) ∧ (0 < row_sizeBytes row)%Z ∧
  db' = set_chunks (<[(a, off) := row]> (upload_chunks db)) db.
Proof. unfold insert_chunk. intros H. case_match eqn:E; [|done]. simplify_eq. by to_prop. Qed.

Lemma select_manifest_Some k db r :
  select_manifest k db = Some r ↔
  upload_manifests db !! k_artifactId k = Some r ∧ m_projectId (upload r) = k_projectId k ∧ m_runId (upload r) = k_runId k.
Proof.
  unfold select_manifest. destruct (upload_manifests db !! k_artifactId k) as [r'|]; [|naive_solver].
  destruct (String.eqb_spec (m_projectId (upload r')) (k_projectId k)); cbn; [|naive_solver].
  destruct (String.eqb_spec (m_runId (upload r')) (k_runId k)); naive_solver.
Qed.

(** The row [update_verified] leaves. *)
Definition marked (rel at_ : string) (r : ArtifactUploadManifestRecord) : ArtifactUploadManifestRecord :=
  {| upload := upload r; jobId := jobId r; registeredByRunnerId := registeredByRunnerId r;
     registeredLeaseEpoch := registeredLeaseEpoch r; status := verified; createdAt := createdAt r;
     relativePath := Some rel; verifiedAt := Some at_ |}.
Lemma update_verified_cases k rel at_ db db' :
  update_verified k rel at_ db = Some db' →
  db' = db ∨ ∃ r, select_manifest k db = Some r ∧
    db' = set_manifests (<[k_artifactId k := marked rel at_ r]> (upload_manifests db)) db.
Proof.
  unfold update_verified. destruct (select_manifest k db) as [r|]; intros [= <-]; [right|by left]. by exists r.
Qed.

Lemma insert_artifact_cases m db :
  (insert_artifact m db).2 = db ∨ ∃ a, (insert_artifact m db).2 = set_artifacts a db.
Proof. unfold insert_artifact. case_match; [right; by eexists|by left]. Qed.

Lemma le_set_manifest a r' db :
  (∀ r, upload_manifests db !! a = Some r → evolves r r') →
  le db (set_manifests (<[a := r']> (upload_manifests db)) db).
Proof.
  intros H. split; [|done|done]. intros a' r Hr. cbn. destruct (decide (a' = a)) as [-> |Hne].
  - exists r'. by rewrite lookup_insert_eq; auto.
  - exists r. by rewrite lookup_insert_ne.
Qed.
Lemma le_set_file p b db : le db (set_files (<[p := b]> (files db)) db).
Proof.
  split; [|done|]; cbn; [intros a r H; by exists r|]. intros q. rewrite lookup_insert_is_Some. destruct (decide (p = q)); auto.
Qed.
Lemma le_set_artifacts m db : le db (set_artifacts m db).
Proof. split; [|done|done]. intros a r H. by exists r. Qed.

Lemma upload_writes_le e f db o db' :
  writes e f db o db' → (∀ db1, f db = Some db1 → le db db1) → le db db'.
Proof. intros [[_ H]|[_ [-> |H]]] Hf; [by apply Hf|apply upload_le_refl|by apply Hf]. Qed.

(** ** Paths *)
Lemma split_path_no_slash s : has_char "/"%char s = false → split_path s = [s].
Proof.
  induction s as [|c s IH]; [done|]. cbn. intros [Hc%bool_decide_eq_false Hs]%orb_false_iff. rewrite IH by done.
  by rewrite bool_decide_eq_false_2 by congruence.
Qed.
Lemma split_path_nonempty s : split_path s ≠ [].
Proof.
  destruct s as [|c s]; cbn; [done|]. destruct (split_path s); [done|]. by case_bool_decide.
Qed.
Lemma split_path_app s t : has_char "/"%char s = false → split_path (s +:+ "/" +:+ t) = s :: split_path t.
Proof.
  induction s as [|c s IH]; intros Hs.
  - change ("" +:+ "/" +:+ t) with (String "/" t). cbn.
    destruct (split_path t) as [|seg rest] eqn:E; [|done]. by apply split_path_nonempty in E.
  - change (String c s +:+ "/" +:+ t) with (String c (s +:+ "/" +:+ t)). cbn [has_char split_path] in *.
    apply orb_false_iff in Hs as [Hc%bool_decide_eq_false Hs]. rewrite IH by done.
    by rewrite bool_decide_eq_false_2 by congruence.
Qed.

Lemma safe_segment_walk acc s : safe_segment s = true → walk acc s = acc ++ [s].
Proof. unfold safe_segment, walk. intros H%negb_true_iff. to_prop. by rewrite H, H3, H4. Qed.

Lemma starts_with_slash s t : s ≠ "" → str_startsWith (s +:+ t) "/" = str_startsWith s "/".
Proof. by destruct s. Qed.

Lemma resolve_safe root s t :
  safe_segment s = true → str_startsWith s "/" = false → safe_segment t = true →
  resolve root (s +:+ "/" +:+ t) = root ++ [s; t].
Proof.
  intros Hs Hd Ht. assert (s ≠ "" ∧ has_char "/"%char s = false ∧ has_char "/"%char t = false) as (Hn & Hs' & Ht').
  { unfold safe_segment in Hs, Ht. to_prop. split_and!; try done. by intros ->. }
  unfold resolve. rewrite starts_with_slash, Hd, split_path_app, split_path_no_slash by done.
  cbn. rewrite !safe_segment_walk by done. by rewrite <- app_assoc.
Qed.

(** ** The bytes of a file *)
Definition slice (b : buffer) (off : Z) (n : nat) : buffer := take n (drop (Z.to_nat off) b).
Notation data_of s := (String.list_ascii_of_string s).

Lemma length_data s : length (data_of s) = String.length s.
Proof. induction s as [|c s IH]; cbn; congruence. Qed.

Lemma lookup_slice b off n i : slice b off n !! i = if decide (i < n) then b !! (Z.to_nat off + i) else None.
Proof.
  unfold slice. destruct (decide (i < n)).
  - by rewrite lookup_take_lt, lookup_drop.
  - by rewrite lookup_take_ge by lia.
Qed.

Lemma set_bytes_Ret b data off b' :
  set_bytes b data off = Ret b' →
  (0 <= off)%Z ∧ length b' = length b ∧ slice b' off (length data) = data ∧
  ∀ off' n, (0 <= off')%Z → (off' + Z.of_nat n <= off)%Z ∨ (off + Z.of_nat (length data) <= off')%Z →
    slice b' off' n = slice b off' n.
Proof.
  unfold set_bytes, size_of. case_match eqn:E; [done|]. intros [= <-]. to_prop.
  assert (length (take (Z.to_nat off) b) = Z.to_nat off) as Hl by (rewrite length_take; lia).
  split_and!; [done|rewrite !length_app, Hl, length_drop; lia| |].
  - unfold slice. by rewrite drop_app_length' by done; rewrite take_app_length.
  - intros off' n Ho Hd. apply list_eq. intros i. rewrite !lookup_slice. case_decide; [|done].
    destruct (decide (Z.to_nat off' + i < Z.to_nat off)).
    + by rewrite lookup_app_l, lookup_take_lt by lia.
    + rewrite lookup_app_r, lookup_app_r, lookup_drop by lia. f_equal. lia.
Qed.

(** Chunks on the grid, the same bytes at the same offset. *)
Record gridded (l : list ArtifactUploadChunkRecord) : Prop := {
  gr_grid : ∀ c, c ∈ l → (0 <= ch_offset (chunk c))%Z ∧ Z.rem (ch_offset (chunk c)) ARTIFACT_CHUNK_SIZE_BYTES = 0%Z ∧
    (bytes_length (ch_bytes (chunk c)) <= ARTIFACT_CHUNK_SIZE_BYTES)%Z;
  gr_agree : ∀ c c', c ∈ l → c' ∈ l → ch_offset (chunk c) = ch_offset (chunk c') →
    ch_bytes (chunk c) = ch_bytes (chunk c');
}.
Definition placed (b : buffer) (c : ArtifactUploadChunkRecord) : Prop :=
  slice b (ch_offset (chunk c)) (String.length (ch_bytes (chunk c))) = data_of (ch_bytes (chunk c)).

Lemma grid_apart x y :
  Z.rem x ARTIFACT_CHUNK_SIZE_BYTES = 0%Z → Z.rem y ARTIFACT_CHUNK_SIZE_BYTES = 0%Z → x ≠ y →
  (x + ARTIFACT_CHUNK_SIZE_BYTES <= y)%Z ∨ (y + ARTIFACT_CHUNK_SIZE_BYTES <= x)%Z.
Proof.
  intros [u ->]%Z.rem_divide [v ->]%Z.rem_divide; [|done..]. unfold ARTIFACT_CHUNK_SIZE_BYTES. nia.
Qed.

Lemma assemble_placed l0 l b b' :
  gridded (l0 ++ l) → (∀ c, c ∈ l0 → placed b c) → assemble l b = Ret b' → ∀ c, c ∈ l0 ++ l → placed b' c.
Proof.
  revert l0 b. induction l as [|c l IH]; intros l0 b Hg Hp; cbn.
  - intros [= <-]. by rewrite app_nil_r.
  - destruct (set_bytes b (data_of (ch_bytes (chunk c))) (ch_offset (chunk c))) as [b1|e|] eqn:Hs;
      [|done|unfold set_bytes in Hs; by case_match]. cbn. intros Ha.
    rewrite (cons_middle c l0 l), app_assoc in Hg |- *. apply (IH (l0 ++ [c]) b1 Hg); [|exact Ha].
    apply set_bytes_Ret in Hs as (H0 & _ & Hin & Hout). rewrite length_data in Hin.
    destruct Hg as [Hgrid Hagree]. intros c' [Hc'| ->%list_elem_of_singleton]%elem_of_app; [|done].
    assert (c ∈ (l0 ++ [c]) ++ l ∧ c' ∈ (l0 ++ [c]) ++ l) as [Hi Hi'] by set_solver.
    unfold placed. destruct (decide (ch_offset (chunk c') = ch_offset (chunk c))) as [E|Hne].
    + rewrite (Hagree _ _ Hi' Hi E), E. exact Hin.
    + destruct (Hgrid _ Hi) as (Hp1 & Hr1 & Hl1), (Hgrid _ Hi') as (Hp2 & Hr2 & Hl2). unfold bytes_length in *.
      rewrite Hout; [by apply Hp|done|]. rewrite length_data.
      destruct (grid_apart _ _ Hr1 Hr2); [done|right; lia|left; lia].
Qed.

(** No missing range: every offset of the grid is there. *)
Lemma missing_from_nil fuel m present off o :
  m_chunkSizeBytes m = ARTIFACT_CHUNK_SIZE_BYTES → missing_from fuel m present off = [] →
  (m_sizeBytes m - off <= Z.of_nat fuel * ARTIFACT_CHUNK_SIZE_BYTES)%Z →
  (off <= o < m_sizeBytes m)%Z → (ARTIFACT_CHUNK_SIZE_BYTES | o - off)%Z → o ∈ present.
Proof.
  intros Hm. revert off. induction fuel as [|fuel IH]; intros off; cbn [missing_from]; [lia|].
  case_match eqn:E; to_prop; [|lia]. intros [Hh Ht]%app_eq_nil Hf Ho Hd.
  destruct (decide (o = off)) as [-> |Hne].
  - unfold includes in Hh. by case_bool_decide.
  - rewrite Hm in Ht. apply (IH _ Ht); [lia| |].
    + destruct Hd as [k Hk]. unfold ARTIFACT_CHUNK_SIZE_BYTES in *. nia.
    + destruct Hd as [k Hk]. exists (k - 1)%Z. lia.
Qed.

Lemma missingRanges_nil m l o :
  m_chunkSizeBytes m = ARTIFACT_CHUNK_SIZE_BYTES → missingRanges m l = [] →
  (0 <= o < m_sizeBytes m)%Z → Z.rem o ARTIFACT_CHUNK_SIZE_BYTES = 0%Z → ∃ c, c ∈ l ∧ ch_offset (chunk c) = o.
Proof.
  intros Hm. unfold missingRanges. case_match eqn:E; to_prop; [lia|]. intros Hn Ho Hr%Z.rem_divide; [|done].
  apply (missing_from_nil _ _ _ _ o Hm) in Hn; [|rewrite Hm, Z.sub_0_r|lia|by rewrite Z.sub_0_r].
  - apply list_elem_of_fmap in Hn as (c & -> & Hc). by exists c.
  - assert (0 <= m_sizeBytes m / ARTIFACT_CHUNK_SIZE_BYTES)%Z by (apply Z.div_pos; unfold ARTIFACT_CHUNK_SIZE_BYTES; lia).
    rewrite Nat2Z.inj_succ, Z2Nat.id by done.
    pose proof (Z.mul_succ_div_gt (m_sizeBytes m) ARTIFACT_CHUNK_SIZE_BYTES). unfold ARTIFACT_CHUNK_SIZE_BYTES in *. lia.
Qed.

(** A buffer is its pieces on the grid. *)
Lemma same_pieces (n : Z) (b b' : buffer) :
  size_of b = n → size_of b' = n →
  (∀ off, (0 <= off < n)%Z → Z.rem off ARTIFACT_CHUNK_SIZE_BYTES = 0%Z →
     ∃ k : nat, Z.of_nat k = Z.min ARTIFACT_CHUNK_SIZE_BYTES (n - off) ∧ slice b off k = slice b' off k) → b = b'.
Proof.
  unfold size_of. intros S1 S2 H. apply list_eq_same_length with (n := length b); [lia|done|].
  intros i x y Hi Hx Hy. set (off := (Z.of_nat i / ARTIFACT_CHUNK_SIZE_BYTES * ARTIFACT_CHUNK_SIZE_BYTES)%Z).
  pose proof (Z.mul_div_le (Z.of_nat i) ARTIFACT_CHUNK_SIZE_BYTES eq_refl) as H1.
  pose proof (Z.mul_succ_div_gt (Z.of_nat i) ARTIFACT_CHUNK_SIZE_BYTES eq_refl) as H2.
  assert (0 <= Z.of_nat i / ARTIFACT_CHUNK_SIZE_BYTES)%Z by (by apply Z.div_pos; [lia|]).
  assert (0 <= off <= Z.of_nat i ∧ Z.of_nat i < off + ARTIFACT_CHUNK_SIZE_BYTES)%Z as [Ho Hoi] by (unfold off; nia).
  destruct (H off) as (k & Hk & E); [lia|by apply Z.rem_divide; [|eexists]|].
  apply (f_equal (λ l, l !! (i - Z.to_nat off)%nat)) in E.
  rewrite !lookup_slice, !decide_True in E by lia.
  replace (Z.to_nat off + (i - Z.to_nat off))%nat with i in E by lia. congruence.
Qed.

(** ** The calls of the stores *)
Section safety.
Context (sha256Hex : string → string) (tenantId : string) (artifactDataDir : path).

Definition answers (B : Type) (e : Call B) : Db → B → Db → Prop :=
  match e in Call B return Db → B → Db → Prop with
  | Now => λ db _ db', db' = db
  | SelectManifest k => reads (select_manifest k)
  | InsertManifest r => writes DatabaseError (insert_manifest r)
  | SelectChunk a off => reads (select_chunk a off)
  | InsertChunk a off row => writes DatabaseError (insert_chunk a off row)
  | SelectChunks k => reads (select_chunks tenantId k)
  | UpdateVerified k rel at_ => writes DatabaseError (update_verified k rel at_)
  | SelectArtifact a => reads (select_artifact a)
  | InsertArtifact m => λ db o db',
      (o = Ok (insert_artifact m db).1 ∧ db' = (insert_artifact m db).2) ∨
      (o = Throw DatabaseError ∧ (db' = db ∨ db' = (insert_artifact m db).2))
  | WriteFile p b => writes ArtifactWriteFailed (λ db, Some (set_files (<[p := b]> (files db)) db))
  | ReadFile p => λ db o db', (o = files db !! p ∨ o = None) ∧ db' = db
  end.

Lemma upload_answers_le B (e : Call B) db b db' : answers B e db b db' → le db db'.
Proof.
  destruct e; cbn; try (intros ->; apply upload_le_refl); try (intros [_ ->]; apply upload_le_refl).
  - intros H. eapply upload_writes_le; [done|]. intros db1 [Hn ->]%insert_manifest_cases.
    apply le_set_manifest. congruence.
  - intros H. eapply upload_writes_le; [done|]. intros db1 (Hn & _ & _ & ->)%insert_chunk_cases.
    split; cbn; [intros a r Hr; by exists r|by apply insert_subseteq|done].
  - intros H. eapply upload_writes_le; [done|].
    intros db1 [-> |(r & [Hr _]%select_manifest_Some & ->)]%update_verified_cases; [apply upload_le_refl|].
    apply le_set_manifest. intros r0 Hr0. simplify_eq. by split.
  - destruct (insert_artifact_cases m db) as [E|[x E]]; rewrite E;
      intros [[_ ->]|[_ [-> | ->]]]; (apply upload_le_refl || apply le_set_artifacts).
  - intros H. eapply upload_writes_le; [done|]. intros db1 [= <-]. apply le_set_file.
Qed.

(** ** What a note says of the tables, for good *)
Definition holds (db : Db) (n : Note) : Prop :=
  match n with
  | n_manifest k (Ok (Some r)) => ∃ r', upload_manifests db !! k_artifactId k = Some r' ∧ evolves r r'
  | n_inserted r (Ok tt) => ∃ r', upload_manifests db !! m_artifactId (upload r) = Some r' ∧ evolves r r'
  | n_chunks k (Ok l) => ∀ c, c ∈ l → ∃ row,
      upload_chunks db !! (k_artifactId k, ch_offset (chunk c)) = Some row ∧ row_bytes row = ch_bytes (chunk c)
  | n_written p (Ok tt) => is_Some (files db !! p)
  | n_marked k (Ok tt) => ∃ r, upload_manifests db !! k_artifactId k = Some r ∧ status r = verified
  | _ => True
  end.

Lemma upload_holds_mono db db' n : le db db' → holds db n → holds db' n.
Proof.
  intros L. destruct n as [k [[r|]|e]|r [[]|e]|k [l|e]|p [[]|e]|k [[]|e]|]; cbn; try done.
  - intros (r' & Hr & He). destruct (le_manifests _ _ L _ _ Hr) as (r'' & Hr' & He').
    exists r''. split; [done|]. by eapply evolves_trans.
  - intros (r' & Hr & He). destruct (le_manifests _ _ L _ _ Hr) as (r'' & Hr' & He').
    exists r''. split; [done|]. by eapply evolves_trans.
  - intros H c Hc. destruct (H c Hc) as (row & Hrow & Hb). exists row. split; [|done]. by eapply lookup_weaken, L.
  - apply L.
  - intros (r & Hr & Hv). destruct (le_manifests _ _ L _ _ Hr) as (r' & Hr' & _ & He). exists r'. auto.
Qed.

Lemma select_chunks_elem k db c :
  c ∈ select_chunks tenantId k db → ∃ row,
    upload_chunks db !! (k_artifactId k, ch_offset (chunk c)) = Some row ∧ row_bytes row = ch_bytes (chunk c).
Proof.
  unfold select_chunks. destruct (select_manifest k db) as [r|]; [|by intros ?%elem_of_nil].
  rewrite merge_sort_Permutation. intros ([[a off] row] & -> & [Ha Hel]%list_elem_of_filter)%list_elem_of_fmap.
  apply elem_of_map_to_list in Hel. cbn in *. subst a. by exists row.
Qed.

Definition marks {B} (e : Call B) : bool := match e with UpdateVerified _ _ _ => true | _ => false end.
Lemma upload_answers_holds B (e : Call B) db b db' :
  marks e = false → answers B e db b db' → holds db' (note B e b).
Proof.
  intros Hm. destruct e; cbn in *; try done.
  - intros [[-> | ->] ->]; [|done]. destruct (select_manifest k db) as [r|] eqn:E; [|done].
    apply select_manifest_Some in E as [E _]. exists r. split; [done|apply evolves_refl].
  - intros [[-> [_ ->]%insert_manifest_cases]|[-> _]]; [|done]. exists r. cbn.
    rewrite lookup_insert_eq. split; [done|apply evolves_refl].
  - intros [[-> | ->] ->]; [|done]. intros c. apply select_chunks_elem.
  - intros [[-> [= <-]]|[-> _]]; [|done]. cbn. by rewrite lookup_insert_eq.
Qed.

(** ** What an upload may call *)
Definition relative_path (m : ArtifactUploadManifest) : string := m_runId m +:+ "/" +:+ m_artifactId m.
Definition location (m : ArtifactUploadManifest) : path :=
  artifactDataDir ++ [tenantId; m_projectId m; m_runId m; m_artifactId m].

(** The manifest was read, or registered by this very call. *)
Definition known (h : list Note) (r : ArtifactUploadManifestRecord) : Prop :=
  (∃ k, k_artifactId k = m_artifactId (upload r) ∧ n_manifest k (Ok (Some r)) ∈ h) ∨ n_inserted r (Ok tt) ∈ h.

Definition permitted (B : Type) (h : list Note) (e : Call B) : Prop :=
  match e with
  | InsertManifest r => manifest_valid (upload r) = true ∧ m_tenantId (upload r) = tenantId ∧ status r = registered
  | InsertChunk a off row => ∃ r, known h r ∧ m_artifactId (upload r) = a ∧
      (0 <= off)%Z ∧ Z.rem off ARTIFACT_CHUNK_SIZE_BYTES = 0%Z ∧ (off < Z.max 1 (m_sizeBytes (upload r)))%Z ∧
      row_sizeBytes row = bytes_length (row_bytes row) ∧
      bytes_length (row_bytes row) = Z.min (m_chunkSizeBytes (upload r)) (m_sizeBytes (upload r) - off)
  | WriteFile p b => ∃ r l, known h r ∧ n_chunks (key_of (upload r)) (Ok l) ∈ h ∧ p = location (upload r) ∧
      missingRanges (upload r) l = [] ∧
      assemble (merge_sort offset_le l) (new_buffer (m_sizeBytes (upload r))) = Ret b ∧
      size_of b = m_sizeBytes (upload r) ∧ sha256Hex (string_of b) = m_sha256 (upload r)
  | UpdateVerified k rel at_ => ∃ r, known h r ∧ k = key_of (upload r) ∧ rel = relative_path (upload r) ∧
      n_written (location (upload r)) (Ok tt) ∈ h
  | _ => True
  end.

Notation tri := (@Interact.tri Call UploadError Note note (λ _ _ _, True) permitted _).

Lemma tri_upload {B} (e : Call (outcome UploadError B)) Q h :
  permitted _ h e → (∀ b, Q (Ok b) (note _ e (Ok b) :: h)) → (∀ x h', Q (Throw x) h') → tri (call e) Q h.
Proof. intros He HQ HX. apply tri_bind, tri_ask; [done|]. intros [b|x] _; [apply HQ|apply HX]. Qed.

Lemma known_more h l r : known h r → known (l ++ h) r.
Proof. intros [(k & Hk & H)|H]; [left; exists k|right]; set_solver. Qed.

(** A program that calls nothing. *)
Lemma assemble_pure l b : (∃ b', assemble l b = Ret b') ∨ ∃ e, assemble l b = Fail e.
Proof.
  revert b. induction l as [|c l IH]; intros b; cbn; [left; by eexists|].
  unfold set_bytes. case_match; cbn; [right; by eexists|apply IH].
Qed.

(** ** The methods *)
Ltac elem := solve [repeat first [assumption | apply list_elem_of_here | apply list_elem_of_further]].

Lemma tri_resolve root p (Q : outcome UploadError path → list Note → Prop) h :
  Q (Ok p) h → (∀ x h', Q (Throw x) h') → tri (resolveWithinRoot root p) Q h.
Proof.
  intros HQ HX. unfold resolveWithinRoot. destruct (below root p) as [[|seg rest]|]; try apply tri_fail, HX.
  destruct (str_startsWith seg ".."); [apply tri_fail, HX|by apply tri_ret].
Qed.

Lemma tri_local_write r bytes l (Q : outcome UploadError ArtifactManifest → list Note → Prop) h :
  let m := upload r in
  known h r → n_chunks (key_of m) (Ok l) ∈ h → missingRanges m l = [] →
  assemble (merge_sort offset_le l) (new_buffer (m_sizeBytes m)) = Ret bytes →
  size_of bytes = m_sizeBytes m → sha256Hex (string_of bytes) = m_sha256 m →
  (∀ st, am_relativePath st = relative_path m → ∀ n, Q (Ok st) (n :: n_written (location m) (Ok tt) :: h)) →
  (∀ x h', Q (Throw x) h') →
  tri (local_write sha256Hex (artifactDataDir ++ [tenantId; m_projectId m])
    {| w_artifactId := m_artifactId m; w_runId := m_runId m; w_name := m_artifactId m;
       w_kind := "other"; w_mediaType := m_mediaType m; w_bytes := bytes |}) Q h.
Proof.
  intros m Hk Hc Hmiss Has Hsize Hsha HQ HX. unfold local_write, assertSafeSegment. cbn [w_runId w_name w_bytes].
  apply tri_bind, tri_fail_if; [intros; apply HX|]. intros [[H1 H2]%orb_false_iff _]%orb_false_iff.
  apply tri_bind, tri_fail_if; [intros; apply HX|]. intros [[H3 H4]%orb_false_iff _]%orb_false_iff.
  rewrite negb_false_iff in H1, H3. rewrite resolve_safe by done. rewrite <- app_assoc.
  apply tri_bind, tri_resolve; [|done]. apply tri_bind, tri_upload; [|intros []|done].
  - exists r, l. by split_and!.
  - apply tri_bind, tri_ask; [done|]. intros now _. apply tri_ret. by apply HQ.
Qed.

Lemma tri_local_verify root st (Q : outcome UploadError bool → list Note → Prop) h :
  (∀ b n, Q (Ok b) (n :: h)) → (∀ x h', Q (Throw x) h') → tri (local_verify sha256Hex root st) Q h.
Proof.
  intros HQ HX. unfold local_verify. apply tri_bind, tri_resolve; [|done].
  apply tri_bind, tri_ask; [done|]. intros content _. apply tri_ret, HQ.
Qed.

Lemma tri_append st (Q : outcome UploadError AppendResult → list Note → Prop) h :
  (∀ a l, Q (Ok a) (l ++ h)) → (∀ x h', Q (Throw x) h') → tri (manifestStore_append st) Q h.
Proof.
  intros HQ HX. unfold manifestStore_append. apply tri_bind, tri_upload; [done| |done].
  intros [e|]; [by apply tri_ret, (HQ _ [_])|]. apply tri_bind, tri_upload; [done| |done].
  intros [|]; [by apply tri_ret, (HQ _ [_; _])|]. apply tri_bind, tri_upload; [done| |done].
  intros d. case_bool_decide; [by apply tri_ret, (HQ _ [_; _; _])|by apply tri_fail].
Qed.

(** An upload that is acknowledged was verified when its manifest was read, or it
    has just marked it verified. *)
Definition confirmed (r : ArtifactUploadManifestRecord) (h : list Note) : Prop :=
  known h r ∧ (status r = verified ∨ n_marked (key_of (upload r)) (Ok tt) ∈ h).

Lemma tri_verifyAndCommit r l (Q : outcome UploadError unit → list Note → Prop) h :
  let m := upload r in
  m_tenantId m = tenantId → known h r → n_chunks (key_of m) (Ok l) ∈ h → missingRanges m l = [] →
  (∀ h', confirmed r h' → Q (Ok tt) h') → (∀ x h', Q (Throw x) h') →
  tri (verifyAndCommit sha256Hex tenantId artifactDataDir r l) Q h.
Proof.
  intros m Ht Hk Hc Hmiss HQ HX. unfold verifyAndCommit, artifactStoreFor. fold m. apply tri_bind.
  destruct (assemble_pure (merge_sort offset_le l) (new_buffer (m_sizeBytes m))) as [[b E]|[e E]]; rewrite E;
    [apply tri_ret|by apply tri_fail].
  apply tri_bind, tri_fail_if; [done|]. intros [Hsize%negb_false_iff%Z.eqb_eq Hsha%negb_false_iff%String.eqb_eq]%orb_false_iff.
  apply tri_bind, tri_bind, tri_fail_if; [done|]. intros _. apply tri_bind, tri_fail_if; [done|]. intros _. apply tri_ret.
  apply tri_bind, (tri_local_write r b l); try done. intros st Hst n1.
  apply tri_bind, tri_bind, tri_fail_if; [done|]. intros _. apply tri_bind, tri_fail_if; [done|]. intros _. apply tri_ret.
  apply tri_bind, tri_local_verify; [|done]. intros ok n2. apply tri_bind, tri_fail_if; [done|]. intros _.
  apply tri_bind, tri_append; [|done]. intros a l'. apply tri_bind, tri_ask; [done|]. intros now _.
  unfold store_markVerified. cbn [key_of k_tenantId]. rewrite Ht, String.eqb_refl. cbn [negb].
  set (h' := note string Now now :: l' ++ n2 :: n1 :: n_written (location m) (Ok tt) :: h).
  assert (known h' r) as Hk'.
  { apply (known_more h ((note string Now now :: l') ++ [n2; n1; n_written (location m) (Ok tt)])) in Hk.
    by rewrite <- app_assoc in Hk. }
  apply tri_upload; [|intros []|done].
  - exists r. split_and!; [done..|]. unfold h'. set_solver.
  - apply HQ. split; [|right; set_solver]. by apply (known_more h' [_]).
Qed.

(** What a returned acknowledgement rests on. *)
Definition answered (o : outcome UploadError ArtifactUploadAck) (h : list Note) : Prop :=
  match o with
  | Ok ack => up_acknowledged ack = true → ∃ r, confirmed r h ∧
      up_artifactId ack = m_artifactId (upload r) ∧ up_runId ack = m_runId (upload r)
  | Throw _ => True
  end.

Lemma tri_progressFor r h :
  m_tenantId (upload r) = tenantId → known h r →
  tri (progressFor sha256Hex tenantId artifactDataDir r) answered h.
Proof.
  intros Ht Hk. unfold progressFor. case_bool_decide as Hv.
  - apply tri_ret. intros _. exists r. split; [|done]. split; [done|by left].
  - unfold store_chunks. cbn [key_of k_tenantId]. rewrite Ht, String.eqb_refl. cbn [negb].
    apply tri_bind, tri_upload; [done| |done]. intros l. destruct (missingRanges (upload r) l) eqn:Hm; [|by apply tri_ret].
    apply tri_bind, tri_verifyAndCommit; try done; [by apply (known_more _ [_])|elem|].
    intros h' Hc. apply tri_ret. intros _. by exists r.
Qed.

Lemma sameManifest_upload l r : sameManifest l r = true → upload l = upload r.
Proof. unfold sameManifest. intros H. by to_prop. Qed.

Lemma scoped_id r : m_tenantId (upload r) = tenantId → scoped tenantId r = r.
Proof. destruct r as [[] ???????]. cbn. by intros <-. Qed.

(** The application of the runner's tenant takes its calls. *)
Definition of_tenant (i : ArtifactUploadIdentity) : Prop := id_tenantId i = tenantId.

Lemma tri_registerManifest input :
  of_tenant (reg_identity input) →
  tri (registerManifest sha256Hex tenantId artifactDataDir input) answered [].
Proof.
  intros Hi. unfold registerManifest. apply tri_bind, tri_fail_if; [done|]. intros Hv%negb_false_iff.
  apply tri_bind, tri_fail_if; [done|]. intros [Ht%String.eqb_eq _]%negb_false_iff%andb_true_iff. rewrite Hi in Ht.
  apply tri_bind, tri_ask; [done|]. intros now _. set (r := {| upload := reg_manifest input |}).
  assert (m_tenantId (upload r) = tenantId) as Htr by done.
  apply tri_bind. unfold store_registerManifest. apply tri_bind. unfold store_manifest. cbn [key_of k_tenantId].
  rewrite Htr, String.eqb_refl. cbn [negb]. apply tri_upload; [done| |done]. intros [e|].
  - apply tri_ret. destruct (sameManifest e r) eqn:Hs; [|done]. apply sameManifest_upload in Hs.
    apply tri_progressFor; [by rewrite Hs|]. left. eexists. split; [|elem]. cbn. by rewrite Hs.
  - rewrite scoped_id by done. apply tri_bind, tri_upload; [done|intros []|done]. apply tri_ret.
    apply tri_progressFor; [done|]. right. elem.
Qed.

Lemma tri_uploadChunk input :
  of_tenant (cid_identity (up_identity input)) →
  tri (uploadChunk sha256Hex tenantId artifactDataDir input) answered [].
Proof.
  intros Hi. unfold uploadChunk. apply tri_bind, tri_fail_if; [done|]. intros Hv%negb_false_iff.
  apply tri_bind, tri_fail_if; [done|]. intros Hsc%negb_false_iff. to_prop.
  rewrite !String.eqb_eq in *. assert (ch_tenantId (up_chunk input) = tenantId) as Ht by congruence.
  apply tri_bind. unfold store_manifest. cbn [chunk_key k_tenantId]. rewrite Ht, String.eqb_refl. cbn [negb].
  apply tri_upload; [done| |done]. intros [r|]; [|done].
  apply tri_bind, tri_fail_if; [done|]. intros _. apply tri_bind. unfold assertChunkMatchesManifest.
  apply tri_bind, tri_fail_if; [done|]. intros Hm%negb_false_iff. apply tri_fail_if; [done|]. intros Hr. to_prop.
  rewrite !String.eqb_eq in *. set (h := note _ _ _ :: []).
  assert (known h r) as Hk. { left. eexists. split; [|elem]. cbn. congruence. }
  assert (m_tenantId (upload r) = tenantId) as Htr by congruence.
  case_bool_decide as Hst.
  - apply tri_ret. intros _. exists r. split; [|done]. split; [done|by left].
  - apply tri_bind, tri_ask; [done|]. intros now _. apply tri_bind. unfold store_appendChunk. cbn [chunk].
    rewrite Ht, String.eqb_refl. cbn [negb]. apply tri_bind, tri_upload; [done| |done]. intros [e|].
    + apply tri_ret. destruct (_ && _); [|done]. by apply tri_progressFor, (known_more _ [_; _]).
    + apply tri_bind, tri_upload; [|intros []|done].
      * exists r. unfold chunk_valid in Hv. to_prop. split_and!; try done; try congruence.
        by apply (known_more _ [_; _]).
      * apply tri_ret. by apply tri_progressFor, (known_more _ [_; _; _]).
Qed.

(** ** The invariant of the tables *)
Definition manifest_of (db : Db) (a : string) : option ArtifactUploadManifest := upload <$> upload_manifests db !! a.

(** [b] is the artifact: it has the registered size and hash, every chunk stored
    for it is in its place, and every place has its chunk. *)
Record stored (db : Db) (m : ArtifactUploadManifest) (b : buffer) : Prop := {
  st_size : size_of b = m_sizeBytes m;
  st_sha : sha256Hex (string_of b) = m_sha256 m;
  st_chunks : ∀ off row, upload_chunks db !! (m_artifactId m, off) = Some row →
    slice b off (String.length (row_bytes row)) = data_of (row_bytes row);
  st_complete : ∀ off, (0 <= off < m_sizeBytes m)%Z → Z.rem off ARTIFACT_CHUNK_SIZE_BYTES = 0%Z →
    is_Some (upload_chunks db !! (m_artifactId m, off));
}.

Record DbOk (db : Db) : Prop := {
  ok_rows : ∀ a m, manifest_of db a = Some m →
    m_artifactId m = a ∧ m_tenantId m = tenantId ∧ (0 <= m_sizeBytes m)%Z ∧ m_chunkSizeBytes m = ARTIFACT_CHUNK_SIZE_BYTES;
  ok_chunks : ∀ a off row, upload_chunks db !! (a, off) = Some row → ∃ m, manifest_of db a = Some m ∧
    (0 <= off < m_sizeBytes m)%Z ∧ Z.rem off ARTIFACT_CHUNK_SIZE_BYTES = 0%Z ∧
    bytes_length (row_bytes row) = Z.min ARTIFACT_CHUNK_SIZE_BYTES (m_sizeBytes m - off);
  ok_files : ∀ p b, files db !! p = Some b →
    ∃ m, manifest_of db (m_artifactId m) = Some m ∧ p = location m ∧ stored db m b;
  ok_verified : ∀ a r, upload_manifests db !! a = Some r → status r = verified →
    is_Some (files db !! location (upload r)) ∧ relativePath r = Some (relative_path (upload r));
}.

Lemma manifest_of_le db db' a m : le db db' → manifest_of db a = Some m → manifest_of db' a = Some m.
Proof.
  unfold manifest_of. intros L (r & Hr & ->)%fmap_Some. destruct (le_manifests _ _ L _ _ Hr) as (r' & Hr' & E & _).
  by rewrite Hr', <- E.
Qed.

Lemma known_row db h r :
  Forall (holds db) h → known h r → ∃ r', upload_manifests db !! m_artifactId (upload r) = Some r' ∧ evolves r r'.
Proof.
  rewrite Forall_forall. intros Hall [(k & <- & Hk)|Hi]; [exact (Hall _ Hk)|exact (Hall _ Hi)].
Qed.
Lemma known_manifest db h r :
  Forall (holds db) h → known h r → manifest_of db (m_artifactId (upload r)) = Some (upload r).
Proof.
  intros Hall Hk. destruct (known_row _ _ _ Hall Hk) as (r' & Hr & E & _). unfold manifest_of. rewrite Hr. cbn. by rewrite E.
Qed.

(** A location belongs to one artifact. *)
Lemma location_inj m m' : location m = location m' → m_artifactId m = m_artifactId m'.
Proof. unfold location. by intros [= _ _ ?]%app_inv_head. Qed.

(** Writing chunks cannot change what is complete. *)
Lemma stored_le db db' m b :
  le db db' → DbOk db → (∀ a off row, upload_chunks db' !! (a, off) = Some row → ∃ m, manifest_of db' a = Some m ∧
    (0 <= off < m_sizeBytes m)%Z ∧ Z.rem off ARTIFACT_CHUNK_SIZE_BYTES = 0%Z) →
  manifest_of db (m_artifactId m) = Some m → stored db m b → stored db' m b.
Proof.
  intros L HOk Hgrid Hm [Hs Hh Hc Hd]. split; [done|done| |].
  - intros off row Hrow. destruct (Hgrid _ _ _ Hrow) as (m' & Hm' & Ho & Hr).
    rewrite (manifest_of_le _ _ _ _ L Hm) in Hm'. injection Hm' as <-.
    destruct (Hd off Ho Hr) as [row' Hrow']. pose proof (lookup_weaken _ _ _ _ Hrow' (le_chunks _ _ L)) as E.
    rewrite E in Hrow. injection Hrow as <-. by apply Hc.
  - intros off Ho Hr. destruct (Hd off Ho Hr) as [row Hrow]. exists row. by eapply lookup_weaken, L.
Qed.

(** A step that leaves chunks and files alone. *)
Lemma ok_manifests db db' :
  le db db' → DbOk db → upload_chunks db' = upload_chunks db → files db' = files db →
  (∀ a m, manifest_of db' a = Some m → manifest_of db a = Some m ∨
    m_artifactId m = a ∧ m_tenantId m = tenantId ∧ (0 <= m_sizeBytes m)%Z ∧ m_chunkSizeBytes m = ARTIFACT_CHUNK_SIZE_BYTES) →
  (∀ a r, upload_manifests db' !! a = Some r → status r = verified → upload_manifests db !! a = Some r ∨
    is_Some (files db !! location (upload r)) ∧ relativePath r = Some (relative_path (upload r))) →
  DbOk db'.
Proof.
  intros L HOk Hc Hf Hrows Hv. pose proof HOk as [O1 O2 O3 O4].
  assert (∀ a off row, upload_chunks db' !! (a, off) = Some row → ∃ m, manifest_of db' a = Some m ∧
    (0 <= off < m_sizeBytes m)%Z ∧ Z.rem off ARTIFACT_CHUNK_SIZE_BYTES = 0%Z ∧
    bytes_length (row_bytes row) = Z.min ARTIFACT_CHUNK_SIZE_BYTES (m_sizeBytes m - off)) as Hgrid.
  { intros a off row. rewrite Hc. intros H. destruct (O2 _ _ _ H) as (m & Hm & ?). exists m.
    split; [by eapply manifest_of_le|done]. }
  split; [|done| |].
  - intros a m H. by destruct (Hrows _ _ H) as [?|?]; [apply O1|].
  - intros p b. rewrite Hf. intros H. destruct (O3 _ _ H) as (m & Hm & Hp & Hs). exists m.
    split_and!; [by eapply manifest_of_le|done|]. eapply stored_le; try done.
    intros a off row H'. destruct (Hgrid _ _ _ H') as (m' & ?). exists m'. naive_solver.
  - intros a r H Hr. rewrite Hf. destruct (Hv _ _ H Hr) as [?|?]; [by eapply O4|done].
Qed.

(** Chunks that were read complete, and put together, are the artifact. *)
Lemma assembled_stored db h r l b :
  DbOk db → Forall (holds db) h → known h r → n_chunks (key_of (upload r)) (Ok l) ∈ h →
  missingRanges (upload r) l = [] →
  assemble (merge_sort offset_le l) (new_buffer (m_sizeBytes (upload r))) = Ret b →
  size_of b = m_sizeBytes (upload r) → sha256Hex (string_of b) = m_sha256 (upload r) → stored db (upload r) b.
Proof.
  intros HOk Hall Hk Hl Hmiss Has Hsize Hsha. pose proof (known_manifest _ _ _ Hall Hk) as Hm.
  destruct (ok_rows _ HOk _ _ Hm) as (_ & _ & _ & HC).
  assert (∀ c, c ∈ l → ∃ row, upload_chunks db !! (m_artifactId (upload r), ch_offset (chunk c)) = Some row ∧
    row_bytes row = ch_bytes (chunk c)) as Hrows by (rewrite Forall_forall in Hall; exact (Hall _ Hl)).
  assert (∀ off, (0 <= off < m_sizeBytes (upload r))%Z → Z.rem off ARTIFACT_CHUNK_SIZE_BYTES = 0%Z →
    ∃ c, c ∈ l ∧ ch_offset (chunk c) = off) as Hall_there by (intros; by apply (missingRanges_nil (upload r))).
  split; [done|done| |].
  - intros off row Hrow. destruct (ok_chunks _ HOk _ _ _ Hrow) as (m' & Hm' & Ho & Hr & _).
    rewrite Hm in Hm'. injection Hm' as <-. destruct (Hall_there off Ho Hr) as (c & Hc & <-).
    destruct (Hrows _ Hc) as (row' & Hrow' & E). rewrite Hrow in Hrow'. injection Hrow' as <-. rewrite E.
    apply (assemble_placed [] (merge_sort offset_le l) (new_buffer (m_sizeBytes (upload r))) b); [|set_solver|done|].
    + cbn. split.
      * intros c'. rewrite merge_sort_Permutation. intros Hc'. destruct (Hrows _ Hc') as (row' & Hrow' & <-).
        destruct (ok_chunks _ HOk _ _ _ Hrow') as (m' & Hm' & Ho' & Hr' & ->).
        split; [lia|]. split; [done|]. lia.
      * intros c1 c2. rewrite merge_sort_Permutation. intros H1 H2 Eo.
        destruct (Hrows _ H1) as (row1 & Hrow1 & <-), (Hrows _ H2) as (row2 & Hrow2 & <-).
        rewrite Eo in Hrow1. congruence.
    + cbn. by rewrite merge_sort_Permutation.
  - intros off Ho Hr. destruct (Hall_there off Ho Hr) as (c & Hc & <-).
    destruct (Hrows _ Hc) as (row & Hrow & _). by eexists.
Qed.

Lemma ok_insert_manifest db r db' :
  DbOk db → manifest_valid (upload r) = true → m_tenantId (upload r) = tenantId → status r = registered →
  insert_manifest r db = Some db' → DbOk db'.
Proof.
  intros HOk Hv Ht Hst H. assert (answers _ (InsertManifest r) db (Ok tt) db') as L%upload_answers_le by (by left).
  apply insert_manifest_cases in H as [Hn ->]. eapply ok_manifests; try done; cbn [upload_manifests set_manifests].
  - intros a m. unfold manifest_of. cbn. rewrite lookup_insert. case_decide as E; [|by left].
    intros [= <-]. right. unfold manifest_valid in Hv. by to_prop.
  - intros a r0. rewrite lookup_insert. case_decide; [|by left]. intros [= <-]. by rewrite Hst.
Qed.

Lemma ok_update_verified db h r rel at_ db' :
  DbOk db → Forall (holds db) h → known h r → rel = relative_path (upload r) →
  n_written (location (upload r)) (Ok tt) ∈ h →
  update_verified (key_of (upload r)) rel at_ db = Some db' →
  DbOk db' ∧ ∃ r', upload_manifests db' !! m_artifactId (upload r) = Some r' ∧ status r' = verified.
Proof.
  intros HOk Hall Hk -> Hw H. destruct (known_row _ _ _ Hall Hk) as (r' & Hr' & E & _).
  assert (select_manifest (key_of (upload r)) db = Some r') as Hs by (apply select_manifest_Some; cbn; by rewrite E).
  assert (answers _ (UpdateVerified (key_of (upload r)) (relative_path (upload r)) at_) db (Ok tt) db')
    as L%upload_answers_le by (by left).
  unfold update_verified in H. rewrite Hs in H. injection H as <-. split.
  - eapply ok_manifests; try done; cbn [upload_manifests set_manifests key_of k_artifactId].
    + intros a m. unfold manifest_of. cbn. rewrite lookup_insert. case_decide as Ea; [|by left].
      intros [= <-]. left. subst a. by rewrite Hr'.
    + intros a r0. rewrite lookup_insert. case_decide; [|by left]. intros [= <-] _. right. cbn. rewrite E.
      split; [|done]. rewrite Forall_forall in Hall. exact (Hall _ Hw).
  - eexists. split; [by cbn; rewrite lookup_insert_eq|done].
Qed.

Lemma ok_insert_chunk db h r off row db' :
  DbOk db → Forall (holds db) h → known h r → (0 <= off)%Z → Z.rem off ARTIFACT_CHUNK_SIZE_BYTES = 0%Z →
  row_sizeBytes row = bytes_length (row_bytes row) →
  bytes_length (row_bytes row) = Z.min (m_chunkSizeBytes (upload r)) (m_sizeBytes (upload r) - off) →
  insert_chunk (m_artifactId (upload r)) off row db = Some db' → DbOk db'.
Proof.
  intros HOk Hall Hk H0 Hr Hsz Hlen H. pose proof (known_manifest _ _ _ Hall Hk) as Hm.
  destruct (ok_rows _ HOk _ _ Hm) as (_ & _ & _ & HC). rewrite HC in Hlen.
  assert (answers _ (InsertChunk (m_artifactId (upload r)) off row) db (Ok tt) db')
    as L%upload_answers_le by (by left).
  apply insert_chunk_cases in H as (Hn & _ & Hpos & ->).
  assert (∀ a o row0, <[(m_artifactId (upload r), off):=row]> (upload_chunks db) !! (a, o) = Some row0 →
    ∃ m, manifest_of db a = Some m ∧ (0 <= o < m_sizeBytes m)%Z ∧ Z.rem o ARTIFACT_CHUNK_SIZE_BYTES = 0%Z ∧
      bytes_length (row_bytes row0) = Z.min ARTIFACT_CHUNK_SIZE_BYTES (m_sizeBytes m - o)) as Hgrid.
  { intros a o row0. rewrite lookup_insert. case_decide as E; [|by apply (ok_chunks _ HOk)].
    injection E as <- <-. intros [= <-]. exists (upload r). split_and!; try done; lia. }
  pose proof HOk as [O1 O2 O3 O4]. split; [done|done| |done].
  intros p b Hb. destruct (O3 _ _ Hb) as (m & Hmm & Hp & Hs). exists m. split_and!; [done|done|].
  eapply stored_le; [exact L|done| |done|done]. intros a o row0 Hrow. destruct (Hgrid _ _ _ Hrow) as (m' & ?).
  exists m'. naive_solver.
Qed.

Lemma ok_write_file db h r l b :
  DbOk db → Forall (holds db) h → known h r → n_chunks (key_of (upload r)) (Ok l) ∈ h →
  missingRanges (upload r) l = [] →
  assemble (merge_sort offset_le l) (new_buffer (m_sizeBytes (upload r))) = Ret b →
  size_of b = m_sizeBytes (upload r) → sha256Hex (string_of b) = m_sha256 (upload r) →
  DbOk (set_files (<[location (upload r) := b]> (files db)) db).
Proof.
  intros HOk Hall Hk Hl Hmiss Has Hsize Hsha. pose proof (known_manifest _ _ _ Hall Hk) as Hm.
  pose proof (assembled_stored _ _ _ _ _ HOk Hall Hk Hl Hmiss Has Hsize Hsha) as [S1 S2 S3 S4].
  pose proof HOk as [O1 O2 O3 O4]. split; [done|done| |].
  - intros p b'. cbn. rewrite lookup_insert. case_decide as E.
    + intros [= <-]. exists (upload r). by split_and!.
    + intros Hb. destruct (O3 _ _ Hb) as (m & ? & ? & []). by exists m.
  - intros a r0 H Hv. destruct (O4 _ _ H Hv) as [Hf Hp]. split; [|done]. cbn. rewrite lookup_insert_is_Some.
    destruct (decide (location (upload r) = location (upload r0))); auto.
Qed.

(** ** Many uploads *)
Definition startable (p : prog Call UploadError ArtifactUploadAck) : Prop :=
  (∃ input, of_tenant (reg_identity input) ∧ p = registerManifest sha256Hex tenantId artifactDataDir input) ∨
  (∃ input, of_tenant (cid_identity (up_identity input)) ∧ p = uploadChunk sha256Hex tenantId artifactDataDir input).

Notation system := (@sched_state Call UploadError Note Db ArtifactUploadAck).
Notation step := (sched note answers midway startable).
Notation obeys := (λ ph : prog Call UploadError ArtifactUploadAck * list Note,
  Interact.tri note (λ _ _ _, True) permitted ph.1 answered ph.2).

Record Global (st : system) : Prop := {
  gl_ok : DbOk (shared st);
  gl_notes : Forall (λ ph, Forall (holds (shared st)) ph.2) (processes st);
  gl_obeys : Forall obeys (processes st);
}.

Lemma tri_uploads p : startable p → tri p answered [].
Proof. intros [(i & Hi & ->)|(i & Hi & ->)]; [by apply tri_registerManifest|by apply tri_uploadChunk]. Qed.

Lemma upload_step_le st st' : step st st' → le (shared st) (shared st').
Proof. eapply (sched_le note answers midway startable le upload_le_refl upload_answers_le). by intros ? ? ? ? []. Qed.

(** A write that may or may not have been done. *)
Lemma writes_ok e f db o db' :
  DbOk db → writes e f db o db' → (∀ db1, f db = Some db1 → DbOk db1) → DbOk db'.
Proof. intros HOk [[_ H]|[_ [-> |H]]] Hf; [by apply Hf|done|by apply Hf]. Qed.

Lemma permitted_ok B (e : Call B) db h b db' :
  DbOk db → Forall (holds db) h → permitted B h e → answers B e db b db' → DbOk db'.
Proof.
  intros HOk Hall Hp. destruct e; cbn in *; try (intros ->; exact HOk); try (intros [_ ->]; exact HOk).
  - destruct Hp as (Hv & Ht & Hs). intros H. eapply writes_ok; [done..|]. intros db1. by apply ok_insert_manifest.
  - destruct Hp as (r & Hk & <- & H0 & Hr & _ & Hsz & Hlen). intros H. eapply writes_ok; [done..|].
    intros db1. by eapply ok_insert_chunk.
  - destruct Hp as (r & Hk & -> & Hrel & Hw). intros H. eapply writes_ok; [done..|].
    intros db1 H1. by eapply ok_update_verified in H1 as [? _].
  - assert (∀ a, DbOk (set_artifacts a db)) as Ha by (intros a; apply (ok_manifests db); auto using le_set_artifacts).
    destruct (insert_artifact_cases m db) as [E|[a E]]; rewrite E; intros [[_ ->]|[_ [-> | ->]]]; auto.
  - destruct Hp as (r & l & Hk & Hl & -> & Hm & Has & Hsize & Hsha). intros H. eapply writes_ok; [done..|].
    intros db1 [= <-]. by eapply ok_write_file.
Qed.

Lemma permitted_holds B (e : Call B) db h b db' :
  DbOk db → Forall (holds db) h → permitted B h e → answers B e db b db' → holds db' (note B e b).
Proof.
  intros HOk Hall Hp. destruct (marks e) eqn:Hm; [|by apply upload_answers_holds].
  destruct e; try done. destruct Hp as (r & Hk & -> & Hrel & Hw). intros [[-> H]|[-> _]]; [|done].
  by eapply ok_update_verified in H as [_ ?].
Qed.

Lemma upload_global_step st st' : Global st → step st st' → Global st'.
Proof.
  intros [G1 G2 G3] Hs. split.
  - pose proof G2 as Hn. pose proof G3 as Hob. rewrite Forall_lookup in Hn, Hob.
    destruct Hs as [p s l Hp|B i e k h s s' l Hi Ha|B i e k h b s s' l Hi Ha]; [done|done|].
    eapply permitted_ok; [exact G1|exact (Hn _ _ Hi)|exact (proj1 (Hob _ _ Hi))|exact Ha].
  - eapply (sched_holds_at note answers midway startable le holds upload_le_refl upload_holds_mono upload_answers_le);
      [by intros ? ? ? ? []| |exact G2|exact Hs].
    rewrite Forall_lookup in G2, G3. intros i B e k h b s' Hi Ha.
    eapply permitted_holds; [exact G1|exact (G2 _ _ Hi)|exact (proj1 (G3 _ _ Hi))|exact Ha].
  - eapply sched_tri; [by intros|apply tri_uploads|exact G3|exact Hs].
Qed.

(** Empty tables, and no calls yet. *)
Definition initial (st : system) : Prop :=
  shared st = {| upload_manifests := ∅; upload_chunks := ∅; artifact_manifests := ∅; files := ∅ |} ∧ processes st = [].

Lemma upload_system_safe st0 st : initial st0 → rtc step st0 st → Global st.
Proof.
  intros [Hdb Hps]. apply rtc_invariant; [|intros a b; apply upload_global_step].
  split; rewrite ?Hps; try by constructor. rewrite Hdb. by split.
Qed.

(** Two contents with the same chunks are the same. *)
Lemma stored_unique db m b b' :
  DbOk db → manifest_of db (m_artifactId m) = Some m → stored db m b → stored db m b' → b = b'.
Proof.
  intros HOk Hm [S1 _ S3 S4] [S1' _ S3' _]. apply (same_pieces (m_sizeBytes m)); [done..|].
  intros off Ho Hr. destruct (S4 off Ho Hr) as [row Hrow]. exists (String.length (row_bytes row)).
  destruct (ok_chunks _ HOk _ _ _ Hrow) as (m' & Hm' & _ & _ & Hlen). rewrite Hm in Hm'. injection Hm' as <-.
  split; [exact Hlen|]. by rewrite (S3 _ _ Hrow), (S3' _ _ Hrow).
Qed.

Lemma confirmed_verified (st : system) h r :
  Forall (holds (shared st)) h → confirmed r h →
  ∃ r', upload_manifests (shared st) !! m_artifactId (upload r) = Some r' ∧ upload r' = upload r ∧ status r' = verified.
Proof.
  intros Hall [Hk [Hv|Hn]]; destruct (known_row _ _ _ Hall Hk) as (r' & Hr & E & Hs).
  - exists r'. auto.
  - rewrite Forall_forall in Hall. destruct (Hall _ Hn) as (r2 & Hr2 & Hv). cbn in Hr2. exists r'.
    split_and!; [done|done|]. congruence.
Qed.

(** The artifact [a] is complete on the server, as [b]. *)
Definition complete (db : Db) (a : string) (b : buffer) : Prop :=
  ∃ r, upload_manifests db !! a = Some r ∧ status r = verified ∧ relativePath r = Some (relative_path (upload r)) ∧
    files db !! location (upload r) = Some b ∧ stored db (upload r) b.

Lemma verified_complete db a r :
  DbOk db → upload_manifests db !! a = Some r → status r = verified → ∃ b, complete db a b.
Proof.
  intros HOk Hr Hv. destruct (ok_verified _ HOk _ _ Hr Hv) as [[b Hb] Hrel].
  destruct (ok_files _ HOk _ _ Hb) as (m & Hm & Hp & Hs).
  assert (manifest_of db a = Some (upload r)) as Hma by (unfold manifest_of; by rewrite Hr).
  destruct (ok_rows _ HOk _ _ Hma) as (Ea & _).
  assert (m = upload r) as ->.
  { apply location_inj in Hp. rewrite <- Hp, Ea in Hm. congruence. }
  exists b, r. by split_and!.
Qed.

(** C16: Any number of registrations and uploads run over one tenant's tables and
    files, each may crash at any call, and the database and the file system may
    refuse any call before or after doing its work: an artifact that an upload
    acknowledges, or that a trace is told it may refer to, is in its file with the
    registered size and SHA-256, every chunk stored for it is in its place, and
    these bytes never change again. *)
Theorem acknowledged_artifact_stored st0 st st' :
  initial st0 → rtc step st0 st → rtc step st st' →
  (∀ i ack h, processes st !! i = Some (Ret ack, h) → up_acknowledged ack = true →
     ∃ b, complete (shared st) (up_artifactId ack) b) ∧
  (∀ run ids a, a ∈ acknowledgedArtifactIds run ids (shared st) → ∃ b, complete (shared st) a b) ∧
  ∀ a b, complete (shared st) a b → complete (shared st') a b.
Proof.
  intros H0 Hr Hr'. pose proof (upload_system_safe _ _ H0 Hr) as [G1 G2 G3].
  assert (Global st') as [G1' _ _] by (apply (upload_system_safe st0); [done|by etrans]). split_and!.
  - intros i ack h Hi Hack. rewrite Forall_lookup in G2, G3. destruct (G3 _ _ Hi Hack) as (r & Hc & -> & _).
    destruct (confirmed_verified _ _ _ (G2 _ _ Hi) Hc) as (r' & Hr1 & _ & Hv). by eapply verified_complete.
  - intros run ids a. unfold acknowledgedArtifactIds. rewrite elem_of_list_to_set, list_elem_of_filter. intros [Ha _].
    unfold acknowledged in Ha. destruct (upload_manifests (shared st) !! a) as [r|] eqn:Hrow; [|done]. to_prop.
    by eapply verified_complete.
  - intros a b (r & Hrow & Hv & _ & _ & Hs).
    assert (le (shared st) (shared st')) as L.
    { clear -Hr'. induction Hr' as [|x y z Hs _ IH]; [apply upload_le_refl|]. apply upload_step_le in Hs.
      destruct Hs as [A1 A2 A3], IH as [B1 B2 B3]. split; [|by etrans|auto].
      intros a r Hrow. destruct (A1 _ _ Hrow) as (r1 & H1 & E1), (B1 _ _ H1) as (r2 & H2 & E2).
      exists r2. split; [done|]. by eapply evolves_trans. }
    destruct (le_manifests _ _ L _ _ Hrow) as (r' & Hrow' & E & Hv').
    destruct (verified_complete _ _ _ G1' Hrow' (Hv' Hv)) as (b' & r'' & Hrow'' & H1 & H2 & H3 & Hs').
    rewrite Hrow' in Hrow''. injection Hrow'' as <-.
    assert (manifest_of (shared st) a = Some (upload r)) as Hm by (unfold manifest_of; by rewrite Hrow).
    destruct (ok_rows _ G1 _ _ Hm) as (Ea & _).
    assert (b = b') as <-; [|by exists r'].
    apply (stored_unique (shared st') (upload r')); [done| | |done].
    + unfold manifest_of. by rewrite E, Ea, Hrow', <- E.
    + rewrite E. apply (stored_le (shared st)); [done|done| |by rewrite Ea|done].
      intros a' off row H. destruct (ok_chunks _ G1' _ _ _ H) as (m & ?). exists m. naive_solver.
Qed.
End safety.
End ArtifactSafety.
