(* ===== verification/ArtifactProgress.v ===== *)
(** * Artifact uploads: they complete

    An upload of [ArtifactUpload] when nothing fails: after the manifest is
    registered, chunks may be sent in any order and more than once; every answer
    names exactly the ranges that are still missing, and the last one
    acknowledges the artifact, which is then in its file. *)
From S2P Require Import Prelude.
From S2P Require Import Number.
From S2P Require Import Json.
From S2P Require Import Interact.
From S2P Require Import ArtifactUpload.
From S2P Require Import ArtifactSafety.
From stdpp Require Import sorting.
From Stdlib Require Import Ascii.

Module ArtifactProgress.
Import ArtifactUpload ArtifactSafety.

(** A chunk's size is never computed in unary. *)
#[local] Strategy 1000 [Z.to_nat ARTIFACT_CHUNK_SIZE_BYTES].

Section progress.
Context (sha256Hex : string → string) (tenantId : string) (artifactDataDir : path).

(** ** A world where nothing fails *)
Definition written (f : Db → option Db) (db : Db) : outcome UploadError unit * Db :=
  match f db with Some db' => (Ok tt, db') | None => (Throw DatabaseError, db) end.
Definition respond (B : Type) (e : Call B) : Db → B * Db :=
  match e in Call B return Db → B * Db with
  | Now => λ db, ("2024-01-01T00:00:00.000Z", db)
  | SelectManifest k => λ db, (Ok (select_manifest k db), db)
  | InsertManifest r => written (insert_manifest r)
  | SelectChunk a off => λ db, (Ok (select_chunk a off db), db)
  | InsertChunk a off row => written (insert_chunk a off row)
  | SelectChunks k => λ db, (Ok (select_chunks tenantId k db), db)
  | UpdateVerified k rel at_ => written (update_verified k rel at_)
  | SelectArtifact a => λ db, (Ok (select_artifact a db), db)
  | InsertArtifact m => λ db, (Ok (insert_artifact m db).1, (insert_artifact m db).2)
  | WriteFile p b => λ db, (Ok tt, set_files (<[p := b]> (files db)) db)
  | ReadFile p => λ db, (files db !! p, db)
  end.

Lemma respond_is_answer B (e : Call B) db b db' :
  respond B e db = (b, db') → answers tenantId B e db b db'.
Proof.
  destruct e; cbn; unfold reads, writes, written; intros H; try (injection H as <- <-); auto.
  all: match type of H with context [match ?x with _ => _ end] => destruct x eqn:? end; injection H as <- <-; auto.
Qed.

Notation ends := (Interact.ends respond).

(** ** The artifact and its pieces *)
Notation size m := (m_sizeBytes m).
Notation CHUNK := ARTIFACT_CHUNK_SIZE_BYTES.
Definition total (m : ArtifactUploadManifest) : nat := Z.to_nat (ceil_chunks (size m)).
Definition offset (k : nat) : Z := Z.of_nat k * CHUNK.
Definition piece (b : buffer) (k : nat) : string := string_of (slice b (offset k) (Z.to_nat CHUNK)).
Definition range (m : ArtifactUploadManifest) (k : nat) : ArtifactByteRange :=
  {| range_offset := offset k; range_length := Z.min CHUNK (size m - offset k) |}.

(** The pieces not among [ks]. *)
Definition remaining (m : ArtifactUploadManifest) (ks : list nat) : list nat :=
  filter (λ k, k ∉ ks) (seq 0 (total m)).
Definition progress (m : ArtifactUploadManifest) (ks : list nat) : ArtifactUploadAck :=
  acknowledgement m (range m <$> remaining m ks) (bool_decide (remaining m ks = [])).

Lemma total_spec m k : (0 <= size m)%Z → (k < total m)%nat ↔ (offset k < size m)%Z.
Proof.
  unfold total, offset, ceil_chunks. intros H0.
  pose proof (Z.mul_div_le (- size m) CHUNK eq_refl). pose proof (Z.mul_succ_div_gt (- size m) CHUNK eq_refl).
  unfold CHUNK in *. lia.
Qed.

Lemma string_of_data s : string_of (String.list_ascii_of_string s) = s.
Proof. apply String.string_of_list_ascii_of_string. Qed.
Lemma data_string_of b : String.list_ascii_of_string (string_of b) = b.
Proof. apply String.list_ascii_of_string_of_list_ascii. Qed.

Lemma take_own_length {A} (l : list A) n : take (length (take n l)) l = take n l.
Proof.
  rewrite length_take. destruct (Nat.min_spec n (length l)) as [[_ ->]|[H ->]]; [done|].
  by rewrite !take_ge.
Qed.
Lemma slice_length b off n : length (slice b off n) = Nat.min n (length b - Z.to_nat off).
Proof. unfold slice. by rewrite length_take, length_drop. Qed.

Lemma piece_length m b k :
  size_of b = size m → (0 <= size m)%Z → (k < total m)%nat →
  bytes_length (piece b k) = Z.min CHUNK (size m - offset k).
Proof.
  intros Hb H0 Hk%total_spec; [|done]. unfold bytes_length, piece. rewrite <- length_data, data_string_of, slice_length.
  unfold size_of, offset in *. unfold CHUNK in *. lia.
Qed.

(** ** The ranges that are missing *)
Lemma missing_from_range m present n fuel j :
  m_chunkSizeBytes m = CHUNK → (0 <= size m)%Z → (j + n)%nat = total m → (n <= fuel)%nat →
  missing_from fuel m present (offset j) = range m <$> filter (λ k, offset k ∉ present) (seq j n).
Proof.
  intros HC H0. revert fuel j. induction n as [|n IH]; intros fuel j Hj Hf.
  - destruct fuel as [|fuel]; [done|]. cbn. case_match eqn:E; [|done]. to_prop. apply total_spec in E; [lia|done].
  - destruct fuel as [|fuel]; [lia|]. cbn [missing_from seq].
    assert (offset j < size m)%Z as Hlt by (apply total_spec; [done|lia]).
    rewrite (proj2 (Z.ltb_lt _ _) Hlt). unfold includes. rewrite HC.
    replace (offset j + CHUNK)%Z with (offset (S j)) by (unfold offset; lia). rewrite IH by lia.
    rewrite filter_cons. case_bool_decide; case_decide; try done.
Qed.

Lemma missingRanges_remaining m l ks :
  m_chunkSizeBytes m = CHUNK → (0 <= size m)%Z → (∀ k, offset k ∈ ((λ c, ch_offset (chunk c)) <$> l) ↔ k ∈ ks) →
  missingRanges m l = range m <$> remaining m ks.
Proof.
  intros HC H0 Hks. unfold missingRanges, remaining. case_match eqn:E.
  - apply Z.eqb_eq in E. unfold total. by rewrite E.
  - change 0%Z with (offset 0). rewrite (missing_from_range m _ (total m)); [| |done..|].
    + f_equal. apply list_filter_iff. intros k. by rewrite Hks.
    + done.
    + rewrite HC. unfold total, ceil_chunks. assert (0 <= size m / CHUNK)%Z by (by apply Z.div_pos).
      pose proof (Z.mul_succ_div_gt (size m) CHUNK eq_refl). pose proof (Z.mul_div_le (- size m) CHUNK eq_refl).
      pose proof (Z.mul_succ_div_gt (- size m) CHUNK eq_refl). unfold CHUNK in *. lia.
Qed.

Lemma offset_inj k k' : offset k = offset k' → k = k'.
Proof. unfold offset, CHUNK. lia. Qed.
Lemma offset_grid k : (0 <= offset k)%Z ∧ Z.rem (offset k) CHUNK = 0%Z.
Proof. unfold offset. split; [unfold CHUNK; lia|]. by apply Z.rem_mul. Qed.
Lemma grid_offset off : (0 <= off)%Z → Z.rem off CHUNK = 0%Z → ∃ k, off = offset k.
Proof.
  intros H0 [q Hq]%Z.rem_divide; [|done]. exists (Z.to_nat q). unfold offset. unfold CHUNK in *. lia.
Qed.

(** ** Putting the pieces together *)
Lemma assemble_ends l (n : Z) b0 :
  size_of b0 = n → (∀ c, c ∈ l → (0 <= ch_offset (chunk c))%Z ∧ (ch_offset (chunk c) + bytes_length (ch_bytes (chunk c)) <= n)%Z) →
  ∃ b, assemble l b0 = Ret b ∧ size_of b = n.
Proof.
  revert b0. induction l as [|c l IH]; intros b0 Hn Hl; cbn; [by exists b0|].
  destruct (Hl c) as [H0 Hb]; [by left|]. unfold bytes_length in Hb.
  destruct (set_bytes b0 (String.list_ascii_of_string (ch_bytes (chunk c))) (ch_offset (chunk c))) as [b1|e|] eqn:E.
  - cbn. apply IH; [|set_solver]. apply set_bytes_Ret in E as (_ & E & _). unfold size_of in *. by rewrite E.
  - exfalso. unfold set_bytes in E. case_match eqn:Hc; [|done]. unfold size_of in *. rewrite length_data in Hc. to_prop; lia.
  - exfalso. unfold set_bytes in E. by case_match.
Qed.

Section upload.
Context (m : ArtifactUploadManifest) (b : buffer) (runner : string).
Notation a := (m_artifactId m).

(** The manifest of [b], with identifiers that may name a file. *)
Record Uploadable : Prop := {
  u_valid : manifest_valid m = true;
  u_size : size_of b = size m;
  u_sha : sha256Hex (string_of b) = m_sha256 m;
  u_tenant : m_tenantId m = tenantId;
  u_safe : forallb safe_segment [tenantId; m_projectId m; m_runId m; a] = true;
  u_posix : str_startsWith (m_runId m) "/" || has_drive (m_runId m) || str_startsWith a "/" || has_drive a ||
            str_startsWith (m_runId m) ".." = false;
}.
Context (HU : Uploadable).

Lemma u_shape : (0 <= size m)%Z ∧ m_chunkSizeBytes m = CHUNK.
Proof. pose proof (u_valid HU) as H. unfold manifest_valid in H. by to_prop. Qed.

(** The chunks stored are the pieces [ks]. *)
Record Pieces (db : Db) (ks : list nat) : Prop := {
  pc_has : ∀ k, k ∈ ks → ∃ row, upload_chunks db !! (a, offset k) = Some row ∧
    row_bytes row = piece b k ∧ row_sha256 row = sha256Hex (piece b k);
  pc_only : ∀ off row, upload_chunks db !! (a, off) = Some row → ∃ k, k ∈ ks ∧ off = offset k;
}.
(** No artifact is stored under its name. *)
Definition unused (db : Db) : Prop :=
  artifact_manifests db !! a = None ∧
  ∀ a' am, artifact_manifests db !! a' = Some am → am_relativePath am ≠ relative_path m.

Record At (ks : list nat) (db : Db) : Prop := {
  at_row : ∃ r, upload_manifests db !! a = Some r ∧ upload r = m ∧ registeredByRunnerId r = runner ∧
    status r = if bool_decide (remaining m ks = []) then verified else registered;
  at_pieces : Pieces db ks;
  at_free : remaining m ks ≠ [] → unused db;
  at_done : remaining m ks = [] → complete sha256Hex tenantId artifactDataDir db a b;
}.

Lemma select_own r db : upload_manifests db !! a = Some r → upload r = m → select_manifest (key_of m) db = Some r.
Proof. intros Hr E. apply (proj2 (select_manifest_Some _ _ _)). split; [done|]. by rewrite E. Qed.

Lemma chunks_pieces db r ks :
  upload_manifests db !! a = Some r → upload r = m → Pieces db ks →
  (∀ k, offset k ∈ ((λ c, ch_offset (chunk c)) <$> select_chunks tenantId (key_of m) db) ↔ k ∈ ks) ∧
  ∀ c, c ∈ select_chunks tenantId (key_of m) db → ∃ k, k ∈ ks ∧ ch_offset (chunk c) = offset k ∧ ch_bytes (chunk c) = piece b k.
Proof.
  intros Hr E [P1 P2].
  assert (∀ c, c ∈ select_chunks tenantId (key_of m) db → ∃ k, k ∈ ks ∧ ch_offset (chunk c) = offset k ∧
    ch_bytes (chunk c) = piece b k) as Hall.
  { intros c (row & Hrow & Hb)%select_chunks_elem. cbn in Hrow. destruct (P2 _ _ Hrow) as (k & Hk & Ho).
    destruct (P1 _ Hk) as (row' & Hrow' & Hb' & _). rewrite Ho, Hrow' in Hrow. injection Hrow as <-.
    exists k. split_and!; [done|done|congruence]. }
  split; [|done]. intros k. rewrite list_elem_of_fmap. split.
  - intros (c & Ho & (k' & Hk & Ho' & _)%Hall). rewrite Ho' in Ho. by apply offset_inj in Ho as ->.
  - intros (row & Hrow & _)%P1. exists (chunk_record tenantId m (a, offset k, row)). split; [done|].
    unfold select_chunks. rewrite (select_own r), merge_sort_Permutation, E by done. apply list_elem_of_fmap_2.
    apply list_elem_of_filter. split; [done|]. by apply elem_of_map_to_list.
Qed.

(** All pieces read and put together are the artifact. *)
Lemma pieces_assemble db r ks :
  upload_manifests db !! a = Some r → upload r = m → Pieces db ks → remaining m ks = [] → Forall (λ k, k < total m)%nat ks →
  assemble (merge_sort offset_le (select_chunks tenantId (key_of m) db)) (new_buffer (size m)) = Ret b.
Proof.
  intros Hr E HP Hrem Hks. destruct u_shape as [H0 HC]. pose proof (u_size HU) as Hb.
  destruct (chunks_pieces db r ks Hr E HP) as [Hoff Hall]. set (l := select_chunks tenantId (key_of m) db) in *.
  rewrite Forall_forall in Hks.
  assert (∀ c, c ∈ l → ∃ k, (k < total m)%nat ∧ ch_offset (chunk c) = offset k ∧ ch_bytes (chunk c) = piece b k ∧
    bytes_length (ch_bytes (chunk c)) = Z.min CHUNK (size m - offset k)) as Hl.
  { intros c (k & Hk & Ho & Ec)%Hall. exists k. rewrite Ec, (piece_length m b k) by auto. auto. }
  destruct (assemble_ends (merge_sort offset_le l) (size m) (new_buffer (size m))) as (b' & Has & Hb').
  - unfold size_of, new_buffer. rewrite length_replicate. lia.
  - intros c. rewrite merge_sort_Permutation. intros (k & Hk & -> & _ & ->)%Hl.
    pose proof (offset_grid k). apply total_spec in Hk; [lia|done].
  - rewrite Has. f_equal. symmetry. apply (same_pieces (size m)); [done..|]. intros off Ho Hg.
    destruct (grid_offset off) as [k ->]; [lia|done|]. assert (k < total m)%nat as Hk by (apply total_spec; [done|lia]).
    assert (k ∈ ks) as Hin.
    { destruct (decide (k ∈ ks)) as [|Hn]; [done|]. exfalso. eapply (not_elem_of_nil k). rewrite <- Hrem.
      apply list_elem_of_filter. split; [done|]. apply elem_of_seq. lia. }
    pose proof (piece_length m b k Hb H0 Hk) as Hlen. unfold bytes_length in Hlen. exists (String.length (piece b k)). split; [exact Hlen|].
    apply Hoff, list_elem_of_fmap in Hin as (c & Eo & Hc).
    destruct (Hl c Hc) as (k' & _ & Eo' & Ec & _). rewrite Eo' in Eo. apply offset_inj in Eo as <-.
    assert (placed b' c) as Hp.
    { apply (assemble_placed [] (merge_sort offset_le l) (new_buffer (size m)) b'); [|set_solver|done|].
      - cbn. split.
        + intros c'. rewrite merge_sort_Permutation. intros (k' & _ & -> & _ & ->)%Hl.
          destruct (offset_grid k'). split; [done|]. split; [done|]. lia.
        + intros c1 c2. rewrite merge_sort_Permutation. intros (k1 & _ & -> & -> & _)%Hl (k2 & _ & -> & -> & _)%Hl.
          by intros ->%offset_inj.
      - cbn. by rewrite merge_sort_Permutation. }
    unfold placed in Hp. rewrite Eo', Ec in Hp. rewrite Hp. unfold piece at 2. rewrite data_string_of.
    unfold piece. rewrite <- length_data, data_string_of. apply take_own_length.
Qed.

(** ** The methods return *)
Lemma u_segments : safe_segment tenantId = true ∧ safe_segment (m_projectId m) = true ∧
  safe_segment (m_runId m) = true ∧ safe_segment a = true.
Proof. pose proof (u_safe HU) as H. cbn in H. by to_prop. Qed.

Lemma below_app (p q : path) : below p (p ++ q) = Some q.
Proof. induction p as [|s p IH]; cbn; [done|]. by rewrite String.eqb_refl. Qed.

Lemma ends_resolve Q db :
  Q (location tenantId artifactDataDir m) db →
  ends (resolveWithinRoot (artifactDataDir ++ [tenantId; m_projectId m])
    (resolve (artifactDataDir ++ [tenantId; m_projectId m]) (relative_path m))) Q db.
Proof.
  intros HQ. destruct u_segments as (_ & _ & Hr & Ha). pose proof (u_posix HU) as Hp. to_prop.
  unfold relative_path. rewrite resolve_safe by done. unfold resolveWithinRoot. rewrite below_app.
  match goal with H : str_startsWith (m_runId m) ".." = false |- _ => rewrite H end.
  apply ends_ret. rewrite <- app_assoc. exact HQ.
Qed.

Lemma ends_root Q db :
  Q (artifactDataDir ++ [tenantId; m_projectId m]) db → ends (artifactStoreFor tenantId artifactDataDir (m_projectId m)) Q db.
Proof.
  intros HQ. destruct u_segments as (Ht & Hp & _). unfold artifactStoreFor. apply ends_bind, ends_fail_if; [by rewrite Ht|].
  apply ends_bind, ends_fail_if; [by rewrite Hp|]. by apply ends_ret.
Qed.

Definition stored_artifact : ArtifactManifest :=
  {| am_artifactId := a; am_runId := m_runId m; am_kind := "other"; am_mediaType := m_mediaType m;
     am_relativePath := relative_path m; am_sha256 := sha256Hex (string_of b); am_size := size_of b;
     am_createdAt := "2024-01-01T00:00:00.000Z" |}.

Lemma ends_write Q db :
  Q stored_artifact (set_files (<[location tenantId artifactDataDir m := b]> (files db)) db) →
  ends (local_write sha256Hex (artifactDataDir ++ [tenantId; m_projectId m])
    {| w_artifactId := a; w_runId := m_runId m; w_name := a; w_kind := "other"; w_mediaType := m_mediaType m;
       w_bytes := b |}) Q db.
Proof.
  intros HQ. destruct u_segments as (_ & _ & Hr & Ha). pose proof (u_posix HU) as Hp. to_prop.
  unfold local_write, assertSafeSegment. cbn [w_runId w_name w_bytes w_artifactId w_kind w_mediaType].
  apply ends_bind, ends_fail_if; [by rewrite Hr; repeat match goal with H : _ = false |- _ => rewrite H; clear H end|].
  apply ends_bind, ends_fail_if; [by rewrite Ha; repeat match goal with H : _ = false |- _ => rewrite H; clear H end|].
  apply ends_bind, ends_resolve. apply ends_bind. eapply ends_call; [done|]. by apply ends_bind, ends_ask, ends_ret.
Qed.

Lemma ends_verify Q db :
  files db !! location tenantId artifactDataDir m = Some b → Q true db →
  ends (local_verify sha256Hex (artifactDataDir ++ [tenantId; m_projectId m]) stored_artifact) Q db.
Proof.
  intros Hf HQ. unfold local_verify. cbn [am_relativePath stored_artifact]. apply ends_bind, ends_resolve.
  apply ends_bind, ends_ask. cbn [respond fst snd]. rewrite Hf. apply ends_ret. cbn.
  by rewrite Z.eqb_refl, String.eqb_refl.
Qed.

Lemma ends_append Q db :
  unused db → (∀ am, Q append_accepted (set_artifacts am db)) → ends (manifestStore_append stored_artifact) Q db.
Proof.
  intros [Hn Hp] HQ. unfold manifestStore_append. apply ends_bind. eapply ends_call; [done|].
  unfold select_artifact. cbn [am_artifactId stored_artifact]. rewrite Hn. apply ends_bind. eapply ends_call; [done|].
  assert (insert_artifact stored_artifact db =
    (true, set_artifacts (<[a := stored_artifact]> (artifact_manifests db)) db)) as ->.
  { unfold insert_artifact. cbn [am_artifactId stored_artifact]. rewrite Hn, bool_decide_eq_true_2 by done. cbn [andb].
    rewrite (proj2 (forallb_forall _ _)); [done|]. intros [a' am] Hin%list_elem_of_In%elem_of_map_to_list.
    apply negb_true_iff, String.eqb_neq. by eapply Hp. }
  apply ends_ret, HQ.
Qed.

(** What a completed upload leaves. *)
Lemma ends_verifyAndCommit r ks (Q : unit → Db → Prop) db :
  upload_manifests db !! a = Some r → upload r = m → Pieces db ks → unused db → remaining m ks = [] →
  Forall (λ k, k < total m)%nat ks →
  (∀ db' at_, upload_manifests db' = <[a := marked (relative_path m) at_ r]> (upload_manifests db) →
     upload_chunks db' = upload_chunks db → files db' !! location tenantId artifactDataDir m = Some b → Q tt db') →
  ends (verifyAndCommit sha256Hex tenantId artifactDataDir r (select_chunks tenantId (key_of m) db)) Q db.
Proof.
  intros Hr E HP Hun Hrem Hks HQ. unfold verifyAndCommit. rewrite E.
  erewrite pieces_assemble by done. apply ends_bind, ends_ret. apply ends_bind, ends_fail_if.
  { by rewrite (u_size HU), (u_sha HU), Z.eqb_refl, String.eqb_refl. }
  apply ends_bind, ends_root, ends_bind, ends_write. apply ends_bind, ends_root, ends_bind, ends_verify.
  { cbn. by rewrite lookup_insert_eq. }
  apply ends_bind, ends_fail_if; [done|]. apply ends_bind, ends_append; [exact Hun|]. intros am.
  apply ends_bind, ends_ask. cbn [respond fst snd]. unfold store_markVerified. cbn [key_of k_tenantId am_relativePath stored_artifact].
  rewrite (u_tenant HU), String.eqb_refl. cbn [negb]. eapply ends_call.
  - cbn. unfold written, update_verified. erewrite select_own; [reflexivity|exact Hr|done].
  - eapply HQ; cbn; [done|done|]. by rewrite lookup_insert_eq.
Qed.

Lemma remaining_nil ks k : remaining m ks = [] → (k < total m)%nat → k ∈ ks.
Proof.
  intros Hrem Hk. destruct (decide (k ∈ ks)) as [|Hn]; [done|]. exfalso. eapply (not_elem_of_nil k). rewrite <- Hrem.
  apply list_elem_of_filter. split; [done|]. apply elem_of_seq. lia.
Qed.
Lemma remaining_cons ks k : k ∈ ks → remaining m (k :: ks) = remaining m ks.
Proof. intros Hk. apply list_filter_iff. intros j. set_solver. Qed.

Lemma slice_piece k : slice b (offset k) (String.length (piece b k)) = String.list_ascii_of_string (piece b k).
Proof. unfold piece. rewrite <- length_data, data_string_of. apply take_own_length. Qed.

Lemma pieces_stored db ks : Pieces db ks → remaining m ks = [] → stored sha256Hex db m b.
Proof.
  intros [P1 P2] Hrem. split; [apply (u_size HU)|apply (u_sha HU)| |].
  - intros off row Hrow. destruct (P2 _ _ Hrow) as (k & Hk & ->). destruct (P1 _ Hk) as (row' & Hrow' & Hb & _).
    rewrite Hrow' in Hrow. injection Hrow as <-. rewrite Hb. apply slice_piece.
  - intros off Ho Hg. destruct (grid_offset off) as [k ->]; [lia|done|].
    destruct (P1 k) as (row & Hrow & _); [|by eexists]. apply remaining_nil; [done|].
    apply total_spec; [apply u_shape|lia].
Qed.

Lemma ends_progressFor r ks db :
  upload_manifests db !! a = Some r → upload r = m → registeredByRunnerId r = runner → status r = registered →
  Pieces db ks → unused db → Forall (λ k, k < total m)%nat ks →
  ends (progressFor sha256Hex tenantId artifactDataDir r) (λ ack db', ack = progress m ks ∧ At ks db') db.
Proof.
  intros Hr E Hrun Hst HP Hun Hks. destruct u_shape as [H0 HC]. destruct (chunks_pieces db r ks Hr E HP) as [Hoff _].
  unfold progressFor, store_chunks. rewrite Hst, bool_decide_eq_false_2, E by done. cbn [key_of k_tenantId].
  rewrite (u_tenant HU), String.eqb_refl. cbn [negb]. apply ends_bind. eapply ends_call; [done|].
  change {| k_tenantId := m_tenantId m |} with (key_of m).
  rewrite (missingRanges_remaining m _ ks) by done. unfold progress. destruct (remaining m ks) as [|k0 rest] eqn:Hrem; cbn [fmap list_fmap].
  - apply ends_bind, (ends_verifyAndCommit r ks); [done..|]. intros db' at_ Hm Hc Hf. apply ends_ret. split; [done|].
    assert (Pieces db' ks) as HP' by (destruct HP; split; by rewrite Hc). split; [|done|by rewrite Hrem|].
    + eexists. rewrite Hm, lookup_insert_eq. split_and!; [done|exact E|exact Hrun|]. by rewrite Hrem.
    + intros _. eexists. rewrite Hm, lookup_insert_eq. split_and!; [done|done|by cbn; rewrite E|by cbn; rewrite E|].
      cbn. rewrite E. by eapply pieces_stored.
  - apply ends_ret. split; [done|]. split; [|done|done|by rewrite Hrem]. exists r. by rewrite Hrem.
Qed.

(** ** Registration and upload *)
Definition registration (job : string) (epoch : Z) : RegisterArtifactManifestInput :=
  {| reg_identity := {| id_tenantId := tenantId; id_projectId := m_projectId m; id_runnerId := runner |};
     reg_jobId := job; reg_leaseEpoch := epoch; reg_manifest := m |}.
Definition chunk_of (k : nat) : UploadArtifactChunkInput :=
  {| up_identity := {| cid_identity := {| id_tenantId := tenantId; id_projectId := m_projectId m; id_runnerId := runner |};
       cid_runId := m_runId m; cid_artifactId := a |};
     up_chunk := {| ch_artifactId := a; ch_tenantId := tenantId; ch_projectId := m_projectId m; ch_runId := m_runId m;
       ch_offset := offset k; ch_bytes := piece b k; ch_sha256 := sha256Hex (piece b k) |} |}.

(** Nothing is known of the artifact. *)
Definition fresh (db : Db) : Prop :=
  upload_manifests db !! a = None ∧ (∀ off, upload_chunks db !! (a, off) = None) ∧ unused db.

Lemma ends_registerManifest job epoch db :
  fresh db →
  ends (registerManifest sha256Hex tenantId artifactDataDir (registration job epoch))
    (λ ack db', ack = progress m [] ∧ At [] db') db.
Proof.
  intros (Hn & Hc & Hun). unfold registerManifest. cbn [reg_identity reg_manifest registration reg_jobId reg_leaseEpoch].
  apply ends_bind, ends_fail_if; [by rewrite (u_valid HU)|]. apply ends_bind, ends_fail_if.
  { cbn. by rewrite (u_tenant HU), !String.eqb_refl. }
  apply ends_bind, ends_ask. cbn [respond fst snd]. set (r := {| upload := m |}).
  assert (m_tenantId (upload r) = tenantId) as Ht by apply (u_tenant HU).
  apply ends_bind. unfold store_registerManifest. apply ends_bind. unfold store_manifest.
  cbn [key_of k_tenantId]. rewrite Ht, String.eqb_refl. cbn [negb]. eapply ends_call; [done|].
  unfold select_manifest. change (k_artifactId (key_of (upload r))) with a. rewrite Hn.
  rewrite (scoped_id tenantId r Ht). apply ends_bind. eapply ends_call.
  { cbn. unfold written, insert_manifest. change (upload r) with m. rewrite Hn, bool_decide_eq_true_2 by done.
    pose proof (u_valid HU) as Hv. unfold manifest_valid in Hv. to_prop. rewrite (proj2 (Z.leb_le _ _)) by done.
    match goal with H : m_chunkSizeBytes m = _ |- _ => rewrite H end.
    match goal with H : m_totalChunks m = _ |- _ => rewrite H end.
    rewrite (proj2 (Z.leb_le 0 (ceil_chunks _))); [reflexivity|]. unfold ceil_chunks.
    pose proof (Z.div_le_upper_bound (- size m) CHUNK 0 eq_refl). lia. }
  apply ends_ret. apply ends_progressFor; try done.
  - cbn. by rewrite lookup_insert_eq.
  - split; [set_solver|]. cbn. intros off row. by rewrite Hc.
Qed.

Context (Hhex : ∀ s, is_sha256_hex (sha256Hex s) = true).

Lemma chunk_accepted_as_valid k : (k < total m)%nat → chunk_valid sha256Hex (up_chunk (chunk_of k)) = true.
Proof.
  intros Hk. destruct u_shape as [H0 _]. pose proof (u_valid HU) as Hv. unfold manifest_valid in Hv. to_prop.
  pose proof (piece_length m b k (u_size HU) H0 Hk) as Hlen. apply total_spec in Hk; [|done].
  destruct (offset_grid k) as [Hpos Hgrid]. unfold chunk_valid. cbn [chunk_of up_chunk ch_artifactId ch_tenantId ch_projectId
    ch_runId ch_offset ch_bytes ch_sha256]. rewrite Hlen, Hgrid, Hhex, String.eqb_refl, <- (u_tenant HU).
  repeat match goal with H : nonEmpty _ = true |- _ => rewrite H; clear H end. cbn [andb].
  match goal with H : isSafeInteger _ = true |- _ => unfold isSafeInteger in *; apply Z.leb_le in H end.
  rewrite (proj2 (Z.leb_le _ _)) by lia. rewrite (proj2 (Z.leb_le _ _)) by done. cbn [andb Z.eqb].
  rewrite (proj2 (Z.leb_le _ _)) by lia. done.
Qed.

Lemma chunk_fits k r : upload r = m → (k < total m)%nat → ∀ (Q : unit → Db → Prop) db, Q tt db →
  ends (assertChunkMatchesManifest (up_chunk (chunk_of k)) r) Q db.
Proof.
  intros E Hk Q db HQ. destruct u_shape as [H0 HC]. pose proof (piece_length m b k (u_size HU) H0 Hk) as Hlen.
  apply total_spec in Hk; [|done]. destruct (offset_grid k) as [Hpos _]. unfold assertChunkMatchesManifest. rewrite E.
  cbn [chunk_of up_chunk ch_artifactId ch_tenantId ch_projectId ch_runId ch_offset ch_bytes].
  apply ends_bind, ends_fail_if; [by rewrite <- (u_tenant HU), !String.eqb_refl|]. apply ends_fail_if; [|done].
  rewrite Hlen, HC, Z.eqb_refl. apply orb_false_iff. split; [|done]. apply orb_false_iff. split; [lia|lia].
Qed.

Lemma pieces_insert db ks k row :
  Pieces db ks → row_bytes row = piece b k → row_sha256 row = sha256Hex (piece b k) → k ∉ ks →
  upload_chunks db !! (a, offset k) = None →
  Pieces (set_chunks (<[(a, offset k) := row]> (upload_chunks db)) db) (k :: ks).
Proof.
  intros [P1 P2] Hb Hs Hk Hn. split; cbn.
  - intros j [-> |Hj]%elem_of_cons; [rewrite lookup_insert_eq; by exists row|].
    rewrite lookup_insert_ne; [by apply P1|]. intros [= E]. by apply offset_inj in E as ->.
  - intros off row'. rewrite lookup_insert_Some. intros [[[= <-] _]|[_ H]]; [exists k; set_solver|].
    destruct (P2 _ _ H) as (j & ? & ?). exists j. set_solver.
Qed.

Lemma ends_uploadChunk k ks db :
  At ks db → Forall (λ k, k < total m)%nat ks → (k < total m)%nat →
  ends (uploadChunk sha256Hex tenantId artifactDataDir (chunk_of k)) (λ ack db', ack = progress m (k :: ks) ∧ At (k :: ks) db') db.
Proof.
  intros [(r & Hr & E & Hrun & Hst) HP Hfree Hdone] Hks Hk. unfold uploadChunk.
  apply ends_bind, ends_fail_if; [by rewrite chunk_accepted_as_valid|].
  apply ends_bind, ends_fail_if; [by cbn; rewrite !String.eqb_refl|].
  apply ends_bind. unfold store_manifest. change (k_tenantId (chunk_key (up_chunk (chunk_of k)))) with tenantId.
  rewrite String.eqb_refl. cbn [negb]. eapply ends_call; [done|].
  assert (select_manifest (chunk_key (up_chunk (chunk_of k))) db = Some r) as ->
    by (apply select_manifest_Some; cbn; by rewrite E).
  apply ends_bind, ends_fail_if; [by cbn; rewrite Hrun, String.eqb_refl|].
  apply ends_bind, chunk_fits; [done|done|].
  destruct (decide (status r = verified)) as [Hv|Hv];
    [rewrite (bool_decide_eq_true_2 _ Hv)|rewrite (bool_decide_eq_false_2 _ Hv)].
  - assert (remaining m ks = []) as Hrem by (destruct (decide (remaining m ks = [])); [done|]; rewrite bool_decide_eq_false_2 in Hst by done; congruence).
    assert (k ∈ ks) as Hin by (by apply remaining_nil). rewrite E.
    apply ends_ret. unfold progress. rewrite remaining_cons, Hrem by done. split; [done|].
    split; [|destruct HP as [P1 P2]; split; [set_solver|]|by rewrite remaining_cons|by rewrite remaining_cons].
    + exists r. by rewrite remaining_cons.
    + intros off row Hrow. destruct (P2 _ _ Hrow) as (j & ? & ?). exists j. set_solver.
  - assert (status r = registered) as Hreg by (by destruct (status r)).
    assert (remaining m ks ≠ []) as Hrem by (intros Hx; rewrite bool_decide_eq_true_2 in Hst by done; congruence).
    apply ends_bind, ends_ask. cbn [respond fst snd]. apply ends_bind. unfold store_appendChunk.
    cbn [chunk chunk_of up_chunk ch_tenantId ch_artifactId ch_offset ch_bytes ch_sha256 sizeBytes chunk_createdAt].
    rewrite String.eqb_refl. cbn [negb]. apply ends_bind. eapply ends_call; [done|]. unfold select_chunk.
    destruct (decide (k ∈ ks)) as [Hin|Hnin].
    + destruct (pc_has _ _ HP _ Hin) as (row & -> & -> & ->). rewrite !String.eqb_refl. apply ends_ret.
      apply ends_progressFor; try done; [|by apply Hfree|by constructor].
      destruct HP as [P1 P2]. split; [set_solver|]. intros off row' Hrow. destruct (P2 _ _ Hrow) as (j & ? & ?). exists j. set_solver.
    + assert (upload_chunks db !! (a, offset k) = None) as Hnone.
      { apply eq_None_not_Some. intros [row Hrow]. destruct (pc_only _ _ HP _ _ Hrow) as (j & Hj & Eo).
        by apply offset_inj in Eo as <-. }
      rewrite Hnone. destruct u_shape as [H0 _]. pose proof (piece_length m b k (u_size HU) H0 Hk) as Hlen.
      pose proof (proj1 (total_spec m k H0) Hk) as Hlt. destruct (offset_grid k) as [Hpos _].
      apply ends_bind. eapply ends_call.
      { cbn. unfold written, insert_chunk. cbn [row_sizeBytes]. rewrite Hnone, Hr, Hlen.
        rewrite bool_decide_eq_true_2, bool_decide_eq_true_2 by done. rewrite (proj2 (Z.leb_le _ _)) by done.
        rewrite (proj2 (Z.ltb_lt _ _)) by (unfold CHUNK in *; lia).
        rewrite (proj2 (Z.leb_le _ _)) by (unfold CHUNK in *; lia). reflexivity. }
      apply ends_ret. apply ends_progressFor; try done; [|by apply Hfree|by constructor]. by apply pieces_insert.
Qed.

(** ** The whole upload *)

(** The database after the pieces [ks] were sent. *)
Definition deliver (db : Db) (ks : list nat) : Db :=
  foldl (λ db k, (interp respond (uploadChunk sha256Hex tenantId artifactDataDir (chunk_of k)) db).2) db ks.

Lemma ends_interp {B} (p : M B) x (P : Db → Prop) db :
  ends p (λ y db', y = x ∧ P db') db → (interp respond p db).1 = Ok x ∧ P (interp respond p db).2.
Proof. intros (y & db' & -> & -> & H). done. Qed.

Lemma deliver_At ks0 ks db :
  At ks0 db → Forall (λ k, k < total m)%nat ks0 → Forall (λ k, k < total m)%nat ks → At (rev ks ++ ks0) (deliver db ks).
Proof.
  revert ks0 db. induction ks as [|k ks IH]; intros ks0 db Hat H0 Hks; [done|].
  apply Forall_cons in Hks as [Hk Hks]. cbn. rewrite <- app_assoc. apply IH; [|by constructor|done].
  exact (proj2 (ends_interp _ _ _ _ (ends_uploadChunk k ks0 db Hat H0 Hk))).
Qed.
End upload.

(** An upload completes.  When nothing fails and SHA-256 is written as 64
    hexadecimal digits, the manifest of some bytes is registered, and its pieces
    are sent in any order and any number of times: every answer names exactly the
    ranges not sent yet, it acknowledges the artifact exactly when there are none,
    and then the artifact is in its file. *)
Theorem upload_completes m b runner job epoch db ks k :
  Uploadable m b → (∀ s, is_sha256_hex (sha256Hex s) = true) → fresh m db →
  Forall (λ k, k < total m)%nat (ks ++ [k]) →
  let registered := interp respond (registerManifest sha256Hex tenantId artifactDataDir (registration m runner job epoch)) db in
  let sent := deliver m b runner registered.2 ks in
  let last := interp respond (uploadChunk sha256Hex tenantId artifactDataDir (chunk_of m b runner k)) sent in
  registered.1 = Ok (progress m []) ∧ last.1 = Ok (progress m (ks ++ [k])) ∧
  (remaining m (ks ++ [k]) = [] → complete sha256Hex tenantId artifactDataDir last.2 (m_artifactId m) b).
Proof.
  intros HU Hhex Hf [Hks Hk]%Forall_app registered sent last. apply Forall_cons in Hk as [Hk _].
  destruct (ends_interp _ _ _ _ (ends_registerManifest m b runner HU job epoch db Hf)) as [Hreg Hat]. split; [done|].
  pose proof (deliver_At m b runner HU Hhex [] ks _ Hat (Forall_nil_2 _) Hks) as Hsent. rewrite app_nil_r in Hsent.
  assert (remaining m (k :: rev ks) = remaining m (ks ++ [k])) as E.
  { apply list_filter_iff. intros i. rewrite elem_of_cons, elem_of_app, list_elem_of_singleton.
    rewrite !list_elem_of_In, <- in_rev. tauto. }
  destruct (ends_interp _ _ _ _ (ends_uploadChunk m b runner HU Hhex k _ _ Hsent (Forall_rev Hks) Hk)) as [Hl [_ _ _ Hd]].
  split; [|by rewrite <- E]. unfold last. etrans; [exact Hl|]. unfold progress. by rewrite E.
Qed.
End progress.

(** ** A sample: a screenshot of three bytes *)
Definition toy_sha256 (s : string) : string :=
  String.concat "" (replicate 16 (if String.eqb s "abc" then "aaaa" else "bbbb")).
Definition sample_manifest : ArtifactUploadManifest :=
  {| m_artifactId := "screenshot"; m_tenantId := "tenant"; m_projectId := "project"; m_runId := "run-1";
     m_sizeBytes := 3; m_sha256 := toy_sha256 "abc"; m_mediaType := "image/png"; m_sensitivity := "internal";
     m_chunkSizeBytes := ARTIFACT_CHUNK_SIZE_BYTES; m_totalChunks := 1 |}.
Definition sample_bytes : buffer := String.list_ascii_of_string "abc".
Definition no_files : Db :=
  {| upload_manifests := ∅; upload_chunks := ∅; artifact_manifests := ∅; files := ∅ |}.
Definition sample_registration : RegisterArtifactManifestInput :=
  registration "tenant" sample_manifest "runner" "job" 1.
Definition sample_chunk : UploadArtifactChunkInput :=
  chunk_of toy_sha256 "tenant" sample_manifest sample_bytes "runner" 0.

Lemma toy_sha256_hex s : is_sha256_hex (toy_sha256 s) = true.
Proof. unfold toy_sha256. by destruct (s =? "abc")%string. Qed.

Lemma sample_uploadable : Uploadable toy_sha256 "tenant" sample_manifest sample_bytes.
Proof. split; vm_compute; reflexivity. Qed.

Definition sample_last : outcome UploadError ArtifactUploadAck * Db :=
  interp (respond "tenant") (uploadChunk toy_sha256 "tenant" ["data"] sample_chunk)
    (interp (respond "tenant") (registerManifest toy_sha256 "tenant" ["data"] sample_registration) no_files).2.

Lemma upload_completes_witness :
  up_acknowledged (progress sample_manifest []) = false ∧
  sample_last.1 = Ok (progress sample_manifest [0%nat]) ∧ up_acknowledged (progress sample_manifest [0%nat]) = true ∧
  complete toy_sha256 "tenant" ["data"] sample_last.2 "screenshot" sample_bytes.
Proof.
  assert (fresh sample_manifest no_files) as Hf by (by split_and!).
  assert (Forall (λ k, k < total sample_manifest)%nat ([] ++ [0%nat])) as Hks
    by (apply (bool_decide_unpack _); vm_compute; exact I).
  destruct (upload_completes toy_sha256 "tenant" ["data"] sample_manifest sample_bytes "runner" "job" 1 no_files [] 0
    sample_uploadable toy_sha256_hex Hf Hks) as (_ & Hl & Hc).
  split; [vm_compute; reflexivity|]. split; [exact Hl|]. split; [vm_compute; reflexivity|].
  apply Hc. vm_compute. reflexivity.
Defined.

(** The same upload among the calls of a system, its chunk sent twice. *)
Definition sample_start : @sched_state Call UploadError Note Db ArtifactUploadAck := {| shared := no_files; processes := [] |}.
Definition sample_system : @sched_state Call UploadError Note Db ArtifactUploadAck :=
  play_all note (respond "tenant") 40
    [registerManifest toy_sha256 "tenant" ["data"] sample_registration;
     uploadChunk toy_sha256 "tenant" ["data"] sample_chunk; uploadChunk toy_sha256 "tenant" ["data"] sample_chunk]
    sample_start.

Lemma sample_upload_reachable :
  rtc (sched note (answers "tenant") midway (startable toy_sha256 "tenant" ["data"])) sample_start sample_system.
Proof.
  apply play_all_steps; [apply respond_is_answer|].
  repeat (apply Forall_cons; split); [| | |by apply Forall_nil].
  - left. eexists. by split; [|reflexivity].
  - right. eexists. by split; [|reflexivity].
  - right. eexists. by split; [|reflexivity].
Qed.

Lemma sample_acknowledgements :
  returned_values (processes sample_system) =
  [Some (progress sample_manifest []); Some (progress sample_manifest [0%nat]); Some (progress sample_manifest [0%nat])].
Proof. vm_compute. reflexivity. Qed.

Lemma acknowledged_artifact_stored_witness :
  ∃ b, complete toy_sha256 "tenant" ["data"] (shared sample_system) "screenshot" b.
Proof.
  assert (returned_values (processes sample_system) !! 1%nat = Some (Some (progress sample_manifest [0%nat]))) as Hi
    by (by rewrite sample_acknowledgements).
  apply returned_values_lookup in Hi.
  destruct (acknowledged_artifact_stored toy_sha256 "tenant" ["data"] sample_start sample_system sample_system
    (conj eq_refl eq_refl) sample_upload_reachable (rtc_refl _ _)) as (H & _).
  exact (H _ _ _ Hi eq_refl).
Defined.
End ArtifactProgress.
