(* ===== verification/Exploration.v ===== *)
(** * Bounded exploration

    Models [packages/runner-components/exploration/src]: the exploration budget,
    the tracker of visited states and the [ExplorationController], with the
    policy of [packages/core-modules/mission/src/exploration-policy.ts] and the
    durable progress of
    [packages/storage-providers/sqlite-runtime/src/sqlite-benchmark-store.ts].

    The target, the model, the policy gate, the seed replayer, the clock and the
    progress store are called through [prog]: they may answer anything, and may
    throw.  The observation validator, the state fingerprint, SHA-256 and
    [new URL] are parameters. *)
From S2P Require Import Prelude.
From S2P Require Import Number.
From S2P Require Import Json.
From S2P Require Import CanonicalJson.
From S2P Require Import AppTarget.
From S2P Require Import RunnerProtocol.
From S2P Require Import RunnerControl.
From S2P Require Import Interact.
From stdpp Require Import sorting.

Module Exploration.

(** ** The policy *)
Inductive ActionRiskLevel :=
  | ReadOnly | LocalMutation | RecoverableMutation | Destructive | ExternalSideEffect
  | ProductionForbidden.
#[export] Instance risk_eq_dec : EqDecision ActionRiskLevel.
Proof. solve_decision. Defined.

Definition riskRank (level : ActionRiskLevel) : Z :=
  match level with
  | ReadOnly => 0 | LocalMutation => 1 | RecoverableMutation => 2 | Destructive => 3
  | ExternalSideEffect => 4 | ProductionForbidden => 5
  end.
Definition isWithinRiskCeiling (level ceiling : ActionRiskLevel) : bool :=
  (riskRank level <=? riskRank ceiling)%Z.
Definition isExplorationRiskCeiling (value : ActionRiskLevel) : bool :=
  match value with ReadOnly | LocalMutation | RecoverableMutation => true | _ => false end.

Definition risk_text (level : ActionRiskLevel) : string :=
  match level with
  | ReadOnly => "ReadOnly" | LocalMutation => "LocalMutation"
  | RecoverableMutation => "RecoverableMutation" | Destructive => "Destructive"
  | ExternalSideEffect => "ExternalSideEffect" | ProductionForbidden => "ProductionForbidden"
  end.

Record ExplorationPolicy := {
  seedSkillBundleIds : list string;
  allowedActionKinds : list string;
  allowedOrigins : list string;
  maximumSteps : number;
  maximumWallClockMs : number;
  maximumModelTokens : number;
  maximumStateVisits : number;
  maximumRecoveries : number;
  riskCeiling : ActionRiskLevel;
}.

Inductive ExplorationActionKind := navigate | click | input.
#[export] Instance action_kind_eq_dec : EqDecision ExplorationActionKind.
Proof. solve_decision. Defined.
Definition kind_text (k : ExplorationActionKind) : string :=
  match k with navigate => "navigate" | click => "click" | input => "input" end.

Record ProposedExplorationAction := {
  kind : ExplorationActionKind;
  nodeId : option string;
  path : option string;
  valueRef : option string;
  reason : string;
}.

(** [status] is ["stop"] or ["act"]. *)
Inductive DecisionStatus := act | stop.
Record ExplorationDecision := {
  status : DecisionStatus;
  action : option ProposedExplorationAction;
  decision_reason : string;
  expectedNovelty : option string;
}.

Record ExplorationBudgetSnapshot := {
  s_remainingSteps : number;
  s_remainingWallClockMs : number;
  s_remainingModelTokens : number;
  s_remainingStateVisits : number;
  s_remainingRecoveries : number;
}.

Inductive ExplorationProgressPhase := seed_replay | exploring | action_in_flight | terminal_phase.
#[export] Instance phase_eq_dec : EqDecision ExplorationProgressPhase.
Proof. solve_decision. Defined.

Record ExplorationSeedCursor := {
  nextSeedIndex : Z;
  completedSeedSkillBundleIds : list string;
  inFlightSeedSkillBundleId : option string;
}.

(** [actionJson] is kept as the value it parses to. *)
Record ExplorationInFlightAction := { flight_step : Z; actionDigest : string; actionJson : json }.

Inductive ExplorationTerminalReason :=
  | objective_satisfied | no_safe_action | state_repeated | budget_exhausted | policy_denied
  | plan_diverged | finding_created | error.
#[export] Instance terminal_reason_eq_dec : EqDecision ExplorationTerminalReason.
Proof. solve_decision. Defined.

Record ExplorationAttemptProgress := {
  attemptId : string;
  p_runId : string;
  sourceBindingHash : string;
  policyBindingHash : string;
  seedBindingHash : string;
  phase : ExplorationProgressPhase;
  seedCursor : ExplorationSeedCursor;
  lastSafeStep : Z;
  lastSafeGraphFingerprint : option string;
  remaining : ExplorationBudgetSnapshot;
  inFlightAction : option ExplorationInFlightAction;
  terminalReason : option ExplorationTerminalReason;
  version : Z;
  createdAt : string;
  updatedAt : string;
}.

Record ExplorationCheckpoint := {
  cp_step : Z;
  graphFingerprint : string;
  cp_remaining : ExplorationBudgetSnapshot;
  cp_terminalReason : option ExplorationTerminalReason;
}.

Inductive StoreError := StorageBusy | ForeignKey | ExplorationProgressInitializationFailed.
Inductive ExplorationError :=
  | InvalidPolicyBound | InvalidRiskCeiling | InvalidPolicyAuthority
  | InvalidTokenAmount | InvalidSnapshot | InvalidTracker
  | ExplorationAttemptBindingRequired
  | StoreFailure (e : StoreError)
  | PolicyGateFailure | SeedReplayFailure.

(** [canonical HTTP(S) origin] of [isCanonicalHttpOrigin]. *)
Section policy.
Context (parse_url : string → option Url).

Definition isCanonicalHttpOrigin (value : string) : bool :=
  match parse_url value with
  | Some parsed =>
      negb (bool_decide (String.index 0 "*" value ≠ None)) &&
      (String.eqb (protocol parsed) "http:" || String.eqb (protocol parsed) "https:") &&
      String.eqb (username parsed) EmptyString && String.eqb (password parsed) EmptyString &&
      String.eqb (origin parsed) value
  | None => false
  end.

Definition isExecutionActionKind (value : string) : bool :=
  includes ["navigate"; "click"; "input"; "select"; "scroll"; "window"] value.

Definition validateExplorationPolicy (policy : ExplorationPolicy) : outcome ExplorationError ExplorationPolicy :=
  _ ← reject_if (existsb (λ value, negb (is_finite value) || num_ltb value (num_of_Z 0))
        [maximumSteps policy; maximumWallClockMs policy; maximumModelTokens policy;
         maximumStateVisits policy; maximumRecoveries policy]) InvalidPolicyBound;
  _ ← reject_if (negb (isExplorationRiskCeiling (riskCeiling policy))) InvalidRiskCeiling;
  _ ← reject_if
        (bool_decide (length (allowedOrigins policy) = 0) ||
         bool_decide (length (allowedActionKinds policy) = 0) ||
         negb (bool_decide (NoDup (allowedOrigins policy))) ||
         negb (bool_decide (NoDup (allowedActionKinds policy))) ||
         negb (forallb isCanonicalHttpOrigin (allowedOrigins policy)) ||
         negb (forallb isExecutionActionKind (allowedActionKinds policy))) InvalidPolicyAuthority;
  mret policy.
End policy.

(** ** The budget *)
Record ExplorationBudget := {
  remainingSteps : number;
  remainingStateVisits : number;
  remainingModelTokens : number;
  remainingRecoveries : number;
  b_maximumWallClockMs : number;
  startedAtMs : number;
}.

(** [None] is a reservation that failed with [budget_exhausted]. *)
Definition reserve (n : number) : option number :=
  if num_leb n (num_of_Z 0) then None else Some (num_sub n (num_of_Z 1)).

Definition reserveStep (b : ExplorationBudget) : option ExplorationBudget :=
  (λ n, {| remainingSteps := n; remainingStateVisits := remainingStateVisits b;
           remainingModelTokens := remainingModelTokens b; remainingRecoveries := remainingRecoveries b;
           b_maximumWallClockMs := b_maximumWallClockMs b; startedAtMs := startedAtMs b |})
    <$> reserve (remainingSteps b).
Definition reserveStateVisit (b : ExplorationBudget) : option ExplorationBudget :=
  (λ n, {| remainingSteps := remainingSteps b; remainingStateVisits := n;
           remainingModelTokens := remainingModelTokens b; remainingRecoveries := remainingRecoveries b;
           b_maximumWallClockMs := b_maximumWallClockMs b; startedAtMs := startedAtMs b |})
    <$> reserve (remainingStateVisits b).
Definition reserveRecovery (b : ExplorationBudget) : option ExplorationBudget :=
  (λ n, {| remainingSteps := remainingSteps b; remainingStateVisits := remainingStateVisits b;
           remainingModelTokens := remainingModelTokens b; remainingRecoveries := n;
           b_maximumWallClockMs := b_maximumWallClockMs b; startedAtMs := startedAtMs b |})
    <$> reserve (remainingRecoveries b).

Definition set_tokens (n : number) (b : ExplorationBudget) : ExplorationBudget :=
  {| remainingSteps := remainingSteps b; remainingStateVisits := remainingStateVisits b;
     remainingModelTokens := n; remainingRecoveries := remainingRecoveries b;
     b_maximumWallClockMs := b_maximumWallClockMs b; startedAtMs := startedAtMs b |}.

Definition normalizeTokens (value : number) : outcome ExplorationError number :=
  _ ← reject_if (negb (is_finite value) || num_ltb value (num_of_Z 0)) InvalidTokenAmount;
  mret (num_ceil value).

Definition reserveModelTokens (estimate : number) (b : ExplorationBudget)
    : outcome ExplorationError (option ExplorationBudget) :=
  amount ← normalizeTokens estimate;
  mret (if num_ltb (remainingModelTokens b) amount then None
        else Some (set_tokens (num_sub (remainingModelTokens b) amount) b)).

(** The budget, and whether the settlement is within it. *)
Definition settleModelTokens (reserved actual : number) (b : ExplorationBudget)
    : outcome ExplorationError (ExplorationBudget * bool) :=
  reservedAmount ← normalizeTokens reserved;
  actualAmount ← normalizeTokens actual;
  let left := num_add (remainingModelTokens b) (num_sub reservedAmount actualAmount) in
  mret (if num_ltb left (num_of_Z 0) then (set_tokens (num_of_Z 0) b, false)
        else (set_tokens left b, true)).

Definition validateSnapshot (s : ExplorationBudgetSnapshot) : outcome ExplorationError unit :=
  reject_if (existsb (λ value, negb (is_finite value) || num_ltb value (num_of_Z 0))
    [s_remainingSteps s; s_remainingWallClockMs s; s_remainingModelTokens s;
     s_remainingStateVisits s; s_remainingRecoveries s]) InvalidSnapshot.

(** ** Visited states *)
Record StateVisitTracker := { visits : gmap string Z; maximumVisits : number }.

Definition newTracker (maximum : number) : outcome ExplorationError StateVisitTracker :=
  _ ← reject_if (bool_decide (integer_of maximum = None) || num_ltb maximum (num_of_Z 1)) InvalidTracker;
  mret {| visits := ∅; maximumVisits := maximum |}.

Definition visitCount (fingerprint : string) (t : StateVisitTracker) : Z :=
  default 0%Z (visits t !! fingerprint).

Definition restore (fingerprint : string) (t : StateVisitTracker) : StateVisitTracker :=
  let current := visitCount fingerprint t in
  if num_ltb (num_of_Z current) (maximumVisits t)
  then {| visits := <[fingerprint := (current + 1)%Z]> (visits t); maximumVisits := maximumVisits t |}
  else t.

(** [None] is a repeated state. *)
Definition record_visit (fingerprint : string) (t : StateVisitTracker) : option StateVisitTracker :=
  let current := visitCount fingerprint t in
  if num_leb (maximumVisits t) (num_of_Z current) then None
  else Some {| visits := <[fingerprint := (current + 1)%Z]> (visits t); maximumVisits := maximumVisits t |}.

(** ** The progress store *)
Record NewExplorationAttemptProgress := {
  n_attemptId : string;
  n_runId : string;
  n_sourceBindingHash : string;
  n_policyBindingHash : string;
  n_seedBindingHash : string;
  n_phase : ExplorationProgressPhase;
  n_seedCursor : ExplorationSeedCursor;
  n_lastSafeStep : Z;
  n_lastSafeGraphFingerprint : option string;
  n_remaining : ExplorationBudgetSnapshot;
  n_inFlightAction : option ExplorationInFlightAction;
  n_terminalReason : option ExplorationTerminalReason;
}.
Record ExplorationProgressUpdate := {
  u_attemptId : string;
  expectedVersion : Z;
  u_phase : ExplorationProgressPhase;
  u_seedCursor : ExplorationSeedCursor;
  u_lastSafeStep : Z;
  u_lastSafeGraphFingerprint : option string;
  u_remaining : ExplorationBudgetSnapshot;
  u_inFlightAction : option ExplorationInFlightAction;
  u_terminalReason : option ExplorationTerminalReason;
  u_checkpoint : option ExplorationCheckpoint;
}.
Inductive ExplorationProgressUpdateResult :=
  | updated (progress : ExplorationAttemptProgress)
  | conflict (current : option ExplorationAttemptProgress).

(** [exploration_attempt_progress] and [exploration_live_checkpoints], and the
    runs their foreign key refers to.  Stored JSON is kept as the value it
    parses to. *)
Record Db := {
  benchmark_runs : gset string;
  attempt_progress : gmap string ExplorationAttemptProgress;
  live_checkpoints : gmap (string * Z) ExplorationCheckpoint;
}.
Definition set_progress (m : gmap string ExplorationAttemptProgress) (db : Db) : Db :=
  {| benchmark_runs := benchmark_runs db; attempt_progress := m; live_checkpoints := live_checkpoints db |}.
Definition set_checkpoints (m : gmap (string * Z) ExplorationCheckpoint) (db : Db) : Db :=
  {| benchmark_runs := benchmark_runs db; attempt_progress := attempt_progress db; live_checkpoints := m |}.

Section store.
Context (now : string).

Definition loadAttemptProgress (id : string) : js Db StoreError (option ExplorationAttemptProgress) :=
  db ← get; mret (attempt_progress db !! id).

Definition new_row (n : NewExplorationAttemptProgress) : ExplorationAttemptProgress :=
  {| attemptId := n_attemptId n; p_runId := n_runId n;
     sourceBindingHash := n_sourceBindingHash n; policyBindingHash := n_policyBindingHash n;
     seedBindingHash := n_seedBindingHash n; phase := n_phase n; seedCursor := n_seedCursor n;
     lastSafeStep := n_lastSafeStep n; lastSafeGraphFingerprint := n_lastSafeGraphFingerprint n;
     remaining := n_remaining n; inFlightAction := n_inFlightAction n;
     terminalReason := n_terminalReason n; version := 1; createdAt := now; updatedAt := now |}.

(** [insert .. on conflict do nothing]. *)
Definition insertAttemptProgress (n : NewExplorationAttemptProgress) : js Db StoreError unit :=
  db ← get;
  match attempt_progress db !! n_attemptId n with
  | Some _ => mret tt
  | None =>
      _ ← throw_if (bool_decide (n_runId n ∉ benchmark_runs db)) ForeignKey;
      modify (λ db, set_progress (<[n_attemptId n := new_row n]> (attempt_progress db)) db)
  end.

(** The two statements, not in a transaction. *)
Definition initializeAttemptProgress (n : NewExplorationAttemptProgress)
    : js Db StoreError ExplorationAttemptProgress :=
  _ ← insertAttemptProgress n;
  loaded ← loadAttemptProgress (n_attemptId n);
  match loaded with
  | None => throw ExplorationProgressInitializationFailed
  | Some row => mret row
  end.

Definition apply_update (u : ExplorationProgressUpdate) (row : ExplorationAttemptProgress)
    : ExplorationAttemptProgress :=
  {| attemptId := attemptId row; p_runId := p_runId row; sourceBindingHash := sourceBindingHash row;
     policyBindingHash := policyBindingHash row; seedBindingHash := seedBindingHash row;
     phase := u_phase u; seedCursor := u_seedCursor u; lastSafeStep := u_lastSafeStep u;
     lastSafeGraphFingerprint := u_lastSafeGraphFingerprint u; remaining := u_remaining u;
     inFlightAction := u_inFlightAction u; terminalReason := u_terminalReason u;
     version := version row + 1; createdAt := createdAt row; updatedAt := now |}.

(** [busy] is SQLite's answer to [BEGIN IMMEDIATE]. *)
Definition compareAndSetAttemptProgress (busy : bool) (u : ExplorationProgressUpdate)
    : js Db StoreError ExplorationProgressUpdateResult :=
  if busy then throw StorageBusy
  else transaction
    (db ← get;
     match attempt_progress db !! u_attemptId u with
     | None => mret (conflict None)
     | Some current =>
         if negb (version current =? expectedVersion u)%Z then mret (conflict (Some current))
         else
           _ ← (match u_checkpoint u with
                | None => mret tt
                | Some c =>
                    match live_checkpoints db !! (u_attemptId u, cp_step c) with
                    | Some _ => mret tt
                    | None => modify (λ db, set_checkpoints
                        (<[(u_attemptId u, cp_step c) := c]> (live_checkpoints db)) db)
                    end
                end);
           _ ← modify (λ db, set_progress (<[u_attemptId u := apply_update u current]> (attempt_progress db)) db);
           mret (updated (apply_update u current))
     end).
End store.

(** [order by step]. *)
Definition cp_le (a b : ExplorationCheckpoint) : Prop := (cp_step a <= cp_step b)%Z.
#[export] Instance cp_le_dec : RelDecision cp_le.
Proof. intros a b. unfold cp_le. apply _. Defined.

Definition liveCheckpointsForAttempt (id : string) (db : Db) : list ExplorationCheckpoint :=
  merge_sort cp_le (snd <$> filter (λ kv : string * Z * ExplorationCheckpoint, kv.1.1 = id)
    (map_to_list (live_checkpoints db))).

(** ** The controller's data *)
Record RegressionSeed := {
  plan_skillBundleId : string;
  manifest_bundleId : string;
  manifest_contentSha256 : string;
  payload_state : string;
}.
Record RegressionJobResult := {
  r_skillBundleId : string;
  repetitionsRun : Z;
  r_passed : bool;
}.
Inductive ExplorationEnvironment := test | production.
Record ExplorationJob := {
  runId : string;
  policy : ExplorationPolicy;
  environment : ExplorationEnvironment;
  job_attemptId : string;
  job_sourceBindingHash : string;
  seedSkills : list RegressionSeed;
}.
Record ExplorationResult := {
  res_terminalReason : ExplorationTerminalReason;
  errorCode : option string;
  res_checkpoints : list ExplorationCheckpoint;
  res_stepsExecuted : Z;
  res_seedReplays : list RegressionJobResult;
}.
Record ExplorationContext := {
  c_runId : string;
  c_graph : json;
  visitedFingerprints : list string;
  c_allowedActionKinds : list string;
  c_riskCeiling : ActionRiskLevel;
  remainingBudget : ExplorationBudgetSnapshot;
}.
Record ExplorationProposal := { decision : ExplorationDecision; tokensUsed : option number }.
Record GroundedExplorationAction := {
  g_kind : ExplorationActionKind;
  g_reason : string;
  risk : ActionRiskLevel;
  node : option json;
  g_path : option string;
  g_valueRef : option string;
}.
Inductive ExplorationPolicyDecision := allowed (reason : string) | denied (reason : string).

(** What the controller calls, and what is answered; [Throw] is an exception. *)
Inductive Call : Type → Type :=
  | ClockNow : Call number
  | Capture : Call (outcome unit json)
  | Recover : Call (outcome unit unit)
  | NextAction (c : ExplorationContext) : Call (outcome unit ExplorationProposal)
  | Authorize (a : GroundedExplorationAction) : Call (outcome unit ExplorationPolicyDecision)
  | Execute (a : GroundedExplorationAction) : Call (outcome unit unit)
  | Replay (s : RegressionSeed) : Call (outcome unit RegressionJobResult)
  | Initialize (n : NewExplorationAttemptProgress) : Call (outcome StoreError ExplorationAttemptProgress)
  | CompareAndSet (u : ExplorationProgressUpdate)
      : Call (outcome StoreError ExplorationProgressUpdateResult)
  | LiveCheckpoints (id : string) : Call (outcome StoreError (list ExplorationCheckpoint)).

(** A call and its answer, as remembered in a history. *)
Inductive Note :=
  | n_clock (t : number)
  | n_captured (o : outcome unit json)
  | n_recovered (o : outcome unit unit)
  | n_proposed (c : ExplorationContext) (o : outcome unit ExplorationProposal)
  | n_authorized (a : GroundedExplorationAction) (o : outcome unit ExplorationPolicyDecision)
  | n_executed (a : GroundedExplorationAction) (o : outcome unit unit)
  | n_replayed (s : RegressionSeed) (o : outcome unit RegressionJobResult)
  | n_initialized (n : NewExplorationAttemptProgress) (o : outcome StoreError ExplorationAttemptProgress)
  | n_updated (u : ExplorationProgressUpdate) (o : outcome StoreError ExplorationProgressUpdateResult)
  | n_checkpoints (id : string) (o : outcome StoreError (list ExplorationCheckpoint)).

Definition note (B : Type) (e : Call B) : B → Note :=
  match e in Call B return B → Note with
  | ClockNow => n_clock
  | Capture => n_captured
  | Recover => n_recovered
  | NextAction c => n_proposed c
  | Authorize a => n_authorized a
  | Execute a => n_executed a
  | Replay s => n_replayed s
  | Initialize n => n_initialized n
  | CompareAndSet u => n_updated u
  | LiveCheckpoints id => n_checkpoints id
  end.

(** The actions of a history. *)
Definition actions (h : list Note) : list GroundedExplorationAction :=
  omap (λ n, match n with n_executed a _ => Some a | _ => None end) h.

Definition M := prog Call ExplorationError.

Record RunState := {
  progress : ExplorationAttemptProgress;
  budget : ExplorationBudget;
  tracker : StateVisitTracker;
  checkpoints : list ExplorationCheckpoint;
  seedReplays : list RegressionJobResult;
  state_seedCursor : ExplorationSeedCursor;
  stepsExecuted : Z;
}.
Definition with_progress (p : ExplorationAttemptProgress) (s : RunState) : RunState :=
  {| progress := p; budget := budget s; tracker := tracker s; checkpoints := checkpoints s;
     seedReplays := seedReplays s; state_seedCursor := state_seedCursor s; stepsExecuted := stepsExecuted s |}.
Definition with_budget (b : ExplorationBudget) (s : RunState) : RunState :=
  {| progress := progress s; budget := b; tracker := tracker s; checkpoints := checkpoints s;
     seedReplays := seedReplays s; state_seedCursor := state_seedCursor s; stepsExecuted := stepsExecuted s |}.
Definition with_tracker (t : StateVisitTracker) (s : RunState) : RunState :=
  {| progress := progress s; budget := budget s; tracker := t; checkpoints := checkpoints s;
     seedReplays := seedReplays s; state_seedCursor := state_seedCursor s; stepsExecuted := stepsExecuted s |}.
Definition push_checkpoint (c : ExplorationCheckpoint) (s : RunState) : RunState :=
  {| progress := progress s; budget := budget s; tracker := tracker s; checkpoints := checkpoints s ++ [c];
     seedReplays := seedReplays s; state_seedCursor := state_seedCursor s; stepsExecuted := stepsExecuted s |}.
Definition push_replay (r : RegressionJobResult) (s : RunState) : RunState :=
  {| progress := progress s; budget := budget s; tracker := tracker s; checkpoints := checkpoints s;
     seedReplays := seedReplays s ++ [r]; state_seedCursor := state_seedCursor s;
     stepsExecuted := stepsExecuted s |}.
Definition with_cursor (c : ExplorationSeedCursor) (s : RunState) : RunState :=
  {| progress := progress s; budget := budget s; tracker := tracker s; checkpoints := checkpoints s;
     seedReplays := seedReplays s; state_seedCursor := c; stepsExecuted := stepsExecuted s |}.
Definition with_steps (n : Z) (s : RunState) : RunState :=
  {| progress := progress s; budget := budget s; tracker := tracker s; checkpoints := checkpoints s;
     seedReplays := seedReplays s; state_seedCursor := state_seedCursor s; stepsExecuted := n |}.

Definition terminal (reason : ExplorationTerminalReason) (cps : list ExplorationCheckpoint) (steps : Z)
    (replays : list RegressionJobResult) (code : option string) : ExplorationResult :=
  {| res_terminalReason := reason; errorCode := code; res_checkpoints := cps;
     res_stepsExecuted := steps; res_seedReplays := replays |}.
Definition terminal_of (reason : ExplorationTerminalReason) (s : RunState) (code : option string) : ExplorationResult :=
  terminal reason (checkpoints s) (stepsExecuted s) (seedReplays s) code.

Definition checkpoint (step : Z) (fingerprint : string) (remaining : ExplorationBudgetSnapshot)
    (reason : option ExplorationTerminalReason) : ExplorationCheckpoint :=
  {| cp_step := step; graphFingerprint := fingerprint; cp_remaining := remaining;
     cp_terminalReason := reason |}.

Definition lastSafeFingerprint (s : RunState) : option string :=
  match List.find (λ c, bool_decide (cp_terminalReason c = None)) (rev (checkpoints s)) with
  | Some c => Some (graphFingerprint c)
  | None => lastSafeGraphFingerprint (progress s)
  end.

(** ** The controller *)
Section controller.
Context (parse_url : string → option Url) (number_text : number → string) (sha256 : string → string).
(** [new URL(path, base).href]. *)
Context (resolve_url : string → string → option string).
(** [validateLiveGraph]: the graph, or the code of the error. *)
Context (validateLiveGraph : json → outcome string json) (fingerprintOf : json → string).
(** The optional dependencies. *)
Context (classifier : option (ProposedExplorationAction → json → option json → ActionRiskLevel)).
Context (has_policyGate has_recover has_seedReplay : bool) (tokenReservationEstimate : option number).

Definition DEFAULT_TOKEN_ESTIMATE : number := num_of_Z 1000.
Definition tokenEstimate : number := default DEFAULT_TOKEN_ESTIMATE tokenReservationEstimate.

Definition canonicalPayloadHash (payload : json) : string :=
  RunnerControl.canonicalPayloadHash number_text sha256 payload.

(** [DefaultExplorationActionClassifier]. *)
Definition default_classify (a : ProposedExplorationAction) : ActionRiskLevel :=
  match kind a with navigate => ReadOnly | click => LocalMutation | input => RecoverableMutation end.
Definition classify (a : ProposedExplorationAction) (graph : json) (node : option json) : ActionRiskLevel :=
  match classifier with Some f => f a graph node | None => default_classify a end.

(** [AllowAllExplorationPolicyGate], when none is given. *)
Definition authorize (a : GroundedExplorationAction) : M ExplorationPolicyDecision :=
  if has_policyGate then
    o ← ask (Authorize a);
    match o with Ok d => mret d | Throw _ => Fail PolicyGateFailure end
  else mret (allowed "no additional runner policy").

Definition store_call {B} (e : Call (outcome StoreError B)) : M B :=
  o ← ask e;
  match o with Ok b => mret b | Throw x => Fail (StoreFailure x) end.

(** *** The live graph *)
Definition field (key : string) (value : option json) : option json :=
  match value with Some (JObj fields) => get_field key fields | _ => None end.
Definition text_of (value : option json) : string :=
  match value with Some (JStr s) => s | _ => "undefined" end.
Definition web_payload (graph : json) : option json :=
  field "payload" (field "web/v1" (field "extensions" (Some graph))).
Definition web_origin (graph : json) : string := text_of (field "origin" (web_payload graph)).
Definition webV1LocationHref (graph : json) : string :=
  web_origin graph +:+ text_of (field "pathname" (web_payload graph)).
Definition graph_nodes (graph : json) : list json :=
  match field "nodes" (Some graph) with Some (JArr l) => l | _ => [] end.
Definition find_node (id : string) (graph : json) : option json :=
  List.find (λ n, match field "id" (Some n) with Some (JStr x) => String.eqb x id | _ => false end)
    (graph_nodes graph).

Definition isGraphOriginAllowed (graph : json) (p : ExplorationPolicy) : bool :=
  includes (allowedOrigins p) (web_origin graph).
Definition isUrlOriginAllowed (url : string) (p : ExplorationPolicy) : bool :=
  match parse_url url with
  | Some parsed => includes (allowedOrigins p) (origin parsed)
  | None => false
  end.
Definition isNavigationTargetAllowed (a : ProposedExplorationAction) (graph : json) (p : ExplorationPolicy) : bool :=
  match path a with
  | None => false
  | Some target =>
      match resolve_url target (webV1LocationHref graph) with
      | Some href => isUrlOriginAllowed href p
      | None => false
      end
  end.

(** *** Grounding a proposal *)
Definition ValidationResult : Type := (GroundedExplorationAction + ExplorationTerminalReason * string)%type.

Definition ground (a : ProposedExplorationAction) (graph : json) (node : option json) (p : ExplorationPolicy)
    : ValidationResult :=
  let risk := classify a graph node in
  if negb (isWithinRiskCeiling risk (riskCeiling p)) then inr (no_safe_action, "UnsafeExplorationAction")
  else inl {| g_kind := kind a; g_reason := reason a; risk := risk; node := node;
              g_path := path a; g_valueRef := valueRef a |}.

Definition validateProposal (a : option ProposedExplorationAction) (graph : json) (p : ExplorationPolicy)
    : ValidationResult :=
  match a with
  | None => inr (no_safe_action, "MalformedProposal")
  | Some a =>
      if negb (includes (allowedActionKinds p) (kind_text (kind a)))
      then inr (no_safe_action, "UnsafeExplorationAction")
      else if negb (isGraphOriginAllowed graph p) then inr (policy_denied, "OriginViolation")
      else if bool_decide (kind a = navigate) && negb (isNavigationTargetAllowed a graph p)
      then inr (policy_denied, "OriginViolation")
      else if bool_decide (kind a = click) || bool_decide (kind a = input) then
        match nodeId a with
        | None => inr (no_safe_action, "UnknownNode")
        | Some id =>
            match find_node id graph with
            | None => inr (no_safe_action, "UnknownNode")
            | Some node =>
                if bool_decide (kind a = input) && bool_decide (valueRef a = None)
                then inr (no_safe_action, "MalformedProposal")
                else ground a graph (Some node) p
            end
        end
      else if bool_decide (path a = None) then inr (no_safe_action, "MalformedProposal")
      else ground a graph None p
  end.

(** *** Durable bindings *)
Definition encode_action (a : GroundedExplorationAction) : json :=
  JObj ([("kind", JStr (kind_text (g_kind a))); ("reason", JStr (g_reason a));
         ("risk", JStr (risk_text (risk a)))] ++ opt_field "node" id (node a) ++
        opt_field "path" JStr (g_path a) ++ opt_field "valueRef" JStr (g_valueRef a)).
Definition inFlight (step : Z) (a : GroundedExplorationAction) : ExplorationInFlightAction :=
  {| flight_step := step;
     actionDigest := canonicalPayloadHash (JObj [("step", JNum (num_of_Z step)); ("action", encode_action a)]);
     actionJson := encode_action a |}.

Definition encode_policy (p : ExplorationPolicy) : json :=
  JObj [("seedSkillBundleIds", JArr (JStr <$> seedSkillBundleIds p));
        ("allowedActionKinds", JArr (JStr <$> allowedActionKinds p));
        ("allowedOrigins", JArr (JStr <$> allowedOrigins p));
        ("maximumSteps", JNum (maximumSteps p)); ("maximumWallClockMs", JNum (maximumWallClockMs p));
        ("maximumModelTokens", JNum (maximumModelTokens p));
        ("maximumStateVisits", JNum (maximumStateVisits p));
        ("maximumRecoveries", JNum (maximumRecoveries p));
        ("riskCeiling", JStr (risk_text (riskCeiling p)))].
Definition policyBinding (job : ExplorationJob) : string := canonicalPayloadHash (encode_policy (policy job)).
Definition seedBinding (job : ExplorationJob) : string :=
  canonicalPayloadHash (JObj [
    ("policySeedSkillBundleIds", JArr (JStr <$> seedSkillBundleIds (policy job)));
    ("seeds", JArr ((λ s, JObj [("skillBundleId", JStr (plan_skillBundleId s));
       ("bundleId", JStr (manifest_bundleId s)); ("contentSha256", JStr (manifest_contentSha256 s))])
       <$> seedSkills job))]).

Definition bindingsMatch (p : ExplorationAttemptProgress) (job : ExplorationJob) : bool :=
  String.eqb (p_runId p) (runId job) && String.eqb (sourceBindingHash p) (job_sourceBindingHash job) &&
  String.eqb (policyBindingHash p) (policyBinding job) && String.eqb (seedBindingHash p) (seedBinding job).

Definition blank (s : string) : bool := all_whitespace (length (bytes s)) (bytes s).

Definition validateSeeds (job : ExplorationJob) : option (ExplorationTerminalReason * string) :=
  if negb (bool_decide (length (seedSkillBundleIds (policy job)) = length (seedSkills job)))
  then Some (no_safe_action, "MissingSeedSkill")
  else if negb (bool_decide (seedSkillBundleIds (policy job) = plan_skillBundleId <$> seedSkills job))
  then Some (no_safe_action, "SeedBindingConflict")
  else if existsb (λ s, negb (String.eqb (plan_skillBundleId s) (manifest_bundleId s))) (seedSkills job)
  then Some (no_safe_action, "SeedBindingConflict")
  else if existsb (λ s, negb (String.eqb (payload_state s) "verified")) (seedSkills job)
  then Some (no_safe_action, "SeedSkillNotVerified")
  else None.

(** *** Progress *)
Definition snapshot (b : ExplorationBudget) : M ExplorationBudgetSnapshot :=
  now ← ask ClockNow;
  mret {| s_remainingSteps := remainingSteps b;
          s_remainingWallClockMs := num_max (num_of_Z 0)
            (num_sub (b_maximumWallClockMs b) (num_sub now (startedAtMs b)));
          s_remainingModelTokens := remainingModelTokens b;
          s_remainingStateVisits := remainingStateVisits b;
          s_remainingRecoveries := remainingRecoveries b |}.

Definition checkWallClock (b : ExplorationBudget) : M bool :=
  now ← ask ClockNow;
  mret (negb (num_leb (b_maximumWallClockMs b) (num_sub now (startedAtMs b)))).

Definition update_of (s : RunState) (ph : ExplorationProgressPhase) (cursor : ExplorationSeedCursor)
    (step : Z) (fingerprint : option string) (left : ExplorationBudgetSnapshot)
    (flight : option ExplorationInFlightAction) (reason : option ExplorationTerminalReason)
    (c : option ExplorationCheckpoint) : ExplorationProgressUpdate :=
  {| u_attemptId := attemptId (progress s); expectedVersion := version (progress s); u_phase := ph;
     u_seedCursor := cursor; u_lastSafeStep := step; u_lastSafeGraphFingerprint := fingerprint;
     u_remaining := left; u_inFlightAction := flight; u_terminalReason := reason; u_checkpoint := c |}.

(** The state with the stored progress, or [None] on a conflict. *)
Definition updateProgress (s : RunState) (u : ExplorationProgressUpdate) : M (option RunState) :=
  r ← store_call (CompareAndSet u);
  match r with
  | updated p => mret (Some (with_progress p s))
  | conflict _ => mret None
  end.

Definition finish (s : RunState) (why : ExplorationTerminalReason) (code : option string) : M ExplorationResult :=
  if bool_decide (phase (progress s) = terminal_phase) then mret (terminal_of why s code)
  else
    left ← snapshot (budget s);
    let terminalCheckpoint :=
      match last (checkpoints s) with
      | Some c => if bool_decide (cp_terminalReason c = Some why) then Some c else None
      | None => None
      end in
    r ← updateProgress s (update_of s terminal_phase (state_seedCursor s) (stepsExecuted s)
          (lastSafeFingerprint s) left (inFlightAction (progress s)) (Some why) terminalCheckpoint);
    match r with
    | Some _ => mret (terminal_of why s code)
    | None => mret (terminal_of error s (Some "ExplorationTerminalPersistenceFailed"))
    end.

(** *** Starting or resuming an attempt *)
Definition budget_from (p : ExplorationPolicy) : M ExplorationBudget :=
  validated ← lift_outcome (validateExplorationPolicy parse_url p);
  now ← ask ClockNow;
  mret {| remainingSteps := maximumSteps validated; remainingStateVisits := maximumStateVisits validated;
          remainingModelTokens := maximumModelTokens validated;
          remainingRecoveries := maximumRecoveries validated;
          b_maximumWallClockMs := maximumWallClockMs validated; startedAtMs := now |}.

Definition resumeFromSnapshot (s : ExplorationBudgetSnapshot) : M ExplorationBudget :=
  _ ← lift_outcome (validateSnapshot s);
  now ← ask ClockNow;
  mret {| remainingSteps := s_remainingSteps s; remainingStateVisits := s_remainingStateVisits s;
          remainingModelTokens := s_remainingModelTokens s;
          remainingRecoveries := s_remainingRecoveries s;
          b_maximumWallClockMs := s_remainingWallClockMs s; startedAtMs := now |}.

Definition emptySeedCursor : ExplorationSeedCursor :=
  {| nextSeedIndex := 0; completedSeedSkillBundleIds := []; inFlightSeedSkillBundleId := None |}.

Definition restored_tracker (t : StateVisitTracker) (cps : list ExplorationCheckpoint)
    (lastSafe : option string) : StateVisitTracker :=
  let t := foldl (λ t c, restore (graphFingerprint c) t) t cps in
  match lastSafe with
  | Some f => if bool_decide (f ∈ graphFingerprint <$> cps) then t else restore f t
  | None => t
  end.

(** [inr]: the attempt is over. *)
Definition loadOrInitializeState (job : ExplorationJob) : M (RunState + ExplorationResult) :=
  initialBudget ← budget_from (policy job);
  left ← snapshot initialBudget;
  initial ← store_call (Initialize {| n_attemptId := job_attemptId job; n_runId := runId job;
    n_sourceBindingHash := job_sourceBindingHash job; n_policyBindingHash := policyBinding job;
    n_seedBindingHash := seedBinding job; n_phase := seed_replay; n_seedCursor := emptySeedCursor;
    n_lastSafeStep := 0; n_lastSafeGraphFingerprint := None; n_remaining := left;
    n_inFlightAction := None; n_terminalReason := None |});
  if negb (bindingsMatch initial job)
  then mret (inr (terminal error [] 0 [] (Some "ExplorationProgressBindingConflict")))
  else match phase initial with
  | action_in_flight =>
      marked ← store_call (CompareAndSet {| u_attemptId := attemptId initial;
        expectedVersion := version initial; u_phase := terminal_phase; u_seedCursor := seedCursor initial;
        u_lastSafeStep := lastSafeStep initial;
        u_lastSafeGraphFingerprint := lastSafeGraphFingerprint initial; u_remaining := remaining initial;
        u_inFlightAction := inFlightAction initial; u_terminalReason := Some error;
        u_checkpoint := None |});
      cps ← store_call (LiveCheckpoints (job_attemptId job));
      match marked with
      | updated p => mret (inr (terminal error cps (lastSafeStep p) [] (Some "ActionOutcomeUnknown")))
      | conflict _ => mret (inr (terminal error cps (lastSafeStep initial) [] (Some "ExplorationProgressConflict")))
      end
  | terminal_phase =>
      cps ← store_call (LiveCheckpoints (attemptId initial));
      mret (inr (terminal (default error (terminalReason initial)) cps (lastSafeStep initial) [] None))
  | _ =>
      cps ← store_call (LiveCheckpoints (attemptId initial));
      t ← lift_outcome (newTracker (num_max (num_of_Z 1) (maximumStateVisits (policy job))));
      let t := restored_tracker t cps (lastSafeGraphFingerprint initial) in
      b ← resumeFromSnapshot (remaining initial);
      mret (inl {| progress := initial; budget := b; tracker := t; checkpoints := cps; seedReplays := [];
                   state_seedCursor := seedCursor initial; stepsExecuted := lastSafeStep initial |})
  end.

(** *** Seeds *)

(** The [for] loop; [index] is [nextSeedIndex] of the cursor, [inr] a result. *)
Fixpoint replay_loop (total : Z) (index : Z) (seeds : list RegressionSeed) (s : RunState)
    : M (RunState + ExplorationResult) :=
  match seeds with
  | [] => mret (inl s)
  | seed :: rest =>
      let cursor := state_seedCursor s in
      let inFlightSeedCursor := {| nextSeedIndex := nextSeedIndex cursor;
        completedSeedSkillBundleIds := completedSeedSkillBundleIds cursor;
        inFlightSeedSkillBundleId := Some (plan_skillBundleId seed) |} in
      left ← snapshot (budget s);
      r ← updateProgress s (update_of s seed_replay inFlightSeedCursor (stepsExecuted s)
            (lastSafeFingerprint s) left None None None);
      match r with
      | None => mret (inr (terminal_of error s (Some "ExplorationProgressConflict")))
      | Some s =>
          let s := with_cursor inFlightSeedCursor s in
          o ← ask (Replay seed);
          match o with
          | Throw _ => Fail SeedReplayFailure
          | Ok result =>
              let s := push_replay result s in
              if negb (r_passed result) then
                c ← finish s plan_diverged (Some "SeedReplayFailed"); mret (inr c)
              else
                let next := {| nextSeedIndex := (index + 1)%Z;
                  completedSeedSkillBundleIds :=
                    completedSeedSkillBundleIds (state_seedCursor s) ++ [plan_skillBundleId seed];
                  inFlightSeedSkillBundleId := None |} in
                left ← snapshot (budget s);
                r ← updateProgress s (update_of s
                      (if (index + 1 =? total)%Z then exploring else seed_replay) next (stepsExecuted s)
                      (lastSafeFingerprint s) left None None None);
                match r with
                | None => mret (inr (terminal_of error s (Some "ExplorationProgressConflict")))
                | Some s => replay_loop total (index + 1) rest (with_cursor next s)
                end
          end
      end
  end.

Definition replaySeeds (job : ExplorationJob) (s : RunState) : M (RunState + ExplorationResult) :=
  let seeds := seedSkills job in
  if bool_decide (length seeds = 0) then mret (inl s)
  else if bool_decide (inFlightSeedSkillBundleId (state_seedCursor s) ≠ None) then
    c ← finish s error (Some "SeedReplayOutcomeUnknown"); mret (inr c)
  else if negb has_seedReplay then
    c ← finish s no_safe_action (Some "MissingSeedReplayPort"); mret (inr c)
  else
    let index := nextSeedIndex (state_seedCursor s) in
    if (index <? 0)%Z then c ← finish s no_safe_action (Some "SeedBindingConflict"); mret (inr c)
    else replay_loop (Z.of_nat (length seeds)) index (drop (Z.to_nat index) seeds) s.

(** *** One round of the loop *)
Definition captureWithRecovery (s : RunState) : M (json * RunState + ExplorationResult) :=
  o ← ask Capture;
  match o with
  | Ok graph => mret (inl (graph, s))
  | Throw _ =>
      if negb has_recover then
        c ← finish s error (Some "EnvironmentRecoveryUnavailable"); mret (inr c)
      else
        match reserveRecovery (budget s) with
        | None => c ← finish s budget_exhausted (Some "ExplorationBudgetExceeded"); mret (inr c)
        | Some b =>
            let s := with_budget b s in
            recovered ← ask Recover;
            again ← (match recovered with
                     | Ok _ => o ← ask Capture; mret (match o with Ok g => Some g | Throw _ => None end)
                     | Throw _ => mret None
                     end);
            match again with
            | Some graph => mret (inl (graph, s))
            | None => c ← finish s error (Some "EnvironmentRecoveryFailed"); mret (inr c)
            end
        end
  end.

(** A terminal checkpoint, then [finish]. *)
Definition finish_at (s : RunState) (fingerprint : string) (checkpointReason why : ExplorationTerminalReason)
    (code : option string) : M (RunState + ExplorationResult) :=
  left ← snapshot (budget s);
  let s := push_checkpoint (checkpoint (Z.of_nat (length (checkpoints s)) + 1) fingerprint left
             (Some checkpointReason)) s in
  c ← finish s why code;
  mret (inr c).

Definition exhausted (s : RunState) (fingerprint : string) : M (RunState + ExplorationResult) :=
  finish_at s fingerprint budget_exhausted budget_exhausted (Some "ExplorationBudgetExceeded").

(** An authorized action: recorded in flight, executed, and checkpointed. *)
Definition dispatch (fingerprint : string) (s : RunState) (a : GroundedExplorationAction)
    : M (RunState + ExplorationResult) :=
  let actionStep := (stepsExecuted s + 1)%Z in
  left ← snapshot (budget s);
  r ← updateProgress s (update_of s action_in_flight (state_seedCursor s) (stepsExecuted s)
        (lastSafeFingerprint s) left (Some (inFlight actionStep a)) None None);
  match r with
  | None => mret (inr (terminal_of error s (Some "ExplorationProgressConflict")))
  | Some s =>
      o ← ask (Execute a);
      match o with
      | Throw _ => c ← finish s error (Some "ActionOutcomeUnknown"); mret (inr c)
      | Ok _ =>
          let s := with_steps actionStep s in
          left ← snapshot (budget s);
          let safe := checkpoint actionStep fingerprint left None in
          let s := push_checkpoint safe s in
          left ← snapshot (budget s);
          r ← updateProgress s (update_of s exploring (state_seedCursor s) (stepsExecuted s)
                (Some fingerprint) left None None (Some safe));
          match r with
          | None => mret (inr (terminal_of error s (Some "ExplorationCheckpointPersistenceFailed")))
          | Some s => mret (inl s)
          end
      end
  end.

(** What the model's answer leads to. *)
Definition decide_action (job : ExplorationJob) (graph : json) (fingerprint : string) (s : RunState)
    (d : ExplorationDecision) : M (RunState + ExplorationResult) :=
  match status d with
  | stop => finish_at s fingerprint objective_satisfied objective_satisfied None
  | act =>
      match validateProposal (action d) graph (policy job) with
      | inr (why, code) => finish_at s fingerprint why why (Some code)
      | inl a =>
          verdict ← authorize a;
          match verdict with
          | denied _ => finish_at s fingerprint policy_denied policy_denied (Some "PolicyDenied")
          | allowed _ => dispatch fingerprint s a
          end
      end
  end.

Definition consult (job : ExplorationJob) (graph : json) (fingerprint : string) (s : RunState)
    : M (RunState + ExplorationResult) :=
  left ← snapshot (budget s);
  o ← ask (NextAction {| c_runId := runId job; c_graph := graph; visitedFingerprints := [fingerprint];
        c_allowedActionKinds := allowedActionKinds (policy job);
        c_riskCeiling := riskCeiling (policy job); remainingBudget := left |});
  match o with
  | Throw _ => finish_at s fingerprint error error (Some "ExplorationModelUnavailable")
  | Ok proposal =>
      match tokensUsed proposal with
      | None => finish_at s fingerprint error error (Some "ModelUsageUnavailable")
      | Some used =>
          '(b, within) ← lift_outcome (settleModelTokens tokenEstimate used (budget s));
          let s := with_budget b s in
          if negb within then exhausted s fingerprint
          else decide_action job graph fingerprint s (decision proposal)
      end
  end.

Definition iteration (job : ExplorationJob) (s : RunState) : M (RunState + ExplorationResult) :=
  wall ← checkWallClock (budget s);
  if negb wall then c ← finish s budget_exhausted (Some "ExplorationBudgetExceeded"); mret (inr c)
  else
    capture ← captureWithRecovery s;
    match capture with
    | inr c => mret (inr c)
    | inl (raw, s) =>
        match validateLiveGraph raw with
        | Throw code => c ← finish s error (Some code); mret (inr c)
        | Ok graph =>
            let fingerprint := fingerprintOf graph in
            if negb (isGraphOriginAllowed graph (policy job))
            then finish_at s fingerprint policy_denied policy_denied (Some "OriginViolation")
            else
              match record_visit fingerprint (tracker s) with
              | None => finish_at s fingerprint state_repeated state_repeated (Some "RepeatedState")
              | Some t =>
                  let s := with_tracker t s in
                  match reserveStateVisit (budget s) with
                  | None => exhausted s fingerprint
                  | Some b =>
                      let s := with_budget b s in
                      match reserveStep (budget s) with
                      | None => exhausted s fingerprint
                      | Some b =>
                          let s := with_budget b s in
                          reservation ← lift_outcome (reserveModelTokens tokenEstimate (budget s));
                          match reservation with
                          | None => exhausted s fingerprint
                          | Some b => consult job graph fingerprint (with_budget b s)
                          end
                      end
                  end
              end
        end
    end.

(** [for (;;)]: [None] when the fuel runs out before the loop ends. *)
Fixpoint explore (fuel : nat) (job : ExplorationJob) (s : RunState) : M (option ExplorationResult) :=
  match fuel with
  | O => mret None
  | S fuel =>
      r ← iteration job s;
      match r with
      | inr c => mret (Some c)
      | inl s => explore fuel job s
      end
  end.

Definition run (fuel : nat) (job : ExplorationJob) : M (option ExplorationResult) :=
  match environment job with
  | production => mret (Some (terminal policy_denied [] 0 [] (Some "ExplorationNotAllowed")))
  | test =>
      _ ← fail_if (blank (job_attemptId job) || blank (job_sourceBindingHash job))
            ExplorationAttemptBindingRequired;
      match validateSeeds job with
      | Some (why, code) => mret (Some (terminal why [] 0 [] (Some code)))
      | None =>
          loaded ← loadOrInitializeState job;
          match loaded with
          | inr c => mret (Some c)
          | inl s =>
              replayed ← replaySeeds job s;
              match replayed with
              | inr c => mret (Some c)
              | inl s =>
                  advanced ←
                    (if bool_decide (phase (progress s) = seed_replay) then
                       left ← snapshot (budget s);
                       updateProgress s (update_of s exploring (state_seedCursor s) (stepsExecuted s)
                         (lastSafeFingerprint s) left None None None)
                     else mret (Some s));
                  match advanced with
                  | None => mret (Some (terminal_of error s (Some "ExplorationProgressConflict")))
                  | Some s => explore fuel job s
                  end
              end
          end
      end
  end.
End controller.

End Exploration.
