(* ===== verification/ExplorationAuthority.v ===== *)
(** * Exploration: what may be executed

    Whatever a controller of [Exploration] is answered, every action it executes
    was proposed by the model for the graph at hand, is grounded on that graph,
    within the policy and its risk ceiling, and authorized by the gate. *)
From S2P Require Import Prelude.
From S2P Require Import Number.
From S2P Require Import Json.
From S2P Require Import AppTarget.
From S2P Require Import RunnerProtocol.
From S2P Require Import Interact.
From S2P Require Import Exploration.

Module ExplorationAuthority.
Import Exploration.

Section authority.
Context (parse_url : string → option Url) (number_text : number → string) (sha256 : string → string).
Context (resolve_url : string → string → option string).
Context (validateLiveGraph : json → outcome string json) (fingerprintOf : json → string).
Context (classifier : option (ProposedExplorationAction → json → option json → ActionRiskLevel)).
Context (has_policyGate has_recover has_seedReplay : bool) (tokenReservationEstimate : option number).

Notation inFlight := (inFlight number_text sha256).
Notation run := (run parse_url number_text sha256 resolve_url validateLiveGraph fingerprintOf classifier
  has_policyGate has_recover has_seedReplay tokenReservationEstimate).

Lemma elem_includes l (x : string) : includes l x = true → x ∈ l.
Proof. apply bool_decide_eq_true. Qed.

(** The graph at hand, and what was noted since it was captured. *)
Fixpoint round (h : list Note) : option json * list Note :=
  match h with
  | [] => (None, [])
  | n_captured (Ok graph) :: _ => (Some graph, [])
  | n_captured (Throw _) :: _ => (None, [])
  | n :: h => let '(graph, l) := round h in (graph, n :: l)
  end.

(** [a] is what the proposal [proposed] asks for, on [graph], under [p]: its kind
    is allowed; its node is a node of the graph, or its target is of an allowed
    origin; its risk is the classifier's and is within the ceiling. *)
Record Grounded (graph : json) (p : ExplorationPolicy) (proposed : ProposedExplorationAction)
    (a : GroundedExplorationAction) : Prop := {
  gr_kind : g_kind a = kind proposed;
  gr_allowed : kind_text (g_kind a) ∈ allowedActionKinds p;
  gr_target : match g_kind a with
    | navigate => node a = None ∧ g_path a = path proposed ∧
        ∃ target href url, path proposed = Some target ∧
          resolve_url target (webV1LocationHref graph) = Some href ∧
          parse_url href = Some url ∧ origin url ∈ allowedOrigins p
    | click | input => ∃ id n, nodeId proposed = Some id ∧ find_node id graph = Some n ∧ node a = Some n
    end;
  gr_input : g_kind a = input → is_Some (g_valueRef a);
  gr_risk : risk a = classify classifier proposed graph (node a);
  gr_ceiling : (riskRank (risk a) <= riskRank (riskCeiling p))%Z;
}.

Lemma validateProposal_grounded proposal graph p a :
  validateProposal parse_url resolve_url classifier proposal graph p = inl a →
  ∃ proposed, proposal = Some proposed ∧ Grounded graph p proposed a.
Proof.
  destruct proposal as [pa|]; [|done]. cbn. intros H. exists pa. split; [done|].
  destruct (includes _ (kind_text _)) eqn:Hk; [|done]. apply elem_includes in Hk. cbn in H.
  destruct (isGraphOriginAllowed _ _) eqn:Hg; [|done]. cbn in H.
  assert (∀ n, ground classifier pa graph n p = inl a →
    g_kind a = kind pa ∧ node a = n ∧ g_path a = path pa ∧ g_valueRef a = valueRef pa ∧
    risk a = classify classifier pa graph (node a) ∧ (riskRank (risk a) <= riskRank (riskCeiling p))%Z) as Hground.
  { intros n. unfold ground, isWithinRiskCeiling. destruct (_ <=? _)%Z eqn:Hle; [|done]. cbn.
    intros [= <-]. apply Z.leb_le in Hle. done. }
  destruct (kind pa) eqn:Hkind; cbn in H.
  - destruct (isNavigationTargetAllowed _ _ _ _ _) eqn:Hn; [|done]. cbn in H.
    unfold isNavigationTargetAllowed, isUrlOriginAllowed in Hn.
    destruct (path pa) as [target|] eqn:Hpath; [|done]. cbn in H.
    destruct (resolve_url _ _) as [href|] eqn:Hh; [|done]. destruct (parse_url href) as [url|] eqn:Hu; [|done].
    apply elem_includes in Hn. destruct (Hground _ H) as (E1 & E2 & E3 & E4 & E5 & E6).
    split; rewrite ?E1, ?Hkind; try done. rewrite Hpath. split_and!; [done|congruence|]. by exists target, href, url.
  - destruct (nodeId pa) as [id|] eqn:Hid; [|done]. destruct (find_node id graph) as [n|] eqn:Hn; [|done].
    destruct (Hground _ H) as (E1 & E2 & E3 & E4 & E5 & E6).
    split; rewrite ?E1, ?Hkind; try done. by exists id, n.
  - destruct (nodeId pa) as [id|] eqn:Hid; [|done]. destruct (find_node id graph) as [n|] eqn:Hn; [|done].
    repeat (case_bool_decide; try done; cbn in H). destruct (Hground _ H) as (E1 & E2 & E3 & E4 & E5 & E6).
    split; rewrite ?E1, ?Hkind; try done; [by exists id, n|]. intros _. rewrite E4. by destruct (valueRef pa).
Qed.

(** Executing [a] is authorized after history [h]. *)
Record Authorized (job : ExplorationJob) (h : list Note) (a : GroundedExplorationAction) : Prop := {
  au_environment : environment job = test;
  au_graph : ∃ raw graph, (round h).1 = Some raw ∧ validateLiveGraph raw = Ok graph ∧
    web_origin graph ∈ allowedOrigins (policy job) ∧
    ∃ c prop proposed, n_proposed c (Ok prop) ∈ (round h).2 ∧ status (decision prop) = act ∧
      action (decision prop) = Some proposed ∧ Grounded graph (policy job) proposed a;
  au_gate : has_policyGate = true → ∃ why, n_authorized a (Ok (allowed why)) ∈ (round h).2;
  au_once : actions (round h).2 = [];
}.

Definition later_note (n : Note) : bool :=
  match n with n_captured _ | n_executed _ _ => false | _ => true end.

Lemma round_later n h : later_note n = true → round (n :: h) = ((round h).1, n :: (round h).2).
Proof. destruct n; try done; intros _; cbn; by destruct (round h). Qed.

Lemma authorized_later job n h a : later_note n = true → Authorized job h a → Authorized job (n :: h) a.
Proof.
  intros Hn [A1 (raw & graph & B1 & B2 & B3 & c & prop & pa & B4 & B5) A3 A4].
  split; [done|..]; rewrite round_later by done; cbn [fst snd].
  - exists raw, graph. split_and!; [done..|]. exists c, prop, pa. split; [by apply elem_of_cons; right|done].
  - intros Hg. destruct (A3 Hg) as [why H]. exists why. by apply elem_of_cons; right.
  - by destruct n.
Qed.

Definition authorized_call (job : ExplorationJob) (B : Type) (h : list Note) (e : Call B) : Prop :=
  match e with Execute a => Authorized job h a | _ => True end.

(** Programs that execute nothing. *)
Fixpoint harmless {A} (p : prog Call ExplorationError A) : Prop :=
  match p with
  | Vis e k => match e with Execute _ => False | _ => True end ∧ ∀ b, harmless (k b)
  | _ => True
  end.

Lemma harmless_bind {A B} (p : prog Call ExplorationError A) (k : A → prog Call ExplorationError B) :
  harmless p → (∀ a, harmless (k a)) → harmless (p ≫= k).
Proof. induction p as [a|e|? e k' IH]; cbn; [done..|]. intros [He Hp] Hk. split; [done|]. intros b. by apply IH. Qed.

Section authorization.
Context (job : ExplorationJob).
Notation tri := (@Interact.tri Call ExplorationError Note note (λ _ _ _, True) (authorized_call job) _).

Lemma tri_harmless {A} (p : prog Call ExplorationError A) (Q : outcome ExplorationError A → list Note → Prop) h :
  harmless p → (∀ o h', Q o h') → tri p Q h.
Proof.
  intros Hp HQ. revert h Hp. induction p as [a|e|B e k IH]; cbn; [by intros..|]. intros h [He Hp].
  split; [by destruct e|]. intros b _. by apply IH.
Qed.

Lemma harmless_lift {A} (o : outcome ExplorationError A) : harmless (lift_outcome o).
Proof. by destruct o. Qed.

Lemma harmless_ask {B} (e : Call B) : match e with Execute _ => False | _ => True end → harmless (ask e).
Proof. done. Qed.

Ltac harmless :=
  repeat match goal with
  | |- harmless (_ ≫= _) => apply harmless_bind
  | |- harmless (lift_outcome _) => apply harmless_lift
  | |- harmless (ask _) => done
  | |- harmless (store_call _) => unfold store_call
  | |- harmless (snapshot _) => unfold snapshot
  | |- harmless (updateProgress _ _) => unfold updateProgress
  | |- harmless (finish _ _ _) => unfold finish
  | |- harmless (finish_at _ _ _ _ _) => unfold finish_at
  | |- harmless (exhausted _ _) => unfold exhausted
  | |- harmless (if ?b then _ else _) => destruct b
  | |- harmless (match ?x with _ => _ end) => destruct x
  | |- harmless (let '(_, _) := ?x in _) => destruct x
  | |- ∀ _, _ => intros ?
  | |- harmless (mret _) => done
  | |- harmless (Ret _) => done
  | |- harmless (Fail _) => done
  | |- _ => progress cbv zeta
  end.

Lemma harmless_load : harmless (loadOrInitializeState parse_url number_text sha256 job).
Proof. unfold loadOrInitializeState, budget_from, resumeFromSnapshot. harmless. Qed.

Lemma harmless_replay total index seeds s : harmless (replay_loop total index seeds s).
Proof. revert index s. induction seeds as [|seed seeds IH]; intros index s; cbn [replay_loop]; harmless; apply IH. Qed.

Lemma harmless_replaySeeds s : harmless (replaySeeds has_seedReplay job s).
Proof. unfold replaySeeds. harmless. apply harmless_replay. Qed.

Lemma authorized_dispatch fingerprint s a h :
  Authorized job h a → tri (dispatch number_text sha256 fingerprint s a) (λ _ _, True) h.
Proof.
  intros [A1 A2 A3 A4]. unfold dispatch. apply tri_bind, tri_bind, tri_ask; [done|]. intros t _.
  apply tri_ret, tri_bind, tri_bind, tri_bind, tri_ask; [done|]. intros [[p|c]|e] _; [|done..].
  apply tri_ret, tri_ret, tri_bind, tri_ask; [|].
  - cbn. do 2 (apply authorized_later; [done|]). done.
  - intros o _. apply tri_harmless; [|done]. harmless.
Qed.

Lemma authorized_consult graph fingerprint s raw h :
  environment job = test → validateLiveGraph raw = Ok graph → isGraphOriginAllowed graph (policy job) = true →
  tri (consult parse_url number_text sha256 resolve_url classifier has_policyGate tokenReservationEstimate
    job graph fingerprint s) (λ _ _, True) (n_captured (Ok raw) :: h).
Proof.
  intros Henv Hraw Horigin. apply elem_includes in Horigin. unfold consult.
  apply tri_bind, tri_bind, tri_ask; [done|]. intros t _. apply tri_ret, tri_bind, tri_ask; [done|].
  intros [prop|e] _; [|apply tri_harmless; [harmless|done]].
  destruct (tokensUsed prop) as [used|]; [|apply tri_harmless; [harmless|done]].
  apply tri_bind. destruct (settleModelTokens _ _ _) as [[b within]|e]; cbn [lift_outcome Interact.tri]; [|done].
  cbv zeta. destruct within; cbn [negb]; [|apply tri_harmless; [harmless|done]].
  unfold decide_action. destruct (status _) eqn:Hact; [|apply tri_harmless; [harmless|done]].
  destruct (validateProposal _ _ _ _ _ _) as [a|[why code]] eqn:Hval; [|apply tri_harmless; [harmless|done]].
  apply validateProposal_grounded in Hval as (proposed & Hprop & Hground).
  assert (∀ h', (round h').1 = Some raw → (∃ c, n_proposed c (Ok prop) ∈ (round h').2) →
    actions (round h').2 = [] →
    (has_policyGate = true → ∃ why, n_authorized a (Ok (allowed why)) ∈ (round h').2) → Authorized job h' a) as Hauth.
  { intros h' H1 [c H2] H3 H4. split; [done| |done|done]. exists raw, graph. split_and!; [done..|].
    by exists c, prop, proposed. }
  unfold authorize. destruct has_policyGate eqn:Hgate.
  - apply tri_bind, tri_bind, tri_ask; [done|]. intros [[why|why]|e] _; [|apply tri_ret, tri_harmless; [harmless|done]|done].
    apply tri_ret, authorized_dispatch, Hauth; [done| |done|]; cbn.
    + eexists. apply elem_of_cons; right. apply elem_of_cons. by left.
    + intros _. exists why. apply elem_of_cons. by left.
  - apply tri_bind, tri_ret, authorized_dispatch, Hauth; [done| |done|done]. cbn.
    eexists. apply elem_of_cons. by left.
Qed.

Lemma authorized_capture s h :
  tri (captureWithRecovery has_recover s)
    (λ o h', match o with Ok (inl (raw, _)) => ∃ h0, h' = n_captured (Ok raw) :: h0 | _ => True end) h.
Proof.
  unfold captureWithRecovery. apply tri_bind, tri_ask; [done|]. intros [raw|e] _; [by apply tri_ret; eexists|].
  assert (∀ s' why code h', tri (c ← finish s' why code; mret (inr c))
    (λ (o : outcome ExplorationError (json * RunState + ExplorationResult)) h',
      match o with Ok (inl (raw, _)) => ∃ h0, h' = n_captured (Ok raw) :: h0 | _ => True end) h') as Hend.
  { intros. apply tri_bind, tri_harmless; [harmless|]. by intros [c|e'] h''. }
  destruct (negb _); [apply Hend|]. destruct (reserveRecovery _) as [b|]; [|apply Hend].
  apply tri_bind, tri_ask; [done|]. intros [u|e'] _; apply tri_bind; [|by apply tri_ret, Hend].
  apply tri_bind, tri_ask; [done|]. intros [raw|e'] _; apply tri_ret; [by apply tri_ret; eexists|apply Hend].
Qed.

Lemma authorized_iteration s h :
  environment job = test →
  tri (iteration parse_url number_text sha256 resolve_url validateLiveGraph fingerprintOf classifier
    has_policyGate has_recover tokenReservationEstimate job s) (λ _ _, True) h.
Proof.
  intros Henv. unfold iteration. apply tri_bind, tri_harmless; [unfold checkWallClock; harmless|].
  intros [wall|e] h1; [|done]. destruct (negb wall); [apply tri_harmless; [harmless|done]|].
  apply tri_bind. eapply tri_mono; [apply authorized_capture|]. intros [[[raw s1]|c]|e] h2; [|done..].
  intros [h0 ->]. destruct (validateLiveGraph raw) as [graph|code] eqn:Hraw; [|apply tri_harmless; [harmless|done]].
  cbv zeta. destruct (isGraphOriginAllowed graph _) eqn:Horigin; cbn [negb]; [|apply tri_harmless; [harmless|done]].
  destruct (record_visit _ _); [|apply tri_harmless; [harmless|done]].
  destruct (reserveStateVisit _); [|apply tri_harmless; [harmless|done]].
  destruct (reserveStep _); [|apply tri_harmless; [harmless|done]].
  apply tri_bind. destruct (reserveModelTokens _ _) as [[?|]|?]; cbn [lift_outcome Interact.tri]; [| |done].
  - by apply authorized_consult.
  - apply tri_harmless; [harmless|done].
Qed.

Lemma authorized_run fuel : tri (run fuel job) (λ _ _, True) [].
Proof.
  unfold Exploration.run. destruct (environment job) eqn:Henv; [|done].
  apply tri_bind, tri_harmless; [unfold fail_if; harmless|]. intros [u|e] h1; [|done].
  destruct (validateSeeds job) as [[why code]|]; [done|].
  apply tri_bind, tri_harmless; [apply harmless_load|]. intros [[s|c]|e] h2; [|done..].
  apply tri_bind, tri_harmless; [apply harmless_replaySeeds|]. intros [[s'|c]|e] h3; [|done..].
  apply tri_bind, tri_harmless; [harmless|]. intros [[s2|]|e] h4; [|done..].
  revert s2 h4. induction fuel as [|fuel IH]; intros s2 h4; [done|]. cbn [explore].
  apply tri_bind. eapply tri_mono; [by apply authorized_iteration|]. intros [[s3|c]|e] h5 _; [|done..]. apply IH.
Qed.
End authorization.

(** C9: Whatever the target, the model, the gate, the clock and the store answer,
    every action a controller executes was proposed for the graph it last
    captured, which is valid and of an allowed origin; it is of an allowed kind,
    on a node of that graph or to an allowed origin, within the risk ceiling, and
    authorized by the policy gate when there is one; it is the only one executed
    on that graph, and the environment is not production. *)
Theorem explored_actions_authorized fuel job h1 a o h2 p :
  runs note (λ _ _ _, True) (run fuel job) [] p (h1 ++ n_executed a o :: h2) → Authorized job h2 a.
Proof.
  intros Hr. assert (Interact.lawful note (authorized_call job) (h1 ++ n_executed a o :: h2)) as Hl.
  { eapply runs_lawful; [exact Hr|apply authorized_run|done]. }
  apply lawful_app in Hl as [(B & e & b & Hn & Ha) _]. destruct e; try done. cbn in Hn. by injection Hn as -> ->.
Qed.
End authority.
End ExplorationAuthority.
