(* ===== verification/ExplorationSafety.v ===== *)
(** * Exploration: what no interleaving can break

    Theorems about [Exploration]: for any number of controllers of the same
    attempts over one store, each of which may crash at any call, no step is
    executed twice, every action is recorded before it is executed, an attempt's
    steps stay within its budget, and every controller ends. *)
From S2P Require Import Prelude.
From S2P Require Import Number.
From S2P Require Import Json.
From S2P Require Import RunnerProtocol.
From S2P Require Import Interact.
From S2P Require Import Exploration.

Module ExplorationSafety.
Import Exploration.

(** ** What the store promises of one answer *)
Record reflects (u : ExplorationProgressUpdate) (p : ExplorationAttemptProgress) : Prop := {
  re_attempt : attemptId p = u_attemptId u;
  re_version : version p = (expectedVersion u + 1)%Z;
  re_phase : phase p = u_phase u;
  re_step : lastSafeStep p = u_lastSafeStep u;
  re_remaining : remaining p = u_remaining u;
  re_flight : inFlightAction p = u_inFlightAction u;
}.

Definition sound (B : Type) (e : Call B) : B → Prop :=
  match e in Call B return B → Prop with
  | Initialize n => λ o, match o with Ok p => attemptId p = n_attemptId n | Throw _ => True end
  | CompareAndSet u => λ o, match o with Ok (updated p) => reflects u p | _ => True end
  | _ => λ _, True
  end.

(** ** The stage of a controller, from its history *)

(** What it last learnt of the stored progress, and what it did since. *)
Inductive Stage :=
  | fresh
  | idle (p : ExplorationAttemptProgress)
  | armed (p : ExplorationAttemptProgress)
  | fired (p : ExplorationAttemptProgress)
  | failed (p : ExplorationAttemptProgress)
  | over.

Definition advance (n : Note) (st : Stage) : Stage :=
  match n with
  | n_initialized _ (Ok p) => idle p
  | n_initialized _ (Throw _) => over
  | n_updated _ (Ok (updated p)) => if bool_decide (phase p = action_in_flight) then armed p else idle p
  | n_updated _ _ => over
  | n_executed _ o =>
      match st with
      | armed p => match o with Ok _ => fired p | Throw _ => failed p end
      | _ => st
      end
  | _ => st
  end.
Definition stage (h : list Note) : Stage := foldr advance fresh h.

Lemma stage_cons n h : stage (n :: h) = advance n (stage h).
Proof. done. Qed.

Lemma armed_phase h p : stage h = armed p → phase p = action_in_flight.
Proof.
  induction h as [|n h IH]; [done|]. rewrite stage_cons.
  destruct n as [t|o|o|c o|a o|a o|s o|n o|u o|id o]; cbn [advance]; try exact IH.
  - destruct (stage h); try done. by destruct o.
  - by destruct o.
  - destruct o as [[q|c]|e]; [|done..]. case_bool_decide; [|done]. by intros [= <-].
Qed.

Section safety.
Context (parse_url : string → option Url) (number_text : number → string) (sha256 : string → string).
Context (resolve_url : string → string → option string).
Context (validateLiveGraph : json → outcome string json) (fingerprintOf : json → string).
Context (classifier : option (ProposedExplorationAction → json → option json → ActionRiskLevel)).
Context (has_policyGate has_recover has_seedReplay : bool) (tokenReservationEstimate : option number).

Notation inFlight := (inFlight number_text sha256).
Notation run := (run parse_url number_text sha256 resolve_url validateLiveGraph fingerprintOf classifier
  has_policyGate has_recover has_seedReplay tokenReservationEstimate).

(** The steps left: at least [k] fewer than before. *)
Definition spends (k : Z) (before after : number) : Prop :=
  ∀ z, before = num_of_Z z → (0 <= z <= max_safe_integer)%Z →
    ∃ z', after = num_of_Z z' ∧ (0 <= z' ∧ z' + k <= z)%Z.

(** The updates a controller that knows the stored progress may write. *)
Definition legal (st : Stage) (u : ExplorationProgressUpdate) : Prop :=
  let left p k := spends k (s_remainingSteps (remaining p)) (s_remainingSteps (u_remaining u)) in
  match st with
  | idle p =>
      u_attemptId u = attemptId p ∧ expectedVersion u = version p ∧ u_lastSafeStep u = lastSafeStep p ∧
      phase p ≠ terminal_phase ∧
      match u_phase u with
      | action_in_flight => phase p = exploring ∧ left p 1%Z ∧
          ∃ a, u_inFlightAction u = Some (inFlight (lastSafeStep p + 1) a)
      | exploring | seed_replay => phase p ≠ action_in_flight ∧ left p 0%Z
      | terminal_phase => left p 0%Z
      end
  | fired p =>
      u_attemptId u = attemptId p ∧ expectedVersion u = version p ∧
      u_lastSafeStep u = (lastSafeStep p + 1)%Z ∧ u_phase u = exploring ∧ left p 0%Z
  | failed p =>
      u_attemptId u = attemptId p ∧ expectedVersion u = version p ∧
      u_lastSafeStep u = lastSafeStep p ∧ u_phase u = terminal_phase ∧ left p 0%Z
  | _ => False
  end.

(** The protocol of a controller, where attempt [id] may take [limit id] steps. *)
Definition permitted (limit : string → number) (B : Type) (h : list Note) (e : Call B) : Prop :=
  match e with
  | Initialize n => stage h = fresh ∧ n_phase n = seed_replay ∧ n_lastSafeStep n = 0%Z ∧
      s_remainingSteps (n_remaining n) = limit (n_attemptId n)
  | CompareAndSet u => legal (stage h) u
  | Execute a => ∃ p, stage h = armed p ∧ inFlightAction p = Some (inFlight (lastSafeStep p + 1) a)
  | _ => True
  end.

Section protocol.
Context (limit : string → number).
Notation tri := (@Interact.tri Call ExplorationError Note note sound (permitted limit) _).

(** Calls that do not touch the protocol. *)
Definition neutral {B} (e : Call B) : bool :=
  match e with Initialize _ | CompareAndSet _ | Execute _ => false | _ => true end.

Lemma tri_neutral {B} (e : Call B) Q h :
  neutral e = true → (∀ b, stage (note B e b :: h) = stage h → Q (Ok b) (note B e b :: h)) → tri (ask e) Q h.
Proof. intros He HQ. apply tri_ask; [by destruct e|]. intros b _. apply HQ. by destruct e. Qed.

Lemma tri_lift {A} (o : outcome ExplorationError A) Q h :
  (∀ a, o = Ok a → Q (Ok a) h) → (∀ e, Q (Throw e) h) → tri (lift_outcome o) Q h.
Proof. destruct o; cbn; auto. Qed.

Lemma tri_snapshot b Q h :
  (∀ left h', stage h' = stage h → s_remainingSteps left = remainingSteps b → Q (Ok left) h') →
  tri (snapshot b) Q h.
Proof. intros HQ. apply tri_bind, tri_neutral; [done|]. intros t Ht. by apply tri_ret, HQ. Qed.

Lemma tri_update s u (Q : outcome ExplorationError (option RunState) → list Note → Prop) h :
  legal (stage h) u →
  (∀ p h', reflects u p → stage h' = (if bool_decide (phase p = action_in_flight) then armed p else idle p) →
     Q (Ok (Some (with_progress p s))) h') →
  (∀ h', Q (Ok None) h') → (∀ e h', Q (Throw e) h') → tri (updateProgress s u) Q h.
Proof.
  intros Hl Hok Hno Hex. apply tri_bind, tri_bind, tri_ask; [done|].
  intros [[p|c]|e] Hs; [|apply tri_ret..|].
  - apply tri_ret, tri_ret. by apply Hok.
  - apply tri_ret. apply Hno.
  - apply tri_fail, Hex.
Qed.

(** The budget has [k] steps less left than the stored progress. *)
Definition lined (k : Z) (s : RunState) : Prop :=
  spends k (s_remainingSteps (remaining (progress s))) (remainingSteps (budget s)).

(** The state agrees with the stored progress, and the controller may act. *)
Record Tied (k : Z) (s : RunState) (h : list Note) : Prop := {
  ti_stage : stage h = idle (progress s);
  ti_phase : phase (progress s) = exploring ∨ phase (progress s) = seed_replay;
  ti_steps : stepsExecuted s = lastSafeStep (progress s);
  ti_left : lined k s;
}.

Record Finishable (s : RunState) (h : list Note) : Prop := {
  fi_stage : stage h = idle (progress s) ∨ stage h = failed (progress s);
  fi_phase : phase (progress s) ≠ terminal_phase;
  fi_steps : stepsExecuted s = lastSafeStep (progress s);
  fi_left : lined 0 s;
}.

Lemma spends_weaken k k' before after : (k' <= k)%Z → spends k before after → spends k' before after.
Proof. intros Hk H z Hz Hr. destruct (H z Hz Hr) as (z' & -> & ?). exists z'. split; [done|lia]. Qed.

Lemma tied_finishable k s h : (0 <= k)%Z → Tied k s h → Finishable s h.
Proof.
  intros Hk [H1 H2 H3 H4]. split; [by left|by destruct H2 as [-> | ->]|done|].
  by eapply spends_weaken.
Qed.

Lemma tied_stage k s h h' : Tied k s h → stage h' = stage h → Tied k s h'.
Proof. intros [H1 H2 H3 H4] E. split; [by rewrite E|done..]. Qed.

Lemma finishable_stage s h h' : Finishable s h → stage h' = stage h → Finishable s h'.
Proof. intros [H1 H2 H3 H4] E. split; [by rewrite E|done..]. Qed.

(** What is left after a part of a round: a state to go on from, or an end. *)
Definition goes_on (k : Z) (o : outcome ExplorationError (RunState + ExplorationResult)) (h : list Note) : Prop :=
  match o with Ok (inl s) => Tied k s h ∧ phase (progress s) = exploring | _ => True end.

Lemma tri_finish s why code (Q : outcome ExplorationError ExplorationResult → list Note → Prop) h :
  Finishable s h → (∀ o h', Q o h') → tri (finish s why code) Q h.
Proof.
  intros F HQ. unfold finish. rewrite bool_decide_eq_false_2 by apply F.
  apply tri_bind, tri_snapshot. intros left h1 H1 Hleft. apply tri_bind, tri_update.
  - rewrite H1. assert (spends 0 (s_remainingSteps (remaining (progress s))) (s_remainingSteps left)) as Hsp
      by (rewrite Hleft; apply F).
    destruct (fi_stage _ _ F) as [-> | ->]; cbn; split_and!; try done; apply F.
  - intros p h2 _ _. by apply tri_ret.
  - intros h2. by apply tri_ret.
  - intros e h2. apply HQ.
Qed.

Lemma tri_finish_inr s why code k h :
  Finishable s h → tri (c ← finish s why code; mret (inr c)) (goes_on k) h.
Proof. intros F. apply tri_bind, tri_finish; [done|]. by intros [c|e] h'. Qed.

Lemma tri_finish_at s fingerprint r why code k h :
  Finishable s h → tri (finish_at s fingerprint r why code) (goes_on k) h.
Proof.
  intros F. apply tri_bind, tri_snapshot. intros left h1 H1 _. apply tri_finish_inr.
  destruct F as [F1 F2 F3 F4]. split; [by rewrite H1|done..].
Qed.

(** An authorized action. *)
Lemma tri_dispatch fingerprint s a h :
  Tied 1 s h → phase (progress s) = exploring →
  tri (dispatch number_text sha256 fingerprint s a) (goes_on 0) h.
Proof.
  intros T Hph. unfold dispatch. apply tri_bind, tri_snapshot. intros left h1 H1 Hleft.
  pose proof (ti_steps _ _ _ T) as Hst.
  apply tri_bind, tri_update; [|..|done|done].
  { rewrite H1, (ti_stage _ _ _ T). cbn. rewrite Hph, Hst. split_and!; try done.
    - rewrite Hleft. apply T.
    - by exists a. }
  intros p h2 [R1 R2 R3 R4 R5 R6] H2. cbn in R1, R2, R3, R4, R5, R6.
  rewrite R3, bool_decide_eq_true_2 in H2 by done.
  assert (lined 0 (with_progress p s)) as Hl.
  { intros z Hz Hr. cbn in Hz |- *. rewrite R5, Hleft in Hz. exists z. split; [done|lia]. }
  apply tri_bind, tri_ask.
  { exists p. split; [done|]. rewrite R6, R4, Hst. done. }
  intros [[]|[]] _.
  - apply tri_bind, tri_snapshot. intros left2 h3 H3 _. apply tri_bind, tri_snapshot.
    intros left3 h4 H4 Hleft3. cbn [budget push_checkpoint with_steps] in Hleft3.
    assert (stage h4 = fired p) as E4 by (by rewrite H4, H3, stage_cons, H2).
    apply tri_bind, tri_update; [|..|done|done].
    { rewrite E4. cbn. rewrite R4, Hst. split_and!; try done. rewrite Hleft3. apply Hl. }
    intros p' h5 [S1 S2 S3 S4 S5 S6] H5. cbn in S1, S2, S3, S4, S5, S6.
    rewrite S3, bool_decide_eq_false_2 in H5 by done. apply tri_ret. split; [|done]. split; cbn.
    + done.
    + by left.
    + rewrite S4. done.
    + intros z Hz Hr. cbn in Hz |- *. rewrite S5, Hleft3 in Hz. exists z. split; [done|lia].
  - apply tri_finish_inr. split; [right; by rewrite stage_cons, H2|cbn; by rewrite R3|cbn; by rewrite R4|done].
Qed.

(** ** The rest of a round *)
Lemma tri_authorize a h Q :
  (∀ o h', stage h' = stage h → Q o h') → tri (authorize has_policyGate a) Q h.
Proof.
  intros HQ. unfold authorize. destruct has_policyGate; [|by apply tri_ret, HQ].
  apply tri_bind, tri_neutral; [done|]. intros [d|e] H; [by apply tri_ret, HQ|by apply tri_fail, HQ].
Qed.

Lemma tri_decide_action job graph fingerprint s d h :
  Tied 1 s h → phase (progress s) = exploring →
  tri (decide_action parse_url number_text sha256 resolve_url classifier has_policyGate job graph fingerprint s d)
    (goes_on 0) h.
Proof.
  intros T Hph. pose proof (tied_finishable 1 s h ltac:(lia) T) as F.
  unfold decide_action. destruct (status d); [|by apply tri_finish_at].
  destruct (validateProposal _ _ _ _ _ _) as [a|[why code]]; [|by apply tri_finish_at].
  apply tri_bind, tri_authorize. intros [[r|r]|e] h' H; [| |done].
  - apply tri_dispatch; [by eapply tied_stage|done].
  - apply tri_finish_at. by eapply finishable_stage.
Qed.

(** Changes of the state that the protocol does not see. *)
Lemma tied_same k s s' h :
  Tied k s h → progress s' = progress s → stepsExecuted s' = stepsExecuted s →
  remainingSteps (budget s') = remainingSteps (budget s) → Tied k s' h.
Proof. intros [H1 H2 H3 H4] E1 E2 E3. split; unfold lined; rewrite ?E1, ?E2, ?E3; done. Qed.

Lemma settle_same r u b b' w : settleModelTokens r u b = Ok (b', w) → remainingSteps b' = remainingSteps b.
Proof.
  unfold settleModelTokens. intros H. apply bind_Ok in H as (x & _ & H). apply bind_Ok in H as (y & _ & H).
  cbn in H. destruct (num_ltb _ _); by injection H as <- _.
Qed.

Lemma tri_consult job graph fingerprint s h :
  Tied 1 s h → phase (progress s) = exploring →
  tri (consult parse_url number_text sha256 resolve_url classifier has_policyGate tokenReservationEstimate
    job graph fingerprint s) (goes_on 0) h.
Proof.
  intros T Hph. unfold consult. apply tri_bind, tri_snapshot. intros left h1 H1 _.
  pose proof (tied_stage 1 s h h1 T H1) as T1. apply tri_bind, tri_neutral; [done|]. intros o H2.
  pose proof (tied_stage 1 s h1 _ T1 H2) as T2. pose proof (tied_finishable 1 s _ ltac:(lia) T2) as F2.
  destruct o as [prop|e]; [|by apply tri_finish_at]. destruct (tokensUsed prop) as [used|]; [|by apply tri_finish_at].
  apply tri_bind, tri_lift; [|done]. intros [b within] Hb. cbv zeta.
  assert (Tied 1 (with_budget b s) (n_proposed _ (Ok prop) :: h1)) as T3
    by (eapply tied_same; [exact T2|done|done|by eapply settle_same]).
  destruct within; cbn [negb].
  - by apply tri_decide_action.
  - apply tri_finish_at. by apply (tied_finishable 1).
Qed.

Lemma reserve_spends n n' k before :
  (0 <= k)%Z → reserve n = Some n' → spends k before n → spends (k + 1) before n'.
Proof.
  intros Hk0. unfold reserve. destruct (num_leb n (num_of_Z 0)) eqn:Hle; [done|]. intros [= <-] H z Hz Hr.
  destruct (H z Hz Hr) as (z' & -> & H0 & Hk). rewrite num_leb_of_Z in Hle. apply Z.leb_gt in Hle.
  exists (z' - 1)%Z. rewrite num_sub_of_Z by (unfold max_safe_integer in Hr; lia). split; [done|lia].
Qed.

(** The budget of a state, tied to the stored progress. *)
Lemma tied_budget k k' s s' h :
  Tied k s h → progress s' = progress s → stepsExecuted s' = stepsExecuted s → lined k' s' → Tied k' s' h.
Proof. intros [H1 H2 H3 _] E1 E2 H. split; rewrite ?E1, ?E2; done. Qed.

Lemma tri_capture s h :
  Tied 0 s h →
  tri (captureWithRecovery has_recover s)
    (λ o h', match o with
             | Ok (inl (_, s')) => Tied 0 s' h' ∧ progress s' = progress s
             | _ => True end) h.
Proof.
  intros T. unfold captureWithRecovery. apply tri_bind, tri_neutral; [done|]. intros o H1.
  pose proof (tied_stage 0 s h _ T H1) as T1. destruct o as [graph|e]; [by apply tri_ret|].
  assert (∀ s' why code h', Finishable s' h' →
    tri (c ← finish s' why code; mret (inr c)) (λ (o : outcome ExplorationError (json * RunState + ExplorationResult)) h',
      match o with Ok (inl (_, s')) => Tied 0 s' h' ∧ progress s' = progress s | _ => True end) h') as Hend.
  { intros s' why code h' F. apply tri_bind, tri_finish; [done|]. by intros [c|e'] h''. }
  destruct has_recover; cbn [negb]; [|by apply Hend, (tied_finishable 0)].
  destruct (reserveRecovery (budget s)) as [b|] eqn:Hb; [|by apply Hend, (tied_finishable 0)].
  assert (remainingSteps b = remainingSteps (budget s)) as Eb.
  { unfold reserveRecovery in Hb. apply fmap_Some in Hb as (n & _ & ->). done. }
  apply tri_bind, tri_neutral; [done|]. intros o H2.
  assert (Tied 0 (with_budget b s) (n_recovered o :: n_captured (Throw e) :: h)) as T2.
  { eapply tied_same; [by eapply tied_stage|done..]. }
  destruct o as [u|e'].
  - apply tri_bind, tri_bind, tri_neutral; [done|]. intros o H3. apply tri_ret.
    pose proof (tied_stage 0 _ _ _ T2 H3) as T3. destruct o as [graph|e']; [by apply tri_ret|].
    by apply Hend, (tied_finishable 0).
  - apply tri_bind, tri_ret. by apply Hend, (tied_finishable 0).
Qed.

Lemma tri_iteration job s h :
  Tied 0 s h → phase (progress s) = exploring →
  tri (iteration parse_url number_text sha256 resolve_url validateLiveGraph fingerprintOf classifier
    has_policyGate has_recover tokenReservationEstimate job s) (goes_on 0) h.
Proof.
  intros T Hph. unfold iteration. apply tri_bind, tri_bind, tri_neutral; [done|]. intros t H1. apply tri_ret.
  pose proof (tied_stage 0 s h _ T H1) as T1. destruct (negb _); [by apply tri_finish_inr, (tied_finishable 0)|].
  apply tri_bind. eapply tri_mono; [by apply tri_capture|]. intros [[[raw s1]|c]|e] h2; [|done|done].
  intros [T2 Hp]. pose proof (tied_finishable 0 _ _ ltac:(done) T2) as F2.
  destruct (validateLiveGraph raw) as [graph|code]; [|by apply tri_finish_inr]. cbv zeta.
  destruct (negb _); [by apply tri_finish_at|].
  destruct (record_visit _ _) as [tr|]; [|by apply tri_finish_at].
  assert (Tied 0 (with_tracker tr s1) h2) as T3 by by eapply tied_same.
  destruct (reserveStateVisit _) as [b|] eqn:Hb; [|by apply tri_finish_at, (tied_finishable 0)].
  assert (Tied 0 (with_budget b (with_tracker tr s1)) h2) as T4.
  { eapply tied_same; [exact T2|done|done|]. cbn. unfold reserveStateVisit in Hb.
    apply fmap_Some in Hb as (n & _ & ->). done. }
  destruct (reserveStep _) as [b'|] eqn:Hb'; [|by apply tri_finish_at, (tied_finishable 0)].
  unfold reserveStep in Hb'. apply fmap_Some in Hb' as (n & Hn & ->).
  apply tri_bind, tri_lift; [|done]. intros [b'|] Hres.
  - apply tri_consult; [|cbn; by rewrite Hp]. eapply (tied_budget 0); [exact T2|done|done|].
    unfold reserveModelTokens in Hres. apply bind_Ok in Hres as (x & _ & Hres).
    cbn in Hres. destruct (num_ltb _ x); [done|]. injection Hres as <-.
    apply (reserve_spends _ _ 0 _ ltac:(done) Hn). apply T4.
  - apply tri_finish_at, (tied_finishable 1); [done|]. eapply (tied_budget 0); [exact T2|done|done|].
    apply (reserve_spends _ _ 0 _ ltac:(done) Hn). apply T4.
Qed.

Lemma tri_explore fuel job s h :
  Tied 0 s h → phase (progress s) = exploring →
  tri (explore parse_url number_text sha256 resolve_url validateLiveGraph fingerprintOf classifier
    has_policyGate has_recover tokenReservationEstimate fuel job s) (λ _ _, True) h.
Proof.
  revert s h. induction fuel as [|fuel IH]; intros s h T Hph; [done|]. cbn [explore].
  apply tri_bind. eapply tri_mono; [by apply tri_iteration|]. intros [[s'|c]|e] h'; [|done|done].
  intros [T' Hph']. by apply IH.
Qed.

(** ** Seeds *)
Definition seeded (o : outcome ExplorationError (RunState + ExplorationResult)) (h : list Note) : Prop :=
  match o with Ok (inl s) => Tied 0 s h | _ => True end.

(** Writing the seed cursor. *)
Lemma tri_write_cursor s ph cursor left fingerprint h (Q : outcome ExplorationError (option RunState) → list Note → Prop) :
  Tied 0 s h → ph = exploring ∨ ph = seed_replay →
  s_remainingSteps left = remainingSteps (budget s) →
  (∀ s' h', Tied 0 s' h' → phase (progress s') = ph → budget s' = budget s → Q (Ok (Some s')) h') →
  (∀ h', Q (Ok None) h') → (∀ e h', Q (Throw e) h') →
  tri (updateProgress s (update_of s ph cursor (stepsExecuted s) fingerprint left None None None)) Q h.
Proof.
  intros T Hph Hleft HQ Hno Hex. apply tri_update; [| |done|done].
  - rewrite (ti_stage _ _ _ T). cbn. assert (phase (progress s) ≠ terminal_phase ∧
      phase (progress s) ≠ action_in_flight) as [? ?] by (by destruct (ti_phase _ _ _ T) as [-> | ->]).
    split_and!; try done; [apply T|]. rewrite Hleft. destruct Hph as [-> | ->]; (split; [done|apply T]).
  - intros p h' [R1 R2 R3 R4 R5 R6] Hst. cbn in *. apply HQ; [|done|done].
    rewrite R3 in Hst. rewrite bool_decide_eq_false_2 in Hst by (by destruct Hph as [-> | ->]).
    split; cbn; [done|by rewrite R3|by rewrite R4|].
    intros z Hz Hr. cbn in Hz |- *. rewrite R5, Hleft in Hz. exists z. split; [done|lia].
Qed.

Lemma tri_replay_loop total index seeds s h :
  Tied 0 s h → tri (replay_loop total index seeds s) seeded h.
Proof.
  revert index s h. induction seeds as [|seed seeds IH]; intros index s h T; [done|]. cbn [replay_loop].
  apply tri_bind, tri_snapshot. intros left h1 H1 Hleft.
  apply tri_bind, tri_write_cursor; [by eapply tied_stage|by right|done| |done|done].
  intros s2 h2 T2 _ _. apply tri_bind, tri_neutral; [done|]. intros [r|e] H3; [|done]. cbv zeta.
  match goal with |- context [push_replay r ?x] => set (s3 := push_replay r x) end.
  assert (Tied 0 s3 (n_replayed seed (Ok r) :: h2)) as T3.
  { eapply tied_same; [by eapply tied_stage|done..]. }
  destruct (negb _).
  { apply tri_bind, tri_finish; [by apply (tied_finishable 0)|]. by intros [c|e] h'. }
  apply tri_bind, tri_snapshot. intros left4 h4 H4 Hleft4.
  apply tri_bind, tri_write_cursor; [by eapply tied_stage| |done| |done|done].
  - destruct (_ =? _)%Z; [by left|by right].
  - intros s5 h5 T5 _ _. apply IH. by eapply tied_same.
Qed.

Lemma tri_replaySeeds job s h : Tied 0 s h → tri (replaySeeds has_seedReplay job s) seeded h.
Proof.
  intros T. assert (∀ why code, tri (c ← finish s why code; mret (inr c)) seeded h) as Hend.
  { intros why code. apply tri_bind, tri_finish; [by apply (tied_finishable 0)|]. by intros [c|e] h'. }
  unfold replaySeeds. case_bool_decide; [by apply tri_ret|]. case_bool_decide; [apply Hend|].
  destruct (negb _); [apply Hend|]. destruct (_ <? 0)%Z; [apply Hend|]. by apply tri_replay_loop.
Qed.

(** ** Loading and running *)
Lemma tri_neutral_store {B} (e : Call (outcome StoreError B)) Q h :
  neutral e = true → (∀ b h', stage h' = stage h → Q (Ok b) h') → (∀ x h', Q (Throw x) h') →
  tri (store_call e) Q h.
Proof.
  intros He HQ Hex. apply tri_bind, tri_neutral; [done|]. intros [b|x] H; [by apply tri_ret, HQ|].
  apply tri_fail, Hex.
Qed.

Definition loads (o : outcome ExplorationError (RunState + ExplorationResult)) (h : list Note) : Prop :=
  match o with Ok (inl s) => Tied 0 s h | _ => True end.

Lemma tri_load job h :
  stage h = fresh → maximumSteps (policy job) = limit (job_attemptId job) →
  tri (loadOrInitializeState parse_url number_text sha256 job) loads h.
Proof.
  intros Hst Hsteps. unfold loadOrInitializeState, budget_from.
  apply tri_bind, tri_bind, tri_lift; [|done]. intros validated Hv.
  assert (validated = policy job) as -> by (unfold validateExplorationPolicy in Hv; inv_parse; unfold mret, outcome_ret in *; congruence).
  apply tri_bind, tri_neutral; [done|]. intros t Ht. apply tri_ret.
  apply tri_bind, tri_snapshot. intros left h1 H1 Hleft. cbn in Hleft.
  assert (stage h1 = fresh) as Hf by (by rewrite H1, Ht).
  apply tri_bind, tri_bind, tri_ask; [by cbn; rewrite Hleft|]. intros [p|e] Hp; [|done]. apply tri_ret.
  destruct (negb _); [done|].
  set (h2 := note _ (Initialize _) (Ok p) :: h1). assert (stage h2 = idle p) as H2 by done.
  destruct (phase p) eqn:Hph.
  1,2: apply tri_bind, tri_neutral_store; [done| |done]; intros cps h3 H3;
    apply tri_bind, tri_lift; [|done]; intros tr _; cbv zeta; apply tri_bind;
    unfold resumeFromSnapshot; apply tri_bind, tri_lift; [|done]; intros [] _;
    apply tri_bind, tri_neutral; [done|]; intros t' Ht'; apply tri_ret;
    (split; [by rewrite Ht', H3|cbn; rewrite Hph; auto|done|]; intros z Hz Hr; exists z; split; [done|]; lia).
  - apply tri_bind, tri_bind, tri_ask.
    { cbn. rewrite Hph. split_and!; try done. intros z Hz Hr. exists z. split; [done|lia]. }
    intros [[p'|c]|e] _; [| |done]; apply tri_ret, tri_bind, tri_neutral_store; try done.
  - apply tri_bind, tri_neutral_store; try done.
Qed.

Lemma tri_run fuel job :
  maximumSteps (policy job) = limit (job_attemptId job) → tri (run fuel job) (λ _ _, True) [].
Proof.
  intros Hsteps. unfold Exploration.run. destruct (environment job); [|done].
  apply tri_bind, tri_fail_if; [done|]. intros _. destruct (validateSeeds job) as [[why code]|]; [done|].
  apply tri_bind. eapply tri_mono; [by apply tri_load|]. intros [[s|c]|e] h; [|done|done]. intros T.
  apply tri_bind. eapply tri_mono; [by apply tri_replaySeeds|]. intros [[s'|c]|e] h'; [|done|done]. intros T'.
  apply tri_bind. case_bool_decide as Hph.
  - apply tri_bind, tri_snapshot. intros left h1 H1 Hleft.
    apply tri_write_cursor; [by eapply tied_stage|by left|done| |done|done].
    intros s2 h2 T2 Hp2 _. by apply tri_explore.
  - apply tri_ret. apply tri_explore; [done|]. by destruct (ti_phase _ _ _ T').
Qed.
End protocol.

(** ** Many controllers, one store *)

(** What a call may be answered over the shared store; the world outside the
    store may answer anything. *)
Definition answers (B : Type) (e : Call B) : Db → B → Db → Prop :=
  match e in Call B return Db → B → Db → Prop with
  | Initialize n => λ db o db',
      (∃ now, initializeAttemptProgress now n db = (o, db')) ∨ (o = Throw StorageBusy ∧ db' = db)
  | CompareAndSet u => λ db o db', ∃ now busy, compareAndSetAttemptProgress now busy u db = (o, db')
  | LiveCheckpoints id => λ db o db',
      (o = Ok (liveCheckpointsForAttempt id db) ∨ o = Throw StorageBusy) ∧ db' = db
  | _ => λ db _ db', db' = db
  end.

(** The insertion of [initializeAttemptProgress] is a statement of its own: others
    may get between it and the row being read back. *)
Definition midway (B : Type) (e : Call B) : Db → Db → Prop :=
  match e with
  | Initialize n => λ db db', ∃ now, insertAttemptProgress now n db = (Ok tt, db')
  | _ => λ _ _, False
  end.

(** [limit id] is the step budget of attempt [id]. *)
Context (limit : string → Z).
Hypothesis limit_safe : ∀ id, (0 <= limit id <= max_safe_integer)%Z.

(** A controller of a job with its attempt's step budget, and fuel for as many
    rounds as the budget has steps and one more: [controllers_finish] shows that
    they are enough. *)
Definition startable (p : prog Call ExplorationError (option ExplorationResult)) : Prop :=
  ∃ fuel job, p = run fuel job ∧ maximumSteps (policy job) = num_of_Z (limit (job_attemptId job)) ∧
    (limit (job_attemptId job) < Z.of_nat fuel)%Z.

Notation state := (@sched_state Call ExplorationError Note Db (option ExplorationResult)).
Notation step := (sched note answers midway startable).
Notation may := (permitted (λ id, num_of_Z (limit id))).

(** The steps a history executed: attempt and step number. *)
Fixpoint executed (h : list Note) : list (string * Z) :=
  match h with
  | [] => []
  | n :: h' =>
      match n, stage h' with
      | n_executed _ _, armed p => (attemptId p, (lastSafeStep p + 1)%Z) :: executed h'
      | _, _ => executed h'
      end
  end.

(** The step a stage is about to execute. *)
Definition pending (st : Stage) : list (string * Z) :=
  match st with armed p => [(attemptId p, (lastSafeStep p + 1)%Z)] | _ => [] end.
Definition claimed (h : list Note) : list (string * Z) := pending (stage h) ++ executed h.
Definition claims (l : list (prog Call ExplorationError (option ExplorationResult) * list Note))
    : list (string * Z) := l ≫= λ ph, claimed ph.2.

Definition all_executed (st : state) : list (string * Z) := processes st ≫= λ ph, executed ph.2.

(** What a controller knows of the stored progress. *)
Definition knows (st : Stage) : option ExplorationAttemptProgress :=
  match st with idle p | armed p | fired p | failed p => Some p | fresh | over => None end.

Record row_ok (cl : list (string * Z)) (id : string) (row : ExplorationAttemptProgress) : Prop := {
  ro_id : attemptId row = id;
  ro_step : (0 <= lastSafeStep row)%Z;
  ro_left : ∃ z, s_remainingSteps (remaining row) = num_of_Z z ∧ (0 <= z)%Z ∧
    (lastSafeStep row + z <= limit id)%Z ∧ (∀ k, (id, k) ∈ cl → k + z <= limit id)%Z;
  ro_claims : ∀ k, (id, k) ∈ cl → (1 <= k <= lastSafeStep row + 1)%Z ∧
    (k = (lastSafeStep row + 1)%Z → phase row = action_in_flight ∨ phase row = terminal_phase);
}.

Record Global (st : state) : Prop := {
  gl_rows : map_Forall (row_ok (claims (processes st))) (attempt_progress (shared st));
  gl_claims : ∀ id k, (id, k) ∈ claims (processes st) → is_Some (attempt_progress (shared st) !! id);
  gl_once : NoDup (claims (processes st));
  gl_known : ∀ i p h r, processes st !! i = Some (p, h) → knows (stage h) = Some r →
    ∃ row, attempt_progress (shared st) !! attemptId r = Some row ∧ (version r <= version row)%Z ∧
      (version r = version row → row = r);
  gl_armed : ∀ i p h r, processes st !! i = Some (p, h) → stage h = armed r → phase r = action_in_flight;
}.

Lemma claims_insert l i p h :
  l !! i = Some (p, h) → ∃ rest, claims l ≡ₚ claimed h ++ rest ∧
    ∀ p' h', claims (<[i := (p', h')]> l) ≡ₚ claimed h' ++ rest.
Proof.
  intros Hi. exists (claims (take i l ++ drop (S i) l)). unfold claims. split.
  - rewrite <- (take_drop_middle l i (p, h) Hi) at 1. rewrite !bind_app. cbn.
    apply Permutation_app_swap_app.
  - intros p' h'. rewrite insert_take_drop by (by eapply lookup_lt_Some). rewrite !bind_app. cbn.
    apply Permutation_app_swap_app.
Qed.

Lemma fired_claimed h p : stage h = fired p → (attemptId p, (lastSafeStep p + 1)%Z) ∈ claimed h.
Proof.
  intros Hst. unfold claimed. apply elem_of_app. right. revert Hst.
  induction h as [|n h IH]; [done|]. rewrite stage_cons.
  destruct n as [t|o|o|c o|a o|a o|s o|n o|u o|id o]; cbn [advance executed]; try exact IH.
  - destruct (stage h) eqn:Hs; try exact IH. destruct o as [u|e]; [|done].
    intros [= ->]. apply elem_of_cons. by left.
  - by destruct o.
  - destruct o as [[q|c]|e]; [|done..]. by case_bool_decide.
Qed.

Lemma row_ok_ext cl cl' id row :
  (∀ k, (id, k) ∈ cl' → (id, k) ∈ cl) → row_ok cl id row → row_ok cl' id row.
Proof.
  intros Hcl [H1 H2 (z & Hz & H3 & H4 & H5) H6]. split; [done|done| |by intros k Hk; apply H6, Hcl].
  exists z. split_and!; [done..|]. intros k Hk. by apply H5, Hcl.
Qed.

(** The knowledge of [r] holds of the rows [m]. *)
Definition current (m : gmap string ExplorationAttemptProgress) (r : ExplorationAttemptProgress) : Prop :=
  ∃ row, m !! attemptId r = Some row ∧ (version r <= version row)%Z ∧ (version r = version row → row = r).

(** Rows stay, or move to a later version. *)
Definition moves (m m' : gmap string ExplorationAttemptProgress) : Prop :=
  ∀ id row, m !! id = Some row → ∃ row', m' !! id = Some row' ∧ (row' = row ∨ (version row < version row')%Z).

Lemma current_moves m m' r : current m r → moves m m' → current m' r.
Proof.
  intros (row & Hr & Hle & Heq) Hm. destruct (Hm _ _ Hr) as (row' & Hr' & [-> |Hlt]).
  - by exists row.
  - exists row'. split_and!; [done|lia|lia].
Qed.

Lemma global_put st i p h p' h' db' new :
  Global st → processes st !! i = Some (p, h) → claimed h' = new ++ claimed h →
  moves (attempt_progress (shared st)) (attempt_progress db') →
  map_Forall (row_ok (new ++ claims (processes st))) (attempt_progress db') →
  (∀ id k, (id, k) ∈ new → is_Some (attempt_progress db' !! id)) →
  NoDup new → (∀ x, x ∈ new → x ∉ claims (processes st)) →
  (∀ r, knows (stage h') = Some r → current (attempt_progress db') r) →
  (∀ r, stage h' = armed r → phase r = action_in_flight) →
  Global {| shared := db'; processes := <[i := (p', h')]> (processes st) |}.
Proof.
  intros [G1 G2 G3 G4 G5] Hi Hcl Hm Hrows Hnew Hnd Hdis Hk Ha.
  destruct (claims_insert _ _ _ _ Hi) as (rest & Hc & Hc'). specialize (Hc' p' h'). rewrite Hcl in Hc'.
  assert (claims (<[i := (p', h')]> (processes st)) ≡ₚ new ++ claims (processes st)) as Hperm.
  { by rewrite Hc', Hc, (assoc_L (++)). }
  split; cbn [shared processes].
  - intros id row Hr. eapply row_ok_ext; [|by apply Hrows]. intros x. by rewrite Hperm.
  - intros id k. rewrite Hperm, elem_of_app. intros [Hn|Ho]; [by eapply Hnew|].
    destruct (G2 _ _ Ho) as [row Hrow]. destruct (Hm _ _ Hrow) as (row' & ? & _). by exists row'.
  - rewrite Hperm. apply NoDup_app. by split_and!.
  - intros j q hq r. rewrite list_lookup_insert_Some. intros [(<- & [= <- <-] & _)|[_ Hj]] Hkn; [by apply Hk|].
    apply (current_moves (attempt_progress (shared st))); [|done]. by eapply G4.
  - intros j q hq r. rewrite list_lookup_insert_Some. intros [(<- & [= <- <-] & _)|[_ Hj]] Hst; [by apply Ha|].
    by eapply G5.
Qed.

Lemma moves_refl m : moves m m.
Proof. intros id row H. exists row. auto. Qed.

(** A call that changes neither the store nor what is claimed. *)
Lemma global_local st i p h p' h' :
  Global st → processes st !! i = Some (p, h) → claimed h' = claimed h →
  (∀ r, knows (stage h') = Some r → current (attempt_progress (shared st)) r) →
  (∀ r, stage h' = armed r → phase r = action_in_flight) →
  Global {| shared := shared st; processes := <[i := (p', h')]> (processes st) |}.
Proof.
  intros G Hi Hcl Hk Ha. apply (global_put st i p h p' h' (shared st) []); try done.
  - apply moves_refl.
  - apply G.
  - intros id k Hx. by apply elem_of_nil in Hx.
  - constructor.
  - intros x Hx. by apply elem_of_nil in Hx.
Qed.

Lemma global_same st i p h p' n :
  Global st → processes st !! i = Some (p, h) → stage (n :: h) = stage h → executed (n :: h) = executed h →
  Global {| shared := shared st; processes := <[i := (p', n :: h)]> (processes st) |}.
Proof.
  intros G Hi Hst Hex. apply (global_local st i p h); [done|done|by unfold claimed; rewrite Hst, Hex|..].
  - rewrite Hst. intros r Hr. by eapply gl_known.
  - rewrite Hst. intros r Hr. by eapply gl_armed.
Qed.

(** The controller stops taking part, or has learnt nothing to execute. *)
Lemma global_over st i p h p' n :
  Global st → processes st !! i = Some (p, h) → pending (stage h) = [] → stage (n :: h) = over →
  executed (n :: h) = executed h →
  Global {| shared := shared st; processes := <[i := (p', n :: h)]> (processes st) |}.
Proof.
  intros G Hi Hp Hst Hex. apply (global_local st i p h); [done|done| |by rewrite Hst..].
  unfold claimed. by rewrite Hst, Hex, Hp.
Qed.

Lemma cas_cases now busy u db o db' :
  compareAndSetAttemptProgress now busy u db = (o, db') →
  (db' = db ∧ ∀ p, o ≠ Ok (updated p)) ∨
  ∃ row, attempt_progress db !! u_attemptId u = Some row ∧ version row = expectedVersion u ∧
    o = Ok (updated (apply_update now u row)) ∧
    attempt_progress db' = <[u_attemptId u := apply_update now u row]> (attempt_progress db).
Proof.
  unfold compareAndSetAttemptProgress, transaction, mbind, js_bind, get, mret, js_ret.
  destruct busy; [intros [= <- <-]; by left|].
  destruct (attempt_progress db !! u_attemptId u) as [row|] eqn:Hrow; [|intros [= <- <-]; by left].
  destruct (Z.eqb_spec (version row) (expectedVersion u)) as [Hv|]; cbn [negb]; [|intros [= <- <-]; by left].
  intros H. right. exists row. split; [done|]. split; [done|].
  destruct (u_checkpoint u) as [c|]; [destruct (live_checkpoints db !! _)|]; cbn in H;
    by injection H as <- <-.
Qed.

(** A legal update keeps the row in order, and its claim is fresh. *)
Lemma legal_row st u p now cl :
  legal st u → knows st = Some p → row_ok cl (attemptId p) p →
  (st = fired p → (attemptId p, (lastSafeStep p + 1)%Z) ∈ cl) →
  let p1 := apply_update now u p in
  let new := if bool_decide (phase p1 = action_in_flight) then [(attemptId p, (lastSafeStep p1 + 1)%Z)] else [] in
  row_ok (new ++ cl) (attemptId p) p1 ∧ (∀ x, x ∈ new → x ∉ cl).
Proof.
  intros Hl Hk [R1 R2 (z & Hz & Hz0 & Hlast & Hcl) R4] Hfired p1.
  pose proof (limit_safe (attemptId p)) as Hlim.
  destruct st as [|q|q|q|q|]; try done; cbn in Hk; injection Hk as ->; cbn [legal] in Hl.
  - destruct Hl as (Hid & _ & Hs & Hterm & Hl). subst p1. cbn [apply_update phase lastSafeStep remaining].
    destruct (u_phase u) eqn:Hph; cbv zeta.
    + destruct Hl as [Hni Hleft]. destruct (Hleft z Hz ltac:(lia)) as (z' & Hz' & ?). split; [|by intros x Hx%elem_of_nil].
      split; cbn; [done|lia| |].
      * exists z'. rewrite Hs. split_and!; [done|lia|lia|]. intros k Hin. specialize (Hcl k Hin). lia.
      * intros k Hin. destruct (R4 k Hin) as [? Hx]. rewrite Hs. split; [lia|]. intros Heq. by destruct (Hx Heq).
    + destruct Hl as [Hni Hleft]. destruct (Hleft z Hz ltac:(lia)) as (z' & Hz' & ?). split; [|by intros x Hx%elem_of_nil].
      split; cbn; [done|lia| |].
      * exists z'. rewrite Hs. split_and!; [done|lia|lia|]. intros k Hin. specialize (Hcl k Hin). lia.
      * intros k Hin. destruct (R4 k Hin) as [? Hx]. rewrite Hs. split; [lia|]. intros Heq. by destruct (Hx Heq).
    + destruct Hl as (Hexp & Hleft & _). destruct (Hleft z Hz ltac:(lia)) as (z' & Hz' & ?).
      assert ((attemptId p, (u_lastSafeStep u + 1)%Z) ∉ cl) as Hfresh.
      { intros Hin. destruct (R4 _ Hin) as [_ Hx]. rewrite Hs, Hexp in Hx. by destruct (Hx eq_refl). }
      split; [|by intros x ->%list_elem_of_singleton]. split; cbn; [done|lia| |].
      * exists z'. rewrite Hs. split_and!; [done|lia|lia|]. intros k [Heq|Hin]%elem_of_cons.
        -- injection Heq as ->. lia.
        -- specialize (Hcl k Hin). lia.
      * rewrite Hs. intros k [Heq|Hin]%elem_of_cons; [injection Heq as ->; split; [lia|by left]|].
        destruct (R4 k Hin). split; [lia|by left].
    + destruct (Hl z Hz ltac:(lia)) as (z' & Hz' & ?). split; [|by intros x Hx%elem_of_nil].
      split; cbn; [done|lia| |].
      * exists z'. rewrite Hs. split_and!; [done|lia|lia|]. intros k Hin. specialize (Hcl k Hin). lia.
      * intros k Hin. destruct (R4 k Hin). rewrite Hs. split; [lia|by right].
  - destruct Hl as (Hid & _ & Hs & Hph & Hleft). subst p1. cbn [apply_update phase]. rewrite Hph.
    destruct (Hleft z Hz ltac:(lia)) as (z' & Hz' & ?). split; [|by intros x Hx%elem_of_nil].
    pose proof (Hcl _ (Hfired eq_refl)). split; cbn; [done|lia| |].
    + exists z'. rewrite Hs. split_and!; [done|lia|lia|]. intros k Hin. specialize (Hcl k Hin). lia.
    + intros k Hin. destruct (R4 k Hin). rewrite Hs. split; [lia|lia].
  - destruct Hl as (Hid & _ & Hs & Hph & Hleft). subst p1. cbn [apply_update phase]. rewrite Hph.
    destruct (Hleft z Hz ltac:(lia)) as (z' & Hz' & ?). split; [|by intros x Hx%elem_of_nil].
    split; cbn; [done|lia| |].
    + exists z'. rewrite Hs. split_and!; [done|lia|lia|]. intros k Hin. specialize (Hcl k Hin). lia.
    + intros k Hin. destruct (R4 k Hin). rewrite Hs. split; [lia|by right].
Qed.

(** The two statements of [initializeAttemptProgress]. *)
Lemma insert_cases now n db o db' :
  insertAttemptProgress now n db = (o, db') →
  (db' = db ∧ (o = Ok tt → is_Some (attempt_progress db !! n_attemptId n))) ∨
  o = Ok tt ∧ attempt_progress db !! n_attemptId n = None ∧
    attempt_progress db' = <[n_attemptId n := new_row now n]> (attempt_progress db).
Proof.
  unfold insertAttemptProgress, mbind, js_bind, get, mret, js_ret, throw_if.
  destruct (attempt_progress db !! n_attemptId n) as [row|] eqn:Hrow.
  - intros [= <- <-]. left. split; [done|by eexists].
  - destruct (bool_decide _); cbn; intros [= <- <-]; [left; by split|by right].
Qed.

Lemma initialize_cases now n db o db' :
  initializeAttemptProgress now n db = (o, db') →
  (∃ e, o = Throw e ∧ db' = db) ∨
  ∃ row, o = Ok row ∧ insertAttemptProgress now n db = (Ok tt, db') ∧
    attempt_progress db' !! n_attemptId n = Some row.
Proof.
  unfold initializeAttemptProgress, loadAttemptProgress, mbind, js_bind, get, mret, js_ret.
  destruct (insertAttemptProgress now n db) as [[[]|e] db1] eqn:Hi; cbn.
  - destruct (attempt_progress db1 !! n_attemptId n) as [row|] eqn:Hrow; intros [= <- <-]; [right; by exists row|].
    destruct (insert_cases _ _ _ _ _ Hi) as [[-> Hx]|(_ & _ & E)].
    + destruct (Hx eq_refl). congruence.
    + by rewrite E, lookup_insert_eq in Hrow.
  - intros [= <- <-]. left. exists e. split; [done|].
    by destruct (insert_cases _ _ _ _ _ Hi) as [[-> _]|[? _]].
Qed.

(** A legal new row is in order. *)
Lemma global_insert st n now db' h :
  Global st → may _ h (Initialize n) → insertAttemptProgress now n (shared st) = (Ok tt, db') →
  Global {| shared := db'; processes := processes st |}.
Proof.
  intros [G1 G2 G3 G4 G5] (_ & _ & Hstep & Hleft) Hi.
  destruct (insert_cases _ _ _ _ _ Hi) as [[-> _]|(_ & Hnone & Hdb)]; [by split|].
  assert (moves (attempt_progress (shared st)) (attempt_progress db')) as Hm.
  { intros id r Hr. exists r. rewrite Hdb, lookup_insert_ne by congruence. auto. }
  split; cbn [shared processes]; [| |done| |done].
  - rewrite Hdb. apply map_Forall_insert_2; [|done]. split; cbn.
    + done.
    + by rewrite Hstep.
    + exists (limit (n_attemptId n)). pose proof (limit_safe (n_attemptId n)).
      split_and!; [done|lia|lia|]. intros k0 Hk. destruct (G2 _ _ Hk). congruence.
    + intros k0 Hk. destruct (G2 _ _ Hk). congruence.
  - intros id k Hx. destruct (G2 _ _ Hx) as [r Hr]. destruct (Hm _ _ Hr) as (r' & ? & _). by exists r'.
  - intros i p h' r Hi' Hk. eapply current_moves; [by eapply G4|done].
Qed.

(** One call of one controller: the three writes of the protocol. *)
Lemma global_initialize st i p h k n o db' :
  Global st → processes st !! i = Some (p, h) → may _ h (Initialize n) →
  answers _ (Initialize n) (shared st) o db' →
  Global {| shared := db'; processes := <[i := (k, n_initialized n o :: h)]> (processes st) |}.
Proof.
  intros G Hi Hm Ha. pose proof (proj1 Hm) as Hst.
  assert (pending (stage h) = []) as Hp by by rewrite Hst.
  destruct Ha as [[now Ha]|[-> ->]]; [|by eapply global_over].
  destruct (initialize_cases _ _ _ _ _ Ha) as [(e & -> & ->)|(row & -> & Hins & Hrow)]; [by eapply global_over|].
  pose proof (global_insert _ _ _ _ _ G Hm Hins) as G'.
  apply (global_local {| shared := db'; processes := processes st |} i p h); [done|done| | |done].
  - unfold claimed. by rewrite stage_cons, Hst.
  - cbn. intros r [= <-]. exists row. pose proof (ro_id _ _ _ (gl_rows _ G' _ _ Hrow)) as E. by rewrite E.
Qed.

Lemma global_execute st i p h k a o :
  Global st → processes st !! i = Some (p, h) → may _ h (Execute a) →
  Global {| shared := shared st; processes := <[i := (k, n_executed a o :: h)]> (processes st) |}.
Proof.
  intros G Hi (r & Hst & _).
  assert (current (attempt_progress (shared st)) r) as Hr by (eapply (gl_known _ G); [done|by rewrite Hst]).
  eapply global_local; [done|done|..].
  - unfold claimed. rewrite stage_cons. cbn. rewrite Hst. by destruct o.
  - rewrite stage_cons, Hst. destruct o; cbn; by intros ? [= <-].
  - rewrite stage_cons, Hst. by destruct o.
Qed.

Lemma global_compare st i p h k u o db' :
  Global st → processes st !! i = Some (p, h) → may _ h (CompareAndSet u) →
  answers _ (CompareAndSet u) (shared st) o db' →
  Global {| shared := db'; processes := <[i := (k, n_updated u o :: h)]> (processes st) |}.
Proof.
  intros G Hi Hl (now & busy & Ha). cbn in Hl.
  assert (pending (stage h) = [] ∧ ∃ r, knows (stage h) = Some r ∧ u_attemptId u = attemptId r ∧
    expectedVersion u = version r) as (Hp & r & Hk & Hid & Hv).
  { destruct (stage h); try done; (split; [done|]; eexists; split; [done|]; split; apply Hl). }
  destruct (cas_cases _ _ _ _ _ _ Ha) as [[-> Ho]|(row & Hrow & Hvr & -> & Hdb)].
  { eapply global_over; [done..| |done]. destruct o as [[q|c]|e]; [by destruct (Ho q)|done|done]. }
  destruct (gl_known _ G _ _ _ _ Hi Hk) as (row' & Hrow' & _ & Heq).
  rewrite Hid, Hrow' in Hrow. injection Hrow as <-.
  assert (row' = r) as -> by (apply Heq; lia). clear Heq.
  pose proof (gl_rows _ G _ _ Hrow') as Hok.
  destruct (legal_row _ u r now _ Hl Hk Hok) as [Hrow Hfresh].
  { intros Hf. destruct (claims_insert _ _ _ _ Hi) as (rest & Hc & _). rewrite Hc, elem_of_app. left.
    by apply fired_claimed. }
  set (p1 := apply_update now u r) in *. assert (attemptId p1 = attemptId r) as Eid by done.
  rewrite Hid in Hdb.
  eapply (global_put st i p h k _ _
    (if bool_decide (phase p1 = action_in_flight) then [(attemptId p1, (lastSafeStep p1 + 1)%Z)] else []));
    try done.
  - unfold claimed. rewrite stage_cons. cbn [advance executed]. rewrite Hp. by case_bool_decide.
  - intros id q Hq. rewrite Hdb. destruct (decide (id = attemptId r)) as [-> |].
    + rewrite lookup_insert_eq. exists p1. split; [done|]. right. cbn. assert (q = r) by congruence. subst q. lia.
    + rewrite lookup_insert_ne by done. exists q. auto.
  - rewrite Hdb. intros id q. rewrite lookup_insert_Some. intros [[<- <-]|[Hne Hq]]; [done|].
    eapply row_ok_ext; [|by apply (gl_rows _ G)]. intros k0. rewrite elem_of_app. intros [Hn|]; [|done].
    case_bool_decide; [|by apply elem_of_nil in Hn]. apply list_elem_of_singleton in Hn. congruence.
  - intros id k0 Hx. rewrite Hdb. case_bool_decide; [|by apply elem_of_nil in Hx].
    apply list_elem_of_singleton in Hx. injection Hx as -> _. rewrite lookup_insert_eq. by eexists.
  - case_bool_decide; [apply NoDup_singleton|constructor].
  - intros q. rewrite stage_cons. cbn [advance]. rewrite Hdb. intros Hq.
    assert (q = p1) as -> by (case_bool_decide; cbn in Hq; congruence).
    exists p1. by rewrite Eid, lookup_insert_eq.
  - intros q. rewrite stage_cons. cbn [advance]. case_bool_decide; [|done]. by intros [= <-].
Qed.

Lemma global_call st i B (e : Call B) p h k b db' :
  Global st → processes st !! i = Some (p, h) → may _ h e → answers _ e (shared st) b db' →
  Global {| shared := db'; processes := <[i := (k, note _ e b :: h)]> (processes st) |}.
Proof.
  intros G Hi Hm Ha. destruct e; cbn [note];
    [..|by eapply global_initialize|by eapply global_compare|]; cbn in Ha.
  6: { subst. by eapply global_execute. }
  all: try (subst db'); try (destruct Ha as [_ ->]); by eapply global_same.
Qed.

(** The world's answers are within the store's promise. *)
Lemma answers_sound st B (e : Call B) b db' :
  Global st → answers _ e (shared st) b db' → sound _ e b.
Proof.
  intros G Ha. destruct e as [| | | | | |s|n|u|id]; cbn in *; try done.
  - destruct b as [p|]; [|done]. destruct Ha as [[now Ha]|[? _]]; [|done].
    destruct (initialize_cases _ _ _ _ _ Ha) as [(? & ? & _)|(row & [= ->] & Hins & Hrow)]; [done|].
    destruct (insert_cases _ _ _ _ _ Hins) as [[-> _]|(_ & _ & E)].
    + exact (ro_id _ _ _ (gl_rows _ G _ _ Hrow)).
    + rewrite E, lookup_insert_eq in Hrow. by injection Hrow as <-.
  - destruct b as [[p|c]|]; try done. destruct Ha as (now & busy & Ha).
    destruct (cas_cases _ _ _ _ _ _ Ha) as [[_ Ho]|(row & Hrow & Hv & [= ->] & _)]; [by destruct (Ho p)|].
    split; cbn; try done; [exact (ro_id _ _ _ (gl_rows _ G _ _ Hrow))|by rewrite Hv].
Qed.

(** Nothing has been attempted yet. *)
Definition initial (st : state) : Prop := attempt_progress (shared st) = ∅ ∧ processes st = [].

Notation obeys := (λ ph : prog Call ExplorationError (option ExplorationResult) * list Note,
  Interact.tri note sound (permitted (λ id, num_of_Z (limit id))) ph.1 (λ _ _, True) ph.2).

Lemma global_step st st' :
  Global st → Forall obeys (processes st) → step st st' → Global st'.
Proof.
  intros G Hall Hs. destruct Hs as [p s l Hp|B i e k h s s' l Hi Ha|B i e k h b s s' l Hi Ha].
  - assert (claims (l ++ [(p, [])]) = claims l) as Hc.
    { unfold claims. rewrite bind_app. cbn. by rewrite app_nil_r. }
    destruct G as [G1 G2 G3 G4 G5]. split; cbn [shared processes] in *; rewrite ?Hc; try done.
    + intros i q h r Hi Hk. apply lookup_snoc_Some in Hi as [[_ Hi]|[_ [= <- <-]]]; [by eapply G4|done].
    + intros i q h r Hi Hk. apply lookup_snoc_Some in Hi as [[_ Hi]|[_ [= <- <-]]]; [by eapply G5|done].
  - rewrite Forall_lookup in Hall. destruct (Hall _ _ Hi) as [Hm _]. destruct e; try done.
    destruct Ha as [now Ha]. by eapply (global_insert {| shared := s; processes := l |}).
  - rewrite Forall_lookup in Hall. destruct (Hall _ _ Hi) as [Hm _].
    exact (global_call {| shared := s; processes := l |} i B e _ h (k b) b s' G Hi Hm Ha).
Qed.

Notation law := (λ ph : prog Call ExplorationError (option ExplorationResult) * list Note,
  Interact.lawful note (permitted (λ id, num_of_Z (limit id))) ph.2).

Lemma system_safe st0 st :
  initial st0 → rtc step st0 st →
  Global st ∧ Forall obeys (processes st) ∧ Forall law (processes st).
Proof.
  intros [Hdb Hps] Hr. revert st Hr.
  apply (rtc_ind_r (R := step) (λ st, Global st ∧ Forall obeys (processes st) ∧ Forall law (processes st)) st0).
  - rewrite Hps. split; [|by split]. split; rewrite ?Hps, ?Hdb; cbn.
    + apply map_Forall_empty.
    + intros id k Hx. by apply elem_of_nil in Hx.
    + constructor.
    + intros i p h r Hi. by rewrite lookup_nil in Hi.
    + intros i p h r Hi. by rewrite lookup_nil in Hi.
  - intros x y _ Hs (G & Hall & Hlaw). split; [by eapply global_step|].
    split; [|by eapply sched_lawful].
    eapply sched_tri; [| |exact Hall|exact Hs]; [|].
    + intros j B e k h b s' _ Ha. by eapply answers_sound.
    + intros p (fuel & job & -> & Hsteps & _). by apply tri_run.
Qed.

Lemma lawful_execute h a o :
  Interact.lawful note may (n_executed a o :: h) →
  ∃ r, stage h = armed r ∧ phase r = action_in_flight ∧
    inFlightAction r = Some (inFlight (lastSafeStep r + 1) a).
Proof.
  intros [(B & e & b & Hn & Ha) _]. destruct e; try done. cbn in Hn. injection Hn as -> ->.
  destruct Ha as (r & Hst & Hf). exists r. split_and!; [done|by eapply armed_phase|done].
Qed.

Lemma executed_actions h : Interact.lawful note may h → length (executed h) = length (actions h).
Proof.
  induction h as [|n h IH]; [done|]. intros Hl. pose proof (IH (proj2 Hl)) as E.
  destruct n; try exact E. apply lawful_execute in Hl as (r & Hst & _). cbn. rewrite Hst. cbn. by f_equal.
Qed.

Lemma executed_claims l x :
  x ∈ l ≫= (λ ph : prog Call ExplorationError (option ExplorationResult) * list Note, executed ph.2) → x ∈ claims l.
Proof.
  unfold claims. rewrite !list_elem_of_bind. intros (ph & Hx & Hph). exists ph. split; [|done].
  apply elem_of_app. by right.
Qed.

Lemma executed_once l :
  NoDup (claims l) →
  NoDup (l ≫= (λ ph : prog Call ExplorationError (option ExplorationResult) * list Note, executed ph.2)).
Proof.
  induction l as [|ph l IH]; [done|]. rewrite !bind_cons.
  change (claims (ph :: l)) with (claimed ph.2 ++ claims l). unfold claimed. rewrite <- (assoc_L (++)).
  intros (_ & _ & H)%NoDup_app. apply NoDup_app in H as (H1 & H2 & H3). apply NoDup_app.
  split_and!; [done| |by apply IH]. intros x Hx Hl. by eapply H2, executed_claims.
Qed.


Lemma executed_range st id k : Global st → (id, k) ∈ all_executed st → (1 <= k <= limit id)%Z.
Proof.
  intros G Hx%executed_claims. destruct (gl_claims _ G _ _ Hx) as [row Hrow].
  destruct (gl_rows _ G _ _ Hrow) as [_ _ (z & _ & ? & _ & Hz) Hc].
  specialize (Hz _ Hx). destruct (Hc _ Hx). lia.
Qed.

(** An action of a lawful history is executed only after the store answered that
    it recorded it as the next step in flight. *)
Lemma written_ahead h h1 a o h2 :
  Interact.lawful note may h → h = h1 ++ n_executed a o :: h2 →
  ∃ r, stage h2 = armed r ∧ phase r = action_in_flight ∧
    inFlightAction r = Some (inFlight (lastSafeStep r + 1) a).
Proof. intros Hl ->. apply lawful_app in Hl. by apply lawful_execute in Hl. Qed.

(** C8: Any number of controllers work on any attempts over one store, each of which
    may crash at any call and be started again, while the target, the model, the
    gate and the clock answer anything: no step of an attempt is executed twice,
    and the steps executed are within the attempt's step budget.  Those steps are
    all the executions there were, failed ones included, and each was preceded by
    the store's answer that it recorded that very action as the next step in
    flight, with no execution in between. *)
Theorem steps_executed_once st0 st :
  initial st0 → rtc step st0 st →
  NoDup (all_executed st) ∧ (∀ id k, (id, k) ∈ all_executed st → (1 <= k <= limit id)%Z) ∧
  ∀ i p h, processes st !! i = Some (p, h) →
    length (executed h) = length (actions h) ∧
    ∀ h1 a o h2, h = h1 ++ n_executed a o :: h2 →
      ∃ r, stage h2 = armed r ∧ phase r = action_in_flight ∧
        inFlightAction r = Some (inFlight (lastSafeStep r + 1) a).
Proof.
  intros H0 Hr. destruct (system_safe _ _ H0 Hr) as (G & _ & Hl).
  split_and!; [by apply executed_once, G|intros id k; by apply executed_range|].
  intros i p h Hi. rewrite Forall_lookup in Hl. specialize (Hl _ _ Hi). cbn in Hl.
  split; [by apply executed_actions|]. intros h1 a o h2. by apply written_ahead.
Qed.

(** The actions executed for an attempt, by all the controllers that ever worked
    on it, are at most the steps of its budget. *)
Theorem attempt_within_budget st0 st id :
  initial st0 → rtc step st0 st →
  (Z.of_nat (length (filter (λ x, x.1 = id) (all_executed st))) <= limit id)%Z.
Proof.
  intros H0 Hr. destruct (system_safe _ _ H0 Hr) as (G & _).
  assert (filter (λ x, x.1 = id) (all_executed st) ⊆+ (λ k, (id, k)) <$> seqZ 1 (limit id)) as Hsub.
  { apply NoDup_submseteq; [by apply NoDup_filter, executed_once, G|].
    intros [id' k]. rewrite list_elem_of_filter. cbn. intros [-> Hx]. apply list_elem_of_fmap_2, elem_of_seqZ.
    pose proof (executed_range _ _ _ G Hx). lia. }
  apply submseteq_length in Hsub. rewrite length_fmap, length_seqZ in Hsub. pose proof (limit_safe id). lia.
Qed.

(** ** A run ends *)

(** What the store promises of the steps left of an attempt. *)
Definition bounded (B : Type) (e : Call B) : B → Prop :=
  match e in Call B return B → Prop with
  | Initialize n => λ o, match o with
      | Ok p => ∃ z, s_remainingSteps (remaining p) = num_of_Z z ∧ (0 <= z <= limit (n_attemptId n))%Z
      | Throw _ => True end
  | _ => λ _, True
  end.

Section termination.
Notation tri := (@Interact.tri Call ExplorationError Note note bounded (λ _ _ _, True) _).

Lemma tri_any {A} (p : prog Call ExplorationError A) (Q : outcome ExplorationError A → list Note → Prop) h :
  (∀ o h', Q o h') → tri p Q h.
Proof. intros HQ. revert h. induction p as [a|e|B e k IH]; intros h; cbn; [done..|]. split; [done|]. intros b _. apply IH. Qed.

Lemma tri_any_lift {A} (o : outcome ExplorationError A) Q h : Q o h → tri (lift_outcome o) Q h.
Proof. by destruct o. Qed.

(** *** Rounds *)

(** [Q] accepts every end. *)
Definition lenient {A} (Q : outcome ExplorationError (A + ExplorationResult) → list Note → Prop) : Prop :=
  (∀ c h, Q (Ok (inr c)) h) ∧ ∀ e h, Q (Throw e) h.

Lemma tri_end {A} (p : prog Call ExplorationError ExplorationResult)
    (Q : outcome ExplorationError (A + ExplorationResult) → list Note → Prop) h :
  lenient Q → tri (c ← p; mret (inr c)) Q h.
Proof. intros [H1 H2]. apply tri_bind, tri_any. intros [c|e] h'; [apply H1|apply H2]. Qed.

Lemma tri_end_at s fingerprint r why code (Q : outcome ExplorationError (RunState + ExplorationResult) → list Note → Prop) h :
  lenient Q → tri (finish_at s fingerprint r why code) Q h.
Proof. intros HQ. apply tri_bind, tri_any. intros [left|e] h'; [by apply tri_end|apply HQ]. Qed.

(** If it goes on, [s] has [P]. *)
Definition on_state (P : RunState → Prop) (o : outcome ExplorationError (RunState + ExplorationResult))
    (h : list Note) : Prop :=
  match o with Ok (inl s) => P s | _ => True end.

Lemma lenient_state P : lenient (on_state P).
Proof. done. Qed.

Definition leaves (n : number) : outcome ExplorationError (RunState + ExplorationResult) → list Note → Prop :=
  on_state (λ s, remainingSteps (budget s) = n).

Lemma tri_write s u (Q : outcome ExplorationError (option RunState) → list Note → Prop) h :
  (∀ s' h', budget s' = budget s → Q (Ok (Some s')) h') → (∀ h', Q (Ok None) h') → (∀ e h', Q (Throw e) h') →
  tri (updateProgress s u) Q h.
Proof.
  intros Hs Hn He. apply tri_bind, tri_bind, tri_ask; [done|]. intros [[p|c]|e] _; cbn; [by apply Hs|apply Hn|apply He].
Qed.

Lemma leaves_dispatch fingerprint s a h :
  tri (dispatch number_text sha256 fingerprint s a) (leaves (remainingSteps (budget s))) h.
Proof.
  unfold dispatch. apply tri_bind, tri_any. intros [left|e] h1; [|done].
  apply tri_bind, tri_write; [|done..]. intros s1 h2 E1. apply tri_bind, tri_ask; [done|].
  intros [u|e] _; [|by apply tri_end]. apply tri_bind, tri_any. intros [left2|e] h3; [|done].
  apply tri_bind, tri_any. intros [left3|e] h4; [|done].
  apply tri_bind, tri_write; [|done..]. intros s2 h5 E2. cbn. rewrite E2. cbn. by rewrite E1.
Qed.

Lemma leaves_consult job graph fingerprint s h :
  tri (consult parse_url number_text sha256 resolve_url classifier has_policyGate tokenReservationEstimate
    job graph fingerprint s) (leaves (remainingSteps (budget s))) h.
Proof.
  unfold consult. apply tri_bind, tri_any. intros [left|e] h1; [|done]. apply tri_bind, tri_ask; [done|].
  intros [prop|e] _; [|by apply tri_end_at]. destruct (tokensUsed prop); [|by apply tri_end_at].
  apply tri_bind, tri_any_lift. destruct (settleModelTokens _ _ _) as [[b within]|e] eqn:Hs; [|done]. cbv zeta.
  destruct within; cbn [negb]; [|by apply tri_end_at].
  unfold decide_action. destruct (status _); [|by apply tri_end_at].
  destruct (validateProposal _ _ _ _ _ _) as [a|[why code]]; [|by apply tri_end_at].
  apply tri_bind, tri_any. intros [[d|d]|e] h3; [|by apply tri_end_at|done].
  rewrite <- (settle_same _ _ _ _ _ Hs). apply leaves_dispatch.
Qed.

Lemma leaves_capture s h :
  tri (captureWithRecovery has_recover s)
    (λ o h', match o with Ok (inl (_, s')) => remainingSteps (budget s') = remainingSteps (budget s) | _ => True end) h.
Proof.
  unfold captureWithRecovery. apply tri_bind, tri_ask; [done|]. intros [raw|e] _; [by apply tri_ret|].
  destruct (negb _); [by apply tri_end|]. destruct (reserveRecovery _) as [b|] eqn:Hb; [|by apply tri_end].
  unfold reserveRecovery in Hb. apply fmap_Some in Hb as (n & _ & ->).
  apply tri_bind, tri_any. intros [o|e'] h1; [|done]. apply tri_bind, tri_any.
  intros [[g|]|e'] h2; [done|by apply tri_end|done].
Qed.

(** A round that goes on has spent a step. *)
Lemma spent_iteration job s z h :
  remainingSteps (budget s) = num_of_Z z → (0 <= z <= max_safe_integer)%Z →
  tri (iteration parse_url number_text sha256 resolve_url validateLiveGraph fingerprintOf classifier
    has_policyGate has_recover tokenReservationEstimate job s)
    (on_state (λ s', remainingSteps (budget s') = num_of_Z (z - 1) ∧ (0 < z)%Z)) h.
Proof.
  intros Hz Hr. unfold iteration. apply tri_bind, tri_any. intros [wall|e] h1; [|done].
  destruct (negb wall); [by apply tri_end|].
  apply tri_bind. eapply tri_mono; [apply leaves_capture|]. intros [[[raw s1]|c]|e] h2; [|done..]. intros E1.
  destruct (validateLiveGraph raw) as [graph|code]; [|by apply tri_end]. cbv zeta.
  destruct (negb _); [by apply tri_end_at|]. destruct (record_visit _ _); [|by apply tri_end_at].
  destruct (reserveStateVisit _) as [b|] eqn:Hb; [|by apply tri_end_at].
  unfold reserveStateVisit in Hb. apply fmap_Some in Hb as (n & _ & ->).
  destruct (reserveStep _) as [b|] eqn:Hb; [|by apply tri_end_at].
  unfold reserveStep in Hb. apply fmap_Some in Hb as (m & Hm & ->). cbn in Hm. rewrite E1, Hz in Hm.
  unfold reserve in Hm. rewrite num_leb_of_Z in Hm. destruct (Z.leb_spec z 0); [done|]. injection Hm as <-.
  apply tri_bind, tri_any_lift. destruct (reserveModelTokens _ _) as [[b'|]|e] eqn:Ht; [|by apply tri_end_at|done].
  eapply tri_mono; [apply leaves_consult|]. intros [[s2|c]|e] h3; [|done..]. cbn. intros ->. split; [|done].
  unfold reserveModelTokens in Ht. apply bind_Ok in Ht as (x & _ & Ht). cbn in Ht.
  destruct (num_ltb _ x); [done|]. injection Ht as <-. cbn. unfold max_safe_integer in Hr. apply num_sub_of_Z; lia.
Qed.

(** The fuel is not what ends a run. *)
Definition ended (o : outcome ExplorationError (option ExplorationResult)) (h : list Note) : Prop := o ≠ Ok None.

Lemma explore_ends fuel job s z h :
  remainingSteps (budget s) = num_of_Z z → (0 <= z <= max_safe_integer)%Z → (z < Z.of_nat fuel)%Z →
  tri (explore parse_url number_text sha256 resolve_url validateLiveGraph fingerprintOf classifier
    has_policyGate has_recover tokenReservationEstimate fuel job s) ended h.
Proof.
  revert s z h. induction fuel as [|fuel IH]; intros s z h Hz Hr Hf; [lia|]. cbn [explore].
  apply tri_bind. eapply tri_mono; [by apply spent_iteration|]. intros [[s'|c]|e] h'; [|done..].
  intros [Hz' ?]. eapply IH; [exact Hz'|lia|lia].
Qed.

(** *** Seeds and loading *)
Lemma leaves_replay total index seeds s h :
  tri (replay_loop total index seeds s) (leaves (remainingSteps (budget s))) h.
Proof.
  revert index s h. induction seeds as [|seed seeds IH]; intros index s h; [done|]. cbn [replay_loop].
  apply tri_bind, tri_any. intros [left|e] h1; [|done]. apply tri_bind, tri_write; [|done..].
  intros s2 h2 E2. apply tri_bind, tri_ask; [done|]. intros [r|e] _; [|done]. cbv zeta.
  destruct (negb _); [by apply tri_end|]. apply tri_bind, tri_any. intros [left4|e] h4; [|done].
  apply tri_bind, tri_write; [|done..]. intros s5 h5 E5. cbn in E5. rewrite <- E2, <- E5.
  exact (IH _ (with_cursor _ s5) h5).
Qed.

Lemma leaves_replaySeeds job s h :
  tri (replaySeeds has_seedReplay job s) (leaves (remainingSteps (budget s))) h.
Proof.
  unfold replaySeeds. case_bool_decide; [done|]. case_bool_decide; [by apply tri_end|].
  destruct (negb _); [by apply tri_end|]. destruct (_ <? 0)%Z; [by apply tri_end|]. apply leaves_replay.
Qed.

Lemma loads_bounded job h :
  tri (loadOrInitializeState parse_url number_text sha256 job)
    (on_state (λ s, ∃ z, remainingSteps (budget s) = num_of_Z z ∧ (0 <= z <= limit (job_attemptId job))%Z)) h.
Proof.
  unfold loadOrInitializeState. apply tri_bind, tri_any. intros [b|e] h1; [|done].
  apply tri_bind, tri_any. intros [left|e] h2; [|done].
  apply tri_bind, tri_bind, tri_ask; [done|]. intros [p|e] Hp; [|done]. apply tri_ret. cbn in Hp.
  destruct (negb _); [done|]. destruct (phase p).
  1,2: apply tri_bind, tri_any; intros [cps|e] h3; [|done]; apply tri_bind, tri_any_lift;
    destruct (newTracker _) as [t|e]; [|done]; cbv zeta; apply tri_bind, tri_bind, tri_any_lift;
    destruct (validateSnapshot _) as [[]|e]; [|done]; by apply tri_bind, tri_ask.
  - apply tri_bind, tri_any. intros [[q|c]|e] h3; [..|done]; apply tri_bind, tri_any; by intros [cps|e] h4.
  - apply tri_bind, tri_any. by intros [cps|e] h4.
Qed.

Lemma run_ends fuel job :
  (limit (job_attemptId job) < Z.of_nat fuel)%Z → tri (run fuel job) ended [].
Proof.
  intros Hf. unfold Exploration.run. destruct (environment job); [|done].
  apply tri_bind, tri_any. intros [u|e] h1; [|done]. destruct (validateSeeds job) as [[why code]|]; [done|].
  apply tri_bind. eapply tri_mono; [apply loads_bounded|]. intros [[s|c]|e] h2; [|done..]. intros (z & Hz & Hr).
  apply tri_bind. eapply tri_mono; [apply leaves_replaySeeds|]. intros [[s1|c]|e] h3; [|done..]. intros E1. cbn in E1.
  pose proof (limit_safe (job_attemptId job)).
  apply tri_bind. case_bool_decide.
  - apply tri_bind, tri_any. intros [left|e] h4; [|done]. apply tri_write; [|done..].
    intros s2 h5 E2. eapply explore_ends; [by rewrite E2, E1|lia|lia].
  - apply tri_ret. eapply explore_ends; [by rewrite E1|lia|lia].
Qed.
End termination.

Lemma answers_bounded st h B (e : Call B) b db' :
  Global st → may B h e → answers _ e (shared st) b db' → bounded _ e b.
Proof.
  intros G Hm Ha. destruct e; try done. cbn in Ha. destruct b as [p|]; [|done].
  destruct Ha as [[now Ha]|[? _]]; [|done].
  destruct (initialize_cases _ _ _ _ _ Ha) as [(? & ? & _)|(row & [= ->] & Hins & Hrow)]; [done|].
  destruct (gl_rows _ (global_insert _ _ _ _ _ G Hm Hins) _ _ Hrow) as [_ ? (z & Hz & ? & ? & _) _].
  exists z. split; [done|lia].
Qed.

(** C10: A controller that stops has come to a result: the loop is over after at most
    as many rounds as the attempt's step budget and one more, however the world
    answers and however often the attempt was resumed. *)
Theorem controllers_finish st0 st i r h :
  initial st0 → rtc step st0 st → processes st !! i = Some (Ret r, h) → is_Some r.
Proof.
  intros H0 Hr Hi. destruct r; [by eexists|].
  assert (Forall (λ ph, Interact.tri note bounded (λ _ _ _, True) ph.1 ended ph.2) (processes st)) as Hall.
  { clear Hi. revert st Hr. apply (rtc_ind_r (R := step)); [destruct H0 as [_ ->]; constructor|].
    intros x y Hx Hs IH. destruct (system_safe _ _ H0 Hx) as (G & Hob & _).
    eapply sched_tri; [| |exact IH|exact Hs].
    - intros j B e k h' b s' Hj Ha. rewrite Forall_lookup in Hob. destruct (Hob _ _ Hj) as [Hm _].
      by eapply answers_bounded.
    - intros p (fuel & job & -> & _ & Hf). by apply run_ends. }
  rewrite Forall_lookup in Hall. by destruct (Hall _ _ Hi).
Qed.
End safety.
End ExplorationSafety.
