(* ===== verification/ExplorationSample.v ===== *)
(** * Exploration: a sample world

    A site, a job and a world that answers the calls of [Exploration] from a
    script, to run controllers on concrete inputs. *)
From S2P Require Import Prelude.
From S2P Require Import Number.
From S2P Require Import Json.
From S2P Require Import RunnerProtocol.
From S2P Require Import Interact.
From S2P Require Import Exploration.
From S2P Require Import ExplorationAuthority.
From S2P Require Import ExplorationSafety.

Module ExplorationSample.
Import Exploration ExplorationAuthority ExplorationSafety.

(** ** The parameters *)
Definition resolve_url (target base : string) : option string := Some "https://shop.test/cart".
Definition number_text (n : number) : string := "1".
Definition sha256 (s : string) : string := s.
Definition validateLiveGraph (g : json) : outcome string json := Ok g.
Definition fingerprintOf (g : json) : string := text_of (field "fingerprint" (Some g)).

Definition sample_run : nat → ExplorationJob → prog Call ExplorationError (option ExplorationResult) :=
  run RunnerProtocol.demo_url number_text sha256 resolve_url validateLiveGraph fingerprintOf None
    true false false None.

(** ** A job of two steps *)
Definition sample_policy : ExplorationPolicy :=
  {| seedSkillBundleIds := []; allowedActionKinds := ["click"]; allowedOrigins := ["https://shop.test"];
     maximumSteps := num_of_Z 2; maximumWallClockMs := num_of_Z 60000;
     maximumModelTokens := num_of_Z 5000; maximumStateVisits := num_of_Z 5;
     maximumRecoveries := num_of_Z 0; riskCeiling := LocalMutation |}.
Definition sample_job : ExplorationJob :=
  {| runId := "run"; policy := sample_policy; environment := test; job_attemptId := "attempt";
     job_sourceBindingHash := "source"; seedSkills := [] |}.

Definition sample_graph (fingerprint : string) : json :=
  JObj [("fingerprint", JStr fingerprint); ("nodes", JArr [JObj [("id", JStr "buy")]]);
        ("extensions", JObj [("web/v1", JObj [("payload",
           JObj [("origin", JStr "https://shop.test"); ("pathname", JStr "/cart")])])])].
Definition sample_action : ProposedExplorationAction :=
  {| kind := click; nodeId := Some "buy"; path := None; valueRef := None; reason := "new page" |}.
Definition sample_proposal : ExplorationProposal :=
  {| decision := {| status := act; action := Some sample_action; decision_reason := "new page";
                    expectedNovelty := None |}; tokensUsed := Some (num_of_Z 10) |}.

(** ** A scripted world *)
Record World := { db : Db; graphs : list json; now : string; busy : bool }.
Definition with_db (d : Db) (w : World) : World :=
  {| db := d; graphs := graphs w; now := now w; busy := busy w |}.

Definition respond {B} (e : Call B) (w : World) : B * World :=
  match e in Call B return B * World with
  | ClockNow => (num_of_Z 0, w)
  | Capture =>
      match graphs w with
      | g :: rest => (Ok g, {| db := db w; graphs := rest; now := now w; busy := busy w |})
      | [] => (Throw tt, w)
      end
  | Recover => (Throw tt, w)
  | NextAction _ => (Ok sample_proposal, w)
  | Authorize _ => (Ok (allowed "test site"), w)
  | Execute _ => (Ok tt, w)
  | Replay _ => (Throw tt, w)
  | Initialize n => let '(o, d) := initializeAttemptProgress (now w) n (db w) in (o, with_db d w)
  | CompareAndSet u => let '(o, d) := compareAndSetAttemptProgress (now w) (busy w) u (db w) in (o, with_db d w)
  | LiveCheckpoints id => (Ok (liveCheckpointsForAttempt id (db w)), w)
  end.

Lemma respond_answers B (e : Call B) w b w' : respond e w = (b, w') → answers B e (db w) b (db w').
Proof.
  destruct e; cbn; intros H; try (by injection H as <- <-).
  - destruct (graphs w); by injection H as <- <-.
  - destruct (initializeAttemptProgress _ _ _) as [o d] eqn:Hi. injection H as <- <-. left. by exists (now w).
  - destruct (compareAndSetAttemptProgress _ _ _ _) as [o d] eqn:Hi. injection H as <- <-. by exists (now w), (busy w).
  - injection H as <- <-. split; [by left|done].
Qed.

Notation controller := (prog Call ExplorationError (option ExplorationResult)).

Definition play : nat → controller → list Note → World → controller * list Note * World :=
  Interact.play note (@respond).

Notation system := (@sched_state Call ExplorationError Note Db (option ExplorationResult)).
Notation step limit := (sched note answers midway (startable RunnerProtocol.demo_url number_text sha256 resolve_url
  validateLiveGraph fingerprintOf None true false false None limit)).

(** ** Two controllers of one attempt, the first of which crashes *)
Definition sample_limit (id : string) : Z := 2.
Definition sample_world : World :=
  {| db := {| benchmark_runs := {["run"]}; attempt_progress := ∅; live_checkpoints := ∅ |};
     graphs := sample_graph <$> ["a"; "b"; "c"; "d"]; now := "2024-01-01T00:00:00.000Z"; busy := false |}.

(** [crash] is the number of calls the first controller makes: 15 are those up to
    the execution of the first step and 18 those up to its checkpoint. *)
Definition sample_system (crash : nat) : system :=
  let '(p1, h1, w1) := play crash (sample_run 3 sample_job) [] sample_world in
  let '(p2, h2, w2) := play 100 (sample_run 3 sample_job) [] w1 in
  {| shared := db w2; processes := [(p1, h1); (p2, h2)] |}.
Definition sample_start : system := {| shared := db sample_world; processes := [] |}.

Lemma sample_reachable crash : rtc (step sample_limit) sample_start (sample_system crash).
Proof.
  unfold sample_system. destruct (play crash _ _ _) as [[p1 h1] w1] eqn:H1.
  destruct (play 100 _ _ _) as [[p2 h2] w2] eqn:H2.
  assert (startable RunnerProtocol.demo_url number_text sha256 resolve_url validateLiveGraph fingerprintOf None
    true false false None sample_limit (sample_run 3 sample_job)) as Hs by by exists 3, sample_job.
  eapply rtc_l; [by apply sched_start|]. etrans; [eapply (play_steps note answers midway _ db (@respond) _ 0); [apply respond_answers|done|exact H1]|].
  eapply rtc_l; [by apply sched_start|]. cbn.
  by apply (play_steps note answers midway _ db (@respond) 100 1 [(p1, h1); (sample_run 3 sample_job, [])]
    (sample_run 3 sample_job) []); [apply respond_answers|..].
Qed.

Lemma sample_limit_safe id : (0 <= sample_limit id <= max_safe_integer)%Z.
Proof. unfold sample_limit, max_safe_integer. lia. Qed.

Lemma sample_initial : initial sample_start.
Proof. done. Qed.

(** ** The theorems there *)

(** The second controller finds the first step in flight and executes nothing. *)
Lemma attempt_within_budget_witness :
  length (all_executed (sample_system 15)) = 1 ∧
  (Z.of_nat (length (filter (λ x, x.1 = "attempt") (all_executed (sample_system 15)))) <= sample_limit "attempt")%Z.
Proof.
  split; [vm_compute; reflexivity|].
  exact (attempt_within_budget _ _ _ _ _ _ _ _ _ _ _ sample_limit sample_limit_safe _ _ "attempt"
    sample_initial (sample_reachable 15)).
Defined.

Lemma controllers_finish_witness :
  (λ ph : controller * list Note, match ph.1 with Ret r => bool_decide (is_Some r) | _ => false end)
    <$> processes (sample_system 100) = [true; true] ∧
  match processes (sample_system 100) with (Ret r, _) :: _ => is_Some r | _ => True end.
Proof.
  split; [vm_compute; reflexivity|].
  destruct (processes (sample_system 100)) as [|[[r|e|B e k] h] l] eqn:Hp; try exact I.
  refine (controllers_finish _ _ _ _ _ _ _ _ _ _ _ sample_limit sample_limit_safe _ _ 0 r h
    sample_initial (sample_reachable 100) _).
  rewrite Hp. reflexivity.
Defined.

(** What the first controller had noted when it executed the first step. *)
Definition sample_history : list Note := (play 14 (sample_run 3 sample_job) [] sample_world).1.2.
Definition sample_grounded : GroundedExplorationAction :=
  {| g_kind := click; g_reason := "new page"; risk := LocalMutation;
     node := Some (JObj [("id", JStr "buy")]); g_path := None; g_valueRef := None |}.

Definition sample_first : controller * list Note * World := play 15 (sample_run 3 sample_job) [] sample_world.

Lemma sample_first_history : sample_first.1.2 = n_executed sample_grounded (Ok tt) :: sample_history.
Proof. vm_compute. reflexivity. Qed.

Lemma sample_first_process : processes (sample_system 15) !! 0 = Some sample_first.1.
Proof.
  unfold sample_system, sample_first. destruct (play 15 _ _ _) as [[p1 h1] w1].
  by destruct (play 100 _ _ _) as [[p2 h2] w2].
Qed.

Lemma sample_first_runs :
  runs note (λ _ _ _, True) (sample_run 3 sample_job) [] sample_first.1.1 ([] ++ n_executed sample_grounded (Ok tt) :: sample_history).
Proof.
  cbn [app]. rewrite <- sample_first_history. unfold sample_first.
  destruct (play 15 _ _ _) as [[p h] w] eqn:Hp. by eapply (play_runs note _ (@respond)).
Qed.

(** After a crash at its checkpoint the first controller's steps are not repeated
    by the second, which resumes behind them; and of a controller that crashed
    when it executed, the action was the recorded one. *)
Lemma steps_executed_once_witness :
  (all_executed (sample_system 18) = [("attempt", 1%Z); ("attempt", 2%Z)] ∧
   NoDup (all_executed (sample_system 18)) ∧ (1 <= 2 <= sample_limit "attempt")%Z) ∧
  length (executed sample_first.1.2) = length (actions sample_first.1.2) ∧
  match stage sample_history with
  | armed r => inFlightAction r = Some (inFlight number_text sha256 (lastSafeStep r + 1) sample_grounded)
  | _ => False
  end.
Proof.
  split.
  - split; [vm_compute; reflexivity|].
    destruct (steps_executed_once _ _ _ _ _ _ _ _ _ _ _ sample_limit sample_limit_safe _ _
      sample_initial (sample_reachable 18)) as (Hn & Hb & _).
    split; [exact Hn|]. apply (Hb "attempt"). vm_compute. apply list_elem_of_further, list_elem_of_here.
  - assert (processes (sample_system 15) !! 0 = Some (sample_first.1.1, sample_first.1.2)) as Hi.
    { rewrite <- surjective_pairing. exact sample_first_process. }
    destruct (steps_executed_once RunnerProtocol.demo_url number_text sha256 resolve_url validateLiveGraph fingerprintOf None
      true false false None sample_limit sample_limit_safe _ _
      sample_initial (sample_reachable 15)) as (_ & _ & Hp).
    destruct (Hp _ _ _ Hi) as [Hlen Hahead]. split; [exact Hlen|].
    destruct (Hahead [] sample_grounded (Ok tt) sample_history sample_first_history) as (r & Hs & _ & Hf).
    rewrite Hs. exact Hf.
Defined.

Lemma explored_actions_authorized_witness :
  Authorized RunnerProtocol.demo_url resolve_url validateLiveGraph None true sample_job sample_history sample_grounded.
Proof.
  exact (explored_actions_authorized RunnerProtocol.demo_url number_text sha256 resolve_url validateLiveGraph fingerprintOf None
    true false false None 3 sample_job [] sample_grounded (Ok tt) sample_history _ sample_first_runs).
Defined.
End ExplorationSample.
