(* ===== verification/Skill.v ===== *)
(** * Procedure Skills

    Models [packages/core-modules/skill/src]: the [TestSkill] aggregate
    ([domain/test-skill.ts]), the [SkillPromotionPolicy]
    ([application/skill-promotion-policy.ts]) and the [SkillVerifier]
    ([application/skill-verifier.ts]).  Versions are [Z]; the replay port and the
    identifiers and time of an evaluation are parameters.  The aggregate's
    transitions are in [SkillLifecycle] composed with the store and the service. *)
From S2P Require Import Prelude.
From S2P Require Import Interact.

Module Skill.

(** ** Data *)
Inductive SkillState := draft | candidate | verified | promoted | deprecated.
#[export] Instance skill_state_eq_dec : EqDecision SkillState.
Proof. solve_decision. Defined.

Record TargetScope := {
  targetId : string;
  minimumTargetVersion : option string;
  maximumTargetVersion : option string;
  allowedOrigins : list string;
}.
Inductive SkillParameterSensitivity := public | internal | sensitive | secret.
Record SkillParameter := {
  par_name : string;
  par_valueRef : string;
  required : bool;
  sensitivity : SkillParameterSensitivity;
}.
Record SemanticTarget := { role : option string; name : option string; purpose : string }.
Inductive IntentStep :=
  | navigate (path : string)
  | click (target : SemanticTarget)
  | input (target : SemanticTarget) (valueRef : string).
Inductive SkillAssertion :=
  | node_present (target : SemanticTarget)
  | node_text (target : SemanticTarget) (expected : string)
  | claim_satisfied (claimId : string)
  | url_path (path : string).
Inductive SkillStepRecovery := stop | reobserve.
Record SkillStep := {
  stepId : string;
  intent : IntentStep;
  preconditions : list SkillAssertion;
  checkpoint : list SkillAssertion;
  recovery : SkillStepRecovery;
  sourceNodeId : string;
}.
Inductive ObservationSchemaEpoch := pre_v1 | v1.

(** A list with a first element: [readonly [T, ...T[]]]. *)
Definition nonempty (A : Type) : Type := (A * list A)%type.

Record SkillCandidate := {
  parameters : list SkillParameter;
  steps : nonempty SkillStep;
  sourceRecordingIds : nonempty string;
  observationSchemaEpoch : ObservationSchemaEpoch;
  locatorSchemaVersion : string;
  compilerVersion : string;
  contentSha256 : string;
}.

(** The fields a version shares with a candidate are kept as the candidate. *)
Record ProcedureSkillVersion := {
  skillId : string;
  version : Z;
  state : SkillState;
  projectId : string;
  targetScope : TargetScope;
  content : SkillCandidate;
}.

Inductive OracleStatus := passed | failed.
#[export] Instance oracle_status_eq_dec : EqDecision OracleStatus.
Proof. solve_decision. Defined.
Record OracleResult := { oracle : string; oracle_status : OracleStatus; detail : option string }.
Record SkillEvaluation := {
  evaluationId : string;
  ev_skillId : string;
  skillVersion : Z;
  oracles : nonempty OracleResult;
  outcome_ : OracleStatus;
  signatureValid : bool;
  ev_createdAt : string;
}.

Record SkillBundleManifest := {
  bundleId : string;
  m_skillId : string;
  m_skillVersion : Z;
  m_compilerVersion : string;
  m_contentSha256 : string;
  signerKeyId : string;
  signatureBase64 : string;
  issuedAt : string;
  expiresAt : option string;
}.
Record SignedSkillBundle := { manifest : SkillBundleManifest; payload : ProcedureSkillVersion }.

Inductive SignatureInvalidCode :=
  | InvalidSignature | SkillTargetMismatch | SkillBundleExpired | SkillContentTampered.
Definition signature_code_text (c : SignatureInvalidCode) : string :=
  match c with
  | InvalidSignature => "SkillSignatureInvalid" | SkillTargetMismatch => "SkillTargetMismatch"
  | SkillBundleExpired => "SkillBundleExpired" | SkillContentTampered => "SkillContentTampered"
  end.
Inductive SkillSignatureVerification := valid | invalid (code : SignatureInvalidCode).

(** The codes of a [SkillError]. *)
Inductive SkillErrorCode :=
  | SkillVersionConflict (actualVersion : option Z)
  | SkillIdempotencyConflict (actualVersion : Z)
  | SkillCommandAborted
  | SkillNotFound
  | SkillNotDraft
  | SkillNotCandidate
  | SkillNotVerified
  | SkillVerificationFailed
  | SkillSignatureInvalid
  | SkillBundleMissing
  | SkillAlreadyDeprecated
  | SkillStateReversal.

(** ** The aggregate *)
Record SkillTransition := {
  t_skillId : string;
  fromState : SkillState;
  toState : SkillState;
  t_version : Z;
  t_idempotencyKey : string;
}.
Record TestSkill := {
  skillId_ : string;
  projectId_ : string;
  targetScope_ : TargetScope;
  version_ : Z;
  state_ : SkillState;
  candidate_ : option SkillCandidate;
  evaluation_ : option SkillEvaluation;
  transitions : gmap string SkillTransition;
}.
Definition set_candidate (c : SkillCandidate) (s : TestSkill) : TestSkill :=
  {| skillId_ := skillId_ s; projectId_ := projectId_ s; targetScope_ := targetScope_ s;
     version_ := version_ s; state_ := state_ s; candidate_ := Some c; evaluation_ := evaluation_ s;
     transitions := transitions s |}.
Definition set_evaluation (e : SkillEvaluation) (s : TestSkill) : TestSkill :=
  {| skillId_ := skillId_ s; projectId_ := projectId_ s; targetScope_ := targetScope_ s;
     version_ := version_ s; state_ := state_ s; candidate_ := candidate_ s; evaluation_ := Some e;
     transitions := transitions s |}.

Definition SkillM := js TestSkill SkillErrorCode.

Definition FORWARD_ORDER (s : SkillState) : Z :=
  match s with draft => 0 | candidate => 1 | verified => 2 | promoted => 3 | deprecated => 4 end.

(** [TestSkill.draft] and [TestSkill.fromVersion]. *)
Definition newDraft (id project : string) (scope : TargetScope) : TestSkill :=
  {| skillId_ := id; projectId_ := project; targetScope_ := scope; version_ := 1; state_ := draft;
     candidate_ := None; evaluation_ := None; transitions := ∅ |}.
Definition fromVersion (v : ProcedureSkillVersion) : TestSkill :=
  {| skillId_ := skillId v; projectId_ := projectId v; targetScope_ := targetScope v;
     version_ := version v; state_ := state v; candidate_ := Some (content v); evaluation_ := None;
     transitions := ∅ |}.

Definition buildVersion (c : SkillCandidate) (s : TestSkill) : ProcedureSkillVersion :=
  {| skillId := skillId_ s; version := version_ s; state := state_ s; projectId := projectId_ s;
     targetScope := targetScope_ s; content := c |}.
Definition snapshot : SkillM ProcedureSkillVersion :=
  s ← get;
  match candidate_ s with
  | None => throw SkillNotCandidate
  | Some c => mret (buildVersion c s)
  end.

(** [expectedVersion] and [idempotencyKey] of a command. *)
Record SkillCommandBase := { expectedVersion : Z; idempotencyKey : string }.

Definition replayIfIdempotent (command : SkillCommandBase) : SkillM (option SkillTransition) :=
  s ← get; mret (transitions s !! idempotencyKey command).

Definition assertExpectedVersion (expected : Z) : SkillM unit :=
  s ← get; throw_if (negb (expected =? version_ s)%Z) (SkillVersionConflict (Some (version_ s))).

Definition commit (command : SkillCommandBase) (to : SkillState) (fromStateOverride : option SkillState)
    : SkillM SkillTransition :=
  s ← get;
  let transition := {| t_skillId := skillId_ s; fromState := default (state_ s) fromStateOverride;
    toState := to; t_version := version_ s + 1; t_idempotencyKey := idempotencyKey command |} in
  _ ← put {| skillId_ := skillId_ s; projectId_ := projectId_ s; targetScope_ := targetScope_ s;
             version_ := t_version transition; state_ := to; candidate_ := candidate_ s;
             evaluation_ := evaluation_ s;
             transitions := <[idempotencyKey command := transition]> (transitions s) |};
  mret transition.

Definition illegalTransitionError (current to : SkillState) : SkillErrorCode :=
  if (FORWARD_ORDER to <=? FORWARD_ORDER current)%Z then SkillStateReversal
  else match to with
       | promoted => SkillNotVerified
       | verified => SkillNotCandidate
       | _ => SkillNotDraft
       end.

Definition transition (command : SkillCommandBase) (requiredState to : SkillState) (apply : SkillM unit)
    : SkillM SkillTransition :=
  replay ← replayIfIdempotent command;
  match replay with
  | Some t => mret t
  | None =>
      s ← get;
      _ ← throw_if (negb (bool_decide (state_ s = requiredState))) (illegalTransitionError (state_ s) to);
      _ ← assertExpectedVersion (expectedVersion command);
      _ ← apply;
      commit command to None
  end.

Definition applyTransition (command : SkillCommandBase) (from to : SkillState) : SkillM SkillTransition :=
  _ ← assertExpectedVersion (expectedVersion command);
  commit command to (Some from).

Definition markCandidate (command : SkillCommandBase) (c : SkillCandidate) : SkillM SkillTransition :=
  transition command draft candidate (modify (set_candidate c)).

Definition verify (command : SkillCommandBase) (e : SkillEvaluation) (signature : bool)
    : SkillM SkillTransition :=
  transition command candidate verified
    (_ ← throw_if (negb signature) SkillSignatureInvalid;
     _ ← throw_if (negb (bool_decide (outcome_ e = passed))) SkillVerificationFailed;
     modify (set_evaluation e)).

Definition promote (command : SkillCommandBase) : SkillM SkillTransition :=
  transition command verified promoted
    (s ← get; throw_if (negb (bool_decide (state_ s = verified))) SkillNotVerified).

Definition deprecate (command : SkillCommandBase) : SkillM SkillTransition :=
  s ← get;
  if bool_decide (state_ s = deprecated) then
    replay ← replayIfIdempotent command;
    match replay with
    | Some t => mret t
    | None => throw SkillAlreadyDeprecated
    end
  else applyTransition command (state_ s) deprecated.

(** ** The promotion policy *)
Inductive PromotionDecision := approved | rejected (code : SkillErrorCode).

Definition oracle_list (e : SkillEvaluation) : list OracleResult := (oracles e).1 :: (oracles e).2.
Definition passedOracles (e : SkillEvaluation) : gset string :=
  list_to_set (oracle <$> filter (λ o, oracle_status o = passed) (oracle_list e)).

Definition evaluate (v : ProcedureSkillVersion) (e : SkillEvaluation) (s : SkillSignatureVerification)
    (requiredOracles : list string) : PromotionDecision :=
  if negb (bool_decide (state v = verified)) then rejected SkillNotVerified
  else match s with
  | invalid _ => rejected SkillSignatureInvalid
  | valid =>
      if negb (bool_decide (outcome_ e = passed)) then rejected SkillVerificationFailed
      else if negb (signatureValid e) then rejected SkillSignatureInvalid
      else if existsb (λ r, negb (bool_decide (r ∈ passedOracles e))) requiredOracles
      then rejected SkillVerificationFailed
      else approved
  end.

(** [bundleMatchesVersion] of the lifecycle service. *)
Definition bundleMatchesVersion (b : SignedSkillBundle) (v : ProcedureSkillVersion) : bool :=
  String.eqb (m_skillId (manifest b)) (skillId v) && (m_skillVersion (manifest b) =? version v)%Z &&
  String.eqb (m_contentSha256 (manifest b)) (contentSha256 (content v)) &&
  String.eqb (skillId (payload b)) (skillId v) && (version (payload b) =? version v)%Z &&
  String.eqb (contentSha256 (content (payload b))) (contentSha256 (content v)).

(** ** The verifier *)
Inductive FixtureKind := normal | dom_variation | precondition_negative.
#[export] Instance fixture_kind_eq_dec : EqDecision FixtureKind.
Proof. solve_decision. Defined.
Record SkillReplayFixture := { fixture_name : string; fixture_kind : FixtureKind }.
Inductive SkillReplayResult := replay_passed | replay_blocked (errorCode : string).
#[export] Instance replay_result_eq_dec : EqDecision SkillReplayResult.
Proof. solve_decision. Defined.

(** The replay port; it may reject. *)
Inductive ReplayCall : Type → Type :=
  | Replay (bundle : SignedSkillBundle) (fixture : SkillReplayFixture)
      : ReplayCall (outcome unit SkillReplayResult).
Inductive VerifierError := ReplayRejected.

(** A replay and its answer, as remembered in a history. *)
Definition ReplayNote : Type := (SkillReplayFixture * outcome unit SkillReplayResult)%type.
Definition replay_note (B : Type) (e : ReplayCall B) : B → ReplayNote :=
  match e in ReplayCall B return B → ReplayNote with Replay _ f => λ o, (f, o) end.

Definition signatureIntegrity : string := "signature-integrity".
Definition exactTraceReplay : string := "exact-trace-replay".
Definition semanticTolerantReplay : string := "semantic-tolerant-replay".
Definition preconditionSafety : string := "precondition-safety".
Definition REQUIRED_REPLAY_ORACLES : list string :=
  [signatureIntegrity; exactTraceReplay; semanticTolerantReplay; preconditionSafety].

Definition results : Type := gmap string SkillReplayResult.

(** The [for] loop of [runFixtures]: the map is keyed by the fixture's name. *)
Fixpoint runFixtures (bundle : SignedSkillBundle) (fixtures : list SkillReplayFixture) (rs : results)
    : prog ReplayCall VerifierError results :=
  match fixtures with
  | [] => mret rs
  | f :: rest =>
      o ← ask (Replay bundle f);
      match o with
      | Throw _ => Fail ReplayRejected
      | Ok r => runFixtures bundle rest (<[fixture_name f := r]> rs)
      end
  end.

Definition passes (name : string) : OracleResult :=
  {| oracle := name; oracle_status := passed; detail := None |}.
Definition failed_oracle (name why : string) : OracleResult :=
  {| oracle := name; oracle_status := failed; detail := Some why |}.

Definition signatureOracle (s : SkillSignatureVerification) : OracleResult :=
  match s with
  | valid => passes signatureIntegrity
  | invalid code => failed_oracle signatureIntegrity (signature_code_text code)
  end.

Definition of_kind (k : FixtureKind) (fixtures : list SkillReplayFixture) : list SkillReplayFixture :=
  filter (λ f, fixture_kind f = k) fixtures.
Definition result_is (rs : results) (r : SkillReplayResult) (f : SkillReplayFixture) : bool :=
  bool_decide (rs !! fixture_name f = Some r).

Definition exactTraceOracle (fixtures : list SkillReplayFixture) (rs : results) : OracleResult :=
  if bool_decide (length (of_kind normal fixtures) < 2)%nat
  then failed_oracle exactTraceReplay "At least two normal replays are required."
  else if forallb (result_is rs replay_passed) (of_kind normal fixtures) then passes exactTraceReplay
  else failed_oracle exactTraceReplay "A normal replay did not pass.".
Definition semanticTolerantOracle (fixtures : list SkillReplayFixture) (rs : results) : OracleResult :=
  if bool_decide (length (of_kind dom_variation fixtures) < 1)%nat
  then failed_oracle semanticTolerantReplay "At least one DOM-variation replay is required."
  else if forallb (result_is rs replay_passed) (of_kind dom_variation fixtures) then passes semanticTolerantReplay
  else failed_oracle semanticTolerantReplay "A DOM-variation replay did not relocate by semantics.".
Definition preconditionSafetyOracle (fixtures : list SkillReplayFixture) (rs : results) : OracleResult :=
  if bool_decide (length (of_kind precondition_negative fixtures) < 1)%nat
  then failed_oracle preconditionSafety "At least one precondition-negative replay is required."
  else if forallb (result_is rs (replay_blocked "PlanDiverged")) (of_kind precondition_negative fixtures)
  then passes preconditionSafety
  else failed_oracle preconditionSafety "A precondition-negative replay did not safely diverge.".

(** [SkillVerifier.verify]; [id] and [now] are its id factory's and clock's answers. *)
Definition verify_bundle (id now : string) (bundle : SignedSkillBundle) (s : SkillSignatureVerification)
    (fixtures : list SkillReplayFixture) : prog ReplayCall VerifierError SkillEvaluation :=
  rs ← (match s with valid => runFixtures bundle fixtures ∅ | invalid _ => mret ∅ end);
  let all := (signatureOracle s, [exactTraceOracle fixtures rs; semanticTolerantOracle fixtures rs;
                preconditionSafetyOracle fixtures rs]) in
  mret {| evaluationId := id; ev_skillId := m_skillId (manifest bundle);
          skillVersion := m_skillVersion (manifest bundle); oracles := all;
          outcome_ := if forallb (λ o, bool_decide (oracle_status o = passed)) (all.1 :: all.2)
                      then passed else failed;
          signatureValid := match s with valid => true | _ => false end; ev_createdAt := now |}.

(** ** What a passed evaluation says *)

(** The result a fixture is run for. *)
Definition wanted (f : SkillReplayFixture) : SkillReplayResult :=
  match fixture_kind f with normal | dom_variation => replay_passed | _ => replay_blocked "PlanDiverged" end.

(** Enough fixtures of every kind. *)
Definition covering (fixtures : list SkillReplayFixture) : Prop :=
  2 <= length (of_kind normal fixtures) ∧ 1 <= length (of_kind dom_variation fixtures) ∧
  1 <= length (of_kind precondition_negative fixtures).

Lemma oracle_passes (b x : bool) n why1 why2 :
  oracle_status (if b then failed_oracle n why1 else if x then passes n else failed_oracle n why2) = passed ↔
  b = false ∧ x = true.
Proof. destruct b, x; cbn; naive_solver. Qed.

Lemma all_kinds (P : SkillReplayFixture → Prop) fixtures :
  (∀ k f, f ∈ of_kind k fixtures → P f) ↔ ∀ f, f ∈ fixtures → P f.
Proof.
  unfold of_kind. split.
  - intros H f Hf. apply (H (fixture_kind f)). by apply list_elem_of_filter.
  - intros H k f [_ Hf]%list_elem_of_filter. by apply H.
Qed.

Lemma forallb_result k rs r fixtures :
  (∀ f, fixture_kind f = k → wanted f = r) →
  forallb (result_is rs r) (of_kind k fixtures) = true ↔
  ∀ f, f ∈ of_kind k fixtures → rs !! fixture_name f = Some (wanted f).
Proof.
  intros Hk. rewrite forallb_forall. unfold result_is.
  assert (∀ f, f ∈ of_kind k fixtures → wanted f = r) as Hw.
  { intros f [? _]%list_elem_of_filter. by apply Hk. }
  split; intros H f Hf.
  - pose proof (H f (proj1 (list_elem_of_In _ _) Hf)) as E%bool_decide_eq_true. by rewrite E, Hw.
  - apply list_elem_of_In in Hf. apply bool_decide_eq_true. by rewrite (H f Hf), Hw.
Qed.

(** The outcome in terms of the map of results. *)
Lemma outcome_of_results fixtures rs s :
  forallb (λ o, bool_decide (oracle_status o = passed))
    [signatureOracle s; exactTraceOracle fixtures rs; semanticTolerantOracle fixtures rs;
     preconditionSafetyOracle fixtures rs] = true ↔
  s = valid ∧ covering fixtures ∧ ∀ f, f ∈ fixtures → rs !! fixture_name f = Some (wanted f).
Proof.
  cbn [forallb]. unfold exactTraceOracle, semanticTolerantOracle, preconditionSafetyOracle.
  rewrite !andb_true_iff, !bool_decide_eq_true, !oracle_passes.
  rewrite !bool_decide_eq_false, !forallb_result; [|by intros f E; unfold wanted; rewrite E..].
  unfold covering.
  rewrite <- (all_kinds (λ f, rs !! fixture_name f = Some (wanted f)) fixtures). split.
  - intros (Hs & [H1 H2] & [H3 H4] & [H5 H6] & _). split; [by destruct s|]. split; [lia|]. by intros [].
  - intros (-> & H & Hall). split_and!; try done; try lia; by apply Hall.
Qed.

Notation tri := (Interact.tri replay_note (λ _ _ _, True) (λ _ _ _, True)).

(** The results of the replays of [l], in order. *)
Definition record_results (rs : results) (l : list (SkillReplayFixture * SkillReplayResult)) : results :=
  foldl_insert (λ n, fixture_name n.1) snd rs l.
Definition wanted_note (f : SkillReplayFixture) : ReplayNote := (f, Ok (wanted f)).
Definition noted (n : SkillReplayFixture * SkillReplayResult) : ReplayNote := (n.1, Ok n.2).

Lemma tri_runFixtures bundle fixtures rs h :
  tri (runFixtures bundle fixtures rs)
    (λ o h', match o with
      | Ok rs' => ∃ l, h' = rev (noted <$> l) ++ h ∧ l.*1 = fixtures ∧ rs' = record_results rs l
      | Throw _ => True end) h.
Proof.
  revert rs h. induction fixtures as [|f fixtures IH]; intros rs h; cbn [runFixtures]; [by exists []|].
  apply tri_bind, tri_ask; [done|]. intros [r|e] _; [|done].
  eapply tri_mono; [apply IH|]. intros [rs'|e] h'; [|done]. intros (l & -> & <- & ->).
  exists ((f, r) :: l). cbn. by rewrite <- app_assoc.
Qed.

Lemma record_results_lookup l n :
  NoDup (fixture_name <$> l.*1) → n ∈ l → record_results ∅ l !! fixture_name n.1 = Some n.2.
Proof. rewrite <- list_fmap_compose. intros Hnd Hn. by apply (foldl_insert_lookup (λ n, fixture_name n.1) snd). Qed.

(** The results are the wanted ones exactly when every replay had the wanted one. *)
Lemma record_results_wanted l :
  NoDup (fixture_name <$> l.*1) →
  (∀ f, f ∈ l.*1 → record_results ∅ l !! fixture_name f = Some (wanted f)) ↔
  noted <$> l = wanted_note <$> l.*1.
Proof.
  intros Hnd. rewrite <- list_fmap_compose. split.
  - intros H. apply list_fmap_ext. intros i n Hn%list_elem_of_lookup_2. unfold noted, wanted_note; cbn. do 2 f_equal.
    pose proof (record_results_lookup l n Hnd Hn) as E.
    rewrite (H n.1) in E by (by apply list_elem_of_fmap_2). by injection E as ->.
  - intros H f (n & -> & Hn)%list_elem_of_fmap. rewrite (record_results_lookup l n Hnd Hn). f_equal.
    apply list_elem_of_lookup_1 in Hn as [i Hi].
    assert ((noted <$> l) !! i = Some (noted n)) as E by (by rewrite list_lookup_fmap, Hi).
    rewrite H, list_lookup_fmap, Hi in E. cbn in E. unfold noted, wanted_note in E. by injection E.
Qed.

(** With distinct fixture names, an evaluation passes exactly when the signature
    is valid, there are two normal fixtures and one of each other kind, and every
    fixture was replayed once, in order, to the result it is run for; nothing is
    replayed when the signature is not valid. *)
Theorem evaluation_passes_iff id now bundle s fixtures e h :
  NoDup (fixture_name <$> fixtures) →
  runs replay_note (λ _ _ _, True) (verify_bundle id now bundle s fixtures) [] (Ret e) h →
  (s ≠ valid → h = []) ∧
  (outcome_ e = passed ↔
     s = valid ∧ covering fixtures ∧ h = rev (wanted_note <$> fixtures)).
Proof.
  intros Hnd Hr. revert Hnd.
  eapply (runs_tri replay_note (λ _ _ _, True) (λ _ _ _, True) _ _ (λ o h', match o with
    | Ok e => NoDup (fixture_name <$> fixtures) → (s ≠ valid → h' = []) ∧
        (outcome_ e = passed ↔ s = valid ∧ covering fixtures ∧ h' = rev (wanted_note <$> fixtures))
    | Throw _ => True end) _ _ Hr). clear Hr.
  assert (∀ rs h', (s ≠ valid → h' = []) →
    (s = valid → (∀ f, f ∈ fixtures → rs !! fixture_name f = Some (wanted f)) ↔
       h' = rev (wanted_note <$> fixtures)) →
    (s ≠ valid → h' = []) ∧
    ((if forallb (λ o, bool_decide (oracle_status o = passed)) [signatureOracle s; exactTraceOracle fixtures rs;
        semanticTolerantOracle fixtures rs; preconditionSafetyOracle fixtures rs] then passed else failed) = passed ↔
     s = valid ∧ covering fixtures ∧ h' = rev (wanted_note <$> fixtures))) as Hend.
  { intros rs h' Hs Hw. split; [done|]. transitivity (s = valid ∧ covering fixtures ∧
      ∀ f, f ∈ fixtures → rs !! fixture_name f = Some (wanted f)).
    - rewrite <- (outcome_of_results fixtures rs s). by destruct (forallb _ _).
    - split; intros (-> & Hc & H); (split; [done|]; split; [done|]); by apply Hw. }
  unfold verify_bundle. apply tri_bind. destruct s as [|code].
  - eapply tri_mono; [apply tri_runFixtures|]. intros [rs|x] h'; [|done]. intros (l & -> & <- & ->).
    apply tri_ret. intros Hnd. apply Hend; [done|]. intros _. rewrite app_nil_r, record_results_wanted by done.
    split; [by intros ->|]. intros E. by apply (f_equal (@rev _)) in E; rewrite !rev_involutive in E.
  - apply tri_ret, tri_ret. intros Hnd. by apply (Hend ∅).
Qed.

(** C36: Fixtures of the same name share one result: a normal replay that diverged is
    forgotten when another fixture of its name is replayed after it, and the
    evaluation passes. *)
Theorem regression_masked bundle :
  ∃ fixtures e h f why,
    runs replay_note (λ _ _ _, True) (verify_bundle "id" "now" bundle valid fixtures) [] (Ret e) h ∧
    f ∈ fixtures ∧ fixture_kind f = normal ∧ (f, Ok (replay_blocked why)) ∈ h ∧ outcome_ e = passed.
Proof.
  pose (fx k n := {| fixture_name := n; fixture_kind := k |}).
  eexists [fx normal "checkout"; fx normal "checkout"; fx dom_variation "reordered";
           fx precondition_negative "signed out"], _, _, (fx normal "checkout"), "PlanDiverged".
  split_and!.
  - unfold verify_bundle. cbn.
    eapply runs_call with (b := Ok (replay_blocked "PlanDiverged")); [done|]. cbn.
    eapply runs_call with (b := Ok replay_passed); [done|]. cbn.
    eapply runs_call with (b := Ok replay_passed); [done|]. cbn.
    eapply runs_call with (b := Ok (replay_blocked "PlanDiverged")); [done|]. cbn. apply runs_here.
  - apply list_elem_of_here.
  - done.
  - apply list_elem_of_further, list_elem_of_further, list_elem_of_further, list_elem_of_here.
  - vm_compute. reflexivity.
Qed.

(** ** The life of an aggregate *)
Inductive SkillCommand :=
  | CMarkCandidate (base : SkillCommandBase) (c : SkillCandidate)
  | CVerify (base : SkillCommandBase) (e : SkillEvaluation) (signature : bool)
  | CPromote (base : SkillCommandBase)
  | CDeprecate (base : SkillCommandBase).
Definition run_command (c : SkillCommand) : SkillM SkillTransition :=
  match c with
  | CMarkCandidate base cand => markCandidate base cand
  | CVerify base e signature => verify base e signature
  | CPromote base => promote base
  | CDeprecate base => deprecate base
  end.

(** What a state promises of the aggregate. *)
Record WellFormed (s : TestSkill) : Prop := {
  wf_version : match state_ s with
    | deprecated => (2 <= version_ s <= 5)%Z
    | st => version_ s = (1 + FORWARD_ORDER st)%Z
    end;
  wf_candidate : state_ s = candidate ∨ state_ s = verified ∨ state_ s = promoted → is_Some (candidate_ s);
  wf_evaluation : state_ s = verified ∨ state_ s = promoted →
    ∃ e, evaluation_ s = Some e ∧ outcome_ e = passed;
}.

(** A command that is refused or replayed leaves the aggregate as it was; one that
    is accepted moves it forward by one version. *)
Definition advanced (s : TestSkill) (o : outcome SkillErrorCode SkillTransition) (s' : TestSkill) : Prop :=
  match o with
  | Throw _ => s' = s
  | Ok t => s' = s ∨
      fromState t = state_ s ∧ toState t = state_ s' ∧ t_version t = version_ s' ∧
      version_ s' = (version_ s + 1)%Z ∧ (FORWARD_ORDER (state_ s) < FORWARD_ORDER (state_ s'))%Z ∧
      transitions s' = <[t_idempotencyKey t := t]> (transitions s)
  end.

Definition steps_well (s : TestSkill) (o : outcome SkillErrorCode SkillTransition) (s' : TestSkill) : Prop :=
  advanced s o s' ∧ (WellFormed s → WellFormed s').

Ltac refused := by split.

Lemma transition_well command from to apply s :
  (FORWARD_ORDER to = FORWARD_ORDER from + 1)%Z → to ≠ deprecated →
  (state_ s = from → wp apply (λ _ s', state_ s' = state_ s ∧ version_ s' = version_ s ∧
     transitions s' = transitions s ∧
     (WellFormed s → is_Some (candidate_ s') ∧
        (to = verified ∨ to = promoted → ∃ e, evaluation_ s' = Some e ∧ outcome_ e = passed)))
     (λ _ s', s' = s) s) →
  wp (transition command from to apply) (λ t s', steps_well s (Ok t) s') (λ e s', steps_well s (Throw e) s') s.
Proof.
  intros Hto Hnd Hap. unfold transition, replayIfIdempotent, assertExpectedVersion, commit. wp_run.
  - split; [by left|done].
  - refused.
  - refused.
  - to_prop. eapply wp_mono; [by apply Hap| |by intros e s' ->; split].
    intros [] s1 (E1 & E2 & E3 & Hw). wp_run. split.
    + right. cbn. rewrite E1, E2, E3. split_and!; try done. subst from. lia.
    + intros W. destruct (Hw W) as [Hc He]. pose proof (wf_version _ W) as Hv.
      split; cbn; [|done|done]. rewrite E2.
      destruct from, to; try done; cbn in *; simplify_eq; rewrite H in Hv; lia.
Qed.

Lemma run_command_well c s :
  wp (run_command c) (λ t s', steps_well s (Ok t) s') (λ e s', steps_well s (Throw e) s') s.
Proof.
  destruct c as [base cand|base e signature|base|base]; cbn [run_command].
  - apply transition_well; [done..|]. intros _. wp_run. cbn. split_and!; try done.
    intros _. split; [by eexists|]. by intros [?|?].
  - apply transition_well; [done..|]. intros Hs. wp_run; try done. cbn. split_and!; try done.
    intros W. split; [apply W; auto|]. intros _. exists e. split; [done|by to_prop].
  - apply transition_well; [done..|]. intros Hs. wp_run; try done. split_and!; try done.
    intros W. split; [apply W; auto|]. intros _. apply W; auto.
  - unfold deprecate, replayIfIdempotent, applyTransition, assertExpectedVersion, commit. wp_run.
    + split; [by left|done].
    + refused.
    + refused.
    + to_prop. split.
      * right. cbn. split_and!; try done. by destruct (state_ s).
      * intros W. pose proof (wf_version _ W) as Hv. split; cbn; [|by intros [|[|]]|by intros [|]].
        destruct (state_ s); cbn in Hv; try done; lia.
Qed.

(** After any commands, accepted or refused, a Skill that was drafted is in order:
    it is a candidate only with compiled content, verified or promoted only with an
    evaluation that passed; the next command moves it forward by exactly one
    version, returns a recorded transition, or leaves it as it was. *)
Theorem skill_moves_forward id project scope commands c :
  let s := foldl (λ s c, exec (run_command c) s) (newDraft id project scope) commands in
  WellFormed s ∧ advanced s (result (run_command c) s) (exec (run_command c) s).
Proof.
  cbn zeta. assert (∀ c s, steps_well s (result (run_command c) s) (exec (run_command c) s)) as Hc.
  { intros c' s. pose proof (run_command_well c' s) as H. unfold wp, result, exec in *.
    by destruct (run_command c' s) as [[t|e] s']. }
  split; [|apply Hc]. assert (WellFormed (newDraft id project scope)) as W.
  { split; [done|by intros [|[|]]|by intros [|]]. }
  revert W. generalize (newDraft id project scope). induction commands as [|c' commands IH]; intros s W; [done|].
  cbn. by apply IH, Hc.
Qed.
End Skill.
