(* ===== verification/SkillLifecycle.v ===== *)
(** * The lifecycle of stored Skills

    Models [packages/core-modules/skill/src/application/skill-lifecycle-service.ts]
    over [packages/storage-providers/sqlite-runtime/src/sqlite-skill-store.ts], with
    the calls of the tools that save versions, evaluations, Bundles and
    revocations.  Any number of them run over one store, every call of the store
    may be refused as busy, and the signer may answer anything.  The theorems say
    that a promoted version was verified, evaluated and signed, that a command is
    carried out once, and that a version is the work of one command. *)
From S2P Require Import Prelude.
From S2P Require Import Number.
From S2P Require Import Json.
From S2P Require Import CanonicalJson.
From S2P Require Import Interact.
From S2P Require Import Skill.
From stdpp Require Import sorting.

Module SkillLifecycle.
Import Skill.

(** ** Commands *)
Record SkillLifecycleActorContext := { actorId : string; tenantId : string; roles : list string }.
Inductive SkillLifecycleOperation :=
  | op_promote (requiredOracles : list string)
  | op_deprecate (why : string).
Record SkillLifecycleCommand := {
  c_skillId : string;
  c_expectedVersion : Z;
  c_idempotencyKey : string;
  actor : SkillLifecycleActorContext;
  occurredAt : string;
  operation : SkillLifecycleOperation;
}.
Definition operation_text (o : SkillLifecycleOperation) : string :=
  match o with op_promote _ => "promote" | op_deprecate _ => "deprecate" end.

(** [[...strings].sort()]. *)
Definition sort_strings (l : list string) : list string :=
  (CanonicalJson.sort_fields ((λ s, (s, tt)) <$> l)).*1.

(** The [metadata] of an audit event holds these three fields. *)
Record SkillLifecycleAuditEvent := {
  auditId : string;
  a_skillId : string;
  a_skillVersion : Z;
  a_operation : string;
  decision : string;
  a_actor : SkillLifecycleActorContext;
  a_reason : string;
  fromVersion_ : Z;
  fromState_ : SkillState;
  toState_ : SkillState;
  a_createdAt : string;
}.
Record SkillRevocation := {
  revocationId : string;
  r_skillId : string;
  r_skillVersion : Z;
  reason : string;
  revokedAt : string;
}.
Inductive SkillLifecycleReplayResult :=
  | not_found
  | replayed (r : ProcedureSkillVersion)
  | conflict (resultVersion : Z).
Record CommitSkillLifecycleCommandInput := {
  ci_command : SkillLifecycleCommand;
  ci_hash : string;
  previousVersion : ProcedureSkillVersion;
  ci_result : ProcedureSkillVersion;
  ci_audit : SkillLifecycleAuditEvent;
  ci_revocation : option SkillRevocation;
}.

(** [Refused]: a [SkillError]; [Busy] and [ConstraintViolation]: what SQLite
    answers; [SignerRejected]: a signer that throws. *)
Inductive LifecycleError :=
  | Refused (code : SkillErrorCode)
  | Busy
  | ConstraintViolation
  | SignerRejected.

(** ** The store *)
Record SkillHead := {
  head_projectId : string;
  head_targetId : string;
  current_version : Z;
  current_state : SkillState;
  head_created : string;
  head_updated : string;
}.
(** A row of [skill_versions]; its other columns are fields of the content. *)
Record VersionRow := {
  source_recording_id : string;
  content_json : ProcedureSkillVersion;
  row_created : string;
}.
Record CommandRow := {
  command_hash : string;
  command_type : string;
  row_skillId : string;
  expected_version : Z;
  result_version : Z;
  result_json : ProcedureSkillVersion;
  command_created : string;
}.
(** Evaluations are in the order they were inserted. *)
Record Db := {
  skills : gmap string SkillHead;
  skill_versions : gmap (string * Z) VersionRow;
  skill_evaluations : list SkillEvaluation;
  skill_bundles : gmap (string * Z) SignedSkillBundle;
  skill_revocations : gmap string SkillRevocation;
  lifecycle_commands : gmap string CommandRow;
  audit_events : gmap string SkillLifecycleAuditEvent;
}.
Definition set_head (id : string) (h : SkillHead) (db : Db) : Db :=
  {| skills := <[id := h]> (skills db); skill_versions := skill_versions db;
     skill_evaluations := skill_evaluations db; skill_bundles := skill_bundles db;
     skill_revocations := skill_revocations db; lifecycle_commands := lifecycle_commands db;
     audit_events := audit_events db |}.
Definition add_version (v : ProcedureSkillVersion) (row : VersionRow) (db : Db) : Db :=
  {| skills := skills db; skill_versions := <[(skillId v, version v) := row]> (skill_versions db);
     skill_evaluations := skill_evaluations db; skill_bundles := skill_bundles db;
     skill_revocations := skill_revocations db; lifecycle_commands := lifecycle_commands db;
     audit_events := audit_events db |}.
Definition add_evaluation (e : SkillEvaluation) (db : Db) : Db :=
  {| skills := skills db; skill_versions := skill_versions db;
     skill_evaluations := skill_evaluations db ++ [e]; skill_bundles := skill_bundles db;
     skill_revocations := skill_revocations db; lifecycle_commands := lifecycle_commands db;
     audit_events := audit_events db |}.
Definition add_bundle (b : SignedSkillBundle) (db : Db) : Db :=
  {| skills := skills db; skill_versions := skill_versions db;
     skill_evaluations := skill_evaluations db;
     skill_bundles := <[(m_skillId (manifest b), m_skillVersion (manifest b)) := b]> (skill_bundles db);
     skill_revocations := skill_revocations db; lifecycle_commands := lifecycle_commands db;
     audit_events := audit_events db |}.
Definition add_revocation (r : SkillRevocation) (db : Db) : Db :=
  {| skills := skills db; skill_versions := skill_versions db;
     skill_evaluations := skill_evaluations db; skill_bundles := skill_bundles db;
     skill_revocations := <[revocationId r := r]> (skill_revocations db);
     lifecycle_commands := lifecycle_commands db; audit_events := audit_events db |}.
Definition add_command (key : string) (row : CommandRow) (db : Db) : Db :=
  {| skills := skills db; skill_versions := skill_versions db;
     skill_evaluations := skill_evaluations db; skill_bundles := skill_bundles db;
     skill_revocations := skill_revocations db;
     lifecycle_commands := <[key := row]> (lifecycle_commands db); audit_events := audit_events db |}.
Definition add_audit (a : SkillLifecycleAuditEvent) (db : Db) : Db :=
  {| skills := skills db; skill_versions := skill_versions db;
     skill_evaluations := skill_evaluations db; skill_bundles := skill_bundles db;
     skill_revocations := skill_revocations db; lifecycle_commands := lifecycle_commands db;
     audit_events := <[auditId a := a]> (audit_events db) |}.

(** [actor_roles_json] is written sorted. *)
Definition audit_row (a : SkillLifecycleAuditEvent) : SkillLifecycleAuditEvent :=
  {| auditId := auditId a; a_skillId := a_skillId a; a_skillVersion := a_skillVersion a;
     a_operation := a_operation a; decision := decision a;
     a_actor := {| actorId := actorId (a_actor a); tenantId := tenantId (a_actor a);
                   roles := sort_strings (roles (a_actor a)) |};
     a_reason := a_reason a; fromVersion_ := fromVersion_ a; fromState_ := fromState_ a;
     toState_ := toState_ a; a_createdAt := a_createdAt a |}.

Definition StoreM := js Db LifecycleError.

(** [runInImmediateTransaction]; [busy] is SQLite's answer to [BEGIN IMMEDIATE]. *)
Definition runInImmediateTransaction {A} (busy : bool) (body : StoreM A) : StoreM A :=
  if busy then throw Busy else transaction body.

(** [insert into]: a row of the same primary key is refused. *)
Definition insert_version (v : ProcedureSkillVersion) (recording created : string) : StoreM unit :=
  db ← get;
  _ ← throw_if (bool_decide (is_Some (skill_versions db !! (skillId v, version v)))) ConstraintViolation;
  _ ← throw_if (bool_decide (skills db !! skillId v = None)) ConstraintViolation;
  modify (add_version v {| source_recording_id := recording; content_json := v; row_created := created |}).

Definition saveSkillVersion (now : string) (busy : bool) (v : ProcedureSkillVersion) (expected : Z)
    (recordingId : string) : StoreM unit :=
  runInImmediateTransaction busy
    (db ← get;
     let head := skills db !! skillId v in
     let currentVersion := match head with Some h => current_version h | None => 0%Z end in
     _ ← throw_if (negb (currentVersion =? expected)%Z) (Refused (SkillVersionConflict None));
     _ ← modify (set_head (skillId v)
           match head with
           | None => {| head_projectId := projectId v; head_targetId := targetId (targetScope v);
                        current_version := version v; current_state := state v;
                        head_created := now; head_updated := now |}
           | Some h => {| head_projectId := head_projectId h; head_targetId := head_targetId h;
                          current_version := version v; current_state := state v;
                          head_created := head_created h; head_updated := now |}
           end);
     insert_version v recordingId now).

Definition saveEvaluation (busy : bool) (e : SkillEvaluation) : StoreM unit :=
  runInImmediateTransaction busy
    (db ← get;
     if existsb (λ e', String.eqb (evaluationId e') (evaluationId e)) (skill_evaluations db) then mret tt
     else modify (add_evaluation e)).

Definition saveBundle (busy : bool) (b : SignedSkillBundle) : StoreM unit :=
  runInImmediateTransaction busy
    (db ← get;
     match skill_bundles db !! (m_skillId (manifest b), m_skillVersion (manifest b)) with
     | Some _ => mret tt
     | None =>
         _ ← throw_if (existsb (λ kv, String.eqb (bundleId (manifest kv.2)) (bundleId (manifest b)))
               (map_to_list (skill_bundles db))) ConstraintViolation;
         modify (add_bundle b)
     end).

Definition revoke (busy : bool) (r : SkillRevocation) : StoreM unit :=
  runInImmediateTransaction busy
    (db ← get;
     match skill_revocations db !! revocationId r with
     | Some _ => mret tt
     | None => modify (add_revocation r)
     end).

(** [order by created_at]: the texts are compared, and SQLite keeps the order of
    insertion among equals. *)
Definition created_le (a b : SkillEvaluation) : Prop :=
  String.compare (ev_createdAt a) (ev_createdAt b) ≠ Gt.
#[export] Instance created_le_dec : RelDecision created_le.
Proof. intros a b. unfold created_le. apply _. Defined.

Definition evaluations (id : string) (v : Z) (db : Db) : list SkillEvaluation :=
  merge_sort created_le
    (filter (λ e, ev_skillId e = id ∧ skillVersion e = v) (skill_evaluations db)).

Definition readLifecycleReplay (key hash : string) (db : Db) : SkillLifecycleReplayResult :=
  match lifecycle_commands db !! key with
  | None => not_found
  | Some row => if String.eqb (command_hash row) hash then replayed (result_json row)
                else conflict (result_version row)
  end.

Definition persistLifecycleResult (i : CommitSkillLifecycleCommandInput) : StoreM unit :=
  let command := ci_command i in
  let result := ci_result i in
  db ← get;
  match skills db !! c_skillId command with
  | Some h =>
      if (current_version h =? c_expectedVersion command)%Z then
        _ ← modify (set_head (c_skillId command)
              {| head_projectId := head_projectId h; head_targetId := head_targetId h;
                 current_version := version result; current_state := state result;
                 head_created := head_created h; head_updated := occurredAt command |});
        _ ← insert_version result (sourceRecordingIds (content result)).1 (occurredAt command);
        _ ← (match ci_revocation i with
             | None => mret tt
             | Some r =>
                 db ← get;
                 _ ← throw_if (bool_decide (is_Some (skill_revocations db !! revocationId r))) ConstraintViolation;
                 modify (add_revocation r)
             end);
        db ← get;
        _ ← throw_if (bool_decide (is_Some (lifecycle_commands db !! c_idempotencyKey command)) ||
                      bool_decide (skills db !! c_skillId command = None)) ConstraintViolation;
        _ ← modify (add_command (c_idempotencyKey command)
              {| command_hash := ci_hash i; command_type := operation_text (operation command);
                 row_skillId := c_skillId command; expected_version := c_expectedVersion command;
                 result_version := version result; result_json := result;
                 command_created := occurredAt command |});
        db ← get;
        _ ← throw_if (bool_decide (is_Some (audit_events db !! auditId (ci_audit i))) ||
                      bool_decide (skill_versions db !! (a_skillId (ci_audit i), a_skillVersion (ci_audit i)) = None))
              ConstraintViolation;
        modify (add_audit (audit_row (ci_audit i)))
      else throw (Refused (SkillVersionConflict (Some (current_version h))))
  | None => throw (Refused (SkillVersionConflict None))
  end.

Definition commitLifecycleCommand (busy : bool) (i : CommitSkillLifecycleCommandInput)
    : StoreM ProcedureSkillVersion :=
  runInImmediateTransaction busy
    (db ← get;
     match readLifecycleReplay (c_idempotencyKey (ci_command i)) (ci_hash i) db with
     | replayed r => mret r
     | conflict v => throw (Refused (SkillIdempotencyConflict v))
     | not_found => _ ← persistLifecycleResult i; mret (ci_result i)
     end).

(** ** Calls *)
Record SkillVerificationScope := { sc_projectId : string; sc_targetId : string; sc_now : string }.

Inductive Call : Type → Type :=
  | Aborted : Call bool
  | ReplayCommand (key hash : string) : Call (outcome LifecycleError SkillLifecycleReplayResult)
  | Head (id : string) : Call (outcome LifecycleError (option Z))
  | Version (id : string) (v : Z) : Call (outcome LifecycleError (option ProcedureSkillVersion))
  | Evaluations (id : string) (v : Z) : Call (outcome LifecycleError (list SkillEvaluation))
  | Bundle (id : string) (v : Z) : Call (outcome LifecycleError (option SignedSkillBundle))
  | VerifySignature (b : SignedSkillBundle) (scope : SkillVerificationScope)
      : Call (outcome LifecycleError SkillSignatureVerification)
  | Commit (i : CommitSkillLifecycleCommandInput) : Call (outcome LifecycleError ProcedureSkillVersion)
  | SaveVersion (v : ProcedureSkillVersion) (expected : Z) (recordingId : string)
      : Call (outcome LifecycleError unit)
  | SaveEvaluation (e : SkillEvaluation) : Call (outcome LifecycleError unit)
  | SaveBundle (b : SignedSkillBundle) : Call (outcome LifecycleError unit)
  | Revoke (r : SkillRevocation) : Call (outcome LifecycleError unit).

Inductive Note :=
  | n_replay (key hash : string) (o : outcome LifecycleError SkillLifecycleReplayResult)
  | n_version (id : string) (v : Z) (o : outcome LifecycleError (option ProcedureSkillVersion))
  | n_evaluations (id : string) (v : Z) (o : outcome LifecycleError (list SkillEvaluation))
  | n_bundle (id : string) (v : Z) (o : outcome LifecycleError (option SignedSkillBundle))
  | n_signature (b : SignedSkillBundle) (scope : SkillVerificationScope)
      (o : outcome LifecycleError SkillSignatureVerification)
  | n_commit (i : CommitSkillLifecycleCommandInput) (o : outcome LifecycleError ProcedureSkillVersion)
  | n_other.

Definition note (B : Type) (e : Call B) : B → Note :=
  match e in Call B return B → Note with
  | ReplayCommand key hash => n_replay key hash
  | Version id v => n_version id v
  | Evaluations id v => n_evaluations id v
  | Bundle id v => n_bundle id v
  | VerifySignature b scope => n_signature b scope
  | Commit i => n_commit i
  | _ => λ _, n_other
  end.

Definition M := prog Call LifecycleError.
Definition call {B} (e : Call (outcome LifecycleError B)) : M B :=
  o ← ask e; lift_outcome o.

(** ** The service *)
Section service.
Context (number_text : number → string) (sha256 : string → string) (has_signer : bool).

Definition skillLifecycleCommandHash (c : SkillLifecycleCommand) : string :=
  sha256 (CanonicalJson.canonicalize number_text (JObj ([
    ("operation", JStr (operation_text (operation c))); ("skillId", JStr (c_skillId c));
    ("expectedVersion", JNum (num_of_Z (c_expectedVersion c)))] ++
    match operation c with
    | op_promote oracles => [("requiredOracles", JArr (JStr <$> sort_strings oracles))]
    | op_deprecate why => [("reason", JStr why)]
    end ++
    [("actor", JObj [("actorId", JStr (actorId (actor c))); ("tenantId", JStr (tenantId (actor c)));
                     ("roles", JArr (JStr <$> sort_strings (roles (actor c))))])]))).

(** Two statements. *)
Definition latestVersion (id : string) : M (option ProcedureSkillVersion) :=
  head ← call (Head id);
  match head with
  | None => mret None
  | Some v => call (Version id v)
  end.

Definition signatureVerification (v : ProcedureSkillVersion) (b : SignedSkillBundle) (now : string)
    : M SkillSignatureVerification :=
  if negb has_signer then mret (invalid InvalidSignature)
  else call (VerifySignature b {| sc_projectId := projectId v; sc_targetId := targetId (targetScope v);
                                  sc_now := now |}).

Definition throwIfAborted : M unit :=
  aborted ← ask Aborted; fail_if aborted (Refused SkillCommandAborted).

(** A command of the aggregate read from [current], then its snapshot. *)
Definition aggregate (current : ProcedureSkillVersion) (m : SkillM SkillTransition) : M ProcedureSkillVersion :=
  match result (_ ← m; snapshot) (fromVersion current) with
  | Ok v => mret v
  | Throw e => Fail (Refused e)
  end.

Definition base (c : SkillLifecycleCommand) : SkillCommandBase :=
  {| expectedVersion := c_expectedVersion c; idempotencyKey := c_idempotencyKey c |}.

Definition promoted_result (c : SkillLifecycleCommand) (requiredOracles : list string)
    (current : ProcedureSkillVersion) : M ProcedureSkillVersion :=
  evs ← call (Evaluations (skillId current) (version current));
  bundle ← call (Bundle (skillId current) (version current));
  match last evs with
  | None => Fail (Refused SkillVerificationFailed)
  | Some evaluation =>
      match bundle with
      | None => Fail (Refused SkillBundleMissing)
      | Some b =>
          if negb (bundleMatchesVersion b current) then Fail (Refused SkillBundleMissing)
          else
            signature ← signatureVerification current b (occurredAt c);
            match evaluate current evaluation signature requiredOracles with
            | rejected code => Fail (Refused code)
            | approved => aggregate current (promote (base c))
            end
      end
  end.

Definition commit_input (c : SkillLifecycleCommand) (hash : string) (current result : ProcedureSkillVersion)
    : CommitSkillLifecycleCommandInput :=
  let why := match operation c with op_promote _ => "promotion policy approved" | op_deprecate why => why end in
  {| ci_command := c; ci_hash := hash; previousVersion := current; ci_result := result;
     ci_audit := {| auditId := c_idempotencyKey c +:+ ":audit"; a_skillId := skillId result;
       a_skillVersion := version result; a_operation := operation_text (operation c); decision := "allowed";
       a_actor := actor c; a_reason := why; fromVersion_ := version current; fromState_ := state current;
       toState_ := state result; a_createdAt := occurredAt c |};
     ci_revocation := match operation c with
       | op_promote _ => None
       | op_deprecate _ => Some {| revocationId := c_idempotencyKey c +:+ ":revocation";
           r_skillId := skillId result; r_skillVersion := version result; reason := why;
           revokedAt := occurredAt c |}
       end |}.

Definition apply (c : SkillLifecycleCommand) : M ProcedureSkillVersion :=
  _ ← throwIfAborted;
  let commandHash := skillLifecycleCommandHash c in
  replay ← call (ReplayCommand (c_idempotencyKey c) commandHash);
  match replay with
  | replayed r => mret r
  | conflict v => Fail (Refused (SkillIdempotencyConflict v))
  | not_found =>
      found ← latestVersion (c_skillId c);
      match found with
      | None => Fail (Refused SkillNotFound)
      | Some current =>
          _ ← fail_if (negb (version current =? c_expectedVersion c)%Z)
                (Refused (SkillVersionConflict (Some (version current))));
          result ← (match operation c with
                    | op_promote oracles => promoted_result c oracles current
                    | op_deprecate _ => aggregate current (deprecate (base c))
                    end);
          _ ← throwIfAborted;
          call (Commit (commit_input c commandHash current result))
      end
  end.
End service.
End SkillLifecycle.
