(* ===== verification/SkillSafety.v ===== *)
(** * The lifecycle of stored Skills: theorems

    For any number of concurrent lifecycle commands and tools over one store of
    [SkillLifecycle]: a promoted version was verified, evaluated and signed; a
    deprecated one is revoked; a command is carried out once, and every version is
    the work of one command. *)
From S2P Require Import Prelude.
From S2P Require Import Number.
From S2P Require Import Json.
From S2P Require Import CanonicalJson.
From S2P Require Import Interact.
From S2P Require Import Skill.
From S2P Require Import SkillLifecycle.
From stdpp Require Import sorting.

Module SkillSafety.
Import Skill SkillLifecycle.

(** ** The store only grows *)
Record le (db db' : Db) : Prop := {
  le_versions : skill_versions db ⊆ skill_versions db';
  le_evaluations : ∀ e, e ∈ skill_evaluations db → e ∈ skill_evaluations db';
  le_bundles : skill_bundles db ⊆ skill_bundles db';
  le_revocations : skill_revocations db ⊆ skill_revocations db';
  le_commands : lifecycle_commands db ⊆ lifecycle_commands db';
  le_audit : audit_events db ⊆ audit_events db';
}.

Lemma le_refl db : le db db.
Proof. by split. Qed.
Lemma le_trans a b c : le a b → le b c → le a c.
Proof. intros [] []. split; try (by etrans); eauto. Qed.

Lemma le_insert {K A} `{Countable K} (m : gmap K A) k x : bool_decide (is_Some (m !! k)) = false → m ⊆ <[k := x]> m.
Proof. intros Hm%bool_decide_eq_false. apply insert_subseteq. by apply eq_None_not_Some. Qed.

Create HintDb grows.
#[export] Hint Resolve le_insert : grows.

Lemma le_head id h db : le db (set_head id h db).
Proof. by split. Qed.
Lemma le_version v row db :
  bool_decide (is_Some (skill_versions db !! (skillId v, version v))) = false → le db (add_version v row db).
Proof. intros H. split; cbn; auto with grows. Qed.
Lemma le_evaluation e db : le db (add_evaluation e db).
Proof. split; cbn; try done. intros e' He. apply elem_of_app. by left. Qed.
Lemma le_bundle b db :
  skill_bundles db !! (m_skillId (manifest b), m_skillVersion (manifest b)) = None → le db (add_bundle b db).
Proof. intros H. split; cbn; try done. by apply insert_subseteq. Qed.
Lemma le_revocation r db :
  bool_decide (is_Some (skill_revocations db !! revocationId r)) = false → le db (add_revocation r db).
Proof. intros H. split; cbn; auto with grows. Qed.
Lemma le_command key row db :
  bool_decide (is_Some (lifecycle_commands db !! key)) = false → le db (add_command key row db).
Proof. intros H. split; cbn; auto with grows. Qed.
Lemma le_audit_event a db :
  bool_decide (is_Some (audit_events db !! auditId a)) = false → le db (add_audit a db).
Proof. intros H. split; cbn; auto with grows. Qed.
#[export] Hint Resolve le_head le_version le_evaluation le_bundle le_revocation le_command le_audit_event : grows.

(** ** What a commit does *)
Definition committed (i : CommitSkillLifecycleCommandInput) (db db' : Db) : Prop :=
  let c := ci_command i in let r := ci_result i in
  le db db' ∧
  lifecycle_commands db !! c_idempotencyKey c = None ∧
  (∃ row, lifecycle_commands db' = <[c_idempotencyKey c := row]> (lifecycle_commands db) ∧
     command_hash row = ci_hash i ∧ result_json row = r ∧ result_version row = version r) ∧
  skill_versions db !! (skillId r, version r) = None ∧
  (∃ row, skill_versions db' = <[(skillId r, version r) := row]> (skill_versions db) ∧ content_json row = r) ∧
  audit_events db' !! auditId (ci_audit i) = Some (audit_row (ci_audit i)) ∧
  (∀ rev, ci_revocation i = Some rev → skill_revocations db' !! revocationId rev = Some rev).

Ltac grow :=
  repeat match goal with H : (_ || _)%bool = false |- _ => apply orb_false_iff in H as [? ?] end;
  repeat first [apply le_refl | eapply le_trans; [|solve [eauto with grows]]].

Lemma persist_committed i db :
  lifecycle_commands db !! c_idempotencyKey (ci_command i) = None →
  wp (persistLifecycleResult i) (λ _ db', committed i db db') (λ _ _, True) db.
Proof.
  intros Hkey. unfold persistLifecycleResult, insert_version. wp_run; try done.
  all: split; [grow|]; to_prop; cbn in *; split_and!;
    [done|by eexists|by apply eq_None_not_Some|by eexists|by rewrite lookup_insert_eq|].
  - intros rev E. simplify_eq. by rewrite lookup_insert_eq.
  - congruence.
Qed.

Lemma commit_cases busy i db o db' :
  commitLifecycleCommand busy i db = (o, db') →
  match o with
  | Throw _ => db' = db
  | Ok r => (db' = db ∧ ∃ row, lifecycle_commands db !! c_idempotencyKey (ci_command i) = Some row ∧
               command_hash row = ci_hash i ∧ result_json row = r) ∨
            r = ci_result i ∧ committed i db db'
  end.
Proof.
  intros H. assert (wp (commitLifecycleCommand busy i) (λ r db', (db' = db ∧ ∃ row,
      lifecycle_commands db !! c_idempotencyKey (ci_command i) = Some row ∧
      command_hash row = ci_hash i ∧ result_json row = r) ∨ r = ci_result i ∧ committed i db db')
    (λ _ db', db' = db) db) as Hwp.
  { clear H. unfold commitLifecycleCommand, runInImmediateTransaction, readLifecycleReplay.
    destruct busy; [done|]. apply wp_transaction, wp_bind, wp_get.
    destruct (lifecycle_commands db !! _) as [row|] eqn:Hrow.
    - destruct (String.eqb_spec (command_hash row) (ci_hash i)); [|done].
      apply wp_ret. left. split; [done|]. by exists row.
    - apply wp_bind. eapply wp_mono; [by apply persist_committed| |done]. intros [] db1 Hc. by right. }
  unfold wp in Hwp. rewrite H in Hwp. by destruct o.
Qed.

(** ** The other writes only grow the store *)
Lemma wp_busy {A} busy (m : StoreM A) Q (R : LifecycleError → Db → Prop) db :
  (∀ e, R e db) → wp m Q (λ _ _, True) db → wp (runInImmediateTransaction busy m) Q R db.
Proof.
  intros HR Hm. unfold runInImmediateTransaction. destruct busy; [by apply wp_throw|].
  apply wp_transaction. eapply wp_mono; [exact Hm|done|by intros].
Qed.

Lemma wp_exec {A} (m : StoreM A) (P : Db → Prop) db o db' :
  wp m (λ _, P) (λ _, P) db → m db = (o, db') → P db'.
Proof. unfold wp. intros H E. rewrite E in H. by destruct o. Qed.

(** A version written by [saveSkillVersion]. *)
Definition saved (v : ProcedureSkillVersion) (db db' : Db) : Prop :=
  le db db' ∧ lifecycle_commands db' = lifecycle_commands db ∧
  (skill_versions db' = skill_versions db ∨
   ∃ row, content_json row = v ∧ skill_versions db' = <[(skillId v, version v) := row]> (skill_versions db)).

Lemma saved_refl v db : saved v db db.
Proof. split; [apply le_refl|]. auto. Qed.

Lemma saveSkillVersion_saved now busy v expected recording db o db' :
  saveSkillVersion now busy v expected recording db = (o, db') → saved v db db'.
Proof.
  apply (wp_exec _ (saved v db)), wp_busy; [intros _; apply saved_refl|].
  unfold insert_version. wp_run; try done. split; [grow|]. split; [done|].
  right. by eexists {| source_recording_id := recording; content_json := v; row_created := now |}.
Qed.

(** The tools that write no version. *)
Definition aside (db db' : Db) : Prop :=
  le db db' ∧ lifecycle_commands db' = lifecycle_commands db ∧ skill_versions db' = skill_versions db.
Lemma aside_refl db : aside db db.
Proof. split; [apply le_refl|done]. Qed.

Lemma saveEvaluation_aside busy e db o db' : saveEvaluation busy e db = (o, db') → aside db db'.
Proof.
  apply (wp_exec _ (aside db)), wp_busy; [intros _; apply aside_refl|].
  wp_run; [apply aside_refl|split; [grow|done]].
Qed.
Lemma saveBundle_aside busy b db o db' : saveBundle busy b db = (o, db') → aside db db'.
Proof.
  apply (wp_exec _ (aside db)), wp_busy; [intros _; apply aside_refl|].
  wp_run; [apply aside_refl|done|split; [grow|done]].
Qed.
Lemma revoke_aside busy r db o db' : revoke busy r db = (o, db') → aside db db'.
Proof.
  apply (wp_exec _ (aside db)), wp_busy; [intros _; apply aside_refl|].
  apply wp_bind, wp_get. destruct (skill_revocations db !! revocationId r) as [r'|] eqn:Hr; wp_run; [apply aside_refl|].
  split; [|done]. apply le_revocation. by rewrite Hr, bool_decide_eq_false_2 by (by intros []).
Qed.

(** ** Histories *)
Section safety.
Context (number_text : number → string) (sha256 : string → string) (has_signer : bool).
Notation hash := (skillLifecycleCommandHash number_text sha256).
Notation apply := (SkillLifecycle.apply number_text sha256 has_signer).

(** What a call may be answered over the store; the signer may answer anything. *)
Definition reads {B} (f : Db → B) (db : Db) (o : outcome LifecycleError B) (db' : Db) : Prop :=
  (o = Ok (f db) ∨ o = Throw Busy) ∧ db' = db.
Definition answers (B : Type) (e : Call B) : Db → B → Db → Prop :=
  match e in Call B return Db → B → Db → Prop with
  | ReplayCommand key h => reads (readLifecycleReplay key h)
  | Head id => reads (λ db, current_version <$> skills db !! id)
  | Version id v => reads (λ db, content_json <$> skill_versions db !! (id, v))
  | Evaluations id v => reads (evaluations id v)
  | Bundle id v => reads (λ db, skill_bundles db !! (id, v))
  | Aborted | VerifySignature _ _ => λ db _ db', db' = db
  | Commit i => λ db o db', ∃ busy, commitLifecycleCommand busy i db = (o, db')
  | SaveVersion v expected recording => λ db o db', ∃ now busy, saveSkillVersion now busy v expected recording db = (o, db')
  | SaveEvaluation e => λ db o db', ∃ busy, saveEvaluation busy e db = (o, db')
  | SaveBundle b => λ db o db', ∃ busy, saveBundle busy b db = (o, db')
  | Revoke r => λ db o db', ∃ busy, revoke busy r db = (o, db')
  end.
Definition midway (B : Type) (e : Call B) (db db' : Db) : Prop := False.

(** What a note says of the store, for good. *)
Definition holds (db : Db) (n : Note) : Prop :=
  match n with
  | n_replay key h (Ok (replayed r)) =>
      ∃ row, lifecycle_commands db !! key = Some row ∧ command_hash row = h ∧ result_json row = r
  | n_version id v (Ok (Some pv)) => ∃ row, skill_versions db !! (id, v) = Some row ∧ content_json row = pv
  | n_evaluations id v (Ok l) =>
      ∀ e, e ∈ l → e ∈ skill_evaluations db ∧ ev_skillId e = id ∧ skillVersion e = v
  | n_bundle id v (Ok (Some b)) => skill_bundles db !! (id, v) = Some b
  | n_commit i (Ok r) => ∃ row, lifecycle_commands db !! c_idempotencyKey (ci_command i) = Some row ∧
      command_hash row = ci_hash i ∧ result_json row = r
  | _ => True
  end.

Lemma holds_mono db db' n : le db db' → holds db n → holds db' n.
Proof.
  intros L. destruct n as [key h [[|r|v]|e]|id v [[pv|]|e]|id v [l|e]|id v [[b|]|e]|b sc o|i [r|e]|]; cbn; try done.
  - intros (row & Hr & H). exists row. split; [|done]. by eapply lookup_weaken, L.
  - intros (row & Hr & H). exists row. split; [|done]. by eapply lookup_weaken, L.
  - intros H e He. destruct (H e He) as (? & ? & ?). split_and!; [by apply L|done..].
  - intros H. by eapply lookup_weaken, L.
  - intros (row & Hr & H). exists row. split; [|done]. by eapply lookup_weaken, L.
Qed.

Lemma answers_le B (e : Call B) db b db' : answers B e db b db' → le db db'.
Proof.
  destruct e; cbn; try (intros ->; apply le_refl); try (intros [_ ->]; apply le_refl).
  - intros [busy H]. apply commit_cases in H. destruct b as [r|x]; [|subst; apply le_refl].
    destruct H as [[-> _]|[_ [? _]]]; [apply le_refl|done].
  - intros (now & busy & H). by apply saveSkillVersion_saved in H as [? _].
  - intros (busy & H). by apply saveEvaluation_aside in H as [? _].
  - intros (busy & H). by apply saveBundle_aside in H as [? _].
  - intros (busy & H). by apply revoke_aside in H as [? _].
Qed.

Lemma evaluations_elem id v db e :
  e ∈ evaluations id v db → e ∈ skill_evaluations db ∧ ev_skillId e = id ∧ skillVersion e = v.
Proof.
  unfold evaluations. rewrite merge_sort_Permutation, list_elem_of_filter. naive_solver.
Qed.

Lemma answers_holds B (e : Call B) db b db' : answers B e db b db' → holds db' (note B e b).
Proof.
  destruct e; cbn; try done.
  - intros [[-> | ->] ->]; [|done]. unfold readLifecycleReplay.
    destruct (lifecycle_commands db !! key) as [row|] eqn:Hr; [|done].
    destruct (String.eqb_spec (command_hash row) hash); [|done]. by exists row.
  - intros [[-> | ->] ->]; [|done]. destruct (skill_versions db !! (id, v)) as [row|] eqn:Hr; [|done].
    by exists row.
  - intros [[-> | ->] ->]; [|done]. intros e. apply evaluations_elem.
  - intros [[-> | ->] ->]; [|done]. by destruct (skill_bundles db !! (id, v)).
  - intros [busy H]. apply commit_cases in H. destruct b as [r|x]; [|done].
    destruct H as [[-> (row & Hr & H)]|[-> (_ & _ & (row & Hr & H1 & H2 & _) & _)]].
    + exists row. by split.
    + exists row. rewrite Hr, lookup_insert_eq. by split.
Qed.

(** ** What a command may write *)

(** The next version of [cur], in state [st]. *)
Definition moved (cur : ProcedureSkillVersion) (st : SkillState) : ProcedureSkillVersion :=
  {| skillId := skillId cur; version := version cur + 1; state := st; projectId := projectId cur;
     targetScope := targetScope cur; content := content cur |}.

Definition warranted (c : SkillLifecycleCommand) (cur : ProcedureSkillVersion) (h : list Note) (st : SkillState) : Prop :=
  match operation c with
  | op_promote required =>
      st = promoted ∧ state cur = verified ∧ ∃ evs e b scope,
        n_evaluations (skillId cur) (version cur) (Ok evs) ∈ h ∧ last evs = Some e ∧
        outcome_ e = passed ∧ signatureValid e = true ∧ (∀ o, o ∈ required → o ∈ passedOracles e) ∧
        n_bundle (skillId cur) (version cur) (Ok (Some b)) ∈ h ∧ bundleMatchesVersion b cur = true ∧
        n_signature b scope (Ok valid) ∈ h ∧
        sc_projectId scope = projectId cur ∧ sc_targetId scope = targetId (targetScope cur)
  | op_deprecate _ => st = deprecated ∧ state cur ≠ deprecated
  end.

Definition permitted (B : Type) (h : list Note) (e : Call B) : Prop :=
  match e with
  | Commit i => ∃ c cur st v, i = commit_input c (hash c) cur (moved cur st) ∧
      n_version (c_skillId c) v (Ok (Some cur)) ∈ h ∧ version cur = c_expectedVersion c ∧ warranted c cur h st
  | SaveVersion v _ _ => state v ≠ promoted ∧ state v ≠ deprecated
  | _ => True
  end.

Lemma warranted_more c cur l h st : warranted c cur h st → warranted c cur (l ++ h) st.
Proof.
  unfold warranted. destruct (operation c); [|done].
  intros (? & ? & evs & e & b & scope & H). split; [done|]. split; [done|]. exists evs, e, b, scope. set_solver.
Qed.

Notation tri := (@Interact.tri Call LifecycleError Note note (λ _ _ _, True) permitted _).

Lemma tri_call {B} (e : Call (outcome LifecycleError B)) Q h :
  permitted _ h e → (∀ b, Q (Ok b) (note _ e (Ok b) :: h)) → (∀ x h', Q (Throw x) h') → tri (call e) Q h.
Proof. intros He HQ HX. apply tri_bind, tri_ask; [done|]. intros [b|x] _; [apply HQ|apply HX]. Qed.

Ltac elem := solve [repeat first [apply list_elem_of_here | apply list_elem_of_further]].

Lemma aggregate_promote c cur :
  state cur = verified → version cur = c_expectedVersion c →
  aggregate cur (promote (base c)) = Ret (moved cur promoted).
Proof.
  intros Hs Hv. unfold aggregate, promote, transition, replayIfIdempotent, assertExpectedVersion, commit, snapshot,
    throw_if, result, mbind, js_bind, get, put, mret, js_ret. cbn.
  rewrite lookup_empty. cbn. rewrite Hs, bool_decide_eq_true_2 by done. cbn.
  rewrite <- Hv, Z.eqb_refl. cbn. rewrite Hs, bool_decide_eq_true_2 by done. done.
Qed.

Lemma aggregate_deprecate c cur Q h :
  version cur = c_expectedVersion c →
  (state cur ≠ deprecated → Q (Ok (moved cur deprecated)) h) → (∀ x h', Q (Throw x) h') →
  tri (aggregate cur (deprecate (base c))) Q h.
Proof.
  intros Hv HQ HX. unfold aggregate, deprecate, applyTransition, replayIfIdempotent, assertExpectedVersion, commit, snapshot,
    throw_if, result, mbind, js_bind, get, put, mret, js_ret. cbn.
  case_bool_decide; cbn; [rewrite lookup_empty; cbn; apply HX|]. rewrite <- Hv, Z.eqb_refl. cbn. by apply HQ.
Qed.

Lemma evaluate_approved v e s required :
  evaluate v e s required = approved →
  state v = verified ∧ s = valid ∧ outcome_ e = passed ∧ signatureValid e = true ∧
  ∀ o, o ∈ required → o ∈ passedOracles e.
Proof.
  unfold evaluate. case_bool_decide; [|done]. destruct s; [|done]. cbn. case_bool_decide; [|done]. cbn.
  destruct (signatureValid e); [|done]. cbn. destruct (existsb _ _) eqn:Hex; [done|]. intros _. split_and!; try done.
  intros o Ho. destruct (decide (o ∈ passedOracles e)) as [|Hn]; [done|]. exfalso.
  apply not_true_iff_false in Hex. apply Hex, existsb_exists. exists o. split; [by apply list_elem_of_In|].
  by rewrite bool_decide_eq_false_2.
Qed.

(** What a command answered. *)
Definition answered (c : SkillLifecycleCommand) (r : ProcedureSkillVersion) (h : list Note) : Prop :=
  n_replay (c_idempotencyKey c) (hash c) (Ok (replayed r)) ∈ h ∨
  ∃ i, ci_command i = c ∧ ci_hash i = hash c ∧ n_commit i (Ok r) ∈ h.

Lemma tri_promoted_result c required cur h (Q : outcome LifecycleError ProcedureSkillVersion → list Note → Prop) :
  operation c = op_promote required → version cur = c_expectedVersion c →
  (∀ l, warranted c cur (l ++ h) promoted → Q (Ok (moved cur promoted)) (l ++ h)) →
  (∀ x h', Q (Throw x) h') →
  tri (promoted_result has_signer c required cur) Q h.
Proof.
  intros Hop Hv HQ HX. unfold promoted_result. apply tri_bind, tri_call; [done| |done]. intros evs.
  apply tri_bind, tri_call; [done| |done]. intros bundle. destruct (last evs) as [e|] eqn:Hlast; [|apply tri_fail, HX].
  destruct bundle as [b|]; [|apply tri_fail, HX].
  destruct (bundleMatchesVersion b cur) eqn:Hb; [|apply tri_fail, HX]. cbn [negb].
  unfold signatureVerification. destruct has_signer; cbn [negb].
  - apply tri_bind, tri_call; [done| |done]. intros s.
    destruct (evaluate cur e s required) as [|code] eqn:Hev; [|apply tri_fail, HX].
    apply evaluate_approved in Hev as (Hs & -> & Ho & Hsig & Hreq). rewrite aggregate_promote by done.
    apply tri_ret. cbn [note]. match goal with |- Q _ (n_signature b ?sc ?o :: ?n2 :: ?n3 :: h) => apply (HQ [n_signature b sc o; n2; n3]) end.
    unfold warranted. rewrite Hop. split_and!; [done..|].
    eexists evs, e, b, _. cbn [app]. split_and!; try done; try elem; done.
  - apply tri_bind, tri_ret. destruct (evaluate cur e _ required) as [|code] eqn:Hev; [|apply tri_fail, HX].
    by apply evaluate_approved in Hev as (_ & ? & _).
Qed.

Lemma tri_apply c : tri (apply c) (λ o h, match o with Ok r => answered c r h | Throw _ => True end) [].
Proof.
  unfold SkillLifecycle.apply. apply tri_bind, tri_bind, tri_ask; [done|]. intros aborted _.
  apply tri_fail_if; [done|]. intros _. cbv zeta. apply tri_bind, tri_call; [done| |done]. intros [|r|v]; [|left; set_solver|done].
  apply tri_bind. unfold latestVersion. apply tri_bind, tri_call; [done| |done]. intros [v|]; [|done].
  apply tri_call; [done| |done]. intros [cur|]; [|done].
  apply tri_bind, tri_fail_if; [done|]. intros Hv%negb_false_iff%Z.eqb_eq.
  match goal with |- context [note _ (Version (c_skillId c) v) _ :: ?hh] => set (h0 := hh) end.
  assert (∀ st l, warranted c cur (l ++ note _ (Version (c_skillId c) v) (Ok (Some cur)) :: h0) st →
    tri (_ ← throwIfAborted; call (Commit (commit_input c (hash c) cur (moved cur st))))
      (λ o h, match o with Ok r => answered c r h | Throw _ => True end)
      (l ++ note _ (Version (c_skillId c) v) (Ok (Some cur)) :: h0)) as Hend.
  { intros st l Hw. apply tri_bind, tri_bind, tri_ask; [done|]. intros again _. apply tri_fail_if; [done|]. intros _.
    apply tri_call; [| |done].
    - exists c, cur, st, v. split_and!; [done|set_solver|done|]. by apply (warranted_more c cur [n_other]).
    - intros r. right. eexists. split_and!; [| |apply elem_of_cons; by left]; done. }
  destruct (operation c) as [required|why] eqn:Hop.
  - eapply tri_bind, tri_promoted_result; [done|done| |done]. intros l Hw. by apply Hend.
  - apply tri_bind, aggregate_deprecate; [done| |done]. intros Hs. apply (Hend deprecated []).
    unfold warranted. by rewrite Hop.
Qed.

(** ** Many commands over one store *)

(** A command, which returns what it was answered, or a tool that saves a version,
    an evaluation or a Bundle, or revokes; no tool saves a version as promoted or
    deprecated. *)
Definition Result : Type := option (SkillLifecycleCommand * ProcedureSkillVersion).
Definition startable (p : prog Call LifecycleError Result) : Prop :=
  (∃ c, p = (r ← apply c; mret (Some (c, r)))) ∨
  (∃ v expected recording, state v ≠ promoted ∧ state v ≠ deprecated ∧
     p = (_ ← call (SaveVersion v expected recording); mret None)) ∨
  (∃ e, p = (_ ← call (SaveEvaluation e); mret None)) ∨
  (∃ b, p = (_ ← call (SaveBundle b); mret None)) ∨
  (∃ r, p = (_ ← call (Revoke r); mret None)).

Notation system := (@sched_state Call LifecycleError Note Db Result).
Notation step := (sched note answers midway startable).

(** A returned command was answered. *)
Definition returned (o : outcome LifecycleError Result) (h : list Note) : Prop :=
  match o with Ok (Some (c, r)) => answered c r h | _ => True end.

Lemma tri_startable p : startable p → tri p returned [].
Proof.
  intros [(c & ->)|[(v & expected & recording & Hp & Hd & ->)|[(e & ->)|[(b & ->)|(r & ->)]]]].
  - apply tri_bind. eapply tri_mono; [apply tri_apply|]. by intros [r|x] h.
  - by apply tri_bind, tri_call.
  - by apply tri_bind, tri_call.
  - by apply tri_bind, tri_call.
  - by apply tri_bind, tri_call.
Qed.

(** A note of some process. *)
Definition seen (st : system) (n : Note) : Prop := ∃ i p h, processes st !! i = Some (p, h) ∧ n ∈ h.

(** What a promoted version rests on: the version before it was verified; an
    evaluation of that version passed, with a valid signature and every oracle the
    command requires; its Bundle matches it, and the signer found the Bundle's
    signature valid for its project and target; the command is on record with this
    result, and so is its audit event. *)
Record Promoted (st : system) (r : ProcedureSkillVersion) : Prop := {
  pr_grounds : ∃ c required prev row e b scope,
    skill_versions (shared st) !! (skillId r, version r - 1)%Z = Some row ∧ content_json row = prev ∧
    state prev = verified ∧ r = moved prev promoted ∧
    e ∈ skill_evaluations (shared st) ∧ ev_skillId e = skillId prev ∧ skillVersion e = version prev ∧
    outcome_ e = passed ∧ signatureValid e = true ∧
    operation c = op_promote required ∧ (∀ o, o ∈ required → o ∈ passedOracles e) ∧
    skill_bundles (shared st) !! (skillId prev, version prev) = Some b ∧ bundleMatchesVersion b prev = true ∧
    seen st (n_signature b scope (Ok valid)) ∧
    sc_projectId scope = projectId prev ∧ sc_targetId scope = targetId (targetScope prev) ∧
    (∃ row, lifecycle_commands (shared st) !! c_idempotencyKey c = Some row ∧
       command_hash row = hash c ∧ result_json row = r) ∧
    audit_events (shared st) !! (c_idempotencyKey c +:+ ":audit") =
      Some (audit_row (ci_audit (commit_input c (hash c) prev r)));
}.

(** A deprecated version is revoked. *)
Definition Revoked (st : system) (r : ProcedureSkillVersion) : Prop :=
  ∃ key rev, skill_revocations (shared st) !! key = Some rev ∧
    r_skillId rev = skillId r ∧ r_skillVersion rev = version r.

Record Global (st : system) : Prop := {
  gl_holds : Forall (λ ph, Forall (holds (shared st)) ph.2) (processes st);
  gl_rows : ∀ id v row, skill_versions (shared st) !! (id, v) = Some row →
    skillId (content_json row) = id ∧ version (content_json row) = v;
  gl_promoted : ∀ key row, skill_versions (shared st) !! key = Some row →
    state (content_json row) = promoted → Promoted st (content_json row);
  gl_deprecated : ∀ key row, skill_versions (shared st) !! key = Some row →
    state (content_json row) = deprecated → Revoked st (content_json row);
  gl_commands : ∀ key row, lifecycle_commands (shared st) !! key = Some row →
    is_Some (skill_versions (shared st) !! (skillId (result_json row), version (result_json row)));
  gl_unique : ∀ k1 k2 r1 r2, lifecycle_commands (shared st) !! k1 = Some r1 →
    lifecycle_commands (shared st) !! k2 = Some r2 →
    skillId (result_json r1) = skillId (result_json r2) →
    version (result_json r1) = version (result_json r2) → k1 = k2;
}.

(** The grounds of a version stay. *)
Definition later (st st' : system) : Prop :=
  le (shared st) (shared st') ∧ ∀ n, seen st n → seen st' n.

Lemma later_promoted st st' r : later st st' → Promoted st r → Promoted st' r.
Proof.
  intros [L Hs] [(c & required & prev & row & e & b & scope & H1 & H2 & H3 & H4 & H5 & H6 & H7 & H8 & H9 & H10 &
    H11 & H12 & H13 & H14 & H15 & H16 & (crow & H17 & H18 & H19) & H20)].
  split. exists c, required, prev, row, e, b, scope. split_and!; try done.
  - by eapply lookup_weaken, L.
  - by apply L.
  - by eapply lookup_weaken, L.
  - by apply Hs.
  - exists crow. split; [|done]. by eapply lookup_weaken, L.
  - by eapply lookup_weaken, L.
Qed.

Lemma later_revoked st st' r : later st st' → Revoked st r → Revoked st' r.
Proof. intros [L _] (key & rev & H & ?). exists key, rev. split; [|done]. by eapply lookup_weaken, L. Qed.

Lemma step_later st st' : step st st' → later st st'.
Proof.
  intros Hs. split.
  - eapply (sched_le note answers midway startable le le_refl answers_le); [by intros ? ? ? ? []|exact Hs].
  - intros n (i & p & h & Hi & Hn). destruct (sched_history _ _ _ _ _ _ _ _ _ Hi Hs) as (p' & l & Hi').
    exists i, p', (l ++ h). split; [done|]. set_solver.
Qed.

Lemma skill_global_same st st' :
  later st st' → Forall (λ ph, Forall (holds (shared st')) ph.2) (processes st') →
  skill_versions (shared st') = skill_versions (shared st) →
  lifecycle_commands (shared st') = lifecycle_commands (shared st) → Global st → Global st'.
Proof.
  intros L Hh Hv Hc [G1 G2 G3 G4 G5 G6]. split; rewrite ?Hv, ?Hc; try done.
  - intros key row Hr Hs. eapply later_promoted; [done|by eapply G3].
  - intros key row Hr Hs. eapply later_revoked; [done|by eapply G4].
Qed.

(** A row is written for version [v], and nothing is yet recorded of it. *)
Lemma global_row st st' v row :
  later st st' → Forall (λ ph, Forall (holds (shared st')) ph.2) (processes st') →
  content_json row = v → skill_versions (shared st') = <[(skillId v, version v) := row]> (skill_versions (shared st)) →
  (state v = promoted → Promoted st' v) → (state v = deprecated → Revoked st' v) →
  (∀ key crow, lifecycle_commands (shared st') !! key = Some crow →
     lifecycle_commands (shared st) !! key = Some crow ∨ result_json crow = v) →
  (∀ k1 k2 r1 r2, lifecycle_commands (shared st') !! k1 = Some r1 → lifecycle_commands (shared st') !! k2 = Some r2 →
     skillId (result_json r1) = skillId (result_json r2) →
     version (result_json r1) = version (result_json r2) → k1 = k2) →
  Global st → Global st'.
Proof.
  intros L Hh Hrow Hv Hp Hd Hc Hu [G1 G2 G3 G4 G5 G6]. split; [done| | | | |done].
  - intros id n r. rewrite Hv, lookup_insert_Some. intros [[[= <- <-] <-]|[_ H]]; [by rewrite Hrow|by apply G2].
  - intros key r. rewrite Hv, lookup_insert_Some. intros [[_ <-]|[_ H]] Hs; [rewrite Hrow in *; by apply Hp|].
    eapply later_promoted; [done|by eapply G3].
  - intros key r. rewrite Hv, lookup_insert_Some. intros [[_ <-]|[_ H]] Hs; [rewrite Hrow in *; by apply Hd|].
    eapply later_revoked; [done|by eapply G4].
  - intros key crow Hcr. rewrite Hv. destruct (Hc _ _ Hcr) as [Ho| ->].
    + destruct (G5 _ _ Ho) as [r' Hr']. destruct (decide ((skillId v, version v) =
        (skillId (result_json crow), version (result_json crow)))) as [-> |].
      * rewrite lookup_insert_eq. by eexists.
      * rewrite lookup_insert_ne by done. by eexists.
    + rewrite lookup_insert_eq. by eexists.
Qed.

(** The commit of a permitted command. *)
Lemma global_commit st st' i p h i' :
  later st st' → Forall (λ ph, Forall (holds (shared st')) ph.2) (processes st') →
  processes st !! i = Some (p, h) → permitted _ h (Commit i') →
  committed i' (shared st) (shared st') → Global st → Global st'.
Proof.
  intros L Hh Hi (c & cur & s & v & -> & Hcur & Hver & Hw)
    (_ & Hkey & (crow & Hcs & Hhash & Hres & _) & Hnone & (row & Hvs & Hrow) & Haud & Hrev) G.
  cbn [ci_command ci_hash ci_result ci_revocation commit_input] in Hkey, Hcs, Hhash, Hres, Hnone, Hvs, Hrow, Hrev.
  assert (∀ n, n ∈ h → holds (shared st) n) as Hnotes.
  { pose proof (gl_holds _ G) as Hall. rewrite Forall_lookup in Hall. specialize (Hall _ _ Hi). cbn in Hall.
    by rewrite Forall_forall in Hall. }
  destruct (Hnotes _ Hcur) as (row0 & Hr0 & Hc0). destruct (gl_rows _ G _ _ _ Hr0) as [Hid Hv0].
  rewrite Hc0 in Hid, Hv0. subst v.
  assert (skill_versions (shared st') !! (skillId cur, version cur) = Some row0) as Hr0'.
  { rewrite Hid. by eapply lookup_weaken, L. }
  eapply (global_row st st' (moved cur s) row); try done.
  - intros Hs. unfold warranted in Hw. destruct (operation c) as [required|why] eqn:Hop; [|by destruct Hw as [-> _]].
    destruct Hw as (-> & Hst & evs & e & b & scope & He & Hlast & Hout & Hsig & Hreq & Hb & Hm & Hsn & Hsc1 & Hsc2).
    assert (e ∈ evs) as Hin by (by apply last_Some_elem_of).
    destruct (Hnotes _ He e Hin) as (Hdb & He1 & He2).
    split. exists c, required, cur, row0, e, b, scope. cbn [skillId version moved].
    replace (version cur + 1 - 1)%Z with (version cur) by lia. split_and!; try done.
    + by apply L.
    + eapply lookup_weaken; [by apply (Hnotes _ Hb)|apply L].
    + apply L. by exists i, p, h.
    + exists crow. rewrite Hcs, lookup_insert_eq. by split_and!.
  - intros Hs. unfold warranted in Hw. destruct (operation c) as [required|why] eqn:Hop; [by destruct Hw as [-> _]|].
    specialize (Hrev _ eq_refl). eexists _, _. by split.
  - intros key cr. rewrite Hcs, lookup_insert_Some. intros [[_ <-]|[_ H]]; [by right|by left].
  - intros k1 k2 r1 r2. rewrite Hcs, !lookup_insert_Some. intros [[<- <-]|[_ H1]] [[<- <-]|[_ H2]] E1 E2; [done| | |].
    + exfalso. rewrite Hres in E1, E2. destruct (gl_commands _ G _ _ H2) as [? Hx]. by rewrite <- E1, <- E2, Hnone in Hx.
    + exfalso. rewrite Hres in E1, E2. destruct (gl_commands _ G _ _ H1) as [? Hx]. by rewrite E1, E2, Hnone in Hx.
    + by eapply (gl_unique _ G).
Qed.

Notation obeys := (λ ph : prog Call LifecycleError Result * list Note,
  Interact.tri note (λ _ _ _, True) permitted ph.1 returned ph.2).

Lemma skill_global_step st st' : Global st → Forall obeys (processes st) → step st st' → Global st'.
Proof.
  intros G Hob Hs. pose proof (step_later _ _ Hs) as L.
  assert (Forall (λ ph, Forall (holds (shared st')) ph.2) (processes st')) as Hh.
  { eapply (sched_holds note answers midway startable le holds le_refl holds_mono answers_le);
      [by intros ? ? ? ? []|apply answers_holds|apply G|exact Hs]. }
  destruct Hs as [p s l Hp|B i e k h s s' l Hi Ha|B i e k h b s s' l Hi Ha]; [by eapply skill_global_same|done|].
  rewrite Forall_lookup in Hob. destruct (Hob _ _ Hi) as [Hperm _]. cbn [shared] in *.
  destruct e; cbn in Ha; try (subst s'; by eapply skill_global_same); try (destruct Ha as [_ ->]; by eapply skill_global_same).
  - destruct Ha as [busy Ha]. apply commit_cases in Ha. destruct b as [r|x]; [|subst; by eapply skill_global_same].
    destruct Ha as [[-> _]|[_ Hc]]; [by eapply skill_global_same|]. by eapply global_commit.
  - destruct Ha as (now & busy & Ha). apply saveSkillVersion_saved in Ha as (_ & Hc & [Hv|(row & Hrow & Hv)]);
      [by eapply skill_global_same|]. destruct Hperm as [Hp Hd]. eapply global_row; try done; cbn [shared].
    + intros key crow. rewrite Hc. by left.
    + rewrite Hc. apply (gl_unique _ G).
  - destruct Ha as [busy Ha]. apply saveEvaluation_aside in Ha as (_ & ? & ?). by eapply skill_global_same.
  - destruct Ha as [busy Ha]. apply saveBundle_aside in Ha as (_ & ? & ?). by eapply skill_global_same.
  - destruct Ha as [busy Ha]. apply revoke_aside in Ha as (_ & ? & ?). by eapply skill_global_same.
Qed.

(** An empty store, and no calls yet. *)
Definition initial (st : system) : Prop :=
  shared st = {| skills := ∅; skill_versions := ∅; skill_evaluations := []; skill_bundles := ∅;
                 skill_revocations := ∅; lifecycle_commands := ∅; audit_events := ∅ |} ∧ processes st = [].

Lemma skill_system_safe st0 st : initial st0 → rtc step st0 st → Global st ∧ Forall obeys (processes st).
Proof.
  intros [Hdb Hps] Hr. revert st Hr. apply (rtc_ind_r (R := step) (λ st, Global st ∧ Forall obeys (processes st)) st0).
  - rewrite Hps. split; [|constructor]. split; rewrite ?Hps, ?Hdb; [constructor|..]; cbn; intros *;
      rewrite lookup_empty; done.
  - intros x y _ Hs [G Hob]. split; [by eapply skill_global_step|].
    eapply sched_tri; [by intros|apply tri_startable|exact Hob|exact Hs].
Qed.

(** C28: Any number of lifecycle commands and tools run over one store, and each may
    crash at any call: a promoted version was verified, its evaluation passed every
    oracle the command requires, its Bundle matches it and the signer found it
    valid, and the command and its audit event are on record; a deprecated version
    is revoked. *)
Theorem promotion_justified st0 st id v row :
  initial st0 → rtc step st0 st → skill_versions (shared st) !! (id, v) = Some row →
  (state (content_json row) = promoted → Promoted st (content_json row)) ∧
  (state (content_json row) = deprecated → Revoked st (content_json row)).
Proof.
  intros H0 Hr Hrow. destruct (skill_system_safe _ _ H0 Hr) as [G _]. split; [by eapply gl_promoted|by eapply gl_deprecated].
Qed.

(** A returned command is on record. *)
Lemma returned_recorded st0 st i c r h :
  initial st0 → rtc step st0 st → processes st !! i = Some (Ret (Some (c, r)), h) →
  ∃ row, lifecycle_commands (shared st) !! c_idempotencyKey c = Some row ∧ command_hash row = hash c ∧ result_json row = r.
Proof.
  intros H0 Hr Hi. destruct (skill_system_safe _ _ H0 Hr) as [G Hob].
  rewrite Forall_lookup in Hob. pose proof (Hob _ _ Hi) as Ha. cbn in Ha.
  pose proof (gl_holds _ G) as Hall. rewrite Forall_lookup in Hall. specialize (Hall _ _ Hi). cbn in Hall.
  rewrite Forall_forall in Hall. destruct Ha as [Hn|(i' & <- & <- & Hn)]; exact (Hall _ Hn).
Qed.

(** *** The hash determines the command

    Up to the order of the roles and of the required oracles. *)
Definition same_operation (o1 o2 : SkillLifecycleOperation) : Prop :=
  match o1, o2 with
  | op_promote l1, op_promote l2 => l1 ≡ₚ l2
  | op_deprecate why1, op_deprecate why2 => why1 = why2
  | _, _ => False
  end.
Record same_command (c1 c2 : SkillLifecycleCommand) : Prop := {
  sc_skill : c_skillId c1 = c_skillId c2;
  sc_version : c_expectedVersion c1 = c_expectedVersion c2;
  sc_actor : actorId (actor c1) = actorId (actor c2);
  sc_tenant : tenantId (actor c1) = tenantId (actor c2);
  sc_roles : roles (actor c1) ≡ₚ roles (actor c2);
  sc_operation : same_operation (operation c1) (operation c2);
}.
(** What the routes check of the version a command expects. *)
Definition safe_version (c : SkillLifecycleCommand) : Prop :=
  (1 <= c_expectedVersion c <= max_safe_integer)%Z.

Lemma sort_strings_perm l : sort_strings l ≡ₚ l.
Proof.
  unfold sort_strings. rewrite CanonicalJson.sort_fields_perm. rewrite <- list_fmap_compose.
  induction l as [|s l IH]; [done|]. cbn. by f_equiv.
Qed.

#[local] Arguments num_of_Z : simpl never.
#[local] Arguments sort_strings : simpl never.

Lemma safe_num_of_Z z : (1 <= z <= max_safe_integer)%Z → CanonicalJson.safe (num_of_Z z) = true.
Proof.
  intros Hz. apply bool_decide_eq_true. exists z. apply safe_integer_of_Z. lia.
Qed.

Lemma strings_numbered l : CanonicalJson.numbered CanonicalJson.safe (JArr (JStr <$> l)) = true.
Proof. cbn. by induction l. Qed.

Definition actor_json (a : SkillLifecycleActorContext) : json :=
  JObj [("actorId", JStr (actorId a)); ("tenantId", JStr (tenantId a));
        ("roles", JArr (JStr <$> sort_strings (roles a)))].
Definition command_json (c : SkillLifecycleCommand) : json :=
  JObj ([("operation", JStr (operation_text (operation c))); ("skillId", JStr (c_skillId c));
    ("expectedVersion", JNum (num_of_Z (c_expectedVersion c)))] ++
    match operation c with
    | op_promote oracles => [("requiredOracles", JArr (JStr <$> sort_strings oracles))]
    | op_deprecate why => [("reason", JStr why)]
    end ++ [("actor", actor_json (actor c))]).

Lemma hash_of_json c : hash c = sha256 (CanonicalJson.canonicalize number_text (command_json c)).
Proof. done. Qed.

Lemma command_json_safe c : safe_version c → CanonicalJson.numbered CanonicalJson.safe (command_json c) = true.
Proof.
  intros Hc%safe_num_of_Z. destruct c as [s v k [a t r] at_ [l|why]]; cbn -[CanonicalJson.safe] in *;
    rewrite Hc; cbn; rewrite ?andb_true_r; [apply andb_true_iff; split|];
    match goal with |- forallb _ (JStr <$> ?l) = true => exact (strings_numbered l) end.
Qed.

Lemma command_json_inj c1 c2 :
  CanonicalJson.normalize (command_json c1) = CanonicalJson.normalize (command_json c2) → same_command c1 c2.
Proof.
  intros H. pose proof (λ k, CanonicalJson.get_field_normalize k _ _ H) as Hf. clear H.
  pose proof (Hf "actor") as Ha. pose proof (Hf "requiredOracles") as Ho.
  destruct c1 as [s1 v1 k1 a1 at1 o1], c2 as [s2 v2 k2 a2 at2 o2].
  assert (same_operation o1 o2) as Hop.
  { destruct o1 as [l1|w1], o2 as [l2|w2]; cbn [same_operation].
    - apply (inj Some (CanonicalJson.normalize (JArr (JStr <$> sort_strings l1)))
        (CanonicalJson.normalize (JArr (JStr <$> sort_strings l2)))) in Ho.
      apply CanonicalJson.strings_inj in Ho. by rewrite <- (sort_strings_perm l1), <- (sort_strings_perm l2), Ho.
    - done.
    - done.
    - CanonicalJson.fields Hf ["reason"]. CanonicalJson.same_fields. }
  assert (CanonicalJson.normalize (actor_json a1) = CanonicalJson.normalize (actor_json a2)) as Hact.
  { destruct o1, o2; try done; by apply (inj Some). }
  assert (s1 = s2 ∧ v1 = v2) as [-> ->].
  { destruct o1, o2; try done; CanonicalJson.fields Hf ["skillId"; "expectedVersion"]; split; try congruence;
      apply num_of_Z_inj; congruence. }
  clear Hf Ha Ho. pose proof (λ k, CanonicalJson.get_field_normalize k _ _ Hact) as Hf.
  pose proof (Hf "roles") as Hr. apply (inj Some (CanonicalJson.normalize (JArr (JStr <$> sort_strings (roles a1))))
    (CanonicalJson.normalize (JArr (JStr <$> sort_strings (roles a2))))) in Hr. apply CanonicalJson.strings_inj in Hr.
  CanonicalJson.fields Hf ["actorId"; "tenantId"]. split; cbn; try done; try congruence.
  by rewrite <- (sort_strings_perm (roles a1)), <- (sort_strings_perm (roles a2)), Hr.
Qed.

(** The text of the language is prefix-free on such payloads, so equal hashes are of
    the same command or a collision. *)
Lemma command_hash_inj c1 c2 :
  CanonicalJson.integers_written number_text → safe_version c1 → safe_version c2 → hash c1 = hash c2 →
  same_command c1 c2 ∨ CanonicalJson.collision sha256.
Proof.
  intros Hw H1 H2. rewrite !hash_of_json. intros [H|H]%CanonicalJson.digest_inj; [left|by right].
  apply command_json_inj. by apply CanonicalJson.canonicalize_safe_inj in H; try apply command_json_safe.
Qed.

(** C29: A lifecycle command is carried out once: whoever repeats its idempotency key
    and is answered is answered the same version; and with the versions the routes
    let through it sent the same command, of the same actor with the same roles, on
    the same Skill at the same version, with the same operation and the same required
    oracles or reason, unless the two exhibit a collision of SHA-256. *)
Theorem command_carried_out_once st0 st i j c1 c2 r1 r2 h1 h2 :
  initial st0 → rtc step st0 st →
  processes st !! i = Some (Ret (Some (c1, r1)), h1) → processes st !! j = Some (Ret (Some (c2, r2)), h2) →
  c_idempotencyKey c1 = c_idempotencyKey c2 →
  r1 = r2 ∧
  (CanonicalJson.integers_written number_text → safe_version c1 → safe_version c2 →
   same_command c1 c2 ∨ CanonicalJson.collision sha256).
Proof.
  intros H0 Hr Hi Hj E. destruct (returned_recorded _ _ _ _ _ _ H0 Hr Hi) as (row1 & Hr1 & Hh1 & <-).
  destruct (returned_recorded _ _ _ _ _ _ H0 Hr Hj) as (row2 & Hr2 & Hh2 & <-).
  rewrite E in Hr1. simplify_eq. split; [done|]. intros Hw H1 H2. apply command_hash_inj; [done..|congruence].
Qed.

(** A version of a Skill is the work of one command: of concurrent commands that
    expect the same version, at most one is answered with a new one. *)
Theorem version_of_one_command st0 st i j c1 c2 r1 r2 h1 h2 :
  initial st0 → rtc step st0 st →
  processes st !! i = Some (Ret (Some (c1, r1)), h1) → processes st !! j = Some (Ret (Some (c2, r2)), h2) →
  skillId r1 = skillId r2 → version r1 = version r2 → c_idempotencyKey c1 = c_idempotencyKey c2.
Proof.
  intros H0 Hr Hi Hj E1 E2. destruct (returned_recorded _ _ _ _ _ _ H0 Hr Hi) as (row1 & Hr1 & _ & <-).
  destruct (returned_recorded _ _ _ _ _ _ H0 Hr Hj) as (row2 & Hr2 & _ & <-).
  destruct (skill_system_safe _ _ H0 Hr) as [G _]. by eapply (gl_unique _ G).
Qed.
End safety.
End SkillSafety.
