(* ===== verification/SkillSample.v ===== *)
(** * Skills: a sample

    A Skill that is saved, evaluated, signed, promoted and deprecated, as runs of
    the system of [SkillSafety], and the fixtures of a verification that passes. *)
From S2P Require Import Prelude.
From S2P Require Import Number.
From S2P Require Import Json.
From S2P Require Import Interact.
From S2P Require Import Skill.
From S2P Require Import SkillLifecycle.
From S2P Require Import SkillSafety.
From S2P Require Import CanonicalJson.
From stdpp Require Import pretty.

Module SkillSample.
Import Skill SkillLifecycle SkillSafety.

(** ** A world that answers at once *)
Definition number_text (n : number) : string :=
  match safe_integer n with Some z => pretty z | None => "NaN" end.
Lemma sample_integers : CanonicalJson.integers_written number_text.
Proof. intros n z Hz. unfold number_text. by rewrite Hz. Qed.
Definition sha256 (s : string) : string := s.

Definition respond (B : Type) (e : Call B) (d : Db) : B * Db :=
  match e in Call B return B * Db with
  | Aborted => (false, d)
  | ReplayCommand key h => (Ok (readLifecycleReplay key h d), d)
  | Head id => (Ok (current_version <$> skills d !! id), d)
  | Version id v => (Ok (content_json <$> skill_versions d !! (id, v)), d)
  | Evaluations id v => (Ok (evaluations id v d), d)
  | Bundle id v => (Ok (skill_bundles d !! (id, v)), d)
  | VerifySignature _ _ => (Ok valid, d)
  | Commit i => commitLifecycleCommand false i d
  | SaveVersion v expected recording => saveSkillVersion "2024-01-01T00:00:00.000Z" false v expected recording d
  | SaveEvaluation e => saveEvaluation false e d
  | SaveBundle b => saveBundle false b d
  | Revoke r => revoke false r d
  end.

Lemma skill_respond_answers B (e : Call B) d b d' : respond B e d = (b, d') → answers B e d b d'.
Proof.
  destruct e; cbn; intros H.
  1-7: injection H as <- <-; first [reflexivity | split; [by left|reflexivity]].
  - by exists false.
  - by exists "2024-01-01T00:00:00.000Z", false.
  - by exists false.
  - by exists false.
  - by exists false.
Qed.

Notation controller := (prog Call LifecycleError Result).
Notation system := (@sched_state Call LifecycleError Note Db Result).
Notation start := (startable number_text sha256 true).
Notation step := (sched note answers midway start).

(** ** A Skill *)
Definition sample_content : SkillCandidate :=
  {| parameters := [];
     steps := ({| stepId := "step-001"; intent := navigate "/cart"; preconditions := [];
                  checkpoint := [url_path "/cart"]; recovery := stop; sourceNodeId := "node" |}, []);
     sourceRecordingIds := ("recording", []); observationSchemaEpoch := v1;
     locatorSchemaVersion := "semantic-locator/v1"; compilerVersion := "skill-compiler/v1";
     contentSha256 := "content" |}.
Definition sample_version (v : Z) (s : SkillState) : ProcedureSkillVersion :=
  {| skillId := "skill"; version := v; state := s; projectId := "project";
     targetScope := {| targetId := "target"; minimumTargetVersion := None; maximumTargetVersion := None;
                       allowedOrigins := ["https://shop.test"] |};
     content := sample_content |}.
Definition sample_bundle : SignedSkillBundle :=
  {| manifest := {| bundleId := "bundle"; m_skillId := "skill"; m_skillVersion := 3;
       m_compilerVersion := "skill-compiler/v1"; m_contentSha256 := "content"; signerKeyId := "key";
       signatureBase64 := "signature"; issuedAt := "2024-01-01T00:00:00.000Z"; expiresAt := None |};
     payload := sample_version 3 verified |}.

(** *** Its verification *)
Definition sample_fixtures : list SkillReplayFixture :=
  [{| fixture_name := "first"; fixture_kind := normal |}; {| fixture_name := "second"; fixture_kind := normal |};
   {| fixture_name := "reordered"; fixture_kind := dom_variation |};
   {| fixture_name := "signed out"; fixture_kind := precondition_negative |}].

(** A replay port that does what the fixtures want. *)
Definition replays (B : Type) (e : ReplayCall B) (w : unit) : B * unit :=
  match e in ReplayCall B return B * unit with Replay _ f => (Ok (wanted f), w) end.
Definition sample_verification : prog ReplayCall VerifierError SkillEvaluation * list ReplayNote * unit :=
  Interact.play replay_note replays 10
    (verify_bundle "evaluation" "2024-01-01T00:00:00.000Z" sample_bundle valid sample_fixtures) [] tt.
Definition sample_evaluation : SkillEvaluation :=
  {| evaluationId := "evaluation"; ev_skillId := "skill"; skillVersion := 3;
     oracles := (passes signatureIntegrity,
       [passes exactTraceReplay; passes semanticTolerantReplay; passes preconditionSafety]);
     outcome_ := passed; signatureValid := true; ev_createdAt := "2024-01-01T00:00:00.000Z" |}.

Lemma sample_verification_ends : sample_verification.1.1 = Ret sample_evaluation.
Proof. vm_compute. reflexivity. Qed.

Lemma sample_verification_runs :
  runs replay_note (λ _ _ _, True)
    (verify_bundle "evaluation" "2024-01-01T00:00:00.000Z" sample_bundle valid sample_fixtures) []
    (Ret sample_evaluation) sample_verification.1.2.
Proof.
  rewrite <- sample_verification_ends. unfold sample_verification.
  destruct (Interact.play _ _ _ _ _ _) as [[p h] w] eqn:Hp. by eapply (play_runs replay_note _ replays).
Qed.

Lemma evaluation_passes_iff_witness :
  outcome_ sample_evaluation = passed ∧ covering sample_fixtures ∧ length sample_verification.1.2 = 4.
Proof.
  assert (NoDup (fixture_name <$> sample_fixtures)) as Hnd by (apply (bool_decide_unpack _); vm_compute; exact I).
  destruct (evaluation_passes_iff _ _ _ _ _ _ _ Hnd sample_verification_runs) as [_ Hiff].
  split; [reflexivity|]. destruct (proj1 Hiff eq_refl) as (_ & Hc & Hh). split; [exact Hc|].
  rewrite Hh. vm_compute. reflexivity.
Defined.

(** *** Its lifecycle *)
Definition sample_command (key : string) (expected : Z) (o : SkillLifecycleOperation) : SkillLifecycleCommand :=
  {| c_skillId := "skill"; c_expectedVersion := expected; c_idempotencyKey := key;
     actor := {| actorId := "admin"; tenantId := "tenant"; roles := ["owner"; "admin"] |};
     occurredAt := "2024-01-02T00:00:00.000Z"; operation := o |}.
Definition promotion : SkillLifecycleCommand := sample_command "promote" 3 (op_promote REQUIRED_REPLAY_ORACLES).
Definition deprecation : SkillLifecycleCommand := sample_command "deprecate" 4 (op_deprecate "obsolete").

(** The promotion again, later, with its lists in other orders; and another command
    under its key. *)
Definition repetition : SkillLifecycleCommand :=
  {| c_skillId := "skill"; c_expectedVersion := 3; c_idempotencyKey := "promote";
     actor := {| actorId := "admin"; tenantId := "tenant"; roles := ["admin"; "owner"] |};
     occurredAt := "2024-01-03T00:00:00.000Z"; operation := op_promote (reverse REQUIRED_REPLAY_ORACLES) |}.
Definition misuse : SkillLifecycleCommand := sample_command "promote" 3 (op_deprecate "obsolete").

Definition tool (e : Call (outcome LifecycleError unit)) : controller := _ ← call e; mret None.
Definition service (c : SkillLifecycleCommand) : controller :=
  r ← SkillLifecycle.apply number_text sha256 true c; mret (Some (c, r)).
Definition sample_calls : list controller :=
  [tool (SaveVersion (sample_version 1 draft) 0 "recording");
   tool (SaveVersion (sample_version 2 candidate) 1 "recording");
   tool (SaveVersion (sample_version 3 verified) 2 "recording");
   tool (SaveEvaluation sample_evaluation); tool (SaveBundle sample_bundle);
   service promotion; service repetition; service deprecation; service misuse].
Definition sample_start : system :=
  {| shared := {| skills := ∅; skill_versions := ∅; skill_evaluations := []; skill_bundles := ∅;
                  skill_revocations := ∅; lifecycle_commands := ∅; audit_events := ∅ |}; processes := [] |}.
Definition sample_system : system := play_all note respond 20 sample_calls sample_start.

Lemma sample_startable : Forall start sample_calls.
Proof.
  unfold sample_calls. repeat (apply Forall_cons; split); [..|by apply Forall_nil]; unfold startable.
  1-3: right; left; eexists _, _, _; split_and!; [| |reflexivity]; done.
  - right; right; left. by eexists.
  - right; right; right; left. by eexists.
  - left. by eexists.
  - left. by eexists.
  - left. by eexists.
  - left. by eexists.
Qed.

Lemma skill_sample_reachable : rtc step sample_start sample_system.
Proof. apply play_all_steps; [apply skill_respond_answers|apply sample_startable]. Qed.

Lemma skill_sample_initial : initial sample_start.
Proof. done. Qed.

Definition ended (i : nat) : list Note := default [] (snd <$> processes sample_system !! i).

Lemma sample_results :
  returned_values (processes sample_system) =
  [Some None; Some None; Some None; Some None; Some None;
    Some (Some (promotion, sample_version 4 promoted)); Some (Some (repetition, sample_version 4 promoted));
    Some (Some (deprecation, sample_version 5 deprecated)); None].
Proof. vm_compute. reflexivity. Qed.

(** ** The theorems there *)
Lemma sample_processes :
  processes sample_system !! 5 = Some (Ret (Some (promotion, sample_version 4 promoted)), ended 5) ∧
  processes sample_system !! 6 = Some (Ret (Some (repetition, sample_version 4 promoted)), ended 6).
Proof.
  pose proof sample_results as H. split; unfold ended; apply returned_values_lookup;
    [apply (f_equal (λ l, l !! 5)) in H|apply (f_equal (λ l, l !! 6)) in H]; exact H.
Qed.

(** Whoever is answered under the key of the promotion sent the promotion and is
    answered its version; the repetition was. *)
Lemma command_carried_out_once_witness :
  processes sample_system !! 6 = Some (Ret (Some (repetition, sample_version 4 promoted)), ended 6) ∧
  same_command promotion repetition ∧
  ∀ j c r h, processes sample_system !! j = Some (Ret (Some (c, r)), h) → c_idempotencyKey c = "promote" →
    sample_version 4 promoted = r ∧ (safe_version c → same_command promotion c).
Proof.
  destruct sample_processes as [H5 H6].
  assert (∀ j c r h, processes sample_system !! j = Some (Ret (Some (c, r)), h) → c_idempotencyKey c = "promote" →
    sample_version 4 promoted = r ∧ (safe_version c → same_command promotion c)) as Hall.
  { intros j c r h Hj Hk.
    destruct (command_carried_out_once number_text sha256 true sample_start sample_system 5 j
      promotion c (sample_version 4 promoted) r (ended 5) h skill_sample_initial skill_sample_reachable
      H5 Hj (eq_sym Hk)) as [Hr Hsame]. split; [exact Hr|]. intros Hc.
    assert (safe_version promotion) as Hp by (split; vm_compute; discriminate).
    destruct (Hsame sample_integers Hp Hc) as [H|(x & y & Hne & E)]; [exact H|].
    destruct (Hne E). }
  split; [exact H6|]. split; [|exact Hall].
  destruct (Hall 6 repetition (sample_version 4 promoted) (ended 6) H6 eq_refl) as [_ H]. apply H.
  split; vm_compute; discriminate.
Defined.

Lemma version_of_one_command_witness : c_idempotencyKey promotion = "promote".
Proof.
  destruct sample_processes as [H5 H6].
  exact (version_of_one_command number_text sha256 true sample_start sample_system 5 6
    promotion repetition (sample_version 4 promoted) (sample_version 4 promoted) (ended 5) (ended 6) skill_sample_initial skill_sample_reachable
    H5 H6 eq_refl eq_refl).
Defined.

Definition promoted_row : VersionRow :=
  {| source_recording_id := "recording"; content_json := sample_version 4 promoted;
     row_created := "2024-01-02T00:00:00.000Z" |}.
Definition deprecated_row : VersionRow :=
  {| source_recording_id := "recording"; content_json := sample_version 5 deprecated;
     row_created := "2024-01-02T00:00:00.000Z" |}.

Lemma sample_rows :
  skill_versions (shared sample_system) !! ("skill", 4%Z) = Some promoted_row ∧
  skill_versions (shared sample_system) !! ("skill", 5%Z) = Some deprecated_row.
Proof. split; vm_compute; reflexivity. Qed.

Lemma promotion_justified_witness :
  Promoted number_text sha256 sample_system (sample_version 4 promoted) ∧
  Revoked sample_system (sample_version 5 deprecated).
Proof.
  destruct sample_rows as [H4 H5]. split.
  - exact (proj1 (promotion_justified number_text sha256 true sample_start sample_system _ _ _ skill_sample_initial skill_sample_reachable H4) eq_refl).
  - exact (proj2 (promotion_justified number_text sha256 true sample_start sample_system _ _ _ skill_sample_initial skill_sample_reachable H5) eq_refl).
Defined.
End SkillSample.
