(* ===== verification/Regex.v ===== *)
(** * Regular expressions

    The patterns the validators test text with, as trees that read like the
    source's patterns, over the bytes of the UTF-8 text.  A lookahead is an
    intersection with what follows it: [(?!a)b] at the end of a pattern is
    [Meet (Not (a ⋅ anything)) b].  [test] decides a pattern by derivatives and
    [test_language] proves it against the languages the patterns denote. *)
From S2P Require Import Prelude Number Json.
From Stdlib Require Import Ascii.

Module Regex.

(** A character class: ranges of bytes, both ends included. *)
Definition class : Type := list (Z * Z).
Definition in_class (c : class) (b : Z) : bool := existsb (λ r, (r.1 <=? b)%Z && (b <=? r.2)%Z) c.

Inductive regex : Type :=
  | Never
  | Empty
  | One (c : class)
  | Seq (a b : regex)
  | Or (a b : regex)
  | Meet (a b : regex)
  | Not (a : regex)
  | Star (a : regex).

(** The class of the bytes of a text, and the pattern of the text itself. *)
Definition chars (s : string) : class := (λ b, (b, b)) <$> bytes s.
Definition range (a b : string) : class :=
  match bytes a, bytes b with x :: _, y :: _ => [(x, y)] | _, _ => [] end.
Definition lit (s : string) : regex := foldr (λ b r, Seq (One [(b, b)]) r) Empty (bytes s).
(** [a+], [a?], and whatever follows. *)
Definition Plus (a : regex) : regex := Seq a (Star a).
Definition Opt (a : regex) : regex := Or a Empty.
Definition Any : regex := Not Never.
(** [a{n}], and [a{0,n}]. *)
Fixpoint times (n : nat) (a : regex) : regex := match n with O => Empty | S n => Seq a (times n a) end.
Fixpoint upto (n : nat) (a : regex) : regex := match n with O => Empty | S n => Opt (Seq a (upto n a)) end.

(** ** The language of a pattern *)
Inductive starred (L : list Z → Prop) : list Z → Prop :=
  | starred_nil : starred L []
  | starred_cons u v : L u → starred L v → starred L (u ++ v).

Fixpoint language (r : regex) (l : list Z) : Prop :=
  match r with
  | Never => False
  | Empty => l = []
  | One c => ∃ b, l = [b] ∧ in_class c b = true
  | Seq a b => ∃ u v, l = u ++ v ∧ language a u ∧ language b v
  | Or a b => language a l ∨ language b l
  | Meet a b => language a l ∧ language b l
  | Not a => ¬ language a l
  | Star a => starred (language a) l
  end.

(** ** Deciding it *)
Fixpoint nullable (r : regex) : bool :=
  match r with
  | Never | One _ => false
  | Empty | Star _ => true
  | Seq a b | Meet a b => nullable a && nullable b
  | Or a b => nullable a || nullable b
  | Not a => negb (nullable a)
  end.

(** [Seq] and [Or] that drop what contributes nothing, so that derivatives stay
    small. *)
Definition seq_ (a b : regex) : regex :=
  match a with Never => Never | Empty => b | _ => Seq a b end.
Definition or_ (a b : regex) : regex :=
  match a, b with Never, _ => b | _, Never => a | _, _ => Or a b end.

Fixpoint derive (x : Z) (r : regex) : regex :=
  match r with
  | Never | Empty => Never
  | One c => if in_class c x then Empty else Never
  | Seq a b => if nullable a then or_ (seq_ (derive x a) b) (derive x b) else seq_ (derive x a) b
  | Or a b => or_ (derive x a) (derive x b)
  | Meet a b => Meet (derive x a) (derive x b)
  | Not a => Not (derive x a)
  | Star a => seq_ (derive x a) (Star a)
  end.

Fixpoint matches (r : regex) (l : list Z) : bool :=
  match l with [] => nullable r | x :: l => matches (derive x r) l end.

(** [pattern.test(text)] of a pattern anchored at both ends. *)
Definition test (r : regex) (s : string) : bool := matches r (bytes s).

(** ** Correctness *)
Lemma language_seq_ a b l : language (seq_ a b) l ↔ language (Seq a b) l.
Proof.
  destruct a; try done; cbn.
  - split; [done|]. by intros (u & v & _ & ? & _).
  - split; [intros H; by exists [], l|]. by intros (u & v & -> & -> & ?).
Qed.

Lemma language_or_ a b l : language (or_ a b) l ↔ language (Or a b) l.
Proof. destruct a, b; cbn; tauto. Qed.

Lemma nullable_language r : nullable r = true ↔ language r [].
Proof.
  induction r as [| |c|a IHa b IHb|a IHa b IHb|a IHa b IHb|a IHa|a IHa]; cbn.
  - done.
  - done.
  - split; [done|]. by intros (? & ? & _).
  - rewrite andb_true_iff, IHa, IHb. split.
    + intros [? ?]. by exists [], [].
    + intros (u & v & H & Hu & Hv). symmetry in H. apply app_nil in H as [-> ->]. done.
  - by rewrite orb_true_iff, IHa, IHb.
  - by rewrite andb_true_iff, IHa, IHb.
  - rewrite negb_true_iff, <- IHa. by destruct (nullable a).
  - split; [constructor|done].
Qed.

Lemma starred_first L x l :
  starred L (x :: l) ↔ ∃ u v, l = u ++ v ∧ L (x :: u) ∧ starred L v.
Proof.
  split.
  - remember (x :: l) as w eqn:Hw. induction 1 as [|[|y u] v Hu Hv IH]; [done|by apply IH|].
    injection Hw as -> <-. by exists u, v.
  - intros (u & v & -> & Hu & Hv). exact (starred_cons L (x :: u) v Hu Hv).
Qed.

Lemma language_seq_first a b x l :
  language (Seq a b) (x :: l) ↔
  (∃ u v, l = u ++ v ∧ language a (x :: u) ∧ language b v) ∨ (language a [] ∧ language b (x :: l)).
Proof.
  cbn. split.
  - intros ([|y u] & v & H & Ha & Hb); cbn in H.
    + subst. by right.
    + injection H as -> ->. left. by exists u, v.
  - intros [(u & v & -> & Ha & Hb)|[Ha Hb]]; [by exists (x :: u), v|by exists [], (x :: l)].
Qed.

Lemma derive_language x r : ∀ l, language (derive x r) l ↔ language r (x :: l).
Proof.
  induction r as [| |c|a IHa b IHb|a IHa b IHb|a IHa b IHb|a IHa|a IHa]; intros l; cbn [derive].
  - done.
  - done.
  - destruct (in_class c x) eqn:Hc; cbn; (split; [|intros (b & H & Hb); injection H as <- ->; congruence]); [|done].
    intros ->. by exists x.
  - assert (language (seq_ (derive x a) b) l ↔ ∃ u v, l = u ++ v ∧ language a (x :: u) ∧ language b v) as H.
    { rewrite language_seq_. cbn. by setoid_rewrite IHa. }
    rewrite language_seq_first. destruct (nullable a) eqn:Hn.
    + rewrite language_or_. cbn [language]. rewrite H, IHb. apply nullable_language in Hn. tauto.
    + rewrite H. assert (¬ language a []) by (by rewrite <- nullable_language, Hn). tauto.
  - rewrite language_or_. cbn. by rewrite IHa, IHb.
  - cbn. by rewrite IHa, IHb.
  - cbn. by rewrite IHa.
  - rewrite language_seq_. cbn [language]. rewrite starred_first. by setoid_rewrite IHa.
Qed.

Lemma matches_language r l : matches r l = true ↔ language r l.
Proof.
  revert r. induction l as [|x l IH]; intros r; cbn; [apply nullable_language|].
  by rewrite IH, derive_language.
Qed.

Lemma test_language r s : test r s = true ↔ language r (bytes s).
Proof. apply matches_language. Qed.

Lemma language_any l : language Any l.
Proof. by intros []. Qed.

Lemma language_lit s l : language (lit s) l ↔ l = bytes s.
Proof.
  unfold lit. revert l. induction (bytes s) as [|b t IH]; intros l; cbn; [done|]. split.
  - intros (u & v & -> & (x & -> & Hx) & Hv). apply IH in Hv as ->.
    rewrite orb_false_r, andb_true_iff, !Z.leb_le in Hx. cbn. f_equal. lia.
  - intros ->. exists [b], t. split_and!; [done| |by apply IH]. exists b. split; [done|].
    rewrite orb_false_r, andb_true_iff, !Z.leb_le. lia.
Qed.

(** A repeated class: every byte is in it. *)
Lemma language_star_one c l : language (Star (One c)) l ↔ Forall (λ b, in_class c b = true) l.
Proof.
  cbn. split.
  - induction 1 as [|u v (b & -> & Hb) _ IH]; [done|]. by constructor.
  - induction 1 as [|b l Hb _ IH]; [constructor|]. apply (starred_cons _ [b] l); [|done]. by exists b.
Qed.

End Regex.
