(* ===== verification/Observation.v ===== *)
(** * Observation Graphs

    Models [packages/contracts/observation/src]: the validator of an Observation
    Graph v1 ([validator.ts]), its canonical text and hash ([canonical.ts]) and its
    versioned extensions ([extensions.ts]).

    A graph is the JSON value that arrives; the fields of an object are listed as
    the object enumerates them.  [String.prototype.normalize], the decimal text of
    a number, [new URL] and SHA-256 are parameters. *)
From S2P Require Import Prelude Number Json CanonicalJson RunnerProtocol Regex.
From Stdlib Require Import Ascii.
Import CanonicalJson(quote, entry, join, sort_fields).

Module Observation.

(** ** Errors *)
Inductive ObservationErrorCode :=
  | ObservationSchemaInvalid | DanglingNodeReference | EvidenceReferenceInvalid
  | ExtensionVersionUnsupported | SourceAssetCorrupted | ProjectionUnsupported
  | SkillRecompileFailed | MigrationSourceChanged.
#[export] Instance observation_code_eq_dec : EqDecision ObservationErrorCode.
Proof. solve_decision. Defined.
Definition code_text (c : ObservationErrorCode) : string :=
  match c with
  | ObservationSchemaInvalid => "ObservationSchemaInvalid"
  | DanglingNodeReference => "DanglingNodeReference"
  | EvidenceReferenceInvalid => "EvidenceReferenceInvalid"
  | ExtensionVersionUnsupported => "ExtensionVersionUnsupported"
  | SourceAssetCorrupted => "SourceAssetCorrupted"
  | ProjectionUnsupported => "ProjectionUnsupported"
  | SkillRecompileFailed => "SkillRecompileFailed"
  | MigrationSourceChanged => "MigrationSourceChanged"
  end.

(** What is thrown: an [ObservationError], or anything else, a [TypeError] included. *)
Inductive Thrown := ObservationError (code : ObservationErrorCode) | OtherError.
Notation V := (outcome Thrown).
Definition invalid : Thrown := ObservationError ObservationSchemaInvalid.

(** [for (const x of l) body(x)] where only a throw matters. *)
Definition each {A} (body : A → V unit) (l : list A) : V unit :=
  foldr (λ x k, _ ← body x; k) (Ok tt) l.

(** [`${value}`] of a value that may be anything: an object whose own [toString] is
    not callable throws a [TypeError], alone or as an element of an array. *)
Fixpoint template_throws (v : json) : bool :=
  match v with
  | JArr l => existsb template_throws l
  | JObj fields => match get_field "toString" fields with Some _ => true | None => false end
  | _ => false
  end.
(** [throw observationError(code, message)] where the message quotes [value]. *)
Definition throw_quoting (value : option json) : Thrown :=
  match value with Some v => if template_throws v then OtherError else invalid | None => invalid end.

(** ** Assertions *)
Definition assertObject (value : option json) : V (list (string * json)) :=
  match value with Some (JObj fields) => Ok fields | _ => Throw invalid end.
Definition assertArray (value : option json) : V (list json) :=
  match value with Some (JArr l) => Ok l | _ => Throw invalid end.
Definition assertNonEmptyString (value : option json) : V string :=
  match value with
  | Some (JStr s) => if String.eqb s EmptyString then Throw invalid else Ok s
  | _ => Throw invalid
  end.
Definition assertNoUnknownFields (value : list (string * json)) (allowed : list string) : V unit :=
  reject_if (negb (forallb (λ kv, includes allowed kv.1) value)) invalid.

Definition CANONICAL_NODE_FIELDS : list string :=
  ["id"; "role"; "name"; "value"; "state"; "bounds"; "relations"; "source"; "confidence";
   "sensitivity"; "extensions"; "evidenceRefs"].
Definition CANONICAL_GRAPH_FIELDS : list string :=
  ["schema"; "graphId"; "target"; "capturedAt"; "rootNodeIds"; "nodes"; "evidenceRefs"; "extensions"].
Definition OBSERVATION_GRAPH_V1_VERSION : string := "observation-graph/v1".
Definition RELATION_TYPES : list string :=
  ["child"; "labelled_by"; "described_by"; "controls"; "owns"; "focuses"].
Definition SENSITIVITIES : list string := ["public"; "internal"; "sensitive"; "secret"].
Definition WEB_EXTENSION_V1_TYPE : string := "web/v1".
Definition WEB_EXTENSION_V1_REDACTION_MARKER : string := "[redacted]".

(** [value === text] of an unknown value. *)
Definition is_text (value : option json) (text : string) : bool :=
  match value with Some (JStr s) => String.eqb s text | _ => false end.
Definition one_of (texts : list string) (value : option json) : option string :=
  match value with Some (JStr s) => if includes texts s then Some s else None | _ => None end.

(** ** Patterns *)
Section patterns.
Import Regex.

Definition digit : regex := One (range "0" "9").
Definition PORT_PATTERN : regex :=
  Or (Seq (One (range "1" "9")) (upto 3 digit))
  (Or (Seq (One (range "1" "5")) (times 4 digit))
  (Or (Seq (lit "6") (Seq (One (range "0" "4")) (times 3 digit)))
  (Or (Seq (lit "65") (Seq (One (range "0" "4")) (times 2 digit)))
  (Or (Seq (lit "655") (Seq (One (range "0" "2")) digit))
      (Seq (lit "6553") (One (range "0" "5"))))))).

(** [[^/?#]] *)
Definition no_delimiter : class := [(0, 34); (36, 46); (48, 62); (64, 255)]%Z.
Definition host_char : class := range "a" "z" ++ range "0" "9" ++ chars ".-".
(** One scheme with its default port, which is not written. *)
Definition origin_of_scheme (scheme default_port : string) : regex :=
  Seq (lit scheme)
    (Meet (Not (Seq (Star (One no_delimiter)) (Seq (lit "@") Any)))
    (Meet (Not (Seq (Star (One no_delimiter)) (lit default_port)))
          (Seq (Plus (One host_char)) (Opt (Seq (lit ":") PORT_PATTERN))))).
Definition WEB_ORIGIN_PATTERN : regex :=
  Or (origin_of_scheme "http://" ":80") (origin_of_scheme "https://" ":443").

Definition alphanumeric : class := range "A" "Z" ++ range "a" "z" ++ range "0" "9".
Definition path_char : class := alphanumeric ++ chars "._~!$&'()*+,;=:@/-".
Definition hex : class := range "0" "9" ++ range "A" "F" ++ range "a" "f".
(** [.]: any byte but a line terminator.  Those of several bytes need no mention:
    the last part of the pattern admits ASCII only. *)
Definition dot : class := [(0, 9); (11, 12); (14, 255)]%Z.
Definition dot_segment : regex :=
  Seq (Or (Seq (Star (One dot)) (lit "/")) Empty)
    (Seq (lit ".") (Seq (Opt (lit ".")) (Or (Seq (lit "/") Any) Empty))).
Definition encoded_dot : regex := Seq (Star (One dot)) (Seq (lit "%2") (Seq (One (chars "eE")) Any)).
Definition path_text : regex :=
  Seq (lit "/") (Star (Or (One path_char) (Seq (lit "%") (Seq (One hex) (One hex))))).
Definition WEB_PATHNAME_PATTERN : regex :=
  Meet (Not (Seq (lit "//") Any)) (Meet (Not dot_segment) (Meet (Not encoded_dot) path_text)).

Definition EXTENSION_KEY : regex :=
  Seq (Seq (One (range "a" "z")) (Star (One (range "a" "z" ++ range "0" "9" ++ chars "-"))))
    (Seq (lit "/v") (Plus digit)).

(** [/^[•*]+$/] with the bullet's three bytes. *)
Definition MASK : regex := Plus (Or (lit "*") (Seq (One [(226, 226)]%Z) (Seq (One [(128, 128)]%Z) (One [(162, 162)]%Z)))).
End patterns.

(** ** Extension keys *)
Record ParsedExtensionKey := { ext_name : string; ext_major : number }.

(** The text before the first slash and the text from it on: the two groups of a
    key that matches, whose name has no slash. *)
Fixpoint split_slash (s : string) : string * string :=
  match s with
  | EmptyString => (EmptyString, EmptyString)
  | String c r =>
      if Ascii.eqb c "/" then (EmptyString, s) else let '(a, b) := split_slash r in (String c a, b)
  end.
Definition decimal (s : string) : Z := foldl (λ z b, z * 10 + (b - 48))%Z 0%Z (bytes s).
Definition parseExtensionKey (key : string) : option ParsedExtensionKey :=
  if Regex.test EXTENSION_KEY key then
    let '(name, rest) := split_slash key in
    Some {| ext_name := name; ext_major := to_double (decimal (String.substring 2 (String.length rest) rest) * 2 ^ 1074) |}
  else None.

(** [`${relation.type}\u0000${relation.targetNodeId}`] *)
Definition observationRelationSemanticKey (type target : string) : string :=
  type +:+ String (ascii_of_nat 0) target.

(** ** JSON Pointers *)
(** [replaceAll] of a needle of two characters by one. *)
Fixpoint replaceAll (x y by_ : ascii) (s : string) : string :=
  match s with
  | String a ((String b r) as t) =>
      if Ascii.eqb a x && Ascii.eqb b y then String by_ (replaceAll x y by_ r)
      else String a (replaceAll x y by_ t)
  | _ => s
  end.
(** [split(sep)] of a separator of one character. *)
Fixpoint split (sep : ascii) (s : string) : list string :=
  match s with
  | EmptyString => [EmptyString]
  | String c r =>
      let parts := split sep r in
      if Ascii.eqb c sep then EmptyString :: parts
      else match parts with p :: ps => String c p :: ps | [] => [String c EmptyString] end
  end.
Definition pointer_part (part : string) : string :=
  replaceAll "~" "0" "~" (replaceAll "~" "1" "/" part).
Definition parseJsonPointer (pointer : string) : list string :=
  match pointer with
  | String "/" rest => pointer_part <$> split "/" rest
  | _ => []
  end.

Definition extensionSetArrayAtPath (payload : list (string * json)) (pointer : string) : option (list json) :=
  match foldl (λ current part, match current with Some (JObj fields) => get_field part fields | _ => None end)
          (Some (JObj payload)) (parseJsonPointer pointer) with
  | Some (JArr l) => Some l
  | _ => None
  end.

(** What the code reads of [new URL(text, base)]. *)
Record ParsedUrl := { url : Url; pathname : string; search : string; hash : string }.

Record ValidateOptions := {
  evidenceResolver : option (string → bool);
  allowedWebQueryKeys : option (list string);
}.

Section observation.
Context (nfc : string → string) (number_text : number → string).
Context (new_URL : string → option string → option ParsedUrl) (sha256_hex : string → string).

(** ** The canonical text *)

(** [encode] and [rawCanonicalJson], which differ in what is done to a string.  The
    children are written before their keys are ordered: the same text. *)
Fixpoint json_text (norm : string → string) (v : json) : V string :=
  match v with
  | JNull => Ok "null"
  | JStr s => Ok (quote (norm s))
  | JNum n => if is_finite n then Ok (number_text n) else Throw invalid
  | JBool true => Ok "true"
  | JBool false => Ok "false"
  | JArr l => texts ← mapM (json_text norm) l; Ok ("[" +:+ join texts +:+ "]")
  | JObj fields =>
      texts ← mapM (λ kv : string * json, text ← json_text norm kv.2; Ok (kv.1, text)) fields;
      Ok ("{" +:+ join ((λ kv, entry (norm kv.1, kv.2)) <$> sort_fields texts) +:+ "}")
  end.
Definition encode : json → V string := json_text nfc.
Definition canonicalObservationJson : json → V string := encode.
Definition rawCanonicalJson : json → V string := json_text id.

(** ** Canonical keys

    The loop of the three [assertUnique...Keys]: an entry is its canonical key and
    its raw text; entries of one key must have one raw text. *)
Fixpoint unique_canonical {A} (entry_of : A → V (string * string)) (seen : gmap string string) (l : list A)
    : V unit :=
  match l with
  | [] => Ok tt
  | x :: l =>
      e ← entry_of x;
      match seen !! e.1 with
      | Some existing => if String.eqb existing e.2 then unique_canonical entry_of (<[e.1 := e.2]> seen) l else Throw invalid
      | None => unique_canonical entry_of (<[e.1 := e.2]> seen) l
      end
  end.
Definition assertUniqueCanonicalStringKeys : list json → V unit :=
  unique_canonical (λ v, s ← assertNonEmptyString (Some v); Ok (nfc s, s)) ∅.
Definition assertUniqueRelationKeys : list (string * string) → V unit :=
  unique_canonical (λ r, let key := observationRelationSemanticKey r.1 r.2 in Ok (nfc key, key)) ∅.
Definition assertUniqueCanonicalJsonKeys : list json → V unit :=
  unique_canonical (λ v, key ← canonicalObservationJson v; raw ← rawCanonicalJson v; Ok (nfc key, raw)) ∅.

(** ** Extensions *)
Definition web_protocol (u : Url) : bool := String.eqb (protocol u) "http:" || String.eqb (protocol u) "https:".

Definition web_origin_ok (text : string) : bool :=
  match new_URL text None with
  | Some parsed =>
      web_protocol (url parsed) && String.eqb (username (url parsed)) EmptyString &&
      String.eqb (password (url parsed)) EmptyString && String.eqb (pathname parsed) "/" &&
      String.eqb (search parsed) EmptyString && String.eqb (hash parsed) EmptyString &&
      String.eqb (origin (url parsed)) text && Regex.test WEB_ORIGIN_PATTERN text
  | None => false
  end.
Definition assertWebOrigin (value : option json) : V unit :=
  text ← assertNonEmptyString value; reject_if (negb (web_origin_ok text)) invalid.

Definition pathname_ok (text : string) : bool :=
  match new_URL text (Some "https://qualigence.invalid") with
  | Some parsed =>
      str_startsWith text "/" && negb (str_includes text "?") && negb (str_includes text "#") &&
      String.eqb text (pathname parsed) && Regex.test WEB_PATHNAME_PATTERN text
  | None => false
  end.
Definition assertPathname (value : option json) : V unit :=
  text ← assertNonEmptyString value; reject_if (negb (pathname_ok text)) invalid.

Definition assertViewportInteger (value : option json) (max : Z) : V unit :=
  match value with
  | Some (JNum n) =>
      match safe_integer n with
      | Some z => reject_if ((z <=? 0)%Z || (max <? z)%Z) invalid
      | None => Throw invalid
      end
  | _ => Throw invalid
  end.
Definition assertViewportNumber (value : option json) (max : Z) : V unit :=
  match value with
  | Some (JNum n) =>
      reject_if (negb (is_finite n) || num_leb n (num_of_Z 0) || num_ltb (num_of_Z max) n) invalid
  | _ => Throw invalid
  end.

Definition validateQueryEntry (opts : ValidateOptions) (kv : string * json) : V unit :=
  _ ← reject_if (String.eqb kv.1 EmptyString || negb (String.eqb kv.1 (nfc kv.1))) invalid;
  _ ← reject_if (negb (includes (default [] (allowedWebQueryKeys opts)) kv.1)) invalid;
  reject_if (negb (is_text (Some kv.2) WEB_EXTENSION_V1_REDACTION_MARKER)) invalid.

Definition validateWebExtensionV1 (opts : ValidateOptions) (payload : list (string * json)) : V unit :=
  _ ← assertNoUnknownFields payload ["origin"; "pathname"; "title"; "viewport"; "query"];
  _ ← assertWebOrigin (get_field "origin" payload);
  _ ← assertPathname (get_field "pathname" payload);
  _ ← match get_field "title" payload with Some (JStr _) => Ok tt | _ => Throw invalid end;
  viewport ← assertObject (get_field "viewport" payload);
  _ ← assertNoUnknownFields viewport ["width"; "height"; "devicePixelRatio"];
  _ ← assertViewportInteger (get_field "width" viewport) 32768;
  _ ← assertViewportInteger (get_field "height" viewport) 32768;
  _ ← assertViewportNumber (get_field "devicePixelRatio" viewport) 16;
  query ← assertObject (get_field "query" payload);
  each (validateQueryEntry opts) query.

Definition validatePointer (payload : list (string * json)) (value : json) : V unit :=
  match value with
  | JStr pointer =>
      if negb (str_startsWith pointer "/") || String.eqb pointer "/" then Throw invalid
      else match extensionSetArrayAtPath payload pointer with
           | Some setArray => assertUniqueCanonicalJsonKeys setArray
           | None => Throw invalid
           end
  | _ => Throw invalid
  end.
Definition validateSetSemantics (payload : list (string * json)) (setSemantics : option json) : V unit :=
  match setSemantics with
  | None => Ok tt
  | Some value => pointers ← assertArray (Some value); each (validatePointer payload) pointers
  end.

Definition validateExtension (opts : ValidateOptions) (allowGraphExtensions : bool) (kv : string * json) : V unit :=
  let '(key, value) := kv in
  _ ← reject_if (bool_decide (parseExtensionKey key = None)) invalid;
  extension ← assertObject (Some value);
  _ ← assertNoUnknownFields extension ["type"; "version"; "setSemantics"; "payload"];
  type ← assertNonEmptyString (get_field "type" extension);
  _ ← reject_if (negb (String.eqb type key)) invalid;
  _ ← assertNonEmptyString (get_field "version" extension);
  payload ← assertObject (get_field "payload" extension);
  _ ← validateSetSemantics payload (get_field "setSemantics" extension);
  if String.eqb key WEB_EXTENSION_V1_TYPE then
    _ ← reject_if (negb allowGraphExtensions) invalid;
    validateWebExtensionV1 opts payload
  else Ok tt.

Definition validateExtensions (opts : ValidateOptions) (allowGraphExtensions : bool) (value : option json) : V unit :=
  extensions ← assertObject value;
  each (validateExtension opts allowGraphExtensions) extensions.

(** ** Nodes *)

(** [node.value !== undefined && !isMasked(node.value)] of a secret node; a value of
    another type is told apart later, unless reading its length or testing the
    pattern on it throws. *)
Definition assertMasked (value : option json) : V unit :=
  match value with
  | None => Ok tt
  | Some (JStr s) => reject_if (negb (String.eqb s EmptyString || Regex.test MASK s)) invalid
  | Some JNull => Throw OtherError
  | Some (JArr []) => Throw invalid
  | Some (JObj fields as v) =>
      match get_field "length" fields with
      | Some (JNum n) => if num_eqb n (num_of_Z 0) then Throw invalid else Throw (throw_quoting (Some v))
      | _ => Throw (throw_quoting (Some v))
      end
  | Some v => Throw (throw_quoting (Some v))
  end.

Definition optional_string (value : option json) : bool :=
  match value with None | Some (JStr _) => true | _ => false end.

Definition assertConfidence (value : option json) : V unit :=
  match value with
  | Some (JNum n) =>
      reject_if (negb (is_finite n) || num_ltb n (num_of_Z 0) || num_ltb (num_of_Z 1) n) invalid
  | _ => Throw invalid
  end.

Definition state_value_ok (value : json) : bool :=
  match value with JBool _ | JStr _ => true | JNum n => is_finite n | _ => false end.
Definition validateState (value : option json) : V unit :=
  state ← assertObject value;
  reject_if (negb (forallb (λ kv : string * json, state_value_ok kv.2) state)) invalid.

Definition finite_field (fields : list (string * json)) (axis : string) : V number :=
  match get_field axis fields with
  | Some (JNum n) => if is_finite n then Ok n else Throw invalid
  | _ => Throw invalid
  end.
(** [Object.keys(null)] throws a [TypeError]; any other value that is not an object
    has an unknown key or lacks an axis. *)
Definition validateBounds (value : option json) : V unit :=
  match value with
  | None => Ok tt
  | Some JNull => Throw OtherError
  | Some (JObj bounds) =>
      _ ← assertNoUnknownFields bounds ["x"; "y"; "width"; "height"];
      _ ← finite_field bounds "x";
      _ ← finite_field bounds "y";
      width ← finite_field bounds "width";
      height ← finite_field bounds "height";
      reject_if (num_ltb width (num_of_Z 0) || num_ltb height (num_of_Z 0)) invalid
  | Some _ => Throw invalid
  end.

Definition validateRelation (value : json) : V (string * string) :=
  relation ← assertObject (Some value);
  _ ← assertNoUnknownFields relation ["type"; "targetNodeId"];
  match one_of RELATION_TYPES (get_field "type" relation) with
  | Some type => target ← assertNonEmptyString (get_field "targetNodeId" relation); Ok (type, target)
  | None => Throw (throw_quoting (get_field "type" relation))
  end.

Definition validateSource (value : option json) : V unit :=
  source ← assertObject value;
  _ ← assertNoUnknownFields source ["adapterId"; "sourceKind"];
  _ ← assertNonEmptyString (get_field "adapterId" source);
  _ ← assertNonEmptyString (get_field "sourceKind" source);
  Ok tt.

(** What the later loops read of a node that passed: its id, the type and target of
    its relations, and its evidence. *)
Record NodeView := { nodeId : string; relations : list (string * string); evidenceRefs : list json }.

Definition validateNode (opts : ValidateOptions) (value : json) : V NodeView :=
  node ← assertObject (Some value);
  _ ← assertNoUnknownFields node CANONICAL_NODE_FIELDS;
  id ← assertNonEmptyString (get_field "id" node);
  _ ← assertNonEmptyString (get_field "role" node);
  _ ← reject_if (negb (optional_string (get_field "name" node))) invalid;
  match one_of SENSITIVITIES (get_field "sensitivity" node) with
  | None => Throw (throw_quoting (get_field "sensitivity" node))
  | Some sensitivity =>
      _ ← if String.eqb sensitivity "secret" then assertMasked (get_field "value" node) else Ok tt;
      _ ← reject_if (negb (optional_string (get_field "value" node))) invalid;
      _ ← assertConfidence (get_field "confidence" node);
      _ ← validateState (get_field "state" node);
      _ ← validateBounds (get_field "bounds" node);
      rels ← assertArray (get_field "relations" node);
      relations ← mapM validateRelation rels;
      _ ← validateSource (get_field "source" node);
      evidence ← assertArray (get_field "evidenceRefs" node);
      _ ← validateExtensions opts false (get_field "extensions" node);
      Ok {| nodeId := id; relations := relations; evidenceRefs := evidence |}
  end.

(** The loop over the nodes: [nodeIds] and [normalizedNodeIds]. *)
Fixpoint validateNodes (opts : ValidateOptions) (ids : gset string) (normalized : gmap string string)
    (nodes : list json) : V (list NodeView) :=
  match nodes with
  | [] => Ok []
  | value :: nodes =>
      node ← validateNode opts value;
      let id := nodeId node in
      _ ← reject_if (bool_decide (id ∈ ids)) invalid;
      _ ← match normalized !! nfc id with
          | Some existing => reject_if (negb (String.eqb existing id)) invalid
          | None => Ok tt
          end;
      rest ← validateNodes opts ({[id]} ∪ ids) (<[nfc id := id]> normalized) nodes;
      Ok (node :: rest)
  end.

Definition validateEvidence (opts : ValidateOptions) (refs : list json) : V unit :=
  each (λ value,
    ref ← assertNonEmptyString (Some value);
    match evidenceResolver opts with
    | Some resolver => reject_if (negb (resolver ref)) (ObservationError EvidenceReferenceInvalid)
    | None => Ok tt
    end) refs.

(** [if (!nodeIds.has(id)) throw] *)
Definition assertNodeExists (ids : list string) (id : string) : V unit :=
  reject_if (negb (includes ids id)) (ObservationError DanglingNodeReference).
Definition validateRoots (ids : list string) (roots : list json) : V unit :=
  _ ← reject_if (bool_decide (roots = [])) invalid;
  each (λ value, root ← assertNonEmptyString (Some value); assertNodeExists ids root) roots.
Definition validateRelations (ids : list string) (node : NodeView) : V unit :=
  _ ← assertUniqueRelationKeys (relations node);
  each (λ relation : string * string, assertNodeExists ids relation.2) (relations node).

(** [graph.schema?.epoch] *)
Definition schema_field (key : string) (graph : list (string * json)) : option json :=
  match get_field "schema" graph with Some (JObj schema) => get_field key schema | _ => None end.
(** [graph.extensions ?? {}] *)
Definition graph_extensions (graph : list (string * json)) : json :=
  match get_field "extensions" graph with None | Some JNull => JObj [] | Some value => value end.

Definition validateObservationGraphV1 (opts : ValidateOptions) (value : json) : V json :=
  graph ← assertObject (Some value);
  _ ← assertNoUnknownFields graph CANONICAL_GRAPH_FIELDS;
  _ ← reject_if (negb (is_text (schema_field "epoch" graph) "v1") ||
                 negb (is_text (schema_field "version" graph) OBSERVATION_GRAPH_V1_VERSION)) invalid;
  _ ← assertNonEmptyString (get_field "graphId" graph);
  target ← assertObject (get_field "target" graph);
  _ ← assertNoUnknownFields target ["kind"; "targetId"];
  _ ← reject_if (negb (is_text (get_field "kind" target) "web") &&
                 negb (is_text (get_field "kind" target) "app")) invalid;
  _ ← assertNonEmptyString (get_field "targetId" target);
  _ ← assertNonEmptyString (get_field "capturedAt" graph);
  nodes ← assertArray (get_field "nodes" graph);
  roots ← assertArray (get_field "rootNodeIds" graph);
  evidence ← assertArray (get_field "evidenceRefs" graph);
  _ ← validateExtensions opts true (Some (graph_extensions graph));
  _ ← assertUniqueCanonicalStringKeys roots;
  _ ← assertUniqueCanonicalStringKeys evidence;
  views ← validateNodes opts ∅ ∅ nodes;
  let ids := nodeId <$> views in
  _ ← validateRoots ids roots;
  _ ← each (validateRelations ids) views;
  _ ← validateEvidence opts evidence;
  _ ← each (λ node, validateEvidence opts (evidenceRefs node)) views;
  Ok value.

(** ** The canonical form

    A graph, a node and an extension are of their declared types here, as they are
    once validated; a value of another type answers [OtherError]. *)
Definition as_text (value : option json) : V string :=
  match value with Some (JStr s) => Ok s | _ => Throw OtherError end.
Definition as_array (value : option json) : V (list json) :=
  match value with Some (JArr l) => Ok l | _ => Throw OtherError end.
Definition as_object (value : option json) : V (list (string * json)) :=
  match value with Some (JObj fields) => Ok fields | _ => Throw OtherError end.

(** [{ ...fields, [key]: value }]: in place where the key is there. *)
Fixpoint update_field {A} (key : string) (value : A) (fields : list (string * A)) : list (string * A) :=
  match fields with
  | [] => [(key, value)]
  | (k, v) :: rest => if String.eqb k key then (k, value) :: rest else (k, v) :: update_field key value rest
  end.

(** A stable sort by the normal form of a key.  Of fewer than two items none is
    compared and no key is computed. *)
Definition sortByKey {A} (keyOf : A → V string) (items : list A) : V (list A) :=
  match items with
  | [] | [_] => Ok items
  | _ => keys ← mapM keyOf items; Ok (snd <$> sort_fields (zip (nfc <$> keys) items))
  end.

Definition sortStringSet (items : option json) : V json :=
  l ← as_array items; sorted ← sortByKey (λ v, as_text (Some v)) l; Ok (JArr sorted).

Definition relation_key (value : json) : V string :=
  relation ← as_object (Some value);
  type ← as_text (get_field "type" relation);
  target ← as_text (get_field "targetNodeId" relation);
  Ok (observationRelationSemanticKey type target).
Definition sortRelations (relations : option json) : V json :=
  l ← as_array relations; sorted ← sortByKey relation_key l; Ok (JArr sorted).

(** [undefined] is [Ok None]. *)
Fixpoint sortAtPath (path : list string) (value : json) : V (option json) :=
  match path, value with
  | [], JArr l => sorted ← sortByKey canonicalObservationJson l; Ok (Some (JArr sorted))
  | head :: path, JObj fields =>
      match get_field head fields with
      | None => Ok None
      | Some child =>
          sorted ← sortAtPath path child;
          Ok (fmap (M := option) (λ child, JObj (update_field head child fields)) sorted)
      end
  | _, _ => Ok None
  end.
Definition sortExtensionSetAtPath (payload : json) (value : json) : V json :=
  pointer ← as_text (Some value);
  let path := parseJsonPointer pointer in
  _ ← reject_if (bool_decide (path = [])) invalid;
  sorted ← sortAtPath path payload;
  match sorted with Some (JObj _ as payload) => Ok payload | _ => Throw invalid end.

(** A record built key by key: [out["__proto__"] = item] makes no property. *)
Definition sortRecordByNormalizedKey (fields : list (string * json)) : list (string * json) :=
  filter (λ kv, kv.1 ≠ "__proto__") (snd <$> sort_fields ((λ kv : string * json, (nfc kv.1, kv)) <$> fields)).

Definition canonicalizeExtensionPayload (extension : list (string * json)) : V json :=
  payload ← as_object (get_field "payload" extension);
  pointers ← match get_field "setSemantics" extension with
             | None | Some JNull => Ok []
             | Some value => as_array (Some value)
             end;
  payload ← foldl (λ payload pointer, payload ← payload; sortExtensionSetAtPath payload pointer)
              (Ok (JObj payload)) pointers;
  if is_text (get_field "type" extension) WEB_EXTENSION_V1_TYPE then
    match payload with
    | JObj fields =>
        match get_field "query" fields with
        | Some (JObj query) => Ok (JObj (update_field "query" (JObj (sortRecordByNormalizedKey query)) fields))
        | _ => Ok payload
        end
    | _ => Ok payload
    end
  else Ok payload.

Definition canonicalizeExtension (kv : string * json) : V (string * json) :=
  extension ← as_object (Some kv.2);
  payload ← canonicalizeExtensionPayload extension;
  Ok (kv.1, JObj (update_field "payload" payload extension)).
Definition canonicalizeExtensions (value : option json) : V json :=
  extensions ← as_object value;
  canonical ← mapM canonicalizeExtension extensions;
  Ok (JObj canonical).

Definition canonicalizeNode (value : json) : V json :=
  node ← as_object (Some value);
  relations ← sortRelations (get_field "relations" node);
  extensions ← canonicalizeExtensions (get_field "extensions" node);
  Ok (JObj (update_field "extensions" extensions (update_field "relations" relations node))).
Definition sortNodes (value : option json) : V json :=
  nodes ← as_array value;
  sorted ← sortByKey (λ value, node ← as_object (Some value); as_text (get_field "id" node)) nodes;
  canonical ← mapM canonicalizeNode sorted;
  Ok (JArr canonical).

Definition canonicalizeObservationGraph (value : json) : V json :=
  graph ← as_object (Some value);
  rootNodeIds ← sortStringSet (get_field "rootNodeIds" graph);
  nodes ← sortNodes (get_field "nodes" graph);
  evidence ← sortStringSet (get_field "evidenceRefs" graph);
  extensions ← canonicalizeExtensions (Some (graph_extensions graph));
  Ok (JObj (update_field "extensions" extensions (update_field "evidenceRefs" evidence
             (update_field "nodes" nodes (update_field "rootNodeIds" rootNodeIds graph))))).

Definition canonicalObservationGraphJson (graph : json) : V string :=
  canonical ← canonicalizeObservationGraph graph; encode canonical.
Definition canonicalObservationHash (value : json) : V string :=
  text ← canonicalObservationJson value; Ok (sha256_hex text).
Definition observationGraphHash (opts : ValidateOptions) (graph : json) : V string :=
  _ ← validateObservationGraphV1 opts graph;
  text ← canonicalObservationGraphJson graph;
  Ok (sha256_hex text).

(** ** Reading extensions *)
Definition extension_key (name : string) (major : string) : string := name +:+ "/v" +:+ major.
Definition requireExtensionMajorFromMap (extensions : list (string * json)) (name major : string) : V json :=
  match get_field (extension_key name major) extensions with
  | Some extension => Ok extension
  | None => Throw (ObservationError ExtensionVersionUnsupported)
  end.
Definition graph_field (key : string) (graph : json) : option json :=
  match graph with JObj fields => get_field key fields | _ => None end.
Definition extensions_of (graph : json) : list (string * json) :=
  match graph_field "extensions" graph with Some (JObj extensions) => extensions | _ => [] end.
Definition requireGraphExtensionMajor (graph : json) (name major : string) : V json :=
  requireExtensionMajorFromMap (extensions_of graph) name major.
Definition findGraphExtensionMajor (graph : json) (name major : string) : option json :=
  get_field (extension_key name major) (extensions_of graph).

End observation.
End Observation.
