(* ===== verification/ObservationSafety.v ===== *)
(** * Observation Graphs: what the validator guarantees

    For the validator of [Observation]: a graph it accepts is closed (every root and
    relation names a node), its nodes are told apart, no secret value is left in it,
    its evidence resolves, and its URL parts are canonical and redacted. *)
From S2P Require Import Prelude Number Json CanonicalJson RunnerProtocol Regex Observation.
From Stdlib Require Import Ascii.

Module ObservationSafety.
Import Observation.

(** ** Lists of checks *)
Lemma each_Ok {A} (f : A → V unit) l : each f l = Ok tt ↔ Forall (λ x, f x = Ok tt) l.
Proof.
  induction l as [|x l IH]; [by split|]. rewrite Forall_cons, <- IH. unfold each. cbn [foldr].
  rewrite bind_Ok. split.
  - by intros ([] & ? & ?).
  - intros [? ?]. by exists tt.
Qed.

Lemma mapM_Ok {A B} (f : A → V B) l k : mapM f l = Ok k ↔ Forall2 (λ a b, f a = Ok b) l k.
Proof.
  split.
  - revert k. induction l as [|x l IH]; intros k H; cbn in H; [injection H as <-; constructor|].
    apply bind_Ok in H as (b & Hb & H). apply bind_Ok in H as (k1 & H1 & [= <-]). constructor; auto.
  - induction 1 as [|x b l k Hb _ IH]; [done|]. cbn. by rewrite Hb, IH.
Qed.

Lemma assertObject_Ok value fields : assertObject value = Ok fields ↔ value = Some (JObj fields).
Proof. destruct value as [[]|]; cbn; split; congruence. Qed.
Lemma assertArray_Ok value l : assertArray value = Ok l ↔ value = Some (JArr l).
Proof. destruct value as [[]|]; cbn; split; congruence. Qed.
Lemma assertNonEmptyString_Ok value s :
  assertNonEmptyString value = Ok s ↔ value = Some (JStr s) ∧ s ≠ EmptyString.
Proof.
  destruct value as [[| | |t| |]|]; cbn; try (split; [done|by intros []]).
  destruct (String.eqb_spec t EmptyString) as [->|]; split; [done|naive_solver..].
Qed.
Lemma is_text_true value s : is_text value s = true ↔ value = Some (JStr s).
Proof.
  destruct value as [[| | |t| |]|]; cbn; try (split; done). rewrite String.eqb_eq. split; congruence.
Qed.
Lemma one_of_Some texts value s : one_of texts value = Some s ↔ value = Some (JStr s) ∧ s ∈ texts.
Proof.
  destruct value as [[| | |t| |]|]; cbn; try (split; [done|by intros []]).
  unfold includes. case_bool_decide; split; naive_solver.
Qed.

(** The steps of a validation that returned. *)
Ltac inv_valid :=
  inv_parse;
  repeat match goal with
  | H : assertObject _ = Ok _ |- _ => apply assertObject_Ok in H
  | H : assertArray _ = Ok _ |- _ => apply assertArray_Ok in H
  | H : assertNonEmptyString _ = Ok _ |- _ => apply assertNonEmptyString_Ok in H as [? ?]
  | H : one_of _ _ = Some _ |- _ => apply one_of_Some in H as [? ?]
  | H : is_text _ _ = true |- _ => apply is_text_true in H
  | H : mapM _ _ = Ok _ |- _ => apply mapM_Ok in H
  | H : each _ _ = Ok _ |- _ => apply each_Ok in H
  | H : Some _ = Some _ |- _ => injection H as H; subst
  | u : unit |- _ => destruct u
  end.

Lemma get_field_elem k v fields : get_field k fields = Some v → (k, v) ∈ fields.
Proof.
  induction fields as [|[k' v'] fields IH]; cbn; [done|].
  destruct (String.eqb_spec k' k) as [->|]; [intros [= ->]; left|]. intros H. right. by apply IH.
Qed.

(** ** Masks and paths *)

(** A text of asterisks and bullets. *)
Definition masked (s : string) : Prop :=
  ∃ pieces, bytes s = concat pieces ∧ Forall (λ p, p = [42] ∨ p = [226; 128; 162])%Z pieces.

Lemma one_byte b l : Regex.language (Regex.One [(b, b)]) l → l = [b].
Proof.
  intros (x & -> & Hx). cbn in Hx. rewrite orb_false_r, andb_true_iff, !Z.leb_le in Hx. f_equal. lia.
Qed.

Definition mask_piece (p : list Z) : Prop := p = [42%Z] ∨ p = [226; 128; 162]%Z.
Lemma MASK_masked s : Regex.test MASK s = true → masked s.
Proof.
  rewrite Regex.test_language. unfold masked. generalize (bytes s) as l.
  assert (∀ r, (∀ p, Regex.language r p → mask_piece p) → ∀ l, Regex.language (Regex.Plus r) l →
    ∃ pieces, l = concat pieces ∧ Forall mask_piece pieces) as Hplus.
  { intros r Hr l (u & v & -> & Hu & Hv). change (Regex.starred (Regex.language r) v) in Hv.
    assert (∃ pieces, v = concat pieces ∧ Forall mask_piece pieces) as (pieces & -> & Hall).
    { clear Hu. induction Hv as [|u' v' Hu' _ (ps & -> & Hps)]; [by exists []|].
      exists (u' :: ps). split; [done|]. constructor; auto. }
    exists (u :: pieces). split; [done|]. constructor; auto. }
  apply Hplus. intros p [Hp|(x & y & -> & Hx & y1 & y2 & -> & Hy1 & Hy2)].
  - left. by apply Regex.language_lit in Hp.
  - right. by rewrite (one_byte _ _ Hx), (one_byte _ _ Hy1), (one_byte _ _ Hy2).
Qed.

(** What a separator may be followed by: nothing, or another separator. *)
Definition at_separator (v : list Z) : Prop := v = [] ∨ ∃ v', v = 47%Z :: v'.

(** The first part of a split text starts it; each of the others follows a
    separator. *)
Lemma split_parts s :
  ∃ p ps, split "/" s = p :: ps ∧ (∃ v, bytes s = bytes p ++ v ∧ at_separator v) ∧
    ∀ q, q ∈ ps → ∃ u v, bytes s = u ++ [47%Z] ++ bytes q ++ v ∧ at_separator v.
Proof.
  induction s as [|c s (p & ps & E & (v & Hv & Hsep) & Hps)]; cbn [split].
  { exists EmptyString, []. split_and!; [done|by exists []; split; [|left]|]. intros q Hq. by apply elem_of_nil in Hq. }
  rewrite E. destruct (Ascii.eqb_spec c "/") as [->|].
  - exists EmptyString, (p :: ps). split_and!; [done| |].
    + exists (bytes (String "/" s)). split; [done|]. right. by eexists.
    + intros q Hq. apply elem_of_cons in Hq as [-> | Hq].
      * exists [], v. cbn. by rewrite Hv.
      * destruct (Hps q Hq) as (u & w & Hs & Hw). exists (47%Z :: u), w. cbn in *. by rewrite Hs.
  - exists (String c p), ps. split_and!; [done| |].
    + exists v. cbn. by rewrite Hv.
    + intros q Hq. destruct (Hps q Hq) as (u & w & Hs & Hw). exists (byte_of c :: u), w. cbn in *. by rewrite Hs.
Qed.

Definition segment (p : string) : list string := split "/" p.

(** The language of [.*], of whole paths, and of a path with a dot segment. *)
Lemma path_text_dots p : Regex.language path_text p → Forall (λ b, Regex.in_class dot b = true) p.
Proof.
  assert (∀ c b, Regex.in_class c b = true → forallb (λ r, (0 <=? r.1) && (14 <=? r.1) && (r.2 <=? 255)) c = true →
    Regex.in_class dot b = true)%Z as Hclass.
  { unfold Regex.in_class. intros c b Hb Hc. apply existsb_exists in Hb as (r & Hr & Hb).
    rewrite forallb_forall in Hc. specialize (Hc r Hr). apply existsb_exists. exists (14, 255)%Z.
    split; [by right; right; left|]. rewrite !andb_true_iff, !Z.leb_le in *. cbn. lia. }
  intros (u & v & -> & Hu%Regex.language_lit & Hv). subst. apply Forall_app. split; [by repeat constructor|].
  change (Regex.starred (Regex.language (Regex.Or (Regex.One path_char)
    (Regex.Seq (Regex.lit "%") (Regex.Seq (Regex.One hex) (Regex.One hex))))) v) in Hv.
  induction Hv as [|w v Hw _ IH]; [done|]. apply Forall_app. split; [|done].
  destruct Hw as [(b & -> & Hb)|(a & b & -> & Ha%Regex.language_lit & x & y & -> & (b1 & -> & H1) & b2 & -> & H2)].
  - repeat constructor. by eapply Hclass.
  - subst. repeat constructor; by eapply Hclass.
Qed.

Lemma dot_segment_refused p part :
  Regex.test WEB_PATHNAME_PATTERN p = true → part ∈ segment p → part ≠ "." ∧ part ≠ "..".
Proof.
  rewrite Regex.test_language. intros (_ & Hdots & _ & Htext%path_text_dots) Hpart.
  assert (∀ t v pre, part = t → (t = "." ∨ t = "..") → bytes p = pre ++ bytes t ++ v → at_separator v →
    (pre = [] ∨ ∃ u, pre = u ++ [47%Z]) → False) as Hno.
  { intros t v pre _ Ht Hp Hv Hpre. apply Hdots. exists pre, (bytes t ++ v). split_and!; [done| |].
    - destruct Hpre as [-> | [u ->]]; [by right|left]. exists u, [47%Z].
      split_and!; [done| |by apply Regex.language_lit]. apply Regex.language_star_one.
      rewrite Hp, !Forall_app in Htext. tauto.
    - exists (bytes "."), (drop 1 (bytes t) ++ v). split_and!; [by destruct Ht as [-> | ->]|by apply Regex.language_lit|].
      exists (drop 1 (bytes t)), v. split_and!; [done| |].
      + destruct Ht as [-> | ->]; [by right|left; by apply Regex.language_lit].
      + destruct Hv as [-> | [v' ->]]; [by right|left]. exists [47%Z], v'.
        split_and!; [done|by apply Regex.language_lit|apply Regex.language_any]. }
  assert (∀ t, t = "." ∨ t = ".." → part ≠ t) as Hneq.
  { intros t Ht ->. destruct (split_parts p) as (q & qs & E & (v & Hv & Hsep) & Hqs).
    unfold segment in Hpart. rewrite E in Hpart. apply elem_of_cons in Hpart as [<- | Hpart].
    - by apply (Hno t v []); [| |done| |left].
    - destruct (Hqs _ Hpart) as (u & w & Hp & Hw). apply (Hno t w (u ++ [47%Z])); [done|done| |done|right; by exists u].
      by rewrite Hp, <- !app_assoc. }
  split; apply Hneq; auto.
Qed.

(** ** What holds of an accepted graph *)
Section validity.
Context (nfc : string → string) (number_text : number → string).
Context (new_URL : string → option string → option ParsedUrl).
Context (opts : ValidateOptions).
Notation validate := (validateObservationGraphV1 nfc number_text new_URL opts).

(** An evidence reference: it names an artifact the resolver knows. *)
Definition evidence_resolves (value : json) : Prop :=
  ∃ ref, value = JStr ref ∧ ref ≠ EmptyString ∧ ∀ resolver, evidenceResolver opts = Some resolver → resolver ref = true.

Definition relation_closed (ids : list string) (value : json) : Prop :=
  ∃ fields type target, value = JObj fields ∧ get_field "type" fields = Some (JStr type) ∧
    type ∈ RELATION_TYPES ∧ get_field "targetNodeId" fields = Some (JStr target) ∧ target ∈ ids.

(** A node called [id] in a graph whose nodes are [ids]. *)
Record node_sound (ids : list string) (id : string) (node : list (string * json)) : Prop := {
  ns_id : get_field "id" node = Some (JStr id);
  ns_secret : get_field "sensitivity" node = Some (JStr "secret") →
    ∀ value, get_field "value" node = Some value → ∃ s, value = JStr s ∧ masked s;
  ns_confidence : ∃ n, get_field "confidence" node = Some (JNum n) ∧ is_finite n = true ∧
    num_leb (num_of_Z 0) n = true ∧ num_leb n (num_of_Z 1) = true;
  ns_relations : ∃ l, get_field "relations" node = Some (JArr l) ∧ Forall (relation_closed ids) l;
  ns_evidence : ∃ l, get_field "evidenceRefs" node = Some (JArr l) ∧ Forall evidence_resolves l;
  ns_extensions : ∃ extensions, get_field "extensions" node = Some (JObj extensions) ∧
    get_field WEB_EXTENSION_V1_TYPE extensions = None;
}.

(** The URL parts of a [web/v1] extension: an origin without credentials, a path
    without dot segments, and the names of allowed query keys. *)
Record web_sound (payload : list (string * json)) : Prop := {
  ws_origin : ∃ o parsed, get_field "origin" payload = Some (JStr o) ∧ new_URL o None = Some parsed ∧
    origin (url parsed) = o ∧ username (url parsed) = EmptyString ∧ password (url parsed) = EmptyString;
  ws_pathname : ∃ p, get_field "pathname" payload = Some (JStr p) ∧ str_startsWith p "/" = true ∧
    str_includes p "?" = false ∧ str_includes p "#" = false ∧
    ∀ part, part ∈ segment p → part ≠ "." ∧ part ≠ "..";
  ws_query : ∃ query, get_field "query" payload = Some (JObj query) ∧
    ∀ key value, (key, value) ∈ query →
      key ∈ default [] (allowedWebQueryKeys opts) ∧ value = JStr "[redacted]";
}.

Record graph_sound (graph : list (string * json)) : Prop := {
  gs_nodes : ∃ nodes ids, get_field "nodes" graph = Some (JArr nodes) ∧
    NoDup ids ∧ NoDup (nfc <$> ids) ∧
    Forall2 (λ id value, ∃ node, value = JObj node ∧ node_sound ids id node) ids nodes ∧
    ∃ roots, get_field "rootNodeIds" graph = Some (JArr roots) ∧ roots ≠ [] ∧
      Forall (λ value, ∃ id, value = JStr id ∧ id ∈ ids) roots;
  gs_evidence : ∃ l, get_field "evidenceRefs" graph = Some (JArr l) ∧ Forall evidence_resolves l;
  gs_web : ∀ extensions extension, get_field "extensions" graph = Some (JObj extensions) →
    get_field WEB_EXTENSION_V1_TYPE extensions = Some extension →
    ∃ fields payload, extension = JObj fields ∧ get_field "payload" fields = Some (JObj payload) ∧ web_sound payload;
}.

(** *** From the checks *)
Lemma validateEvidence_sound l : validateEvidence opts l = Ok tt → Forall evidence_resolves l.
Proof.
  intros H. apply each_Ok in H. eapply Forall_impl; [exact H|]. intros value Hv. cbv beta in Hv.
  apply bind_Ok in Hv as (ref & Href%assertNonEmptyString_Ok & Hv). destruct Href as [[= ->] Hne].
  exists ref. split_and!; [done..|]. intros resolver Hr. rewrite Hr in Hv.
  apply reject_if_Ok in Hv. by apply negb_false_iff.
Qed.

Lemma validateQuery_sound query :
  each (validateQueryEntry nfc opts) query = Ok tt →
  ∀ key value, (key, value) ∈ query → key ∈ default [] (allowedWebQueryKeys opts) ∧ value = JStr "[redacted]".
Proof.
  intros H key value Hin. apply each_Ok in H. rewrite Forall_forall in H. specialize (H _ Hin).
  unfold validateQueryEntry in H. inv_parse. cbn [fst snd] in *. split.
  - unfold includes in *. by case_bool_decide.
  - match goal with H : is_text _ _ = true |- _ => apply is_text_true in H; by injection H end.
Qed.

Lemma web_origin_sound o : web_origin_ok new_URL o = true →
  ∃ parsed, new_URL o None = Some parsed ∧ origin (url parsed) = o ∧
    username (url parsed) = EmptyString ∧ password (url parsed) = EmptyString.
Proof.
  unfold web_origin_ok. destruct (new_URL o None) as [parsed|]; [|done].
  rewrite !andb_true_iff, !String.eqb_eq. intros H. exists parsed. tauto.
Qed.
Lemma pathname_sound p : pathname_ok new_URL p = true →
  str_startsWith p "/" = true ∧ str_includes p "?" = false ∧ str_includes p "#" = false ∧
  ∀ part, part ∈ segment p → part ≠ "." ∧ part ≠ "..".
Proof.
  unfold pathname_ok. destruct (new_URL p _) as [parsed|]; [|done].
  rewrite !andb_true_iff, !negb_true_iff. intros ((((H1 & H2) & H3) & _) & H4). split_and!; [done..|].
  intros part. by apply dot_segment_refused.
Qed.

Lemma validateWeb_sound payload :
  validateWebExtensionV1 nfc new_URL opts payload = Ok tt → web_sound payload.
Proof.
  unfold validateWebExtensionV1. intros H.
  apply bind_Ok in H as ([] & _ & H). apply bind_Ok in H as ([] & Ho & H). apply bind_Ok in H as ([] & Hp & H).
  apply bind_Ok in H as ([] & _ & H). apply bind_Ok in H as (viewport & _ & H).
  apply bind_Ok in H as ([] & _ & H). apply bind_Ok in H as ([] & _ & H). apply bind_Ok in H as ([] & _ & H).
  apply bind_Ok in H as ([] & _ & H). apply bind_Ok in H as (query & Hq%assertObject_Ok & H).
  unfold assertWebOrigin, assertPathname in Ho, Hp. inv_valid. split.
  - match goal with H : web_origin_ok _ _ = true |- _ => apply web_origin_sound in H as (parsed & ?) end.
    eexists _, parsed. naive_solver.
  - match goal with H : pathname_ok _ _ = true |- _ => apply pathname_sound in H end. eexists. naive_solver.
  - exists query. split; [done|]. apply validateQuery_sound. by apply each_Ok.
Qed.

Lemma validateExtensions_web allow value extensions extension :
  validateExtensions nfc number_text new_URL opts allow value = Ok tt → value = Some (JObj extensions) →
  get_field WEB_EXTENSION_V1_TYPE extensions = Some extension →
  allow = true ∧ ∃ fields payload, extension = JObj fields ∧ get_field "payload" fields = Some (JObj payload) ∧ web_sound payload.
Proof.
  unfold validateExtensions. intros H -> Hw%get_field_elem. apply bind_Ok in H as (exts & [= <-]%assertObject_Ok & H).
  apply each_Ok in H. rewrite Forall_forall in H. specialize (H _ Hw). unfold validateExtension in H.
  inv_valid; [|done].
  split; [done|]. eexists _, _. split_and!; [done..|]. by apply validateWeb_sound.
Qed.

Lemma assertMasked_sound value s : assertMasked value = Ok tt → value = Some (JStr s) → masked s.
Proof.
  intros H ->. cbn in H. apply reject_if_Ok, negb_false_iff, orb_true_iff in H as [H|H].
  - apply String.eqb_eq in H as ->. by exists [].
  - by apply MASK_masked.
Qed.
Lemma assertConfidence_sound value : assertConfidence value = Ok tt →
  ∃ n, value = Some (JNum n) ∧ is_finite n = true ∧ num_leb (num_of_Z 0) n = true ∧ num_leb n (num_of_Z 1) = true.
Proof.
  destruct value as [[| |n| | |]|]; try done. cbn. intros H%reject_if_Ok.
  apply orb_false_iff in H as [[Hf%negb_false_iff H0]%orb_false_iff H1]. exists n.
  assert (n ≠ NaN) by (by intros ->). rewrite num_ltb_leb in H0, H1 by done. by split_and!; [| |apply negb_false_iff..].
Qed.

(** What one node's check establishes; that its relations are closed is checked
    later, against all ids. *)
Record node_checked (node : list (string * json)) (view : NodeView) : Prop := {
  nc_id : get_field "id" node = Some (JStr (nodeId view));
  nc_secret : get_field "sensitivity" node = Some (JStr "secret") →
    ∀ value, get_field "value" node = Some value → ∃ s, value = JStr s ∧ masked s;
  nc_confidence : ∃ n, get_field "confidence" node = Some (JNum n) ∧ is_finite n = true ∧
    num_leb (num_of_Z 0) n = true ∧ num_leb n (num_of_Z 1) = true;
  nc_relations : ∃ l, get_field "relations" node = Some (JArr l) ∧
    Forall2 (λ value r, validateRelation value = Ok r) l (relations view);
  nc_evidence : get_field "evidenceRefs" node = Some (JArr (evidenceRefs view));
  nc_extensions : validateExtensions nfc number_text new_URL opts false (get_field "extensions" node) = Ok tt;
}.

Lemma validateNode_checked value view :
  validateNode nfc number_text new_URL opts value = Ok view → ∃ node, value = JObj node ∧ node_checked node view.
Proof.
  unfold validateNode. intros H. apply bind_Ok in H as (node & Hv%assertObject_Ok & H).
  injection Hv as ->. exists node. split; [done|].
  apply bind_Ok in H as ([] & _ & H). apply bind_Ok in H as (id & [Hid _]%assertNonEmptyString_Ok & H).
  apply bind_Ok in H as (role & _ & H). apply bind_Ok in H as ([] & _ & H).
  destruct (one_of SENSITIVITIES (get_field "sensitivity" node)) as [sensitivity|] eqn:Hs; [|done].
  apply one_of_Some in Hs as [Hs _].
  apply bind_Ok in H as ([] & Hmask & H). apply bind_Ok in H as ([] & Hopt%reject_if_Ok & H).
  apply bind_Ok in H as ([] & Hc & H). apply bind_Ok in H as ([] & _ & H). apply bind_Ok in H as ([] & _ & H).
  apply bind_Ok in H as (rels & Hrels%assertArray_Ok & H). apply bind_Ok in H as (relations & Hr%mapM_Ok & H).
  apply bind_Ok in H as ([] & _ & H). apply bind_Ok in H as (evidence & Hev%assertArray_Ok & H).
  apply bind_Ok in H as ([] & Hext & [= <-]). split; cbn; [done| |by apply assertConfidence_sound|by exists rels|done|done].
  intros Hsecret value Hvalue. rewrite Hs in Hsecret. injection Hsecret as ->. cbn in Hmask.
  rewrite Hvalue in Hmask, Hopt. apply negb_false_iff in Hopt. destruct value as [| | |s| |]; try done.
  exists s. split; [done|]. by eapply assertMasked_sound.
Qed.

(** [normalizedNodeIds] maps the canonical key of every id seen to that id. *)
Definition keyed (ids : gset string) (normalized : gmap string string) : Prop :=
  ∀ key id, normalized !! key = Some id ↔ key = nfc id ∧ id ∈ ids.

Lemma keyed_insert ids normalized id :
  keyed ids normalized → normalized !! nfc id = None → keyed ({[id]} ∪ ids) (<[nfc id := id]> normalized).
Proof.
  intros Hk Hnone key id'. rewrite lookup_insert_Some, (Hk key id'), elem_of_union, elem_of_singleton. split.
  - intros [[<- <-]|(? & -> & ?)]; auto.
  - intros [-> [-> | Hid]]; [by left|right]. split; [|done]. intros E.
    assert (normalized !! nfc id' = Some id') as H by by apply Hk. rewrite <- E in H. congruence.
Qed.

Lemma validateNodes_ids ids normalized l views :
  keyed ids normalized → validateNodes nfc number_text new_URL opts ids normalized l = Ok views →
  Forall2 (λ value view, validateNode nfc number_text new_URL opts value = Ok view) l views ∧
  NoDup (nfc <$> (nodeId <$> views)) ∧ (∀ id, id ∈ ids → nfc id ∉ nfc <$> (nodeId <$> views)).
Proof.
  revert ids normalized views. induction l as [|value l IH]; intros ids normalized views Hk; cbn [validateNodes].
  { intros [= <-]. split_and!; [constructor..|]. intros id _ H. by apply elem_of_nil in H. }
  intros H. apply bind_Ok in H as (node & Hnode & H).
  apply bind_Ok in H as ([] & Hnew%reject_if_Ok%bool_decide_eq_false & H). apply bind_Ok in H as ([] & Hkey & H).
  apply bind_Ok in H as (rest & Hrest & [= <-]).
  assert (normalized !! nfc (nodeId node) = None) as Hnone.
  { destruct (normalized !! nfc (nodeId node)) as [existing|] eqn:E; [|done]. exfalso.
    apply reject_if_Ok, negb_false_iff, String.eqb_eq in Hkey as ->. by apply Hk in E as [_ ?]. }
  destruct (IH _ _ _ (keyed_insert _ _ _ Hk Hnone) Hrest) as (H1 & H2 & H3).
  split_and!; [by constructor| |].
  - cbn. constructor; [|done]. apply H3. set_solver.
  - cbn. intros id Hid Hin. apply elem_of_cons in Hin as [E|Hin]; [|by apply (H3 id); [set_solver|]].
    assert (normalized !! nfc id = Some id) as H by by apply Hk. rewrite E in H. congruence.
Qed.

Lemma NoDup_of_fmap {A B} (f : A → B) l : NoDup (f <$> l) → NoDup l.
Proof. apply NoDup_fmap_1. Qed.

Lemma relation_sound ids value r :
  validateRelation value = Ok r → assertNodeExists ids r.2 = Ok tt → relation_closed ids value.
Proof.
  unfold validateRelation, assertNodeExists. intros H Hex.
  apply bind_Ok in H as (fields & Hv%assertObject_Ok & H). injection Hv as ->. apply bind_Ok in H as ([] & _ & H).
  destruct (one_of RELATION_TYPES (get_field "type" fields)) as [type|] eqn:Ht; [|done].
  apply one_of_Some in Ht as [Ht Hin]. apply bind_Ok in H as (target & [Htarget _]%assertNonEmptyString_Ok & [= <-]).
  apply reject_if_Ok, negb_false_iff in Hex. unfold includes in Hex. apply bool_decide_eq_true in Hex.
  by exists fields, type, target.
Qed.

Lemma relations_sound ids view l :
  validateRelations nfc ids view = Ok tt → Forall2 (λ value r, validateRelation value = Ok r) l (relations view) →
  Forall (relation_closed ids) l.
Proof.
  intros H Hl. apply bind_Ok in H as ([] & _ & H%each_Ok).
  induction Hl as [|value r l rs Hr _ IH]; [done|]. apply Forall_cons in H as [Hr' H].
  constructor; [by eapply relation_sound|by apply IH].
Qed.

Lemma node_checked_sound ids node view :
  node_checked node view → validateRelations nfc ids view = Ok tt → validateEvidence opts (evidenceRefs view) = Ok tt →
  node_sound ids (nodeId view) node.
Proof.
  intros [Hid Hsec Hc (l & Hl & Hrel) Hev Hext] Hr He. split; [done..| | |].
  - exists l. split; [done|]. by eapply relations_sound.
  - eexists. split; [done|]. by apply validateEvidence_sound.
  - pose proof Hext as Hext'. apply bind_Ok in Hext' as (extensions & Hx%assertObject_Ok & _).
    exists extensions. split; [done|]. destruct (get_field WEB_EXTENSION_V1_TYPE extensions) as [extension|] eqn:Hw; [|done].
    by destruct (validateExtensions_web _ _ _ _ Hext Hx Hw) as [? _].
Qed.

Lemma roots_sound ids roots : validateRoots ids roots = Ok tt →
  roots ≠ [] ∧ Forall (λ value, ∃ id, value = JStr id ∧ id ∈ ids) roots.
Proof.
  intros H. apply bind_Ok in H as ([] & Hne%reject_if_Ok%bool_decide_eq_false & H%each_Ok). split; [done|].
  eapply Forall_impl; [exact H|]. intros value Hv. cbv beta in Hv.
  apply bind_Ok in Hv as (root & [[= ->] _]%assertNonEmptyString_Ok & Hv%reject_if_Ok%negb_false_iff).
  exists root. split; [done|]. unfold includes in Hv. by apply bool_decide_eq_true in Hv.
Qed.

Lemma nodes_sound ids l views :
  Forall2 (λ value view, validateNode nfc number_text new_URL opts value = Ok view) l views →
  Forall (λ view, validateRelations nfc ids view = Ok tt) views →
  Forall (λ view, validateEvidence opts (evidenceRefs view) = Ok tt) views →
  Forall2 (λ id value, ∃ node, value = JObj node ∧ node_sound ids id node) (nodeId <$> views) l.
Proof.
  intros Hall Hvrel Hvne. induction Hall as [|value view l vs Hv _ IH]; [constructor|].
  apply Forall_cons in Hvrel as [Hr Hvrel]. apply Forall_cons in Hvne as [He Hvne].
  cbn. constructor; [|by apply IH]. apply validateNode_checked in Hv as (node & -> & Hnode).
  exists node. split; [done|]. by apply node_checked_sound.
Qed.

(** The checks in their order. *)
Lemma validate_inv value value' :
  validate value = Ok value' → value' = value ∧ ∃ graph nodes roots evidence views,
    value = JObj graph ∧ assertNoUnknownFields graph CANONICAL_GRAPH_FIELDS = Ok tt ∧
    get_field "nodes" graph = Some (JArr nodes) ∧
    get_field "rootNodeIds" graph = Some (JArr roots) ∧ get_field "evidenceRefs" graph = Some (JArr evidence) ∧
    validateExtensions nfc number_text new_URL opts true (Some (graph_extensions graph)) = Ok tt ∧
    assertUniqueCanonicalStringKeys nfc roots = Ok tt ∧ assertUniqueCanonicalStringKeys nfc evidence = Ok tt ∧
    validateNodes nfc number_text new_URL opts ∅ ∅ nodes = Ok views ∧
    validateRoots (nodeId <$> views) roots = Ok tt ∧
    Forall (λ view, validateRelations nfc (nodeId <$> views) view = Ok tt) views ∧
    validateEvidence opts evidence = Ok tt ∧
    Forall (λ view, validateEvidence opts (evidenceRefs view) = Ok tt) views.
Proof.
  unfold validateObservationGraphV1. intros H. apply bind_Ok in H as (graph & Hv%assertObject_Ok & H).
  injection Hv as ->. apply bind_Ok in H as ([] & Hunknown & H). apply bind_Ok in H as ([] & _ & H).
  apply bind_Ok in H as (? & _ & H). apply bind_Ok in H as (target & _ & H). apply bind_Ok in H as ([] & _ & H).
  apply bind_Ok in H as ([] & _ & H). apply bind_Ok in H as (? & _ & H). apply bind_Ok in H as (? & _ & H).
  apply bind_Ok in H as (nodes & Hnodes%assertArray_Ok & H). apply bind_Ok in H as (roots & Hroots%assertArray_Ok & H).
  apply bind_Ok in H as (evidence & Hev%assertArray_Ok & H). apply bind_Ok in H as ([] & Hext & H).
  apply bind_Ok in H as ([] & Hur & H). apply bind_Ok in H as ([] & Hue & H). apply bind_Ok in H as (views & Hviews & H).
  apply bind_Ok in H as ([] & Hvr & H). apply bind_Ok in H as ([] & Hvrel%each_Ok & H).
  apply bind_Ok in H as ([] & Hve & H). apply bind_Ok in H as ([] & Hvne%each_Ok & [= <-]). split; [done|].
  by exists graph, nodes, roots, evidence, views.
Qed.

Lemma validated_sound value value' :
  validate value = Ok value' → value' = value ∧ ∃ graph, value = JObj graph ∧ graph_sound graph.
Proof.
  intros (-> & graph & nodes & roots & evidence & views & -> & _ & Hn & Hr & He & Hext & _ & _ & Hviews & Hvr & Hvrel & Hve & Hvne)%validate_inv.
  split; [done|]. exists graph. split; [done|].
  destruct (validateNodes_ids ∅ ∅ nodes views) as (Hall & Hnd & _); [|done|].
  { intros key id. rewrite lookup_empty. set_solver. }
  split.
  - exists nodes, (nodeId <$> views). apply roots_sound in Hvr as [Hne Hroots].
    split_and!; [done|by apply NoDup_of_fmap in Hnd|done| |by exists roots].
    by apply (nodes_sound (nodeId <$> views)).
  - exists evidence. split; [done|]. by apply validateEvidence_sound.
  - intros extensions extension Hx Hw. unfold graph_extensions in Hext. rewrite Hx in Hext.
    destruct (validateExtensions_web _ _ _ _ Hext eq_refl Hw) as [_ Hweb]. exact Hweb.
Qed.
(** C14: The validator returns the graph it was given, and only a graph whose node ids
    are distinct, also in normal form; whose roots and relations name its nodes, by
    allowed relations; whose secret nodes have a masked value or none; whose
    confidences lie between 0 and 1; whose evidence, the graph's and the nodes', the
    resolver confirms; and whose page has an origin without credentials, a path
    without dot segments and only allowed, redacted query keys. *)
Theorem valid_graph_sound value value' :
  validate value = Ok value' → value' = value ∧ ∃ graph, value = JObj graph ∧ graph_sound graph.
Proof. apply validated_sound. Qed.
End validity.
End ObservationSafety.
