(* ===== verification/ObservationCanonical.v ===== *)
(** * Observation Graphs: the canonical text

    The text a graph is hashed by: it exists for every accepted graph whose numbers
    are finite, and it does not depend on the order of object keys, nodes, roots,
    relations or evidence references. *)
From S2P Require Import Prelude Number Json CanonicalJson RunnerProtocol Regex Observation ObservationSafety.
From Stdlib Require Import Ascii.
From stdpp Require Import sorting.
Import CanonicalJson(key_leb, lex_leb, code_units, sort_fields, insert_field, normalize, quote, entry, join).

Module ObservationCanonical.
Import Observation.

(** ** The order of keys *)
Definition units (s : string) : list Z := code_units (length (bytes s)) (bytes s).

Lemma lex_total a b : lex_leb a b = true ∨ lex_leb b a = true.
Proof.
  revert b. induction a as [|x a IH]; intros [|y b]; cbn; [auto..|].
  destruct (Z.lt_trichotomy x y) as [H|[->|H]].
  - left. by rewrite (proj2 (Z.ltb_lt x y) H).
  - rewrite Z.ltb_irrefl, Z.eqb_refl. cbn. apply IH.
  - right. by rewrite (proj2 (Z.ltb_lt y x) H).
Qed.
Lemma lex_trans a b c : lex_leb a b = true → lex_leb b c = true → lex_leb a c = true.
Proof.
  revert b c. induction a as [|x a IH]; intros [|y b] [|z c]; cbn; try done.
  rewrite !orb_true_iff, !andb_true_iff, !Z.ltb_lt, !Z.eqb_eq.
  intros [H1|[-> H1]] [H2|[-> H2]]; try (left; lia). right. split; [done|]. by eapply IH.
Qed.
Lemma lex_antisym a b : lex_leb a b = true → lex_leb b a = true → a = b.
Proof.
  revert b. induction a as [|x a IH]; intros [|y b]; cbn; try done.
  rewrite !orb_true_iff, !andb_true_iff, !Z.ltb_lt, !Z.eqb_eq.
  intros [H1|[-> H1]] [H2|[E H2]]; try lia. f_equal. by apply IH.
Qed.

Section sorted.
Context {A : Type}.
Implicit Types (l : list (string * A)).
Definition field_le (x y : string * A) : Prop := key_leb x.1 y.1 = true.

Lemma insert_sorted_field kv l : StronglySorted field_le l → StronglySorted field_le (insert_field kv l).
Proof.
  induction 1 as [|kv' l Hs IH Hall]; cbn [insert_field]; [by repeat constructor|].
  destruct (key_leb kv.1 kv'.1) eqn:E.
  - repeat constructor; [done..|]. eapply Forall_impl; [exact Hall|]. intros y Hy. by eapply lex_trans.
  - constructor; [done|]. rewrite CanonicalJson.insert_field_perm. constructor; [|done].
    unfold field_le, key_leb in *. destruct (lex_total (units kv'.1) (units kv.1)) as [H|H]; [done|].
    unfold units in H. congruence.
Qed.
Lemma sort_fields_sorted l : StronglySorted field_le (sort_fields l).
Proof. induction l as [|kv l IH]; cbn; [constructor|]. by apply insert_sorted_field. Qed.

(** Sorting forgets the order where the entries of one key are one entry. *)
Lemma sort_fields_unique l l' :
  l ≡ₚ l' → (∀ x y, x ∈ l → y ∈ l → units x.1 = units y.1 → x = y) → sort_fields l = sort_fields l'.
Proof.
  intros Hp Htie. apply (StronglySorted_unique_strong field_le).
  - intros x y Hx Hy Hxy Hyx. rewrite CanonicalJson.sort_fields_perm in Hx. rewrite CanonicalJson.sort_fields_perm, <- Hp in Hy.
    apply Htie; [done|done|]. by apply lex_antisym.
  - apply sort_fields_sorted.
  - apply sort_fields_sorted.
  - by rewrite !CanonicalJson.sort_fields_perm.
Qed.

Lemma get_field_sorted k (fields : list (string * json)) : get_field k (sort_fields fields) = get_field k fields.
Proof.
  induction fields as [|[k' v] fields IH]; [done|]. cbn [sort_fields foldr].
  rewrite CanonicalJson.get_field_insert. cbn [get_field]. unfold sort_fields in IH. by rewrite IH.
Qed.
End sorted.

(** ** The text as a function

    [json_text] throws for a number that is not finite only, and its text is that of
    the value with its keys in order. *)
Fixpoint all_finite (v : json) : bool :=
  match v with
  | JNum n => is_finite n
  | JArr l => forallb all_finite l
  | JObj fields => forallb (λ '(_, x), all_finite x) fields
  | _ => true
  end.

Section text.
Context (norm : string → string) (number_text : number → string).

(** Of a value whose keys are in order. *)
Fixpoint render (v : json) : string :=
  match v with
  | JNull => "null"
  | JStr s => quote (norm s)
  | JNum n => number_text n
  | JBool true => "true"
  | JBool false => "false"
  | JArr l => "[" +:+ join (map render l) +:+ "]"
  | JObj fields => "{" +:+ join (map (λ '(k, x), entry (norm k, render x)) fields) +:+ "}"
  end.

Lemma mapM_cases {A B} (f : A → V B) (ok : A → bool) (g : A → B) l :
  Forall (λ x, f x = if ok x then Ok (g x) else Throw invalid) l →
  mapM f l = if forallb ok l then Ok (map g l) else Throw invalid.
Proof.
  induction 1 as [|x l Hx _ IH]; [done|]. cbn [mapM forallb map]. rewrite Hx, IH.
  by destruct (ok x), (forallb ok l).
Qed.

Lemma json_text_render v :
  json_text number_text norm v = if all_finite v then Ok (render (normalize v)) else Throw invalid.
Proof.
  induction v as [|[]|n|s|l IH|fields IH] using CanonicalJson.json_ind_nested; try done.
  - cbn [json_text all_finite]. rewrite (mapM_cases _ all_finite (λ x, render (normalize x))) by done.
    destruct (forallb all_finite l); [|done]. cbn. by rewrite map_map.
  - cbn [json_text all_finite].
    rewrite (mapM_cases _ (λ '(_, x), all_finite x) (λ '(k, x), (k, render (normalize x)))).
    + destruct (forallb _ fields); [|done]. cbn. do 4 f_equal.
      rewrite !CanonicalJson.sort_fields_map, !map_map. apply map_ext. by intros [k x].
    + eapply Forall_impl; [exact IH|]. intros [k x] Hx. cbn in Hx |- *. rewrite Hx. by destruct (all_finite x).
Qed.

(** [same v w]: equal but for the order of keys. *)
Definition same (v w : json) : Prop := normalize v = normalize w.

Lemma all_finite_normalize v : all_finite (normalize v) = all_finite v.
Proof.
  induction v as [|b|n|s|l IH|fields IH] using CanonicalJson.json_ind_nested; try done; cbn [normalize all_finite].
  - induction IH as [|x l Hx _ IHl]; [done|]. cbn. by rewrite Hx, IHl.
  - rewrite CanonicalJson.sort_fields_map.
    assert (∀ l : list (string * json), Forall (λ kv, all_finite (normalize kv.2) = all_finite kv.2) l →
      forallb (λ '(_, x), all_finite x) (map (λ '(k, x), (k, normalize x)) l) = forallb (λ '(_, x), all_finite x) l) as Hmap.
    { induction 1 as [|[k x] l Hx _ IHl]; [done|]. cbn in *. by rewrite Hx, IHl. }
    rewrite Hmap by by rewrite CanonicalJson.sort_fields_perm.
    apply eq_true_iff_eq. rewrite !forallb_forall. split; intros H kv Hkv; apply H; apply list_elem_of_In;
      apply list_elem_of_In in Hkv; [by rewrite CanonicalJson.sort_fields_perm|by rewrite CanonicalJson.sort_fields_perm in Hkv].
Qed.

Lemma json_text_same v w : same v w → json_text number_text norm v = json_text number_text norm w.
Proof. intros H. rewrite !json_text_render, <- (all_finite_normalize v), <- (all_finite_normalize w). by rewrite H. Qed.

Lemma json_text_total v : all_finite v = true → ∃ text, json_text number_text norm v = Ok text.
Proof. intros H. rewrite json_text_render, H. by eexists. Qed.
End text.

Lemma same_str s w : same (JStr s) w → w = JStr s.
Proof. by destruct w; intros [=]; subst. Qed.
Lemma same_list l l' : map normalize l = map normalize l' ↔ Forall2 same l l'.
Proof.
  split.
  - revert l'. induction l as [|x l IH]; intros [|y l'] [=]; constructor; auto.
  - induction 1 as [|x y l l' Hx _ IH]; [done|]. cbn. by rewrite Hx, IH.
Qed.
Lemma same_arr l w : same (JArr l) w → ∃ l', w = JArr l' ∧ Forall2 same l l'.
Proof. destruct w as [| | | |l'|]; intros [=]. exists l'. by rewrite <- same_list. Qed.
Lemma same_null w : same JNull w → w = JNull.
Proof. by destruct w; intros [=]. Qed.

(** ** Objects that correspond key by key *)
Definition alike (R : string → json → json → Prop) (f f' : list (string * json)) : Prop :=
  Forall2 (λ kv kv', kv.1 = kv'.1 ∧ R kv.1 kv.2 kv'.2) (sort_fields f) (sort_fields f').

Lemma same_obj f f' : same (JObj f) (JObj f') ↔ alike (λ _, same) f f'.
Proof.
  unfold same, alike. cbn [normalize]. rewrite !CanonicalJson.sort_fields_map.
  generalize (sort_fields f) as l, (sort_fields f') as l'. intros l l'. split.
  - intros [= H]. revert l' H. induction l as [|[k x] l IH]; intros [|[k' x'] l'] [=]; subst; constructor; auto.
  - intros H. f_equal. induction H as [|[k x] [k' x'] l l' [E Hx] _ IH]; [done|]. cbn in *. congruence.
Qed.
Lemma same_obj_inv f w : same (JObj f) w → ∃ f', w = JObj f' ∧ alike (λ _, same) f f'.
Proof. intros H. destruct w as [| | | | |f']; try (by inversion H). exists f'. by rewrite <- same_obj. Qed.

Lemma alike_impl (R R' : string → json → json → Prop) f f' :
  (∀ k v w, R k v w → R' k v w) → alike R f f' → alike R' f f'.
Proof. intros HR H. eapply Forall2_impl; [exact H|]. intros ?? [? ?]. auto. Qed.

Lemma alike_elem R f f' k' w : alike R f f' → (k', w) ∈ f' → ∃ v, (k', v) ∈ f ∧ R k' v w.
Proof.
  intros H Hw. rewrite <- CanonicalJson.sort_fields_perm in Hw. apply list_elem_of_lookup in Hw as [i Hi].
  destruct (Forall2_lookup_r _ _ _ _ _ H Hi) as ([k v] & Hv & [E HR]). cbn in *. subst. exists v. split; [|done].
  rewrite <- (CanonicalJson.sort_fields_perm f). by apply list_elem_of_lookup_2 in Hv.
Qed.

Lemma alike_get R f f' k : alike R f f' → option_Forall2 (R k) (get_field k f) (get_field k f').
Proof.
  unfold alike. rewrite <- (get_field_sorted k f), <- (get_field_sorted k f').
  induction 1 as [|[k1 v] [k2 w] l l' [E HR] _ IH]; [constructor|]. cbn in *. subst k2.
  destruct (String.eqb_spec k1 k) as [->|]; [by constructor|done].
Qed.
Lemma alike_get_Some R f f' k v : alike R f f' → get_field k f = Some v → ∃ w, get_field k f' = Some w ∧ R k v w.
Proof. intros H Hv. pose proof (alike_get R f f' k H) as Hk. rewrite Hv in Hk. inversion Hk; subst. eauto. Qed.
Lemma alike_get_None R f f' k : alike R f f' → get_field k f = None → get_field k f' = None.
Proof. intros H Hv. pose proof (alike_get R f f' k H) as Hk. rewrite Hv in Hk. by inversion Hk. Qed.

(** *** Updating a field on both sides *)
Lemma update_insert_same k (x v : json) l :
  update_field k x (insert_field (k, v) l) = insert_field (k, x) l.
Proof.
  induction l as [|[k' y] l IH]; cbn [insert_field fst].
  - cbn. by rewrite String.eqb_refl.
  - destruct (key_leb k k') eqn:E; cbn [update_field]; [by rewrite String.eqb_refl|].
    destruct (String.eqb_spec k' k) as [->|]; [|by rewrite IH].
    unfold key_leb in E. by rewrite CanonicalJson.lex_leb_refl in E.
Qed.
Lemma update_insert_other k (x : json) kv l :
  kv.1 ≠ k → get_field k l ≠ None → update_field k x (insert_field kv l) = insert_field kv (update_field k x l).
Proof.
  intros Hk. induction l as [|[k' y] l IH]; cbn [insert_field get_field update_field fst]; [done|].
  destruct kv as [k0 v0]. cbn [fst] in *. intros Hl.
  destruct (key_leb k0 k') eqn:E; cbn [update_field].
  - destruct (String.eqb_spec k0 k); [done|]. destruct (String.eqb k' k); cbn [insert_field fst]; by rewrite E.
  - destruct (String.eqb k' k); cbn [insert_field fst]; rewrite E; [done|]. by rewrite IH.
Qed.
Lemma sort_update k (x : json) f :
  get_field k f ≠ None → sort_fields (update_field k x f) = update_field k x (sort_fields f).
Proof.
  induction f as [|[k' y] f IH]; [done|]. cbn [get_field update_field]. intros Hf.
  change (sort_fields ((k', y) :: f)) with (insert_field (k', y) (sort_fields f)).
  destruct (String.eqb_spec k' k) as [->|].
  - by rewrite update_insert_same.
  - rewrite update_insert_other by (by rewrite ?get_field_sorted). by rewrite <- IH.
Qed.

Lemma alike_update (R R' : string → json → json → Prop) k x x' f f' :
  alike R f f' → get_field k f ≠ None → R' k x x' → (∀ k' v w, k' ≠ k → R k' v w → R' k' v w) →
  NoDup f.*1 ∨ (∀ v w, R k v w → R' k v w) →
  alike R' (update_field k x f) (update_field k x' f').
Proof.
  intros H Hf Hx HR Hdup. assert (get_field k f' ≠ None) as Hf'.
  { destruct (get_field k f) as [v|] eqn:E; [|done]. destruct (alike_get_Some _ _ _ _ _ H E) as (w & -> & _). done. }
  unfold alike in *. rewrite !sort_update by done. rewrite <- (get_field_sorted k f) in Hf.
  assert (NoDup (sort_fields f).*1 ∨ (∀ v w, R k v w → R' k v w)) as Hdup'.
  { destruct Hdup as [Hd|]; [left|by right]. by rewrite CanonicalJson.sort_fields_perm. }
  clear Hdup Hf'. induction H as [|[k1 v] [k2 w] l l' [E Hv] Hl IH]; [done|]. cbn in *. subst k2.
  destruct (String.eqb_spec k1 k) as [->|Hne].
  - constructor; [done|]. destruct Hdup' as [Hd|HRk].
    + apply NoDup_cons in Hd as [Hk _]. clear -Hl Hk HR.
      induction Hl as [|[k1 v] [k2 w] l l' [E Hv] Hl IH]; constructor; cbn in *.
      * subst. split; [done|]. apply HR; [set_solver|done].
      * apply IH. set_solver.
    + eapply Forall2_impl; [exact Hl|]. intros [k1 v1] [k2 w1] [E Hv1]. cbn in *. subst. split; [done|].
      destruct (decide (k2 = k)) as [->|]; auto.
  - constructor; [split; [done|]; by apply HR|]. apply IH; [done|].
    destruct Hdup' as [Hd|]; [left|by right]. by apply NoDup_cons in Hd as [_ ?].
Qed.
Lemma alike_update_same k x x' f f' :
  alike (λ _, same) f f' → get_field k f ≠ None → same x x' →
  alike (λ _, same) (update_field k x f) (update_field k x' f').
Proof. intros H Hf Hx. eapply alike_update; eauto. Qed.

(** ** Sorting by a key *)
Section sorting.
Context (nfc : string → string).

Definition key_text {A} (keyOf : A → V string) (x : A) : string :=
  match keyOf x with Ok key => nfc key | Throw _ => EmptyString end.
Definition keyed_sort {A} (K : A → string) (l : list A) : list A := (sort_fields ((λ x, (K x, x)) <$> l)).*2.

Lemma keyed_sort_perm {A} (K : A → string) l : keyed_sort K l ≡ₚ l.
Proof. unfold keyed_sort. rewrite CanonicalJson.sort_fields_perm, <- list_fmap_compose. cbn. by rewrite list_fmap_id. Qed.

Lemma keyed_sort_map {A B} (K : A → string) (T : A → B) l :
  T <$> keyed_sort K l = (sort_fields ((λ x, (K x, T x)) <$> l)).*2.
Proof.
  unfold keyed_sort. pose proof (CanonicalJson.sort_fields_map T ((λ x, (K x, x)) <$> l)) as H.
  change (map ?f ?m) with (f <$> m) in H. rewrite <- list_fmap_compose in H. unfold compose in H. cbn in H.
  rewrite H, <- !list_fmap_compose. apply list_fmap_ext. by intros i [k x].
Qed.

(** What a sort shows of its elements, where elements of one key show the same. *)
Lemma keyed_sort_shown {A A' B} (K : A → string) (K' : A' → string) (T : A → B) (T' : A' → B) l l' :
  (λ x, (K x, T x)) <$> l ≡ₚ (λ x, (K' x, T' x)) <$> l' →
  (∀ x y, x ∈ l → y ∈ l → units (K x) = units (K y) → K x = K y ∧ T x = T y) →
  T <$> keyed_sort K l = T' <$> keyed_sort K' l'.
Proof.
  intros Hp Htie. rewrite !keyed_sort_map. f_equal. apply sort_fields_unique; [done|].
  intros p q Hx Hy. apply list_elem_of_fmap in Hx as (x & -> & Hx). apply list_elem_of_fmap in Hy as (y & -> & Hy).
  cbn. intros E. by destruct (Htie x y Hx Hy E) as [-> ->].
Qed.

Lemma keys_of {A} (keyOf : A → V string) l keys :
  mapM keyOf l = Ok keys → zip (nfc <$> keys) l = (λ x, (key_text keyOf x, x)) <$> l.
Proof.
  intros H%ObservationSafety.mapM_Ok. induction H as [|x key l keys Hx _ IH]; [done|]. cbn.
  unfold key_text at 1. by rewrite Hx, IH.
Qed.

Lemma sortByKey_Ok {A} (keyOf : A → V string) l s :
  sortByKey nfc keyOf l = Ok s → s = keyed_sort (key_text keyOf) l.
Proof.
  destruct l as [|x [|y l]]; [by intros [= <-]..|]. unfold sortByKey. generalize (x :: y :: l). clear. intros l H.
  apply bind_Ok in H as (keys & Hk & [= <-]). by rewrite (keys_of _ _ _ Hk).
Qed.
Lemma sortByKey_total {A} (keyOf : A → V string) l :
  (∀ x, x ∈ l → ∃ key, keyOf x = Ok key) → sortByKey nfc keyOf l = Ok (keyed_sort (key_text keyOf) l).
Proof.
  intros H. assert (∃ keys, mapM keyOf l = Ok keys) as [keys Hk].
  { induction l as [|x l IH]; [by exists []|]. destruct (H x) as [key Hx]; [by left|].
    destruct IH as [keys Hk]; [intros; apply H; by right|]. exists (key :: keys). cbn. by rewrite Hx, Hk. }
  destruct l as [|x [|y l]]; [done..|]. unfold sortByKey. rewrite Hk. cbn [mbind outcome_bind].
  by rewrite (keys_of _ _ _ Hk).
Qed.
(** A list of two or more is sorted only if every element has a key. *)
Lemma sortByKey_keys {A} (keyOf : A → V string) x y l s :
  sortByKey nfc keyOf (x :: y :: l) = Ok s → ∀ z, z ∈ x :: y :: l → ∃ key, keyOf z = Ok key.
Proof.
  unfold sortByKey. generalize (x :: y :: l). clear. intros l H z Hz.
  apply bind_Ok in H as (keys & Hk%ObservationSafety.mapM_Ok & _).
  apply list_elem_of_lookup in Hz as [i Hi]. destruct (Forall2_lookup_l _ _ _ _ _ Hk Hi) as (key & _ & Hkey). eauto.
Qed.
End sorting.

(** ** Extensions *)
Section extensions.
Context (nfc : string → string) (number_text : number → string).
Notation canonicalObservationJson := (canonicalObservationJson nfc number_text).
Notation sortAtPath := (sortAtPath nfc number_text).

Lemma sortAtPath_same path v w a :
  same v w → sortAtPath path v = Ok (Some a) → ∃ b, sortAtPath path w = Ok (Some b) ∧ same a b.
Proof.
  revert v w a. induction path as [|head path IH]; intros v w a Hs H.
  - destruct v as [| | | |l|]; try done. apply same_arr in Hs as (l' & -> & Hl2). cbn in H.
    apply bind_Ok in H as (s & Hsort & [= <-]).
    assert (∃ s', sortByKey nfc canonicalObservationJson l' = Ok s' ∧ s' = keyed_sort (key_text nfc canonicalObservationJson) l') as (s' & Hs' & E').
    { eexists. split; [|done]. destruct Hl2 as [|x y m m' Hx [|x2 y2 l l' Hx2 Hl2]]; [done..|]. apply sortByKey_total.
      intros z Hz. assert (Forall2 same (x :: x2 :: l) (y :: y2 :: l')) as Hall by by repeat constructor.
      apply list_elem_of_lookup in Hz as [i Hi]. destruct (Forall2_lookup_r _ _ _ _ _ Hall Hi) as (u & Hu & Huz).
      apply list_elem_of_lookup_2 in Hu. destruct (sortByKey_keys _ _ _ _ _ _ Hsort u Hu) as [key Hkey].
      exists key. rewrite <- Hkey. symmetry. by apply json_text_same. }
    exists (JArr s'). cbn. rewrite Hs'. split; [done|]. unfold same. cbn. f_equal.
    rewrite (sortByKey_Ok _ _ _ _ Hsort), E'. rewrite !(keyed_sort_map _ normalize). do 2 f_equal.
    clear -Hl2. induction Hl2 as [|x y l l' Hx _ IH]; [done|]. cbn. rewrite IH. do 2 f_equal; [|done].
    unfold key_text, Observation.canonicalObservationJson, encode. by rewrite (json_text_same _ _ _ _ Hx).
  - destruct v as [| | | | |f]; try done. apply same_obj_inv in Hs as (f' & -> & Hf). cbn in H |- *.
    destruct (get_field head f) as [child|] eqn:Hc; [|done].
    destruct (alike_get_Some _ _ _ _ _ Hf Hc) as (child' & -> & Hchild).
    apply bind_Ok in H as ([a'|] & Ha & [= <-]). destruct (IH _ _ _ Hchild Ha) as (b & -> & Hb).
    eexists. split; [done|]. cbn. apply same_obj, alike_update_same; [done|congruence|done].
Qed.

Lemma sortExtensionSetAtPath_same payload payload' pointer pointer' a :
  same payload payload' → same pointer pointer' → sortExtensionSetAtPath nfc number_text payload pointer = Ok a →
  ∃ b, sortExtensionSetAtPath nfc number_text payload' pointer' = Ok b ∧ same a b.
Proof.
  unfold sortExtensionSetAtPath. intros Hs Hptr H. apply bind_Ok in H as (p & Hp & H).
  destruct pointer as [| | |p0| |]; try done. apply same_str in Hptr as ->. rewrite Hp. cbn [mbind outcome_bind].
  apply bind_Ok in H as ([] & Hne & H). rewrite Hne. cbn [mbind outcome_bind].
  apply bind_Ok in H as (sorted & Hsorted & H). destruct sorted as [[| | | | |f]|]; try done. injection H as <-.
  destruct (sortAtPath_same _ _ _ _ Hs Hsorted) as (b & -> & Hb). cbn [mbind outcome_bind].
  pose proof Hb as Hb'. apply same_obj_inv in Hb' as (f' & -> & _). by eexists.
Qed.

Notation fold_pointers := (foldl (λ payload pointer,
  payload ← payload; sortExtensionSetAtPath nfc number_text payload pointer)).

Lemma fold_pointers_throw e pointers a : fold_pointers (Throw e) pointers ≠ Ok a.
Proof. by induction pointers as [|pointer pointers IH]; [|apply IH]. Qed.

Lemma fold_pointers_object pointers f a : fold_pointers (Ok (JObj f)) pointers = Ok a → ∃ f', a = JObj f'.
Proof.
  revert f. induction pointers as [|p pointers IH]; intros f; cbn [foldl]; [intros [= <-]; by eexists|].
  cbn [mbind outcome_bind]. destruct (sortExtensionSetAtPath nfc number_text (JObj f) p) as [q|e] eqn:E.
  - unfold sortExtensionSetAtPath in E. apply bind_Ok in E as (t & _ & E). apply bind_Ok in E as ([] & _ & E).
    apply bind_Ok in E as ([[| | | | |f1]|] & _ & E); try done. injection E as <-. apply IH.
  - intros H. by apply fold_pointers_throw in H.
Qed.

Lemma fold_pointers_same pointers pointers' payload payload' a :
  Forall2 same pointers pointers' → same payload payload' → fold_pointers (Ok payload) pointers = Ok a →
  ∃ b, fold_pointers (Ok payload') pointers' = Ok b ∧ same a b.
Proof.
  intros Hp. revert payload payload'. induction Hp as [|p p' pointers pointers' Hp _ IH]; intros payload payload' Hs; cbn [foldl].
  - intros [= <-]. by eexists.
  - cbn [mbind outcome_bind]. destruct (sortExtensionSetAtPath nfc number_text payload p) as [q|e] eqn:E.
    + destruct (sortExtensionSetAtPath_same _ _ _ _ _ Hs Hp E) as (q' & -> & Hq). by apply IH.
    + intros H. by apply fold_pointers_throw in H.
Qed.

(** *** The query of a page *)
Definition distinct_units (fields : list (string * json)) : Prop := NoDup (units <$> fields.*1).

Lemma distinct_units_tie fields x y :
  distinct_units fields → x ∈ fields → y ∈ fields → units x.1 = units y.1 → x = y.
Proof.
  unfold distinct_units. rewrite <- list_fmap_compose. intros Hd Hx Hy E.
  apply list_elem_of_lookup in Hx as [i Hi]. apply list_elem_of_lookup in Hy as [j Hj].
  assert (i = j) as <-; [|congruence].
  apply (NoDup_lookup _ _ _ (units x.1) Hd); rewrite list_lookup_fmap; [by rewrite Hi|by rewrite Hj, E].
Qed.

Lemma update_field_keys k (x : json) f : get_field k f ≠ None → (update_field k x f).*1 = f.*1.
Proof.
  induction f as [|[k' y] f IH]; [done|]. cbn. destruct (String.eqb k' k); [done|]. intros H. cbn. by rewrite IH.
Qed.
Lemma get_update_same k (x : json) f : get_field k (update_field k x f) = Some x.
Proof.
  induction f as [|[k' y] f IH]; cbn; [by rewrite String.eqb_refl|].
  destruct (String.eqb k' k) eqn:E; cbn; by rewrite E.
Qed.
Lemma get_update_other k k' (x : json) f : k' ≠ k → get_field k' (update_field k x f) = get_field k' f.
Proof.
  intros Hne. induction f as [|[k1 y] f IH]; cbn.
  - destruct (String.eqb_spec k k'); [congruence|done].
  - destruct (String.eqb_spec k1 k) as [->|]; cbn; [|by rewrite IH].
    by destruct (String.eqb_spec k k'); [congruence|].
Qed.

Definition query_ok (payload : json) : Prop :=
  ∀ fields query, payload = JObj fields → get_field "query" fields = Some (JObj query) → distinct_units query.

Lemma sortAtPath_query_ok path payload a :
  query_ok payload → path ≠ [] → sortAtPath path payload = Ok (Some a) → query_ok a.
Proof.
  destruct path as [|head path]; [done|]. destruct payload as [| | | | |f]; try done. cbn.
  intros Hq _. destruct (get_field head f) as [child|] eqn:Hc; [|done]. intros H.
  apply bind_Ok in H as ([sorted|] & Hs & [= <-]). intros fields query [= <-].
  destruct (decide ("query" = head)) as [<-|Hne].
  - rewrite get_update_same. intros [= ->]. destruct path as [|h2 path]; cbn in Hs.
    + destruct child; try done. by apply bind_Ok in Hs as (? & _ & [=]).
    + destruct child as [| | | | |q]; try done. destruct (get_field h2 q) as [c2|] eqn:Hc2; [|done].
      apply bind_Ok in Hs as ([s2|] & _ & [= <-]). unfold distinct_units.
      rewrite update_field_keys by congruence. by apply (Hq f q).
  - rewrite get_update_other by done. by apply Hq.
Qed.

Lemma fold_pointers_query_ok pointers payload a :
  query_ok payload → fold_pointers (Ok payload) pointers = Ok a → query_ok a.
Proof.
  revert payload. induction pointers as [|pointer pointers IH]; intros payload Hq; cbn [foldl]; [by intros [= <-]|].
  cbn [mbind outcome_bind]. destruct (sortExtensionSetAtPath nfc number_text payload pointer) as [p|e] eqn:E.
  - apply IH. unfold sortExtensionSetAtPath in E. apply bind_Ok in E as (q & _ & E).
    apply bind_Ok in E as ([] & Hne%reject_if_Ok%bool_decide_eq_false & E). apply bind_Ok in E as (sorted & Hs & E).
    destruct sorted as [[| | | | |f]|]; try done. injection E as <-. by eapply sortAtPath_query_ok.
  - intros H. by apply fold_pointers_throw in H.
Qed.

Lemma alike_permutation f f' : alike (λ _, same) f f' →
  (λ kv, (kv.1, normalize kv.2)) <$> f ≡ₚ (λ kv, (kv.1, normalize kv.2)) <$> f'.
Proof.
  intros H. rewrite <- (CanonicalJson.sort_fields_perm f), <- (CanonicalJson.sort_fields_perm f') at 1.
  unfold alike in H. apply reflexive_eq.
  induction H as [|[k v] [k' w] l l' [E Hs] _ IH]; [done|]. cbn in *. rewrite IH. by rewrite E, Hs.
Qed.

Lemma same_of_permutation f f' :
  distinct_units f → (λ kv, (kv.1, normalize kv.2)) <$> f ≡ₚ (λ kv, (kv.1, normalize kv.2)) <$> f' →
  same (JObj f) (JObj f').
Proof.
  intros Hd Hp. unfold same. cbn [normalize]. f_equal.
  assert (∀ f : list (string * json), map (λ '(k, x), (k, normalize x)) f = (λ kv, (kv.1, normalize kv.2)) <$> f) as Hmap.
  { intros g. apply map_ext. by intros [k x]. }
  rewrite !Hmap. apply sort_fields_unique; [done|].
  intros p q Hx Hy. apply list_elem_of_fmap in Hx as (x & -> & Hx). apply list_elem_of_fmap in Hy as (y & -> & Hy).
  cbn. intros E. by rewrite (distinct_units_tie f x y Hd Hx Hy E).
Qed.

Lemma sortRecord_perm fields :
  sortRecordByNormalizedKey nfc fields ≡ₚ filter (λ kv, kv.1 ≠ "__proto__") fields.
Proof.
  unfold sortRecordByNormalizedKey. rewrite CanonicalJson.sort_fields_perm, <- list_fmap_compose. cbn.
  by rewrite list_fmap_id.
Qed.

Lemma filter_proto_map (f : list (string * json)) :
  (λ kv, (kv.1, normalize kv.2)) <$> filter (λ kv, kv.1 ≠ "__proto__") f
  = filter (λ kv : string * json, kv.1 ≠ "__proto__") ((λ kv, (kv.1, normalize kv.2)) <$> f).
Proof.
  induction f as [|[k v] f IH]; [done|]. rewrite fmap_cons, !filter_cons.
  destruct (decide ((k, v).1 ≠ "__proto__")) as [Hk|Hk]; cbn [fst snd] in *; destruct (decide _); try done.
  by rewrite fmap_cons, IH.
Qed.

Lemma NoDup_fmap_filter {A B} (g : A → B) (P : A → Prop) `{!∀ x, Decision (P x)} l :
  NoDup (g <$> l) → NoDup (g <$> filter P l).
Proof.
  induction l as [|x l IH]; [done|]. rewrite fmap_cons, NoDup_cons, filter_cons. intros [Hx Hl].
  destruct (decide (P x)); [|by apply IH]. rewrite fmap_cons. constructor; [|by apply IH].
  intros Hin. apply Hx. apply list_elem_of_fmap in Hin as (y & -> & Hy). apply list_elem_of_filter in Hy as [_ Hy].
  by apply list_elem_of_fmap_2.
Qed.

Lemma sortRecord_same query query' :
  distinct_units query → same (JObj query) (JObj query') →
  same (JObj (sortRecordByNormalizedKey nfc query)) (JObj (sortRecordByNormalizedKey nfc query')).
Proof.
  intros Hd Hs%same_obj%alike_permutation. apply same_of_permutation.
  - unfold distinct_units in *. rewrite sortRecord_perm. rewrite <- list_fmap_compose in *. by apply NoDup_fmap_filter.
  - by rewrite !sortRecord_perm, !filter_proto_map, Hs.
Qed.

(** *** Extensions *)
Definition extension_ok (value : json) : Prop :=
  ∀ fields payload, value = JObj fields → is_text (get_field "type" fields) WEB_EXTENSION_V1_TYPE = true →
    get_field "payload" fields = Some payload → query_ok payload.

Lemma is_text_same (f f' : list (string * json)) k t :
  alike (λ _, same) f f' → is_text (get_field k f) t = is_text (get_field k f') t.
Proof.
  intros H. pose proof (alike_get _ _ _ k H) as Hk. destruct Hk as [v w Hs|]; [|done].
  unfold same in Hs. destruct v, w; cbn in Hs; try done. by injection Hs as ->.
Qed.

Lemma payload_same ext ext' a :
  alike (λ _, same) ext ext' → extension_ok (JObj ext) →
  canonicalizeExtensionPayload nfc number_text ext = Ok a →
  ∃ b, canonicalizeExtensionPayload nfc number_text ext' = Ok b ∧ same a b.
Proof.
  intros Hs Hok H. unfold canonicalizeExtensionPayload in *.
  apply bind_Ok in H as (payload & Hp & H).
  destruct (get_field "payload" ext) as [[| | | | |pf]|] eqn:Hpf; try done. injection Hp as <-.
  destruct (alike_get_Some _ _ _ _ _ Hs Hpf) as (w & Hw & Hpw). rewrite Hw.
  pose proof Hpw as Hpw'. apply same_obj_inv in Hpw' as (pf' & -> & _). cbn [as_object mbind outcome_bind].
  apply bind_Ok in H as (pointers & Hptr & H).
  assert (∃ pointers', match get_field "setSemantics" ext' with None | Some JNull => Ok [] | Some value => as_array (Some value) end = Ok pointers'
    ∧ Forall2 same pointers pointers') as (pointers' & -> & Hpointers).
  { destruct (get_field "setSemantics" ext) as [v|] eqn:Ev.
    - destruct (alike_get_Some _ _ _ _ _ Hs Ev) as (v' & -> & Hv). destruct v as [| | | |l|]; try done.
      + injection Hptr as <-. apply same_null in Hv as ->. by eexists.
      + injection Hptr as <-. apply same_arr in Hv as (l' & -> & Hl). by exists l'.
    - rewrite (alike_get_None _ _ _ _ Hs Ev). injection Hptr as <-. by eexists. }
  cbn [mbind outcome_bind]. apply bind_Ok in H as (folded & Hfold & H).
  destruct (fold_pointers_same _ _ _ _ _ Hpointers Hpw Hfold) as (folded' & -> & Hfolded). cbn [mbind outcome_bind].
  rewrite <- (is_text_same _ _ _ _ Hs). destruct (is_text (get_field "type" ext) WEB_EXTENSION_V1_TYPE) eqn:Hweb.
  - assert (query_ok folded) as Hq by (eapply fold_pointers_query_ok; [by eapply Hok|exact Hfold]).
    destruct (fold_pointers_object _ _ _ Hfold) as (f & ->). pose proof Hfolded as Hff.
    apply same_obj_inv in Hff as (f' & -> & Hf).
    destruct (get_field "query" f) as [query|] eqn:Eq.
    + destruct (alike_get_Some _ _ _ _ _ Hf Eq) as (query' & -> & Hquery).
      destruct query as [| | | | |q]; destruct query' as [| | | | |q']; try (by inversion Hquery);
        injection H as <-; eexists; (split; [done|]); try done.
      apply same_obj, alike_update_same; [done|congruence|]. apply sortRecord_same; [|done]. by apply (Hq f q).
    + rewrite (alike_get_None _ _ _ _ Hf Eq). injection H as <-. by eexists.
  - injection H as <-. by eexists.
Qed.

(** The value [canonicalizeExtension] puts in place of an extension. *)
Definition extension_value (value : json) : V json :=
  extension ← as_object (Some value);
  payload ← canonicalizeExtensionPayload nfc number_text extension;
  Ok (JObj (update_field "payload" payload extension)).

Lemma extension_value_same v w a :
  same v w → extension_ok v → extension_value v = Ok a → ∃ b, extension_value w = Ok b ∧ same a b.
Proof.
  unfold extension_value. intros Hs Hok H. apply bind_Ok in H as (ext & He & H).
  destruct v as [| | | | |f]; try done. injection He as <-. apply same_obj_inv in Hs as (f' & -> & Hf).
  cbn [as_object mbind outcome_bind]. apply bind_Ok in H as (payload & Hp & [= <-]).
  destruct (payload_same _ _ _ Hf Hok Hp) as (payload' & -> & Hpp). eexists. split; [done|].
  apply same_obj, alike_update_same; [done| |done].
  intros E. unfold canonicalizeExtensionPayload in Hp. by rewrite E in Hp.
Qed.

Lemma canonicalizeExtension_value kv b :
  canonicalizeExtension nfc number_text kv = Ok b ↔ ∃ a, extension_value kv.2 = Ok a ∧ b = (kv.1, a).
Proof.
  unfold canonicalizeExtension, extension_value. split.
  - intros H. apply bind_Ok in H as (ext & -> & H). cbn [mbind outcome_bind].
    apply bind_Ok in H as (p & -> & [= <-]). by eexists.
  - intros (a & H & ->). apply bind_Ok in H as (ext & -> & H). cbn [mbind outcome_bind].
    by apply bind_Ok in H as (p & -> & [= <-]).
Qed.

(** The same, where it succeeds. *)
Definition extension_canonical (value : json) : json := match extension_value value with Ok a => a | Throw _ => JNull end.

Lemma mapM_extensions f c :
  mapM (canonicalizeExtension nfc number_text) f = Ok c ↔
  (∀ kv, kv ∈ f → ∃ a, extension_value kv.2 = Ok a) ∧ c = map (λ '(k, x), (k, extension_canonical x)) f.
Proof.
  rewrite ObservationSafety.mapM_Ok. split.
  - induction 1 as [|kv b f c Hb _ [IH1 IH2]]; [split; [|done]; intros kv Hkv; by apply elem_of_nil in Hkv|].
    apply canonicalizeExtension_value in Hb as (a & Ha & ->). split.
    + intros kv' Hin. apply elem_of_cons in Hin as [-> | Hin]; [by eexists|by apply IH1].
    + rewrite IH2. destruct kv as [k v]. cbn [fst snd map] in *. unfold extension_canonical at 2. by rewrite Ha.
  - intros [Hall ->]. induction f as [|[k v] f IH]; [constructor|]. constructor.
    + apply canonicalizeExtension_value. destruct (Hall (k, v)) as [a Ha]; [by left|]. exists a. cbn [fst snd] in *. split; [done|].
      unfold extension_canonical. by rewrite Ha.
    + apply IH. intros kv Hkv. apply Hall. by right.
Qed.

Definition extensions_ok (value : json) : Prop :=
  ∀ fields kv, value = JObj fields → kv ∈ fields → extension_ok kv.2.

Lemma canonicalizeExtensions_same v w a :
  same v w → extensions_ok v → canonicalizeExtensions nfc number_text (Some v) = Ok a →
  ∃ b, canonicalizeExtensions nfc number_text (Some w) = Ok b ∧ same a b.
Proof.
  unfold canonicalizeExtensions. intros Hs Hok H. apply bind_Ok in H as (f & Hf & H).
  destruct v as [| | | | |f0]; try done. injection Hf as ->. apply same_obj_inv in Hs as (f' & -> & Hff).
  cbn [as_object mbind outcome_bind]. apply bind_Ok in H as (c & [Hall ->]%mapM_extensions & [= <-]).
  assert (mapM (canonicalizeExtension nfc number_text) f' = Ok (map (λ '(k, x), (k, extension_canonical x)) f')) as ->.
  { apply mapM_extensions. split; [|done]. intros [k w] Hw.
    destruct (alike_elem _ _ _ _ _ Hff Hw) as (v & Hv & Hvw). destruct (Hall _ Hv) as [a Ha]. cbn [snd] in *.
    destruct (extension_value_same _ _ _ Hvw (Hok _ _ eq_refl Hv) Ha) as (b & Hb & _). by exists b. }
  eexists. split; [done|]. apply same_obj. unfold alike. rewrite !CanonicalJson.sort_fields_map.
  assert (Forall (λ kv, extension_ok kv.2 ∧ ∃ a, extension_value kv.2 = Ok a) (sort_fields f)) as Hsf.
  { apply Forall_forall. intros kv. rewrite CanonicalJson.sort_fields_perm. intros Hkv. split; [by eapply Hok|by apply Hall]. }
  unfold alike in Hff. induction Hff as [|[k v] [k' w] l l' [E Hvw] _ IH]; [constructor|].
  apply Forall_cons in Hsf as [[Hokv [a Ha]] Hsf]. cbn [fst snd map] in *. constructor; [|by apply IH]. split; [done|].
  destruct (extension_value_same _ _ _ Hvw Hokv Ha) as (b & Hb & Hab). unfold extension_canonical. by rewrite Ha, Hb.
Qed.
End extensions.

(** ** Graphs that differ in their order only *)

(** Two arrays with corresponding elements, in any order. *)
Definition reordered (R : json → json → Prop) (v w : json) : Prop :=
  ∃ l l1 l', v = JArr l ∧ w = JArr l' ∧ l ≡ₚ l1 ∧ Forall2 R l1 l'.

Definition same_node_field (k : string) : json → json → Prop :=
  if String.eqb k "relations" then reordered same else same.
Definition same_node (v w : json) : Prop :=
  ∃ f f', v = JObj f ∧ w = JObj f' ∧ alike same_node_field f f'.
Definition same_graph_field (k : string) : json → json → Prop :=
  if String.eqb k "rootNodeIds" || String.eqb k "evidenceRefs" then reordered same
  else if String.eqb k "nodes" then reordered same_node else same.
(** One graph is the other up to the order of its nodes, its roots, its evidence
    references, the relations of each node, and the keys of every object. *)
Definition same_graph (v w : json) : Prop :=
  ∃ f f', v = JObj f ∧ w = JObj f' ∧ alike same_graph_field f f'.

(** No object has a key twice, as no object of JavaScript does. *)
Fixpoint distinct_keys (v : json) : bool :=
  match v with
  | JArr l => forallb distinct_keys l
  | JObj fields => bool_decide (NoDup fields.*1) && forallb (λ '(_, x), distinct_keys x) fields
  | _ => true
  end.

Lemma distinct_keys_obj f : distinct_keys (JObj f) = true →
  NoDup f.*1 ∧ ∀ k x, get_field k f = Some x → distinct_keys x = true.
Proof.
  cbn. intros [Hd%bool_decide_eq_true Hall]%andb_true_iff. split; [done|].
  intros k x Hx%ObservationSafety.get_field_elem. rewrite forallb_forall in Hall.
  by apply (Hall (k, x)), list_elem_of_In.
Qed.
Lemma distinct_keys_arr l : distinct_keys (JArr l) = true → ∀ x, x ∈ l → distinct_keys x = true.
Proof. cbn. rewrite forallb_forall. intros H x Hx. by apply H, list_elem_of_In. Qed.

Section reorder.
Context (nfc : string → string) (number_text : number → string).
(** Normal forms that differ, differ as sequences of code units. *)
Context (nfc_units : ∀ a b, units (nfc a) = units (nfc b) → nfc a = nfc b).

(** A set is sorted into one order: where its elements of one canonical key are the
    same, and [T] shows the same of what is. *)
Lemma reordered_sorted {B} (keyOf : json → V string) (T : json → B) (R : json → json → Prop) l l1 l' :
  l ≡ₚ l1 → Forall2 R l1 l' → (∀ x, x ∈ l → ∃ key, keyOf x = Ok key) →
  (∀ x y, x ∈ l → R x y → keyOf x = keyOf y ∧ T x = T y) →
  (∀ x y kx ky, x ∈ l → y ∈ l → keyOf x = Ok kx → keyOf y = Ok ky → nfc kx = nfc ky → T x = T y) →
  ∃ s s', sortByKey nfc keyOf l = Ok s ∧ sortByKey nfc keyOf l' = Ok s' ∧ T <$> s = T <$> s' ∧ s ≡ₚ l ∧ s' ≡ₚ l'.
Proof.
  intros Hp HR Hkeys Hpair Htie.
  assert (∀ y, y ∈ l' → ∃ key, keyOf y = Ok key) as Hkeys'.
  { intros y Hy. apply list_elem_of_lookup in Hy as [i Hi]. destruct (Forall2_lookup_r _ _ _ _ _ HR Hi) as (x & Hx & Hxy).
    apply list_elem_of_lookup_2 in Hx. rewrite <- Hp in Hx. destruct (Hkeys x Hx) as [key Hk].
    exists key. by destruct (Hpair x y Hx Hxy) as [<- _]. }
  eexists _, _. split_and!; [by apply sortByKey_total|by apply sortByKey_total| |apply keyed_sort_perm..].
  apply keyed_sort_shown.
  - rewrite Hp. apply reflexive_eq. assert (∀ x, x ∈ l1 → x ∈ l) as Hin by (intros x; by rewrite Hp).
    clear -HR Hpair Hin. induction HR as [|x y l1 l' Hxy _ IH]; [done|]. cbn. rewrite IH by (intros; apply Hin; by right).
    f_equal. unfold key_text. destruct (Hpair x y (Hin x ltac:(by left)) Hxy) as [-> ->]. done.
  - intros x y Hx Hy. destruct (Hkeys x Hx) as [kx Ekx], (Hkeys y Hy) as [ky Eky].
    unfold key_text. rewrite Ekx, Eky. intros E%nfc_units. split; [done|]. by eapply Htie.
Qed.

(** *** Entries of one canonical key are one *)
Lemma unique_canonical_sound {A} (entry_of : A → V (string * string)) seen l :
  unique_canonical entry_of seen l = Ok tt →
  (∀ x, x ∈ l → ∃ e, entry_of x = Ok e ∧ ∀ r, seen !! e.1 = Some r → r = e.2) ∧
  (∀ x y ex ey, x ∈ l → y ∈ l → entry_of x = Ok ex → entry_of y = Ok ey → ex.1 = ey.1 → ex.2 = ey.2).
Proof.
  revert seen. induction l as [|z l IH]; intros seen H.
  { split; [intros x Hx|intros x y ex ey Hx]; by apply elem_of_nil in Hx. }
  cbn [unique_canonical] in H. apply bind_Ok in H as (ez & Hz & H).
  assert ((∀ r, seen !! ez.1 = Some r → r = ez.2) ∧ unique_canonical entry_of (<[ez.1 := ez.2]> seen) l = Ok tt) as [Hseen H'].
  { destruct (seen !! ez.1) as [r|] eqn:E; [|done]. destruct (String.eqb_spec r ez.2) as [->|]; [|done].
    split; [|done]. by intros ? [= ->]. }
  destruct (IH _ H') as [H1 H2].
  assert (∀ y ey, y ∈ l → entry_of y = Ok ey → ez.1 = ey.1 → ez.2 = ey.2) as Hzy.
  { intros y ey Hy Ey E. destruct (H1 y Hy) as (e & He & Hr). rewrite Ey in He. injection He as <-.
    apply Hr. by rewrite <- E, lookup_insert_eq. }
  split.
  - intros x Hx. apply elem_of_cons in Hx as [-> | Hx]; [by exists ez|].
    destruct (H1 x Hx) as (e & He & Hr). exists e. split; [done|]. intros r Hs.
    destruct (decide (ez.1 = e.1)) as [E|E].
    + rewrite <- E in Hs. apply Hseen in Hs as ->. by eapply Hzy.
    + apply Hr. by rewrite lookup_insert_ne.
  - intros x y ex ey Hx Hy Ex Ey E. apply elem_of_cons in Hx as [-> | Hx]; apply elem_of_cons in Hy as [-> | Hy].
    + congruence.
    + rewrite Hz in Ex. injection Ex as <-. by eapply Hzy.
    + rewrite Hz in Ey. injection Ey as <-. symmetry. by eapply Hzy.
    + exact (H2 x y ex ey Hx Hy Ex Ey E).
Qed.

(** A set of strings, as the validator leaves it. *)
Definition strings_ok (l : list json) : Prop :=
  (∀ x, x ∈ l → ∃ s, x = JStr s) ∧ ∀ s t, JStr s ∈ l → JStr t ∈ l → nfc s = nfc t → s = t.
Lemma unique_strings_ok l : assertUniqueCanonicalStringKeys nfc l = Ok tt → strings_ok l.
Proof.
  intros [H1 H2]%unique_canonical_sound.
  assert (∀ x, x ∈ l → ∃ s, x = JStr s ∧ s ≠ EmptyString) as Hs.
  { intros x Hx. destruct (H1 x Hx) as (e & He & _). cbv beta in He.
    apply bind_Ok in He as (s & [[= ->] ?]%ObservationSafety.assertNonEmptyString_Ok & _). by exists s. }
  split; [intros x Hx; destruct (Hs x Hx) as (s & -> & _); by exists s|].
  intros s t Hs1 Ht1 E. destruct (Hs _ Hs1) as (? & [= <-] & Hsn), (Hs _ Ht1) as (? & [= <-] & Htn).
  apply (H2 (JStr s) (JStr t) (nfc s, s) (nfc t, t)); try done; cbn;
    [by destruct (String.eqb_spec s EmptyString)|by destruct (String.eqb_spec t EmptyString)].
Qed.

(** The relations of a node, as the validator leaves them. *)
Definition relations_ok (l : list json) : Prop :=
  (∀ x, x ∈ l → ∃ key, relation_key x = Ok key) ∧
  ∀ x y kx ky, x ∈ l → y ∈ l → relation_key x = Ok kx → relation_key y = Ok ky → nfc kx = nfc ky → same x y.

Lemma semantic_key_inj t1 g1 t2 g2 :
  t1 ∈ RELATION_TYPES → t2 ∈ RELATION_TYPES →
  observationRelationSemanticKey t1 g1 = observationRelationSemanticKey t2 g2 → t1 = t2 ∧ g1 = g2.
Proof.
  unfold RELATION_TYPES, observationRelationSemanticKey. rewrite !elem_of_cons, !elem_of_nil.
  intros H1 H2. destruct_or! H1; destruct_or! H2; try done; subst; cbn; intros [=]; by subst.
Qed.

Lemma two_fields (f : list (string * json)) a b u v :
  NoDup f.*1 → a ≠ b → (∀ kv, kv ∈ f → kv.1 = a ∨ kv.1 = b) → get_field a f = Some u → get_field b f = Some v →
  f ≡ₚ [(a, u); (b, v)].
Proof.
  intros Hd Hab Hk Ha%ObservationSafety.get_field_elem Hb%ObservationSafety.get_field_elem.
  assert (∀ k x y, (k, x) ∈ f → (k, y) ∈ f → x = y) as Huniq.
  { intros k x y Hx Hy. apply list_elem_of_lookup in Hx as [i Hi]. apply list_elem_of_lookup in Hy as [j Hj].
    assert (i = j) as <-; [|congruence]. apply (NoDup_lookup _ _ _ k Hd); rewrite list_lookup_fmap; [by rewrite Hi|by rewrite Hj]. }
  apply NoDup_Permutation; [by apply NoDup_fmap_1 in Hd| |].
  - apply NoDup_cons. split; [|apply NoDup_singleton]. rewrite list_elem_of_singleton. congruence.
  - intros [k x]. rewrite elem_of_cons, list_elem_of_singleton. split.
    + intros Hx. destruct (Hk _ Hx) as [E|E]; cbn in E; subst.
      * left. by rewrite (Huniq _ _ _ Hx Ha).
      * right. by rewrite (Huniq _ _ _ Hx Hb).
    + by intros [[= -> ->]|[= -> ->]].
Qed.

Lemma validateRelation_fields value r : validateRelation value = Ok r → distinct_keys value = true →
  ∃ f, value = JObj f ∧ f ≡ₚ [("type", JStr r.1); ("targetNodeId", JStr r.2)] ∧ r.1 ∈ RELATION_TYPES ∧
    relation_key value = Ok (observationRelationSemanticKey r.1 r.2).
Proof.
  unfold validateRelation. intros H Hd. apply bind_Ok in H as (f & Hv%ObservationSafety.assertObject_Ok & H).
  injection Hv as ->. apply bind_Ok in H as ([] & Hun%reject_if_Ok%negb_false_iff & H).
  destruct (one_of RELATION_TYPES (get_field "type" f)) as [t|] eqn:Ht; [|done].
  apply ObservationSafety.one_of_Some in Ht as [Ht Hin].
  apply bind_Ok in H as (g & [Hg _]%ObservationSafety.assertNonEmptyString_Ok & [= <-]).
  exists f. apply distinct_keys_obj in Hd as [Hd _]. split_and!; [done| |done|].
  - apply two_fields; [done..| |done|done]. intros kv Hkv. rewrite forallb_forall in Hun.
    apply list_elem_of_In, Hun in Hkv. unfold includes in Hkv. apply bool_decide_eq_true in Hkv. cbn in Hkv.
    apply elem_of_cons in Hkv as [|Hkv]; [by left|right]. by apply list_elem_of_singleton in Hkv.
  - unfold relation_key. cbn [as_object mbind outcome_bind]. by rewrite Ht, Hg.
Qed.

Lemma validated_relations_ok l rs :
  Forall2 (λ value r, validateRelation value = Ok r) l rs → assertUniqueRelationKeys nfc rs = Ok tt →
  (∀ x, x ∈ l → distinct_keys x = true) → relations_ok l.
Proof.
  intros Hl [_ Hu]%unique_canonical_sound Hd.
  assert (∀ x, x ∈ l → ∃ r, r ∈ rs ∧ validateRelation x = Ok r) as Hr.
  { intros x Hx. apply list_elem_of_lookup in Hx as [i Hi]. destruct (Forall2_lookup_l _ _ _ _ _ Hl Hi) as (r & Hr & Hv).
    exists r. split; [by eapply list_elem_of_lookup_2|done]. }
  split.
  - intros x Hx. destruct (Hr x Hx) as (r & _ & Hv). destruct (validateRelation_fields _ _ Hv (Hd x Hx)) as (f & _ & _ & _ & Hk).
    eauto.
  - intros x y kx ky Hx Hy Ekx Eky E. destruct (Hr x Hx) as ([tx gx] & Hrx & Hvx), (Hr y Hy) as ([ty gy] & Hry & Hvy).
    destruct (validateRelation_fields _ _ Hvx (Hd x Hx)) as (f & -> & Hf & Htx & Hkx).
    destruct (validateRelation_fields _ _ Hvy (Hd y Hy)) as (f' & -> & Hf' & Hty & Hky).
    rewrite Hkx in Ekx. injection Ekx as <-. rewrite Hky in Eky. injection Eky as <-. cbn [fst snd] in *.
    assert (observationRelationSemanticKey tx gx = observationRelationSemanticKey ty gy) as Ekey.
    { apply (Hu (tx, gx) (ty, gy) (nfc (observationRelationSemanticKey tx gx), observationRelationSemanticKey tx gx)
        (nfc (observationRelationSemanticKey ty gy), observationRelationSemanticKey ty gy)); done. }
    apply semantic_key_inj in Ekey as [-> ->]; [|done..]. apply same_of_permutation.
    + unfold distinct_units. rewrite Hf. apply (bool_decide_unpack _). vm_compute. exact I.
    + by rewrite Hf, Hf'.
Qed.

(** *** Nodes *)
Record node_ok (f : list (string * json)) : Prop := {
  no_nodup : NoDup f.*1;
  no_id : ∃ id, get_field "id" f = Some (JStr id);
  no_relations : ∃ l, get_field "relations" f = Some (JArr l) ∧ relations_ok l;
  no_extensions : ∃ e, get_field "extensions" f = Some e ∧ extensions_ok e;
}.

Lemma relation_key_same x y : same x y → relation_key x = relation_key y.
Proof.
  intros Hs. destruct x as [| | | | |f]; destruct y as [| | | | |f']; try (by inversion Hs); [done..|].
  apply same_obj in Hs. unfold relation_key. cbn [as_object mbind outcome_bind].
  assert (∀ k, as_text (get_field k f) = as_text (get_field k f')) as Htext.
  { intros k. pose proof (alike_get _ _ _ k Hs) as Hk. destruct Hk as [v w Hvw|]; [|done].
    destruct v; destruct w; try done; by inversion Hvw. }
  by rewrite !Htext.
Qed.

Lemma sortRelations_same l l1 l' :
  relations_ok l → l ≡ₚ l1 → Forall2 same l1 l' →
  ∃ s s', sortRelations nfc (Some (JArr l)) = Ok (JArr s) ∧ sortRelations nfc (Some (JArr l')) = Ok (JArr s') ∧
    same (JArr s) (JArr s').
Proof.
  intros [Hk Ht] Hp HR.
  destruct (reordered_sorted relation_key normalize same l l1 l' Hp HR Hk) as (s & s' & Hs & Hs' & E & _).
  { intros x y _ Hxy. split; [by apply relation_key_same|done]. }
  { exact Ht. }
  exists s, s'. unfold sortRelations. cbn [as_array mbind outcome_bind]. rewrite Hs, Hs'. split_and!; [done..|].
  unfold same. cbn. by f_equal.
Qed.

Lemma canonicalizeNode_same f w a :
  same_node (JObj f) w → node_ok f → canonicalizeNode nfc number_text (JObj f) = Ok a →
  ∃ b, canonicalizeNode nfc number_text w = Ok b ∧ same a b.
Proof.
  intros (f0 & f' & Ef & -> & Hf) [Hnd _ (l & Hl & Hlok) (e & He & Heok)] H. injection Ef as <-.
  destruct (alike_get_Some _ _ _ _ _ Hf Hl) as (w & Hw & Hr). cbn in Hr.
  destruct Hr as (l0 & l1 & l' & El & -> & Hp & HR). injection El as <-.
  destruct (alike_get_Some _ _ _ _ _ Hf He) as (e' & He' & Hee). cbn in Hee.
  destruct (sortRelations_same _ _ _ Hlok Hp HR) as (s & s' & Hs & Hs' & Hss).
  unfold canonicalizeNode in *. cbn [as_object mbind outcome_bind] in *.
  rewrite Hl, Hs in H. rewrite Hw, Hs'. cbn [mbind outcome_bind] in *.
  rewrite He in H. rewrite He'. apply bind_Ok in H as (c & Hc & [= <-]).
  destruct (canonicalizeExtensions_same _ _ _ _ _ Hee Heok Hc) as (c' & -> & Hcc).
  eexists. split; [done|]. apply same_obj. apply alike_update_same; [|rewrite get_update_other by done; by rewrite He|done].
  eapply alike_update; [exact Hf|by rewrite Hl|done| |by left].
  intros k v w Hk. unfold same_node_field. by destruct (String.eqb_spec k "relations").
Qed.

Definition node_key (value : json) : V string := node ← as_object (Some value); as_text (get_field "id" node).

(** The nodes of a graph: told apart by the normal forms of their ids. *)
Definition nodes_ok (l : list json) : Prop :=
  (∀ x, x ∈ l → ∃ f, x = JObj f ∧ node_ok f) ∧
  ∀ x y kx ky, x ∈ l → y ∈ l → node_key x = Ok kx → node_key y = Ok ky → nfc kx = nfc ky → x = y.

Lemma node_key_same x y : same_node x y → node_key x = node_key y.
Proof.
  intros (f & f' & -> & -> & Hf). unfold node_key. cbn [as_object mbind outcome_bind].
  pose proof (alike_get _ _ _ "id" Hf) as Hk. destruct Hk as [v w Hvw|]; [|done]. cbn in Hvw.
  destruct v; destruct w; try done; by inversion Hvw.
Qed.

(** The normal form of a canonical node, where there is one. *)
Definition node_shown (value : json) : option json :=
  match canonicalizeNode nfc number_text value with Ok a => Some (normalize a) | Throw _ => None end.

Lemma mapM_shown l c :
  mapM (canonicalizeNode nfc number_text) l = Ok c → node_shown <$> l = Some ∘ normalize <$> c.
Proof.
  intros H%ObservationSafety.mapM_Ok. induction H as [|x a l c Hx _ IH]; [done|]. rewrite !fmap_cons, IH.
  f_equal. unfold node_shown. by rewrite Hx.
Qed.
Lemma shown_mapM l (c : list json) :
  node_shown <$> l = Some ∘ normalize <$> c →
  ∃ c', mapM (canonicalizeNode nfc number_text) l = Ok c' ∧ same (JArr c) (JArr c').
Proof.
  revert c. induction l as [|x l IH]; intros [|a c]; try done; [by exists []|].
  rewrite !fmap_cons. intros [= Hx Hl]. destruct (IH c Hl) as (c' & Hc & [= Hcc]).
  unfold node_shown in Hx. destruct (canonicalizeNode nfc number_text x) as [b|] eqn:E; [|done].
  injection Hx as Hx. exists (b :: c'). cbn [mapM]. rewrite E, Hc. split; [done|].
  unfold same. cbn. by rewrite Hx, Hcc.
Qed.

Lemma sortNodes_same l l1 l' a :
  nodes_ok l → l ≡ₚ l1 → Forall2 same_node l1 l' → sortNodes nfc number_text (Some (JArr l)) = Ok a →
  ∃ b, sortNodes nfc number_text (Some (JArr l')) = Ok b ∧ same a b.
Proof.
  intros [Hobj Htie] Hp HR H. unfold sortNodes in *. cbn [as_array mbind outcome_bind] in *.
  apply bind_Ok in H as (s & Hs & H). apply bind_Ok in H as (c & Hc & [= <-]).
  assert (∀ x, x ∈ l → ∃ a, canonicalizeNode nfc number_text x = Ok a) as Hall.
  { intros x Hx. assert (s ≡ₚ l) as Hsl by (rewrite (sortByKey_Ok _ _ _ _ Hs); apply keyed_sort_perm).
    rewrite <- Hsl in Hx. apply ObservationSafety.mapM_Ok in Hc. apply list_elem_of_lookup in Hx as [i Hi].
    destruct (Forall2_lookup_l _ _ _ _ _ Hc Hi) as (a & _ & Ha). by exists a. }
  destruct (reordered_sorted node_key node_shown same_node l l1 l' Hp HR) as (s0 & s' & Hs0 & Hs' & E & _).
  { intros x Hx. destruct (Hobj x Hx) as (f & -> & [_ [id Hid] _ _]). exists id. unfold node_key. cbn. by rewrite Hid. }
  { intros x y Hx Hxy. split; [by apply node_key_same|]. destruct (Hobj x Hx) as (f & -> & Hok).
    destruct (Hall _ Hx) as [a Ha]. destruct (canonicalizeNode_same _ _ _ Hxy Hok Ha) as (b & Hb & Hab).
    unfold node_shown. by rewrite Ha, Hb, Hab. }
  { intros x y kx ky Hx Hy Ekx Eky En. by rewrite (Htie x y kx ky Hx Hy Ekx Eky En). }
  change (sortByKey nfc node_key l = Ok s) in Hs. rewrite Hs in Hs0. injection Hs0 as <-.
  fold node_key. rewrite Hs'. cbn [mbind outcome_bind].
  rewrite (mapM_shown _ _ Hc) in E. symmetry in E. apply shown_mapM in E as (c' & -> & Hcc). by eexists.
Qed.

(** *** Graphs *)
Lemma sortStringSet_same l l1 l' :
  strings_ok l → l ≡ₚ l1 → Forall2 same l1 l' →
  ∃ s s', sortStringSet nfc (Some (JArr l)) = Ok (JArr s) ∧ sortStringSet nfc (Some (JArr l')) = Ok (JArr s') ∧
    same (JArr s) (JArr s').
Proof.
  intros [Hstr Htie] Hp HR.
  destruct (reordered_sorted (λ v, as_text (Some v)) normalize same l l1 l' Hp HR) as (s & s' & Hs & Hs' & E & _).
  { intros x Hx. destruct (Hstr x Hx) as [t ->]. by exists t. }
  { intros x y Hx Hxy. split; [|done]. destruct (Hstr x Hx) as [t ->]. by apply same_str in Hxy as ->. }
  { intros x y kx ky Hx Hy. destruct (Hstr x Hx) as [t ->], (Hstr y Hy) as [u ->].
    intros [= <-] [= <-] En. by rewrite (Htie _ _ Hx Hy En). }
  exists s, s'. unfold sortStringSet. cbn [as_array mbind outcome_bind]. rewrite Hs, Hs'. split_and!; [done..|].
  unfold same. cbn. by f_equal.
Qed.

Lemma get_field_None k f : get_field k f = None → k ∉ f.*1.
Proof.
  induction f as [|[k' v] f IH]; cbn; [intros _ H; by apply elem_of_nil in H|].
  destruct (String.eqb_spec k' k) as [->|Hne]; [done|]. intros H. rewrite not_elem_of_cons. auto.
Qed.
Lemma update_field_append k (x : json) f : get_field k f = None → update_field k x f = f ++ [(k, x)].
Proof.
  induction f as [|[k' v] f IH]; cbn; [done|]. destruct (String.eqb k' k); [done|]. intros H. by rewrite IH.
Qed.
Lemma alike_keys R f f' : alike R f f' → f.*1 ≡ₚ f'.*1.
Proof.
  intros H. rewrite <- (CanonicalJson.sort_fields_perm f), <- (CanonicalJson.sort_fields_perm f').
  unfold alike in H. apply reflexive_eq. induction H as [|kv kv' l l' [E _] _ IH]; [done|]. cbn. by rewrite E, IH.
Qed.
Lemma alike_insert (R : string → json → json → Prop) k x x' (l l' : list (string * json)) :
  Forall2 (λ kv kv' : string * json, kv.1 = kv'.1 ∧ R kv.1 kv.2 kv'.2) l l' → R k x x' →
  Forall2 (λ kv kv', kv.1 = kv'.1 ∧ R kv.1 kv.2 kv'.2) (insert_field (k, x) l) (insert_field (k, x') l').
Proof.
  intros H Hx. induction H as [|[k1 v] [k2 w] l l' [E Hv] Hl IH]; [by repeat constructor|].
  cbn [insert_field fst snd] in *. subst k2.
  destruct (key_leb k k1).
  - apply Forall2_cons; split; [by split|]. apply Forall2_cons; by repeat split.
  - apply Forall2_cons; by repeat split.
Qed.
(** A field that is not there is added on both sides. *)
Lemma alike_append R k x x' f f' :
  alike R f f' → get_field k f = None → NoDup (units <$> k :: f.*1) → R k x x' →
  alike R (update_field k x f) (update_field k x' f').
Proof.
  intros H Hf Hd Hx. pose proof (alike_get_None _ _ _ _ H Hf) as Hf'.
  assert (∀ (f : list (string * json)) y, get_field k f = None → NoDup (units <$> k :: f.*1) →
    sort_fields (update_field k y f) = insert_field (k, y) (sort_fields f)) as Hins.
  { clear. intros f y Hf Hd. rewrite update_field_append by done.
    change (insert_field (k, y) (sort_fields f)) with (sort_fields ((k, y) :: f)). apply sort_fields_unique.
    - symmetry. apply Permutation_cons_append.
    - intros p q Hp Hq. rewrite <- Permutation_cons_append in Hp, Hq. by apply (distinct_units_tie ((k, y) :: f)). }
  unfold alike. rewrite !Hins; [by apply alike_insert|done| |done|done].
  by rewrite <- (alike_keys _ _ _ H).
Qed.

(** What the validator leaves of a whole graph. *)
Record graph_ok (f : list (string * json)) : Prop := {
  go_nodup : NoDup f.*1;
  go_known : ∀ k, k ∈ f.*1 → k ∈ CANONICAL_GRAPH_FIELDS;
  go_nodes : ∃ l, get_field "nodes" f = Some (JArr l) ∧ nodes_ok l;
  go_roots : ∃ l, get_field "rootNodeIds" f = Some (JArr l) ∧ strings_ok l;
  go_evidence : ∃ l, get_field "evidenceRefs" f = Some (JArr l) ∧ strings_ok l;
  go_extensions : extensions_ok (graph_extensions f);
}.

Lemma known_units k f :
  NoDup f.*1 → (∀ k, k ∈ f.*1 → k ∈ CANONICAL_GRAPH_FIELDS) → k ∈ CANONICAL_GRAPH_FIELDS → get_field k f = None →
  NoDup (units <$> k :: f.*1).
Proof.
  intros Hd Hk Hin Hnone. apply (NoDup_fmap_2_strong units).
  - assert (∀ x y, x ∈ CANONICAL_GRAPH_FIELDS → y ∈ CANONICAL_GRAPH_FIELDS → units x = units y → x = y) as Hinj.
    { assert (NoDup (units <$> CANONICAL_GRAPH_FIELDS)) as Hu by (apply (bool_decide_unpack _); vm_compute; exact I).
      intros x y Hx Hy E. apply list_elem_of_lookup in Hx as [i Hi]. apply list_elem_of_lookup in Hy as [j Hj].
      assert (i = j) as <-; [|congruence].
      apply (NoDup_lookup _ _ _ (units x) Hu); rewrite list_lookup_fmap; [by rewrite Hi|by rewrite Hj, E]. }
    intros x y Hx Hy. apply elem_of_cons in Hx, Hy. apply Hinj; naive_solver.
  - constructor; [by apply get_field_None|done].
Qed.

(** A field of the graph the canonical form sorts, put in its place on both sides. *)
Definition settled (done : list string) (k : string) : json → json → Prop :=
  if bool_decide (k ∈ done) then same else same_graph_field k.
Lemma settle done k x x' f f' :
  alike (settled done) f f' → NoDup f.*1 → get_field k f ≠ None → same x x' →
  alike (settled (k :: done)) (update_field k x f) (update_field k x' f') ∧ NoDup (update_field k x f).*1.
Proof.
  intros H Hd Hf Hx. split; [|by rewrite update_field_keys].
  eapply alike_update; [exact H|done| | |by left].
  - unfold settled. rewrite bool_decide_eq_true_2 by (by left). done.
  - intros k' v w Hne. unfold settled. destruct (decide (k' ∈ done)) as [Hin|Hin].
    + by rewrite !bool_decide_eq_true_2 by (set_solver).
    + by rewrite !bool_decide_eq_false_2 by (set_solver).
Qed.

Lemma graph_extensions_same f f' :
  alike same_graph_field f f' → same (graph_extensions f) (graph_extensions f').
Proof.
  intros H. unfold graph_extensions. pose proof (alike_get _ _ _ "extensions" H) as Hk.
  destruct Hk as [v w Hvw|]; [|done]. cbn in Hvw. destruct v; destruct w; try done; by inversion Hvw.
Qed.

Lemma canonicalizeGraph_same f f' a :
  graph_ok f → alike same_graph_field f f' → canonicalizeObservationGraph nfc number_text (JObj f) = Ok a →
  ∃ b, canonicalizeObservationGraph nfc number_text (JObj f') = Ok b ∧ same a b.
Proof.
  intros [Hnd Hknown (nodes & Hn & Hnok) (roots & Hr & Hrok) (evidence & He & Heok) Hx] Hf H.
  unfold canonicalizeObservationGraph in *. cbn [as_object mbind outcome_bind] in *.
  assert (∀ k l, get_field k f = Some (JArr l) → same_graph_field k = reordered same →
    ∃ l1 l', get_field k f' = Some (JArr l') ∧ l ≡ₚ l1 ∧ Forall2 same l1 l') as Hset.
  { intros k l Hl E. destruct (alike_get_Some _ _ _ _ _ Hf Hl) as (w & Hw & Hvw). rewrite E in Hvw.
    destruct Hvw as (l0 & l1 & l' & El & -> & Hp & HR). injection El as <-. by exists l1, l'. }
  destruct (Hset _ _ Hr eq_refl) as (r1 & r' & Hr' & Hrp & HrR).
  destruct (Hset _ _ He eq_refl) as (e1 & e' & He' & Hep & HeR).
  destruct (sortStringSet_same _ _ _ Hrok Hrp HrR) as (sr & sr' & Hsr & Hsr' & Hsrr).
  destruct (sortStringSet_same _ _ _ Heok Hep HeR) as (se & se' & Hse & Hse' & Hsee).
  destruct (alike_get_Some _ _ _ _ _ Hf Hn) as (w & Hn' & Hvw). cbn in Hvw.
  destruct Hvw as (l0 & n1 & n' & El & -> & Hnp & HnR). injection El as <-.
  rewrite Hr, Hsr, Hn, He, Hse in H. rewrite Hr', Hsr', Hn', He', Hse'. cbn [mbind outcome_bind] in *.
  apply bind_Ok in H as (sn & Hsn & H). destruct (sortNodes_same _ _ _ _ Hnok Hnp HnR Hsn) as (sn' & -> & Hsnn).
  cbn [mbind outcome_bind]. apply bind_Ok in H as (sx & Hsx & [= <-]).
  destruct (canonicalizeExtensions_same _ _ _ _ _ (graph_extensions_same _ _ Hf) Hx Hsx) as (sx' & -> & Hsxx).
  eexists. split; [done|]. apply same_obj.
  destruct (settle [] "rootNodeIds" (JArr sr) (JArr sr') f f') as [H1 D1]; [done|done|by rewrite Hr|done|].
  destruct (settle _ "nodes" sn sn' _ _ H1 D1) as [H2 D2]; [by rewrite get_update_other, Hn|done|].
  destruct (settle _ "evidenceRefs" (JArr se) (JArr se') _ _ H2 D2) as [H3 D3]; [by rewrite !get_update_other, He|done|].
  apply (alike_impl _ (λ _, same)) in H3; [|].
  2:{ intros k v u. unfold settled, same_graph_field.
      repeat match goal with |- context [bool_decide ?P] => destruct (bool_decide_reflect P) as [|Hk] end; [done|].
      rewrite !not_elem_of_cons in Hk. destruct Hk as (K1 & K2 & K3 & _).
      by destruct (String.eqb_spec k "rootNodeIds"), (String.eqb_spec k "evidenceRefs"), (String.eqb_spec k "nodes"). }
  assert (∀ k, k ∈ (update_field "evidenceRefs" (JArr se) (update_field "nodes" sn (update_field "rootNodeIds" (JArr sr) f))).*1 → k ∈ CANONICAL_GRAPH_FIELDS) as Hkn.
  { intros k. rewrite !update_field_keys; [apply Hknown|..]; rewrite ?get_update_other by done; by rewrite ?Hr, ?Hn, ?He. }
  destruct (get_field "extensions" (update_field "evidenceRefs" (JArr se) (update_field "nodes" sn (update_field "rootNodeIds" (JArr sr) f)))) as [x0|] eqn:E.
  - apply alike_update_same; [done|by rewrite E|done].
  - apply alike_append; [done|done| |done]. apply known_units; [done|done| |done].
    unfold CANONICAL_GRAPH_FIELDS. set_solver.
Qed.

End reorder.
End ObservationCanonical.
