(* ===== verification/ObservationHash.v ===== *)
(** * Observation Graphs: the hash

    The two theorems on the hash of an accepted graph: it exists when the graph's
    numbers are finite, and graphs that differ in order only have the same. *)
From S2P Require Import Prelude Number Json CanonicalJson RunnerProtocol Regex Observation ObservationSafety ObservationCanonical.
From Stdlib Require Import Ascii.

Module ObservationHash.
Import Observation ObservationSafety ObservationCanonical.

(** ** Finite values *)
Lemma all_finite_obj f : all_finite (JObj f) = true ↔ Forall (λ kv, all_finite kv.2 = true) f.
Proof.
  cbn. rewrite forallb_forall, Forall_forall. split.
  - intros H [k x] Hx%list_elem_of_In. by apply (H (k, x)).
  - intros H [k x] Hx%list_elem_of_In. by apply (H (k, x)).
Qed.
Lemma all_finite_arr l : all_finite (JArr l) = true ↔ Forall (λ x, all_finite x = true) l.
Proof. cbn. rewrite forallb_forall, Forall_forall. by setoid_rewrite list_elem_of_In. Qed.

Lemma all_finite_get k f x : all_finite (JObj f) = true → get_field k f = Some x → all_finite x = true.
Proof. rewrite all_finite_obj, Forall_forall. intros H Hx%get_field_elem. by apply (H (k, x)). Qed.
Lemma all_finite_update k x f :
  all_finite (JObj f) = true → all_finite x = true → all_finite (JObj (update_field k x f)) = true.
Proof.
  rewrite !all_finite_obj. intros Hf Hx. induction Hf as [|[k' y] f Hy Hf IH]; cbn; [by repeat constructor|].
  destruct (String.eqb k' k); by constructor.
Qed.

Section total.
Context (nfc : string → string) (number_text : number → string).

(** ** JSON Pointers that resolve to an array *)
Fixpoint resolves (path : list string) (v : json) : Prop :=
  match path, v with
  | [], JArr _ => True
  | head :: path, JObj f => ∃ child, get_field head f = Some child ∧ resolves path child
  | _, _ => False
  end.

Lemma extensionSetArrayAtPath_resolves payload pointer l :
  extensionSetArrayAtPath payload pointer = Some l → resolves (parseJsonPointer pointer) (JObj payload).
Proof.
  unfold extensionSetArrayAtPath. generalize (parseJsonPointer pointer) as path, (JObj payload) as v. clear.
  assert (∀ path, foldl (λ current part, match current with Some (JObj fields) => get_field part fields | _ => None end)
    None path = None) as Hnone.
  { induction path as [|p path IH]; [done|]. cbn. apply IH. }
  induction path as [|head path IH]; intros v; cbn [foldl resolves].
  - by destruct v.
  - destruct v as [| | | | |f]; cbn; rewrite ?Hnone; try done.
    destruct (get_field head f) as [child|]; [|by rewrite Hnone]. intros H. exists child. split; [done|]. by apply IH.
Qed.

Lemma sortAtPath_total path v :
  resolves path v → all_finite v = true →
  ∃ a, sortAtPath nfc number_text path v = Ok (Some a) ∧ all_finite a = true ∧ ∀ q, resolves q v → resolves q a.
Proof.
  revert v. induction path as [|head path IH]; intros v Hres Hfin.
  - destruct v as [| | | |l|]; try done. rewrite all_finite_arr in Hfin. rewrite Forall_forall in Hfin.
    assert (∀ x, x ∈ l → ∃ key, canonicalObservationJson nfc number_text x = Ok key) as Hkeys.
    { intros x Hx. by apply json_text_total, Hfin. }
    cbn. rewrite (sortByKey_total nfc _ l Hkeys). eexists. split_and!; [done| |].
    + apply all_finite_arr. rewrite keyed_sort_perm. by apply Forall_forall.
    + by intros [|? ?].
  - destruct v as [| | | | |f]; try done. destruct Hres as (child & Hc & Hres). cbn. rewrite Hc.
    destruct (IH child Hres (all_finite_get _ _ _ Hfin Hc)) as (a & -> & Ha & Hq). cbn.
    eexists. split_and!; [done|by apply all_finite_update|].
    intros [|h2 q]; [done|]. cbn. intros (c2 & Hc2 & Hr2). destruct (decide (h2 = head)) as [->|Hne].
    + exists a. rewrite get_update_same. split; [done|]. apply Hq. congruence.
    + exists c2. by rewrite get_update_other.
Qed.

(** A pointer of [setSemantics] that the validator accepted. *)
Definition pointer_ok (payload : json) (pointer : json) : Prop :=
  ∃ p, pointer = JStr p ∧ parseJsonPointer p ≠ [] ∧ resolves (parseJsonPointer p) payload.

Lemma split_nonempty sep s : split sep s ≠ [].
Proof. destruct s as [|c s]; cbn; [done|]. destruct (Ascii.eqb c sep); [done|]. by destruct (split sep s). Qed.
Lemma pointer_path p : str_startsWith p "/" = true → parseJsonPointer p ≠ [].
Proof.
  destruct p as [|c p]; [done|]. unfold str_startsWith. cbn [bytes starts_with].
  intros [H _]%andb_true_iff. apply Z.eqb_eq in H.
  assert (c = "/"%char) as ->.
  { unfold byte_of in H. apply N2Z.inj in H. rewrite <- (ascii_N_embedding c), <- H. reflexivity. }
  cbn. intros E. apply fmap_nil_inv in E. by apply split_nonempty in E.
Qed.

Lemma validatePointer_ok payload pointer :
  validatePointer nfc number_text payload pointer = Ok tt → pointer_ok (JObj payload) pointer.
Proof.
  unfold validatePointer. destruct pointer as [| | |p| |]; try done.
  destruct (negb (str_startsWith p "/") || String.eqb p "/") eqn:E; [done|].
  apply orb_false_iff in E as [E%negb_false_iff _].
  destruct (extensionSetArrayAtPath payload p) as [l|] eqn:Hl; [|done]. intros _.
  exists p. split_and!; [done|by apply pointer_path|by eapply extensionSetArrayAtPath_resolves].
Qed.

Lemma fold_pointers_total pointers f :
  Forall (pointer_ok (JObj f)) pointers → all_finite (JObj f) = true →
  ∃ f', foldl (λ payload pointer, payload ← payload; sortExtensionSetAtPath nfc number_text payload pointer)
    (Ok (JObj f)) pointers = Ok (JObj f') ∧ all_finite (JObj f') = true.
Proof.
  revert f. induction pointers as [|pointer pointers IH]; intros f Hp Hfin; [by exists f|].
  apply Forall_cons in Hp as [(p & -> & Hne & Hres) Hp]. cbn [foldl mbind outcome_bind].
  unfold sortExtensionSetAtPath at 2. cbn [as_text mbind outcome_bind].
  rewrite bool_decide_eq_false_2 by done. cbn [reject_if mbind outcome_bind].
  destruct (sortAtPath_total _ _ Hres Hfin) as (a & Ha & Hafin & Hkeep). rewrite Ha. cbn [mbind outcome_bind].
  destruct (parseJsonPointer p) as [|head path] eqn:Epath; [done|]. cbn in Ha.
  destruct (get_field head f) as [child|]; [|done]. apply bind_Ok in Ha as ([c|] & _ & [= <-]).
  apply IH; [|done]. eapply Forall_impl; [exact Hp|]. intros x (p' & -> & Hne' & Hres'). exists p'. split_and!; [done..|].
  by apply Hkeep.
Qed.

(** ** Extensions *)
Lemma all_finite_record f : all_finite (JObj f) = true → all_finite (JObj (sortRecordByNormalizedKey nfc f)) = true.
Proof.
  rewrite !all_finite_obj, sortRecord_perm, !Forall_forall. intros H kv [_ Hkv]%list_elem_of_filter. by apply H.
Qed.

(** An accepted extension: its payload is an object in which its sets resolve. *)
Definition extension_valid (value : json) : Prop :=
  ∃ f payload, value = JObj f ∧ get_field "payload" f = Some (JObj payload) ∧
    match get_field "setSemantics" f with
    | None => True
    | Some v => ∃ pointers, v = JArr pointers ∧ Forall (pointer_ok (JObj payload)) pointers
    end.

Lemma extension_value_total value :
  extension_valid value → all_finite value = true →
  ∃ a, extension_value nfc number_text value = Ok a ∧ all_finite a = true.
Proof.
  intros (f & payload & -> & Hp & Hset) Hfin. unfold extension_value, canonicalizeExtensionPayload.
  cbn [as_object mbind outcome_bind]. rewrite Hp. cbn [as_object mbind outcome_bind].
  assert (∃ pointers, match get_field "setSemantics" f with None | Some JNull => Ok [] | Some v => as_array (Some v) end = Ok pointers
    ∧ Forall (pointer_ok (JObj payload)) pointers) as (pointers & -> & Hpointers).
  { destruct (get_field "setSemantics" f) as [v|]; [|by exists []]. destruct Hset as (ps & -> & Hps). by exists ps. }
  cbn [mbind outcome_bind]. destruct (fold_pointers_total _ _ Hpointers (all_finite_get _ _ _ Hfin Hp)) as (f' & -> & Hf').
  cbn [mbind outcome_bind]. destruct (is_text _ _); [destruct (get_field "query" f') as [[| | | | |query]|] eqn:Hq|];
    cbn [mbind outcome_bind]; (eexists; split; [done|]); apply all_finite_update; try done.
  apply all_finite_update; [done|]. apply all_finite_record. by eapply all_finite_get.
Qed.

Lemma canonicalizeExtensions_total fields :
  (∀ kv, kv ∈ fields → extension_valid kv.2) → all_finite (JObj fields) = true →
  ∃ a, canonicalizeExtensions nfc number_text (Some (JObj fields)) = Ok a ∧ all_finite a = true.
Proof.
  intros Hv Hfin. unfold canonicalizeExtensions. cbn [as_object mbind outcome_bind].
  rewrite all_finite_obj, Forall_forall in Hfin.
  assert (∀ kv, kv ∈ fields → ∃ a, extension_value nfc number_text kv.2 = Ok a ∧ all_finite a = true) as Hall.
  { intros kv Hkv. apply extension_value_total; auto. }
  assert (mapM (canonicalizeExtension nfc number_text) fields = Ok (map (λ '(k, x), (k, extension_canonical nfc number_text x)) fields)) as ->.
  { apply mapM_extensions. split; [|done]. intros kv Hkv. destruct (Hall kv Hkv) as (a & Ha & _). by exists a. }
  eexists. split; [done|]. apply all_finite_obj, Forall_forall. intros kv Hkv.
  apply list_elem_of_In, in_map_iff in Hkv as ([k x] & <- & Hx%list_elem_of_In). cbn.
  destruct (Hall (k, x) Hx) as (a & Ha & Hfa). cbn [snd] in *. unfold extension_canonical. by rewrite Ha.
Qed.
End total.

(** ** From the validator *)
Section theorems.
Context (nfc : string → string) (number_text : number → string).
Context (new_URL : string → option string → option ParsedUrl).
Context (opts : ValidateOptions).
Notation validate := (validateObservationGraphV1 nfc number_text new_URL opts).
Notation validateExtensions := (validateExtensions nfc number_text new_URL opts).
Notation canonicalText := (canonicalObservationGraphJson nfc number_text).

(** An accepted extension under its key; a page's query keys are in normal form. *)
Definition extension_checked (kv : string * json) : Prop :=
  extension_valid kv.2 ∧ ∃ f, kv.2 = JObj f ∧ get_field "type" f = Some (JStr kv.1) ∧
    (kv.1 = WEB_EXTENSION_V1_TYPE → ∃ payload query, get_field "payload" f = Some (JObj payload) ∧
       get_field "query" payload = Some (JObj query) ∧ ∀ key value, (key, value) ∈ query → key = nfc key).

Lemma validateWeb_query payload :
  validateWebExtensionV1 nfc new_URL opts payload = Ok tt →
  ∃ query, get_field "query" payload = Some (JObj query) ∧ ∀ key value, (key, value) ∈ query → key = nfc key.
Proof.
  unfold validateWebExtensionV1. intros H.
  do 2 (apply bind_Ok in H as ([] & _ & H)). apply bind_Ok in H as ([] & _ & H).
  apply bind_Ok in H as ([] & _ & H). apply bind_Ok in H as (viewport & _ & H).
  do 4 (apply bind_Ok in H as ([] & _ & H)). apply bind_Ok in H as (query & Hq%assertObject_Ok & H).
  exists query. split; [done|]. intros key value Hin. apply each_Ok in H. rewrite Forall_forall in H.
  specialize (H _ Hin). unfold validateQueryEntry in H. apply bind_Ok in H as ([] & Hk%reject_if_Ok & _).
  apply orb_false_iff in Hk as [_ Hk%negb_false_iff]. by apply String.eqb_eq in Hk.
Qed.

Lemma validateExtension_checked allow kv :
  validateExtension nfc number_text new_URL opts allow kv = Ok tt → extension_checked kv.
Proof.
  destruct kv as [key value]. unfold validateExtension. intros H.
  apply bind_Ok in H as ([] & _ & H). apply bind_Ok in H as (f & Hv%assertObject_Ok & H). injection Hv as ->.
  apply bind_Ok in H as ([] & _ & H). apply bind_Ok in H as (type & [Ht _]%assertNonEmptyString_Ok & H).
  apply bind_Ok in H as ([] & He%reject_if_Ok%negb_false_iff%String.eqb_eq & H). subst type.
  apply bind_Ok in H as (? & _ & H). apply bind_Ok in H as (payload & Hp%assertObject_Ok & H).
  apply bind_Ok in H as ([] & Hset & H). split; cbn [fst snd].
  - exists f, payload. split_and!; [done..|]. unfold validateSetSemantics in Hset.
    destruct (get_field "setSemantics" f) as [v|]; [|done].
    apply bind_Ok in Hset as (pointers & Hv%assertArray_Ok & Hset%each_Ok). injection Hv as ->.
    exists pointers. split; [done|]. eapply Forall_impl; [exact Hset|]. apply validatePointer_ok.
  - exists f. split_and!; [done..|]. intros ->. rewrite String.eqb_refl in H.
    apply bind_Ok in H as ([] & _ & H). destruct (validateWeb_query _ H) as (query & Hq & Hk).
    by exists payload, query.
Qed.

Lemma validateExtensions_checked allow value :
  validateExtensions allow (Some value) = Ok tt → ∃ fields, value = JObj fields ∧ Forall extension_checked fields.
Proof.
  intros H. apply bind_Ok in H as (fields & Hv%assertObject_Ok & H%each_Ok). injection Hv as ->.
  exists fields. split; [done|]. eapply Forall_impl; [exact H|]. apply validateExtension_checked.
Qed.

Section units.
Context (nfc_units : ∀ a b, units (nfc a) = units (nfc b) → nfc a = nfc b).

Lemma checked_extensions_ok fields :
  Forall extension_checked fields → distinct_keys (JObj fields) = true → extensions_ok (JObj fields).
Proof.
  intros Hc Hd f kv [= <-] Hkv ef payload Hef Hweb Hp fields' query -> Hq.
  rewrite Forall_forall in Hc. destruct (Hc kv Hkv) as (_ & f0 & Hf0 & Htype & Hkeys).
  rewrite Hef in Hf0. injection Hf0 as <-. apply is_text_true in Hweb. rewrite Htype in Hweb. injection Hweb as Hweb.
  destruct (Hkeys Hweb) as (payload' & query' & Hp' & Hq' & Hk).
  rewrite Hp in Hp'. injection Hp' as <-. rewrite Hq in Hq'. injection Hq' as <-.
  unfold distinct_units. apply (NoDup_fmap_2_strong units).
  - intros a b Ha Hb E. apply list_elem_of_fmap in Ha as ([a' x] & -> & Ha). apply list_elem_of_fmap in Hb as ([b' y] & -> & Hb).
    cbn in *. rewrite (Hk _ _ Ha), (Hk _ _ Hb) in E |- *. by apply nfc_units.
  - cbn in Hd. apply andb_true_iff in Hd as [_ Hd]. rewrite forallb_forall in Hd. destruct kv as [k v]. cbn in *. subst v.
    apply list_elem_of_In, Hd in Hkv. apply distinct_keys_obj in Hkv as [_ Hkv].
    apply Hkv in Hp. apply distinct_keys_obj in Hp as [_ Hp]. by apply Hp, distinct_keys_obj in Hq as [? _].
Qed.

(** What is known of a validated graph whose objects have distinct keys. *)
Lemma validated_node_ok node view :
  node_checked nfc number_text new_URL opts node view → assertUniqueRelationKeys nfc (relations view) = Ok tt →
  distinct_keys (JObj node) = true → node_ok nfc node.
Proof.
  intros [Hid _ _ (l & Hl & Hrel) _ Hext] Hu Hd. apply distinct_keys_obj in Hd as [Hnd Hd]. split; [done|by eexists| |].
  - exists l. split; [done|]. eapply validated_relations_ok; [done|done|]. apply Hd in Hl. by apply distinct_keys_arr.
  - destruct (get_field "extensions" node) as [e|] eqn:He; [|by apply bind_Ok in Hext as (? & ? & _)].
    exists e. split; [done|]. apply validateExtensions_checked in Hext as (fields & -> & Hc).
    apply checked_extensions_ok; [done|]. by eapply Hd.
Qed.

Lemma validated_nodes_ok nodes views ids :
  validateNodes nfc number_text new_URL opts ∅ ∅ nodes = Ok views →
  Forall (λ view, validateRelations nfc ids view = Ok tt) views →
  (∀ x, x ∈ nodes → distinct_keys x = true) → nodes_ok nfc nodes.
Proof.
  intros Hv Hr Hd. destruct (validateNodes_ids nfc number_text new_URL opts ∅ ∅ nodes views) as (Hall & Hnd & _); [|done|].
  { intros key id. rewrite lookup_empty. set_solver. }
  assert (∀ i x, nodes !! i = Some x → ∃ f view, views !! i = Some view ∧ x = JObj f ∧
    node_checked nfc number_text new_URL opts f view) as Hnode.
  { intros i x Hi. destruct (Forall2_lookup_l _ _ _ _ _ Hall Hi) as (view & Hview & Hx).
    apply validateNode_checked in Hx as (f & -> & Hf). by exists f, view. }
  split.
  - intros x Hx. pose proof Hx as Hx'. apply list_elem_of_lookup in Hx' as [i Hi].
    destruct (Hnode i x Hi) as (f & view & Hview & -> & Hf). exists f. split; [done|].
    rewrite Forall_lookup in Hr. apply Hr in Hview. apply bind_Ok in Hview as ([] & Hu & _).
    by eapply validated_node_ok; [| |apply Hd].
  - intros x y kx ky Hx Hy Ekx Eky E. apply list_elem_of_lookup in Hx as [i Hi]. apply list_elem_of_lookup in Hy as [j Hj].
    destruct (Hnode i x Hi) as (f & view & Hview & -> & Hf), (Hnode j y Hj) as (f' & view' & Hview' & -> & Hf').
    unfold node_key in Ekx, Eky. cbn [as_object mbind outcome_bind] in *.
    rewrite (nc_id _ _ _ _ _ _ Hf) in Ekx. rewrite (nc_id _ _ _ _ _ _ Hf') in Eky.
    injection Ekx as <-. injection Eky as <-. assert (i = j) as <-; [|congruence].
    apply (NoDup_lookup _ _ _ (nfc (nodeId view)) Hnd); rewrite !list_lookup_fmap.
    + by rewrite Hview.
    + by rewrite Hview', E.
Qed.

Lemma validated_graph_ok f value' :
  validate (JObj f) = Ok value' → distinct_keys (JObj f) = true → graph_ok nfc f.
Proof.
  intros H Hd. destruct (validate_inv _ _ _ _ _ _ H) as (_ & f0 & nodes & roots & evidence & views & Ef & Hun & Hn & Hr & He & Hext & Hur & Hue & Hviews & _ & Hvrel & _ & _).
  injection Ef as <-. apply distinct_keys_obj in Hd as [Hnd Hd]. split; [done| | | | |].
  - intros k Hk. apply list_elem_of_fmap in Hk as (kv & -> & Hkv). apply reject_if_Ok, negb_false_iff in Hun.
    rewrite forallb_forall in Hun. apply list_elem_of_In, Hun in Hkv. unfold includes in Hkv. by apply bool_decide_eq_true in Hkv.
  - exists nodes. split; [done|]. eapply validated_nodes_ok; [done|done|]. apply Hd in Hn. by apply distinct_keys_arr.
  - exists roots. split; [done|]. by apply unique_strings_ok.
  - exists evidence. split; [done|]. by apply unique_strings_ok.
  - apply validateExtensions_checked in Hext as (fields & E & Hc). rewrite E. apply checked_extensions_ok; [done|].
    rewrite <- E. unfold graph_extensions. destruct (get_field "extensions" f) as [[]|] eqn:Hx; try done; by eapply Hd.
Qed.
End units.

(** Two graphs that differ only in the order of nodes, roots, evidence references, the
    relations of a node and object keys have the same canonical text, where one of
    them is accepted by the validator. *)
Theorem canonical_text_order value value' other text :
  (∀ a b, units (nfc a) = units (nfc b) → nfc a = nfc b) →
  validate value = Ok value' → distinct_keys value = true → same_graph value other →
  canonicalText value = Ok text → canonicalText other = Ok text.
Proof.
  intros Hu Hv Hd (f & f' & -> & -> & Hf) H. unfold canonicalObservationGraphJson in *.
  apply bind_Ok in H as (a & Ha & H).
  destruct (canonicalizeGraph_same nfc number_text Hu f f' a) as (b & -> & Hab); [by eapply validated_graph_ok|done|done|].
  cbn [mbind outcome_bind]. unfold encode in *. by rewrite <- (json_text_same _ _ _ _ Hab).
Qed.

(** ** The text exists *)
Lemma relations_total l rs :
  Forall2 (λ value r, validateRelation value = Ok r) l rs → all_finite (JArr l) = true →
  ∃ s, sortRelations nfc (Some (JArr l)) = Ok (JArr s) ∧ all_finite (JArr s) = true.
Proof.
  intros Hl Hfin. unfold sortRelations. cbn [as_array mbind outcome_bind]. rewrite (sortByKey_total nfc relation_key).
  - eexists. split; [done|]. rewrite all_finite_arr in *. by rewrite keyed_sort_perm.
  - intros x Hx. apply list_elem_of_lookup in Hx as [i Hi]. destruct (Forall2_lookup_l _ _ _ _ _ Hl Hi) as (r & _ & Hr).
    unfold validateRelation in Hr. apply bind_Ok in Hr as (f & Hf%assertObject_Ok & Hr). injection Hf as ->.
    apply bind_Ok in Hr as ([] & _ & Hr). destruct (one_of RELATION_TYPES (get_field "type" f)) as [t|] eqn:Ht; [|done].
    apply one_of_Some in Ht as [Ht _]. apply bind_Ok in Hr as (g & [Hg _]%assertNonEmptyString_Ok & _).
    unfold relation_key. cbn [as_object mbind outcome_bind]. rewrite Ht, Hg. by eexists.
Qed.

Lemma node_total node view :
  node_checked nfc number_text new_URL opts node view → all_finite (JObj node) = true →
  ∃ a, canonicalizeNode nfc number_text (JObj node) = Ok a ∧ all_finite a = true.
Proof.
  intros [_ _ _ (l & Hl & Hrel) _ Hext] Hfin. unfold canonicalizeNode. cbn [as_object mbind outcome_bind].
  destruct (relations_total _ _ Hrel (all_finite_get _ _ _ Hfin Hl)) as (s & Hs & Hsfin). rewrite Hl, Hs.
  cbn [mbind outcome_bind]. destruct (get_field "extensions" node) as [e|] eqn:He; [|by apply bind_Ok in Hext as (? & ? & _)].
  apply validateExtensions_checked in Hext as (fields & -> & Hc). rewrite Forall_forall in Hc.
  destruct (canonicalizeExtensions_total nfc number_text fields) as (a & -> & Ha);
    [intros kv Hkv; by apply Hc|by eapply all_finite_get|].
  eexists. split; [done|]. by do 2 (apply all_finite_update; [|done]).
Qed.

Lemma nodes_total nodes views :
  Forall2 (λ value view, validateNode nfc number_text new_URL opts value = Ok view) nodes views →
  all_finite (JArr nodes) = true →
  ∃ a, sortNodes nfc number_text (Some (JArr nodes)) = Ok a ∧ all_finite a = true.
Proof.
  intros Hall Hfin. rewrite all_finite_arr, Forall_forall in Hfin.
  assert (∀ x, x ∈ nodes → (∃ key, node_key x = Ok key) ∧ ∃ a, canonicalizeNode nfc number_text x = Ok a ∧ all_finite a = true) as Hnode.
  { intros x Hx. pose proof (Hfin x Hx) as Hxfin. apply list_elem_of_lookup in Hx as [i Hi].
    destruct (Forall2_lookup_l _ _ _ _ _ Hall Hi) as (view & _ & Hv). apply validateNode_checked in Hv as (f & -> & Hf).
    split; [|by eapply node_total]. exists (nodeId view). unfold node_key. cbn [as_object mbind outcome_bind].
    by rewrite (nc_id _ _ _ _ _ _ Hf). }
  unfold sortNodes. cbn [as_array mbind outcome_bind]. fold node_key.
  rewrite (sortByKey_total nfc node_key) by (intros x Hx; by apply Hnode). cbn [mbind outcome_bind].
  assert (∀ x, x ∈ keyed_sort (key_text nfc node_key) nodes → ∃ a, canonicalizeNode nfc number_text x = Ok a ∧ all_finite a = true) as Hs.
  { intros x. rewrite keyed_sort_perm. intros Hx. by apply Hnode. }
  revert Hs. generalize (keyed_sort (key_text nfc node_key) nodes). clear. intros l Hl.
  assert (∃ c, mapM (canonicalizeNode nfc number_text) l = Ok c ∧ Forall (λ x, all_finite x = true) c) as (c & -> & Hc).
  { induction l as [|x l IH]; [by exists []|]. destruct (Hl x) as (a & Ha & Hafin); [by left|].
    destruct IH as (c & Hc & Hcfin); [intros; apply Hl; by right|]. exists (a :: c). cbn [mapM]. rewrite Ha, Hc.
    split; [done|by constructor]. }
  eexists. split; [done|]. by apply all_finite_arr.
Qed.

Lemma string_set_total l :
  assertUniqueCanonicalStringKeys nfc l = Ok tt → all_finite (JArr l) = true →
  ∃ s, sortStringSet nfc (Some (JArr l)) = Ok s ∧ all_finite s = true.
Proof.
  intros [Hs _]%unique_strings_ok Hfin. unfold sortStringSet. cbn [as_array mbind outcome_bind].
  rewrite (sortByKey_total nfc (λ v, as_text (Some v))).
  - eexists. split; [done|]. rewrite all_finite_arr in *. by rewrite keyed_sort_perm.
  - intros x Hx. destruct (Hs x Hx) as [t ->]. by exists t.
Qed.

(** Every graph that the validator accepts has a hash, provided the numbers in it are
    finite, those in the payloads of extensions included. *)
Theorem valid_graph_has_hash sha256_hex value value' :
  validate value = Ok value' → all_finite value = true →
  ∃ text, canonicalText value = Ok text ∧
    observationGraphHash nfc number_text new_URL sha256_hex opts value = Ok (sha256_hex text).
Proof.
  intros H Hfin. destruct (validate_inv _ _ _ _ _ _ H) as (-> & f & nodes & roots & evidence & views & -> & _ & Hn & Hr & He & Hext & Hur & Hue & Hviews & _).
  assert (∃ text, canonicalText (JObj f) = Ok text) as [text Htext].
  { unfold canonicalObservationGraphJson, canonicalizeObservationGraph. cbn [as_object mbind outcome_bind].
    destruct (string_set_total _ Hur (all_finite_get _ _ _ Hfin Hr)) as (sr & Hsr & Fr).
    destruct (string_set_total _ Hue (all_finite_get _ _ _ Hfin He)) as (se & Hse & Fe).
    destruct (validateNodes_ids nfc number_text new_URL opts ∅ ∅ nodes views) as (Hall & _ & _); [|done|].
    { intros key id. rewrite lookup_empty. set_solver. }
    destruct (nodes_total _ _ Hall (all_finite_get _ _ _ Hfin Hn)) as (sn & Hsn & Fn).
    apply validateExtensions_checked in Hext as (fields & E & Hc). rewrite Forall_forall in Hc.
    assert (all_finite (graph_extensions f) = true) as Fx.
    { unfold graph_extensions. destruct (get_field "extensions" f) as [v|] eqn:Hx; [|done].
      pose proof (all_finite_get _ _ _ Hfin Hx) as Fv. by destruct v. }
    rewrite E in Fx. destruct (canonicalizeExtensions_total nfc number_text fields) as (sx & Hsx & Fsx);
      [intros kv Hkv; by apply Hc|done|].
    rewrite Hr, Hsr, Hn, Hsn, He, Hse, E. cbn [mbind outcome_bind]. rewrite Hsx. cbn [mbind outcome_bind].
    apply json_text_total. by do 4 (apply all_finite_update; [|done]). }
  exists text. split; [done|]. unfold observationGraphHash. rewrite H. cbn [mbind outcome_bind]. by rewrite Htext.
Qed.
End theorems.
End ObservationHash.
