(* ===== verification/VisibleText.v ===== *)
(** * Visible text, compared loosely

    [value.trim().toLowerCase().replace(/\s+/g, " ")]: how the consumers of an
    observation compare the text of nodes ([normalize] of
    [packages/runner-components/skill-replay/src/skill-replay-controller.ts],
    [normalizeText] of
    [packages/runner-components/exploration/src/observation-v1-consumer.ts]).
    [String.prototype.toLowerCase] is a parameter. *)
From S2P Require Import Prelude Number Json.
From Stdlib Require Import Ascii.

Module VisibleText.

Fixpoint str_of (l : list Z) : string :=
  match l with [] => EmptyString | b :: l => String (ascii_of_N (Z.to_N b)) (str_of l) end.
(** The bytes after the white space they start with; [n] bounds them. *)
Fixpoint skip_whitespace (n : nat) (l : list Z) : list Z :=
  match n, whitespace_prefix l with S n, Some r => skip_whitespace n r | _, _ => l end.
Fixpoint trim_end (l : list Z) : list Z :=
  match l with [] => [] | b :: r => if all_whitespace (length l) l then [] else b :: trim_end r end.
(** [replace(/\s+/g, " ")] *)
Fixpoint collapse (n : nat) (l : list Z) : list Z :=
  match n, l with
  | S n, b :: r =>
      match whitespace_prefix l with
      | Some r => 32%Z :: collapse n (skip_whitespace (length r) r)
      | None => b :: collapse n r
      end
  | _, _ => []
  end.
Definition trim (s : string) : string := str_of (trim_end (skip_whitespace (length (bytes s)) (bytes s))).

Definition normalize (toLowerCase : string → string) (value : string) : string :=
  let l := bytes (toLowerCase (trim value)) in str_of (collapse (length l) l).

End VisibleText.
