(* ===== verification/SkillReplay.v ===== *)
(** * Replaying a signed Skill

    Models [packages/runner-components/skill-replay/src/skill-replay-controller.ts],
    and the runner of regression jobs over it
    ([packages/runner-components/exploration/src/regression-job.ts]).  The signer
    and the targets answer anything; what a target captures is untrusted and passes
    the validator of [Observation] before a step reads it. *)
From S2P Require Import Prelude Number Json CanonicalJson RunnerProtocol.
From S2P Require Import Interact Observation VisibleText Skill SkillLifecycle.
From Stdlib Require Import Ascii.
Import Observation(Thrown, ObservationError, OtherError, code_text, V, invalid,
  ParsedUrl, ValidateOptions, Build_ValidateOptions, validateObservationGraphV1,
  graph_field, extensions_of, requireGraphExtensionMajor, findGraphExtensionMajor, is_text, split).
Import Skill(SignedSkillBundle, SkillStep, SkillAssertion, SemanticTarget, IntentStep,
  SkillSignatureVerification, valid, SkillReplayResult, replay_passed, replay_blocked).
Import SkillLifecycle(SkillVerificationScope).

Module SkillReplay.

(** ** Calls *)

(** The action a step was resolved to. *)
Record ResolvedReplayAction := { r_step : SkillStep; r_node : option json }.

(** [target] tells the targets of the repetitions of a job apart.  A captured value
    that is no JSON value is refused as [null] is. *)
Inductive Call : Type → Type :=
  | Verify (bundle : SignedSkillBundle) (scope : SkillVerificationScope)
      : Call (outcome Thrown SkillSignatureVerification)
  | Capture (target : nat) : Call (outcome Thrown json)
  | Execute (target : nat) (action : ResolvedReplayAction) : Call (outcome Thrown unit).

Definition M : Type → Type := prog Call Thrown.
Definition call {B} (e : Call (outcome Thrown B)) : M B := o ← ask e; lift_outcome o.

(** [try { p } catch (e) { h e }]. *)
Fixpoint catch {A} (h : Thrown → M A) (p : M A) : M A :=
  match p with
  | Ret a => Ret a
  | Fail e => h e
  | Vis e k => Vis e (λ b, catch h (k b))
  end.

Section replay.
Context (nfc : string → string) (number_text : number → string).
Context (new_URL : string → option string → option ParsedUrl) (toLowerCase : string → string).

Notation normalize := (VisibleText.normalize toLowerCase).

(** ** Reading a validated graph *)

(** A field of text, and [undefined] otherwise. *)
Definition text_field (key : string) (node : json) : option string :=
  match graph_field key node with Some (JStr s) => Some s | _ => None end.
Definition graph_nodes (graph : json) : list json :=
  match graph_field "nodes" graph with Some (JArr l) => l | _ => [] end.
Definition nodeVisibleText (node : json) : string :=
  let name := default EmptyString (text_field "name" node) in
  if is_text (graph_field "sensitivity" node) "secret" then name
  else match text_field "text" (default JNull (graph_field "state" node)) with
       | Some text => text
       | None => default name (text_field "value" node)
       end.

Definition matchesTarget (target : SemanticTarget) (node : json) : bool :=
  let role := default EmptyString (text_field "role" node) in
  match Skill.role target with
  | Some wanted => String.eqb (normalize role) (normalize wanted)
  | None => true
  end &&
  match Skill.name target with
  | Some wanted =>
      match text_field "name" node with
      | Some name => String.eqb (normalize name) (normalize wanted)
      | None => false
      end
  | None =>
      let tokens := filter (λ token, token ≠ EmptyString) (split " " (normalize (Skill.purpose target))) in
      let haystack := normalize (role +:+ " " +:+ default EmptyString (text_field "name" node)
                                 +:+ " " +:+ nodeVisibleText node) in
      forallb (str_includes haystack) tokens
  end.
Definition matching (target : SemanticTarget) (graph : json) : list json :=
  filter (λ node, matchesTarget target node = true) (graph_nodes graph).

(** *** Extensions *)
Definition requireWebV1Semantics (graph : json) : V string :=
  extension ← requireGraphExtensionMajor graph "web" "1";
  Ok (default "undefined" (text_field "pathname" (default JNull (graph_field "payload" extension)))).
Definition observationPathname : json → V string := requireWebV1Semantics.

Definition replay_claim (claim : json) : V string :=
  match claim with
  | JStr s => if String.eqb s EmptyString || negb (String.eqb (nfc s) s) then Throw invalid else Ok s
  | _ => Throw invalid
  end.
Definition skillReplayClaims (extension : json) : V (list string) :=
  if is_text (graph_field "type" extension) "skill-replay/v1" then
    match graph_field "claims" (default JNull (graph_field "payload" extension)) with
    | None => Ok []
    | Some (JArr claims) => mapM replay_claim claims
    | Some _ => Throw invalid
    end
  else Throw invalid.
Definition satisfiedClaimIds (graph : json) : V (list string) :=
  match findGraphExtensionMajor graph "skill-replay" "1" with
  | Some extension => skillReplayClaims extension
  | None =>
      if existsb (λ kv, str_startsWith kv.1 "skill-replay/v") (extensions_of graph)
      then _ ← requireGraphExtensionMajor graph "skill-replay" "1"; Ok []
      else Ok []
  end.

(** ** What a capture must pass *)
Definition webQueryKeysPresentOnCandidate (candidate : json) : list string :=
  match graph_field "query" (default JNull (graph_field "payload" (default JNull
          (graph_field "web/v1" (default JNull (graph_field "extensions" candidate)))))) with
  | Some (JObj query) => query.*1
  | _ => []
  end.
Definition validateReplayObservationGraph (candidate : json) : V json :=
  validated ← validateObservationGraphV1 nfc number_text new_URL
    {| Observation.evidenceResolver := None;
       Observation.allowedWebQueryKeys := Some (webQueryKeysPresentOnCandidate candidate) |} candidate;
  if is_text (graph_field "kind" (default JNull (graph_field "target" validated))) "web" then
    _ ← requireWebV1Semantics validated; Ok validated
  else Ok validated.

(** ** Assertions *)
Definition assertionHolds (a : SkillAssertion) (graph : json) : V bool :=
  match a with
  | Skill.url_path path => pathname ← observationPathname graph; Ok (String.eqb pathname path)
  | Skill.claim_satisfied claimId => claims ← satisfiedClaimIds graph; Ok (includes claims claimId)
  | Skill.node_present target => Ok (bool_decide (length (matching target graph) = 1))
  | Skill.node_text target expected =>
      match matching target graph with
      | [node] => Ok (str_includes (normalize (nodeVisibleText node)) (normalize expected))
      | _ => Ok false
      end
  end.
(** The assertions in turn, up to the first that fails. *)
Fixpoint all_hold (l : list SkillAssertion) (graph : json) : V bool :=
  match l with
  | [] => Ok true
  | a :: l => b ← assertionHolds a graph; if b : bool then all_hold l graph else Ok false
  end.
Definition checkpointHolds (step : SkillStep) (graph : json) : V bool := all_hold (Skill.checkpoint step) graph.

Definition intent_target (i : IntentStep) : option SemanticTarget :=
  match i with Skill.navigate _ => None | Skill.click t | Skill.input t _ => Some t end.
(** [None] is a divergence. *)
Definition resolveAction (step : SkillStep) (graph : json) : option ResolvedReplayAction :=
  match intent_target (Skill.intent step) with
  | None => Some {| r_step := step; r_node := None |}
  | Some target =>
      match matching target graph with
      | [node] => Some {| r_step := step; r_node := Some node |}
      | _ => None
      end
  end.

(** ** The controller *)
Definition captureReplayGraph (t : nat) : M json :=
  candidate ← call (Capture t); lift_outcome (validateReplayObservationGraph candidate).

Definition diverged : SkillReplayResult := replay_blocked "PlanDiverged".
Definition is_reobserve (r : Skill.SkillStepRecovery) : bool :=
  match r with Skill.reobserve => true | Skill.stop => false end.

(** The checkpoint against a fresh capture. *)
Definition checkpointReached (t : nat) (step : SkillStep) : M bool :=
  graph ← captureReplayGraph t; lift_outcome (checkpointHolds step graph).

Definition runStep (t : nat) (step : SkillStep) : M SkillReplayResult :=
  observation ← captureReplayGraph t;
  holds ← lift_outcome (all_hold (Skill.preconditions step) observation);
  if negb holds then mret diverged
  else match resolveAction step observation with
  | None => mret diverged
  | Some action =>
      _ ← call (Execute t action);
      reached ← checkpointReached t step;
      if reached : bool then mret replay_passed
      else if is_reobserve (Skill.recovery step) then
        reached ← checkpointReached t step;
        mret (if reached : bool then replay_passed else diverged)
      else mret diverged
  end.

Fixpoint runSteps (t : nat) (steps : list SkillStep) : M SkillReplayResult :=
  match steps with
  | [] => mret replay_passed
  | step :: steps =>
      r ← runStep t step;
      match r with replay_passed => runSteps t steps | _ => mret r end
  end.

Definition observationFailureResult (e : Thrown) : M SkillReplayResult :=
  match e with ObservationError code => mret (replay_blocked (code_text code)) | OtherError => Fail e end.

Definition bundle_steps (bundle : SignedSkillBundle) : list SkillStep :=
  let steps := Skill.steps (Skill.content (Skill.payload bundle)) in steps.1 :: steps.2.

Definition run (bundle : SignedSkillBundle) (t : nat) (scope : SkillVerificationScope) : M SkillReplayResult :=
  verification ← call (Verify bundle scope);
  match verification with
  | Skill.invalid code => mret (replay_blocked (Skill.signature_code_text code))
  | valid => catch observationFailureResult (runSteps t (bundle_steps bundle))
  end.

(** ** Regression jobs *)
Record RegressionJobPlan := {
  skillBundleId : string;
  targetVersion : string;
  repetitions : Z;
  stopOnFirstFailure : bool;
}.
Record RegressionSeed := { plan : RegressionJobPlan; bundle : SignedSkillBundle; scope : SkillVerificationScope }.
Record RegressionJobResult := {
  result_skillBundleId : string;
  repetitionsRun : Z;
  attempts : list SkillReplayResult;
  status : Skill.OracleStatus;
}.

(** The loop: [n] repetitions are left, [t] is the number of the next. *)
Fixpoint run_repetitions (seed : RegressionSeed) (n t : nat) (attempts : list SkillReplayResult)
    (status : Skill.OracleStatus) : M (list SkillReplayResult * Skill.OracleStatus) :=
  match n with
  | O => mret (attempts, status)
  | S n =>
      result ← run (bundle seed) t (scope seed);
      let attempts := attempts ++ [result] in
      match result with
      | replay_passed => run_repetitions seed n (S t) attempts status
      | replay_blocked _ =>
          if stopOnFirstFailure (plan seed) then mret (attempts, Skill.failed)
          else run_repetitions seed n (S t) attempts Skill.failed
      end
  end.
Definition run_job (seed : RegressionSeed) : M RegressionJobResult :=
  r ← run_repetitions seed (Z.to_nat (repetitions (plan seed))) 0 [] Skill.passed;
  mret {| result_skillBundleId := skillBundleId (plan seed);
          repetitionsRun := Z.of_nat (length r.1); attempts := r.1; status := r.2 |}.

End replay.
End SkillReplay.
