(* ===== verification/ReplaySafety.v ===== *)
(** * Replaying a signed Skill: theorems

    For the controller and the regression jobs of [SkillReplay], whatever the signer
    and the targets answer: every action is a step of a Bundle whose signature was
    verified, resolved to the one matching node of a validated capture in which its
    preconditions hold; and a replay that passes did every step, in order, with its
    checkpoint reached. *)
From S2P Require Import Prelude Number Json CanonicalJson RunnerProtocol.
From S2P Require Import Interact Observation Skill SkillLifecycle SkillReplay.

Module ReplaySafety.
Import Observation(Thrown, ObservationError, OtherError, ParsedUrl).
Import Skill(SignedSkillBundle, SkillStep, SkillSignatureVerification, valid, replay_passed, replay_blocked).
Import SkillLifecycle(SkillVerificationScope).
Import SkillReplay.

(** ** Histories *)
Inductive Note :=
  | n_verify (bundle : SignedSkillBundle) (scope : SkillVerificationScope)
      (o : outcome Thrown SkillSignatureVerification)
  | n_capture (t : nat) (o : outcome Thrown json)
  | n_execute (t : nat) (a : ResolvedReplayAction) (o : outcome Thrown unit).
Definition note (B : Type) (e : Call B) : B → Note :=
  match e in Call B return B → Note with
  | Verify b s => n_verify b s
  | Capture t => n_capture t
  | Execute t a => n_execute t a
  end.

Section safety.
Context (nfc : string → string) (number_text : number → string).
Context (new_URL : string → option string → option ParsedUrl) (toLowerCase : string → string).
Notation validateGraph := (validateReplayObservationGraph nfc number_text new_URL).
Notation all_hold := (all_hold nfc toLowerCase).
Notation checkpointHolds := (checkpointHolds nfc toLowerCase).
Notation resolveAction := (resolveAction toLowerCase).
Notation run_job := (run_job nfc number_text new_URL toLowerCase).

(** [a] carries out [step] on [g]: on the node that the step's target matches, which
    is the only one at its place in the graph. *)
Definition meant (step : SkillStep) (g : json) (a : ResolvedReplayAction) : Prop :=
  r_step a = step ∧
  match intent_target (Skill.intent step) with
  | None => r_node a = None
  | Some target =>
      ∃ i node, r_node a = Some node ∧ graph_nodes g !! i = Some node ∧
        ∀ j other, graph_nodes g !! j = Some other → (matchesTarget toLowerCase target other = true ↔ j = i)
  end.
Definition holds (a : Skill.SkillAssertion) (g : json) : Prop := assertionHolds nfc toLowerCase a g = Ok true.

Lemma filter_singleton {A} (f : A → bool) (l : list A) x :
  filter (λ y, f y = true) l = [x] → ∃ i, l !! i = Some x ∧ ∀ j y, l !! j = Some y → (f y = true ↔ j = i).
Proof.
  induction l as [|y l IH]; [done|]. rewrite filter_cons. destruct (decide (f y = true)) as [Hy|Hy].
  - intros [= -> Hl]. exists 0. split; [done|]. intros [|j] z Hj; [by injection Hj as ->|].
    split; [|done]. intros Hz. assert (z ∈ filter (λ y, f y = true) l) as Hin.
    { apply list_elem_of_filter. split; [done|]. by eapply list_elem_of_lookup_2. }
    rewrite Hl in Hin. by apply elem_of_nil in Hin.
  - intros Hl. destruct (IH Hl) as (i & Hi & Hu). exists (S i). split; [done|].
    intros [|j] z Hj; [injection Hj as <-; split; [by intros|done]|]. cbn in Hj. rewrite (Hu _ _ Hj). lia.
Qed.
Lemma resolveAction_meant step g a : resolveAction step g = Some a → meant step g a.
Proof.
  unfold SkillReplay.resolveAction, meant. destruct (intent_target _) as [target|]; [|by intros [= <-]].
  destruct (matching _ target g) as [|node [|]] eqn:Hm; [done| |done]. intros [= <-]. split; [done|].
  destruct (filter_singleton (matchesTarget toLowerCase target) _ _ Hm) as (i & Hi & Hu). by exists i, node.
Qed.
Lemma all_hold_Forall l g : all_hold l g = Ok true → Forall (λ a, holds a g) l.
Proof.
  induction l as [|a l IH]; [done|]. cbn [SkillReplay.all_hold].
  destruct (assertionHolds _ _ a g) as [[]|x] eqn:Ha; cbn [mbind outcome_bind]; [|done|done].
  intros H. constructor; [exact Ha|by apply IH].
Qed.

(** [a] is what [step] is resolved to in capture [c]: the graph validates, the
    preconditions hold in it and, where the step has a target, one node matches. *)
Definition ready (step : SkillStep) (c : json) (a : ResolvedReplayAction) : Prop :=
  ∃ g, validateGraph c = Ok g ∧ Forall (λ p, holds p g) (Skill.preconditions step) ∧ meant step g a.
(** The checkpoint of [step] holds in capture [c], which validates; and it does not. *)
Definition checkpoint_reached (step : SkillStep) (c : json) : Prop :=
  ∃ g, validateGraph c = Ok g ∧ Forall (λ p, holds p g) (Skill.checkpoint step).
Definition checkpoint_missed (step : SkillStep) (c : json) : Prop :=
  ∃ g, validateGraph c = Ok g ∧ checkpointHolds step g = Ok false.
Definition checkpoint_in (step : SkillStep) (c : json) (b : bool) : Prop :=
  if b then checkpoint_reached step c else checkpoint_missed step c.

(** [step] done on target [t], from one history to the next. *)
Inductive accomplished (t : nat) (step : SkillStep) (h : list Note) : list Note → Prop :=
  | accomplished_at_once c a c' :
      ready step c a → checkpoint_reached step c' →
      accomplished t step h (n_capture t (Ok c') :: n_execute t a (Ok tt) :: n_capture t (Ok c) :: h)
  | accomplished_on_reobserving c a c' c'' :
      ready step c a → checkpoint_missed step c' → Skill.recovery step = Skill.reobserve →
      checkpoint_reached step c'' →
      accomplished t step h
        (n_capture t (Ok c'') :: n_capture t (Ok c') :: n_execute t a (Ok tt) :: n_capture t (Ok c) :: h).

(** The steps [l] done one after the other, nothing between them. *)
Inductive replayed (t : nat) (h : list Note) : list SkillStep → list Note → Prop :=
  | replayed_none : replayed t h [] h
  | replayed_next l step h1 h2 :
      replayed t h l h1 → accomplished t step h1 h2 → replayed t h (l ++ [step]) h2.

(** The history right after the signature was found valid, for a replay begun at [h]. *)
Definition verified (seed : RegressionSeed) (h : list Note) : list Note :=
  n_verify (bundle seed) (scope seed) (Ok valid) :: h.

(** The replay of repetition [t], begun at [base], has done the steps [l]. *)
Definition so_far (seed : RegressionSeed) (t : nat) (base : list Note) (l : list SkillStep) (h : list Note) : Prop :=
  replayed t (verified seed base) l h.

(** Action [a] is due on target [t] after [h]: the signature was verified, the steps
    before its step are done, and the capture just taken is one in which the step is
    ready. *)
Definition justified (seed : RegressionSeed) (t : nat) (a : ResolvedReplayAction) (h : list Note) : Prop :=
  ∃ base l step rest c h1,
    bundle_steps (bundle seed) = l ++ step :: rest ∧ so_far seed t base l h1 ∧
    h = n_capture t (Ok c) :: h1 ∧ ready step c a.

(** A call a job may make after [h]: a target is looked at only once the signature
    has been found valid. *)
Definition permitted (seed : RegressionSeed) (B : Type) (h : list Note) (e : Call B) : Prop :=
  match e with
  | Verify b s => b = bundle seed ∧ s = scope seed
  | Capture _ => ∃ l base, h = l ++ verified seed base
  | Execute t a => justified seed t a h
  end.

Lemma accomplished_history t step h h' : accomplished t step h h' → ∃ l, h' = l ++ h.
Proof.
  destruct 1.
  - by eexists [_; _; _].
  - by eexists [_; _; _; _].
Qed.
Lemma replayed_history t h l h' : replayed t h l h' → ∃ l', h' = l' ++ h.
Proof.
  induction 1 as [|l step h1 h2 _ [l1 ->] Ha]; [by exists []|].
  apply accomplished_history in Ha as [l2 ->]. exists (l2 ++ l1). by rewrite <- app_assoc.
Qed.

(** ** The rules of the controller's calls *)
Notation tri seed := (@Interact.tri Call Thrown Note note (λ _ _ _, True) (permitted seed) _).

Section rules.
Context (seed : RegressionSeed).

Lemma replay_tri_call {B} (e : Call (outcome Thrown B)) Q h :
  permitted seed _ h e → (∀ b, Q (Ok b) (note _ e (Ok b) :: h)) → (∀ x h', Q (Throw x) h') →
  tri seed (call e) Q h.
Proof.
  intros Hp HQ Hx. apply tri_bind, tri_ask; [done|]. intros [b|x] _; cbn; auto.
Qed.

Lemma replay_tri_lift {B} (o : outcome Thrown B) Q h :
  (∀ b, o = Ok b → Q (Ok b) h) → (∀ x h', Q (Throw x) h') → tri seed (lift_outcome o) Q h.
Proof. intros HQ Hx. destruct o as [b|x]; cbn; auto. Qed.

Lemma tri_catch {B} (f : Thrown → M B) (p : M B) Q h :
  tri seed p (λ o h', match o with Ok b => Q (Ok b) h' | Throw x => tri seed (f x) Q h' end) h →
  tri seed (catch f p) Q h.
Proof.
  revert h. induction p as [b|x|? e k IH]; cbn; [done..|]. intros h [? H]. split; [done|]. auto.
Qed.

Lemma replay_tri_capture t (Q : outcome Thrown json → list Note → Prop) h :
  (∃ l base, h = l ++ verified seed base) →
  (∀ c g, validateGraph c = Ok g → Q (Ok g) (n_capture t (Ok c) :: h)) → (∀ x h', Q (Throw x) h') →
  tri seed (captureReplayGraph nfc number_text new_URL t) Q h.
Proof.
  intros Hh HQ Hx. apply tri_bind, replay_tri_call; [done| |done]. intros c. cbn.
  apply replay_tri_lift; [|done]. auto.
Qed.

Lemma tri_checkpoint t step (Q : outcome Thrown bool → list Note → Prop) h :
  (∃ l base, h = l ++ verified seed base) →
  (∀ c b, checkpoint_in step c b → Q (Ok b) (n_capture t (Ok c) :: h)) → (∀ x h', Q (Throw x) h') →
  tri seed (checkpointReached nfc number_text new_URL toLowerCase t step) Q h.
Proof.
  intros Hh HQ Hx. apply tri_bind, replay_tri_capture; [done| |done]. intros c g Hg.
  apply replay_tri_lift; [|done]. intros [] Hb; apply HQ; exists g; [|done]. split; [done|by apply all_hold_Forall].
Qed.

Lemma tri_step t base l step rest (Q : outcome Thrown Skill.SkillReplayResult → list Note → Prop) h :
  bundle_steps (bundle seed) = l ++ step :: rest → so_far seed t base l h →
  (∀ h', so_far seed t base (l ++ [step]) h' → Q (Ok replay_passed) h') →
  (∀ code h', Q (Ok (replay_blocked code)) h') → (∀ x h', Q (Throw x) h') →
  tri seed (runStep nfc number_text new_URL toLowerCase t step) Q h.
Proof.
  intros Hsteps Hh Hpass Hblocked Hx. destruct (replayed_history _ _ _ _ Hh) as [lh Elh].
  apply tri_bind, replay_tri_capture; [by exists lh, base| |done]. intros c g Hg.
  apply tri_bind, replay_tri_lift; [|done]. intros [] Hpre; cbn [negb]; [|apply Hblocked].
  destruct (resolveAction step g) as [a|] eqn:Ha; [|apply Hblocked].
  assert (ready step c a) as Hready.
  { exists g. split_and!; [done|by apply all_hold_Forall|by apply resolveAction_meant]. }
  apply tri_bind, replay_tri_call; [|intros []|done].
  { exists base, l, step, rest, c, h. done. }
  apply tri_bind, tri_checkpoint; [|intros c' [] Hc'|done].
  { exists (n_execute t a (Ok tt) :: n_capture t (Ok c) :: lh), base. by rewrite Elh. }
  { apply Hpass. eapply replayed_next; [exact Hh|]. by apply accomplished_at_once. }
  destruct (Skill.recovery step) eqn:Hr; [apply Hblocked|]. cbn [is_reobserve].
  apply tri_bind, tri_checkpoint; [|intros c'' [] Hc''|done].
  - exists (n_capture t (Ok c') :: n_execute t a (Ok tt) :: n_capture t (Ok c) :: lh), base. by rewrite Elh.
  - apply Hpass. eapply replayed_next; [exact Hh|]. by eapply accomplished_on_reobserving.
  - apply Hblocked.
Qed.

Lemma tri_steps t base l rest (Q : outcome Thrown Skill.SkillReplayResult → list Note → Prop) h :
  bundle_steps (bundle seed) = l ++ rest → so_far seed t base l h →
  (∀ h', so_far seed t base (bundle_steps (bundle seed)) h' → Q (Ok replay_passed) h') →
  (∀ code h', Q (Ok (replay_blocked code)) h') → (∀ x h', Q (Throw x) h') →
  tri seed (runSteps nfc number_text new_URL toLowerCase t rest) Q h.
Proof.
  intros Hsteps Hh Hpass Hblocked Hx. revert l h Hsteps Hh.
  induction rest as [|step rest IH]; intros l h Hsteps Hh; cbn [runSteps].
  - apply Hpass. by rewrite Hsteps, app_nil_r.
  - apply tri_bind. eapply tri_step; [done|done| |intros; apply Hblocked|done].
    intros h' Hh'. apply (IH (l ++ [step])); [by rewrite <- app_assoc|done].
Qed.

Lemma replay_tri_run t (Q : outcome Thrown Skill.SkillReplayResult → list Note → Prop) h :
  (∀ h', so_far seed t h (bundle_steps (bundle seed)) h' → Q (Ok replay_passed) h') →
  (∀ code h', Q (Ok (replay_blocked code)) h') → (∀ x h', Q (Throw x) h') →
  tri seed (run nfc number_text new_URL toLowerCase (bundle seed) t (scope seed)) Q h.
Proof.
  intros Hpass Hblocked Hx. apply tri_bind, replay_tri_call; [done| |done].
  intros [|code]; [|apply Hblocked]. apply tri_catch.
  apply (tri_steps t h []); [done|constructor|done|done|].
  intros [code|] h'; cbn; [apply Hblocked|apply Hx].
Qed.

(** The first [n] repetitions, each of them passed. *)
Inductive all_replayed : nat → list Note → Prop :=
  | all_replayed_none : all_replayed 0 []
  | all_replayed_next t base h :
      all_replayed t base → so_far seed t base (bundle_steps (bundle seed)) h → all_replayed (S t) h.

(** What the loop has made of the attempts so far: [t] of them. *)
Record progress (t : nat) (attempts : list Skill.SkillReplayResult) (status : Skill.OracleStatus)
    (h : list Note) : Prop := {
  pr_length : length attempts = t;
  pr_status : status = Skill.passed ↔ Forall (eq replay_passed) attempts;
  pr_replayed : status = Skill.passed → all_replayed t h;
}.
Definition finished (r : list Skill.SkillReplayResult * Skill.OracleStatus) (h : list Note) : Prop :=
  let n := Z.to_nat (repetitions (plan seed)) in
  progress (length r.1) r.1 r.2 h ∧ length r.1 ≤ n ∧
  (length r.1 = n ∨ stopOnFirstFailure (plan seed) = true ∧ r.2 = Skill.failed) ∧
  (stopOnFirstFailure (plan seed) = true →
   ∀ i code, r.1 !! i = Some (replay_blocked code) → S i = length r.1).

Lemma progress_passed t attempts status h h' :
  progress t attempts status h → so_far seed t h (bundle_steps (bundle seed)) h' →
  progress (S t) (attempts ++ [replay_passed]) status h'.
Proof.
  intros [Hl Hs Hr] Hh. split.
  - rewrite length_app, Hl. cbn. lia.
  - rewrite Hs, Forall_app. split; [intros H; split; [done|by constructor]|by intros []].
  - intros Hp. eapply all_replayed_next; [by apply Hr|done].
Qed.
Lemma progress_blocked t attempts status code h h' :
  progress t attempts status h → progress (S t) (attempts ++ [replay_blocked code]) Skill.failed h'.
Proof.
  intros [Hl Hs Hr]. split; [rewrite length_app, Hl; cbn; lia| |done].
  rewrite Forall_app, Forall_singleton. split; [done|]. by intros [_ ?].
Qed.

Lemma tri_repetitions n t attempts status h :
  Z.to_nat (repetitions (plan seed)) = t + n → progress t attempts status h →
  (stopOnFirstFailure (plan seed) = true → Forall (eq replay_passed) attempts) →
  tri seed (run_repetitions nfc number_text new_URL toLowerCase seed n t attempts status)
    (λ o h', match o with Ok r => finished r h' | Throw _ => True end) h.
Proof.
  revert t attempts status h. induction n as [|n IH]; intros t attempts status h Hn Hp Hstop; cbn [run_repetitions].
  - pose proof (pr_length _ _ _ _ Hp) as Hl. split_and!; cbn; [by rewrite Hl|lia|left; lia|].
    intros Hs i code Hi. apply Hstop in Hs. rewrite Forall_lookup in Hs. by apply Hs in Hi.
  - apply tri_bind, replay_tri_run; [intros h' Hh'|intros code h'|done].
    + apply IH; [lia|by eapply progress_passed|]. intros Hs. apply Forall_app. split; [by apply Hstop|by constructor].
    + pose proof (progress_blocked _ _ _ code _ h' Hp) as Hp'. pose proof (pr_length _ _ _ _ Hp') as Hl.
      destruct (stopOnFirstFailure (plan seed)) eqn:Hs; [|by apply IH; [lia|done|congruence]].
      split_and!; cbn; [by rewrite Hl|lia|by right|]. intros _ i code' Hi.
      apply lookup_app_Some in Hi as [Hi|[Hi Hi']].
      * specialize (Hstop eq_refl). rewrite Forall_lookup in Hstop. by apply Hstop in Hi.
      * apply list_lookup_singleton_Some in Hi' as [Hi' _]. rewrite length_app in Hl |- *. cbn in *. lia.
Qed.

Definition job_answered (o : outcome Thrown RegressionJobResult) (h : list Note) : Prop :=
  match o with
  | Ok r => finished (attempts r, status r) h ∧ repetitionsRun r = Z.of_nat (length (attempts r))
  | Throw _ => True
  end.
Lemma tri_job : tri seed (run_job seed) job_answered [].
Proof.
  apply tri_bind. eapply tri_mono.
  - apply tri_repetitions; [done| |by constructor]. split; [done| |by constructor]. by split; [constructor|].
  - intros [r|x] h; [|done]. intros H. by split; [destruct r|].
Qed.
End rules.

(** ** The properties *)
Notation runs := (@Interact.runs Call Thrown Note note (λ _ _ _, True)).

(** C12: Whatever the signer and the targets answer, a regression job looks at a target only
    after the Bundle's signature was found valid, and every action it carries out is
    the next step of the Bundle, resolved in the capture taken just before: the
    capture passed the validator, the step's preconditions hold in it, and its one
    matching node is the action's. *)
Theorem replay_actions_justified seed B (e : Call B) k h :
  runs (run_job seed) [] (Vis e k) h → permitted seed B h e.
Proof. intros Hr. eapply runs_allowed; [exact Hr|apply tri_job]. Qed.

(** C13: A regression job passes exactly when every replay of it did; then it made all its
    repetitions, and in each of them every step of the Bundle was done, in order and
    with nothing between, its checkpoint reached.  A job that stops on the first
    failure has no attempt after one that was blocked. *)
Theorem regression_passed_accomplished seed r h :
  runs (run_job seed) [] (Ret r) h →
  (status r = Skill.passed ↔ Forall (eq replay_passed) (attempts r)) ∧
  (status r = Skill.passed →
   repetitionsRun r = Z.max 0 (repetitions (plan seed)) ∧
   all_replayed seed (Z.to_nat (repetitions (plan seed))) h) ∧
  (stopOnFirstFailure (plan seed) = true →
   ∀ i code, attempts r !! i = Some (replay_blocked code) → S i = length (attempts r)).
Proof.
  intros Hr. eapply runs_tri in Hr; [|apply tri_job].
  destruct Hr as [([Hl Hs Hall] & Hle & Hn & Hstop) Hrep].
  cbn in *. split_and!; [done| |done]. intros Hp.
  destruct Hn as [Hn|[_ Hf]]; [|congruence]. rewrite Hrep, Hn. split; [lia|]. rewrite <- Hn. by apply Hall.
Qed.
End safety.
End ReplaySafety.
