(* ===== verification/ObservationConsumer.v ===== *)
(** * The consumers of an observation

    Models [packages/runner-components/exploration/src/observation-v1-consumer.ts]
    and [validateLiveGraph] of [exploration-controller.ts]: what an exploration
    makes of a live graph.  The prompt view is what a model is shown of it, and the
    fingerprint is how a state is recognised again. *)
From S2P Require Import Prelude Number Json CanonicalJson RunnerProtocol RunnerControl.
From S2P Require Import Regex Observation VisibleText.
From Stdlib Require Import Ascii.
Import CanonicalJson(sort_fields).
Import Observation(Thrown, ObservationError, OtherError, invalid, code_text, V, ParsedUrl, ValidateOptions,
  validateObservationGraphV1, graph_field, extensions_of, requireGraphExtensionMajor,
  findGraphExtensionMajor, is_text, sortByKey, as_text, as_array, observationRelationSemanticKey).

Module ObservationConsumer.

Section consumer.
Context (nfc : string → string) (number_text : number → string).
Context (new_URL : string → option string → option ParsedUrl) (toLowerCase : string → string).
Context (sha256 : string → string).
Notation normalizeText := (VisibleText.normalize toLowerCase).
Notation canonicalPayloadHash := (RunnerControl.canonicalPayloadHash number_text sha256).

(** ** Validation *)

(** [graph.extensions?.["web/v1"]?.payload["query"]] of an untrusted graph. *)
Definition webQueryKeysPresentOnGraph (graph : json) : V (list string) :=
  match graph with
  | JNull => Throw OtherError
  | _ =>
      match graph_field "web/v1" (default JNull (graph_field "extensions" graph)) with
      | None | Some JNull => Ok []
      | Some web =>
          match graph_field "payload" web with
          | None | Some JNull => Throw OtherError
          | Some payload =>
              match graph_field "query" payload with
              | Some (JObj query) => Ok query.*1
              | _ => Ok []
              end
          end
      end
  end.

Definition consumer_options (keys : list string) : ValidateOptions :=
  {| Observation.evidenceResolver := None; Observation.allowedWebQueryKeys := Some keys |}.
Definition validateConsumerObservationGraph (graph : json) : V json :=
  keys ← webQueryKeysPresentOnGraph graph;
  validateObservationGraphV1 nfc number_text new_URL (consumer_options keys) graph.

(** [sortStrings]. *)
Definition sortStrings (values : list string) : V (list string) := sortByKey nfc (λ s, Ok s) values.
Definition strings_of (values : list json) : V (list string) := mapM (λ v, as_text (Some v)) values.
Definition sorted_texts (values : option json) : V json :=
  l ← as_array values; texts ← strings_of l; sorted ← sortStrings texts; Ok (JArr (JStr <$> sorted)).

(** A property of a validated value; one that is [undefined] is left out of JSON. *)
Definition prop (key : string) (value : json) : list (string * json) :=
  match graph_field key value with Some v => [(key, v)] | None => [] end.
Definition text_or (other : string) (value : option json) : string :=
  match value with Some (JStr s) => s | _ => other end.

Record WebV1Semantics := {
  w_origin : string; w_pathname : string; w_title : string; w_viewport : json; w_queryKeys : list string;
}.
Definition webSemanticsFromExtension (extension : json) : V WebV1Semantics :=
  let payload := default JNull (graph_field "payload" extension) in
  match graph_field "query" payload with
  | Some (JObj query) =>
      queryKeys ← sortStrings query.*1;
      Ok {| w_origin := text_or "undefined" (graph_field "origin" payload);
            w_pathname := text_or "undefined" (graph_field "pathname" payload);
            w_title := text_or "undefined" (graph_field "title" payload);
            w_viewport := default JNull (graph_field "viewport" payload); w_queryKeys := queryKeys |}
  | _ => Throw OtherError
  end.
Definition requireWebV1Semantics (graph : json) : V WebV1Semantics :=
  extension ← requireGraphExtensionMajor graph "web" "1"; webSemanticsFromExtension extension.
Definition findWebV1Semantics (graph : json) : V (option WebV1Semantics) :=
  match findGraphExtensionMajor graph "web" "1" with
  | None => Ok None
  | Some extension => web ← webSemanticsFromExtension extension; Ok (Some web)
  end.
Definition encode_web (web : WebV1Semantics) : json :=
  JObj [("origin", JStr (w_origin web)); ("pathname", JStr (w_pathname web)); ("title", JStr (w_title web));
        ("viewport", w_viewport web); ("queryKeys", JArr (JStr <$> w_queryKeys web))].

(** The controller's check of a capture: the graph, or the code of the error. *)
Definition validateLiveGraph (graph : json) : outcome string json :=
  match (validated ← validateConsumerObservationGraph graph; _ ← requireWebV1Semantics validated; Ok validated) with
  | Ok validated => Ok validated
  | Throw (ObservationError code) => Throw (code_text code)
  | Throw OtherError => Throw "ObservationSchemaInvalid"
  end.

(** ** Nodes *)
Definition is_secret (node : json) : bool := is_text (graph_field "sensitivity" node) "secret".
Definition graph_nodes (graph : json) : V (list json) := as_array (graph_field "nodes" graph).
Definition node_relations (node : json) : V (list json) := as_array (graph_field "relations" node).
Definition node_state (node : json) : list (string * json) :=
  match graph_field "state" node with Some (JObj state) => state | _ => [] end.

(** A record built by assignment: [out["__proto__"] = text] makes no property. *)
Definition assigned (fields : list (string * json)) : list (string * json) :=
  filter (λ kv, kv.1 ≠ "__proto__") fields.
Definition redactStringState (state : list (string * json)) : list (string * json) :=
  assigned ((λ kv : string * json, (kv.1, match kv.2 with JStr _ => JStr "[redacted]" | v => v end)) <$> state).

(** ** The prompt view *)
Definition relation_semantic_key (relation : json) : V string :=
  type ← as_text (graph_field "type" relation);
  target ← as_text (graph_field "targetNodeId" relation);
  Ok (observationRelationSemanticKey type target).
Definition nodePromptView (node : json) : V json :=
  rels ← node_relations node;
  relations ← sortByKey nfc relation_semantic_key rels;
  evidence ← sorted_texts (graph_field "evidenceRefs" node);
  Ok (JObj (prop "id" node ++ prop "role" node ++ prop "name" node ++
            (if is_secret node then [] else prop "value" node) ++
            (if is_secret node then [("state", JObj (redactStringState (node_state node)))] else prop "state" node) ++
            [("relations", JArr relations)] ++ prop "source" node ++ prop "sensitivity" node ++
            [("evidenceRefs", evidence)])).

Definition observationGraphPromptView (graph : json) : V json :=
  validated ← validateConsumerObservationGraph graph;
  web ← findWebV1Semantics validated;
  roots ← sorted_texts (graph_field "rootNodeIds" validated);
  evidence ← sorted_texts (graph_field "evidenceRefs" validated);
  nodes ← graph_nodes validated;
  sorted ← sortByKey nfc (λ node, as_text (graph_field "id" node)) nodes;
  views ← mapM nodePromptView sorted;
  Ok (JObj (prop "schema" validated ++ prop "graphId" validated ++ prop "target" validated ++
            prop "capturedAt" validated ++ [("rootNodeIds", roots); ("evidenceRefs", evidence)] ++
            match web with Some web => [("web", encode_web web)] | None => [] end ++
            [("nodes", JArr views)])).

(** ** The fingerprint *)
Definition normalizedState (state : list (string * json)) : list (string * json) :=
  assigned ((λ kv : string * json, (kv.1, match kv.2 with JStr s => JStr (normalizeText s) | v => v end))
    <$> (sort_fields ((λ kv : string * json, (nfc kv.1, kv)) <$> state)).*2).

Definition nodeBaseFingerprintView (node : json) : list (string * json) :=
  [("role", JStr (normalizeText (text_or EmptyString (graph_field "role" node))));
   ("name", JStr (normalizeText (text_or EmptyString (graph_field "name" node))))] ++
  (if is_secret node then [] else
     match graph_field "value" node with Some (JStr s) => [("value", JStr (normalizeText s))] | _ => [] end) ++
  [("state", JObj (if is_secret node then [] else normalizedState (node_state node)))] ++
  prop "source" node ++ prop "sensitivity" node.

Definition relationFingerprintView (identities : gmap string string) (relation : json) : V json :=
  type ← as_text (graph_field "type" relation);
  target ← as_text (graph_field "targetNodeId" relation);
  Ok (JObj [("type", JStr type); ("target", JStr (default target (identities !! target)))]).
Definition relation_view_key (view : json) : V string :=
  type ← as_text (graph_field "type" view); target ← as_text (graph_field "target" view);
  Ok (observationRelationSemanticKey type target).
Definition nodeFingerprintView (identities : gmap string string) (node : json) : V json :=
  rels ← node_relations node;
  views ← mapM (relationFingerprintView identities) rels;
  relations ← sortByKey nfc relation_view_key views;
  Ok (JObj (nodeBaseFingerprintView node ++ [("relations", JArr relations)])).

(** A [Map] from the ids of the nodes: the last entry of an id counts. *)
Definition identity_map (view : json → V json) (nodes : list json) : V (gmap string string) :=
  foldl (λ m node, m ← m; id ← as_text (graph_field "id" node); v ← view node;
           Ok (<[id := canonicalPayloadHash v]> m)) (Ok ∅) nodes.
Fixpoint refine_identities (depth : nat) (orderedNodes : list json) (identities : gmap string string)
    : V (gmap string string) :=
  match depth with
  | O => Ok identities
  | S depth =>
      next ← identity_map (nodeFingerprintView identities) orderedNodes;
      refine_identities depth orderedNodes next
  end.
Definition stableNodeIdentityById (nodes : list json) : V (gmap string string) :=
  identities ← identity_map (λ node, Ok (JObj (nodeBaseFingerprintView node))) nodes;
  orderedNodes ← sortByKey nfc (λ node, as_text (graph_field "id" node)) nodes;
  refine_identities (length nodes) orderedNodes identities.

Definition fingerprintObservationGraphV1 (graph : json) : V string :=
  validated ← validateConsumerObservationGraph graph;
  web ← requireWebV1Semantics validated;
  nodes ← graph_nodes validated;
  identities ← stableNodeIdentityById nodes;
  views ← mapM (nodeFingerprintView identities) nodes;
  sorted ← sortByKey nfc (λ view, Ok (canonicalPayloadHash view)) views;
  rootIds ← (l ← as_array (graph_field "rootNodeIds" validated); strings_of l);
  rootNodes ← sortStrings ((λ id, default id (identities !! id)) <$> rootIds);
  Ok (canonicalPayloadHash (JObj
    [("web", JObj [("origin", JStr (w_origin web)); ("pathname", JStr (w_pathname web));
                   ("title", JStr (normalizeText (w_title web)));
                   ("queryKeys", JArr (JStr <$> w_queryKeys web))]);
     ("target", default JNull (graph_field "target" validated));
     ("rootNodes", JArr (JStr <$> rootNodes)); ("nodes", JArr sorted)])).

End consumer.
End ObservationConsumer.
