(* ===== verification/ConsumerSafety.v ===== *)
(** * The consumers of an observation: theorems

    For [ObservationConsumer]: the prompt view shows nothing of the values behind a
    secret node or a query, the fingerprint of a state does not depend on the ids or
    the order of its nodes, and an exploration acts on the nodes of accepted graphs
    only. *)
From S2P Require Import Prelude Number Json CanonicalJson RunnerProtocol RunnerControl.
From S2P Require Import Regex Observation ObservationSafety ObservationCanonical ObservationHash VisibleText ObservationConsumer.
From S2P Require Import Interact AppTarget Exploration ExplorationAuthority.
From Stdlib Require Import Ascii.

Module ConsumerSafety.
Import Observation(Thrown, ObservationError, OtherError, ParsedUrl, ValidateOptions, graph_field,
  validateObservationGraphV1, sortByKey, as_text, as_array, is_text).
Import ObservationSafety(graph_sound, validated_sound, mapM_Ok).
Import ObservationConsumer.

Section safety.
Context (nfc : string → string) (number_text : number → string).
Context (new_URL : string → option string → option ParsedUrl) (toLowerCase : string → string).
Context (sha256 : string → string).
Notation validateConsumer := (validateConsumerObservationGraph nfc number_text new_URL).
Notation validate keys := (validateObservationGraphV1 nfc number_text new_URL (consumer_options keys)).
Notation promptView := (observationGraphPromptView nfc number_text new_URL).
Notation fingerprint := (fingerprintObservationGraphV1 nfc number_text new_URL toLowerCase sha256).
Notation hash := (RunnerControl.canonicalPayloadHash number_text sha256).

Lemma consumer_inv g g' :
  validateConsumer g = Ok g' → g' = g ∧ ∃ keys f, webQueryKeysPresentOnGraph g = Ok keys ∧
    validate keys g = Ok g ∧ g = JObj f ∧ graph_sound nfc new_URL (consumer_options keys) f.
Proof.
  intros H. apply bind_Ok in H as (keys & Hk & H). pose proof H as Hs.
  apply validated_sound in Hs as (-> & f & -> & Hs). split; [done|]. by exists keys, f.
Qed.

(** ** The prompt view *)
Definition agree (keys : list string) (v w : json) : Prop :=
  Forall (λ k, graph_field k v = graph_field k w) keys.
Ltac use_agree :=
  repeat match goal with
  | H : agree _ _ _ |- _ => unfold agree in H
  | H : Forall _ (_ :: _) |- _ => apply Forall_cons in H as [? H]
  | H : Forall _ [] |- _ => clear H
  | H : graph_field ?k ?v = graph_field ?k ?w |- _ => rewrite ?H; clear H
  end.

(** Two states of a secret node: the same keys, and the same values but for texts. *)
Definition same_but_texts (state state' : list (string * json)) : Prop :=
  Forall2 (λ kv kv', kv.1 = kv'.1 ∧ ((∃ s t, kv.2 = JStr s ∧ kv'.2 = JStr t) ∨ kv.2 = kv'.2)) state state'.

(** Two nodes that differ in what a secret node hides, or in what no view shows. *)
Definition node_secrets_aside (node node' : json) : Prop :=
  agree ["id"; "role"; "name"; "relations"; "source"; "sensitivity"; "evidenceRefs"] node node' ∧
  if is_secret node then same_but_texts (node_state node) (node_state node')
  else agree ["value"; "state"] node node'.

(** Two pages that differ in the values of their queries. *)
Definition page_values_aside (web web' : option json) : Prop :=
  match web, web' with
  | None, None => True
  | Some e, Some e' => ∃ payload payload' query query', graph_field "payload" e = Some payload ∧
      graph_field "payload" e' = Some payload' ∧ agree ["origin"; "pathname"; "title"; "viewport"] payload payload' ∧
      graph_field "query" payload = Some (JObj query) ∧ graph_field "query" payload' = Some (JObj query') ∧
      query.*1 = query'.*1
  | _, _ => False
  end.

Definition secrets_aside (graph graph' : json) : Prop :=
  agree ["schema"; "graphId"; "target"; "capturedAt"; "rootNodeIds"; "evidenceRefs"] graph graph' ∧
  page_values_aside (Observation.findGraphExtensionMajor graph "web" "1") (Observation.findGraphExtensionMajor graph' "web" "1") ∧
  ∃ nodes nodes', graph_field "nodes" graph = Some (JArr nodes) ∧ graph_field "nodes" graph' = Some (JArr nodes') ∧
    Forall2 node_secrets_aside nodes nodes'.

Lemma redact_same state state' : same_but_texts state state' → redactStringState state = redactStringState state'.
Proof.
  unfold redactStringState. intros H. f_equal.
  induction H as [|[k v] [k' v'] l l' [E Hv] _ IH]; [done|]. cbn in *. subst k'. rewrite IH. f_equal.
  destruct Hv as [(s & t & -> & ->)| ->]; done.
Qed.

Lemma nodePromptView_same node node' :
  node_secrets_aside node node' → nodePromptView nfc node = nodePromptView nfc node'.
Proof.
  intros [Ha Hs]. assert (is_secret node' = is_secret node) as Esec by (unfold is_secret; by use_agree).
  unfold nodePromptView, node_relations, prop. rewrite Esec.
  destruct (is_secret node); [rewrite (redact_same _ _ Hs)|]; by use_agree.
Qed.

Lemma page_same web web' :
  page_values_aside web web' →
  match web with None => Ok None | Some e => w ← webSemanticsFromExtension nfc e; Ok (Some w) end =
  match web' with None => Ok None | Some e => w ← webSemanticsFromExtension nfc e; Ok (Some w) end.
Proof.
  destruct web as [e|], web' as [e'|]; try done. intros (p & p' & q & q' & Hp & Hp' & Ha & Hq & Hq' & Eq).
  unfold webSemanticsFromExtension. rewrite Hp, Hp'. cbn [from_option id]. rewrite Hq, Hq', Eq.
  by use_agree.
Qed.

Lemma mapM_ext {A B} (f g : A → Observation.V B) l l' :
  Forall2 (λ x y, f x = g y) l l' → mapM f l = mapM g l'.
Proof. induction 1 as [|x y l l' Hx _ IH]; [done|]. cbn. by rewrite Hx, IH. Qed.

(** Sorting by a key that corresponding elements share keeps them corresponding. *)
Lemma Forall2_insert {A B} (R : A → B → Prop) k x y l l' :
  Forall2 (λ p q, p.1 = q.1 ∧ R p.2 q.2) l l' → R x y →
  Forall2 (λ p q, p.1 = q.1 ∧ R p.2 q.2) (CanonicalJson.insert_field (k, x) l) (CanonicalJson.insert_field (k, y) l').
Proof.
  intros H Hxy. induction H as [|[k1 v] [k2 w] l l' [E Hv] Hl IH]; [by repeat constructor|].
  cbn [CanonicalJson.insert_field fst snd] in *. subst k2. destruct (CanonicalJson.key_leb k k1).
  - apply Forall2_cons; split; [by split|]. apply Forall2_cons; by repeat split.
  - apply Forall2_cons; by repeat split.
Qed.

Lemma sortByKey_Forall2 {A B} (R : A → B → Prop) (keyOf : A → Observation.V string) (keyOf' : B → Observation.V string) l l' :
  Forall2 (λ x y, keyOf x = keyOf' y ∧ R x y) l l' →
  match sortByKey nfc keyOf l, sortByKey nfc keyOf' l' with
  | Ok s, Ok s' => Forall2 R s s'
  | Throw e, Throw e' => e = e'
  | _, _ => False
  end.
Proof.
  intros H. assert (mapM keyOf l = mapM keyOf' l') as Ekeys.
  { clear -H. induction H as [|x y l l' [E _] _ IH]; [done|]. cbn. by rewrite E, IH. }
  destruct H as [|x y l l' [Ex Hx] H]; [constructor|]. destruct H as [|x2 y2 l l' [Ex2 Hx2] H].
  { cbn. by repeat constructor. }
  unfold sortByKey. revert Ekeys. assert (Forall2 R (x :: x2 :: l) (y :: y2 :: l')) as HR.
  { repeat (apply Forall2_cons; split; [done|]). eapply Forall2_impl; [exact H|]. by intros ?? []. }
  revert HR. generalize (x :: x2 :: l) (y :: y2 :: l'). clear. intros l l' HR E. rewrite <- E.
  destruct (mapM keyOf l) as [keys|e]; [|done]. cbn [mbind outcome_bind].
  assert (Forall2 (λ p q, p.1 = q.1 ∧ R p.2 q.2) (zip (nfc <$> keys) l) (zip (nfc <$> keys) l')) as Hz.
  { clear E. revert keys. induction HR as [|x y l l' Hxy _ IH]; intros [|k keys]; try constructor; [done|apply IH]. }
  assert (Forall2 (λ p q, p.1 = q.1 ∧ R p.2 q.2) (CanonicalJson.sort_fields (zip (nfc <$> keys) l))
    (CanonicalJson.sort_fields (zip (nfc <$> keys) l'))) as Hs.
  { clear HR E. induction Hz as [|[k v] [k' w] m m' [Ek Hv] _ IH]; [constructor|]. cbn in Ek. subst k'.
    by apply Forall2_insert. }
  clear Hz HR E. induction Hs as [|p q m m' [_ Hv] _ IH]; [constructor|]. by constructor.
Qed.

(** C15: What a model is shown of a graph does not depend on what the graph hides: two
    accepted graphs that differ only in the values and texts behind secret nodes,
    in the values of the query, and in what no view shows at all, have one prompt
    view. *)
Theorem prompt_hides_secrets graph graph' a b :
  validateConsumer graph = Ok a → validateConsumer graph' = Ok b → secrets_aside graph graph' →
  promptView graph = promptView graph'.
Proof.
  intros Ha Hb (Hagree & Hpage & nodes & nodes' & Hn & Hn' & Hnodes).
  unfold observationGraphPromptView. rewrite Ha, Hb.
  apply consumer_inv in Ha as (-> & _), Hb as (-> & _). cbn [mbind outcome_bind].
  unfold findWebV1Semantics. rewrite (page_same _ _ Hpage). unfold graph_nodes, prop. rewrite Hn, Hn'.
  cbn [as_array mbind outcome_bind].
  pose proof (sortByKey_Forall2 node_secrets_aside (λ node, as_text (graph_field "id" node))
    (λ node, as_text (graph_field "id" node)) nodes nodes') as Hsort.
  assert (Forall2 (λ x y, as_text (graph_field "id" x) = as_text (graph_field "id" y) ∧ node_secrets_aside x y) nodes nodes') as Hk.
  { eapply Forall2_impl; [exact Hnodes|]. intros x y Hxy. split; [|done]. destruct Hxy as [Hxy _]. by use_agree. }
  specialize (Hsort Hk). use_agree.
  destruct (match Observation.findGraphExtensionMajor graph' "web" "1" with None => Ok None | Some e => _ end) as [web|]; [|done].
  cbn [mbind outcome_bind].
  destruct (sorted_texts nfc (graph_field "rootNodeIds" graph')) as [roots|]; [|done].
  destruct (sorted_texts nfc (graph_field "evidenceRefs" graph')) as [evidence|]; [|done]. cbn [mbind outcome_bind].
  destruct (sortByKey nfc _ nodes) as [s|e] eqn:Es; destruct (sortByKey nfc _ nodes') as [s'|e'] eqn:Es'; try done;
    cbn [mbind outcome_bind]; [|by rewrite Hsort].
  rewrite (mapM_ext (nodePromptView nfc) (nodePromptView nfc) s s'); [done|].
  eapply Forall2_impl; [exact Hsort|]. apply nodePromptView_same.
Qed.


(** ** The fingerprint *)

(** A relation and its copy under new ids. *)
Definition relation_renamed (rename : string → string) (r r' : json) : Prop :=
  ∃ type target, graph_field "type" r = Some (JStr type) ∧ graph_field "type" r' = Some (JStr type) ∧
    graph_field "targetNodeId" r = Some (JStr target) ∧ graph_field "targetNodeId" r' = Some (JStr (rename target)).

(** A node and its copy under a new id: what it is and says is the same; its bounds,
    confidence, evidence and extensions may be any. *)
Definition node_renamed (rename : string → string) (node node' : json) : Prop :=
  agree ["role"; "name"; "value"; "state"; "source"; "sensitivity"] node node' ∧
  (∃ id, graph_field "id" node = Some (JStr id) ∧ graph_field "id" node' = Some (JStr (rename id))) ∧
  ∃ l l', graph_field "relations" node = Some (JArr l) ∧ graph_field "relations" node' = Some (JArr l') ∧
    Forall2 (relation_renamed rename) l l'.

(** A graph and its copy: the nodes and roots under new ids, in any order. *)
Definition graph_renamed (rename : string → string) (graph graph' : json) : Prop :=
  graph_field "target" graph = graph_field "target" graph' ∧
  page_values_aside (Observation.findGraphExtensionMajor graph "web" "1") (Observation.findGraphExtensionMajor graph' "web" "1") ∧
  (∃ nodes nodes1 nodes', graph_field "nodes" graph = Some (JArr nodes) ∧ graph_field "nodes" graph' = Some (JArr nodes') ∧
     nodes ≡ₚ nodes1 ∧ Forall2 (node_renamed rename) nodes1 nodes') ∧
  ∃ roots roots1, graph_field "rootNodeIds" graph = Some (JArr (JStr <$> roots)) ∧ roots ≡ₚ roots1 ∧
    graph_field "rootNodeIds" graph' = Some (JArr (JStr ∘ rename <$> roots1)).

(** *** Maps of identities *)
Definition node_id (node : json) : Observation.V string := as_text (graph_field "id" node).

Notation fold_identities view := (foldl (λ (m : outcome Thrown (gmap string string)) (node : json), m ← m; id ← as_text (graph_field "id" node); v ← view node;
  Ok (<[id := hash v]> m))).

Lemma fold_identities_throw view e l m : fold_identities view (Throw e) l ≠ Ok m.
Proof. by induction l as [|n l IH]; [|apply IH]. Qed.

(** The map of a list whose nodes have distinct ids. *)
Lemma fold_identities_spec view l m0 m ids :
  Forall2 (λ n id, node_id n = Ok id) l ids → NoDup ids → fold_identities view (Ok m0) l = Ok m →
  (∀ n id, n ∈ l → node_id n = Ok id → ∃ v, view n = Ok v ∧ m !! id = Some (hash v)) ∧
  (∀ id, id ∉ ids → m !! id = m0 !! id).
Proof.
  intros Hids. revert m0. induction Hids as [|n id l ids Hid Hids IH]; intros m0 Hnd.
  { intros [= <-]. split; [|done]. intros n id Hn. by apply elem_of_nil in Hn. }
  apply NoDup_cons in Hnd as [Hnew Hnd]. cbn [foldl mbind outcome_bind].
  unfold node_id in Hid. rewrite Hid. cbn [mbind outcome_bind].
  destruct (view n) as [v|e] eqn:Hv; cbn [mbind outcome_bind]; [|intros H; by apply fold_identities_throw in H].
  intros H. destruct (IH _ Hnd H) as [H1 H2]. split.
  - intros n' id' Hn' Hid'. apply elem_of_cons in Hn' as [-> | Hn'].
    + unfold node_id in Hid'. rewrite Hid in Hid'. injection Hid' as <-. exists v. split; [done|].
      by rewrite H2, lookup_insert_eq.
    + by apply H1.
  - intros id' Hid'. apply not_elem_of_cons in Hid' as [Hne Hid']. by rewrite H2, lookup_insert_ne.
Qed.
Lemma fold_identities_total view l m0 :
  (∀ n, n ∈ l → (∃ id, node_id n = Ok id) ∧ ∃ v, view n = Ok v) → ∃ m, fold_identities view (Ok m0) l = Ok m.
Proof.
  revert m0. induction l as [|n l IH]; intros m0 H; [by eexists|]. cbn [foldl mbind outcome_bind].
  destruct (H n) as [[id Hid] [v Hv]]; [by left|]. unfold node_id in Hid. rewrite Hid, Hv. cbn [mbind outcome_bind].
  apply IH. intros n' Hn'. apply H. by right.
Qed.
Lemma fold_identities_views view l m0 m :
  fold_identities view (Ok m0) l = Ok m → ∀ n, n ∈ l → ∃ v, view n = Ok v.
Proof.
  revert m0. induction l as [|n l IH]; intros m0 H n' Hn'; [by apply elem_of_nil in Hn'|].
  cbn [foldl mbind outcome_bind] in H. destruct (as_text (graph_field "id" n)) as [id|]; cbn [mbind outcome_bind] in H;
    [|by apply fold_identities_throw in H].
  destruct (view n) as [v|e] eqn:Hv; cbn [mbind outcome_bind] in H; [|by apply fold_identities_throw in H].
  apply elem_of_cons in Hn' as [-> | Hn']; [by exists v|by eapply IH].
Qed.

Lemma renamed_ids_of rename l l' ids :
  Forall2 (node_renamed rename) l l' → Forall2 (λ n id, node_id n = Ok id) l ids →
  Forall2 (λ n id, node_id n = Ok id) l' (rename <$> ids).
Proof.
  intros H. revert ids. induction H as [|n n' l l' (_ & (id & Hid & Hid') & _) _ IH]; intros [|id1 ids] Hids;
    apply Forall2_cons_iff in Hids || (inversion Hids; try constructor); [].
  destruct Hids as [E Hids]. unfold node_id in E. rewrite Hid in E. injection E as <-. rewrite fmap_cons.
  apply Forall2_cons. split; [unfold node_id; by rewrite Hid'|by apply IH].
Qed.

(** *** One graph under two names *)
Section renamed.
Context (rename : string → string) (nodes nodes1 nodes' : list json) (ids : list string).
Context (Hperm : nodes ≡ₚ nodes1) (Hren : Forall2 (node_renamed rename) nodes1 nodes').
Context (Hids : Forall2 (λ n id, node_id n = Ok id) nodes ids) (Hnd : NoDup ids) (Hnd' : NoDup (rename <$> ids)).
(** The relations stay within the graph. *)
Context (Hclosed : ∀ n l r target, n ∈ nodes → graph_field "relations" n = Some (JArr l) → r ∈ l →
  graph_field "targetNodeId" r = Some (JStr target) → target ∈ ids).

(** The identities of a node and of its copy are one. *)
Definition matching_maps (m m' : gmap string string) : Prop :=
  ∀ id, id ∈ ids → ∃ v, m !! id = Some (hash v) ∧ m' !! rename id = Some (hash v).

Lemma base_view_same n n' : node_renamed rename n n' →
  nodeBaseFingerprintView nfc toLowerCase n = nodeBaseFingerprintView nfc toLowerCase n'.
Proof.
  intros (Ha & _). assert (is_secret n' = is_secret n) as Esec by (unfold is_secret; by use_agree).
  assert (node_state n' = node_state n) as Est by (unfold node_state; by use_agree).
  unfold nodeBaseFingerprintView, prop. rewrite Esec, Est. by use_agree.
Qed.

Lemma fingerprint_view_same m m' n n' :
  matching_maps m m' → n ∈ nodes → node_renamed rename n n' →
  nodeFingerprintView nfc toLowerCase m n = nodeFingerprintView nfc toLowerCase m' n'.
Proof.
  intros Hm Hn Hr. pose proof (base_view_same _ _ Hr) as Hb. destruct Hr as (_ & _ & l & l' & Hl & Hl' & Hrel).
  unfold nodeFingerprintView, node_relations. rewrite Hl, Hl'. cbn [as_array mbind outcome_bind].
  rewrite (mapM_ext (relationFingerprintView m) (relationFingerprintView m') l l'), Hb; [done|].
  assert (∀ r, r ∈ l → ∀ target, graph_field "targetNodeId" r = Some (JStr target) → target ∈ ids) as Hin by eauto.
  clear -Hrel Hin Hm. induction Hrel as [|r r' l l' (type & target & Ht & Ht' & Hg & Hg') _ IH]; [constructor|].
  constructor; [|apply IH; intros; eapply Hin; [by right|done]].
  unfold relationFingerprintView. rewrite Ht, Ht', Hg, Hg'. cbn [as_text mbind outcome_bind].
  destruct (Hm target) as (h & -> & ->); [eapply Hin; [by left|done]|]. done.
Qed.

Lemma copy_of n : n ∈ nodes → ∃ n', n' ∈ nodes' ∧ node_renamed rename n n'.
Proof.
  rewrite Hperm. intros Hn. apply list_elem_of_lookup in Hn as [i Hi].
  destruct (Forall2_lookup_l _ _ _ _ _ Hren Hi) as (n' & Hn' & H). exists n'. split; [by eapply list_elem_of_lookup_2|done].
Qed.
Lemma original_of n' : n' ∈ nodes' → ∃ n, n ∈ nodes ∧ node_renamed rename n n'.
Proof.
  intros Hn. apply list_elem_of_lookup in Hn as [i Hi].
  destruct (Forall2_lookup_r _ _ _ _ _ Hren Hi) as (n & Hn & H). exists n. split; [|done].
  rewrite Hperm. by eapply list_elem_of_lookup_2.
Qed.

Lemma renamed_ids : ∃ ids', rename <$> ids ≡ₚ ids' ∧ Forall2 (λ n id, node_id n = Ok id) nodes' ids'.
Proof.
  destruct (Permutation_Forall2 Hperm Hids) as (ids1 & Hp & Hids1). exists (rename <$> ids1). rewrite Hp.
  split; [done|]. by eapply renamed_ids_of.
Qed.

(** Maps of corresponding views correspond, in whatever order the nodes are taken. *)
Lemma identity_maps_match (view view' : json → Observation.V json) l l' m :
  (∀ n n', n ∈ nodes → node_renamed rename n n' → view n = view' n') → l ≡ₚ nodes → l' ≡ₚ nodes' →
  identity_map number_text sha256 view l = Ok m →
  ∃ m', identity_map number_text sha256 view' l' = Ok m' ∧ matching_maps m m'.
Proof.
  intros Hview Hl Hl' Hm. unfold identity_map in *.
  destruct (Permutation_Forall2 (symmetry Hl) Hids) as (lids & Hp & Hlids).
  destruct renamed_ids as (ids' & Hp' & Hids'). destruct (Permutation_Forall2 (symmetry Hl') Hids') as (lids' & Hpl' & Hlids').
  pose proof (fold_identities_views _ _ _ _ Hm) as Hviews.
  destruct (fold_identities_total view' l' ∅) as [m' Hm'].
  { intros n' Hn'. rewrite Hl' in Hn'. destruct (original_of n' Hn') as (n & Hn & Hr). split.
    - destruct Hr as (_ & (id & _ & Hid) & _). exists (rename id). unfold node_id. by rewrite Hid.
    - rewrite <- (Hview n n' Hn Hr). apply Hviews. by rewrite Hl. }
  exists m'. split; [done|]. intros id Hid.
  destruct (fold_identities_spec _ _ _ _ _ Hlids ltac:(by rewrite <- Hp) Hm) as [Hspec _].
  destruct (fold_identities_spec _ _ _ _ _ Hlids' ltac:(by rewrite <- Hpl', <- Hp') Hm') as [Hspec' _].
  apply list_elem_of_lookup in Hid as [i Hi]. destruct (Forall2_lookup_r _ _ _ _ _ Hids Hi) as (n & Hn & Hnid).
  apply list_elem_of_lookup_2 in Hn. destruct (copy_of n Hn) as (n' & Hn' & Hr).
  destruct (Hspec n id ltac:(by rewrite Hl) Hnid) as (v & Hv & E).
  destruct (Hspec' n' (rename id) ltac:(by rewrite Hl')) as (v' & Hv' & E').
  { destruct Hr as (_ & (id0 & H0 & H0') & _). unfold node_id in *. rewrite H0 in Hnid. injection Hnid as <-. by rewrite H0'. }
  rewrite <- (Hview n n' Hn Hr), Hv in Hv'. injection Hv' as <-. by exists v.
Qed.

Lemma refine_match depth l l' m m' r :
  l ≡ₚ nodes → l' ≡ₚ nodes' → matching_maps m m' →
  refine_identities nfc number_text toLowerCase sha256 depth l m = Ok r →
  ∃ r', refine_identities nfc number_text toLowerCase sha256 depth l' m' = Ok r' ∧ matching_maps r r'.
Proof.
  intros Hl Hl'. revert m m'. induction depth as [|depth IH]; intros m m' Hm; cbn [refine_identities].
  - intros [= <-]. by exists m'.
  - intros H. apply bind_Ok in H as (next & Hnext & H).
    destruct (identity_maps_match (nodeFingerprintView nfc toLowerCase m) (nodeFingerprintView nfc toLowerCase m') l l' next)
      as (next' & -> & Hmatch); [by intros; apply fingerprint_view_same|done..|].
    cbn [mbind outcome_bind]. by eapply IH.
Qed.

Lemma identities_match m :
  stableNodeIdentityById nfc number_text toLowerCase sha256 nodes = Ok m →
  ∃ m', stableNodeIdentityById nfc number_text toLowerCase sha256 nodes' = Ok m' ∧ matching_maps m m'.
Proof.
  unfold stableNodeIdentityById. intros H. apply bind_Ok in H as (m0 & Hm0 & H). apply bind_Ok in H as (o & Ho & H).
  destruct (identity_maps_match (λ node, Ok (JObj (nodeBaseFingerprintView nfc toLowerCase node)))
    (λ node, Ok (JObj (nodeBaseFingerprintView nfc toLowerCase node))) nodes nodes' m0) as (m0' & -> & Hm);
    [intros n n' _ Hr; by rewrite (base_view_same n n' Hr)|done..|].
  cbn [mbind outcome_bind]. rewrite (ObservationCanonical.sortByKey_total nfc (λ node, as_text (graph_field "id" node)) nodes').
  2:{ intros n' Hn'. destruct (original_of n' Hn') as (n & _ & (_ & (id & _ & Hid) & _)). exists (rename id). by rewrite Hid. }
  cbn [mbind outcome_bind]. assert (length nodes' = length nodes) as ->.
  { rewrite Hperm. symmetry. by eapply Forall2_length. }
  eapply refine_match; [|apply ObservationCanonical.keyed_sort_perm|exact Hm|exact H].
  rewrite (ObservationCanonical.sortByKey_Ok _ _ _ _ Ho). apply ObservationCanonical.keyed_sort_perm.
Qed.
End renamed.


Lemma require_web_same g g' :
  page_values_aside (Observation.findGraphExtensionMajor g "web" "1") (Observation.findGraphExtensionMajor g' "web" "1") →
  requireWebV1Semantics nfc g = requireWebV1Semantics nfc g'.
Proof.
  intros H. pose proof (page_same _ _ H) as E. unfold requireWebV1Semantics, Observation.requireGraphExtensionMajor,
    Observation.requireExtensionMajorFromMap, Observation.findGraphExtensionMajor in *.
  destruct (get_field _ (Observation.extensions_of g)) as [e|], (get_field _ (Observation.extensions_of g')) as [e'|];
    try done. cbn [mbind outcome_bind] in *.
  destruct (webSemanticsFromExtension nfc e), (webSemanticsFromExtension nfc e'); try done; cbn in E; congruence.
Qed.

(** The nodes of an accepted graph: their ids, which are distinct, and the targets
    of their relations, which are among them. *)
Lemma sound_nodes opts f nodes :
  graph_sound nfc new_URL opts f → get_field "nodes" f = Some (JArr nodes) →
  ∃ ids, Forall2 (λ n id, node_id n = Ok id) nodes ids ∧ NoDup ids ∧
    (∀ n l r target, n ∈ nodes → graph_field "relations" n = Some (JArr l) → r ∈ l →
       graph_field "targetNodeId" r = Some (JStr target) → target ∈ ids) ∧
    ∀ roots, get_field "rootNodeIds" f = Some (JArr (JStr <$> roots)) → ∀ id, id ∈ roots → id ∈ ids.
Proof.
  intros [(nodes0 & ids & Hn & Hnd & _ & Hall & roots & Hr & _ & Hroots) _ _] Hn'. rewrite Hn in Hn'. injection Hn' as ->.
  exists ids. split_and!.
  - apply Forall2_flip. eapply Forall2_impl; [exact Hall|]. intros id value (node & -> & Hs). unfold node_id. cbn.
    by rewrite (ObservationSafety.ns_id _ _ _ _ Hs).
  - done.
  - intros n l r target Hin Hl Hrin Ht. apply list_elem_of_lookup in Hin as [i Hi].
    destruct (Forall2_lookup_r _ _ _ _ _ Hall Hi) as (id & _ & node & -> & Hs).
    destruct (ObservationSafety.ns_relations _ _ _ _ Hs) as (l' & Hl' & Hrel). cbn in Hl. rewrite Hl' in Hl. injection Hl as ->.
    rewrite Forall_forall in Hrel. destruct (Hrel r Hrin) as (fr & type & target' & -> & _ & _ & Ht' & Htin).
    cbn in Ht. congruence.
  - intros roots' Hr' id Hid. rewrite Hr in Hr'. injection Hr' as ->. rewrite Forall_forall in Hroots.
    destruct (Hroots (JStr id)) as (id' & [= <-] & Hin); [by apply list_elem_of_fmap_2|done].
Qed.

Lemma ids_functional l ids ids' :
  Forall2 (λ n id, node_id n = Ok id) l ids → Forall2 (λ n id, node_id n = Ok id) l ids' → ids = ids'.
Proof.
  intros H. revert ids'. induction H as [|n id l ids Hid _ IH]; intros ids' H'; inversion H' as [|? id' ? ids2 Hid' H2]; [done|].
  subst. f_equal; [congruence|by apply IH].
Qed.

(** Two texts with one SHA-256. *)
Definition collision : Prop := ∃ t t', t ≠ t' ∧ sha256 t = sha256 t'.

(** Views in the order of their hashes have one text, or two of them collide. *)
Lemma sorted_views_text vs vs' :
  (∀ a b, ObservationCanonical.units (nfc a) = ObservationCanonical.units (nfc b) → nfc a = nfc b) →
  (∀ t, nfc (sha256 t) = sha256 t) → vs ≡ₚ vs' →
  collision ∨ map (CanonicalJson.canonicalize number_text) (ObservationCanonical.keyed_sort (ObservationCanonical.key_text nfc (λ v, Ok (hash v))) vs)
  = map (CanonicalJson.canonicalize number_text) (ObservationCanonical.keyed_sort (ObservationCanonical.key_text nfc (λ v, Ok (hash v))) vs').
Proof.
  intros Hu Hhash Hp. set (T := CanonicalJson.canonicalize number_text).
  destruct (decide (Forall (λ x, Forall (λ y, hash x = hash y → T x = T y) vs) vs)) as [Hall|Hno].
  - right. apply (ObservationCanonical.keyed_sort_shown _ _ T T); [by rewrite Hp|].
    intros x y Hx Hy E%Hu. cbn in *. split; [done|]. rewrite Forall_forall in Hall. specialize (Hall x Hx).
    rewrite Forall_forall in Hall. apply (Hall y Hy). unfold RunnerControl.canonicalPayloadHash in *. by rewrite !Hhash in E.
  - left. apply not_Forall_Exists in Hno; [|apply _]. apply Exists_exists in Hno as (x & _ & Hno).
    apply not_Forall_Exists in Hno; [|apply _]. apply Exists_exists in Hno as (y & _ & Hno).
    exists (T x), (T y). unfold RunnerControl.canonicalPayloadHash, T in *. split.
    + intros E. apply Hno. done.
    + destruct (decide (sha256 (CanonicalJson.canonicalize number_text x) = sha256 (CanonicalJson.canonicalize number_text y))) as [E|E]; [done|].
      exfalso. apply Hno. done.
Qed.


Lemma views_renamed rename nodes nodes1 nodes' ids m m' vs :
  nodes ≡ₚ nodes1 → Forall2 (node_renamed rename) nodes1 nodes' →
  (∀ n l r target, n ∈ nodes → graph_field "relations" n = Some (JArr l) → r ∈ l →
     graph_field "targetNodeId" r = Some (JStr target) → target ∈ ids) →
  matching_maps rename ids m m' → mapM (nodeFingerprintView nfc toLowerCase m) nodes = Ok vs →
  ∃ vs', mapM (nodeFingerprintView nfc toLowerCase m') nodes' = Ok vs' ∧ vs ≡ₚ vs'.
Proof.
  intros Hp Hren Hclosed Hm Hvs%mapM_Ok. destruct (Permutation_Forall2 Hp Hvs) as (vs1 & Hpv & Hvs1).
  exists vs1. split; [|done]. apply mapM_Ok.
  assert (∀ n, n ∈ nodes1 → n ∈ nodes) as Hin by (intros n; by rewrite Hp).
  clear -Hren Hvs1 Hm Hclosed Hin. revert vs1 Hvs1. induction Hren as [|n n' l l' Hr _ IH]; intros vs1 H;
    inversion H as [|? v ? vs2 Hv H2]; subst; [constructor|]. constructor.
  - rewrite <- Hv. symmetry. eapply (fingerprint_view_same rename nodes ids Hclosed); [done| |done]. apply Hin. by left.
  - apply IH; [|done]. intros n0 Hn0. apply Hin. by right.
Qed.

Lemma strings_of_texts l : strings_of (JStr <$> l) = Ok l.
Proof. apply mapM_Ok. by induction l as [|s l IH]; constructor. Qed.

Lemma roots_renamed rename ids m m' roots roots1 :
  (∀ a b, ObservationCanonical.units (nfc a) = ObservationCanonical.units (nfc b) → nfc a = nfc b) →
  (∀ t, nfc (sha256 t) = sha256 t) →
  matching_maps rename ids m m' → roots ≡ₚ roots1 → (∀ id, id ∈ roots → id ∈ ids) →
  sortStrings nfc ((λ id, default id (m !! id)) <$> roots) =
  sortStrings nfc ((λ id, default id (m' !! id)) <$> (rename <$> roots1)).
Proof.
  intros Hu Hhash Hm Hp Hin. unfold sortStrings.
  rewrite !(ObservationCanonical.sortByKey_total nfc (λ s, Ok s)) by (intros s _; by exists s). f_equal.
  rewrite <- (list_fmap_id (ObservationCanonical.keyed_sort _ (_ <$> roots))), <- (list_fmap_id (ObservationCanonical.keyed_sort _ (_ <$> (rename <$> roots1)))).
  apply ObservationCanonical.keyed_sort_shown.
  - rewrite Hp. apply reflexive_eq. f_equal. rewrite <- list_fmap_compose. apply list_fmap_ext. intros i id Hid. cbn.
    destruct (Hm id) as (h & -> & ->); [|done]. apply Hin. rewrite Hp. by eapply list_elem_of_lookup_2.
  - intros x y Hx Hy E%Hu. unfold ObservationCanonical.key_text in *.
    assert (∀ z, z ∈ (λ id, default id (m !! id)) <$> roots → nfc z = z) as Hz.
    { intros z Hz. apply list_elem_of_fmap in Hz as (id & -> & Hid). destruct (Hm id (Hin id Hid)) as (v & -> & _).
      apply Hhash. }
    rewrite !Hz in * by done. by subst.
Qed.

(** The fingerprint of a state does not depend on what its nodes are called nor on their
    order: a graph and a copy of it under other ids, its nodes and roots in any
    order, and with other bounds, confidences, evidence and query values, have one
    fingerprint, unless two texts have one SHA-256. *)
Theorem fingerprint_ignores_ids rename graph graph' a b x :
  (∀ a b, ObservationCanonical.units (nfc a) = ObservationCanonical.units (nfc b) → nfc a = nfc b) →
  (∀ t, nfc (sha256 t) = sha256 t) →
  validateConsumer graph = Ok a → validateConsumer graph' = Ok b → graph_renamed rename graph graph' →
  fingerprint graph = Ok x → fingerprint graph' = Ok x ∨ collision.
Proof.
  intros Hu Hhash Ha Hb (Htarget & Hpage & (nodes & nodes1 & nodes' & Hn & Hn' & Hp & Hren) & roots & roots1 & Hr & Hrp & Hr') H.
  unfold fingerprintObservationGraphV1 in *. rewrite Ha in H. rewrite Hb.
  apply consumer_inv in Ha as (-> & keys & f & _ & _ & -> & Hs).
  apply consumer_inv in Hb as (-> & keys' & f' & _ & _ & -> & Hs').
  cbn [mbind outcome_bind] in *. rewrite <- (require_web_same _ _ Hpage). apply bind_Ok in H as (web & Hweb & H).
  rewrite Hweb. cbn [mbind outcome_bind]. unfold graph_nodes in *. rewrite Hn in H. rewrite Hn'.
  cbn [as_array mbind outcome_bind] in *.
  destruct (sound_nodes _ _ _ Hs Hn) as (ids & Hids & Hnd & Hclosed & Hroots).
  destruct (sound_nodes _ _ _ Hs' Hn') as (ids' & Hids' & Hnd' & _ & _).
  assert (NoDup (rename <$> ids)) as Hndr.
  { destruct (renamed_ids rename nodes nodes1 nodes' ids Hp Hren Hids) as (ids2 & Hp2 & Hids2).
    rewrite Hp2. by rewrite (ids_functional _ _ _ Hids2 Hids'). }
  apply bind_Ok in H as (m & Hm & H).
  destruct (identities_match rename nodes nodes1 nodes' ids Hp Hren Hids Hnd Hndr Hclosed m Hm) as (m' & -> & Hmm).
  cbn [mbind outcome_bind].
  apply bind_Ok in H as (vs & Hvs & H). destruct (views_renamed _ _ _ _ _ _ _ _ Hp Hren Hclosed Hmm Hvs) as (vs' & -> & Hpv).
  cbn [mbind outcome_bind]. rewrite (ObservationCanonical.sortByKey_total nfc (λ v, Ok (hash v)) vs') by (intros v _; by eexists).
  rewrite (ObservationCanonical.sortByKey_total nfc (λ v, Ok (hash v)) vs) in H by (intros v _; by eexists).
  rewrite Hr in H. rewrite Hr', list_fmap_compose. cbn [as_array mbind outcome_bind] in *. rewrite !strings_of_texts in *.
  cbn [mbind outcome_bind] in *.
  rewrite <- (roots_renamed rename ids m m' roots roots1 Hu Hhash); [|done..|by apply Hroots].
  apply bind_Ok in H as (rootNodes & -> & [= <-]). cbn [mbind outcome_bind].
  destruct (sorted_views_text vs vs' Hu Hhash Hpv) as [|E]; [by right|left].
  unfold RunnerControl.canonicalPayloadHash in *. rewrite <- Htarget.
  cbn [CanonicalJson.canonicalize map]. by rewrite E.
Qed.

(** ** The allow-list of the query *)
Ltac peel H :=
  let E := fresh "E" in apply bind_Ok in H as (? & E & H); rewrite ?E; cbn [mbind outcome_bind].

Lemma bind_ext {A B} (m : Observation.V A) (k k' : A → Observation.V B) : (∀ a, k a = k' a) → m ≫= k = m ≫= k'.
Proof. intros H. destruct m; cbn; auto. Qed.

Section allow_list.
Context (keys keys' : list string).
Notation opts := (consumer_options keys).
Notation opts' := (consumer_options keys').

(** A node carries no page, so its check does not look at the allow-list. *)
Lemma node_extensions_same value :
  Observation.validateExtensions nfc number_text new_URL opts false value =
  Observation.validateExtensions nfc number_text new_URL opts' false value.
Proof.
  apply bind_ext. intros fields. unfold Observation.each. induction fields as [|[key x] fields IH]; [done|].
  cbn [foldr]. rewrite IH. assert (Observation.validateExtension nfc number_text new_URL opts false (key, x) =
    Observation.validateExtension nfc number_text new_URL opts' false (key, x)) as ->; [|done].
  unfold Observation.validateExtension. repeat (apply bind_ext; intros). by destruct (String.eqb key _).
Qed.
Lemma validateNode_same value :
  Observation.validateNode nfc number_text new_URL opts value = Observation.validateNode nfc number_text new_URL opts' value.
Proof.
  unfold Observation.validateNode. do 5 (apply bind_ext; intros). destruct (Observation.one_of _ _); [|done].
  do 9 (apply bind_ext; intros). by rewrite node_extensions_same.
Qed.
Lemma validateNodes_same ids normalized l :
  Observation.validateNodes nfc number_text new_URL opts ids normalized l =
  Observation.validateNodes nfc number_text new_URL opts' ids normalized l.
Proof.
  revert ids normalized. induction l as [|value l IH]; intros ids normalized; [done|]. cbn [Observation.validateNodes].
  rewrite validateNode_same. do 3 (apply bind_ext; intros). by rewrite IH.
Qed.

(** The keys of the query of a page are among [keys']. *)
Definition query_allowed (kv : string * json) : Prop :=
  kv.1 = Observation.WEB_EXTENSION_V1_TYPE → ∀ payload query,
    graph_field "payload" kv.2 = Some payload → graph_field "query" payload = Some (JObj query) →
    ∀ key, key ∈ query.*1 → key ∈ keys'.

Lemma query_entries_allowed query :
  (∀ key, key ∈ query.*1 → key ∈ keys') →
  Observation.each (Observation.validateQueryEntry nfc opts) query = Ok tt →
  Observation.each (Observation.validateQueryEntry nfc opts') query = Ok tt.
Proof.
  intros Hin. rewrite !ObservationSafety.each_Ok, !Forall_forall. intros H kv Hkv. specialize (H kv Hkv).
  unfold Observation.validateQueryEntry in *. apply bind_Ok in H as ([] & -> & H). cbn [mbind outcome_bind].
  apply bind_Ok in H as ([] & _ & H). unfold includes at 1. cbn [consumer_options Observation.allowedWebQueryKeys from_option id].
  rewrite bool_decide_eq_true_2; [done|]. apply Hin. by apply list_elem_of_fmap_2.
Qed.

Lemma validateExtension_allowed kv : query_allowed kv →
  Observation.validateExtension nfc number_text new_URL opts true kv = Ok tt →
  Observation.validateExtension nfc number_text new_URL opts' true kv = Ok tt.
Proof.
  destruct kv as [key x]. intros Hq H. unfold Observation.validateExtension in *.
  peel H. apply bind_Ok in H as (ext & Hx & H). rewrite Hx.
  apply ObservationSafety.assertObject_Ok in Hx. injection Hx as ->. cbn [mbind outcome_bind].
  do 4 peel H. apply bind_Ok in H as (payload & Hp & H). rewrite Hp. cbn [mbind outcome_bind]. peel H.
  destruct (String.eqb_spec key Observation.WEB_EXTENSION_V1_TYPE) as [Ekey|]; [|done].
  cbn [negb reject_if mbind outcome_bind] in *. unfold Observation.validateWebExtensionV1 in *.
  do 9 peel H. apply bind_Ok in H as (query & Hquery & H). rewrite Hquery. cbn [mbind outcome_bind].
  apply ObservationSafety.assertObject_Ok in Hp, Hquery.
  apply query_entries_allowed; [|done]. by apply (Hq Ekey (JObj payload) query).
Qed.

Lemma validate_allowed graph :
  (∀ kv, kv ∈ Observation.extensions_of graph → query_allowed kv) → validate keys graph = Ok graph → validate keys' graph = Ok graph.
Proof.
  unfold Observation.validateObservationGraphV1. intros Hq H.
  apply bind_Ok in H as (f & Hf & H). rewrite Hf. apply ObservationSafety.assertObject_Ok in Hf. injection Hf as ->.
  cbn [mbind outcome_bind].
  do 11 peel H.
  apply bind_Ok in H as ([] & Hext & H).
  assert (Observation.validateExtensions nfc number_text new_URL opts' true (Some (Observation.graph_extensions f)) = Ok tt) as ->.
  { unfold Observation.validateExtensions in *. apply bind_Ok in Hext as (fields & Hx & Hext). rewrite Hx. cbn [mbind outcome_bind].
    apply ObservationSafety.each_Ok. apply ObservationSafety.each_Ok in Hext. rewrite Forall_forall in *.
    intros kv Hkv. apply validateExtension_allowed; [|by apply Hext]. apply Hq. unfold Observation.extensions_of.
    apply ObservationSafety.assertObject_Ok in Hx. injection Hx as Hx. cbn. unfold Observation.graph_extensions in Hx.
    destruct (get_field "extensions" f) as [[]|]; try done; try (injection Hx as <-); done. }
  cbn [mbind outcome_bind]. rewrite <- validateNodes_same. exact H.
Qed.
End allow_list.

(** The keys a graph has are allowed by the list made of it. *)
Lemma own_keys opts f :
  graph_sound nfc new_URL opts f → ObservationCanonical.distinct_keys (JObj f) = true →
  ∃ keys, webQueryKeysPresentOnGraph (JObj f) = Ok keys ∧
    ∀ kv, kv ∈ Observation.extensions_of (JObj f) → query_allowed keys kv.
Proof.
  intros [_ _ Hweb] Hd. apply ObservationCanonical.distinct_keys_obj in Hd as [_ Hd].
  unfold webQueryKeysPresentOnGraph, Observation.extensions_of. cbn [graph_field].
  assert (∃ keys : list string, Ok [] = Ok keys :> Observation.V (list string) ∧ ∀ kv : string * json, kv ∈ [] → query_allowed keys kv) as Hnone.
  { exists []. split; [done|]. intros kv Hkv. by apply elem_of_nil in Hkv. }
  destruct (get_field "extensions" f) as [[| | | | |exts]|] eqn:Hx; cbn [from_option id graph_field]; try exact Hnone.
  specialize (Hd _ _ Hx). apply ObservationCanonical.distinct_keys_obj in Hd as [Hnd _].
  destruct (get_field "web/v1" exts) as [e|] eqn:He.
  - destruct (Hweb _ _ eq_refl He) as (fields & payload & -> & Hp & [_ _ (query & Hquery & _)]).
    cbn [graph_field]. rewrite Hp. cbn [graph_field]. rewrite Hquery. eexists. split; [done|].
    intros [k v] Hkv Ek payload' query' Hp' Hq' key Hkey. cbn [fst snd] in *. subst k.
    assert (v = JObj fields) as ->.
    { apply ObservationSafety.get_field_elem in He. apply list_elem_of_lookup in He as [i Hi]. apply list_elem_of_lookup in Hkv as [j Hj].
      assert (i = j) as <-; [|congruence].
      apply (NoDup_lookup _ _ _ "web/v1" Hnd); rewrite list_lookup_fmap; [by rewrite Hi|by rewrite Hj]. }
    cbn [graph_field] in Hp'. rewrite Hp in Hp'. injection Hp' as <-. cbn [graph_field] in Hq'. congruence.
  - exists []. split; [done|]. intros [k v] Hkv Ek. exfalso. cbn in Ek. subst k.
    apply ObservationCanonical.get_field_None in He. apply He. by apply (list_elem_of_fmap_2 fst _ ("web/v1", v)).
Qed.

(** The consumers of an exploration take the allow-list of query keys from the graph
    itself, so it allows every key: they accept a graph exactly when some
    allow-list would. *)
Theorem consumer_allows_any_key graph :
  ObservationCanonical.distinct_keys graph = true →
  (∃ keys, validate keys graph = Ok graph) ↔ validateConsumer graph = Ok graph.
Proof.
  intros Hd. split.
  - intros [keys H]. destruct (validated_sound _ _ _ _ _ _ H) as (_ & f & -> & Hs).
    destruct (own_keys _ f Hs Hd) as (keys' & Hk & Hq).
    unfold validateConsumerObservationGraph. rewrite Hk. cbn [mbind outcome_bind]. by eapply validate_allowed.
  - intros H. apply consumer_inv in H as (_ & keys & f & _ & H & _). by exists keys.
Qed.

(** ** What an exploration acts on *)
Section exploration.
Context (parse_url : string → option Url) (resolve_url : string → string → option string).
Context (fingerprintOf : json → string).
Context (classifier : option (Exploration.ProposedExplorationAction → json → option json → Exploration.ActionRiskLevel)).
Context (has_policyGate has_recover has_seedReplay : bool) (tokenReservationEstimate : option number).
Notation live := (validateLiveGraph nfc number_text new_URL).
Notation explore := (Exploration.run parse_url number_text sha256 resolve_url live fingerprintOf classifier
  has_policyGate has_recover has_seedReplay tokenReservationEstimate).

Lemma live_sound raw g : live raw = Ok g →
  g = raw ∧ ∃ keys f, raw = JObj f ∧ graph_sound nfc new_URL (consumer_options keys) f.
Proof.
  unfold validateLiveGraph. destruct (_ ≫= _) as [v|[c|]] eqn:E; try done. intros [= ->].
  apply bind_Ok in E as (v & Hv & E). apply bind_Ok in E as (w & _ & [= <-]).
  apply consumer_inv in Hv as (-> & keys & f & _ & _ & -> & Hs). split; [done|]. by exists keys, f.
Qed.

(** C11: Every action an exploration carries out was decided on the graph captured last,
    which the validator accepted; if the action has a node, it is a node of that
    graph: one of its distinct ids, whose value, if secret, is masked. *)
Theorem explored_nodes_sound fuel job h1 a o h2 p :
  Interact.runs Exploration.note (λ _ _ _, True) (explore fuel job) [] p (h1 ++ Exploration.n_executed a o :: h2) →
  ∃ keys f, (ExplorationAuthority.round h2).1 = Some (JObj f) ∧ graph_sound nfc new_URL (consumer_options keys) f ∧
    ∀ n, Exploration.node a = Some n → ∃ nodes ids node id, get_field "nodes" f = Some (JArr nodes) ∧ n = JObj node ∧
      n ∈ nodes ∧ id ∈ ids ∧ ObservationSafety.node_sound (consumer_options keys) ids id node.
Proof.
  intros Hr. assert (Interact.lawful Exploration.note (ExplorationAuthority.authorized_call parse_url resolve_url live classifier
    has_policyGate job) (h1 ++ Exploration.n_executed a o :: h2)) as Hl.
  { eapply Interact.runs_lawful; [exact Hr|apply ExplorationAuthority.authorized_run|done]. }
  apply Interact.lawful_app in Hl as [(B & e & b & Hn & Ha) _]. destruct e; try done. cbn in Hn. injection Hn as <- ->.
  destruct Ha as [_ (raw & g & Hraw & Hlive & _ & c & proposal & proposed & _ & _ & _ & Hg) _ _].
  apply live_sound in Hlive as (-> & keys & f & -> & Hs). exists keys, f. split_and!; [done..|].
  intros n Hnode. destruct Hs as [(nodes & ids & Hn & _ & _ & Hall & _) _ _].
  assert (∃ id, Exploration.find_node id (JObj f) = Some n) as [id Hid].
  { pose proof (ExplorationAuthority.gr_target _ _ _ _ _ _ _ Hg) as Ht. destruct (Exploration.g_kind a); [destruct Ht as [? _]; congruence|..];
      destruct Ht as (id & n' & _ & Hid & Hn'); exists id; congruence. }
  unfold Exploration.find_node, Exploration.graph_nodes, Exploration.field in Hid. rewrite Hn in Hid.
  apply List.find_some in Hid as [Hin _]. apply list_elem_of_In in Hin. pose proof Hin as Hin'.
  apply list_elem_of_lookup in Hin' as [i Hi]. destruct (Forall2_lookup_r _ _ _ _ _ Hall Hi) as (id' & Hid' & node & -> & Hsound).
  exists nodes, ids, node, id'. split_and!; [done..|by eapply list_elem_of_lookup_2|done].
Qed.
End exploration.

End safety.
End ConsumerSafety.
