(* ===== verification/ObservationSample.v ===== *)
(** * Observations: samples

    A page with a button and a password field; its canonical text, its prompt view
    and its fingerprint, an exploration of it, and the replay of a Skill on it. *)
From S2P Require Import Prelude Number Json CanonicalJson RunnerProtocol.
From S2P Require Import Regex Observation ObservationSafety ObservationCanonical ObservationHash VisibleText ObservationConsumer ConsumerSafety.
From S2P Require Import Interact Exploration ExplorationAuthority ExplorationSample Skill SkillLifecycle SkillReplay ReplaySafety.
From Stdlib Require Import Ascii.
Import ObservationCanonical(units, same, alike, same_graph, same_graph_field, same_node, same_node_field, reordered, distinct_keys, all_finite).
Import ObservationSafety(graph_sound).
Import Observation(ParsedUrl, Build_ParsedUrl, ValidateOptions, Build_ValidateOptions).

Module ObservationSample.

(** ** The parameters *)

(** A normal form that keeps ASCII text as it is, and drops the rest. *)
Fixpoint nfc (s : string) : string :=
  match s with
  | EmptyString => EmptyString
  | String c r => if (byte_of c <? 128)%Z then String c (nfc r) else nfc r
  end.

Lemma nfc_ascii s : Forall (λ b, (b < 128)%Z) (bytes (nfc s)).
Proof. induction s as [|c s IH]; cbn; [done|]. destruct (Z.ltb_spec (byte_of c) 128); cbn; auto. Qed.
Lemma nfc_idem s : nfc (nfc s) = nfc s.
Proof.
  induction s as [|c s IH]; cbn; [done|]. destruct (byte_of c <? 128)%Z eqn:E; cbn; [by rewrite E, IH|done].
Qed.
Lemma bytes_inj s t : bytes s = bytes t → s = t.
Proof.
  revert t. induction s as [|c s IH]; intros [|d t]; try done. cbn. intros [= Hc Ht]. f_equal; [|by apply IH].
  unfold byte_of in Hc. apply N2Z.inj in Hc. rewrite <- (ascii_N_embedding c), Hc. apply ascii_N_embedding.
Qed.
Lemma nfc_units a b : units (nfc a) = units (nfc b) → nfc a = nfc b.
Proof.
  assert (∀ s, units (nfc s) = bytes (nfc s)) as H.
  { intros s. unfold units. pose proof (nfc_ascii s) as Hs. induction Hs as [|x l Hx Hl IH]; [done|].
    cbn. destruct (Z.ltb_spec x 192); [by rewrite IH|lia]. }
  rewrite !H. apply bytes_inj.
Qed.

Definition number_text (n : number) : string := "1".
Fixpoint toLowerCase (s : string) : string :=
  match s with
  | EmptyString => EmptyString
  | String c r =>
      let n := nat_of_ascii c in
      String (if (65 <=? n)%nat && (n <=? 90)%nat then ascii_of_nat (n + 32) else c) (toLowerCase r)
  end.
Definition sha256 (s : string) : string := nfc s.
(** A [new URL] that knows one site and one path. *)
Definition new_URL (text : string) (base : option string) : option ParsedUrl :=
  match base with
  | None => (λ u, Build_ParsedUrl u "/" EmptyString EmptyString) <$> RunnerProtocol.demo_url text
  | Some _ => (λ u, Build_ParsedUrl u text EmptyString EmptyString) <$> RunnerProtocol.demo_url "https://shop.test"
  end.

(** ** A page *)
Definition text (s : string) : json := JStr s.
Definition node (id role name shown sensitivity : string) (value : option string) (relations : list json) : json :=
  JObj ([("id", text id); ("role", text role); ("name", text name)] ++
        match value with Some v => [("value", text v)] | None => [] end ++
        [("state", JObj [("text", text shown); ("enabled", JBool true)]); ("relations", JArr relations);
         ("source", JObj [("adapterId", text "web"); ("sourceKind", text "dom")]);
         ("confidence", JNum (num_of_Z 1)); ("sensitivity", text sensitivity);
         ("extensions", JObj []); ("evidenceRefs", JArr [text "shot"])]).
Definition relation (type target : string) : json := JObj [("type", text type); ("targetNodeId", text target)].
Definition buy (id label : string) : json := node id "button" label label "public" None [].
Definition password (id shown mask : string) : json := node id "textbox" "Password" shown "secret" (Some mask) [].
Definition form (id : string) (children : list string) : json :=
  node id "form" "Pay" "Pay" "public" None (relation "child" <$> children).

Definition web_extension : json :=
  JObj [("type", text "web/v1"); ("version", text "1.0");
        ("payload", JObj [("origin", text "https://shop.test"); ("pathname", text "/cart"); ("title", text "Cart");
           ("viewport", JObj [("width", JNum (num_of_Z 800)); ("height", JNum (num_of_Z 600));
                              ("devicePixelRatio", JNum (num_of_Z 1))]);
           ("query", JObj [("coupon", text "[redacted]")])])].
Definition tags_extension : json :=
  JObj [("type", text "tags/v1"); ("version", text "1.0"); ("setSemantics", JArr [text "/tags"]);
        ("payload", JObj [("tags", JArr [text "b"; text "a"])])].
Definition page (nodes roots : list json) : json :=
  JObj [("schema", JObj [("epoch", text "v1"); ("version", text "observation-graph/v1")]); ("graphId", text "graph");
        ("target", JObj [("kind", text "web"); ("targetId", text "shop")]); ("capturedAt", text "now");
        ("rootNodeIds", JArr roots); ("nodes", JArr nodes); ("evidenceRefs", JArr [text "shot"]);
        ("extensions", JObj [("web/v1", web_extension); ("tags/v1", tags_extension)])].
Definition cart (label mask : string) : json :=
  page [form "form" ["buy"; "password"]; buy "buy" label; password "password" mask mask] [text "form"].
Definition sample : json := cart "Buy" "***".

(** ** The validator *)
Definition sample_options : ValidateOptions :=
  {| Observation.evidenceResolver := Some (String.eqb "shot"); Observation.allowedWebQueryKeys := Some ["coupon"] |}.

Lemma sample_valid : Observation.validateObservationGraphV1 nfc number_text new_URL sample_options sample = Ok sample.
Proof. vm_compute. reflexivity. Qed.

(** A secret that is not masked is refused, and so is a key the policy does not list. *)
Lemma unmasked_refused :
  Observation.validateObservationGraphV1 nfc number_text new_URL sample_options (cart "Buy" "hunter2") = Throw Observation.invalid.
Proof. vm_compute. reflexivity. Qed.

Lemma valid_graph_sound_witness :
  sample = sample ∧ ∃ graph, sample = JObj graph ∧ graph_sound nfc new_URL sample_options graph.
Proof. exact (ObservationSafety.valid_graph_sound nfc number_text new_URL sample_options sample sample sample_valid). Defined.

(** ** The canonical text *)
Definition shuffled : json :=
  page [password "password" "***" "***"; form "form" ["password"; "buy"]; buy "buy" "Buy"] [text "form"].

Lemma alike_by R f f' l l' :
  CanonicalJson.sort_fields f = l → CanonicalJson.sort_fields f' = l' →
  Forall2 (λ kv kv', kv.1 = kv'.1 ∧ R kv.1 kv.2 kv'.2) l l' → alike R f f'.
Proof. by intros <- <-. Qed.
Lemma reordered_by (R : json → json → Prop) l l1 l' : l ≡ₚ l1 → Forall2 R l1 l' → reordered R (JArr l) (JArr l').
Proof. intros. by exists l, l1, l'. Qed.

Ltac sorted_alike :=
  eapply alike_by; [vm_compute; reflexivity|vm_compute; reflexivity|];
  repeat (apply Forall2_cons; split; [split; [reflexivity|]|]); [..|apply Forall2_nil; exact I];
  cbn [fst snd]; try reflexivity.

Lemma same_node_by f f' : alike same_node_field f f' → same_node (JObj f) (JObj f').
Proof. intros. by exists f, f'. Qed.

Lemma sample_shuffled : same_graph sample shuffled.
Proof.
  eexists _, _. split_and!; [reflexivity..|]. sorted_alike.
  - apply (reordered_by _ _ [text "shot"]); [done|]. by repeat constructor.
  - apply (reordered_by _ _ [password "password" "***" "***"; form "form" ["buy"; "password"]; buy "buy" "Buy"]).
    { apply (Permutation_app_comm [_; _] [_]). }
    repeat (apply Forall2_cons; split; [|]); [..|apply Forall2_nil; exact I]; apply same_node_by; sorted_alike.
    + apply (reordered_by _ _ []); constructor.
    + apply (reordered_by _ _ [relation "child" "password"; relation "child" "buy"]); [apply Permutation_swap|by repeat constructor].
    + apply (reordered_by _ _ []); constructor.
  - apply (reordered_by _ _ [text "form"]); [done|]. by repeat constructor.
Qed.

Definition sample_text : string :=
  match Observation.canonicalObservationGraphJson nfc number_text sample with Ok t => t | Throw _ => EmptyString end.

Lemma sample_has_text : Observation.canonicalObservationGraphJson nfc number_text sample = Ok sample_text.
Proof. vm_compute. reflexivity. Qed.

Lemma canonical_text_order_witness : Observation.canonicalObservationGraphJson nfc number_text shuffled = Ok sample_text.
Proof.
  exact (ObservationHash.canonical_text_order nfc number_text new_URL sample_options sample sample shuffled sample_text
    nfc_units sample_valid eq_refl sample_shuffled sample_has_text).
Defined.

Lemma valid_graph_has_hash_witness : ∃ t, Observation.canonicalObservationGraphJson nfc number_text sample = Ok t ∧
  Observation.observationGraphHash nfc number_text new_URL sha256 sample_options sample = Ok (sha256 t).
Proof.
  exact (ObservationHash.valid_graph_has_hash nfc number_text new_URL sample_options sha256 sample sample sample_valid eq_refl).
Defined.

(** ** The consumers *)
Import ConsumerSafety(agree, secrets_aside, node_secrets_aside, same_but_texts, page_values_aside,
  graph_renamed, node_renamed, relation_renamed, collision).
Notation validateConsumer := (ObservationConsumer.validateConsumerObservationGraph nfc number_text new_URL).

Lemma sample_consumed : validateConsumer sample = Ok sample.
Proof. vm_compute. reflexivity. Qed.

(** The same page with another secret typed in. *)
Definition retyped : json := cart "Buy" "*****".
Lemma retyped_consumed : validateConsumer retyped = Ok retyped.
Proof. vm_compute. reflexivity. Qed.

Ltac agreeing := unfold agree; repeat (apply Forall_cons; split; [reflexivity|]); apply Forall_nil; exact I.

Lemma sample_page : page_values_aside (Observation.findGraphExtensionMajor sample "web" "1")
  (Observation.findGraphExtensionMajor sample "web" "1").
Proof. eexists _, _, _, _. split_and!; [reflexivity|reflexivity|agreeing|reflexivity|reflexivity|reflexivity]. Qed.

Lemma sample_retyped : secrets_aside sample retyped.
Proof.
  split; [agreeing|]. split; [exact sample_page|]. eexists _, _. split_and!; [reflexivity..|].
  repeat (apply Forall2_cons; split; [|]); [..|apply Forall2_nil; exact I]; (split; [agreeing|]); [agreeing..|].
  apply Forall2_cons; split; [split; [reflexivity|left; eexists _, _; by split]|].
  apply Forall2_cons; split; [split; [reflexivity|by right]|]. apply Forall2_nil. exact I.
Qed.

Lemma prompt_hides_secrets_witness :
  ObservationConsumer.observationGraphPromptView nfc number_text new_URL sample =
  ObservationConsumer.observationGraphPromptView nfc number_text new_URL retyped.
Proof.
  exact (ConsumerSafety.prompt_hides_secrets nfc number_text new_URL sample retyped sample retyped
    sample_consumed retyped_consumed sample_retyped).
Defined.

(** The same page with its nodes called otherwise and listed otherwise. *)
Definition rename (id : string) : string := "node-" +:+ id.
Definition copy : json :=
  page [buy (rename "buy") "Buy"; form (rename "form") [rename "buy"; rename "password"];
        password (rename "password") "***" "***"] [text (rename "form")].
Lemma copy_consumed : validateConsumer copy = Ok copy.
Proof. vm_compute. reflexivity. Qed.

Lemma sample_renamed : graph_renamed rename sample copy.
Proof.
  split; [reflexivity|]. split; [exact sample_page|]. split.
  - eexists _, [buy "buy" "Buy"; form "form" ["buy"; "password"]; password "password" "***" "***"], _.
    split_and!; [reflexivity|reflexivity|apply Permutation_swap|].
    repeat (apply Forall2_cons; split; [|]); [..|apply Forall2_nil; exact I];
      (split; [agreeing|]); (split; [eexists; split; reflexivity|]); eexists _, _; (split_and!; [reflexivity..|]).
    + apply Forall2_nil. exact I.
    + repeat (apply Forall2_cons; split; [eexists _, _; split_and!; reflexivity|]). apply Forall2_nil. exact I.
    + apply Forall2_nil. exact I.
  - exists ["form"], ["form"]. by split_and!.
Qed.

Definition sample_fingerprint : string :=
  match ObservationConsumer.fingerprintObservationGraphV1 nfc number_text new_URL toLowerCase sha256 sample with
  | Ok x => x | Throw _ => EmptyString end.
Lemma sample_has_fingerprint :
  ObservationConsumer.fingerprintObservationGraphV1 nfc number_text new_URL toLowerCase sha256 sample = Ok sample_fingerprint.
Proof. vm_compute. reflexivity. Qed.

Lemma fingerprint_ignores_ids_witness :
  ObservationConsumer.fingerprintObservationGraphV1 nfc number_text new_URL toLowerCase sha256 copy = Ok sample_fingerprint
  ∨ collision sha256.
Proof.
  exact (ConsumerSafety.fingerprint_ignores_ids nfc number_text new_URL toLowerCase sha256 rename sample copy sample copy
    sample_fingerprint nfc_units nfc_idem sample_consumed copy_consumed sample_renamed sample_has_fingerprint).
Defined.

Lemma consumer_allows_any_key_witness : validateConsumer sample = Ok sample.
Proof.
  apply (ConsumerSafety.consumer_allows_any_key nfc number_text new_URL sample eq_refl).
  exists ["coupon"]. vm_compute. reflexivity.
Defined.

(** ** An exploration of the page *)
Section exploration.
Import Exploration ExplorationAuthority ExplorationSample.
Notation live := (ObservationConsumer.validateLiveGraph nfc number_text new_URL).

Definition page_run : prog Call ExplorationError (option ExplorationResult) :=
  run RunnerProtocol.demo_url number_text sha256 resolve_url live fingerprintOf None true false false None 3 sample_job.
Definition page_world : World :=
  {| db := db sample_world; graphs := [sample; retyped]; now := now sample_world; busy := false |}.
Definition page_played (n : nat) : prog Call ExplorationError (option ExplorationResult) * list Note * World :=
  play n page_run [] page_world.
Definition page_history : list Note := (page_played 14).1.2.
Definition page_action : GroundedExplorationAction :=
  {| g_kind := click; g_reason := "new page"; risk := LocalMutation;
     node := Some (buy "buy" "Buy"); g_path := None; g_valueRef := None |}.

Lemma page_played_history : (page_played 15).1.2 = n_executed page_action (Ok tt) :: page_history.
Proof. vm_compute. reflexivity. Qed.
Lemma page_runs :
  runs note (λ _ _ _, True) page_run [] (page_played 15).1.1 ([] ++ n_executed page_action (Ok tt) :: page_history).
Proof.
  cbn [app]. rewrite <- page_played_history. unfold page_played.
  destruct (play 15 _ _ _) as [[p h] w] eqn:Hp. by eapply (play_runs note _ (@respond)).
Qed.

Lemma explored_nodes_sound_witness :
  ∃ keys f, (round page_history).1 = Some (JObj f) ∧ graph_sound nfc new_URL (ObservationConsumer.consumer_options keys) f ∧
    ∃ ids id n, buy "buy" "Buy" = JObj n ∧ ObservationSafety.node_sound (ObservationConsumer.consumer_options keys) ids id n.
Proof.
  destruct (ConsumerSafety.explored_nodes_sound nfc number_text new_URL sha256 RunnerProtocol.demo_url resolve_url fingerprintOf
    None true false false None 3 sample_job [] page_action (Ok tt) page_history _ page_runs) as (keys & f & Hr & Hs & Hn).
  exists keys, f. split; [exact Hr|]. split; [exact Hs|].
  destruct (Hn _ eq_refl) as (nodes & ids & n & id & _ & E & _ & _ & Hsound). exists ids, id, n. exact (conj E Hsound).
Defined.
End exploration.

(** ** The replay of a Skill on the page *)
Section replay.
Import Skill SkillLifecycle SkillReplay ReplaySafety.

Definition button (name : option string) : SemanticTarget := {| role := Some "Button"; Skill.name := name; purpose := "buy" |}.
Definition open_step : SkillStep :=
  {| stepId := "step-001"; intent := navigate "/cart"; preconditions := []; checkpoint := [url_path "/cart"];
     recovery := stop; sourceNodeId := "node" |}.
Definition buy_step : SkillStep :=
  {| stepId := "step-002"; intent := click (button None); preconditions := [node_present (button (Some " Buy "))];
     checkpoint := [node_text (button None) "bought"]; recovery := reobserve; sourceNodeId := "node" |}.
Definition sample_content : SkillCandidate :=
  {| parameters := []; steps := (open_step, [buy_step]); sourceRecordingIds := ("recording", []);
     observationSchemaEpoch := v1; locatorSchemaVersion := "semantic-locator/v1";
     compilerVersion := "skill-compiler/v1"; contentSha256 := "content" |}.
Definition sample_scope : SkillVerificationScope :=
  {| sc_projectId := "project"; sc_targetId := "shop"; sc_now := "2024-01-02T00:00:00.000Z" |}.
Definition sample_bundle : SignedSkillBundle :=
  {| manifest := {| bundleId := "bundle"; m_skillId := "skill"; m_skillVersion := 3;
       m_compilerVersion := "skill-compiler/v1"; m_contentSha256 := "content"; signerKeyId := "key";
       signatureBase64 := "signature"; issuedAt := "2024-01-01T00:00:00.000Z"; expiresAt := None |};
     payload := {| skillId := "skill"; version := 3; state := Skill.verified; projectId := "project";
       targetScope := {| targetId := "shop"; minimumTargetVersion := None; maximumTargetVersion := None;
         allowedOrigins := [] |}; content := sample_content |} |}.
Definition sample_seed : RegressionSeed :=
  {| plan := {| skillBundleId := "bundle"; targetVersion := "1"; repetitions := 2; stopOnFirstFailure := true |};
     bundle := sample_bundle; scope := sample_scope |}.
Definition sample_job : M RegressionJobResult := run_job nfc number_text new_URL toLowerCase sample_seed.

(** A target that shows the next page on every capture. *)
Definition respond (B : Type) (e : Call B) (w : list json) : B * list json :=
  match e in Call B return B * list json with
  | Verify _ _ => (Ok valid, w)
  | Capture _ => match w with g :: w => (Ok g, w) | [] => (Throw Observation.OtherError, []) end
  | Execute _ _ => (Ok tt, w)
  end.
(** The second repetition finds its checkpoint at the second look. *)
Definition pages : list json :=
  (λ label, cart label "***") <$>
    ["Loading"; "Loading"; "Buy"; "Bought buy"; "Loading"; "Loading"; "Buy"; "Buy"; "Bought buy"].
Definition job_played (n : nat) : M RegressionJobResult * list Note * list json :=
  play note respond n sample_job [] pages.

Lemma job_runs n :
  runs note (λ _ _ _, True) sample_job [] (job_played n).1.1 (job_played n).1.2.
Proof.
  unfold job_played. destruct (play note respond n sample_job [] pages) as [[p h] w] eqn:Hp.
  by eapply (play_runs note _ respond).
Qed.

Definition sample_result : RegressionJobResult :=
  {| result_skillBundleId := "bundle"; repetitionsRun := 2; attempts := [replay_passed; replay_passed]; status := Skill.passed |}.

Lemma job_result : (job_played 30).1.1 = Ret sample_result.
Proof. vm_compute. reflexivity. Qed.

Lemma regression_passed_accomplished_witness :
  all_replayed nfc number_text new_URL toLowerCase sample_seed 2 (job_played 30).1.2.
Proof.
  pose proof (job_runs 30) as Hr. rewrite job_result in Hr.
  destruct (regression_passed_accomplished nfc number_text new_URL toLowerCase sample_seed _ _ Hr) as (_ & Hp & _).
  exact (proj2 (Hp eq_refl)).
Defined.

(** The call the job is about to make after [n] calls, if it is an action. *)
Definition next_action (p : M RegressionJobResult) : option ResolvedReplayAction :=
  match p with Vis e _ => match e with Execute _ a => Some a | _ => None end | _ => None end.
Definition click_action : ResolvedReplayAction := {| r_step := buy_step; r_node := Some (buy "buy" "Buy") |}.

Lemma fifth_call : next_action (job_played 5).1.1 = Some click_action.
Proof. vm_compute. reflexivity. Qed.

Lemma replay_actions_justified_witness :
  ∃ t, justified nfc number_text new_URL toLowerCase sample_seed t click_action (job_played 5).1.2.
Proof.
  pose proof (job_runs 5) as Hr. pose proof fifth_call as Hc.
  destruct (job_played 5).1.1 as [r|x|B e k]; [discriminate Hc|discriminate Hc|].
  pose proof (replay_actions_justified nfc number_text new_URL toLowerCase sample_seed B e k _ Hr) as H.
  destruct e as [b s|t|t a]; [discriminate Hc|discriminate Hc|]. injection Hc as ->. by exists t.
Defined.
End replay.

End ObservationSample.
