(* ===== verification/Evidence.v ===== *)
(** * Evidence: who may read it, and how it is erased

    Models [packages/core-modules/evidence/src/lifecycle-service.ts], the store
    and the keys it runs over
    ([packages/storage-providers/postgres-runtime/src/postgres-evidence-lifecycle-store.ts],
    [postgres-self-hosted-kms-key-store.ts], the access checks of
    [packages/storage-providers/kms-self-hosted/src/kms-provider.ts]), the reads
    and the deletion of [packages/storage-providers/artifact-fs/src/local-artifact-store.ts],
    and the routes of the server that compose them
    ([apps/server/src/routes/evidence.ts]), for one tenant of a server whose KMS is
    configured.

    A transaction of one statement is one call; it may be refused after its work
    was done.  The transaction of an access request keeps its audit rows to itself
    until it commits. *)
From S2P Require Import Prelude Number Json CanonicalJson Interact ArtifactUpload.
From Stdlib Require Import Ascii.
Import ArtifactUpload(ArtifactManifest, am_artifactId, am_runId, am_relativePath, am_sha256,
  string_of, below, resolve).

Module Evidence.

Notation buffer := (list ascii).
Notation path := (list string).

(** ** Data *)
Inductive EvidenceLifecycleState := active | revoking | revoked | deleting | deleted.
#[export] Instance lifecycle_state_eq_dec : EqDecision EvidenceLifecycleState.
Proof. solve_decision. Defined.

Record EvidenceLifecycleRecord := {
  capsuleId : string;
  tenantId : string;
  caseId : string;
  region : string;
  purpose : string;
  policyId : string;
  keyVersion : string;
  state : EvidenceLifecycleState;
  ciphertextPresent : bool;
  expiresAt : option string;
}.
Inductive ActorType := user | service.
Record EvidenceLifecycleActor := { actorType : ActorType; actorId : string; correlationId : string }.
Inductive AuditOperation := op_profile | op_wrap | op_unwrap | op_rewrap | op_revoke | op_delete.
Inductive AuditDecision := dec_allowed | dec_denied | dec_failed.
Record EvidenceAuditEvent := {
  auditId : string;
  ev_actor : EvidenceLifecycleActor;
  ev_tenantId : string;
  ev_caseId : string;
  ev_capsuleId : string;
  ev_keyVersion : string;
  ev_purpose : string;
  operation : AuditOperation;
  decision : AuditDecision;
  reasonCode : string;
  ev_occurredAt : string;
}.

Inductive EvidenceLifecycleErrorCode :=
  | EvidenceCapsuleNotFound | EvidenceLifecycleConflict | EvidenceLifecycleTerminal
  | EvidenceAccessDenied | EvidenceAccessUnavailable | EvidenceAuditUnavailable
  | EvidenceRevocationFailed | EvidenceDeletionFailed.
Inductive KmsProviderErrorCode := KmsUnavailable | KmsRootKeyInvalid | KmsScopeDenied | KmsKeyRevoked | KmsIntegrityViolation.
(** What is thrown: an error of the lifecycle, of the KMS, of the API, or any other
    [Error], a refused statement included. *)
Inductive Thrown :=
  | LifecycleError (code : EvidenceLifecycleErrorCode)
  | KmsError (code : KmsProviderErrorCode)
  | ApiNotFound
  | ApiUnavailable
  | OtherError.

Record DeleteEvidenceInput := {
  del_capsuleId : string;
  del_reason : string;
  del_actor : EvidenceLifecycleActor;
  del_occurredAt : string;
}.
Record EvidencePlaintextAccessCheck := {
  chk_tenantId : string; chk_caseId : string; chk_region : string; chk_purpose : string;
  chk_policyId : string; chk_keyVersion : string; chk_capsuleId : string; chk_occurredAt : string;
}.
Record AuthorizeEvidenceAccessInput := {
  acc_capsuleId : string; acc_tenantId : string; acc_caseId : string; acc_purpose : string;
  acc_policyId : string; acc_actor : EvidenceLifecycleActor; acc_occurredAt : string;
}.
Record AuthorizeEvidenceAccessResult := {
  res_capsuleId : string; res_state : EvidenceLifecycleState; downloadAllowed : bool;
}.

(** ** The tenant's tables and the files

    A row of [evidence_capsule_manifests], by capsule and revision: the columns the
    code reads or writes. *)
Record CapsuleRow := {
  c_caseId : string;
  c_purpose : string;
  c_policyId : string;
  c_region : string;
  c_wrappingKeyId : string;
  c_state : EvidenceLifecycleState;
  c_ciphertext : option buffer;
  c_expiresAt : string;
  c_revocationState : string;
  c_revokedAt : option string;
  c_revokedReason : option string;
  c_updatedAt : option string;
  c_deletedAt : option string;
  c_lastError : option string;
}.
Record RevocationRow := { rev_scopeId : string; rev_reason : string; rev_revokedAt : string }.
Inductive KeyStatus := key_active | key_revoked.
#[export] Instance key_status_eq_dec : EqDecision KeyStatus.
Proof. solve_decision. Defined.

(** [issued] are the random UUIDs handed out: no two are the same. *)
Record Db := {
  capsules : gmap (string * Z) CapsuleRow;
  audits : gmap string EvidenceAuditEvent;
  revocations : gmap (string * string) RevocationRow;
  keys : gmap (string * string * string) KeyStatus;
  artifacts : gmap string ArtifactManifest;
  files : gmap path buffer;
  issued : gset string;
}.
Definition set_capsules (m : gmap (string * Z) CapsuleRow) (db : Db) : Db :=
  {| capsules := m; audits := audits db; revocations := revocations db; keys := keys db;
     artifacts := artifacts db; files := files db; issued := issued db |}.
Definition set_audits (m : gmap string EvidenceAuditEvent) (db : Db) : Db :=
  {| capsules := capsules db; audits := m; revocations := revocations db; keys := keys db;
     artifacts := artifacts db; files := files db; issued := issued db |}.
Definition set_revocations (m : gmap (string * string) RevocationRow) (db : Db) : Db :=
  {| capsules := capsules db; audits := audits db; revocations := m; keys := keys db;
     artifacts := artifacts db; files := files db; issued := issued db |}.
Definition set_files (m : gmap path buffer) (db : Db) : Db :=
  {| capsules := capsules db; audits := audits db; revocations := revocations db; keys := keys db;
     artifacts := artifacts db; files := m; issued := issued db |}.
Definition set_issued (s : gset string) (db : Db) : Db :=
  {| capsules := capsules db; audits := audits db; revocations := revocations db; keys := keys db;
     artifacts := artifacts db; files := files db; issued := s |}.

(** ** Statements *)

(** [order by revision desc limit 1] of the rows of a capsule. *)
Definition newer (c : string) (kv : string * Z * CapsuleRow) (best : option (Z * CapsuleRow))
    : option (Z * CapsuleRow) :=
  if String.eqb kv.1.1 c then
    match best with
    | Some b => if (b.1 <? kv.1.2)%Z then Some (kv.1.2, kv.2) else best
    | None => Some (kv.1.2, kv.2)
    end
  else best.
Definition select_capsule (c : string) (db : Db) : option (Z * CapsuleRow) :=
  foldr (newer c) None (map_to_list (capsules db)).

(** [update ... where capsule_id = c and p]: the table and whether a row matched. *)
Definition update_where (c : string) (p : CapsuleRow → bool) (f : CapsuleRow → CapsuleRow)
    (m : gmap (string * Z) CapsuleRow) : gmap (string * Z) CapsuleRow :=
  map_imap (λ k row, Some (if String.eqb k.1 c && p row then f row else row)) m.
Definition matches (c : string) (p : CapsuleRow → bool) (m : gmap (string * Z) CapsuleRow) : bool :=
  existsb (λ kv : string * Z * CapsuleRow, String.eqb kv.1.1 c && p kv.2) (map_to_list m).

Definition in_states (l : list EvidenceLifecycleState) (row : CapsuleRow) : bool :=
  bool_decide (c_state row ∈ l).
Definition lifecycleUpdateValues (to : EvidenceLifecycleState) (occurredAt reason : string) (row : CapsuleRow)
    : CapsuleRow :=
  let ended := match to with revoked | deleting | deleted => true | _ => false end in
  {| c_caseId := c_caseId row; c_purpose := c_purpose row; c_policyId := c_policyId row;
     c_region := c_region row; c_wrappingKeyId := c_wrappingKeyId row;
     c_state := to; c_ciphertext := c_ciphertext row; c_expiresAt := c_expiresAt row;
     c_revocationState := if ended then "revoked" else c_revocationState row;
     c_revokedAt := if ended then Some occurredAt else c_revokedAt row;
     c_revokedReason := if ended then Some reason else c_revokedReason row;
     c_updatedAt := Some occurredAt;
     c_deletedAt := match to with deleted => Some occurredAt | _ => c_deletedAt row end;
     c_lastError := Some reason |}.
Definition update_lifecycle (c : string) (from : list EvidenceLifecycleState) (to : EvidenceLifecycleState)
    (occurredAt reason : string) (db : Db) : bool * Db :=
  (matches c (in_states from) (capsules db),
   set_capsules (update_where c (in_states from) (lifecycleUpdateValues to occurredAt reason) (capsules db)) db).

Definition no_ciphertext (row : CapsuleRow) : CapsuleRow :=
  {| c_caseId := c_caseId row; c_purpose := c_purpose row; c_policyId := c_policyId row;
     c_region := c_region row; c_wrappingKeyId := c_wrappingKeyId row;
     c_state := c_state row; c_ciphertext := None; c_expiresAt := c_expiresAt row;
     c_revocationState := c_revocationState row; c_revokedAt := c_revokedAt row;
     c_revokedReason := c_revokedReason row; c_updatedAt := c_updatedAt row;
     c_deletedAt := c_deletedAt row; c_lastError := c_lastError row |}.
Definition erase_ciphertext (c : string) (db : Db) : Db :=
  set_capsules (update_where c (in_states [deleting]) no_ciphertext (capsules db)) db.

(** [on conflict do nothing] *)
Definition insert_audit (e : EvidenceAuditEvent) (db : Db) : Db :=
  match audits db !! auditId e with
  | Some _ => db
  | None => set_audits (<[auditId e := e]> (audits db)) db
  end.
Definition insert_audits (l : list EvidenceAuditEvent) (db : Db) : Db :=
  foldl (λ db e, insert_audit e db) db l.
Definition upsert_revocation (tenant c : string) (row : RevocationRow) (db : Db) : Db :=
  set_revocations (<[(tenant, c) := row]> (revocations db)) db.
Definition select_revocation (tenant scope c : string) (db : Db) : bool :=
  match revocations db !! (tenant, c) with Some row => String.eqb (rev_scopeId row) scope | None => false end.

Definition delete_file (p : path) (db : Db) : Db := set_files (delete p (files db)) db.

(** ** The artifact a request names

    [joins]: the case and the policy that the tables of missions, jobs, uploads and
    encryption profiles tie to an artifact, if they do. *)
Record AuthorizedArtifactKey := { key_projectId : string; key_runId : string; key_artifactId : string }.
Record AuthorizedEvidenceArtifact := {
  manifest : ArtifactManifest; evidenceCaseId : string; evidencePolicyId : string;
}.
Definition select_authorized (joins : AuthorizedArtifactKey → option (string * string))
    (key : AuthorizedArtifactKey) (db : Db) : option AuthorizedEvidenceArtifact :=
  match artifacts db !! key_artifactId key, joins key with
  | Some m, Some (case, policy) =>
      if String.eqb (am_runId m) (key_runId key)
      then Some {| manifest := m; evidenceCaseId := case; evidencePolicyId := policy |} else None
  | _, _ => None
  end.

(** ** Calls *)
Inductive Call : Type → Type :=
  | Now : Call string
  | RandomUuid : Call string
  | SelectAuthorized (key : AuthorizedArtifactKey) : Call (outcome Thrown (option AuthorizedEvidenceArtifact))
  | SelectCapsule (c : string) : Call (outcome Thrown (option (Z * CapsuleRow)))
  | UpdateLifecycle (c : string) (from : list EvidenceLifecycleState) (to : EvidenceLifecycleState)
      (occurredAt reason : string) : Call (outcome Thrown bool)
  | SelectUnrevoked (c : string) : Call (outcome Thrown bool)
  | EraseCiphertext (c : string) : Call (outcome Thrown unit)
  | InsertAudit (e : EvidenceAuditEvent) : Call (outcome Thrown unit)
  | Begin : Call (outcome Thrown unit)
  | InsertPending (e : EvidenceAuditEvent) : Call (outcome Thrown unit)
  | Commit (l : list EvidenceAuditEvent) : Call (outcome Thrown unit)
  | SelectRevocation (tenant scope c : string) : Call (outcome Thrown bool)
  | UpsertRevocation (tenant c : string) (row : RevocationRow) : Call (outcome Thrown unit)
  | SelectKey (tenant scope keyId : string) : Call (outcome Thrown (option KeyStatus))
  | ReadFile (p : path) : Call (outcome Thrown buffer)
  | DeleteFile (p : path) : Call (outcome Thrown unit).

Definition M : Type → Type := prog Call Thrown.
Definition call {B} (e : Call (outcome Thrown B)) : M B := o ← ask e; lift_outcome o.
(** [try { ... } catch]: what was thrown is a value. *)
Fixpoint attempt {A} (p : M A) : M (outcome Thrown A) :=
  match p with
  | Ret a => Ret (Ok a)
  | Fail e => Ret (Throw e)
  | Vis e k => Vis e (λ b, attempt (k b))
  end.

Section services.
Context (sha256Hex : string → string).
(** The tenant, the file store's root, the policy of the KMS's profile, and whether
    the KMS has a [revokeForScope]. *)
Context (tenant : string) (root : path) (kmsPolicyId : string) (has_revokeForScope : bool).

(** ** The file store *)
Definition safe_path (rel : string) : option path :=
  match below root (resolve root rel) with
  | Some (seg :: _) => if str_startsWith seg ".." then None else Some (resolve root rel)
  | _ => None
  end.
Definition resolveSafePathFromRelative (rel : string) : M path :=
  match safe_path rel with Some p => Ret p | None => Fail OtherError end.
Definition artifactStore_read (m : ArtifactManifest) : M buffer :=
  p ← resolveSafePathFromRelative (am_relativePath m);
  bytes ← call (ReadFile p);
  if String.eqb (sha256Hex (string_of bytes)) (am_sha256 m) then mret bytes else Fail OtherError.
(** [rm] with [force]: a file that is not there is no error. *)
Definition artifactStore_delete (m : ArtifactManifest) : M unit :=
  p ← resolveSafePathFromRelative (am_relativePath m); call (DeleteFile p).

(** ** The keys *)
Definition scopeId (tenantId caseId region purpose : string) : string :=
  tenantId +:+ "|" +:+ caseId +:+ "|" +:+ region +:+ "|" +:+ purpose.
Fixpoint before_bar (s : string) : string :=
  match s with
  | EmptyString => EmptyString
  | String c s => if Ascii.eqb c "|" then EmptyString else String c (before_bar s)
  end.
Definition tenantFromScopeId (scope : string) : M string :=
  let t := before_bar scope in if String.eqb t "" then Fail OtherError else Ret t.

Definition isCapsuleRevoked (scope c : string) : M bool :=
  t ← tenantFromScopeId scope; call (SelectRevocation t scope c).
Definition getByKeyId (keyId scope : string) : M (option KeyStatus) :=
  t ← tenantFromScopeId scope; call (SelectKey t scope keyId).
Definition markCapsuleRevoked (scope : option string) (c reason occurredAt : string) : M unit :=
  match scope with
  | None => Fail OtherError
  | Some scope =>
      t ← tenantFromScopeId scope;
      call (UpsertRevocation t c {| rev_scopeId := scope; rev_reason := reason; rev_revokedAt := occurredAt |})
  end.

Definition check_scope (input : EvidencePlaintextAccessCheck) : string :=
  scopeId (chk_tenantId input) (chk_caseId input) (chk_region input) (chk_purpose input).
(** [assertPlaintextAccess] of a KMS that is available and has no audit sink, as the
    server builds it. *)
Definition assertPlaintextAccess (input : EvidencePlaintextAccessCheck) : M unit :=
  let id := check_scope input in
  _ ← fail_if (negb (String.eqb (chk_policyId input) kmsPolicyId)) (KmsError KmsScopeDenied);
  isRevoked ← isCapsuleRevoked id (chk_capsuleId input);
  _ ← fail_if isRevoked (KmsError KmsKeyRevoked);
  version ← getByKeyId (chk_keyVersion input) id;
  match version with
  | None => Fail (KmsError KmsScopeDenied)
  | Some status => fail_if (negb (bool_decide (status = key_active))) (KmsError KmsKeyRevoked)
  end.
Definition revoke (c reason : string) : M unit :=
  occurredAt ← ask Now; markCapsuleRevoked None c reason occurredAt.
Definition revokeForScope (input : EvidencePlaintextAccessCheck) (reason : string) : M unit :=
  occurredAt ← ask Now; markCapsuleRevoked (Some (check_scope input)) (chk_capsuleId input) reason occurredAt.

(** ** The lifecycle store *)
Definition to_record (c : string) (row : CapsuleRow) : EvidenceLifecycleRecord :=
  {| capsuleId := c; tenantId := tenant; caseId := c_caseId row; region := c_region row;
     purpose := c_purpose row; policyId := c_policyId row; keyVersion := c_wrappingKeyId row;
     state := c_state row;
     ciphertextPresent := match c_ciphertext row with Some _ => true | None => false end;
     expiresAt := Some (c_expiresAt row) |}.
Definition load (c : string) : M (option EvidenceLifecycleRecord) :=
  row ← call (SelectCapsule c);
  mret (fmap (M := option) (λ r : Z * CapsuleRow, to_record c r.2) row).

Inductive TransitionResult := advanced | already_current | conflict | not_found.
Definition transition (c : string) (from : list EvidenceLifecycleState) (to : EvidenceLifecycleState)
    (occurredAt reason : string) : M TransitionResult :=
  updated ← call (UpdateLifecycle c from to occurredAt reason);
  if updated : bool then mret advanced else
    current ← call (SelectCapsule c);
    mret match current with
         | None => not_found
         | Some r => if bool_decide (c_state r.2 = to) then already_current else conflict
         end.
Definition store_deleteCiphertext (c : string) : M unit :=
  unrevoked ← call (SelectUnrevoked c);
  _ ← fail_if unrevoked OtherError;
  call (EraseCiphertext c).
Definition record (e : EvidenceAuditEvent) : M unit :=
  if String.eqb (ev_tenantId e) tenant then call (InsertAudit e) else Fail OtherError.

Definition audit_event (id : string) (r : EvidenceLifecycleRecord) (actor : EvidenceLifecycleActor)
    (op : AuditOperation) (dec : AuditDecision) (reason occurredAt : string) : EvidenceAuditEvent :=
  {| auditId := id; ev_actor := actor; ev_tenantId := tenantId r; ev_caseId := caseId r;
     ev_capsuleId := capsuleId r; ev_keyVersion := keyVersion r; ev_purpose := purpose r;
     operation := op; decision := dec; reasonCode := reason; ev_occurredAt := occurredAt |}.

(** ** Erasing evidence *)
Definition audit (r : EvidenceLifecycleRecord) (actor : EvidenceLifecycleActor) (op : AuditOperation)
    (dec : AuditDecision) (reason occurredAt : string) : M unit :=
  id ← ask RandomUuid; record (audit_event id r actor op dec reason occurredAt).

Definition requireRecord (c : string) : M EvidenceLifecycleRecord :=
  r ← load c;
  match r with Some r => mret r | None => Fail (LifecycleError EvidenceCapsuleNotFound) end.
Definition advance (c : string) (from : list EvidenceLifecycleState) (to : EvidenceLifecycleState)
    (occurredAt reason : string) : M unit :=
  result ← transition c from to occurredAt reason;
  match result with
  | advanced | already_current => mret tt
  | not_found => Fail (LifecycleError EvidenceCapsuleNotFound)
  | conflict => Fail (LifecycleError EvidenceLifecycleConflict)
  end.

Definition plaintext_check (r : EvidenceLifecycleRecord) (c occurredAt : string) : EvidencePlaintextAccessCheck :=
  {| chk_tenantId := tenantId r; chk_caseId := caseId r; chk_region := region r; chk_purpose := purpose r;
     chk_policyId := policyId r; chk_keyVersion := keyVersion r; chk_capsuleId := c; chk_occurredAt := occurredAt |}.

(** The four phases of [deleteEvidence]; each passes on the record it leaves. *)
Definition begin_revoking (input : DeleteEvidenceInput) (current : EvidenceLifecycleRecord) : M EvidenceLifecycleRecord :=
  let c := del_capsuleId input in
  if bool_decide (state current = active) then
    _ ← advance c [active] revoking (del_occurredAt input) (del_reason input); requireRecord c
  else mret current.
Definition revoke_keys (input : DeleteEvidenceInput) (current : EvidenceLifecycleRecord) : M EvidenceLifecycleRecord :=
  let c := del_capsuleId input in
  if bool_decide (state current = revoking) then
    done_ ← attempt (if has_revokeForScope
                     then revokeForScope (plaintext_check current c (del_occurredAt input)) (del_reason input)
                     else revoke c (del_reason input));
    match done_ with
    | Throw _ =>
        _ ← audit current (del_actor input) op_revoke dec_failed "EvidenceRevocationFailed" (del_occurredAt input);
        Fail (LifecycleError EvidenceRevocationFailed)
    | Ok _ =>
        _ ← audit current (del_actor input) op_revoke dec_allowed "ok" (del_occurredAt input);
        _ ← advance c [revoking] revoked (del_occurredAt input) (del_reason input);
        requireRecord c
    end
  else mret current.
Definition begin_deleting (input : DeleteEvidenceInput) (current : EvidenceLifecycleRecord) : M EvidenceLifecycleRecord :=
  let c := del_capsuleId input in
  if bool_decide (state current = revoked) then
    _ ← advance c [revoked] deleting (del_occurredAt input) (del_reason input); requireRecord c
  else mret current.
Definition erase (deleteCiphertext : string → M unit) (input : DeleteEvidenceInput) (current : EvidenceLifecycleRecord)
    : M EvidenceLifecycleState :=
  let c := del_capsuleId input in
  if bool_decide (state current = deleting) then
    done_ ← attempt (deleteCiphertext c);
    match done_ with
    | Throw _ =>
        _ ← audit current (del_actor input) op_delete dec_failed "EvidenceDeletionFailed" (del_occurredAt input);
        _ ← advance c [deleting] revoked (del_occurredAt input) (del_reason input);
        Fail (LifecycleError EvidenceDeletionFailed)
    | Ok _ =>
        _ ← audit current (del_actor input) op_delete dec_allowed "ok" (del_occurredAt input);
        _ ← advance c [deleting] deleted (del_occurredAt input) (del_reason input);
        mret deleted
    end
  else Fail (LifecycleError EvidenceLifecycleTerminal).
(** Its result is the state; the capsule it names is the input's. *)
Definition deleteEvidence (deleteCiphertext : string → M unit) (input : DeleteEvidenceInput)
    : M EvidenceLifecycleState :=
  current ← requireRecord (del_capsuleId input);
  if bool_decide (state current = deleted) then mret deleted else
  current ← begin_revoking input current;
  current ← revoke_keys input current;
  current ← begin_deleting input current;
  erase deleteCiphertext input current.

(** ** The transaction of an access request

    A computation in an open transaction: the audit rows it wrote, and whether a
    statement of it was refused, after which PostgreSQL refuses every other one and
    rolls back at the end. *)
Record Tx := { pending : list EvidenceAuditEvent; aborted : bool }.
Definition T (A : Type) : Type := Tx → M (outcome Thrown A * Tx).
#[export] Instance tx_ret : MRet T := λ A a tx, Ret (Ok a, tx).
#[export] Instance tx_bind : MBind T := λ A B k p tx,
  r ← p tx; match r.1 with Ok a => k a r.2 | Throw e => Ret (Throw e, r.2) end.
Definition tx_throw {A} (e : Thrown) : T A := λ tx, Ret (Throw e, tx).
Definition tx_attempt {A} (p : T A) : T (outcome Thrown A) := λ tx, r ← p tx; Ret (Ok r.1, r.2).
Definition tx_statement {B} (e : Call (outcome Thrown B)) : T B := λ tx,
  if aborted tx then Ret (Throw OtherError, tx)
  else o ← ask e;
       Ret (o, match o with Ok _ => tx | Throw _ => {| pending := pending tx; aborted := true |} end).
(** What runs outside the transaction. *)
Definition tx_outside {A} (p : M A) : T A := λ tx, o ← attempt p; Ret (o, tx).

Definition tx_load (c : string) : T (option EvidenceLifecycleRecord) :=
  row ← tx_statement (SelectCapsule c);
  mret (fmap (M := option) (λ r : Z * CapsuleRow, to_record c r.2) row).
Definition tx_pend (e : EvidenceAuditEvent) : T unit :=
  λ tx, Ret (Ok tt, {| pending := pending tx ++ [e]; aborted := aborted tx |}).
Definition tx_record (e : EvidenceAuditEvent) : T unit :=
  if String.eqb (ev_tenantId e) tenant then _ ← tx_statement (InsertPending e); tx_pend e
  else tx_throw OtherError.

(** ** Reading evidence *)
Definition access_audit (r : EvidenceLifecycleRecord) (actor : EvidenceLifecycleActor) (op : AuditOperation)
    (dec : AuditDecision) (reason occurredAt : string) : T unit :=
  id ← tx_outside (ask RandomUuid);
  recorded ← tx_attempt (tx_record (audit_event id r actor op dec reason occurredAt));
  match recorded with Ok _ => mret tt | Throw _ => tx_throw (LifecycleError EvidenceAuditUnavailable) end.

(** [a < b] of two texts. *)
Definition text_before (a b : string) : bool := negb (CanonicalJson.key_leb b a).
Definition isPlaintextAllowed (r : EvidenceLifecycleRecord) (now : string) : bool :=
  bool_decide (state r = active) && ciphertextPresent r &&
  match expiresAt r with None => true | Some e => text_before now e end.
Definition denialReason (r : EvidenceLifecycleRecord) (now : string) : string :=
  if negb (bool_decide (state r = active)) then "EvidenceLifecycleNotActive"
  else if negb (ciphertextPresent r) then "EvidenceCiphertextMissing"
  else if match expiresAt r with None => false | Some e => negb (text_before now e) end then "EvidenceExpired"
  else "EvidenceAccessDenied".

Definition in_scope (r : EvidenceLifecycleRecord) (input : AuthorizeEvidenceAccessInput) : bool :=
  String.eqb (tenantId r) (acc_tenantId input) && String.eqb (caseId r) (acc_caseId input) &&
  String.eqb (purpose r) (acc_purpose input) && String.eqb (policyId r) (acc_policyId input).
Definition loadAndValidateScope (input : AuthorizeEvidenceAccessInput) : T EvidenceLifecycleRecord :=
  loaded ← tx_attempt (tx_load (acc_capsuleId input));
  match loaded with
  | Throw _ => tx_throw (LifecycleError EvidenceAccessUnavailable)
  | Ok None => tx_throw (LifecycleError EvidenceCapsuleNotFound)
  | Ok (Some r) =>
      if in_scope r input then mret r
      else _ ← access_audit r (acc_actor input) op_unwrap dec_denied "EvidenceScopeMismatch" (acc_occurredAt input);
           tx_throw (LifecycleError EvidenceAccessDenied)
  end.
Definition preparePlaintext (input : AuthorizeEvidenceAccessInput) : T EvidenceLifecycleRecord :=
  r ← loadAndValidateScope input;
  if negb (isPlaintextAllowed r (acc_occurredAt input)) then
    _ ← access_audit r (acc_actor input) op_unwrap dec_denied (denialReason r (acc_occurredAt input)) (acc_occurredAt input);
    tx_throw (LifecycleError EvidenceAccessDenied)
  else
    checked ← tx_attempt (tx_outside (assertPlaintextAccess
                (plaintext_check r (capsuleId r) (acc_occurredAt input))));
    match checked with
    | Throw _ =>
        _ ← access_audit r (acc_actor input) op_unwrap dec_failed "EvidenceKmsUnavailable" (acc_occurredAt input);
        tx_throw (LifecycleError EvidenceAccessUnavailable)
    | Ok _ => mret r
    end.
Definition access_result (r : EvidenceLifecycleRecord) (allowed : bool) : AuthorizeEvidenceAccessResult :=
  {| res_capsuleId := capsuleId r; res_state := state r; downloadAllowed := allowed |}.
Definition allow_plaintext (input : AuthorizeEvidenceAccessInput) (r : EvidenceLifecycleRecord)
    : T AuthorizeEvidenceAccessResult :=
  _ ← access_audit r (acc_actor input) op_unwrap dec_allowed "plaintext_access" (acc_occurredAt input);
  mret (access_result r true).
Definition authorizePlaintext (input : AuthorizeEvidenceAccessInput) : T AuthorizeEvidenceAccessResult :=
  r ← preparePlaintext input; allow_plaintext input r.
Definition recordPlaintextAccessAllowed (input : AuthorizeEvidenceAccessInput) (prepared : EvidenceLifecycleRecord)
    : T AuthorizeEvidenceAccessResult :=
  r ← preparePlaintext input;
  if negb (String.eqb (keyVersion r) (keyVersion prepared)) then
    _ ← access_audit r (acc_actor input) op_unwrap dec_denied "EvidenceKeyChanged" (acc_occurredAt input);
    tx_throw (LifecycleError EvidenceAccessDenied)
  else allow_plaintext input r.
Definition authorizeMetadata (input : AuthorizeEvidenceAccessInput) : T AuthorizeEvidenceAccessResult :=
  r ← loadAndValidateScope input;
  _ ← access_audit r (acc_actor input) op_profile dec_allowed "metadata_access" (acc_occurredAt input);
  mret (access_result r (isPlaintextAllowed r (acc_occurredAt input))).

(** ** The routes *)
Definition EVIDENCE_PURPOSE : string := "investigation".

(** [withTenant(stores => { try { ok } catch { cause } })]: what the operation throws
    does not undo its audit rows. *)
Definition runEvidenceAccess {A} (operation : T A) : M (outcome Thrown A) :=
  _ ← call Begin;
  r ← operation {| pending := []; aborted := false |};
  _ ← call (Commit (if aborted r.2 then [] else pending r.2));
  mret r.1.
Definition translateAccessOutcome {A} (o : outcome Thrown A) : M A :=
  match o with
  | Ok a => mret a
  | Throw (LifecycleError EvidenceCapsuleNotFound) | Throw (LifecycleError EvidenceAccessDenied) => Fail ApiNotFound
  | Throw _ => Fail ApiUnavailable
  end.

Record EvidenceRequest := { req_artifact : AuthorizedEvidenceArtifact; req_actorId : string; req_correlationId : string }.
Definition evidenceActor (req : EvidenceRequest) : EvidenceLifecycleActor :=
  {| actorType := user; actorId := req_actorId req; correlationId := req_correlationId req |}.
Definition req_capsuleId (req : EvidenceRequest) : string := am_artifactId (manifest (req_artifact req)).
Definition accessRequest (req : EvidenceRequest) : M AuthorizeEvidenceAccessInput :=
  now ← ask Now;
  mret {| acc_capsuleId := req_capsuleId req; acc_tenantId := tenant;
          acc_caseId := evidenceCaseId (req_artifact req); acc_purpose := EVIDENCE_PURPOSE;
          acc_policyId := evidencePolicyId (req_artifact req); acc_actor := evidenceActor req;
          acc_occurredAt := now |}.
(** The request is read inside the transaction. *)
Definition on_request {A} (operation : AuthorizeEvidenceAccessInput → T A) (req : EvidenceRequest) : M A :=
  o ← runEvidenceAccess (input ← tx_outside (accessRequest req); operation input);
  translateAccessOutcome o.
Definition authorizeEvidenceAccess : EvidenceRequest → M AuthorizeEvidenceAccessResult := on_request authorizeMetadata.
Definition prepareEvidencePlaintextAccess : EvidenceRequest → M EvidenceLifecycleRecord := on_request preparePlaintext.
Definition recordEvidencePlaintextAccess (prepared : EvidenceLifecycleRecord) : EvidenceRequest → M AuthorizeEvidenceAccessResult :=
  on_request (λ input, recordPlaintextAccessAllowed input prepared).

(** [deleteCiphertext] of the store of one request. *)
Definition operation_deleteCiphertext (m : ArtifactManifest) (c : string) : M unit :=
  if String.eqb c (am_artifactId m)
  then _ ← artifactStore_delete m; store_deleteCiphertext c
  else Fail OtherError.
Definition route_deleteEvidence (req : EvidenceRequest) : M EvidenceLifecycleState :=
  o ← attempt (now ← ask Now;
               deleteEvidence (operation_deleteCiphertext (manifest (req_artifact req)))
                 {| del_capsuleId := req_capsuleId req; del_reason := "public_api_delete";
                    del_actor := evidenceActor req; del_occurredAt := now |});
  match o with
  | Ok s => mret s
  | Throw (LifecycleError EvidenceCapsuleNotFound) => Fail ApiNotFound
  | Throw _ => Fail ApiUnavailable
  end.

(** What a client asks, once it is authenticated and its role is checked. *)
Inductive Verb := get_metadata | get_bytes | delete_artifact.
Inductive Reply :=
  | metadata (m : ArtifactManifest) (allowed : bool)
  | bytes (b : buffer)
  | lifecycleState (s : EvidenceLifecycleState)
  | failure (e : Thrown).
Definition handle (verb : Verb) (req : EvidenceRequest) : M Reply :=
  match verb with
  | get_metadata => access ← authorizeEvidenceAccess req; mret (metadata (manifest (req_artifact req)) (downloadAllowed access))
  | get_bytes =>
      prepared ← prepareEvidencePlaintextAccess req;
      content ← attempt (artifactStore_read (manifest (req_artifact req)));
      match content with
      | Throw _ => Fail ApiUnavailable
      | Ok content => _ ← recordEvidencePlaintextAccess prepared req; mret (bytes content)
      end
  | delete_artifact => s ← route_deleteEvidence req; mret (lifecycleState s)
  end.
Definition serve (verb : Verb) (key : AuthorizedArtifactKey) (actorId correlationId : string) : M Reply :=
  o ← attempt (
    artifact ← call (SelectAuthorized key);
    match artifact with
    | None => Fail ApiNotFound
    | Some artifact =>
        handle verb {| req_artifact := artifact; req_actorId := actorId; req_correlationId := correlationId |}
    end);
  mret match o with Ok r => r | Throw e => failure e end.

End services.
End Evidence.
