(* ===== verification/EvidenceTables.v ===== *)
(** * Evidence: the tables

    What the statements of [Evidence] do to the rows, and the order in which the
    tables grow: a capsule keeps the columns that say what it is, its ciphertext
    and its file never come back, audit rows and revocations stay. *)
From S2P Require Import Prelude Number Json Interact ArtifactUpload Evidence.
Import ArtifactUpload(ArtifactManifest, am_artifactId, am_runId, am_relativePath, am_sha256, string_of).

Module EvidenceTables.
Import Evidence.

(** ** One capsule's rows *)
Lemma newer_spec c l b :
  NoDup l.*1 → foldr (newer c) None l = Some b →
  ((c, b.1), b.2) ∈ l ∧ ∀ rev row, ((c, rev), row) ∈ l → (rev <= b.1)%Z.
Proof.
  revert b. induction l as [|[[c' rev'] row'] l IH]; intros b; [done|]. cbn [foldr fmap list_fmap].
  intros [Hn Hl]%NoDup_cons. unfold newer at 1. cbn [fst snd]. destruct (String.eqb_spec c' c) as [-> |Hc].
  - destruct (foldr (newer c) None l) as [b'|] eqn:Hf.
    + destruct (IH _ Hl eq_refl) as [Hin Hmax]. destruct (Z.ltb_spec b'.1 rev') as [Hlt|Hge].
      * intros [= <-]. cbn. split; [by left|]. intros rev row [[= -> ->]|H]%elem_of_cons; [lia|].
        apply Hmax in H. lia.
      * intros [= <-]. split; [by right|]. intros rev row [[= -> ->]|H]%elem_of_cons; [lia|by eapply Hmax].
    + intros [= <-]. cbn. split; [by left|]. intros rev row [[= -> ->]|H]%elem_of_cons; [lia|].
      exfalso. clear -H Hf. induction l as [|kv l IH]; [by apply elem_of_nil in H|]. cbn in Hf.
      apply elem_of_cons in H as [<- |H].
      * unfold newer in Hf. cbn in Hf. rewrite String.eqb_refl in Hf. by repeat case_match.
      * apply IH; [|done]. unfold newer in Hf. by repeat case_match.
  - intros Hb. destruct (IH _ Hl Hb) as [Hin Hmax]. split; [by right|].
    intros rev row [[= -> ->]|H]%elem_of_cons; [done|by eapply Hmax].
Qed.
Lemma newer_None c l rev row : foldr (newer c) None l = None → ((c, rev), row) ∉ l.
Proof.
  induction l as [|kv l IH]; intros Hf; [apply not_elem_of_nil|]. cbn in Hf.
  apply not_elem_of_cons. split.
  - intros <-. unfold newer in Hf. cbn in Hf. rewrite String.eqb_refl in Hf. by repeat case_match.
  - apply IH. unfold newer in Hf. by repeat case_match.
Qed.

Lemma select_capsule_Some c db rev row :
  select_capsule c db = Some (rev, row) ↔
  capsules db !! (c, rev) = Some row ∧ ∀ rev' row', capsules db !! (c, rev') = Some row' → (rev' <= rev)%Z.
Proof.
  unfold select_capsule. pose proof (NoDup_fst_map_to_list (capsules db)) as Hn. split.
  - intros H. destruct (newer_spec c _ _ Hn H) as [Hin Hmax]. split; [by apply elem_of_map_to_list|].
    intros rev' row' Hl. apply (Hmax rev' row'). by apply elem_of_map_to_list.
  - intros [Hl Hmax]. destruct (foldr _ _ _) as [[rev' row']|] eqn:Hf.
    + destruct (newer_spec c _ _ Hn Hf) as [Hin%elem_of_map_to_list Hmax']. cbn in *.
      apply Hmax in Hin as Hle. apply elem_of_map_to_list, Hmax' in Hl as Hle'.
      assert (rev' = rev) as -> by lia. apply elem_of_map_to_list in Hl. congruence.
    + exfalso. eapply newer_None; [exact Hf|]. by apply elem_of_map_to_list.
Qed.
Lemma select_capsule_None c db rev : select_capsule c db = None → capsules db !! (c, rev) = None.
Proof.
  intros H. destruct (capsules db !! (c, rev)) as [row|] eqn:E; [|done].
  exfalso. eapply newer_None; [exact H|]. by apply elem_of_map_to_list.
Qed.

Lemma update_where_lookup c p f m k :
  update_where c p f m !! k =
  (λ row, if String.eqb k.1 c && p row then f row else row) <$> m !! k.
Proof. unfold update_where. rewrite map_lookup_imap. by destruct (m !! k). Qed.
Lemma matches_true c p m : matches c p m = true ↔ ∃ rev row, m !! (c, rev) = Some row ∧ p row = true.
Proof.
  unfold matches. rewrite existsb_exists. split.
  - intros ([[c' rev] row] & Hin%list_elem_of_In & [Hc%String.eqb_eq Hp]%andb_true_iff). cbn in *. subst.
    exists rev, row. by apply elem_of_map_to_list in Hin.
  - intros (rev & row & Hl & Hp). exists ((c, rev), row). split.
    + by apply list_elem_of_In, elem_of_map_to_list.
    + cbn. by rewrite String.eqb_refl.
Qed.

End EvidenceTables.
