(* ===== verification/EvidenceSafety.v ===== *)
(** * Evidence: nothing is erased before it is unreadable

    Any number of requests of [Evidence] run over one tenant's tables, keys and
    files; each may crash at any call, and the database and the file system may
    refuse any call, after doing its work or before. *)
From S2P Require Import Prelude Number Json Interact ArtifactUpload Evidence EvidenceTables.
Import ArtifactUpload(ArtifactManifest, am_artifactId, am_runId, am_relativePath, am_sha256, string_of).

Module EvidenceSafety.
Import Evidence EvidenceTables.

(** ** What the stores answer *)
Definition db_reads {B} (f : Db → B) (db : Db) (o : outcome Thrown B) (db' : Db) : Prop :=
  (o = Ok (f db) ∨ o = Throw OtherError) ∧ db' = db.
(** A write that is refused may have been carried out all the same. *)
Definition db_writes {B} (f : Db → B * Db) (db : Db) (o : outcome Thrown B) (db' : Db) : Prop :=
  (o = Ok (f db).1 ∧ db' = (f db).2) ∨ (o = Throw OtherError ∧ (db' = db ∨ db' = (f db).2)).

Section safety.
Context (tenant : string) (root : path) (joins : AuthorizedArtifactKey → option (string * string)).

Definition answers (B : Type) (e : Call B) : Db → B → Db → Prop :=
  match e in Call B return Db → B → Db → Prop with
  | Now => λ db _ db', db' = db
  | RandomUuid => λ db id db', id ∉ issued db ∧ db' = set_issued ({[id]} ∪ issued db) db
  | SelectAuthorized key => db_reads (select_authorized joins key)
  | SelectCapsule c => db_reads (select_capsule c)
  | UpdateLifecycle c from to occurredAt reason => db_writes (update_lifecycle c from to occurredAt reason)
  | SelectUnrevoked c => db_reads (λ db, matches c (in_states [active; revoking]) (capsules db))
  | EraseCiphertext c => db_writes (λ db, (tt, erase_ciphertext c db))
  | InsertAudit e => db_writes (λ db, (tt, insert_audit e db))
  | Begin | InsertPending _ => db_reads (λ _, tt)
  | Commit l => db_writes (λ db, (tt, insert_audits l db))
  | SelectRevocation t scope c => db_reads (select_revocation t scope c)
  | UpsertRevocation t c row => db_writes (λ db, (tt, upsert_revocation t c row db))
  | SelectKey t scope keyId => db_reads (λ db, keys db !! (t, scope, keyId))
  | ReadFile p => λ db o db',
      db' = db ∧ match o with Ok b => files db !! p = Some b | Throw e => e = OtherError end
  | DeleteFile p => db_writes (λ db, (tt, delete_file p db))
  end.
Definition midway (B : Type) (e : Call B) (db db' : Db) : Prop := False.

(** ** What is remembered of a call *)
Inductive Note :=
  | n_uuid (id : string)
  | n_authorized (key : AuthorizedArtifactKey) (o : outcome Thrown (option AuthorizedEvidenceArtifact))
  | n_load (c : string) (o : outcome Thrown (option (Z * CapsuleRow)))
  | n_erased (c : string) (o : outcome Thrown unit)
  | n_inserted (e : EvidenceAuditEvent) (o : outcome Thrown unit)
  | n_pending (e : EvidenceAuditEvent) (o : outcome Thrown unit)
  | n_commit (l : list EvidenceAuditEvent) (o : outcome Thrown unit)
  | n_revocation (t scope c : string) (o : outcome Thrown bool)
  | n_mark (t c : string) (row : RevocationRow) (o : outcome Thrown unit)
  | n_key (t scope keyId : string) (o : outcome Thrown (option KeyStatus))
  | n_read (p : path) (o : outcome Thrown buffer)
  | n_deleted (p : path) (o : outcome Thrown unit)
  | n_now (at_ : string)
  | n_other.
Definition note (B : Type) (e : Call B) : B → Note :=
  match e in Call B return B → Note with
  | RandomUuid => n_uuid
  | SelectAuthorized key => n_authorized key
  | SelectCapsule c => n_load c
  | EraseCiphertext c => n_erased c
  | InsertAudit e => n_inserted e
  | InsertPending e => n_pending e
  | Commit l => n_commit l
  | SelectRevocation t scope c => n_revocation t scope c
  | UpsertRevocation t c row => n_mark t c row
  | SelectKey t scope keyId => n_key t scope keyId
  | ReadFile p => n_read p
  | DeleteFile p => n_deleted p
  | Now => n_now
  | _ => λ _, n_other
  end.

(** ** What the tables say *)

(** Past revocation. *)
Definition ended (s : EvidenceLifecycleState) : bool :=
  match s with active | revoking => false | _ => true end.
Definition all_rows (db : Db) (c : string) (P : CapsuleRow → Prop) : Prop :=
  ∀ rev row, capsules db !! (c, rev) = Some row → P row.
Definition row_scope (row : CapsuleRow) : string :=
  scopeId tenant (c_caseId row) (c_region row) (c_purpose row).

(** The KMS refuses the keys of [c], under the scope of its latest revision. *)
Definition keys_revoked (db : Db) (c : string) : Prop :=
  ∃ rev row rv, select_capsule c db = Some (rev, row) ∧
    revocations db !! (before_bar (row_scope row), c) = Some rv ∧ rev_scopeId rv = row_scope row.
(** The audit trail has a row of this operation on [c]. *)
Definition logged (db : Db) (c : string) (op : AuditOperation) (dec : AuditDecision) : Prop :=
  ∃ id e, audits db !! id = Some e ∧ ev_capsuleId e = c ∧ operation e = op ∧ decision e = dec.
Definition deletion_failed (db : Db) (c : string) : Prop := logged db c op_delete dec_failed.
(** The ciphertext of [c] is gone, unless a deletion failed. *)
Definition ciphertext_gone (db : Db) (c : string) : Prop :=
  deletion_failed db c ∨ all_rows db c (λ row, c_ciphertext row = None).
(** The file of [c] is gone. *)
Definition file_gone (db : Db) (c : string) : Prop :=
  ∀ m p, artifacts db !! c = Some m → safe_path root (am_relativePath m) = Some p → files db !! p = None.
(** [c] was being deleted, and unless a deletion failed it still is or is deleted. *)
Definition was_deleting (db : Db) (c : string) : Prop :=
  deletion_failed db c ∨ all_rows db c (λ row, c_state row = deleting ∨ c_state row = deleted).

(** ** The order in which the tables grow *)
Record evolves (row row' : CapsuleRow) : Prop := {
  ev_case : c_caseId row' = c_caseId row;
  ev_purp : c_purpose row' = c_purpose row;
  ev_policy : c_policyId row' = c_policyId row;
  ev_region : c_region row' = c_region row;
  ev_key : c_wrappingKeyId row' = c_wrappingKeyId row;
  ev_expires : c_expiresAt row' = c_expiresAt row;
  ev_ciphertext : c_ciphertext row = None → c_ciphertext row' = None;
  ev_active : c_state row ≠ active → c_state row' ≠ active;
  ev_ended : ended (c_state row) = true → ended (c_state row') = true;
  ev_final : c_state row = deleted → c_state row' = deleted ∧ c_ciphertext row' = c_ciphertext row;
}.
Record rows_le (db db' : Db) : Prop := {
  le_rows : ∀ k row, capsules db !! k = Some row → ∃ row', capsules db' !! k = Some row' ∧ evolves row row';
  le_dom : ∀ k row', capsules db' !! k = Some row' → ∃ row, capsules db !! k = Some row ∧ evolves row row';
}.
Record le (db db' : Db) : Prop := {
  le_capsules : rows_le db db';
  le_audits : audits db ⊆ audits db';
  le_artifacts : artifacts db' = artifacts db;
  le_files : files db' ⊆ files db;
  le_issued : issued db ⊆ issued db';
  le_revoked : ∀ c, keys_revoked db c → keys_revoked db' c;
  le_deleting : ∀ c, was_deleting db c → was_deleting db' c;
}.

Lemma capsule_evolves_refl row : evolves row row.
Proof. by split. Qed.
Lemma capsule_evolves_trans r1 r2 r3 : evolves r1 r2 → evolves r2 r3 → evolves r1 r3.
Proof.
  intros H1 H2. destruct H1, H2. split; try congruence; auto. intros H. destruct (ev_final0 H). destruct ev_final1; [done|].
  split; congruence.
Qed.
Lemma rows_le_same db db' : capsules db' = capsules db → rows_le db db'.
Proof. intros E. split; rewrite E; intros k row H; by exists row. Qed.
Lemma rows_le_refl db : rows_le db db.
Proof. by apply rows_le_same. Qed.
Lemma rows_le_trans a b c : rows_le a b → rows_le b c → rows_le a c.
Proof.
  intros Hab Hbc. split.
  - intros k row H. destruct (le_rows _ _ Hab _ _ H) as (row1 & H1 & E1).
    destruct (le_rows _ _ Hbc _ _ H1) as (row2 & H2 & E2). exists row2. split; [done|by eapply capsule_evolves_trans].
  - intros k row H. destruct (le_dom _ _ Hbc _ _ H) as (row1 & H1 & E1).
    destruct (le_dom _ _ Hab _ _ H1) as (row2 & H2 & E2). exists row2. split; [done|by eapply capsule_evolves_trans].
Qed.
Lemma evidence_le_refl db : le db db.
Proof. by split; [apply rows_le_refl|..]. Qed.
Lemma evidence_le_trans a b c : le a b → le b c → le a c.
Proof.
  intros Hab Hbc. split; [| | | | |intros; by apply Hbc, Hab..].
  - eapply rows_le_trans; [apply Hab|apply Hbc].
  - etrans; apply le_audits; [exact Hab|done].
  - rewrite (le_artifacts _ _ Hbc). by apply le_artifacts.
  - etrans; apply le_files; [exact Hbc|done].
  - etrans; apply le_issued; [exact Hab|done].
Qed.

Lemma row_scope_evolves row row' : evolves row row' → row_scope row' = row_scope row.
Proof. intros H. unfold row_scope. by rewrite (ev_case _ _ H), (ev_region _ _ H), (ev_purp _ _ H). Qed.
Lemma logged_le db db' c op dec : audits db ⊆ audits db' → logged db c op dec → logged db' c op dec.
Proof. intros Hle (id & e & He & H). exists id, e. split; [|done]. by eapply lookup_weaken. Qed.
Lemma all_rows_le db db' c (P : CapsuleRow → Prop) :
  rows_le db db' → (∀ row row', evolves row row' → P row → P row') → all_rows db c P → all_rows db' c P.
Proof. intros Hle HP H rev row' Hr. destruct (le_dom _ _ Hle _ _ Hr) as (row & Hrow & He). eauto. Qed.
Lemma ciphertext_gone_le db db' c : le db db' → ciphertext_gone db c → ciphertext_gone db' c.
Proof.
  intros Hle [H|H]; [left; eapply logged_le, H; apply Hle|right]. eapply all_rows_le; [apply Hle| |exact H].
  intros row row' He. apply He.
Qed.
Lemma file_absent_le db db' p : le db db' → files db !! p = None → files db' !! p = None.
Proof. intros Hle H. destruct (files db' !! p) eqn:E; [|done]. eapply lookup_weaken in E; [|apply Hle]. congruence. Qed.
Lemma file_gone_le db db' c : le db db' → file_gone db c → file_gone db' c.
Proof. intros Hle H m p Hm Hp. rewrite (le_artifacts _ _ Hle) in Hm. eapply file_absent_le; [exact Hle|eauto]. Qed.
Lemma select_capsule_le db db' c rev row :
  rows_le db db' → select_capsule c db = Some (rev, row) → ∃ row', select_capsule c db' = Some (rev, row') ∧ evolves row row'.
Proof.
  intros Hle [Hr Hmax]%select_capsule_Some. destruct (le_rows _ _ Hle _ _ Hr) as (row' & Hr' & He).
  exists row'. split; [|done]. apply select_capsule_Some. split; [done|]. intros rev1 row1 H1.
  destruct (le_dom _ _ Hle _ _ H1) as (row2 & H2 & _). eauto.
Qed.
Lemma select_capsule_back db db' c rev row' :
  rows_le db db' → select_capsule c db' = Some (rev, row') → ∃ row, select_capsule c db = Some (rev, row) ∧ evolves row row'.
Proof.
  intros Hle [Hr Hmax]%select_capsule_Some. destruct (le_dom _ _ Hle _ _ Hr) as (row & Hr' & He).
  exists row. split; [|done]. apply select_capsule_Some. split; [done|]. intros rev1 row1 H1.
  destruct (le_rows _ _ Hle _ _ H1) as (row2 & H2 & _). eauto.
Qed.


Lemma keys_revoked_le db db' c :
  rows_le db db' → (∀ k rv, revocations db !! k = Some rv → k.2 = c →
    ∃ rv', revocations db' !! k = Some rv' ∧ rev_scopeId rv' = rev_scopeId rv) →
  keys_revoked db c → keys_revoked db' c.
Proof.
  intros Hle Hrev (rev & row & rv & Hs & Hr & Hscope).
  destruct (select_capsule_le _ _ _ _ _ Hle Hs) as (row' & Hs' & He).
  destruct (Hrev _ _ Hr eq_refl) as (rv' & Hr' & Heq).
  exists rev, row', rv'. rewrite (row_scope_evolves _ _ He). split_and!; [done..|congruence].
Qed.

(** ** The invariant of the tables *)
Record sane (db0 db : Db) : Prop := {
  s_uniform : ∀ c r1 r2 row1 row2, capsules db !! (c, r1) = Some row1 → capsules db !! (c, r2) = Some row2 →
    c_state row1 = c_state row2;
  s_artifacts : map_Forall (λ c m, am_artifactId m = c) (artifacts db);
  s_revoke : ∀ c, logged db c op_revoke dec_allowed → keys_revoked db c;
  s_delete : ∀ c, logged db c op_delete dec_allowed → ciphertext_gone db c ∧ file_gone db c;
  s_ended : ∀ c rev row, capsules db !! (c, rev) = Some row → ended (c_state row) = true →
    logged db c op_revoke dec_allowed;
  s_deleted : ∀ c rev row, capsules db !! (c, rev) = Some row → c_state row = deleted →
    logged db c op_delete dec_allowed;
  s_ciphertext : ∀ k row0 row, capsules db0 !! k = Some row0 → c_ciphertext row0 ≠ None →
    capsules db !! k = Some row → c_ciphertext row = None → ended (c_state row) = true;
  s_files : ∀ p, files db0 !! p ≠ None → files db !! p = None → ∃ c m rev row,
    artifacts db !! c = Some m ∧ safe_path root (am_relativePath m) = Some p ∧
    capsules db !! (c, rev) = Some row ∧ ended (c_state row) = true;
}.

(** What a note says of the tables, for good. *)
Definition holds (db : Db) (n : Note) : Prop :=
  match n with
  | n_uuid id => id ∈ issued db
  | n_authorized key (Ok (Some art)) => artifacts db !! key_artifactId key = Some (manifest art)
  | n_load c (Ok (Some (rev, row))) =>
      (∃ row', select_capsule c db = Some (rev, row') ∧ evolves row row') ∧
      (c_state row = deleting → was_deleting db c) ∧
      (ended (c_state row) = true → all_rows db c (λ row', ended (c_state row') = true))
  | n_mark _ c _ (Ok _) => keys_revoked db c
  | n_inserted e (Ok _) => audits db !! auditId e = Some e
  | n_commit l (Ok _) => Forall (λ e, audits db !! auditId e = Some e) l
  | n_erased c (Ok _) => ciphertext_gone db c
  | n_deleted p (Ok _) => files db !! p = None
  | _ => True
  end.
Lemma holds_le db db' n : le db db' → holds db n → holds db' n.
Proof.
  intros Hle. destruct n as [id|key [[art|]|]|c [[[rev row]|]|]|c [|]|e [|]|e o|l [|]|t s c o|t c row [|]|t s k o|p o|p [|]|t|];
    cbn; try done.
  - by apply Hle.
  - by rewrite (le_artifacts _ _ Hle).
  - intros ((row1 & Hs & He) & Hd & Hend). split_and!.
    + destruct (select_capsule_le _ _ _ _ _ (le_capsules _ _ Hle) Hs) as (row2 & Hs2 & He2).
      exists row2. split; [done|by eapply capsule_evolves_trans].
    + intros H. by apply Hle, Hd.
    + intros H. eapply all_rows_le; [apply Hle| |by apply Hend]. intros r r' Hr. apply Hr.
  - by apply ciphertext_gone_le.
  - intros H. eapply lookup_weaken; [exact H|apply Hle].
  - intros H. eapply Forall_impl; [exact H|]. intros e He. eapply lookup_weaken; [exact He|apply Hle].
  - apply Hle.
  - by apply file_absent_le.
Qed.

(** ** The calls a request may make *)
Definition audited (h : list Note) (c : string) (op : AuditOperation) (dec : AuditDecision) : Prop :=
  ∃ e, n_inserted e (Ok tt) ∈ h ∧ ev_capsuleId e = c ∧ operation e = op ∧ decision e = dec.
Definition loaded (h : list Note) (c : string) (s : EvidenceLifecycleState) : Prop :=
  ∃ rev row, n_load c (Ok (Some (rev, row))) ∈ h ∧ c_state row = s.
(** The file of the artifact [c] the request names is [p]. *)
Definition names (h : list Note) (c : string) (p : path) : Prop :=
  ∃ key art, n_authorized key (Ok (Some art)) ∈ h ∧ key_artifactId key = c ∧
    safe_path root (am_relativePath (manifest art)) = Some p.
(** The identifier of an audit row that is being written. *)
Definition live (h : list Note) : option string :=
  match h with
  | n_uuid id :: _ => Some id
  | n_pending _ (Ok _) :: n_uuid id :: _ => Some id
  | _ => None
  end.

(** A change of state, and what must have been done before it. *)
Inductive step_allowed (h : list Note) (c : string)
    : list EvidenceLifecycleState → EvidenceLifecycleState → Prop :=
  | allow_revoking : step_allowed h c [active] revoking
  | allow_revoked : audited h c op_revoke dec_allowed → step_allowed h c [revoking] revoked
  | allow_deleting : step_allowed h c [revoked] deleting
  | allow_back : audited h c op_delete dec_failed → step_allowed h c [deleting] revoked
  | allow_deleted : audited h c op_delete dec_allowed → step_allowed h c [deleting] deleted.

(** An audit row tells the truth. *)
Definition truthful (h : list Note) (e : EvidenceAuditEvent) : Prop :=
  let c := ev_capsuleId e in
  (operation e = op_revoke → decision e = dec_allowed → ∃ t rv, n_mark t c rv (Ok tt) ∈ h) ∧
  (operation e = op_delete → decision e = dec_allowed →
     n_erased c (Ok tt) ∈ h ∧ ∃ p, names h c p ∧ n_deleted p (Ok tt) ∈ h).

Definition allowed (B : Type) (h : list Note) (e : Call B) : Prop :=
  match e with
  | UpdateLifecycle c from to _ _ => step_allowed h c from to
  | InsertAudit e => live h = Some (auditId e) ∧ truthful h e
  | Commit l => l = [] ∨ ∃ e, l = [e] ∧ live h = Some (auditId e) ∧ truthful h e
  | EraseCiphertext c => loaded h c deleting
  | DeleteFile p => ∃ c, names h c p ∧ loaded h c deleting
  | UpsertRevocation t c rv => ∃ rev row, n_load c (Ok (Some (rev, row))) ∈ h ∧
      rev_scopeId rv = row_scope row ∧ t = before_bar (row_scope row)
  | _ => True
  end.
(** What the callee promises. *)
Definition sound (B : Type) (e : Call B) : B → Prop :=
  match e in Call B return B → Prop with
  | SelectAuthorized key => λ o,
      match o with Ok (Some art) => am_artifactId (manifest art) = key_artifactId key | _ => True end
  | _ => λ _, True
  end.

(** ** Every write keeps the invariant *)
Lemma audited_logged db h c op dec : Forall (holds db) h → audited h c op dec → logged db c op dec.
Proof. intros Hh (e & He & H). rewrite Forall_forall in Hh. exists (auditId e), e. split; [exact (Hh _ He)|done]. Qed.

Lemma update_row_evolves h c from to at_ reason row :
  step_allowed h c from to → c_state row ∈ from → evolves row (lifecycleUpdateValues to at_ reason row).
Proof. intros H Hin. split; try done; intros Hs; destruct H; apply list_elem_of_singleton in Hin; rewrite Hin in Hs; done. Qed.
Lemma update_lookup c from to at_ reason db k :
  capsules (update_lifecycle c from to at_ reason db).2 !! k =
  (λ row, if String.eqb k.1 c && in_states from row then lifecycleUpdateValues to at_ reason row else row)
    <$> capsules db !! k.
Proof. apply update_where_lookup. Qed.
(** Each row of the table after an update, from the row it was. *)
Lemma updated_row h c from to at_ reason db k row' :
  step_allowed h c from to → capsules (update_lifecycle c from to at_ reason db).2 !! k = Some row' →
  ∃ row, capsules db !! k = Some row ∧ evolves row row' ∧ c_ciphertext row' = c_ciphertext row ∧
    (row' = row ∧ (k.1 = c → c_state row ∉ from) ∨ k.1 = c ∧ c_state row ∈ from ∧ c_state row' = to).
Proof.
  intros Hs. rewrite update_lookup. intros (row & -> & Hr)%fmap_Some. exists row. split; [done|].
  destruct (String.eqb_spec k.1 c) as [Hk|Hk]; cbn in Hr.
  - unfold in_states in Hr. destruct (bool_decide_reflect (c_state row ∈ from)) as [Hin|Hin].
    + rewrite Hr. split_and!; [by eapply update_row_evolves|done|]. by right.
    + rewrite Hr. split_and!; [apply capsule_evolves_refl|done|]. left. by split.
  - rewrite Hr. split_and!; [apply capsule_evolves_refl|done|]. left. split; [done|]. intros. by destruct Hk.
Qed.
Lemma update_rows_le h c from to at_ reason db :
  step_allowed h c from to → rows_le db (update_lifecycle c from to at_ reason db).2.
Proof.
  intros Hs. split.
  - intros k row Hr.
    destruct (capsules (update_lifecycle c from to at_ reason db).2 !! k) as [row'|] eqn:E.
    + destruct (updated_row _ _ _ _ _ _ _ _ _ Hs E) as (row1 & H1 & He & _). exists row'. split; [done|]. congruence.
    + rewrite update_lookup, Hr in E. done.
  - intros k row' E. destruct (updated_row _ _ _ _ _ _ _ _ _ Hs E) as (row1 & H1 & He & _). by exists row1.
Qed.
Lemma update_le h c from to at_ reason db :
  Forall (holds db) h → step_allowed h c from to → le db (update_lifecycle c from to at_ reason db).2.
Proof.
  intros Hh Hs. pose proof (update_rows_le _ _ _ _ at_ reason db Hs) as Hle. split; try done.
  - intros c'. apply keys_revoked_le; [done|]. intros k rv H _. by exists rv.
  - intros c' [H|H]; [by left|]. destruct (decide (c' = c)) as [-> |Hc].
    + assert (deletion_failed db c ∨ ∀ s, s = deleting ∨ s = deleted → s ∈ from → to = deleting ∨ to = deleted) as [Hf|Hto].
      { destruct Hs as [| | |Hf|]; [right..|left; by eapply audited_logged|right]; intros s0 Hs0 Hin;
          apply list_elem_of_singleton in Hin as ->; naive_solver. }
      { by left. }
      right. intros rev row' Hr. destruct (updated_row _ _ _ _ _ _ _ _ _ Hs Hr) as (row & Hrow & _ & _ & [[-> _]|(_ & Hin & ->)]);
        [by eapply H|]. apply (Hto (c_state row)); [by eapply H|done].
    + right. intros rev row' Hr. destruct (updated_row _ _ _ _ _ _ _ _ _ Hs Hr)
        as (row & Hrow & _ & _ & [[-> _]|[? _]]); [by eapply H|done].
Qed.

Lemma update_sane db0 h c from to at_ reason db :
  sane db0 db → Forall (holds db) h → step_allowed h c from to →
  sane db0 (update_lifecycle c from to at_ reason db).2.
Proof.
  intros HI Hh Hs. pose proof (update_le _ _ _ _ at_ reason _ Hh Hs) as Hle.
  assert (∀ k row', capsules (update_lifecycle c from to at_ reason db).2 !! k = Some row' → _) as Hrow
    by (intros k row'; exact (updated_row _ _ _ _ _ _ _ _ _ Hs)).
  split.
  - intros c' r1 r2 row1 row2 H1 H2. apply Hrow in H1 as (a & Ha & _ & _ & Ha'). apply Hrow in H2 as (b & Hb & _ & _ & Hb').
    pose proof (s_uniform _ _ HI _ _ _ _ _ Ha Hb) as Heq. cbn in *.
    destruct Ha' as [[-> Na]|(Ea & Ia & Ta)], Hb' as [[-> Nb]|(Eb & Ib & Tb)]; [done| | |by rewrite Ta, Tb].
    + destruct (Na Eb). by rewrite Heq.
    + destruct (Nb Ea). by rewrite <- Heq.
  - exact (s_artifacts _ _ HI).
  - intros c' H. apply Hle, (s_revoke _ _ HI), H.
  - intros c' H. destruct (s_delete _ _ HI _ H) as [H1 H2]. split; [by eapply ciphertext_gone_le|exact H2].
  - intros c' rev row' (row & Hr & _ & _ & H)%Hrow Hend. destruct H as [[-> _]|(Hk & Hin & Hto)]; [exact (s_ended _ _ HI _ _ _ Hr Hend)|].
    cbn in Hk. subst c'. rewrite Hto in Hend. destruct Hs as [|Ha| |Ha|Ha]; try done;
      try (apply list_elem_of_singleton in Hin; eapply (s_ended _ _ HI); [exact Hr|by rewrite Hin]).
    exact (audited_logged _ _ _ _ _ Hh Ha).
  - intros c' rev row' (row & Hr & _ & _ & H)%Hrow Hdel. destruct H as [[-> _]|(Hk & Hin & Hto)]; [exact (s_deleted _ _ HI _ _ _ Hr Hdel)|].
    cbn in Hk. subst c'. rewrite Hto in Hdel. destruct Hs as [|Ha| |Ha|Ha]; try done. exact (audited_logged _ _ _ _ _ Hh Ha).
  - intros k row0 row' H0 Hc (row & Hr & He & Hct & _)%Hrow Hn. rewrite Hct in Hn. by eapply He, (s_ciphertext _ _ HI).
  - intros p Hp0 Hp. destruct (s_files _ _ HI _ Hp0 Hp) as (c' & m & rev & row & Hm & Hpath & Hr & Hend).
    destruct (le_rows _ _ (le_capsules _ _ Hle) _ _ Hr) as (row' & Hr' & He).
    exists c', m, rev, row'. split_and!; [done..|]. by apply He.
Qed.

(** *** Erasing a ciphertext *)
Lemma erase_lookup c db k :
  capsules (erase_ciphertext c db) !! k =
  (λ row, if String.eqb k.1 c && in_states [deleting] row then no_ciphertext row else row) <$> capsules db !! k.
Proof. apply update_where_lookup. Qed.
Lemma erased_row c db k row' :
  capsules (erase_ciphertext c db) !! k = Some row' →
  ∃ row, capsules db !! k = Some row ∧ evolves row row' ∧ c_state row' = c_state row ∧
    (row' = row ∧ (k.1 = c → c_state row ≠ deleting) ∨ c_state row = deleting ∧ c_ciphertext row' = None).
Proof.
  rewrite erase_lookup. intros (row & -> & ->)%fmap_Some. exists row. split; [done|]. unfold in_states.
  destruct (String.eqb_spec k.1 c); cbn; [destruct (bool_decide_reflect (c_state row ∈ [deleting])) as [Hin|Hin]|].
  - apply list_elem_of_singleton in Hin. split_and!; [split; cbn; try done; congruence|done|]. by right.
  - split_and!; [apply capsule_evolves_refl|done|]. left. split; [done|]. intros _ H. apply Hin. rewrite H. by left.
  - split_and!; [apply capsule_evolves_refl|done|]. by left.
Qed.
Lemma erase_rows_le c db : rows_le db (erase_ciphertext c db).
Proof.
  split.
  - intros k row Hr. destruct (capsules (erase_ciphertext c db) !! k) as [row'|] eqn:E.
    + destruct (erased_row _ _ _ _ E) as (row1 & H1 & He & _). exists row'. split; [done|]. congruence.
    + rewrite erase_lookup, Hr in E. done.
  - intros k row' E. destruct (erased_row _ _ _ _ E) as (row1 & H1 & He & _). by exists row1.
Qed.
Lemma erase_le c db : le db (erase_ciphertext c db).
Proof.
  pose proof (erase_rows_le c db) as Hle. split; try done.
  - intros c'. apply keys_revoked_le; [done|]. intros k rv H _. by exists rv.
  - intros c' [H|H]; [by left|right]. intros rev row' (row & Hr & _ & -> & _)%erased_row. by eapply H.
Qed.
Lemma erase_sane db0 c db : sane db0 db → sane db0 (erase_ciphertext c db).
Proof.
  intros HI. pose proof (erase_le c db) as Hle. split.
  - intros c' r1 r2 row1 row2 (a & Ha & _ & -> & _)%erased_row (b & Hb & _ & -> & _)%erased_row. by eapply s_uniform.
  - exact (s_artifacts _ _ HI).
  - intros c' H. apply Hle, (s_revoke _ _ HI), H.
  - intros c' H. destruct (s_delete _ _ HI _ H) as [H1 H2]. split; [by eapply ciphertext_gone_le|exact H2].
  - intros c' rev row' (row & Hr & _ & -> & _)%erased_row. by eapply (s_ended _ _ HI).
  - intros c' rev row' (row & Hr & _ & -> & _)%erased_row. by eapply (s_deleted _ _ HI).
  - intros k row0 row' H0 Hc (row & Hr & _ & Hst & H)%erased_row Hn. rewrite Hst.
    destruct H as [[-> _]|[-> _]]; [by eapply (s_ciphertext _ _ HI)|done].
  - intros p Hp0 Hp. destruct (s_files _ _ HI _ Hp0 Hp) as (c' & m & rev & row & Hm & Hpath & Hr & Hend).
    destruct (le_rows _ _ (le_capsules _ _ Hle) _ _ Hr) as (row' & Hr' & He).
    exists c', m, rev, row'. split_and!; [done..|]. by apply He.
Qed.
(** Erasing the ciphertext of a capsule that was being deleted leaves none, unless a
    deletion of it failed. *)
Lemma erase_gone db0 h c db :
  sane db0 db → Forall (holds db) h → loaded h c deleting → ciphertext_gone (erase_ciphertext c db) c.
Proof.
  intros HI Hh (rev & row & Hin & Hst). rewrite Forall_forall in Hh. apply Hh in Hin as (_ & Hd & _).
  destruct (Hd Hst) as [H|H]; [by left|]. destruct (select_capsule c db) as [[rev1 row1]|] eqn:Hsel.
  - apply select_capsule_Some in Hsel as [Hr1 _]. destruct (H _ _ Hr1) as [Hdel|Hdel].
    + right. intros rev2 row2 (row3 & Hr3 & _ & _ & H3)%erased_row. destruct H3 as [[-> Hn]|[_ ?]]; [|done].
      destruct (Hn eq_refl). rewrite <- Hdel. by eapply (s_uniform _ _ HI).
    + eapply ciphertext_gone_le; [apply erase_le|]. by eapply (s_delete _ _ HI), (s_deleted _ _ HI).
  - right. intros rev2 row2 (row3 & Hr3 & _)%erased_row. by rewrite (select_capsule_None _ _ _ Hsel) in Hr3.
Qed.

(** *** Writing an audit row *)
Lemma insert_audit_cases e db :
  insert_audit e db = db ∨ audits db !! auditId e = None ∧ insert_audit e db = set_audits (<[auditId e := e]> (audits db)) db.
Proof. unfold insert_audit. destruct (audits db !! auditId e); auto. Qed.
Lemma insert_audit_le e db : le db (insert_audit e db).
Proof.
  destruct (insert_audit_cases e db) as [-> |[Hn ->]]; [apply evidence_le_refl|].
  assert (audits db ⊆ <[auditId e := e]> (audits db)) as Hle by by apply insert_subseteq.
  split; try done; [by apply rows_le_same|]. intros c [H|H]; [left; by eapply logged_le|by right].
Qed.
Lemma insert_audit_logged e db c op dec :
  logged (insert_audit e db) c op dec →
  logged db c op dec ∨ ev_capsuleId e = c ∧ operation e = op ∧ decision e = dec.
Proof.
  destruct (insert_audit_cases e db) as [-> |[Hn ->]]; [by left|]. intros (id & e' & He & H). cbn in He.
  apply lookup_insert_Some in He as [[_ <-]|[_ He]]; [by right|]. left. by exists id, e'.
Qed.
Lemma insert_audit_frame e db :
  capsules (insert_audit e db) = capsules db ∧ artifacts (insert_audit e db) = artifacts db ∧
  files (insert_audit e db) = files db ∧ issued (insert_audit e db) = issued db.
Proof. by destruct (insert_audit_cases e db) as [-> |[_ ->]]. Qed.
Lemma names_gone h db c p :
  Forall (holds db) h → names h c p → files db !! p = None → file_gone db c.
Proof.
  intros Hh (key & art & Hin & <- & Hp) Hf m p' Hm Hp'. rewrite Forall_forall in Hh. apply Hh in Hin. cbn in Hin.
  congruence.
Qed.
Lemma insert_audit_sane db0 h e db :
  sane db0 db → Forall (holds db) h → truthful h e → sane db0 (insert_audit e db).
Proof.
  intros HI Hh [Hrev Hdel]. pose proof (insert_audit_le e db) as Hle.
  destruct (insert_audit_frame e db) as (Ec & Ea & Ef & _). pose proof Hh as Hall. rewrite Forall_forall in Hall.
  split; rewrite ?Ec, ?Ea, ?Ef.
  - apply HI.
  - apply HI.
  - intros c [H|(<- & Hop & Hdec)]%insert_audit_logged; [apply Hle, (s_revoke _ _ HI), H|].
    destruct (Hrev Hop Hdec) as (t & rv & Hin). apply Hle. exact (Hall _ Hin).
  - intros c H. assert (ciphertext_gone db c ∧ file_gone db c) as [H1 H2].
    { apply insert_audit_logged in H as [H|(<- & Hop & Hdec)]; [by apply (s_delete _ _ HI)|].
      destruct (Hdel Hop Hdec) as (Her & p & Hn & Hf). split; [exact (Hall _ Her)|].
      eapply names_gone; [done..|]. exact (Hall _ Hf). }
    split; [by eapply ciphertext_gone_le|by eapply file_gone_le].
  - intros c rev row Hr Hend. eapply logged_le; [apply Hle|by eapply (s_ended _ _ HI)].
  - intros c rev row Hr Hend. eapply logged_le; [apply Hle|by eapply (s_deleted _ _ HI)].
  - apply HI.
  - apply HI.
Qed.

(** *** Revoking the keys of a capsule *)
Definition revocation_allowed (h : list Note) (t c : string) (rv : RevocationRow) : Prop :=
  ∃ rev row, n_load c (Ok (Some (rev, row))) ∈ h ∧ rev_scopeId rv = row_scope row ∧ t = before_bar (row_scope row).
Lemma upsert_revoked h t c rv db :
  Forall (holds db) h → revocation_allowed h t c rv → keys_revoked (upsert_revocation t c rv db) c.
Proof.
  intros Hh (rev & row & Hin & Hs & Ht). rewrite Forall_forall in Hh. apply Hh in Hin as ((row' & Hsel & He) & _).
  exists rev, row', rv. rewrite (row_scope_evolves _ _ He). split_and!; [done| |done]. cbn. subst t. apply lookup_insert_eq.
Qed.
Lemma upsert_le h t c rv db :
  Forall (holds db) h → revocation_allowed h t c rv → le db (upsert_revocation t c rv db).
Proof.
  intros Hh Ha. split; try done; [by apply rows_le_same|]. intros c' H. destruct (decide (c' = c)) as [-> |Hc].
  { by eapply upsert_revoked. }
  destruct H as (rev & row & rv' & Hsel & Hr & Hs). exists rev, row, rv'. split_and!; [done| |done]. cbn.
  rewrite lookup_insert_ne; [done|]. congruence.
Qed.
Lemma upsert_sane db0 h t c rv db :
  sane db0 db → Forall (holds db) h → revocation_allowed h t c rv → sane db0 (upsert_revocation t c rv db).
Proof.
  intros HI Hh Ha. pose proof (upsert_le _ _ _ _ _ Hh Ha) as Hle. split; try apply HI.
  intros c' H. apply Hle, (s_revoke _ _ HI), H.
Qed.

(** *** Deleting a file *)
Lemma delete_file_le p db : le db (delete_file p db).
Proof. split; try done; [by apply rows_le_same|]. apply delete_subseteq. Qed.
Lemma delete_file_sane db0 h p c db :
  sane db0 db → Forall (holds db) h → names h c p → loaded h c deleting → sane db0 (delete_file p db).
Proof.
  intros HI Hh (key & art & Hart & <- & Hp) (rev & row & Hin & Hst). rewrite Forall_forall in Hh.
  apply Hh in Hart. apply Hh in Hin as ((row' & Hsel & He) & _ & Hend). split; try apply HI.
  - intros c' H. destruct (s_delete _ _ HI _ H) as [H1 H2]. split; [done|].
    eapply file_gone_le; [apply delete_file_le|done].
  - intros p' Hp0 Hp'. cbn in Hp'. destruct (decide (p' = p)) as [-> |Hne].
    + apply select_capsule_Some in Hsel as [Hr _]. exists (key_artifactId key), (manifest art), rev, row'.
      split_and!; [exact Hart|done|exact Hr|]. apply He. by rewrite Hst.
    + rewrite lookup_delete_ne in Hp' by done. by apply (s_files _ _ HI).
Qed.

(** ** Every call keeps the invariant *)
Lemma db_writes_cases {B} (f : Db → B * Db) db o db' :
  db_writes f db o db' → (o = Throw OtherError ∧ db' = db) ∨ (db' = (f db).2 ∧ (o = Ok (f db).1 ∨ o = Throw OtherError)).
Proof. unfold db_writes. naive_solver. Qed.

Lemma insert_audit_present e db : audits db !! auditId e = None → audits (insert_audit e db) !! auditId e = Some e.
Proof. intros H. unfold insert_audit. rewrite H. apply lookup_insert_eq. Qed.

Lemma load_holds db0 db c : sane db0 db → holds db (n_load c (Ok (select_capsule c db))).
Proof.
  intros HI. cbn. destruct (select_capsule c db) as [[rev row]|] eqn:Hsel; [|done].
  apply select_capsule_Some in Hsel as Hr. destruct Hr as [Hr _]. split_and!.
  - exists row. split; [done|apply capsule_evolves_refl].
  - intros Hst. right. intros rev' row' Hr'. left. rewrite <- Hst. by eapply (s_uniform _ _ HI).
  - intros Hst rev' row' Hr'. by rewrite (s_uniform _ _ HI _ _ _ _ _ Hr' Hr).
Qed.

Lemma call_step db0 B (e : Call B) h db b db' :
  sane db0 db → Forall (holds db) h → allowed B h e → (∀ id, live h = Some id → audits db !! id = None) →
  answers B e db b db' → sane db0 db' ∧ le db db' ∧ holds db' (note B e b).
Proof.
  intros HI Hh Ha Hlive Hans.
  assert (∀ db1, db1 = db → sane db0 db1 ∧ le db db1) as Hsame by (intros ? ->; split; [done|apply evidence_le_refl]).
  destruct e; cbn [answers note allowed] in *.
  - (* Now *) destruct (Hsame _ Hans). by split_and!.
  - (* RandomUuid *) destruct Hans as [Hid ->]. split_and!; [split; apply HI|split; try done; [by apply rows_le_same|cbn; set_solver]|cbn; set_solver].
  - (* SelectAuthorized *) destruct Hans as [Ho ->]. split_and!; [done|apply evidence_le_refl|].
    destruct Ho as [-> | ->]; cbn; [|done]. unfold select_authorized.
    destruct (artifacts db !! key_artifactId key) as [m|] eqn:Hm; [|done]. destruct (joins key) as [[]|]; [|done].
    by destruct (String.eqb _ _).
  - (* SelectCapsule *) destruct Hans as [Ho ->]. split_and!; [done|apply evidence_le_refl|].
    destruct Ho as [-> | ->]; [|done]. by eapply load_holds.
  - (* UpdateLifecycle *) apply db_writes_cases in Hans as [[-> ->]|[-> _]].
    + destruct (Hsame _ eq_refl). by split_and!.
    + split_and!; [by eapply update_sane|by eapply update_le|done].
  - (* SelectUnrevoked *) destruct Hans as [_ H]. destruct (Hsame _ H). by split_and!.
  - (* EraseCiphertext *) apply db_writes_cases in Hans as [[-> ->]|[-> Ho]].
    + destruct (Hsame _ eq_refl). by split_and!.
    + split_and!; [by apply erase_sane|by apply erase_le|]. destruct Ho as [-> | ->]; [|done]. by eapply erase_gone.
  - (* InsertAudit *) destruct Ha as [Hl Ht]. apply db_writes_cases in Hans as [[-> ->]|[-> Ho]].
    + destruct (Hsame _ eq_refl). by split_and!.
    + split_and!; [by eapply insert_audit_sane|by apply insert_audit_le|]. destruct Ho as [-> | ->]; [|done].
      by apply insert_audit_present, Hlive.
  - (* Begin *) destruct Hans as [_ H]. destruct (Hsame _ H). by split_and!.
  - (* InsertPending *) destruct Hans as [_ H]. destruct (Hsame _ H). split_and!; [done..|]. by destruct b.
  - (* Commit *) apply db_writes_cases in Hans as [[-> ->]|[-> Ho]].
    + destruct (Hsame _ eq_refl). by split_and!.
    + destruct Ha as [-> |(e & -> & Hl & Ht)]; cbn [insert_audits foldl snd].
      * split_and!; [done|apply evidence_le_refl|]. by destruct Ho as [-> | ->]; cbn.
      * split_and!; [by eapply insert_audit_sane|by apply insert_audit_le|]. destruct Ho as [-> | ->]; [|done].
        cbn. constructor; [|done]. by apply insert_audit_present, Hlive.
  - (* SelectRevocation *) destruct Hans as [_ H]. destruct (Hsame _ H). by split_and!.
  - (* UpsertRevocation *) apply db_writes_cases in Hans as [[-> ->]|[-> Ho]].
    + destruct (Hsame _ eq_refl). by split_and!.
    + split_and!; [by eapply upsert_sane|by eapply upsert_le|]. destruct Ho as [-> | ->]; [|done]. by eapply upsert_revoked.
  - (* SelectKey *) destruct Hans as [_ H]. destruct (Hsame _ H). by split_and!.
  - (* ReadFile *) destruct Hans as [H _]. destruct (Hsame _ H). by split_and!.
  - (* DeleteFile *) destruct Ha as (c & Hn & Hld). apply db_writes_cases in Hans as [[-> ->]|[-> Ho]].
    + destruct (Hsame _ eq_refl). by split_and!.
    + split_and!; [by eapply delete_file_sane|by apply delete_file_le|]. destruct Ho as [-> | ->]; [|done]. apply lookup_delete_eq.
Qed.

(** ** Identifiers of audit rows *)
Lemma live_note B (e : Call B) h db b db' id :
  answers B e db b db' → live (note B e b :: h) = Some id →
  audits db' = audits db ∧ (id ∉ issued db ∧ id ∈ issued db' ∨ live h = Some id).
Proof.
  intros Hans Hl. destruct e; cbn in *; try done.
  - destruct Hans as [Hid ->]. injection Hl as ->. split; [done|]. left. split; [done|]. cbn. set_solver.
  - destruct Hans as [_ ->]. split; [done|]. right. destruct b; [|done]. by destruct h as [|[] ?].
Qed.
Lemma audits_grow B (e : Call B) h db b db' id :
  allowed B h e → answers B e db b db' → audits db' !! id ≠ None → audits db !! id ≠ None ∨ live h = Some id.
Proof.
  intros Ha Hans Hid.
  assert (∀ ev, live h = Some (auditId ev) → audits (insert_audit ev db) !! id ≠ None → audits db !! id ≠ None ∨ live h = Some id) as Hins.
  { intros ev Hl H. destruct (insert_audit_cases ev db) as [E|[_ E]]; rewrite E in H; [by left|]. cbn in H.
    destruct (decide (id = auditId ev)) as [-> |Hne]; [by right|]. rewrite lookup_insert_ne in H by done. by left. }
  destruct e; cbn in *; try (destruct Hans as [? ->]; by left); try (subst; by left);
    try (apply db_writes_cases in Hans as [[-> ->]|[-> _]]; by left).
  - apply db_writes_cases in Hans as [[-> ->]|[-> _]]; [by left|]. destruct Ha as [Hl _]. by apply Hins with e.
  - apply db_writes_cases in Hans as [[-> ->]|[-> _]]; [by left|].
    destruct Ha as [-> |(e & -> & Hl & _)]; [by left|]. by apply Hins with e.
  - destruct Hans as [-> _]. by left.
Qed.

(** ** The whole system *)
Context (sha256Hex : string → string) (kmsPolicyId : string) (has_revokeForScope : bool).
Definition startable (p : M Reply) : Prop :=
  ∃ verb key actorId correlationId,
    p = serve sha256Hex tenant root kmsPolicyId has_revokeForScope verb key actorId correlationId.
Notation system := (@Interact.sched_state Call Thrown Note Db Reply).
Notation step := (@Interact.sched Call Thrown Note note Db Reply answers midway startable).
Notation tri := (@Interact.tri Call Thrown Note note sound allowed Reply).

(** Every capsule is there to be read, and the server has just been set up. *)
Record initial (db : Db) : Prop := {
  i_active : map_Forall (λ _ row, c_state row = active) (capsules db);
  i_audits : audits db = ∅;
  i_artifacts : map_Forall (λ c m, am_artifactId m = c) (artifacts db);
}.
Definition reachable (db0 : Db) (st : system) : Prop :=
  initial db0 ∧ rtc step {| shared := db0; processes := [] |} st.

Record tokens (st : system) : Prop := {
  t_free : ∀ i p h id, processes st !! i = Some (p, h) → live h = Some id →
    id ∈ issued (shared st) ∧ audits (shared st) !! id = None;
  t_apart : ∀ i j p h p' h' id, i ≠ j → processes st !! i = Some (p, h) → processes st !! j = Some (p', h') →
    live h = Some id → live h' ≠ Some id;
  t_issued : ∀ id, audits (shared st) !! id ≠ None → id ∈ issued (shared st);
}.

Section invariant.
Context (Q : outcome Thrown Reply → list Note → Prop) (db0 : Db).
Context (startable_tri : ∀ p, startable p → tri p Q []).

Record system_ok (st : system) : Prop := {
  ok_sane : sane db0 (shared st);
  ok_le : le db0 (shared st);
  ok_tri : Forall (λ ph : M Reply * list Note, tri ph.1 Q ph.2) (processes st);
  ok_holds : Forall (λ ph : M Reply * list Note, Forall (holds (shared st)) ph.2) (processes st);
  ok_tokens : tokens st;
}.

Lemma sound_answers B (e : Call B) db b db' : sane db0 db → answers B e db b db' → sound B e b.
Proof.
  intros HI. destruct e; cbn; try done. intros [[-> | ->] _]; [|done]. unfold select_authorized.
  destruct (artifacts db !! key_artifactId key) as [m|] eqn:Hm; [|done].
  destruct (joins key) as [[]|]; [|done]. destruct (String.eqb _ _); [|done]. cbn. by apply (s_artifacts _ _ HI) in Hm.
Qed.

Lemma tokens_call B (e : Call B) i k h b db db' l :
  tokens {| shared := db; processes := l |} → l !! i = Some (Vis e k, h) → allowed B h e → le db db' →
  answers B e db b db' → tokens {| shared := db'; processes := <[i := (k b, note B e b :: h)]> l |}.
Proof.
  intros [Hfree Hapart Hissued] Hi Ha Hle Hans. cbn in *.
  assert (∀ p h1 id, <[i := (k b, note B e b :: h)]> l !! i = Some (p, h1) → live h1 = Some id →
    audits db' = audits db ∧ (id ∉ issued db ∧ id ∈ issued db' ∨ live h = Some id)) as Hnew.
  { intros p h1 id H. rewrite list_lookup_insert_eq in H by (by eapply lookup_lt_Some). injection H as <- <-.
    by apply live_note. }
  split; cbn.
  - intros j p h1 id Hj Hid. destruct (decide (i = j)) as [<- |Hne].
    + destruct (Hnew _ _ _ Hj Hid) as [-> [[Hn Hy]|Hl]].
      * split; [done|]. destruct (audits db !! id) eqn:E; [|done]. destruct Hn. apply Hissued. congruence.
      * destruct (Hfree _ _ _ _ Hi Hl) as [? ?]. split; [by apply (le_issued _ _ Hle)|done].
    + rewrite list_lookup_insert_ne in Hj by done. destruct (Hfree _ _ _ _ Hj Hid) as [H1 H2].
      split; [by apply (le_issued _ _ Hle)|]. destruct (audits db' !! id) eqn:E; [exfalso|done].
      destruct (audits_grow _ _ _ _ _ _ id Ha Hans) as [?|Hl]; [congruence|done|].
      by apply (Hapart i j _ _ _ _ id Hne Hi Hj Hl).
  - intros j1 j2 p h1 p' h2 id Hne H1 H2 Hid. destruct (decide (i = j1)) as [<- |Hne1].
    + rewrite list_lookup_insert_ne in H2 by done. intros Hid2.
      destruct (Hnew _ _ _ H1 Hid) as [_ [[Hn _]|Hl]].
      * apply Hn. by eapply Hfree.
      * by eapply (Hapart i j2).
    + rewrite list_lookup_insert_ne in H1 by done. destruct (decide (i = j2)) as [<- |Hne2].
      * intros Hid2. destruct (Hnew _ _ _ H2 Hid2) as [_ [[Hn _]|Hl]].
        -- apply Hn. by eapply Hfree.
        -- by eapply (Hapart i j1).
      * rewrite list_lookup_insert_ne in H2 by done. by eapply (Hapart j1 j2).
  - intros id Hid. apply (le_issued _ _ Hle). destruct (audits_grow _ _ _ _ _ _ id Ha Hans Hid) as [?|Hl]; [auto|].
    by eapply Hfree.
Qed.

Lemma system_step st st' : system_ok st → step st st' → system_ok st'.
Proof.
  intros [HI Hle Ht Hh Hk] Hs. destruct Hs as [p db l Hp|B i e k h db db' l Hi Hm|B i e k h b db db' l Hi Ha]; cbn in *; [|done|].
  - split; cbn; [done|done|by apply Forall_app; split; [|constructor; [apply startable_tri|]]|by apply Forall_app; split; [|repeat constructor]|].
    destruct Hk as [Hfree Hapart Hissued]. cbn in *.
    assert (∀ i p' h id, (l ++ [(p, [])]) !! i = Some (p', h) → live h = Some id → l !! i = Some (p', h)) as Hold.
    { intros i p' h id Hi Hid. apply lookup_app_Some in Hi as [Hi|[_ Hi]]; [done|].
      apply list_lookup_singleton_Some in Hi as [_ Hi]. injection Hi as <- <-. done. }
    split; cbn; [|intros i j p1 h1 p2 h2 id Hne H1 H2 Hid Hid2|done].
    + intros i p' h id Hi Hid. eapply Hfree, Hid. by eapply Hold.
    + by eapply (Hapart i j); [done|eapply Hold, Hid|eapply Hold, Hid2|..].
  - rewrite Forall_lookup in Ht, Hh. pose proof (Ht _ _ Hi) as [Hallowed Hcont]. pose proof (Hh _ _ Hi) as Hhi. cbn in *.
    destruct (call_step db0 B e h db b db') as (HI' & Hle' & Hnote); [done..|intros id Hid; by eapply Hk|done|].
    split; cbn; [done|by eapply evidence_le_trans| | |by eapply tokens_call].
    + apply Forall_insert; [by apply Forall_lookup|]. cbn. apply Hcont. exact (sound_answers _ _ _ _ _ HI Ha).
    + apply Forall_insert.
      * apply Forall_lookup. intros j ph Hj. eapply Forall_impl; [by apply (Hh j)|]. intros n. by apply holds_le.
      * cbn. constructor; [done|]. eapply Forall_impl; [exact Hhi|]. intros n. by apply holds_le.
Qed.

Lemma initial_ok : initial db0 → system_ok {| shared := db0; processes := [] |}.
Proof.
  intros [Ha Hau Har].
  assert (∀ c op dec, ¬ logged db0 c op dec) as Hno by (intros c op dec (id & e & He & _); by rewrite Hau in He).
  split; cbn; [|apply evidence_le_refl|done|done|].
  - split.
    + intros c r1 r2 row1 row2 H1 H2. by rewrite (Ha _ _ H1), (Ha _ _ H2).
    + done.
    + by intros c ?%Hno.
    + by intros c ?%Hno.
    + intros c rev row Hr. by rewrite (Ha _ _ Hr).
    + intros c rev row Hr. by rewrite (Ha _ _ Hr).
    + intros k row0 row H0 Hc Hr Hn. congruence.
    + done.
  - split; cbn; [done|done|]. intros id. by rewrite Hau.
Qed.

Lemma reachable_ok st : reachable db0 st → system_ok st.
Proof.
  intros [Hi Hr]. apply initial_ok in Hi. revert Hi. induction Hr as [|x y z Hs _ IH]; [done|].
  intros H. by apply IH, (system_step x).
Qed.
End invariant.

End safety.
End EvidenceSafety.
