(* ===== verification/EvidenceRules.v ===== *)
(** * Evidence: the calls of a request

    Every call a request of [Evidence] makes is one that [EvidenceSafety] allows,
    and what a reply says is in the history of the request. *)
From S2P Require Import Prelude Number Json Interact ArtifactUpload Evidence EvidenceTables EvidenceSafety.
Import ArtifactUpload(ArtifactManifest, am_artifactId, am_runId, am_relativePath, am_sha256, string_of).

Module EvidenceRules.
Import Evidence EvidenceTables EvidenceSafety.

Section rules.
Context (sha256Hex : string → string) (tenant : string) (root : path) (kmsPolicyId : string)
  (has_revokeForScope : bool).
Notation sound := (EvidenceSafety.sound).
Notation allowed := (EvidenceSafety.allowed tenant root).
Notation tri := (@Interact.tri Call Thrown Note note sound allowed _).

(** ** One call, and a caught failure *)
Lemma evidence_tri_call {B} (e : Call (outcome Thrown B)) Q h :
  allowed _ h e → (∀ o, sound _ e o → Q o (note _ e o :: h)) → tri (call e) Q h.
Proof. intros Ha HQ. apply tri_bind, tri_ask; [done|]. intros [b|x] Hs; cbn; by apply HQ. Qed.
Lemma evidence_tri_attempt {A} (p : M A) Q h : tri p (λ o h', Q (Ok o) h') h → tri (attempt p) Q h.
Proof.
  revert h. induction p as [a|x|B e k IH]; intros h; cbn; [done..|]. intros [Ha H]. split; [done|]. eauto.
Qed.

(** ** Histories only grow *)
Lemma in_suffix (h h' : list Note) n : h `suffix_of` h' → n ∈ h → n ∈ h'.
Proof. intros [l ->] H. apply elem_of_app. by right. Qed.
Lemma suffix_note (h : list Note) n : h `suffix_of` n :: h.
Proof. by exists [n]. Qed.
Lemma audited_suffix h h' c op dec : h `suffix_of` h' → audited h c op dec → audited h' c op dec.
Proof. intros Hs (e & He & H). exists e. split; [by eapply in_suffix|done]. Qed.
Lemma truthful_suffix h h' e : h `suffix_of` h' → truthful root h e → truthful root h' e.
Proof.
  intros Hs [H1 H2]. split.
  - intros Ho Hd. destruct (H1 Ho Hd) as (t & rv & Hin). exists t, rv. by eapply in_suffix.
  - intros Ho Hd. destruct (H2 Ho Hd) as (He & p & (key & art & Ha & Hk & Hp) & Hf).
    split; [by eapply in_suffix|]. exists p. split; [|by eapply in_suffix]. exists key, art.
    split; [by eapply in_suffix|done].
Qed.
(** The record [r] of [c] was read. *)
Definition current_in (h : list Note) (c : string) (r : EvidenceLifecycleRecord) : Prop :=
  ∃ rev row, n_load c (Ok (Some (rev, row))) ∈ h ∧ r = to_record tenant c row.
Lemma current_loaded h c r : current_in h c r → loaded h c (state r).
Proof. intros (rev & row & Hin & ->). by exists rev, row. Qed.
Lemma loaded_suffix h h' c s : h `suffix_of` h' → loaded h c s → loaded h' c s.
Proof. intros Hs (rev & row & Hin & H). exists rev, row. split; [by eapply in_suffix|done]. Qed.

(** ** The steps of a deletion *)
Lemma tri_requireRecord c Q h :
  (∀ r h', h `suffix_of` h' → current_in h' c r → Q (Ok r) h') → (∀ x h', Q (Throw x) h') →
  tri (requireRecord tenant c) Q h.
Proof.
  intros HQ Hx. apply tri_bind, tri_bind, evidence_tri_call; [done|]. intros [[[rev row]|]|x] _; cbn; [|apply Hx..].
  apply HQ; [apply suffix_note|]. exists rev, row. split; [by left|done].
Qed.
Lemma tri_advance c from to at_ reason Q h :
  step_allowed h c from to → (∀ h', h `suffix_of` h' → Q (Ok tt) h') → (∀ x h', Q (Throw x) h') →
  tri (advance c from to at_ reason) Q h.
Proof.
  intros Hs HQ Hx. apply tri_bind, tri_bind, evidence_tri_call; [done|]. intros [[]|x] _; cbn; [|split; [done|]|apply Hx].
  - apply HQ, suffix_note.
  - intros [[[rev row]|]|x] _; cbn; [|apply Hx..]. destruct (bool_decide _); cbn; [|apply Hx].
    apply HQ. by exists [n_load c (Ok (Some (rev, row))); n_other].
Qed.
Lemma tri_audit r actor op dec reason at_ Q h :
  (∀ e, ev_capsuleId e = capsuleId r → operation e = op → decision e = dec → truthful root h e) →
  (∀ h', h `suffix_of` h' → audited h' (capsuleId r) op dec → Q (Ok tt) h') → (∀ x h', Q (Throw x) h') →
  tri (audit tenant r actor op dec reason at_) Q h.
Proof.
  intros Ht HQ Hx. apply tri_bind, tri_ask; [done|]. intros id _. cbn. unfold record.
  destruct (String.eqb _ _); [|apply Hx]. apply evidence_tri_call.
  - split; [done|]. eapply truthful_suffix; [apply suffix_note|by apply Ht].
  - intros [[]|x] _; [|apply Hx]. apply HQ; [by eexists [_; _]|]. eexists. split; [by left|done].
Qed.

Lemma tri_begin_revoking input r Q h :
  let c := del_capsuleId input in
  current_in h c r → (∀ r' h', h `suffix_of` h' → current_in h' c r' → Q (Ok r') h') → (∀ x h', Q (Throw x) h') →
  tri (begin_revoking tenant input r) Q h.
Proof.
  intros c Hr HQ Hx. unfold begin_revoking. destruct (bool_decide _); [|by apply HQ].
  apply tri_bind, tri_advance; [constructor| |done]. intros h1 H1.
  apply tri_requireRecord; [|done]. intros r' h2 H2. apply HQ. by etrans.
Qed.
Lemma tri_begin_deleting input r Q h :
  let c := del_capsuleId input in
  current_in h c r → (∀ r' h', h `suffix_of` h' → current_in h' c r' → Q (Ok r') h') → (∀ x h', Q (Throw x) h') →
  tri (begin_deleting tenant input r) Q h.
Proof.
  intros c Hr HQ Hx. unfold begin_deleting. destruct (bool_decide _); [|by apply HQ].
  apply tri_bind, tri_advance; [constructor| |done]. intros h1 H1.
  apply tri_requireRecord; [|done]. intros r' h2 H2. apply HQ. by etrans.
Qed.

Lemma tri_mark scope c reason at_ Q h :
  (∀ t rv, Evidence.before_bar scope = t → rev_scopeId rv = scope → allowed _ h (UpsertRevocation t c rv)) →
  (∀ t rv h', h `suffix_of` h' → n_mark t c rv (Ok tt) ∈ h' → Q (Ok tt) h') → (∀ x h', h `suffix_of` h' → Q (Throw x) h') →
  tri (markCapsuleRevoked (Some scope) c reason at_) Q h.
Proof.
  intros Ha HQ Hx. unfold markCapsuleRevoked, tenantFromScopeId. destruct (String.eqb _ _); [by apply Hx|].
  cbn [mbind prog_bind prog_bind_]. apply evidence_tri_call; [by apply Ha|]. intros [[]|x] _.
  - eapply HQ; [apply suffix_note|by left].
  - apply Hx, suffix_note.
Qed.
Lemma tri_revoke_keys input r Q h :
  let c := del_capsuleId input in
  current_in h c r → (∀ r' h', h `suffix_of` h' → current_in h' c r' → Q (Ok r') h') → (∀ x h', Q (Throw x) h') →
  tri (revoke_keys tenant has_revokeForScope input r) Q h.
Proof.
  intros c Hr HQ Hx. unfold revoke_keys. destruct (bool_decide _); [|by apply HQ].
  assert (capsuleId r = c) as Hc by (by destruct Hr as (rev & row & _ & ->)).
  apply tri_bind, evidence_tri_attempt.
  assert (∀ h', tri (_ ← audit tenant r (del_actor input) op_revoke dec_failed "EvidenceRevocationFailed" (del_occurredAt input);
     Fail (LifecycleError EvidenceRevocationFailed) : M EvidenceLifecycleRecord) Q h') as Hfail.
  { intros h'. apply tri_bind, tri_audit; [by split; intros; congruence|intros; apply Hx|done]. }
  destruct has_revokeForScope; apply tri_bind, tri_ask; [done| |done|intros at_ _; apply Hfail].
  intros at_ _. apply tri_mark; [|intros t rv h1 H1 Hin|intros; by apply Hfail].
  - intros t rv <- Hrv. destruct Hr as (rev & row & Hin & ->). exists rev, row. by split; [right|].
  - apply tri_bind, tri_audit; [|intros h2 H2 Ha|done].
    + intros e He Ho Hd. split; [|intros; congruence]. intros _ _. exists t, rv. by rewrite He, Hc.
    + rewrite Hc in Ha. apply tri_bind, tri_advance; [by constructor| |done]. intros h3 H3.
      apply tri_requireRecord; [|done]. intros r' h4 H4. apply HQ.
      etrans; [apply suffix_note|]. etrans; [exact H1|]. etrans; [exact H2|]. by etrans.
Qed.

Lemma tri_deleteCiphertext key art Q h :
  let c := key_artifactId key in
  n_authorized key (Ok (Some art)) ∈ h → loaded h c deleting →
  (∀ p h', h `suffix_of` h' → names root h' c p → n_erased c (Ok tt) ∈ h' → n_deleted p (Ok tt) ∈ h' → Q (Ok tt) h') →
  (∀ x h', h `suffix_of` h' → Q (Throw x) h') →
  tri (operation_deleteCiphertext root (manifest art) c) Q h.
Proof.
  intros c Hart Hld HQ Hx. unfold operation_deleteCiphertext. destruct (String.eqb _ _); [|by apply Hx].
  unfold artifactStore_delete, resolveSafePathFromRelative.
  destruct (safe_path root (am_relativePath (manifest art))) as [p|] eqn:Hp; [|by apply Hx].
  apply tri_bind. cbn [mbind prog_bind prog_bind_].
  assert (names root h c p) as Hn by (by exists key, art).
  apply evidence_tri_call; [by exists c|]. intros [[]|x] _; [|apply Hx, suffix_note].
  apply tri_bind, evidence_tri_call; [done|]. intros [[]|x] _; [by apply Hx; eexists [_; _]| |by apply Hx; eexists [_; _]].
  apply evidence_tri_call; [eapply loaded_suffix, Hld; by eexists [_; _]|].
  intros [[]|x] _; [|by apply Hx; eexists [_; _; _]]. apply (HQ p); [by eexists [_; _; _]| |by left|by right; right; left].
  exists key, art. split; [do 3 right; done|done].
Qed.
Lemma tri_erase key art input r Q h :
  let c := key_artifactId key in
  del_capsuleId input = c → n_authorized key (Ok (Some art)) ∈ h → current_in h c r →
  (∀ h', h `suffix_of` h' → Q (Ok deleted) h') → (∀ x h', Q (Throw x) h') →
  tri (erase tenant (operation_deleteCiphertext root (manifest art)) input r) Q h.
Proof.
  intros c Hin Hart Hr HQ Hx. unfold erase. destruct (bool_decide_reflect (state r = deleting)) as [Hst|]; [|apply Hx].
  assert (capsuleId r = c) as Hc by (by destruct Hr as (rev & row & _ & ->)).
  pose proof (current_loaded _ _ _ Hr) as Hld. rewrite Hst in Hld.
  rewrite Hin. apply tri_bind, evidence_tri_attempt, tri_deleteCiphertext; [done|done| |].
  - intros p h1 H1 Hn He Hf. apply tri_bind, tri_audit; [|intros h2 H2 Ha|done].
    + intros e Hec Ho Hd. rewrite Hc in Hec. split; [intros; congruence|]. intros _ _. rewrite Hec. eauto.
    + rewrite Hc in Ha. apply tri_bind, tri_advance; [by constructor| |done]. intros h3 H3. apply HQ. etrans; [done|]. by etrans.
  - intros x h1 H1. apply tri_bind, tri_audit; [by split; intros; congruence|intros h2 H2 Ha|done].
    rewrite Hc in Ha. apply tri_bind, tri_advance; [by constructor| |done]. intros h3 H3. apply Hx.
Qed.

Lemma tri_deleteEvidence key art input Q h :
  let c := key_artifactId key in
  del_capsuleId input = c → n_authorized key (Ok (Some art)) ∈ h →
  (∀ h', Q (Ok deleted) h') → (∀ x h', Q (Throw x) h') →
  tri (deleteEvidence tenant has_revokeForScope (operation_deleteCiphertext root (manifest art)) input) Q h.
Proof.
  intros c Hin Hart HQ Hx. unfold deleteEvidence. rewrite Hin.
  apply tri_bind, tri_requireRecord; [|done]. intros r1 h1 H1 Hr1. destruct (bool_decide _); [apply HQ|].
  apply tri_bind, tri_begin_revoking; [by rewrite Hin| |done]. intros r2 h2 H2 Hr2.
  apply tri_bind, tri_revoke_keys; [done| |done]. intros r3 h3 H3 Hr3.
  apply tri_bind, tri_begin_deleting; [done| |done]. intros r4 h4 H4 Hr4. rewrite Hin in Hr4.
  eapply tri_erase; [exact Hin| |exact Hr4|intros; apply HQ|done].
  eapply in_suffix, Hart. etrans; [exact H1|]. etrans; [exact H2|]. by etrans.
Qed.

(** ** The transaction of a request *)
Lemma tri_tx_bind {A B} (p : T A) (k : A → T B) tx Q h :
  tri (p tx) (λ o h', match o with
    | Ok (Ok a, tx') => tri (k a tx') Q h'
    | Ok (Throw x, tx') => Q (Ok (Throw x, tx')) h'
    | Throw x => Q (Throw x) h' end) h →
  tri ((p ≫= k : T B) tx) Q h.
Proof.
  intros H. unfold mbind, tx_bind. apply tri_bind. eapply tri_mono; [exact H|]. intros [[[a|x] tx']|x] h'; cbn; done.
Qed.
Lemma tri_tx_attempt {A} (p : T A) tx Q h :
  tri (p tx) (λ o h', match o with Ok (o, tx') => Q (Ok (Ok o, tx')) h' | Throw x => Q (Throw x) h' end) h →
  tri (tx_attempt p tx) Q h.
Proof.
  intros H. unfold tx_attempt. apply tri_bind. eapply tri_mono; [exact H|]. by intros [[o tx']|x] h'.
Qed.
Lemma tri_tx_outside {A} (p : M A) tx Q h :
  tri p (λ o h', Q (Ok (o, tx)) h') h → tri (tx_outside p tx) Q h.
Proof. intros H. apply tri_bind, evidence_tri_attempt. exact H. Qed.

(** What may be committed: nothing, or one row of its own identifier. *)
Definition committable (h : list Note) (tx : Tx) : Prop :=
  aborted tx = true ∨ pending tx = [] ∨
  ∃ e, pending tx = [e] ∧ live h = Some (auditId e) ∧ truthful root h e.

Lemma tri_access_audit r actor op dec reason at_ tx Q h :
  op ≠ op_revoke → op ≠ op_delete → pending tx = [] →
  (∀ id tx' h', h `suffix_of` h' → committable h' tx' → aborted tx' = false →
     pending tx' = [audit_event id r actor op dec reason at_] → Q (Ok (Ok tt, tx')) h') →
  (∀ x tx' h', h `suffix_of` h' → committable h' tx' → Q (Ok (Throw x, tx')) h') →
  tri (access_audit tenant r actor op dec reason at_ tx) Q h.
Proof.
  intros Hop1 Hop2 Htx HQ Hx. unfold access_audit. apply tri_tx_bind, tri_tx_outside, tri_ask; [done|]. intros id _.
  apply tri_tx_bind, tri_tx_attempt. unfold tx_record.
  destruct (String.eqb _ _); [|apply Hx; [apply suffix_note|right; by left]].
  apply tri_tx_bind. unfold tx_statement. destruct (aborted tx) eqn:Hab.
  - apply Hx; [apply suffix_note|by left].
  - apply tri_bind, tri_ask; [done|]. intros [[]|x] _; cbn.
    + apply (HQ id); [by eexists [_; _]| |done|by rewrite Htx]. right. right. eexists. split; [by rewrite Htx|].
      split; [done|]. split; cbn; congruence.
    + apply Hx; [by eexists [_; _]|]. by left.
Qed.

(** ** Reading *)

(** Between the histories [h] and [h'] the capsule was read as [row], fit to be read
    at [at_], and the KMS still gave its key. *)
Definition permitted_since (h h' : list Note) (c : string) (row : CapsuleRow) (at_ : string) : Prop :=
  ∃ l rev, h' = l ++ h ∧ n_load c (Ok (Some (rev, row))) ∈ l ∧
    c_state row = active ∧ c_ciphertext row ≠ None ∧ text_before at_ (c_expiresAt row) = true ∧
    let scope := row_scope tenant row in
    n_revocation (before_bar scope) scope c (Ok false) ∈ l ∧
    n_key (before_bar scope) scope (c_wrappingKeyId row) (Ok (Some key_active)) ∈ l.
Lemma permitted_suffix h h' h'' c row at_ :
  h' `suffix_of` h'' → permitted_since h h' c row at_ → permitted_since h h'' c row at_.
Proof.
  intros [l2 ->] (l & rev & -> & H1 & H2 & H3 & H4 & H5 & H6). exists (l2 ++ l), rev.
  split; [by rewrite app_assoc|]. cbn zeta. rewrite !elem_of_app. tauto.
Qed.
Lemma permitted_suffix_of h h' c row at_ : permitted_since h h' c row at_ → h `suffix_of` h'.
Proof. intros (l & rev & -> & _). by exists l. Qed.

Lemma tri_loadAndValidateScope input tx Q h :
  aborted tx = false → pending tx = [] →
  (∀ rev row, Q (Ok (Ok (to_record tenant (acc_capsuleId input) row), tx))
     (n_load (acc_capsuleId input) (Ok (Some (rev, row))) :: h)) →
  (∀ x tx' h', h `suffix_of` h' → committable h' tx' → Q (Ok (Throw x, tx')) h') →
  tri (loadAndValidateScope tenant input tx) Q h.
Proof.
  intros Hab Htx HQ Hx. unfold loadAndValidateScope. apply tri_tx_bind, tri_tx_attempt.
  unfold tx_load. apply tri_tx_bind. unfold tx_statement. rewrite Hab. apply tri_bind, tri_ask; [done|].
  intros [[[rev row]|]|x] _; cbn -[in_scope].
  - destruct (in_scope _ _); [apply HQ|]. apply tri_tx_bind, tri_access_audit; [done..| |].
    + intros id tx' h' H' Hc _ _. apply Hx; [|done]. etrans; [apply suffix_note|done].
    + intros x tx' h' H' Hc. apply Hx; [|done]. etrans; [apply suffix_note|done].
  - apply Hx; [apply suffix_note|]. right. by left.
  - apply Hx; [apply suffix_note|]. by left.
Qed.

Lemma tri_preparePlaintext input tx Q h :
  aborted tx = false → pending tx = [] →
  (∀ row h', permitted_since h h' (acc_capsuleId input) row (acc_occurredAt input) →
     Q (Ok (Ok (to_record tenant (acc_capsuleId input) row), tx)) h') →
  (∀ x tx' h', h `suffix_of` h' → committable h' tx' → Q (Ok (Throw x, tx')) h') →
  tri (preparePlaintext tenant kmsPolicyId input tx) Q h.
Proof.
  intros Hab Htx HQ Hx. unfold preparePlaintext. apply tri_tx_bind, tri_loadAndValidateScope; [done..| |done].
  intros rev row. set (r := to_record tenant (acc_capsuleId input) row). set (h1 := _ :: h).
  assert (h `suffix_of` h1) as H1 by apply suffix_note.
  destruct (isPlaintextAllowed r (acc_occurredAt input)) eqn:Hallow; cbn [negb].
  2: { apply tri_tx_bind, tri_access_audit; [done..|intros id tx' h' H' Hc _ _|intros x tx' h' H' Hc];
         (apply Hx; [by etrans|done]). }
  assert (∀ h2, h1 `suffix_of` h2 → tri ((_ ← access_audit tenant r (acc_actor input) op_unwrap dec_failed
     "EvidenceKmsUnavailable" (acc_occurredAt input); tx_throw (LifecycleError EvidenceAccessUnavailable) : T EvidenceLifecycleRecord) tx) Q h2) as Hfail.
  { intros h2 H2. apply tri_tx_bind, tri_access_audit; [done..|intros id tx' h' H' Hc _ _|intros x tx' h' H' Hc];
      (apply Hx; [etrans; [exact H1|by etrans]|done]). }
  apply tri_tx_bind, tri_tx_attempt, tri_tx_outside. unfold assertPlaintextAccess.
  apply tri_bind, tri_fail_if; [intros _; by apply Hfail|]. intros _.
  unfold isCapsuleRevoked, getByKeyId, tenantFromScopeId.
  change (check_scope (plaintext_check r (capsuleId r) (acc_occurredAt input))) with (row_scope tenant row).
  destruct (String.eqb (before_bar (row_scope tenant row)) ""); [by apply Hfail|]. cbn [mbind prog_bind prog_bind_].
  apply tri_bind, evidence_tri_call; [done|]. intros [[]|x] _; [|cbn|]; [apply Hfail, suffix_note| |apply Hfail, suffix_note].
  split; [done|]. intros [[[]|]|x] _; cbn; [|apply Hfail; by eexists [_; _]..].
  apply HQ. unfold isPlaintextAllowed in Hallow. cbn in Hallow. apply andb_true_iff in Hallow as [[Hst%bool_decide_eq_true Hct]%andb_true_iff Hexp].
  eexists [_; _; _], rev. split; [done|]. split_and!.
  - right. right. by left.
  - done.
  - by destruct (c_ciphertext row).
  - done.
  - split; [right|]; by left.
Qed.

(** The row of the audit trail for a read that was allowed. *)
Definition plaintext_event (id c : string) (row : CapsuleRow) (actor : EvidenceLifecycleActor) (at_ : string)
    : EvidenceAuditEvent :=
  audit_event id (to_record tenant c row) actor op_unwrap dec_allowed "plaintext_access" at_.
Lemma tri_recordPlaintextAccessAllowed input prepared tx Q h :
  aborted tx = false → pending tx = [] →
  (∀ row id res tx' h', permitted_since h h' (acc_capsuleId input) row (acc_occurredAt input) →
     committable h' tx' → aborted tx' = false →
     pending tx' = [plaintext_event id (acc_capsuleId input) row (acc_actor input) (acc_occurredAt input)] →
     Q (Ok (Ok res, tx')) h') →
  (∀ x tx' h', h `suffix_of` h' → committable h' tx' → Q (Ok (Throw x, tx')) h') →
  tri (recordPlaintextAccessAllowed tenant kmsPolicyId input prepared tx) Q h.
Proof.
  intros Hab Htx HQ Hx. unfold recordPlaintextAccessAllowed. apply tri_tx_bind, tri_preparePlaintext; [done..| |done].
  intros row h1 Hp. pose proof (permitted_suffix_of _ _ _ _ _ Hp) as H1. destruct (negb _).
  - apply tri_tx_bind, tri_access_audit; [done..|intros id tx' h' H' Hc _ _|intros x tx' h' H' Hc];
      (apply Hx; [by etrans|done]).
  - apply tri_tx_bind, tri_access_audit; [done..|intros id tx' h' H' Hc Ha Hpe|intros x tx' h' H' Hc].
    + eapply HQ; [by eapply permitted_suffix|done..].
    + apply Hx; [by etrans|done].
Qed.
Lemma tri_authorizeMetadata input tx Q h :
  aborted tx = false → pending tx = [] →
  (∀ res tx' h', committable h' tx' → Q (Ok (Ok res, tx')) h') →
  (∀ x tx' h', h `suffix_of` h' → committable h' tx' → Q (Ok (Throw x, tx')) h') →
  tri (authorizeMetadata tenant input tx) Q h.
Proof.
  intros Hab Htx HQ Hx. unfold authorizeMetadata. apply tri_tx_bind, tri_loadAndValidateScope; [done..| |done].
  intros rev row. apply tri_tx_bind, tri_access_audit; [done..|intros id tx' h' H' Hc _ _|intros x tx' h' H' Hc].
  - by apply HQ.
  - apply Hx; [|done]. etrans; [apply suffix_note|done].
Qed.

(** ** The transaction around an operation *)
Lemma tri_on_request {A} (operation : AuthorizeEvidenceAccessInput → T A) req Q (P : A → list EvidenceAuditEvent → list Note → string → Prop) h :
  (∀ at_ tx Q' h', h `suffix_of` h' → h' = n_now at_ :: n_other :: h → aborted tx = false → pending tx = [] →
     (∀ a tx' h'', h' `suffix_of` h'' → committable h'' tx' → P a (if aborted tx' then [] else pending tx') h'' at_ → Q' (Ok (Ok a, tx')) h'') →
     (∀ x tx' h'', h' `suffix_of` h'' → committable h'' tx' → Q' (Ok (Throw x, tx')) h'') →
     tri (operation {| acc_capsuleId := req_capsuleId req; acc_tenantId := tenant;
          acc_caseId := evidenceCaseId (req_artifact req); acc_purpose := EVIDENCE_PURPOSE;
          acc_policyId := evidencePolicyId (req_artifact req); acc_actor := evidenceActor req;
          acc_occurredAt := at_ |} tx) Q' h') →
  (∀ a l h' h'' at_, h `suffix_of` h' → h'' = n_commit l (Ok tt) :: h' → P a l h' at_ → Q (Ok a) h'') →
  (∀ x h', Q (Throw x) h') →
  tri (on_request tenant operation req) Q h.
Proof.
  intros Hop HQ Hx. unfold on_request, runEvidenceAccess. apply tri_bind, tri_bind, evidence_tri_call; [done|].
  intros [[]|x] _; [|apply Hx]. apply tri_bind, tri_tx_bind, tri_tx_outside, tri_bind, tri_ask; [done|]. intros at_ _. cbn [mret prog_ret tri].
  assert (∀ h' tx, committable h' tx → allowed _ h' (Commit (if aborted tx then [] else pending tx))) as Hc.
  { intros h' tx [H|[H|(e & H & ?)]]; rewrite H; [by left|by left; destruct (aborted tx)|].
    destruct (aborted tx); [by left|]. right. by exists e. }
  apply Hop; [by eexists [_; _]|done|done|done| |].
  - intros a tx' h' H' Hcm HP. apply tri_bind, evidence_tri_call; [by apply Hc|]. intros [[]|x] _; cbn; [|apply Hx].
    eapply HQ; [|done|done]. etrans; [|exact H']. by eexists [_; _].
  - intros x tx' h' H' Hcm. apply tri_bind, evidence_tri_call; [by apply Hc|].
    intros [[]|y] _; cbn; [|apply Hx]. destruct x as [[]| | | |]; apply Hx.
Qed.

(** ** Replies *)
Lemma permitted_wider h0 h h' c row at_ :
  h0 `suffix_of` h → permitted_since h h' c row at_ → permitted_since h0 h' c row at_.
Proof.
  intros [l0 ->] (l & rev & -> & H1 & H2 & H3 & H4 & H5 & H6). exists (l ++ l0), rev.
  split; [by rewrite app_assoc|]. cbn zeta. rewrite !elem_of_app. tauto.
Qed.

(** The bytes [b] of artifact [c] were given out: they were read from its file and
    have its hash; after that the capsule was read again, was active, present and
    not expired, the KMS still gave its key, and the row that says so was committed. *)
Definition given_out (h : list Note) (c : string) (b : buffer) : Prop :=
  ∃ key art p h1 row at_ actor id,
    key_artifactId key = c ∧ n_authorized key (Ok (Some art)) ∈ h1 ∧
    safe_path root (am_relativePath (manifest art)) = Some p ∧
    sha256Hex (string_of b) = am_sha256 (manifest art) ∧
    permitted_since (n_read p (Ok b) :: h1) h c row at_ ∧
    n_commit [plaintext_event id c row actor at_] (Ok tt) ∈ h.
(** The bytes [b] were given to [actor], who asked for [key]: as [given_out], the
    time the capsule was fit to be read was the clock's after the bytes were read,
    and the row names the actor and that time. *)
Definition given_to (h : list Note) (key : AuthorizedArtifactKey) (actor : EvidenceLifecycleActor) (b : buffer) : Prop :=
  ∃ art p h1 h2 row at_ id,
    n_authorized key (Ok (Some art)) ∈ h1 ∧
    safe_path root (am_relativePath (manifest art)) = Some p ∧
    sha256Hex (string_of b) = am_sha256 (manifest art) ∧
    (n_read p (Ok b) :: h1) `suffix_of` h2 ∧
    permitted_since (n_now at_ :: h2) h (key_artifactId key) row at_ ∧
    n_commit [plaintext_event id (key_artifactId key) row actor at_] (Ok tt) ∈ h.
Lemma given_to_out h key actor b : given_to h key actor b → given_out h (key_artifactId key) b.
Proof.
  intros (art & p & h1 & h2 & row & at_ & id & ? & ? & ? & Hs & Hp & ?).
  exists key, art, p, h1, row, at_, actor, id. split_and!; try done. eapply permitted_wider, Hp.
  etrans; [exact Hs|apply suffix_note].
Qed.
(** What a request by [actor] for [key] is answered. *)
Definition answered_to (verb : Verb) (key : AuthorizedArtifactKey) (actor : EvidenceLifecycleActor)
    (o : outcome Thrown Reply) (h : list Note) : Prop :=
  match o with
  | Ok (bytes b) => verb = get_bytes ∧ given_to h key actor b
  | Ok (lifecycleState s) => s = deleted
  | _ => True
  end.
Definition answered (o : outcome Thrown Reply) (h : list Note) : Prop :=
  match o with
  | Ok (bytes b) => ∃ c, given_out h c b
  | Ok (lifecycleState s) => s = deleted
  | _ => True
  end.

Lemma tri_artifactStore_read m Q h :
  (∀ p b, safe_path root (am_relativePath m) = Some p → sha256Hex (string_of b) = am_sha256 m →
     Q (Ok b) (n_read p (Ok b) :: h)) →
  (∀ x h', Q (Throw x) h') →
  tri (artifactStore_read sha256Hex root m) Q h.
Proof.
  intros HQ Hx. unfold artifactStore_read, resolveSafePathFromRelative.
  destruct (safe_path _ _) as [p|] eqn:Hp; [|apply Hx]. cbn [mbind prog_bind prog_bind_].
  apply tri_bind, evidence_tri_call; [done|]. intros [b|x] _; [|apply Hx].
  destruct (String.eqb_spec (sha256Hex (string_of b)) (am_sha256 m)); [by apply HQ|apply Hx].
Qed.

Lemma tri_get_bytes key art req Q h :
  req_artifact req = art → n_authorized key (Ok (Some art)) ∈ h → req_capsuleId req = key_artifactId key →
  (∀ b h', given_to h' key (evidenceActor req) b → Q (Ok (bytes b)) h') → (∀ x h', Q (Throw x) h') →
  tri (handle sha256Hex tenant root kmsPolicyId has_revokeForScope get_bytes req) Q h.
Proof.
  intros Hreq Hart Hc HQ Hx. cbn [handle]. apply tri_bind.
  apply (tri_on_request _ _ _ (λ _ _ _ _, True)); [| |by intros].
  { intros at_ tx Q' h' H' _ Hab Htx Hok Hthrow. apply tri_preparePlaintext; [done..| |done].
    intros row h1 Hp. apply Hok; [by eapply permitted_suffix_of|right; by left|done]. }
  intros prepared l0 h1 h2 at1 H1 -> _.
  assert (n_authorized key (Ok (Some art)) ∈ n_commit l0 (Ok tt) :: h1) as Hart2 by (right; by eapply in_suffix).
  apply tri_bind, evidence_tri_attempt. rewrite Hreq. apply tri_artifactStore_read; [|intros; apply Hx].
  intros p b Hp Hsha. apply tri_bind.
  apply (tri_on_request _ _ _ (λ _ l h3 at_, ∃ row id,
      l = [plaintext_event id (req_capsuleId req) row (evidenceActor req) at_] ∧
      permitted_since (n_now at_ :: n_other :: n_read p (Ok b) :: n_commit l0 (Ok tt) :: h1) h3 (req_capsuleId req) row at_));
    [| |by intros].
  { intros at_ tx Q' h' H' Hnow Hab Htx Hok Hthrow. apply tri_recordPlaintextAccessAllowed; [done..| |done].
    intros row id res tx' h3 Hp3 Hcm Hab3 Hpe. apply Hok; [by eapply permitted_suffix_of|done|].
    exists row, id. rewrite Hab3. split; [exact Hpe|]. by rewrite <- Hnow. }
  intros res l h3 h4 at_ H3 -> (row & id & -> & Hp3). rewrite Hc in Hp3. cbn. apply HQ.
  exists art, p, (n_commit l0 (Ok tt) :: h1), (n_other :: n_read p (Ok b) :: n_commit l0 (Ok tt) :: h1), row, at_, id.
  split_and!; [done..|apply suffix_note| |].
  - eapply permitted_suffix, Hp3. apply suffix_note.
  - rewrite Hc. by left.
Qed.

Lemma tri_handle verb key art req h :
  req_artifact req = art → n_authorized key (Ok (Some art)) ∈ h → req_capsuleId req = key_artifactId key →
  tri (handle sha256Hex tenant root kmsPolicyId has_revokeForScope verb req)
    (λ o h', answered_to verb key (evidenceActor req) (match o with Ok r => Ok r | Throw x => Ok (failure x) end) h') h.
Proof.
  intros Hreq Hart Hc. destruct verb.
  - cbn [handle]. apply tri_bind. apply (tri_on_request _ _ _ (λ _ _ _ _, True)); [| |by intros].
    + intros at_ tx Q' h' H' _ Hab Htx Hok Hthrow. unfold authorizeMetadata.
      apply tri_tx_bind, tri_loadAndValidateScope; [done..| |done]. intros rev row.
      apply tri_tx_bind, tri_access_audit; [done..|intros id tx' h2 H2 Hcm _ _|intros x tx' h2 H2 Hcm].
      * apply Hok; [|done..]. etrans; [apply suffix_note|done].
      * apply Hthrow; [|done]. etrans; [apply suffix_note|done].
    + by intros a l h1 h2 at_ H1 -> _.
  - eapply tri_get_bytes; [done..| |done]. by intros b h' H.
  - cbn [handle]. unfold route_deleteEvidence. apply tri_bind, tri_bind, evidence_tri_attempt, tri_bind, tri_ask; [done|].
    intros at_ _. cbn. rewrite Hreq. eapply tri_deleteEvidence; [exact Hc|by right|by intros|].
    by intros [[]| | | |] h'.
Qed.

Definition requester (actorId correlationId : string) : EvidenceLifecycleActor :=
  {| actorType := user; Evidence.actorId := actorId; Evidence.correlationId := correlationId |}.

Lemma tri_serve_to verb key actorId correlationId :
  tri (serve sha256Hex tenant root kmsPolicyId has_revokeForScope verb key actorId correlationId)
    (answered_to verb key (requester actorId correlationId)) [].
Proof.
  unfold serve. apply tri_bind, evidence_tri_attempt, tri_bind, evidence_tri_call; [done|].
  intros [[art|]|x] Hs; [|done|done]. eapply tri_mono; [eapply tri_handle; [done|by left|exact Hs]|].
  by intros [r|x] h'.
Qed.

Lemma tri_serve verb key actorId correlationId :
  tri (serve sha256Hex tenant root kmsPolicyId has_revokeForScope verb key actorId correlationId) answered [].
Proof.
  eapply tri_mono; [apply tri_serve_to|]. intros [[m a|b|s|e]|x] h'; try done.
  intros [_ H%given_to_out]. by exists (key_artifactId key).
Qed.

End rules.
End EvidenceRules.
