(* ===== verification/EvidenceProperties.v ===== *)
(** * Evidence: the properties

    What the invariant of [EvidenceSafety] and the rules of [EvidenceRules] say of
    any number of requests, and that a deletion ends when nothing is refused. *)
From S2P Require Import Prelude Number Json Interact ArtifactUpload.
From S2P Require Import Evidence EvidenceTables EvidenceSafety EvidenceRules.
Import ArtifactUpload(ArtifactManifest, am_artifactId, am_runId, am_relativePath, am_sha256, string_of).

Module EvidenceProperties.
Import Evidence EvidenceTables EvidenceSafety EvidenceRules.

Section properties.
Context (sha256Hex : string → string) (tenant : string) (root : path) (kmsPolicyId : string)
  (has_revokeForScope : bool) (joins : AuthorizedArtifactKey → option (string * string)).
Notation serve := (serve sha256Hex tenant root kmsPolicyId has_revokeForScope).
Notation system := (@Interact.sched_state Call Thrown Note Db Reply).
Notation startable := (startable tenant root sha256Hex kmsPolicyId has_revokeForScope).
Notation step := (@Interact.sched Call Thrown Note note Db Reply (answers joins) midway startable).
Notation reachable := (reachable tenant root joins sha256Hex kmsPolicyId has_revokeForScope).
Notation answered := (answered sha256Hex tenant root).
Notation given_out := (given_out sha256Hex tenant root).
Notation answered_to := (answered_to sha256Hex tenant root).
Notation system_ok := (system_ok tenant root answered).
Notation keys_revoked := (keys_revoked tenant).

Lemma startable_answered p : startable p → @Interact.tri Call Thrown Note note sound (allowed tenant root) _ p answered [].
Proof. intros (verb & key & a & c & ->). apply tri_serve. Qed.
Lemma evidence_ok db0 st : reachable db0 st → system_ok db0 st.
Proof. apply reachable_ok, startable_answered. Qed.
Lemma evidence_step db0 st st' : system_ok db0 st → step st st' → system_ok db0 st'.
Proof. apply system_step, startable_answered. Qed.
Lemma evidence_steps db0 st st' : system_ok db0 st → rtc step st st' → system_ok db0 st'.
Proof. intros H Hr. revert H. induction Hr as [|x y z Hs _ IH]; [done|]. intros H. by eapply IH, evidence_step. Qed.

(** The tables only grow. *)
Lemma step_grows db0 st st' : system_ok db0 st → step st st' → le tenant (shared st) (shared st').
Proof.
  intros [HI Hle Ht Hh Hk] Hs. destruct Hs as [p db l Hp|B i e k h db db' l Hi Hm|B i e k h b db db' l Hi Ha]; cbn in *;
    [apply evidence_le_refl|done|].
  rewrite Forall_lookup in Ht, Hh. pose proof (Ht _ _ Hi) as [Hallowed _].
  eapply (call_step tenant root joins db0 B e h db b db'); [done|by apply (Hh _ _ Hi)|done|intros id Hid; by eapply Hk|done].
Qed.
Lemma steps_grow db0 st st' : system_ok db0 st → rtc step st st' → le tenant (shared st) (shared st').
Proof.
  intros H Hr. revert H. induction Hr as [|x y z Hs _ IH]; intros H; [apply evidence_le_refl|].
  eapply evidence_le_trans; [by eapply step_grows|by eapply IH, evidence_step].
Qed.

(** C17: Whatever fails, crashes or interleaves: when the ciphertext of a capsule or the
    file of an artifact is gone, the KMS had been told to refuse that capsule's
    keys, it still refuses them, and the audit trail says that they were revoked. *)
Theorem erasure_after_revocation db0 st :
  reachable db0 st →
  (∀ c rev row0 row, capsules db0 !! (c, rev) = Some row0 → c_ciphertext row0 ≠ None →
     capsules (shared st) !! (c, rev) = Some row → c_ciphertext row = None →
     keys_revoked (shared st) c ∧ logged (shared st) c op_revoke dec_allowed) ∧
  (∀ p, files db0 !! p ≠ None → files (shared st) !! p = None →
     ∃ c m, artifacts (shared st) !! c = Some m ∧ safe_path root (am_relativePath m) = Some p ∧
       keys_revoked (shared st) c ∧ logged (shared st) c op_revoke dec_allowed).
Proof.
  intros Hr%evidence_ok. pose proof (ok_sane _ _ _ _ _ Hr) as HI. split.
  - intros c rev row0 row H0 Hc0 Hrow Hc. pose proof (s_ciphertext _ _ _ _ HI _ _ _ H0 Hc0 Hrow Hc) as Hend.
    pose proof (s_ended _ _ _ _ HI _ _ _ Hrow Hend) as Hl. split; [by apply (s_revoke _ _ _ _ HI)|done].
  - intros p H0 Hp. destruct (s_files _ _ _ _ HI _ H0 Hp) as (c & m & rev & row & Hm & Hpath & Hrow & Hend).
    pose proof (s_ended _ _ _ _ HI _ _ _ Hrow Hend) as Hl. exists c, m.
    split_and!; [done..| |done]. by apply (s_revoke _ _ _ _ HI).
Qed.

(** A capsule recorded as deleted stays so; its keys are revoked, its file is gone,
    the audit trail says both, and its ciphertext is gone too unless the audit
    trail shows a deletion of it that failed. *)
Theorem deleted_means_erased db0 st c rev row :
  reachable db0 st → capsules (shared st) !! (c, rev) = Some row → c_state row = deleted →
  keys_revoked (shared st) c ∧ logged (shared st) c op_delete dec_allowed ∧
  file_gone root (shared st) c ∧ ciphertext_gone (shared st) c ∧
  ∀ st', rtc step st st' → ∃ row', capsules (shared st') !! (c, rev) = Some row' ∧ c_state row' = deleted.
Proof.
  intros Hr%evidence_ok Hrow Hst. pose proof (ok_sane _ _ _ _ _ Hr) as HI.
  pose proof (s_deleted _ _ _ _ HI _ _ _ Hrow Hst) as Hl. destruct (s_delete _ _ _ _ HI _ Hl) as [Hc Hf].
  split_and!; [|done..|].
  - apply (s_revoke _ _ _ _ HI), (s_ended _ _ _ _ HI _ _ _ Hrow). by rewrite Hst.
  - intros st' Hs. destruct (le_rows _ _ (le_capsules _ _ _ (steps_grow _ _ _ Hr Hs)) _ _ Hrow) as (row' & Hr' & He).
    exists row'. split; [done|]. by apply He.
Qed.

(** *** One request *)
(** The audit rows a history committed were not there in [db]. *)
Definition fresh_rows (db : Db) (n : Note) : Prop :=
  match n with n_commit l (Ok _) => Forall (λ e, audits db !! auditId e = None) l | _ => True end.

Lemma fresh_call db0 db st i p h B (e : Call B) b db' :
  system_ok db0 st → le tenant db (shared st) → processes st !! i = Some (p, h) →
  allowed tenant root B h e → answers joins B e (shared st) b db' → fresh_rows db (note B e b).
Proof.
  intros Hok Hle Hi Ha Hans. destruct e; try done. destruct b as [[]|]; [|done]. cbn in *.
  destruct Ha as [-> |(e & -> & Hl & _)]; [done|]. apply Forall_singleton, eq_None_not_Some. intros [e' He].
  destruct (t_free _ (ok_tokens _ _ _ _ _ Hok) _ _ _ _ Hi Hl) as [_ Hnone].
  by rewrite (lookup_weaken _ _ _ _ He (le_audits _ _ _ Hle)) in Hnone.
Qed.

Lemma request_goes_on db0 st st' i verb key actorId correlationId :
  system_ok db0 st → processes st !! i = Some (serve verb key actorId correlationId, []) → rtc step st st' →
  ∃ p h, processes st' !! i = Some (p, h) ∧ Forall (fresh_rows (shared st)) h ∧
    @Interact.tri Call Thrown Note note sound (allowed tenant root) _ p (answered_to verb key (requester actorId correlationId)) h.
Proof.
  intros Hok Hi Hs. revert st' Hs.
  apply (rtc_ind_r (R := step) (λ st', ∃ p h, processes st' !! i = Some (p, h) ∧ Forall (fresh_rows (shared st)) h ∧
    @Interact.tri Call Thrown Note note sound (allowed tenant root) _ p (answered_to verb key (requester actorId correlationId)) h) st).
  - eexists _, _. split; [done|]. split; [done|]. apply tri_serve_to.
  - intros x y Hx Hy (p & h & Hp & Hf & Ht). pose proof (evidence_steps _ _ _ Hok Hx) as Hokx.
    edestruct (@Interact.sched_tri_at) as (p' & h' & Hp' & Ht' & Hh'); [|exact Hp|exact Ht|exact Hy|].
    { intros B e k b s' _ Ha. by eapply sound_answers, Ha; apply (ok_sane _ _ _ _ _ Hokx). }
    exists p', h'. split; [done|]. split; [|done].
    destruct Hh' as [-> |(B & e & b & s' & Ha & Hans & ->)]; [done|]. constructor; [|done].
    eapply fresh_call; [exact Hokx|by eapply steps_grow|done..].
Qed.

(** Every process began as a request. *)
Lemma began db0 st i p h :
  reachable db0 st → processes st !! i = Some (p, h) →
  ∃ st0 verb key actorId correlationId, reachable db0 st0 ∧ rtc step st0 st ∧
    processes st0 !! i = Some (serve verb key actorId correlationId, []).
Proof.
  intros [H0 Hr]. revert st Hr p h. apply (rtc_ind_r (R := step) (λ st, ∀ p h, processes st !! i = Some (p, h) →
    ∃ st0 verb key actorId correlationId, reachable db0 st0 ∧ rtc step st0 st ∧
    processes st0 !! i = Some (serve verb key actorId correlationId, []))); [done|].
  intros x y Hx Hy IH p h Hi.
  assert (∀ p0 h0, processes x !! i = Some (p0, h0) → ∃ st0 verb key actorId correlationId, reachable db0 st0 ∧
    rtc step st0 y ∧ processes st0 !! i = Some (serve verb key actorId correlationId, [])) as Hold.
  { intros p0 h0 (st0 & v & k & a & c & ? & ? & ?)%IH. exists st0, v, k, a, c. split_and!; [done| |done]. by eapply rtc_r. }
  destruct (processes x !! i) as [[p0 h0]|] eqn:Hxi; [by eapply Hold|]. clear Hold.
  assert (rtc step {| shared := db0; processes := [] |} y) as Hr by by eapply rtc_r.
  destruct Hy as [q db l Hq|B j e k hj db db' l Hj Hm|B j e k hj b db db' l Hj Ha]; cbn [processes shared] in *;
    [|discriminate (eq_trans (eq_sym Hi) Hxi)|].
  - apply lookup_app_Some in Hi as [Hi|[Hge Hi]]; [discriminate (eq_trans (eq_sym Hi) Hxi)|].
    apply list_lookup_singleton_Some in Hi as [Hlen [= <- <-]].
    destruct Hq as (v & key & a & c & ->). exists {| shared := db; processes := l ++ [(serve v key a c, [])] |}, v, key, a, c.
    split_and!; [done|done|]. cbn [processes]. apply lookup_app_Some. right. split; [done|]. by apply list_lookup_singleton_Some.
  - apply lookup_lt_Some in Hi. rewrite length_insert in Hi. apply lookup_lt_is_Some in Hi as [? Hi].
    discriminate (eq_trans (eq_sym Hi) Hxi).
Qed.

(** C18: Bytes are given out only to a request for them, and only if, after they were
    read and found to have the registered hash, the capsule was read again and at
    the server's time was active, present and not expired, and the KMS still gave
    its key; and the audit trail then holds a row, new since the request began,
    that names the requester, the artifact, the correlation id and that time. *)
Theorem plaintext_read_audited db0 st st' i verb key actorId correlationId b h :
  reachable db0 st → processes st !! i = Some (serve verb key actorId correlationId, []) → rtc step st st' →
  processes st' !! i = Some (Ret (bytes b), h) →
  verb = get_bytes ∧ ∃ art p h1 h2 row at_ id,
    let c := key_artifactId key in
    n_authorized key (Ok (Some art)) ∈ h1 ∧ safe_path root (am_relativePath (manifest art)) = Some p ∧
    sha256Hex (string_of b) = am_sha256 (manifest art) ∧
    (n_read p (Ok b) :: h1) `suffix_of` h2 ∧ permitted_since tenant (n_now at_ :: h2) h c row at_ ∧
    audits (shared st) !! id = None ∧
    audits (shared st') !! id = Some (plaintext_event tenant id c row (requester actorId correlationId) at_).
Proof.
  intros Hr%evidence_ok Hi Hs Hi'. pose proof (evidence_steps _ _ _ Hr Hs) as Hr'.
  destruct (request_goes_on _ _ _ _ _ _ _ _ Hr Hi Hs) as (p0 & h0 & Hp0 & Hf & Ht). rewrite Hi' in Hp0. injection Hp0 as <- <-.
  destruct Ht as [-> (art & p & h1 & h2 & row & at_ & id & Ha & Hp & Hsha & Hsuf & Hpe & Hc)]. split; [done|].
  pose proof (ok_holds _ _ _ _ _ Hr') as Hh. rewrite Forall_lookup in Hh. pose proof (Hh _ _ Hi') as Hhi.
  rewrite Forall_forall in Hhi, Hf. pose proof (Hf _ Hc) as Hnew. apply Hhi in Hc.
  cbn in Hc, Hnew. rewrite Forall_singleton in Hc, Hnew.
  exists art, p, h1, h2, row, at_, id. by split_and!.
Qed.

(** *** After the keys are on their way out *)
Definition sees_inactive (c : string) (n : Note) : Prop :=
  match n with n_load c' (Ok (Some (rev, row))) => c' = c → c_state row ≠ active | _ => True end.
Lemma late_requests db0 st st' c n :
  system_ok db0 st → all_rows (shared st) c (λ row, c_state row ≠ active) → length (processes st) = n → rtc step st st' →
  ∀ i p h, n ≤ i → processes st' !! i = Some (p, h) → Forall (sees_inactive c) h.
Proof.
  intros Hok Hc Hn Hr. assert (∀ i p h, n ≤ i → processes st !! i = Some (p, h) → Forall (sees_inactive c) h) as Hst.
  { intros i p h Hle Hi. apply lookup_lt_Some in Hi. subst n. destruct (Nat.lt_irrefl i). eapply Nat.lt_le_trans; [exact Hi|exact Hle]. }
  clear Hn. revert Hok Hc Hst. induction Hr as [|x y z Hs _ IH]; [done|]. intros Hok Hc Hst.
  apply IH; [by eapply evidence_step| |].
  - eapply all_rows_le; [apply (step_grows _ _ _ Hok Hs)| |exact Hc]. intros row row' He. apply He.
  - intros i p h Hle Hi. destruct Hs as [q db l Hq|B j e k hj db db' l Hj Hm|B j e k hj b db db' l Hj Ha]; cbn in *; [|done|].
    + apply lookup_app_Some in Hi as [Hi|[_ Hi]]; [by eapply Hst|].
      apply list_lookup_singleton_Some in Hi as [_ [= <- <-]]. done.
    + destruct (decide (i = j)) as [-> |Hne]; [|rewrite list_lookup_insert_ne in Hi by done; by eapply Hst].
      rewrite list_lookup_insert_eq in Hi by (by eapply lookup_lt_Some). injection Hi as <- <-.
      constructor; [|by eapply Hst]. destruct e; cbn; try done. destruct Ha as [[-> | ->] _]; [|done].
      destruct (select_capsule _ _) as [[rev row]|] eqn:Hsel; [|done]. intros ->.
      apply select_capsule_Some in Hsel as [Hrow _]. by eapply Hc.
Qed.

(** C19: Once a deletion has moved a capsule out of the active state, no request that
    begins later gets its bytes, whatever interleaves and whatever fails. *)
Theorem erased_is_unreadable db0 st st' c i b h :
  reachable db0 st → all_rows (shared st) c (λ row, c_state row ≠ active) → rtc step st st' →
  length (processes st) ≤ i → processes st' !! i = Some (Ret (bytes b), h) →
  ¬ given_out h c b ∧ ∃ c', c' ≠ c ∧ given_out h c' b.
Proof.
  intros Hr%evidence_ok Hc Hs Hi Hp.
  pose proof (late_requests _ _ _ _ _ Hr Hc eq_refl Hs _ _ _ Hi Hp) as Hsees. rewrite Forall_forall in Hsees.
  assert (¬ given_out h c b) as Hno.
  { intros (key & art & p & h1 & row & at_ & actor & id & <- & _ & _ & _ & (l & rev & -> & Hin & Hact & _) & _).
    apply (Hsees (n_load (key_artifactId key) (Ok (Some (rev, row))))); [|done..]. apply elem_of_app. by left. }
  split; [done|]. pose proof (ok_tri _ _ _ _ _ (evidence_steps _ _ _ Hr Hs)) as Ht. rewrite Forall_lookup in Ht.
  destruct (Ht _ _ Hp) as (c' & Hg). exists c'. split; [|done]. by intros ->.
Qed.

End properties.
End EvidenceProperties.
