(* ===== verification/EvidenceProgress.v ===== *)
(** * Evidence: a deletion ends

    When nothing is refused, a deletion takes a capsule from whatever state earlier
    requests, failures and crashes left it in to its end. *)
From S2P Require Import Prelude Number Json Interact ArtifactUpload.
From S2P Require Import Evidence EvidenceTables EvidenceSafety EvidenceRules EvidenceProperties.
Import ArtifactUpload(ArtifactManifest, am_artifactId, am_runId, am_relativePath, am_sha256, string_of).

Module EvidenceProgress.
Import Evidence EvidenceTables EvidenceSafety EvidenceRules EvidenceProperties.

Lemma before_bar_app a b : before_bar (a +:+ "|" +:+ b) = before_bar a.
Proof.
  induction a as [|x a IH]; [done|]. change (String x a +:+ "|" +:+ b) with (String x (a +:+ "|" +:+ b)). cbn.
  destruct (Ascii.eqb _ _); [done|]. f_equal. exact IH.
Qed.

Section progress.
Context (sha256Hex : string → string) (tenant : string) (root : path) (kmsPolicyId : string)
  (joins : AuthorizedArtifactKey → option (string * string)).
(** The time of every clock. *)
Context (now : string).

(** ** A world that refuses nothing *)
Definition respond (B : Type) (e : Call B) : Db → B * Db :=
  match e in Call B return Db → B * Db with
  | Now => λ db, (now, db)
  | RandomUuid => λ db, let id := fresh (issued db) in (id, set_issued ({[id]} ∪ issued db) db)
  | SelectAuthorized key => λ db, (Ok (select_authorized joins key db), db)
  | SelectCapsule c => λ db, (Ok (select_capsule c db), db)
  | UpdateLifecycle c from to occurredAt reason => λ db,
      let r := update_lifecycle c from to occurredAt reason db in (Ok r.1, r.2)
  | SelectUnrevoked c => λ db, (Ok (matches c (in_states [active; revoking]) (capsules db)), db)
  | EraseCiphertext c => λ db, (Ok tt, erase_ciphertext c db)
  | InsertAudit e => λ db, (Ok tt, insert_audit e db)
  | Begin | InsertPending _ => λ db, (Ok tt, db)
  | Commit l => λ db, (Ok tt, insert_audits l db)
  | SelectRevocation t scope c => λ db, (Ok (select_revocation t scope c db), db)
  | UpsertRevocation t c row => λ db, (Ok tt, upsert_revocation t c row db)
  | SelectKey t scope keyId => λ db, (Ok (keys db !! (t, scope, keyId)), db)
  | ReadFile p => λ db, (match files db !! p with Some b => Ok b | None => Throw OtherError end, db)
  | DeleteFile p => λ db, (Ok tt, delete_file p db)
  end.
Lemma evidence_respond_answers B (e : Call B) db b db' : respond B e db = (b, db') → answers joins B e db b db'.
Proof.
  destruct e; cbn [respond answers]; intros H; injection H as <- <-;
    try (by split; [left|]); try (by left); try done; try (split; [apply is_fresh|done]).
  split; [done|]. by destruct (files db !! p).
Qed.
Notation ends := (@Interact.ends Call Thrown Db respond _).

Lemma ends_reply {B} (e : Call (outcome Thrown B)) Q db b db' :
  respond _ e db = (Ok b, db') → Q b db' → ends (call e) Q db.
Proof. apply ends_call. Qed.
Lemma ends_attempt {A} (p : M A) (Q : outcome Thrown A → Db → Prop) db : ends p (λ a, Q (Ok a)) db → ends (attempt p) Q db.
Proof.
  intros (a & db' & Hp & HQ). exists (Ok a), db'. split; [|done]. clear HQ. revert db Hp.
  induction p as [a'|x|B e k IH]; intros db; cbn.
  - by intros [= -> ->].
  - done.
  - destruct (respond B e db) as [b db1]. apply IH.
Qed.

(** ** Where a deletion has got to

    Capsule [c] is there, in state [s] in all its revisions; the audit rows have
    identifiers that were issued; the files and the artifacts are these. *)
Record ready (F : gmap path buffer) (Ar : gmap string ArtifactManifest) (c : string) (s : EvidenceLifecycleState)
    (db : Db) : Prop := {
  rd_row : ∃ rev row, capsules db !! (c, rev) = Some row;
  rd_state : all_rows db c (λ row, c_state row = s);
  rd_issued : ∀ id, audits db !! id ≠ None → id ∈ issued db;
  rd_files : files db = F;
  rd_artifacts : artifacts db = Ar;
}.
Section phases.
Context (F : gmap path buffer) (Ar : gmap string ArtifactManifest) (c : string).
Notation ready := (ready F Ar c).

Lemma ready_select s db : ready s db → ∃ rev row, select_capsule c db = Some (rev, row) ∧ c_state row = s.
Proof.
  intros [(rev & row & Hr) Hs _ _ _]. destruct (select_capsule c db) as [[rev' row']|] eqn:Hsel.
  - exists rev', row'. split; [done|]. apply select_capsule_Some in Hsel as [H _]. by eapply Hs.
  - by rewrite (select_capsule_None _ _ rev Hsel) in Hr.
Qed.
Lemma updated_all s to at_ reason db :
  ready s db → all_rows (update_lifecycle c [s] to at_ reason db).2 c
    (λ row', ∃ rev row, capsules db !! (c, rev) = Some row ∧ row' = lifecycleUpdateValues to at_ reason row).
Proof.
  intros Hrd rev row'. rewrite update_lookup. intros (row & Hrow & Hr)%fmap_Some. cbn in Hr.
  rewrite String.eqb_refl in Hr. unfold in_states in Hr. cbn in Hr.
  rewrite bool_decide_eq_true_2 in Hr by (rewrite (rd_state _ _ _ _ _ Hrd _ _ Hrow); by left). by exists rev, row.
Qed.
Lemma ready_update s to at_ reason db : ready s db → ready to (update_lifecycle c [s] to at_ reason db).2.
Proof.
  intros H. pose proof (updated_all _ to at_ reason _ H) as Hall. destruct H as [(rev & row & Hr) Hs Hi HF HA]. split; try done.
  - eexists rev, _. rewrite update_lookup, Hr. reflexivity.
  - intros rev' row' Hr'. by destruct (Hall _ _ Hr') as (? & ? & _ & ->).
Qed.
(** The state after an audit row of [op] and [dec] on [c] was written. *)
Definition after_audit (op : AuditOperation) (dec : AuditDecision) (db db' : Db) : Prop :=
  capsules db' = capsules db ∧ files db' = files db ∧ logged db' c op dec.
Lemma ends_audit s r actor op dec reason at_ Q db :
  ready s db → tenantId r = tenant → capsuleId r = c →
  (∀ db', ready s db' → after_audit op dec db db' → Q tt db') →
  ends (audit tenant r actor op dec reason at_) Q db.
Proof.
  intros [Hr Hs Hi HF HA] Ht Hc HQ. unfold audit. apply ends_bind, ends_ask. cbn. unfold record. cbn.
  rewrite Ht, String.eqb_refl. set (id := fresh (issued db)).
  assert (audits db !! id = None) as Hid.
  { destruct (audits db !! id) eqn:E; [|done]. destruct (is_fresh (issued db)). apply Hi. fold id. congruence. }
  eapply ends_reply; [done|]. unfold insert_audit. cbn. rewrite Hid. apply HQ.
  - split; cbn; try done. intros id' H. destruct (decide (id' = id)) as [-> |Hne]; [set_solver|].
    rewrite lookup_insert_ne in H by done. apply Hi in H. set_solver.
  - split_and!; [done..|]. exists id. eexists. cbn. rewrite lookup_insert_eq. split_and!; [done|exact Hc|done..].
Qed.
Lemma ends_requireRecord s Q db :
  ready s db → (∀ row, c_state row = s → Q (to_record tenant c row) db) → ends (requireRecord tenant c) Q db.
Proof.
  intros Hrd HQ. destruct (ready_select _ _ Hrd) as (rev & row & Hsel & Hs).
  apply ends_bind, ends_bind. eapply ends_reply; [by cbn; rewrite Hsel|]. apply ends_ret. cbn. by apply ends_ret, HQ.
Qed.
Lemma ends_advance s to at_ reason Q db :
  ready s db → Q tt (update_lifecycle c [s] to at_ reason db).2 → ends (advance c [s] to at_ reason) Q db.
Proof.
  intros Hrd HQ. apply ends_bind, ends_bind. eapply ends_reply; [reflexivity|].
  destruct (rd_row _ _ _ _ _ Hrd) as (rev & row & Hr).
  assert (matches c (in_states [s]) (capsules db) = true) as Hm.
  { apply matches_true. exists rev, row. split; [done|]. apply bool_decide_eq_true_2.
    rewrite (rd_state _ _ _ _ _ Hrd _ _ Hr). by left. }
  cbn [update_lifecycle fst]. rewrite Hm. by apply ends_ret, ends_ret.
Qed.

(** ** The phases *)
Notation tagged r db := (∃ row, r = to_record tenant c row ∧ ready (c_state row) db).
Lemma ends_begin_revoking input r Q db :
  del_capsuleId input = c → tagged r db → state r ≠ deleted →
  (∀ r' db', tagged r' db' → state r' ≠ active → state r' ≠ deleted → Q r' db') →
  ends (begin_revoking tenant input r) Q db.
Proof.
  intros Hc (row & -> & Hrd) Hnd HQ. unfold begin_revoking. cbn in *. rewrite Hc.
  destruct (bool_decide_reflect (c_state row = active)) as [Ha|Hna].
  - rewrite Ha in Hrd. apply ends_bind, ends_advance; [done|]. eapply ends_requireRecord; [by apply ready_update|].
    intros row' Hs. apply HQ; cbn; [|by rewrite Hs..]. exists row'. split; [done|]. rewrite Hs. by apply ready_update.
  - apply ends_ret, HQ; [|done..]. by exists row.
Qed.
Lemma ends_revoke_keys input r Q db :
  del_capsuleId input = c → before_bar tenant ≠ "" → tagged r db → state r ≠ active → state r ≠ deleted →
  (∀ r' db', tagged r' db' → state r' = revoked ∨ state r' = deleting → Q r' db') →
  ends (revoke_keys tenant true input r) Q db.
Proof.
  intros Hc Ht (row & -> & Hrd) Hna Hnd HQ. unfold revoke_keys. cbn -[revokeForScope audit advance requireRecord] in *. rewrite Hc.
  destruct (bool_decide_reflect (c_state row = revoking)) as [Hr|Hnr].
  - rewrite Hr in Hrd. apply ends_bind, ends_attempt. unfold revokeForScope, markCapsuleRevoked, tenantFromScopeId.
    apply ends_bind, ends_ask. cbn [respond fst snd].
    change (check_scope (plaintext_check (to_record tenant c row) c (del_occurredAt input))) with (row_scope tenant row).
    assert (before_bar (row_scope tenant row) = before_bar tenant) as Hbar.
    { apply before_bar_app. }
    rewrite Hbar. destruct (String.eqb_spec (before_bar tenant) ""); [done|]. cbn [mbind prog_bind prog_bind_].
    eapply ends_reply; [done|]. cbn [respond fst snd].
    apply ends_bind. eapply ends_audit; [|done..|].
    { destruct Hrd as [H1 H2 H3 H4 H5]. by split. }
    intros db1 Hrd1 _. apply ends_bind, ends_advance; [done|]. eapply ends_requireRecord; [by apply ready_update|].
    intros row' Hs. apply HQ; [|by left]. exists row'. split; [done|]. rewrite Hs. by apply ready_update.
  - apply ends_ret, HQ; [by exists row|]. cbn. destruct (c_state row); naive_solver.
Qed.
Lemma ends_begin_deleting input r Q db :
  del_capsuleId input = c → tagged r db → state r = revoked ∨ state r = deleting →
  (∀ r' db', tagged r' db' → state r' = deleting → Q r' db') →
  ends (begin_deleting tenant input r) Q db.
Proof.
  intros Hc (row & -> & Hrd) Hs HQ. unfold begin_deleting. cbn in *. rewrite Hc.
  destruct (bool_decide_reflect (c_state row = revoked)) as [Ha|Hna].
  - rewrite Ha in Hrd. apply ends_bind, ends_advance; [done|]. eapply ends_requireRecord; [by apply ready_update|].
    intros row' Hs'. apply HQ; cbn; [|done]. exists row'. split; [done|]. rewrite Hs'. by apply ready_update.
  - apply ends_ret, HQ; [by exists row|]. cbn. naive_solver.
Qed.
End phases.

Definition no_ciphertext_left (db : Db) (c : string) : Prop := all_rows db c (λ row, c_ciphertext row = None).
Lemma ready_erase F Ar c db :
  ready F Ar c deleting db → ready F Ar c deleting (erase_ciphertext c db) ∧ no_ciphertext_left (erase_ciphertext c db) c.
Proof.
  intros [(rev & row & Hr) Hs Hi HF HA]. split; [split; try done|].
  - eexists rev, _. rewrite erase_lookup, Hr. reflexivity.
  - intros rev' row' (row1 & Hr1 & _ & -> & _)%erased_row. by eapply Hs.
  - intros rev' row' (row1 & Hr1 & _ & _ & H)%erased_row. destruct H as [[_ Hn]|[_ H]]; [|done].
    destruct (Hn eq_refl). by eapply Hs.
Qed.
Lemma ends_erase F Ar m p c input r Q db :
  am_artifactId m = c → safe_path root (am_relativePath m) = Some p → del_capsuleId input = c →
  (∃ row, r = to_record tenant c row ∧ ready F Ar c (c_state row) db) → state r = deleting →
  (∀ db', ready (delete p F) Ar c deleted db' → no_ciphertext_left db' c → Q deleted db') →
  ends (erase tenant (operation_deleteCiphertext root m) input r) Q db.
Proof.
  intros Hm Hp Hc (row & -> & Hrd) Hst HQ. cbn in Hst. rewrite Hst in Hrd. unfold erase. rewrite Hc.
  cbn [state to_record]. rewrite bool_decide_eq_true_2 by done.
  apply ends_bind, ends_attempt. unfold operation_deleteCiphertext. rewrite Hm, String.eqb_refl.
  unfold artifactStore_delete, resolveSafePathFromRelative. rewrite Hp. apply ends_bind.
  eapply ends_reply; [reflexivity|]. set (db1 := delete_file p db).
  assert (ready (delete p F) Ar c deleting db1) as Hrd1.
  { destruct Hrd as [H1 H2 H3 H4 H5]. split; try done. cbn. by rewrite H4. }
  apply ends_bind. eapply ends_reply; [reflexivity|].
  assert (matches c (in_states [active; revoking]) (capsules db1) = false) as ->.
  { apply not_true_is_false. intros (rev & row1 & Hr & Hin%bool_decide_eq_true)%matches_true.
    rewrite (rd_state _ _ _ _ _ Hrd1 _ _ Hr) in Hin. set_solver. }
  apply ends_bind, ends_ret. eapply ends_reply; [reflexivity|].
  destruct (ready_erase _ _ _ _ Hrd1) as [Hrd2 Hn2].
  apply ends_bind. eapply ends_audit; [exact Hrd2|done..|]. intros db3 Hrd3 (Hc3 & _ & _).
  apply ends_bind. eapply ends_advance; [exact Hrd3|]. apply ends_ret, HQ; [by eapply ready_update|].
  intros rev row' Hr'. eapply updated_all in Hr' as (rev' & row1 & Hr1 & ->); [|exact Hrd3]. cbn.
  rewrite Hc3 in Hr1. by eapply Hn2.
Qed.

(** C20: Whatever earlier requests, failures and crashes left behind, a deletion that
    meets no refusal ends, and then the capsule is recorded as deleted and its file
    is gone; unless it was recorded as deleted before, its ciphertext is gone too. *)
Theorem deletion_completes db0 st key art p rev row actorId correlationId :
  reachable tenant root joins sha256Hex kmsPolicyId true db0 st → before_bar tenant ≠ "" →
  select_authorized joins key (shared st) = Some art → safe_path root (am_relativePath (manifest art)) = Some p →
  capsules (shared st) !! (key_artifactId key, rev) = Some row →
  ends (serve sha256Hex tenant root kmsPolicyId true delete_artifact key actorId correlationId)
    (λ reply db', reply = lifecycleState deleted ∧
       all_rows db' (key_artifactId key) (λ row', c_state row' = deleted) ∧ files db' !! p = None ∧
       (c_state row ≠ deleted → no_ciphertext_left db' (key_artifactId key))) (shared st).
Proof.
  intros Hr%evidence_ok Ht Hart Hp Hrow. pose proof (ok_sane _ _ _ _ _ Hr) as HI.
  set (c := key_artifactId key) in *. set (db := shared st) in *.
  assert (artifacts db !! c = Some (manifest art) ∧ am_artifactId (manifest art) = c) as [Hm Hid].
  { unfold select_authorized in Hart. destruct (artifacts db !! key_artifactId key) as [m|] eqn:Hm; [|done].
    destruct (joins key) as [[]|]; [|done]. destruct (String.eqb _ _); [|done]. injection Hart as <-.
    split; [done|]. by apply (s_artifacts _ _ _ _ HI) in Hm. }
  assert (ready (files db) (artifacts db) c (c_state row) db) as Hrd.
  { split; try done; [by exists rev, row| |apply (t_issued _ (ok_tokens _ _ _ _ _ Hr))].
    intros rev' row' Hr'. by eapply (s_uniform _ _ _ _ HI). }
  assert (∀ db' s, ready (delete p (files db)) (artifacts db) c s db' → files db' !! p = None) as Hgone.
  { intros db' s H. rewrite (rd_files _ _ _ _ _ H). apply lookup_delete_eq. }
  unfold serve. apply ends_bind, ends_attempt, ends_bind. eapply ends_reply; [by cbn; rewrite Hart|].
  cbn [handle]. unfold route_deleteEvidence. apply ends_bind, ends_bind, ends_attempt, ends_bind, ends_ask. cbn [respond fst snd].
  apply ends_bind. cbn [del_capsuleId]. unfold req_capsuleId. cbn [req_artifact]. rewrite Hid.
  eapply ends_requireRecord; [exact Hrd|]. intros row1 Hrow1. cbn [state to_record].
  destruct (bool_decide_reflect (c_state row1 = deleted)) as [Hdel|Hnd].
  - apply ends_ret, ends_ret, ends_ret, ends_ret. split_and!; [done| | |congruence].
    + intros rev' row' Hr'. rewrite <- Hdel, Hrow1. by eapply (rd_state _ _ _ _ _ Hrd).
    + rewrite Hrow1 in Hdel. by eapply (s_delete _ _ _ _ HI _ (s_deleted _ _ _ _ HI _ _ _ Hrow Hdel)).
  - apply ends_bind. eapply (ends_begin_revoking (files db) (artifacts db) c); [done|by exists row1; rewrite Hrow1|done|].
    intros r2 db2 Ht2 Hna Hnd2. apply ends_bind.
    eapply (ends_revoke_keys (files db) (artifacts db) c); [done..|]. intros r3 db3 Ht3 Hs3. apply ends_bind.
    eapply (ends_begin_deleting (files db) (artifacts db) c); [done..|]. intros r4 db4 Ht4 Hs4.
    eapply (ends_erase (files db) (artifacts db)); [done..|]. intros db5 Hrd5 Hn5.
    apply ends_ret, ends_ret, ends_ret. split_and!; [done|by apply Hrd5|by eapply Hgone|done].
Qed.

End progress.
End EvidenceProgress.
