(* ===== verification/EvidenceSample.v ===== *)
(** * Evidence: sample deployments

    A tenant with two capsules and their files, a scheduler that runs requests on it by
    a script, the properties at concrete inputs, and the interleaving in which a
    ciphertext outlives its deletion. *)
From S2P Require Import Prelude Number Json Interact ArtifactUpload.
From S2P Require Import Evidence EvidenceTables EvidenceSafety EvidenceRules EvidenceProperties EvidenceProgress.
From Stdlib Require Import Ascii.
Import ArtifactUpload(ArtifactManifest, am_artifactId, am_runId, am_relativePath, am_sha256, string_of).

Module EvidenceSample.
Import Evidence EvidenceTables EvidenceSafety EvidenceRules EvidenceProperties EvidenceProgress.

(** ** The parameters *)
Definition sample_sha256 (s : string) : string := s.
Definition sample_tenant : string := "acme".
Definition sample_root : path := ["srv"; "artifacts"].
Definition sample_policy : string := "policy-1".
Definition sample_joins (key : AuthorizedArtifactKey) : option (string * string) := Some ("case-1", sample_policy).
Definition sample_now : string := "2024-05-01T00:00:00.000Z".

(** ** Two capsules *)
Definition sample_key (artifact : string) : AuthorizedArtifactKey :=
  {| key_projectId := "project"; key_runId := "run"; key_artifactId := artifact |}.
Definition sample_bytes : buffer := String.list_ascii_of_string "png".
Definition sample_manifest (artifact : string) : ArtifactManifest :=
  {| ArtifactUpload.am_artifactId := artifact; ArtifactUpload.am_runId := "run";
     ArtifactUpload.am_kind := "screenshot"; ArtifactUpload.am_mediaType := "image/png";
     ArtifactUpload.am_relativePath := "run/" +:+ artifact; ArtifactUpload.am_sha256 := "png";
     ArtifactUpload.am_size := 3; ArtifactUpload.am_createdAt := "2024-01-01T00:00:00.000Z" |}.
Definition sample_row : CapsuleRow :=
  {| c_caseId := "case-1"; c_purpose := EVIDENCE_PURPOSE; c_policyId := sample_policy; c_region := "eu";
     c_wrappingKeyId := "key-1"; c_state := active; c_ciphertext := Some sample_bytes;
     c_expiresAt := "2025-01-01T00:00:00.000Z"; c_revocationState := "none"; c_revokedAt := None;
     c_revokedReason := None; c_updatedAt := None; c_deletedAt := None; c_lastError := None |}.
Definition sample_file (artifact : string) : path := ["srv"; "artifacts"; "run"; artifact].
Definition sample_db : Db :=
  {| capsules := {[("shot", 1%Z) := sample_row; ("log", 1%Z) := sample_row]}; audits := ∅; revocations := ∅;
     keys := {[(sample_tenant, "acme|case-1|eu|investigation", "key-1") := key_active]};
     artifacts := {["shot" := sample_manifest "shot"; "log" := sample_manifest "log"]};
     files := {[sample_file "shot" := sample_bytes; sample_file "log" := sample_bytes]}; issued := ∅ |}.

(** ** A scheduler *)
Notation respond := (EvidenceProgress.respond sample_joins sample_now).
Definition refuse_call (B : Type) (e : Call B) (db : Db) : B * Db :=
  match e in Call B return B * Db → B * Db with
  | Now | RandomUuid => λ r, r
  | SelectAuthorized _ | SelectCapsule _ | UpdateLifecycle _ _ _ _ _ | SelectUnrevoked _ | EraseCiphertext _
  | InsertAudit _ | Begin | InsertPending _ | Commit _ | SelectRevocation _ _ _ | UpsertRevocation _ _ _
  | SelectKey _ _ _ | ReadFile _ | DeleteFile _ => λ _, (Throw OtherError, db)
  end (respond B e db).
Lemma refuse_answers B (e : Call B) db b db' :
  refuse_call B e db = (b, db') → answers sample_joins B e db b db'.
Proof.
  destruct e; cbn [refuse_call]; intros H; try (by apply (evidence_respond_answers sample_joins sample_now));
    injection H as <- <-; cbn; try (by split; [right|]); try (by right; split; [|left]); done.
Qed.

(** A client asks; a request makes one call, which succeeds or is refused; a request
    makes [n] calls. *)
Inductive Move := asks (verb : Verb) (artifact : string) | goes (i n : nat) | refused (i : nat).
Notation system := (@Interact.sched_state Call Thrown Note Db Reply).
Definition sample_serve (verb : Verb) (artifact : string) : M Reply :=
  serve sample_sha256 sample_tenant sample_root sample_policy true verb (sample_key artifact) "ann" "corr".
Definition one_call (world : ∀ B, Call B → Db → B * Db) (i : nat) (st : system) : system :=
  match processes st !! i with
  | Some (Vis e k, h) =>
      let r := world _ e (shared st) in
      {| shared := r.2; processes := <[i := (k r.1, note _ e r.1 :: h)]> (processes st) |}
  | _ => st
  end.
Definition move (m : Move) (st : system) : system :=
  match m with
  | asks verb artifact => {| shared := shared st; processes := processes st ++ [(sample_serve verb artifact, [])] |}
  | goes i n => Nat.iter n (one_call respond i) st
  | refused i => one_call refuse_call i st
  end.
Definition run_script (l : list Move) (st : system) : system := foldl (λ st m, move m st) st l.
Definition sample_start : system := {| shared := sample_db; processes := [] |}.
Notation step := (@Interact.sched Call Thrown Note note Db Reply (answers sample_joins) midway
  (startable sample_tenant sample_root sample_sha256 sample_policy true)).
Notation reachable := (reachable sample_tenant sample_root sample_joins sample_sha256 sample_policy true).

Lemma one_call_steps world i st :
  (∀ B (e : Call B) db b db', world B e db = (b, db') → answers sample_joins B e db b db') → rtc step st (one_call world i st).
Proof.
  intros Hw. unfold one_call. destruct (processes st !! i) as [[[a|x|B e k] h]|] eqn:Hi; [done..| |done].
  destruct st as [db l]. cbn in *. apply rtc_once. eapply sched_call; [exact Hi|]. apply Hw. by destruct (world B e db).
Qed.
Lemma move_steps m st : rtc step st (move m st).
Proof.
  destruct m as [verb artifact|i n|i]; cbn.
  - destruct st as [db l]. apply rtc_once, sched_start. by eexists _, _, _, _.
  - induction n as [|n IH]; [done|]. etrans; [exact IH|]. apply one_call_steps, evidence_respond_answers.
  - apply one_call_steps, refuse_answers.
Qed.
Lemma script_steps l st : rtc step st (run_script l st).
Proof. revert st. induction l as [|m l IH]; intros st; [done|]. etrans; [apply move_steps|apply IH]. Qed.
Lemma script_reachable l : reachable sample_db (run_script l sample_start).
Proof.
  split; [|apply script_steps]. split; [|done|]; (apply map_Forall_insert_2; [done|by apply map_Forall_singleton]).
Qed.

(** ** Executions *)
Definition returned (st : system) (i : nat) : option Reply :=
  match processes st !! i with Some (Ret r, _) => Some r | _ => None end.
Definition history (st : system) (i : nat) : list Note := default [] (snd <$> processes st !! i).
Lemma returned_process st i r : returned st i = Some r → processes st !! i = Some (Ret r, history st i).
Proof. unfold returned, history. destruct (processes st !! i) as [[[a|x|B e k] h]|]; [|done..]. by intros [= ->]. Qed.

(** One request that meets no refusal. *)
Definition alone (verb : Verb) : system := run_script [asks verb "shot"; goes 0 100] sample_start.
Example read_returns : returned (alone get_bytes) 0 = Some (bytes sample_bytes).
Proof. vm_compute. reflexivity. Qed.
Example delete_returns : returned (alone delete_artifact) 0 = Some (lifecycleState deleted).
Proof. vm_compute. reflexivity. Qed.
Notation row_of st c := (capsules (shared st) !! (c, 1%Z)).
Definition sample_deleted : CapsuleRow :=
  no_ciphertext (lifecycleUpdateValues deleted sample_now "public_api_delete" sample_row).
Lemma deleted_row : row_of (alone delete_artifact) "shot" = Some sample_deleted.
Proof. vm_compute. reflexivity. Qed.

Lemma erasure_after_revocation_witness :
  keys_revoked sample_tenant (shared (alone delete_artifact)) "shot" ∧
  logged (shared (alone delete_artifact)) "shot" op_revoke dec_allowed.
Proof.
  destruct (erasure_after_revocation sample_sha256 sample_tenant sample_root sample_policy true sample_joins
    sample_db (alone delete_artifact) (script_reachable _)) as [H _].
  refine (H "shot" 1%Z sample_row sample_deleted _ _ deleted_row eq_refl); [reflexivity|discriminate].
Defined.
Lemma deleted_means_erased_witness :
  file_gone sample_root (shared (alone delete_artifact)) "shot" ∧ ciphertext_gone (shared (alone delete_artifact)) "shot".
Proof.
  destruct (deleted_means_erased sample_sha256 sample_tenant sample_root sample_policy true sample_joins
    sample_db (alone delete_artifact) "shot" 1 sample_deleted (script_reachable _)) as (_ & _ & Hf & Hc & _);
    [apply deleted_row|done|done].
Defined.
(** The request when it is made. *)
Definition asked : system := run_script [asks get_bytes "shot"] sample_start.
Lemma asked_alone : run_script [goes 0 100] asked = alone get_bytes.
Proof. exact (eq_sym (foldl_app (λ st m, move m st) [asks get_bytes "shot"] [goes 0 100] sample_start)). Qed.
Lemma asked_steps : rtc step asked (alone get_bytes).
Proof. rewrite <- asked_alone. apply script_steps. Qed.
Lemma asked_process :
  processes asked !! 0 = Some (serve sample_sha256 sample_tenant sample_root sample_policy true get_bytes (sample_key "shot") "ann" "corr", []).
Proof. reflexivity. Qed.
Lemma plaintext_read_audited_witness :
  ∃ row at_ id, audits (shared asked) !! id = None ∧
    audits (shared (alone get_bytes)) !! id
      = Some (plaintext_event sample_tenant id "shot" row {| actorType := user; actorId := "ann"; correlationId := "corr" |} at_).
Proof.
  destruct (plaintext_read_audited sample_sha256 sample_tenant sample_root sample_policy true sample_joins
    sample_db asked (alone get_bytes) 0 get_bytes (sample_key "shot") "ann" "corr" sample_bytes
    (history (alone get_bytes) 0) (script_reachable _) asked_process asked_steps (returned_process _ _ _ read_returns))
    as (_ & art & p & h1 & h2 & row & at_ & id & _ & _ & _ & _ & _ & Hnew & H).
  exact (ex_intro _ row (ex_intro _ at_ (ex_intro _ id (conj Hnew H)))).
Defined.

(** A deletion has begun; then another capsule is read. *)
Definition begun : system := run_script [asks delete_artifact "shot"; goes 0 5] sample_start.
Definition late_read : list Move := [asks get_bytes "log"; goes 0 1; goes 1 100].
Lemma begun_rows : all_rows (shared begun) "shot" (λ row, c_state row ≠ active).
Proof.
  intros rev row H.
  assert (map_Forall (λ k row, bool_decide (k.1 = "shot" → c_state row ≠ active) = true) (capsules (shared begun))) as Hall.
  { apply map_Forall_to_list. vm_compute. by repeat constructor. }
  apply (bool_decide_eq_true_1 _ (Hall _ _ H)). done.
Qed.
Lemma late_returns : returned (run_script late_read begun) 1 = Some (bytes sample_bytes).
Proof. vm_compute. reflexivity. Qed.
Lemma erased_is_unreadable_witness :
  ¬ given_out sample_sha256 sample_tenant sample_root (history (run_script late_read begun) 1) "shot" sample_bytes.
Proof.
  apply (erased_is_unreadable sample_sha256 sample_tenant sample_root sample_policy true sample_joins sample_db
    begun (run_script late_read begun) "shot" 1 sample_bytes); [apply script_reachable|apply begun_rows|apply script_steps
    |apply le_n|apply returned_process, late_returns].
Defined.

(** A deletion fails, and another crashes; then one meets no refusal. *)
Definition damaged : system :=
  run_script [asks delete_artifact "shot"; goes 0 5; asks delete_artifact "shot"; goes 1 9; refused 1] sample_start.
Definition damaged_row : CapsuleRow := lifecycleUpdateValues revoked sample_now "public_api_delete" sample_row.
Lemma damaged_revoked : row_of damaged "shot" = Some damaged_row.
Proof. vm_compute. reflexivity. Qed.
Lemma damaged_artifact : select_authorized sample_joins (sample_key "shot") (shared damaged) =
  Some {| manifest := sample_manifest "shot"; evidenceCaseId := "case-1"; evidencePolicyId := sample_policy |}.
Proof. vm_compute. reflexivity. Qed.
Lemma deletion_completes_witness :
  Interact.ends (EvidenceProgress.respond sample_joins sample_now) (sample_serve delete_artifact "shot")
    (λ reply db', reply = lifecycleState deleted ∧ files db' !! sample_file "shot" = None ∧ no_ciphertext_left db' "shot")
    (shared damaged).
Proof.
  eapply ends_mono.
  - apply (deletion_completes sample_sha256 sample_tenant sample_root sample_policy sample_joins sample_now sample_db damaged
      (sample_key "shot") {| manifest := sample_manifest "shot"; evidenceCaseId := "case-1"; evidencePolicyId := sample_policy |}
      (sample_file "shot") 1 damaged_row "ann" "corr"); [apply script_reachable|discriminate|apply damaged_artifact|reflexivity|apply damaged_revoked].
  - intros reply db' (-> & _ & Hf & Hc). split_and!; [done..|]. by apply Hc.
Defined.

(** ** A ciphertext that outlives its deletion

    Two deletions are erasing the capsule.  The second is refused the file, says so
    and puts the capsule back to revoked; the first then finds no row to erase, which
    the store does not report, and says that it deleted; a third moves the capsule on
    to deleting, and the first records it as deleted. *)
Definition race_script : list Move :=
  [asks delete_artifact "shot"; goes 0 13;
   asks delete_artifact "shot"; goes 1 3; refused 1; goes 1 3;
   goes 0 5;
   asks delete_artifact "shot"; goes 2 4;
   goes 0 1].
Definition race : system := run_script race_script sample_start.
Definition race_row : CapsuleRow := lifecycleUpdateValues deleted sample_now "public_api_delete" sample_row.
Lemma race_returns : returned race 0 = Some (lifecycleState deleted).
Proof. vm_compute. reflexivity. Qed.
Lemma race_deleted : row_of race "shot" = Some race_row.
Proof. vm_compute. reflexivity. Qed.

Definition says_failed (c : string) (kv : string * EvidenceAuditEvent) : bool :=
  String.eqb (ev_capsuleId kv.2) c && match operation kv.2, decision kv.2 with op_delete, dec_failed => true | _, _ => false end.
Lemma says_failed_logged db c : existsb (says_failed c) (map_to_list (audits db)) = true → deletion_failed db c.
Proof.
  intros ([id e] & Hin & H)%existsb_exists. apply list_elem_of_In, elem_of_map_to_list in Hin. unfold says_failed in H. cbn in H.
  apply andb_prop in H as [Hc%String.eqb_eq H]. exists id, e. split_and!; [done..| |];
    by destruct (operation e), (decision e).
Qed.
Lemma race_failed : deletion_failed (shared race) "shot".
Proof. apply says_failed_logged. vm_compute. reflexivity. Qed.

(** C37: Three deletions of one capsule, one of which is refused its file, can leave it
    recorded as deleted, answered as deleted, with its ciphertext in place; and
    nothing that any request does later erases it. *)
Theorem erasure_race :
  reachable sample_db race ∧ returned race 0 = Some (lifecycleState deleted) ∧
  logged (shared race) "shot" op_delete dec_failed ∧
  ∀ st, rtc step race st → ∃ row, row_of st "shot" = Some row ∧ c_state row = deleted ∧ c_ciphertext row = Some sample_bytes.
Proof.
  assert (reachable sample_db race) as Hr by apply script_reachable. split_and!; [done|apply race_returns|apply race_failed|].
  intros st Hs. apply evidence_ok in Hr.
  destruct (le_rows _ _ (le_capsules _ _ _ (steps_grow _ _ _ _ _ _ _ _ _ Hr Hs)) _ _ race_deleted) as (row & Hrow & He).
  exists row. split; [done|]. destruct (ev_final _ _ He eq_refl) as [Hd Hc]. by rewrite Hc.
Qed.

End EvidenceSample.
