(* ===== verification/Quotient.v ===== *)
(** * Quotients of counts

    [n / d] of two counts, and decimal literals, as JavaScript computes them: the
    binary64 value nearest to the rational, ties to even.  Comparing such values
    decides the same as comparing the rationals, for counts that a program can
    reach. *)
From S2P Require Import Prelude Number.
Local Open Scope Z_scope.

Module Quotient.

(** The multiple of [2^-1074] nearest to [n / d] of them, for [0 <= n] and [0 < d]. *)
Definition round_ratio (n d : Z) : Z :=
  let s := spacing (n / d) in nearest_even n (d * s) * s.
(** [n / d] for counts [n] and [d > 0]; a count is far below the overflow. *)
Definition quotient (n d : Z) : number := Fin (round_ratio (n * 2 ^ 1074) d).

(** ** The error of the rounding *)
Lemma nearest_even_scale k n d : 0 < d → 0 < k → nearest_even (n * k) (d * k) = nearest_even n d.
Proof.
  intros Hd Hk. unfold nearest_even. cbv zeta.
  rewrite Z.div_mul_cancel_r, Z.mul_mod_distr_r by lia.
  assert (2 * (n mod d * k) <? d * k = (2 * (n mod d) <? d)) as ->.
  { apply eq_true_iff_eq. rewrite !Z.ltb_lt. nia. }
  assert (d * k <? 2 * (n mod d * k) = (d <? 2 * (n mod d))) as ->; [|done].
  apply eq_true_iff_eq. rewrite !Z.ltb_lt. nia.
Qed.
Lemma nearest_even_error n d : 0 < d → 2 * Z.abs (nearest_even n d * d - n) <= d.
Proof.
  intros Hd. pose proof (Z.div_mod n d). pose proof (Z.mod_pos_bound n d Hd). unfold nearest_even. cbv zeta.
  destruct (Z.ltb_spec (2 * (n mod d)) d); [nia|]. destruct (Z.ltb_spec d (2 * (n mod d))); [nia|].
  destruct (Z.even (n / d)); nia.
Qed.

Lemma round_ratio_scale k n d : 0 < d → 0 < k → round_ratio (n * k) (d * k) = round_ratio n d.
Proof.
  intros Hd Hk. unfold round_ratio. rewrite Z.div_mul_cancel_r by lia. cbv zeta.
  set (s := spacing (n / d)). pose proof (spacing_pos (n / d)). f_equal.
  replace (d * k * s) with (d * s * k) by lia. apply nearest_even_scale; lia.
Qed.
Lemma round_ratio_same n d n' d' : 0 < d → 0 < d' → n * d' = n' * d → round_ratio n d = round_ratio n' d'.
Proof.
  intros Hd Hd' E. rewrite <- (round_ratio_scale d' n d), <- (round_ratio_scale d n' d') by done.
  by rewrite E, (Z.mul_comm d d').
Qed.

(** Of 53 significant bits: the value is off by [2^-53] of the quotient at most. *)
Lemma round_ratio_error n d : 0 < d → 2 ^ 52 * d <= n → 2 ^ 53 * Z.abs (round_ratio n d * d - n) <= n.
Proof.
  intros Hd Hn. unfold round_ratio. cbv zeta. set (q := n / d). set (s := spacing q).
  pose proof (spacing_pos q) as Hs. fold s in Hs.
  assert (2 ^ 52 <= q) as Hq by (apply Z.div_le_lower_bound; lia).
  assert (q * d <= n) as Hqd by (unfold q; rewrite Z.mul_comm; apply Z.mul_div_le; lia).
  assert (2 ^ 52 * s <= q) as Hsq.
  { unfold s, spacing. pose proof (Z.log2_le_mono (2 ^ 52) q Hq) as Hl. rewrite Z.log2_pow2 in Hl by lia.
    rewrite Z.max_r, <- Z.pow_add_r by lia. replace (52 + (Z.log2 q - 52)) with (Z.log2 q) by lia. apply Z.log2_spec. lia. }
  pose proof (nearest_even_error n (d * s)) as He. specialize (He ltac:(nia)).
  replace (nearest_even n (d * s) * s * d) with (nearest_even n (d * s) * (d * s)) by lia.
  set (e := Z.abs (nearest_even n (d * s) * (d * s) - n)) in *.
  change (2 ^ 53) with (2 ^ 52 * 2). nia.
Qed.

(** ** Comparing quotients *)

(** Two different fractions of small counts are far apart compared with the error. *)
Lemma separated n d p q x y U :
  0 < d → 0 < q → 0 < U → p * d <= 2 ^ 49 → n * q < p * d →
  2 ^ 53 * Z.abs (x * d - n * U) <= n * U → 2 ^ 53 * Z.abs (y * q - p * U) <= p * U → x < y.
Proof.
  intros Hd Hq HU Hb Hlt Hx Hy. apply Z.nle_gt. intros Hyx.
  assert (2 ^ 53 * (x * d) <= (2 ^ 53 + 1) * (n * U)) as Hx' by lia.
  assert ((2 ^ 53 - 1) * (p * U) <= 2 ^ 53 * (y * q)) as Hy' by lia.
  apply (Z.mul_le_mono_nonneg_r _ _ q) in Hx'; [|lia]. apply (Z.mul_le_mono_nonneg_r _ _ d) in Hy'; [|lia].
  assert (y * (q * d) <= x * (q * d)) as Hle by (apply Z.mul_le_mono_nonneg_r; [apply Z.mul_nonneg_nonneg|]; lia).
  assert (((2 ^ 53 - 1) * (p * d)) * U <= ((2 ^ 53 + 1) * (n * q)) * U) as Hall by lia.
  apply Z.mul_le_mono_pos_r in Hall; [|done]. lia.
Qed.
Lemma small_error n d : 0 < d <= 2 ^ 45 → 0 <= n →
  2 ^ 53 * Z.abs (round_ratio (n * 2 ^ 1074) d * d - n * 2 ^ 1074) <= n * 2 ^ 1074.
Proof.
  intros Hd Hn. destruct (decide (n = 0)) as [-> |Hn0].
  - assert (round_ratio (0 * 2 ^ 1074) d = 0) as ->; [|lia].
    unfold round_ratio. rewrite Z.mul_0_l, Z.div_0_l by lia. cbv zeta. pose proof (spacing_pos 0).
    pose proof (nearest_even_exact (d * spacing 0) ltac:(apply Z.mul_pos_pos; lia) 0) as E.
    rewrite Z.mul_0_l in E. by rewrite E.
  - apply round_ratio_error; [lia|]. etrans; [apply Z.mul_le_mono_nonneg_l; [|apply Hd]; done|].
    rewrite <- Z.pow_add_r by lia. etrans; [apply (Z.pow_le_mono_r 2 (52 + 45) 1074); lia|].
    rewrite <- (Z.mul_1_l (2 ^ 1074)) at 1. apply Z.mul_le_mono_nonneg_r; lia.
Qed.
Lemma round_ratio_lt n d p q :
  0 < d <= 2 ^ 45 → 0 < q <= 2 ^ 45 → 0 <= n → 0 <= p → p * d <= 2 ^ 49 → n * q < p * d →
  round_ratio (n * 2 ^ 1074) d < round_ratio (p * 2 ^ 1074) q.
Proof.
  intros Hd Hq Hn Hp Hb Hlt. apply (separated n d p q _ _ (2 ^ 1074)); try lia; by apply small_error.
Qed.

(** A quotient of counts is below a literal exactly when the fraction is. *)
Lemma quotient_ltb n d p q :
  0 < d <= 2 ^ 45 → 0 < q <= 16 → 0 <= n <= d → 0 <= p <= q →
  num_ltb (quotient n d) (quotient p q) = (n * q <? p * d).
Proof.
  intros Hd Hq Hn Hp. cbn [num_ltb quotient].
  assert (p * d <= 16 * 2 ^ 45) as H1 by (apply Z.mul_le_mono_nonneg; lia).
  assert (n * q <= 2 ^ 45 * 16) as H2 by (apply Z.mul_le_mono_nonneg; lia).
  destruct (Z.ltb_spec (n * q) (p * d)) as [Hlt|Hge].
  - apply Z.ltb_lt, round_ratio_lt; lia.
  - apply Z.ltb_ge. destruct (decide (n * q = p * d)) as [E|Hne].
    + rewrite (round_ratio_same (p * 2 ^ 1074) q (n * 2 ^ 1074) d) by lia. done.
    + apply Z.lt_le_incl, round_ratio_lt; lia.
Qed.
Lemma quotient_one d : 0 < d → quotient d d = num_of_Z 1.
Proof.
  intros Hd. unfold quotient, num_of_Z. f_equal.
  rewrite (round_ratio_same _ d (1 * 2 ^ 1074) 1) by lia. vm_compute. reflexivity.
Qed.

End Quotient.
