(* ===== verification/Detection.v ===== *)
(** * The detection benchmark

    Models [packages/benchmarking/detection/src]: the manifest of a benchmark and
    its ground truth with their parsers ([manifest.ts]), and the scorer that turns
    the attempts of a run into metrics and a gate ([scorer.ts], [report.ts]), with
    the canonical JSON they are hashed by
    ([core-modules/skill/src/domain/skill-bundle.ts]).

    The message of an error is left out; its code is kept.  [sha256Hex] and the
    decimal text of a number are parameters. *)
From S2P Require Import Prelude Number Json CanonicalJson Quotient.
From Stdlib Require Import Ascii.

Module Detection.
Import Quotient.

(** ** Objects used as maps

    [o[key] = v] on an object literal.  A text or a number assigned to [__proto__]
    makes no property. *)
Definition record_set {A} (key : string) (v : A) (m : gmap string A) : gmap string A :=
  if String.eqb key "__proto__" then m else <[key := v]> m.

(** ** Canonical JSON

    The keys are sorted and then written in the order an object has: array indices
    first, by value, then the others. *)
Fixpoint decimal (s : string) (acc : Z) : option Z :=
  match s with
  | EmptyString => Some acc
  | String c s =>
      let n := (byte_of c - 48)%Z in
      if ((0 <=? n) && (n <=? 9))%Z then decimal s (10 * acc + n)%Z else None
  end.
Definition array_index (s : string) : option Z :=
  match s with
  | EmptyString => None
  | String c s' =>
      match decimal s 0 with
      | Some n =>
          if (n <? 2 ^ 32 - 1)%Z && negb (Ascii.eqb c "0" && negb (String.eqb s' "")) then Some n else None
      | None => None
      end
  end.
Definition own_key_leb (a b : string) : bool :=
  match array_index a, array_index b with
  | Some m, Some n => (m <=? n)%Z
  | Some _, None => true
  | None, Some _ => false
  | None, None => CanonicalJson.key_leb a b
  end.
Section by_key.
Context {A : Type}.
Fixpoint insert_own (kv : string * A) (l : list (string * A)) : list (string * A) :=
  match l with
  | [] => [kv]
  | kv' :: l' => if own_key_leb kv.1 kv'.1 then kv :: l else kv' :: insert_own kv l'
  end.
Definition own_order (l : list (string * A)) : list (string * A) := foldr insert_own [] l.
End by_key.

(** [sort((a, b) => a < b ? -1 : a > b ? 1 : 0)]. *)
Definition sort_texts (l : list string) : list string :=
  fst <$> CanonicalJson.sort_fields ((λ s, (s, tt)) <$> l).

(** ** Data *)
Inductive DefectSeverity := P0 | P1 | P2.
Inductive FindingConfidence := low | medium | high.
Inductive ProfileStatus := reference | unverified.
Inductive GateStatus := gate_passed | gate_failed | gate_unverified.
Inductive DetectionFailureCode :=
  | P0RecallBelowMinimum
  | KnownBugRecallBelowMinimum
  | FindingPrecisionBelowMinimum
  | StableReproductionRateBelowMinimum
  | HighConfidenceFalsePositivesExceeded.
Inductive Mode := normal | fault.
#[export] Instance severity_eq_dec : EqDecision DefectSeverity.
Proof. solve_decision. Defined.
#[export] Instance confidence_eq_dec : EqDecision FindingConfidence.
Proof. solve_decision. Defined.
#[export] Instance mode_eq_dec : EqDecision Mode.
Proof. solve_decision. Defined.

Record ReferenceModelProfile := {
  profileId : string;
  providerId : string;
  modelId : string;
  promptVersion : string;
  policyBundleSha256 : string;
  skillPackSha256 : string;
  browserVersion : string;
  fixtureVersions : gmap string string;
  maximumSteps : number;
  maximumWallClockMs : number;
  maximumModelTokens : number;
  repetitions : number;
}.
Record BenchmarkScenario := {
  scenarioId : string;
  fixtureId : string;
  fixtureVersion : string;
  mode : Mode;
  missionRef : string;
  groundTruthRef : string;
  expectedDefectIds : list string;
}.
Record DetectionThresholds := {
  p0RecallMinimum : number;
  knownBugRecallMinimum : number;
  findingPrecisionMinimum : number;
  stableReproductionRateMinimum : number;
  maximumHighConfidenceFalsePositivesPerNormalMission : number;
}.
(** The literals [1], [0.8], [0.6] and [0.7]. *)
Definition DEFAULT_DETECTION_THRESHOLDS : DetectionThresholds := {|
  p0RecallMinimum := quotient 1 1;
  knownBugRecallMinimum := quotient 8 10;
  findingPrecisionMinimum := quotient 6 10;
  stableReproductionRateMinimum := quotient 7 10;
  maximumHighConfidenceFalsePositivesPerNormalMission := num_of_Z 1;
|}.
Definition DETECTION_BENCHMARK_SCHEMA_VERSION : string := "detection-benchmark/v1".
Record DetectionBenchmarkManifest := {
  benchmarkVersion : string;
  referenceProfile : ReferenceModelProfile;
  scenarios : list BenchmarkScenario;
  thresholds : DetectionThresholds;
}.
Record GroundTruthDefect := {
  d_scenarioId : string;
  d_defectId : string;
  severity : DefectSeverity;
  stable : bool;
}.
Record GroundTruth := { t_benchmarkVersion : string; defects : list GroundTruthDefect }.
Inductive BenchmarkErrorCode :=
  | BenchmarkManifestInvalid
  | GroundTruthMismatch
  | ReferenceProfileMismatch
  | BenchmarkAttemptMatrixIncomplete.

Record DetectionFinding := { f_defectId : string; confidence : FindingConfidence }.
Record BenchmarkAttempt := {
  attemptId : string;
  a_profileSha256 : string;
  a_scenarioId : string;
  a_mode : Mode;
  repetition : number;
  findings : list DetectionFinding;
}.
Record ScoreOptions := {
  o_createdAt : option string;
  o_inputSha256 : option string;
  o_attemptBindingSha256s : option (list string);
}.
Record DetectionRatio := { numerator : Z; denominator : Z; value : number }.
Record DetectionMetrics := {
  p0Recall : DetectionRatio;
  knownBugRecall : DetectionRatio;
  findingPrecision : DetectionRatio;
  stableReproductionRate : DetectionRatio;
  highConfidenceFalsePositivesByNormalMission : gmap string Z;
}.
Record DetectionGate := { status : GateStatus; failureCodes : list DetectionFailureCode }.
Record DetectionBenchmarkReport := {
  reportId : string;
  r_benchmarkVersion : string;
  r_manifestSha256 : string;
  r_profileSha256 : string;
  r_groundTruthSha256 : string;
  inputSha256 : string;
  attemptBindingSha256s : list string;
  profileStatus : ProfileStatus;
  attemptIds : list string;
  metrics : DetectionMetrics;
  gate : DetectionGate;
  createdAt : string;
}.

(** ** Parsing *)
Notation result := (outcome BenchmarkErrorCode).

Definition asRecord (v : option json) (code : BenchmarkErrorCode) : result (list (string * json)) :=
  match v with Some (JObj fields) => Ok fields | _ => Throw code end.
Definition requireString (key : string) (code : BenchmarkErrorCode) (r : list (string * json)) : result string :=
  match get_field key r with
  | Some (JStr s) => if String.eqb s "" then Throw code else Ok s
  | _ => Throw code
  end.
Definition requireNumber (key : string) (code : BenchmarkErrorCode) (r : list (string * json)) : result number :=
  match get_field key r with
  | Some (JNum n) => if negb (is_finite n) || num_ltb n (num_of_Z 0) then Throw code else Ok n
  | _ => Throw code
  end.
(** [/^[0-9a-f]{64}$/] *)
Definition hex_char (c : ascii) : bool :=
  let n := byte_of c in (((48 <=? n) && (n <=? 57)) || ((97 <=? n) && (n <=? 102)))%Z.
Definition isSha256 (s : string) : bool :=
  Nat.eqb (String.length s) 64 && forallb hex_char (String.list_ascii_of_string s).
Fixpoint firstDuplicate_ (seen : list string) (values : list string) : option string :=
  match values with
  | [] => None
  | v :: values => if bool_decide (v ∈ seen) then Some v else firstDuplicate_ (v :: seen) values
  end.
Definition firstDuplicate : list string → option string := firstDuplicate_ [].
Definition fail_unless {A} (o : option A) (code : BenchmarkErrorCode) : result A :=
  match o with Some a => Ok a | None => Throw code end.

Definition parseFixtureVersion (m : gmap string string) (kv : string * json) : result (gmap string string) :=
  match kv.2 with
  | JStr s => if String.eqb s "" then Throw BenchmarkManifestInvalid else Ok (record_set kv.1 s m)
  | _ => Throw BenchmarkManifestInvalid
  end.
Definition parseFixtureVersions (entries : list (string * json)) : result (gmap string string) :=
  foldl (λ acc kv, m ← acc; parseFixtureVersion m kv) (Ok ∅) entries.
Definition parseReferenceProfile (v : option json) : result ReferenceModelProfile :=
  let code := BenchmarkManifestInvalid in
  r ← asRecord v code;
  raw ← asRecord (get_field "fixtureVersions" r) code;
  versions ← parseFixtureVersions raw;
  policy ← requireString "policyBundleSha256" code r;
  skills ← requireString "skillPackSha256" code r;
  _ ← reject_if (negb (isSha256 policy)) code;
  _ ← reject_if (negb (isSha256 skills)) code;
  reps ← requireNumber "repetitions" code r;
  n ← fail_unless (integer_of reps) code;
  _ ← reject_if (n <? 1)%Z code;
  profileId ← requireString "profileId" code r;
  providerId ← requireString "providerId" code r;
  modelId ← requireString "modelId" code r;
  promptVersion ← requireString "promptVersion" code r;
  browserVersion ← requireString "browserVersion" code r;
  steps ← requireNumber "maximumSteps" code r;
  wallClock ← requireNumber "maximumWallClockMs" code r;
  tokens ← requireNumber "maximumModelTokens" code r;
  mret {| profileId := profileId; providerId := providerId; modelId := modelId; promptVersion := promptVersion;
          policyBundleSha256 := policy; skillPackSha256 := skills; browserVersion := browserVersion;
          fixtureVersions := versions; maximumSteps := steps; maximumWallClockMs := wallClock;
          maximumModelTokens := tokens; repetitions := reps |}.

Definition parseMode (s : string) : result Mode :=
  if String.eqb s "normal" then Ok normal else if String.eqb s "fault" then Ok fault
  else Throw BenchmarkManifestInvalid.
Definition parseDefectId (v : json) : result string :=
  match v with
  | JStr s => if String.eqb s "" then Throw BenchmarkManifestInvalid else Ok s
  | _ => Throw BenchmarkManifestInvalid
  end.
Definition parseScenario (v : json) : result BenchmarkScenario :=
  let code := BenchmarkManifestInvalid in
  r ← asRecord (Some v) code;
  mode_text ← requireString "mode" code r;
  mode ← parseMode mode_text;
  expected ← match get_field "expectedDefectIds" r with Some (JArr l) => mapM parseDefectId l | _ => Throw code end;
  _ ← reject_if (match firstDuplicate expected with Some _ => true | None => false end) code;
  scenarioId ← requireString "scenarioId" code r;
  fixtureId ← requireString "fixtureId" code r;
  fixtureVersion ← requireString "fixtureVersion" code r;
  missionRef ← requireString "missionRef" code r;
  groundTruthRef ← requireString "groundTruthRef" code r;
  mret {| scenarioId := scenarioId; fixtureId := fixtureId; fixtureVersion := fixtureVersion; mode := mode;
          missionRef := missionRef; groundTruthRef := groundTruthRef; expectedDefectIds := expected |}.

Definition frozen_thresholds : list (string * number) :=
  let t := DEFAULT_DETECTION_THRESHOLDS in
  [("p0RecallMinimum", p0RecallMinimum t); ("knownBugRecallMinimum", knownBugRecallMinimum t);
   ("findingPrecisionMinimum", findingPrecisionMinimum t);
   ("stableReproductionRateMinimum", stableReproductionRateMinimum t);
   ("maximumHighConfidenceFalsePositivesPerNormalMission", maximumHighConfidenceFalsePositivesPerNormalMission t)].
Definition is_frozen (r : list (string * json)) (kv : string * number) : bool :=
  match get_field kv.1 r with Some (JNum n) => num_eqb n kv.2 | _ => false end.
Definition parseThresholds (v : option json) : result DetectionThresholds :=
  r ← asRecord v BenchmarkManifestInvalid;
  _ ← reject_if (negb (forallb (is_frozen r) frozen_thresholds)) BenchmarkManifestInvalid;
  mret DEFAULT_DETECTION_THRESHOLDS.

Definition parseManifest (v : json) : result DetectionBenchmarkManifest :=
  let code := BenchmarkManifestInvalid in
  r ← asRecord (Some v) code;
  _ ← reject_if (match get_field "schemaVersion" r with
                 | Some (JStr s) => negb (String.eqb s DETECTION_BENCHMARK_SCHEMA_VERSION) | _ => true end) code;
  raw ← match get_field "scenarios" r with Some (JArr (x :: l)) => Ok (x :: l) | _ => Throw code end;
  scenarios ← mapM parseScenario raw;
  _ ← reject_if (match firstDuplicate (scenarioId <$> scenarios) with Some _ => true | None => false end) code;
  version ← requireString "benchmarkVersion" code r;
  profile ← parseReferenceProfile (get_field "referenceProfile" r);
  thresholds ← parseThresholds (get_field "thresholds" r);
  mret {| benchmarkVersion := version; referenceProfile := profile; scenarios := scenarios; thresholds := thresholds |}.

Definition NUL : string := String (ascii_of_nat 0) "".
Definition defectKey (scenarioId defectId : string) : string := scenarioId +:+ NUL +:+ defectId.
Definition parseSeverity (s : string) : result DefectSeverity :=
  if String.eqb s "P0" then Ok P0 else if String.eqb s "P1" then Ok P1 else if String.eqb s "P2" then Ok P2
  else Throw GroundTruthMismatch.
Definition parseDefect (v : json) : result GroundTruthDefect :=
  let code := GroundTruthMismatch in
  r ← asRecord (Some v) code;
  text ← requireString "severity" code r;
  severity ← parseSeverity text;
  stable ← match get_field "stable" r with Some (JBool b) => Ok b | _ => Throw code end;
  scenarioId ← requireString "scenarioId" code r;
  defectId ← requireString "defectId" code r;
  mret {| d_scenarioId := scenarioId; d_defectId := defectId; severity := severity; stable := stable |}.
Definition key_of (d : GroundTruthDefect) : string := defectKey (d_scenarioId d) (d_defectId d).
Fixpoint parseDefects (seen : gset string) (l : list json) : result (list GroundTruthDefect) :=
  match l with
  | [] => mret []
  | v :: l =>
      d ← parseDefect v;
      _ ← reject_if (bool_decide (key_of d ∈ seen)) GroundTruthMismatch;
      ds ← parseDefects ({[key_of d]} ∪ seen) l;
      mret (d :: ds)
  end.
Definition parseGroundTruth (v : json) : result GroundTruth :=
  let code := GroundTruthMismatch in
  r ← asRecord (Some v) code;
  raw ← match get_field "defects" r with Some (JArr l) => Ok l | _ => Throw code end;
  defects ← parseDefects ∅ raw;
  version ← requireString "benchmarkVersion" code r;
  mret {| t_benchmarkVersion := version; defects := defects |}.

(** ** The ground truth and the manifest agree *)
Fixpoint collect_defects (known : gset string) (ids : gmap string (gset string)) (l : list GroundTruthDefect)
    : result (gmap string (gset string)) :=
  match l with
  | [] => mret ids
  | d :: l =>
      _ ← reject_if (negb (bool_decide (d_scenarioId d ∈ known))) GroundTruthMismatch;
      let defectIds := default ∅ (ids !! d_scenarioId d) in
      _ ← reject_if (bool_decide (d_defectId d ∈ defectIds)) GroundTruthMismatch;
      collect_defects known (<[d_scenarioId d := {[d_defectId d]} ∪ defectIds]> ids) l
  end.
Fixpoint check_scenarios (ids : gmap string (gset string)) (l : list BenchmarkScenario) : result unit :=
  match l with
  | [] => mret tt
  | s :: l =>
      _ ← reject_if (match firstDuplicate (expectedDefectIds s) with Some _ => true | None => false end)
            BenchmarkManifestInvalid;
      let expected : gset string := list_to_set (expectedDefectIds s) in
      let actual := default ∅ (ids !! scenarioId s) in
      let missing := filter (λ d, d ∉ actual) (elements expected) in
      let unexpected := filter (λ d, d ∉ expected) (elements actual) in
      _ ← reject_if ((0 <? length missing)%nat || (0 <? length unexpected)%nat) GroundTruthMismatch;
      check_scenarios ids l
  end.
Definition assertGroundTruthConsistent (manifest : DetectionBenchmarkManifest) (truth : GroundTruth) : result unit :=
  _ ← reject_if (negb (String.eqb (t_benchmarkVersion truth) (benchmarkVersion manifest))) GroundTruthMismatch;
  ids ← collect_defects (list_to_set (scenarioId <$> scenarios manifest)) ∅ (defects truth);
  check_scenarios ids (scenarios manifest).

(** ** The matrix of attempts *)

(** [for (let repetition = 1; repetition <= repetitions; repetition += 1)], for a
    finite count below [2^53]. *)
Definition upto (n : number) : list number :=
  match n with
  | Fin k => map (λ i, num_of_Z (Z.of_nat i)) (seq 1 (Z.to_nat (k / 2 ^ 1074)))
  | _ => []
  end.
(** A slot of the matrix; its text, the identifier, a NUL and the decimal text of
    the repetition, determines both. *)
Notation Slot := (string * number)%type.
Definition set_add {A} `{EqDecision A} (x : A) (l : list A) : list A := if bool_decide (x ∈ l) then l else l ++ [x].
Definition expected_slots (manifest : DetectionBenchmarkManifest) : list Slot :=
  foldl (λ acc s, foldl (λ acc r, set_add (scenarioId s, r) acc) acc (upto (repetitions (referenceProfile manifest))))
    [] (scenarios manifest).
Definition scenarioModes (manifest : DetectionBenchmarkManifest) : gmap string Mode :=
  foldl (λ m s, <[scenarioId s := mode s]> m) ∅ (scenarios manifest).
Fixpoint collect_slots (modes : gmap string Mode) (reps : number) (seen : list Slot) (l : list BenchmarkAttempt)
    : result (list Slot) :=
  let code := BenchmarkAttemptMatrixIncomplete in
  match l with
  | [] => mret seen
  | a :: l =>
      expected_mode ← fail_unless (modes !! a_scenarioId a) code;
      _ ← reject_if (negb (bool_decide (a_mode a = expected_mode))) code;
      let r := repetition a in
      _ ← reject_if (num_ltb r (num_of_Z 1) || num_ltb reps r ||
                     match integer_of r with Some _ => false | None => true end) code;
      _ ← reject_if (bool_decide ((a_scenarioId a, r) ∈ seen)) code;
      collect_slots modes reps (seen ++ [(a_scenarioId a, r)]) l
  end.
Definition assertCompleteAttemptMatrix (manifest : DetectionBenchmarkManifest) (attempts : list BenchmarkAttempt)
    : result unit :=
  seen ← collect_slots (scenarioModes manifest) (repetitions (referenceProfile manifest)) [] attempts;
  reject_if (negb (Nat.eqb (length seen) (length (expected_slots manifest)))) BenchmarkAttemptMatrixIncomplete.

Definition assertSingleProfile (attempts : list BenchmarkAttempt) : result string :=
  match attempts with
  | [] => Throw BenchmarkAttemptMatrixIncomplete
  | first :: _ =>
      _ ← reject_if (existsb (λ a, negb (String.eqb (a_profileSha256 a) (a_profileSha256 first))) attempts)
            ReferenceProfileMismatch;
      mret (a_profileSha256 first)
  end.

(** ** Metrics *)
Definition ratio (n d : Z) : DetectionRatio :=
  {| numerator := n; denominator := d; value := if (d =? 0)%Z then num_of_Z 1 else quotient n d |}.
Definition count {A} (p : A → bool) (l : list A) : Z := Z.of_nat (length (List.filter p l)).

Definition attemptsByScenario (attempts : list BenchmarkAttempt) : gmap string (list BenchmarkAttempt) :=
  foldl (λ m a, <[a_scenarioId a := default [] (m !! a_scenarioId a) ++ [a]]> m) ∅ attempts.
Definition detectedDefects (attempts : list BenchmarkAttempt) : gset string :=
  foldl (λ acc a, foldl (λ acc f, {[defectKey (a_scenarioId a) (f_defectId f)]} ∪ acc) acc (findings a)) ∅ attempts.
Definition is_high (f : DetectionFinding) : bool := bool_decide (confidence f = high).

Definition computeMetrics (manifest : DetectionBenchmarkManifest) (attempts : list BenchmarkAttempt)
    (truth : GroundTruth) : DetectionMetrics :=
  let byScenario := attemptsByScenario attempts in
  let detected := detectedDefects attempts in
  let isDetected d := bool_decide (key_of d ∈ detected) in
  let knownDefects := defects truth in
  let p0Defects := List.filter (λ d, bool_decide (severity d = P0)) knownDefects in
  let known : gset string := list_to_set (key_of <$> knownDefects) in
  let isKnown scenario f := bool_decide (defectKey scenario (f_defectId f) ∈ known) in
  let highTotal := foldl (λ n a, foldl (λ n f, if is_high f then n + 1 else n) n (findings a))%Z 0%Z attempts in
  let highTrue := foldl (λ n a, foldl (λ n f,
                    if is_high f then if isKnown (a_scenarioId a) f then n + 1 else n else n) n (findings a))%Z 0%Z attempts in
  let stableAttempts d := if stable d then default [] (byScenario !! d_scenarioId d) else [] in
  let slots := foldl (λ n d, foldl (λ n _, n + 1) n (stableAttempts d))%Z 0%Z knownDefects in
  let reproduced := foldl (λ n d, foldl (λ n a,
                      if existsb (λ f, String.eqb (f_defectId f) (d_defectId d)) (findings a) then n + 1 else n)
                      n (stableAttempts d))%Z 0%Z knownDefects in
  let falsePositives scenario := foldl (λ n a, foldl (λ n f,
                      if is_high f then if isKnown scenario f then n else n + 1 else n) n (findings a))%Z 0%Z
                      (default [] (byScenario !! scenario)) in
  {| p0Recall := match p0Defects with
                 | [] => {| numerator := 0; denominator := 0; value := num_of_Z 0 |}
                 | _ => ratio (count isDetected p0Defects) (Z.of_nat (length p0Defects))
                 end;
     knownBugRecall := ratio (count isDetected knownDefects) (Z.of_nat (length knownDefects));
     findingPrecision := ratio highTrue highTotal;
     stableReproductionRate := ratio reproduced slots;
     highConfidenceFalsePositivesByNormalMission :=
       foldl (λ m s, match mode s with
                     | normal => record_set (scenarioId s) (falsePositives (scenarioId s)) m
                     | fault => m
                     end) ∅ (scenarios manifest) |}.

Definition evaluateThresholds (manifest : DetectionBenchmarkManifest) (metrics : DetectionMetrics)
    : list DetectionFailureCode :=
  let t := thresholds manifest in
  let below (r : DetectionRatio) (minimum : number) := num_ltb (value r) minimum in
  let code (b : bool) (c : DetectionFailureCode) := if b then [c] else [] in
  code ((denominator (p0Recall metrics) =? 0)%Z ||
        negb (numerator (p0Recall metrics) =? denominator (p0Recall metrics))%Z ||
        below (p0Recall metrics) (p0RecallMinimum t)) P0RecallBelowMinimum ++
  code (below (knownBugRecall metrics) (knownBugRecallMinimum t)) KnownBugRecallBelowMinimum ++
  code (below (findingPrecision metrics) (findingPrecisionMinimum t)) FindingPrecisionBelowMinimum ++
  code (below (stableReproductionRate metrics) (stableReproductionRateMinimum t)) StableReproductionRateBelowMinimum ++
  code (existsb (λ kv : string * Z, num_ltb (maximumHighConfidenceFalsePositivesPerNormalMission t) (num_of_Z kv.2))
         (map_to_list (highConfidenceFalsePositivesByNormalMission metrics))) HighConfidenceFalsePositivesExceeded.

(** ** Hashes *)
Section hashes.
Context (sha256Hex : string → string) (number_text : number → string).

Fixpoint canonicalJson (v : json) : string :=
  match v with
  | JNull => "null"
  | JBool true => "true"
  | JBool false => "false"
  | JNum n => number_text n
  | JStr s => CanonicalJson.quote s
  | JArr l => "[" +:+ CanonicalJson.join (map canonicalJson l) +:+ "]"
  | JObj fields =>
      "{" +:+ CanonicalJson.join (map CanonicalJson.entry (own_order
                (List.filter (λ kv, negb (String.eqb kv.1 "__proto__"))
                  (map (λ '(k, x), (k, canonicalJson x)) fields)))) +:+ "}"
  end.

Definition profile_json (p : ReferenceModelProfile) : json := JObj [
  ("profileId", JStr (profileId p)); ("providerId", JStr (providerId p)); ("modelId", JStr (modelId p));
  ("promptVersion", JStr (promptVersion p)); ("policyBundleSha256", JStr (policyBundleSha256 p));
  ("skillPackSha256", JStr (skillPackSha256 p)); ("browserVersion", JStr (browserVersion p));
  ("fixtureVersions", JObj (prod_map id JStr <$> map_to_list (fixtureVersions p)));
  ("maximumSteps", JNum (maximumSteps p)); ("maximumWallClockMs", JNum (maximumWallClockMs p));
  ("maximumModelTokens", JNum (maximumModelTokens p)); ("repetitions", JNum (repetitions p))].
Definition mode_text (m : Mode) : string := match m with normal => "normal" | fault => "fault" end.
Definition scenario_json (s : BenchmarkScenario) : json := JObj [
  ("scenarioId", JStr (scenarioId s)); ("fixtureId", JStr (fixtureId s)); ("fixtureVersion", JStr (fixtureVersion s));
  ("mode", JStr (mode_text (mode s))); ("missionRef", JStr (missionRef s)); ("groundTruthRef", JStr (groundTruthRef s));
  ("expectedDefectIds", JArr (JStr <$> expectedDefectIds s))].
Definition thresholds_json (t : DetectionThresholds) : json := JObj [
  ("p0RecallMinimum", JNum (p0RecallMinimum t)); ("knownBugRecallMinimum", JNum (knownBugRecallMinimum t));
  ("findingPrecisionMinimum", JNum (findingPrecisionMinimum t));
  ("stableReproductionRateMinimum", JNum (stableReproductionRateMinimum t));
  ("maximumHighConfidenceFalsePositivesPerNormalMission", JNum (maximumHighConfidenceFalsePositivesPerNormalMission t))].
Definition manifest_json (m : DetectionBenchmarkManifest) : json := JObj [
  ("schemaVersion", JStr DETECTION_BENCHMARK_SCHEMA_VERSION); ("benchmarkVersion", JStr (benchmarkVersion m));
  ("referenceProfile", profile_json (referenceProfile m)); ("scenarios", JArr (scenario_json <$> scenarios m));
  ("thresholds", thresholds_json (thresholds m))].
Definition severity_text (s : DefectSeverity) : string := match s with P0 => "P0" | P1 => "P1" | P2 => "P2" end.
Definition defect_json (d : GroundTruthDefect) : json := JObj [
  ("scenarioId", JStr (d_scenarioId d)); ("defectId", JStr (d_defectId d));
  ("severity", JStr (severity_text (severity d))); ("stable", JBool (stable d))].
Definition truth_json (t : GroundTruth) : json := JObj [
  ("benchmarkVersion", JStr (t_benchmarkVersion t)); ("defects", JArr (defect_json <$> defects t))].

Definition referenceProfileSha256 (p : ReferenceModelProfile) : string := sha256Hex (canonicalJson (profile_json p)).
Definition manifestSha256 (m : DetectionBenchmarkManifest) : string := sha256Hex (canonicalJson (manifest_json m)).
Definition groundTruthSha256 (t : GroundTruth) : string := sha256Hex (canonicalJson (truth_json t)).

Definition DETERMINISTIC_CREATED_AT : string := "1970-01-01T00:00:00.000Z".

(** ** The score *)
Definition scoreBenchmark (manifest : DetectionBenchmarkManifest) (attempts : list BenchmarkAttempt)
    (truth : GroundTruth) (options : ScoreOptions) : result DetectionBenchmarkReport :=
  _ ← assertGroundTruthConsistent manifest truth;
  _ ← assertCompleteAttemptMatrix manifest attempts;
  profileHash ← assertSingleProfile attempts;
  let metrics := computeMetrics manifest attempts truth in
  let failureCodes := evaluateThresholds manifest metrics in
  let referenceHash := referenceProfileSha256 (referenceProfile manifest) in
  let profileStatus := if String.eqb profileHash referenceHash then reference else unverified in
  let gateStatus := match profileStatus, failureCodes with
                    | unverified, _ => gate_unverified
                    | reference, [] => gate_passed
                    | reference, _ :: _ => gate_failed
                    end in
  let manifestHash := manifestSha256 manifest in
  let truthHash := groundTruthSha256 truth in
  let attemptIds := sort_texts (attemptId <$> attempts) in
  let inputSha256 := default (sha256Hex (canonicalJson (JObj [
      ("manifestHash", JStr manifestHash); ("profileHash", JStr profileHash); ("truthHash", JStr truthHash)])))
    (o_inputSha256 options) in
  let bindings := sort_texts (default attemptIds (o_attemptBindingSha256s options)) in
  let reportId := sha256Hex (canonicalJson (JObj [
      ("manifestHash", JStr manifestHash); ("profileHash", JStr profileHash); ("truthHash", JStr truthHash);
      ("inputSha256", JStr inputSha256); ("attemptIds", JArr (JStr <$> attemptIds));
      ("attemptBindingSha256s", JArr (JStr <$> bindings))])) in
  mret {| reportId := reportId; r_benchmarkVersion := benchmarkVersion manifest; r_manifestSha256 := manifestHash;
          r_profileSha256 := profileHash; r_groundTruthSha256 := truthHash; inputSha256 := inputSha256;
          attemptBindingSha256s := bindings; profileStatus := profileStatus; attemptIds := attemptIds;
          metrics := metrics; gate := {| status := gateStatus; failureCodes := failureCodes |};
          createdAt := default DETERMINISTIC_CREATED_AT (o_createdAt options) |}.
End hashes.

End Detection.
