(* ===== verification/DetectionMetrics.v ===== *)
(** * The detection benchmark: what the scorer counts

    The maps, sets and running counts of [Detection.computeMetrics], as counts over
    the list of all findings reported. *)
From S2P Require Import Prelude Number Json CanonicalJson Quotient Detection.
From Stdlib Require Import Ascii.

Module DetectionMetrics.
Import Quotient Detection.

(** ** Counting *)
Lemma count_perm {A} (p : A → bool) l l' : l ≡ₚ l' → count p l = count p l'.
Proof.
  intros H. unfold count. f_equal. induction H as [|x l l' _ IH|x y l|l1 l2 l3 _ IH1 _ IH2]; cbn.
  - done.
  - destruct (p x); cbn; by rewrite IH.
  - by destruct (p x), (p y).
  - by rewrite IH1.
Qed.
#[export] Instance count_proper {A} (p : A → bool) : Proper ((≡ₚ) ==> (=)) (count p).
Proof. intros l l'. apply count_perm. Qed.
Lemma count_ext {A} (p q : A → bool) l : (∀ x, x ∈ l → p x = q x) → count p l = count q l.
Proof.
  intros H. unfold count. do 2 f_equal. induction l as [|x l IH]; cbn; [done|].
  rewrite (H x) by by left. rewrite IH; [done|]. intros y Hy. apply H. by right.
Qed.
Lemma count_cons {A} (p : A → bool) x l : count p (x :: l) = ((if p x then 1 else 0) + count p l)%Z.
Proof. unfold count. cbn. destruct (p x); cbn [length]; lia. Qed.
Lemma count_app {A} (p : A → bool) l l' : count p (l ++ l') = (count p l + count p l')%Z.
Proof. induction l as [|x l IH]; cbn [app]; [done|]. rewrite !count_cons, IH. lia. Qed.
Lemma count_fmap {A B} (p : B → bool) (f : A → B) l : count p (f <$> l) = count (p ∘ f) l.
Proof. induction l as [|x l IH]; [done|]. rewrite fmap_cons, !count_cons, IH. done. Qed.
Lemma count_range {A} (p : A → bool) l : (0 <= count p l <= Z.of_nat (length l))%Z.
Proof. induction l as [|x l IH]; [done|]. rewrite count_cons. cbn [length]. destruct (p x); lia. Qed.
Lemma count_all {A} (p : A → bool) l : count p l = Z.of_nat (length l) ↔ ∀ x, x ∈ l → p x = true.
Proof.
  split.
  - induction l as [|x l IH]; [by intros _ x ?%elem_of_nil|]. rewrite count_cons. cbn [length]. intros H.
    pose proof (count_range p l). destruct (p x) eqn:Hx; [|lia].
    intros y [-> |Hy]%elem_of_cons; [done|]. apply IH; [lia|done].
  - induction l as [|x l IH]; [done|]. intros H. rewrite count_cons, (H x) by by left. rewrite IH; [cbn [length]; lia|].
    intros y Hy. apply H. by right.
Qed.
Lemma filter_length {A} (p : A → bool) l : Z.of_nat (length (List.filter p l)) = count p l.
Proof. done. Qed.

(** [for (x of l) for (y of g x) if (p x y) n += 1]. *)
Definition pairs {A B} (g : A → list B) (l : list A) : list (A * B) := l ≫= λ x, (x,.) <$> g x.
Lemma elem_of_pairs {A B} (g : A → list B) l x y : (x, y) ∈ pairs g l ↔ x ∈ l ∧ y ∈ g x.
Proof.
  unfold pairs. rewrite list_elem_of_bind. split.
  - intros (x' & H & Hx). apply list_elem_of_fmap in H as (y' & [= -> ->] & Hy). done.
  - intros [Hx Hy]. exists x. split; [|done]. by apply list_elem_of_fmap_2.
Qed.
Lemma pairs_perm {A B} (g : A → list B) l l' : l ≡ₚ l' → pairs g l ≡ₚ pairs g l'.
Proof. intros H. unfold pairs. by rewrite H. Qed.
Lemma fold_count {B} (p : B → bool) l n :
  foldl (λ n y, if p y then n + 1 else n)%Z n l = (n + count p l)%Z.
Proof. revert n. induction l as [|y l IH]; intros n; cbn [foldl]; [unfold count; cbn; lia|]. rewrite IH, count_cons. destruct (p y); lia. Qed.
Lemma fold_count_pairs {A B} (p : A → B → bool) (g : A → list B) l n :
  foldl (λ n x, foldl (λ n y, if p x y then n + 1 else n) n (g x))%Z n l = (n + count (λ xy, p xy.1 xy.2) (pairs g l))%Z.
Proof.
  revert n. induction l as [|x l IH]; intros n; cbn [foldl].
  - unfold count. cbn. lia.
  - rewrite IH, fold_count. unfold pairs. cbn [mbind list_bind]. rewrite count_app, count_fmap.
    rewrite Z.add_assoc. reflexivity.
Qed.

(** ** What was reported *)
Notation Report := (BenchmarkAttempt * DetectionFinding)%type.
Definition reports (attempts : list BenchmarkAttempt) : list Report := pairs findings attempts.
Definition report_key (r : Report) : string := defectKey (a_scenarioId r.1) (f_defectId r.2).
Definition high_reports (attempts : list BenchmarkAttempt) : list Report := List.filter (λ r, is_high r.2) (reports attempts).
(** Reported, and known, by the keys the scorer compares. *)
Definition is_reported (attempts : list BenchmarkAttempt) (d : GroundTruthDefect) : bool :=
  existsb (λ r, String.eqb (report_key r) (key_of d)) (reports attempts).
Definition is_known (truth : GroundTruth) (r : Report) : bool :=
  existsb (λ d, String.eqb (key_of d) (report_key r)) (defects truth).
(** An attempt at a stable defect's scenario. *)
Definition stable_slots (attempts : list BenchmarkAttempt) (truth : GroundTruth) : list (GroundTruthDefect * BenchmarkAttempt) :=
  pairs (λ d, if stable d then List.filter (λ a, String.eqb (a_scenarioId a) (d_scenarioId d)) attempts else []) (defects truth).
Definition reproduces (slot : GroundTruthDefect * BenchmarkAttempt) : bool :=
  existsb (λ f, String.eqb (f_defectId f) (d_defectId slot.1)) (findings slot.2).
Definition false_positives (attempts : list BenchmarkAttempt) (truth : GroundTruth) (scenario : string) : Z :=
  count (λ r, String.eqb (a_scenarioId r.1) scenario && is_high r.2 && negb (is_known truth r)) (reports attempts).

Lemma existsb_elem {A} (p : A → bool) l : existsb p l = true ↔ ∃ x, x ∈ l ∧ p x = true.
Proof. rewrite existsb_exists. split; intros (x & Hx & H); exists x; split; try done; by apply list_elem_of_In. Qed.

Lemma byScenario_lookup attempts c (m : gmap string (list BenchmarkAttempt)) :
  default [] (foldl (λ m a, <[a_scenarioId a := default [] (m !! a_scenarioId a) ++ [a]]> m) m attempts !! c) =
  default [] (m !! c) ++ List.filter (λ a, String.eqb (a_scenarioId a) c) attempts.
Proof.
  revert m. induction attempts as [|a l IH]; intros m; cbn [foldl List.filter]; [by rewrite app_nil_r|].
  rewrite IH. destruct (String.eqb_spec (a_scenarioId a) c) as [<- |Hne].
  - rewrite lookup_insert_eq. cbn. by rewrite <- app_assoc.
  - by rewrite lookup_insert_ne.
Qed.
Lemma attempts_of_scenario attempts c :
  default [] (attemptsByScenario attempts !! c) = List.filter (λ a, String.eqb (a_scenarioId a) c) attempts.
Proof. unfold attemptsByScenario. by rewrite byScenario_lookup, lookup_empty. Qed.
Lemma fold_union {A} (h : A → string) l (s : gset string) k :
  k ∈ foldl (λ acc y, {[h y]} ∪ acc) s l ↔ k ∈ s ∨ ∃ y, y ∈ l ∧ h y = k.
Proof.
  revert s. induction l as [|y l IH]; intros s; cbn [foldl].
  - split; [by left|]. intros [?|(y & Hy%elem_of_nil & _)]; done.
  - rewrite IH. rewrite elem_of_union, elem_of_singleton. split.
    + intros [[-> |Hk]|(y' & Hy & E)]; [right; exists y; split; [by left|done]|by left|right; exists y'; split; [by right|done]].
    + intros [Hk|(y' & [-> |Hy]%elem_of_cons & E)]; [by left; right|by left; left|right; by exists y'].
Qed.
Lemma detected_reported attempts k :
  k ∈ detectedDefects attempts ↔ ∃ r, r ∈ reports attempts ∧ report_key r = k.
Proof.
  unfold detectedDefects, reports. assert (∀ s : gset string,
    k ∈ foldl (λ acc a, foldl (λ acc f, {[defectKey (a_scenarioId a) (f_defectId f)]} ∪ acc) acc (findings a)) s attempts ↔
    k ∈ s ∨ ∃ r, r ∈ pairs findings attempts ∧ report_key r = k) as Hall.
  { induction attempts as [|a l IH]; intros s; cbn [foldl].
    - split; [by left|]. intros [?|(r & Hr%elem_of_nil & _)]; done.
    - rewrite IH, fold_union. unfold pairs. cbn [mbind list_bind]. split.
      + intros [[?|(f & Hf & E)]|(r & Hr & E)]; [by left|right|right; exists r; by rewrite elem_of_app; split; [right|]].
        exists (a, f). rewrite elem_of_app. split; [left; by apply list_elem_of_fmap_2|done].
      + intros [?|(r & [Hr|Hr]%elem_of_app & E)]; [by left; left| |right; by exists r].
        apply list_elem_of_fmap in Hr as (f & -> & Hf). left. right. by exists f. }
  rewrite Hall. split; [intros [?%elem_of_empty|H]; done|by right].
Qed.
Lemma detected_is_reported attempts d : bool_decide (key_of d ∈ detectedDefects attempts) = is_reported attempts d.
Proof.
  apply eq_true_iff_eq. rewrite bool_decide_eq_true, detected_reported. unfold is_reported. rewrite existsb_elem.
  split; intros (r & Hr & E); exists r; split; try done; by apply String.eqb_eq.
Qed.
Lemma known_key truth scenario f a :
  a_scenarioId a = scenario →
  bool_decide (defectKey scenario (f_defectId f) ∈ (list_to_set (key_of <$> defects truth) : gset string)) = is_known truth (a, f).
Proof.
  intros <-. apply eq_true_iff_eq. rewrite bool_decide_eq_true, elem_of_list_to_set, list_elem_of_fmap.
  unfold is_known. rewrite existsb_elem.
  split; intros (d & H1 & H2); exists d; [split; [done|by apply String.eqb_eq]|split; [by apply String.eqb_eq in H2|done]].
Qed.

(** ** The metrics *)
Definition normal_counts (attempts : list BenchmarkAttempt) (truth : GroundTruth) (l : list BenchmarkScenario) : gmap string Z :=
  foldl (λ m s, match mode s with
                | normal => record_set (scenarioId s) (false_positives attempts truth (scenarioId s)) m
                | fault => m
                end) ∅ l.
Definition p0_defects (truth : GroundTruth) : list GroundTruthDefect :=
  List.filter (λ d, bool_decide (severity d = P0)) (defects truth).

Lemma pairs_filter {A B} (g : A → list B) (p : A → bool) l :
  pairs g (List.filter p l) = List.filter (λ xy : A * B, p xy.1) (pairs g l).
Proof.
  induction l as [|x l IH]; [done|]. unfold pairs in *. cbn [List.filter mbind list_bind]. rewrite List.filter_app, <- IH.
  destruct (p x) eqn:Hx; cbn [mbind list_bind].
  - f_equal. induction (g x) as [|y r IHr]; [done|]. cbn. rewrite Hx. by f_equal.
  - assert (List.filter (λ xy : A * B, p xy.1) ((x,.) <$> g x) = []) as ->; [|done].
    induction (g x) as [|y r IHr]; [done|]. cbn. by rewrite Hx.
Qed.
Lemma count_filter {A} (p q : A → bool) l : count p (List.filter q l) = count (λ x, q x && p x) l.
Proof. induction l as [|x l IH]; [done|]. cbn [List.filter]. rewrite count_cons, <- IH. destruct (q x); [by rewrite count_cons|done]. Qed.

Lemma foldl_ext {A B} (f g : B → A → B) l b : (∀ b x, f b x = g b x) → foldl f b l = foldl g b l.
Proof. intros H. revert b. induction l as [|x l IH]; intros b; cbn; [done|]. by rewrite H, IH. Qed.

Theorem metrics_spec manifest attempts truth :
  computeMetrics manifest attempts truth =
  {| p0Recall := match p0_defects truth with
                 | [] => {| numerator := 0; denominator := 0; value := num_of_Z 0 |}
                 | l => ratio (count (is_reported attempts) l) (Z.of_nat (length l))
                 end;
     knownBugRecall := ratio (count (is_reported attempts) (defects truth)) (Z.of_nat (length (defects truth)));
     findingPrecision := ratio (count (is_known truth) (high_reports attempts)) (Z.of_nat (length (high_reports attempts)));
     stableReproductionRate := ratio (count reproduces (stable_slots attempts truth)) (Z.of_nat (length (stable_slots attempts truth)));
     highConfidenceFalsePositivesByNormalMission := normal_counts attempts truth (scenarios manifest) |}.
Proof.
  unfold computeMetrics, p0_defects. cbv zeta. f_equal.
  - destruct (List.filter _ _) as [|d l]; [done|]. f_equal. apply count_ext. intros. apply detected_is_reported.
  - f_equal. apply count_ext. intros. apply detected_is_reported.
  - unfold high_reports. f_equal.
    + rewrite count_filter. etransitivity; [|apply (fold_count_pairs (λ a f, is_high f && is_known truth (a, f)) findings attempts 0)].
      apply foldl_ext. intros n a. apply foldl_ext. intros k f. rewrite (known_key truth _ f a) by done.
      by destruct (is_high f), (is_known truth (a, f)).
    + rewrite filter_length. exact (fold_count_pairs (λ _ f, is_high f) findings attempts 0).
  - assert (∀ d, (if stable d then default [] (attemptsByScenario attempts !! d_scenarioId d) else []) =
      (if stable d then List.filter (λ a, String.eqb (a_scenarioId a) (d_scenarioId d)) attempts else [])) as Hs.
    { intros d. destruct (stable d); [apply attempts_of_scenario|done]. }
    f_equal.
    + etransitivity; [|apply (fold_count_pairs (λ d a, reproduces (d, a)) _ (defects truth) 0)].
      apply foldl_ext. intros n d. rewrite Hs. done.
    + assert (Z.of_nat (length (stable_slots attempts truth)) = count (λ _, true) (stable_slots attempts truth)) as ->.
      { symmetry. by apply count_all. }
      etransitivity; [|apply (fold_count_pairs (λ _ _, true) _ (defects truth) 0)].
      apply foldl_ext. intros n d. rewrite Hs. done.
  - unfold normal_counts. apply foldl_ext. intros m s. destruct (mode s); [|done]. f_equal.
    rewrite attempts_of_scenario. unfold false_positives, reports.
    etransitivity; [apply foldl_ext; intros n a; apply foldl_ext; intros k f; reflexivity|].
    set (l := List.filter _ attempts).
    assert (∀ a, a ∈ l → a_scenarioId a = scenarioId s) as Hl.
    { intros a Ha%list_elem_of_In. apply filter_In in Ha as [_ Ha]. by apply String.eqb_eq. }
    transitivity (0 + count (λ r : Report, is_high r.2 && negb (is_known truth r)) (pairs findings l))%Z.
    + rewrite <- (fold_count_pairs (λ a f, is_high f && negb (is_known truth (a, f)))). generalize 0%Z as n.
      revert Hl. generalize l. clear l. induction l as [|a l IH]; intros Hl n; cbn [foldl]; [done|].
      rewrite IH by (intros; apply Hl; by right). f_equal. apply foldl_ext. intros k f.
      rewrite (known_key truth _ f a) by (by apply Hl; left). by destruct (is_high f), (is_known truth (a, f)).
    + rewrite Z.add_0_l. unfold l. rewrite pairs_filter, count_filter. apply count_ext. intros [a f] _. cbn. by rewrite andb_assoc.
Qed.

End DetectionMetrics.
