(* ===== verification/DetectionProperties.v ===== *)
(** * The detection benchmark: the gate

    When the scorer passes a run, in terms of the attempts, the findings and the
    seeded defects themselves, and the one scenario name whose false positives it
    does not count. *)
From S2P Require Import Prelude Number Json CanonicalJson Quotient Detection DetectionMetrics.
From S2P Require ObservationCanonical.
Import ObservationCanonical.ObservationCanonical(units, sort_fields_unique).
From Stdlib Require Import Ascii.

Module DetectionProperties.
Import Quotient Detection DetectionMetrics.

(** ** Duplicates *)
Lemma firstDuplicate_None seen l : firstDuplicate_ seen l = None ↔ NoDup l ∧ ∀ x, x ∈ l → x ∉ seen.
Proof.
  revert seen. induction l as [|x l IH]; intros seen; cbn.
  - split; [intros _; split; [constructor|by intros x ?%elem_of_nil]|done].
  - destruct (bool_decide_reflect (x ∈ seen)) as [Hx|Hx].
    + split; [done|]. intros [_ H]. destruct (H x); [by left|done].
    + rewrite IH, NoDup_cons. split.
      * intros [Hn Hs]. split_and!; [|done|].
        -- intros Hin. apply (Hs x Hin). by left.
        -- intros y [-> |Hy]%elem_of_cons; [done|]. intros H. apply (Hs y Hy). by right.
      * intros [[Hn Hd] Hs]. split; [done|]. intros y Hy [-> |H]%elem_of_cons; [done|]. apply (Hs y); [by right|done].
Qed.
Lemma duplicates_spec l : match firstDuplicate l with Some _ => true | None => false end = false ↔ NoDup l.
Proof.
  unfold firstDuplicate. destruct (firstDuplicate_ [] l) eqn:E.
  - split; [done|]. intros Hd. assert (firstDuplicate_ [] l = None) as E'; [|congruence].
    apply firstDuplicate_None. split; [done|]. intros x _. apply not_elem_of_nil.
  - split; [|done]. intros _. by apply firstDuplicate_None in E as [? _].
Qed.

(** ** The ground truth is that of the manifest *)
Definition place (d : GroundTruthDefect) : string * string := (d_scenarioId d, d_defectId d).
Record consistent (manifest : DetectionBenchmarkManifest) (truth : GroundTruth) : Prop := {
  co_version : t_benchmarkVersion truth = benchmarkVersion manifest;
  co_distinct : NoDup (place <$> defects truth);
  co_known : ∀ d, d ∈ defects truth → d_scenarioId d ∈ scenarioId <$> scenarios manifest;
  co_nodup : ∀ s, s ∈ scenarios manifest → NoDup (expectedDefectIds s);
  co_expected : ∀ s id, s ∈ scenarios manifest →
    id ∈ expectedDefectIds s ↔ (scenarioId s, id) ∈ place <$> defects truth;
}.
Notation has ids x := (x.2 ∈ default ∅ (ids !! x.1)).
Lemma collect_spec known ids l ids' :
  collect_defects known ids l = Ok ids' ↔
  (∀ d, d ∈ l → d_scenarioId d ∈ known) ∧ NoDup (place <$> l) ∧ (∀ d, d ∈ l → ¬ has ids (place d)) ∧
  ids' = foldl (λ m d, <[d_scenarioId d := {[d_defectId d]} ∪ default ∅ (m !! d_scenarioId d)]> m) ids l.
Proof.
  revert ids. induction l as [|d l IH]; intros ids; cbn [collect_defects].
  - split; [intros [= ->]|intros (_ & _ & _ & ->); done]. split_and!; [by intros ? ?%elem_of_nil|constructor|by intros ? ?%elem_of_nil|done].
  - set (ids1 := <[d_scenarioId d := _]> ids).
    assert (∀ d', has ids1 (place d') ↔ place d' = place d ∨ has ids (place d')) as Hids.
    { intros d'. unfold ids1, place. cbn. destruct (decide (d_scenarioId d' = d_scenarioId d)) as [-> |Hne].
      - rewrite lookup_insert_eq. cbn. rewrite elem_of_union, elem_of_singleton. split.
        + intros [-> |?]; [by left|by right].
        + intros [[= ->]|?]; [by left|by right].
      - rewrite lookup_insert_ne by done. split; [by right|]. by intros [[= ? _]|?]. }
    rewrite bind_Ok. setoid_rewrite bind_Ok. setoid_rewrite reject_if_Ok. setoid_rewrite IH.
    rewrite fmap_cons, NoDup_cons. setoid_rewrite negb_false_iff. setoid_rewrite bool_decide_eq_true. setoid_rewrite bool_decide_eq_false. cbn [foldl]. fold ids1. split.
    + intros (_ & Hk & _ & Hd & H1 & H2 & H3 & ->). split_and!; [| |done| |done].
      * by intros d' [-> |?]%elem_of_cons; [|auto].
      * intros (d' & E & Hd')%list_elem_of_fmap. apply (H3 d' Hd'), Hids. by left.
      * intros d' [-> |Hd']%elem_of_cons; [done|]. intros H. apply (H3 d' Hd'), Hids. by right.
    + intros (H1 & [Hn Hd] & H3 & ->). exists tt. split; [apply H1; by left|]. exists tt. split; [apply (H3 d); by left|].
      split_and!; [intros; apply H1; by right|done| |done].
      intros d' Hd' [E|H]%Hids; [|apply (H3 d'); [by right|done]]. apply Hn. rewrite <- E. by apply list_elem_of_fmap_2.
Qed.
Lemma collected_has ids l x :
  has (foldl (λ m d, <[d_scenarioId d := {[d_defectId d]} ∪ default ∅ (m !! d_scenarioId d)]> m) ids l
       : gmap string (gset string)) x ↔ has ids x ∨ x ∈ place <$> l.
Proof.
  revert ids. induction l as [|d l IH]; intros ids; cbn [foldl].
  - split; [by left|]. by intros [?|?%elem_of_nil].
  - rewrite IH, fmap_cons, elem_of_cons. destruct x as [s id]. cbn. destruct (decide (s = d_scenarioId d)) as [-> |Hne].
    + rewrite lookup_insert_eq. cbn. rewrite elem_of_union, elem_of_singleton. unfold place at 2. split.
      * intros [[-> |?]|?]; [by right; left|by left|by right; right].
      * intros [?|[[= ->]|?]]; [by left; right|by left; left|by right].
    + rewrite lookup_insert_ne by done. unfold place at 2. split.
      * intros [?|?]; [by left|by right; right].
      * intros [?|[[= ? ?]|?]]; [by left|done|by right].
Qed.
Lemma check_spec ids l :
  check_scenarios ids l = Ok tt ↔
  ∀ s, s ∈ l → NoDup (expectedDefectIds s) ∧ ∀ id, id ∈ expectedDefectIds s ↔ has ids (scenarioId s, id).
Proof.
  induction l as [|s l IH]; cbn [check_scenarios].
  - split; [by intros _ ? ?%elem_of_nil|done].
  - rewrite bind_Ok. setoid_rewrite bind_Ok. setoid_rewrite reject_if_Ok. setoid_rewrite duplicates_spec. setoid_rewrite IH.
    set (A := default ∅ (ids !! scenarioId s)). set (X := list_to_set (expectedDefectIds s) : gset string).
    assert (∀ Y Z : gset string, (0 <? length (filter (λ d, d ∉ Z) (elements Y)))%nat = false ↔ Y ⊆ Z) as Hsub.
    { intros Y Z. rewrite Nat.ltb_ge, Nat.le_0_r, length_zero_iff_nil. split.
      - intros H x Hx. destruct (decide (x ∈ Z)); [done|]. assert (x ∈ filter (λ d, d ∉ Z) (elements Y)) as Hin.
        { apply list_elem_of_filter. split; [done|]. by apply elem_of_elements. }
        rewrite H in Hin. by apply elem_of_nil in Hin.
      - intros H. destruct (filter _ _) as [|x r] eqn:E; [done|]. assert (x ∈ filter (λ d, d ∉ Z) (elements Y)) as Hin by (rewrite E; by left).
        apply list_elem_of_filter in Hin as [Hn Hin]. destruct Hn. apply H. by apply elem_of_elements in Hin. }
    setoid_rewrite orb_false_iff. setoid_rewrite Hsub.
    assert ((X ⊆ A ∧ A ⊆ X) ↔ ∀ id, id ∈ expectedDefectIds s ↔ has ids (scenarioId s, id)) as Heq.
    { cbn. fold A. unfold X. split.
      - intros [H1 H2] id. rewrite <- (elem_of_list_to_set (C := gset string)). split; auto.
      - intros H. split; intros id; rewrite elem_of_list_to_set; apply H. }
    split.
    + intros (_ & Hn & _ & H & Hl) s' [-> |Hs]%elem_of_cons; [|by apply Hl]. split; [done|by apply Heq].
    + intros H. exists tt. split; [apply H; by left|]. exists tt. split; [apply Heq, H; by left|]. intros. apply H. by right.
Qed.
Lemma consistent_spec manifest truth : assertGroundTruthConsistent manifest truth = Ok tt ↔ consistent manifest truth.
Proof.
  unfold assertGroundTruthConsistent. rewrite bind_Ok. setoid_rewrite bind_Ok. setoid_rewrite reject_if_Ok.
  setoid_rewrite negb_false_iff. setoid_rewrite String.eqb_eq. setoid_rewrite collect_spec. setoid_rewrite check_spec.
  setoid_rewrite elem_of_list_to_set. split.
  - intros (_ & Hv & ids & (H1 & H2 & _ & ->) & H). split; [done..| |]; intros s; [intros Hs; by apply H|].
    intros id Hs. destruct (H s Hs) as [_ H']. rewrite H', collected_has. cbn. rewrite lookup_empty. cbn. set_solver.
  - intros [Hv Hd Hk Hn He]. exists tt. split; [done|]. eexists. split; [split_and!; [done..| |reflexivity]|].
    + intros d _. cbn. rewrite lookup_empty. apply not_elem_of_empty.
    + intros s Hs. split; [by apply Hn|]. intros id. rewrite (He s id Hs), collected_has. cbn. rewrite lookup_empty. cbn. set_solver.
Qed.

(** ** The matrix of attempts is complete *)
Definition slot (a : BenchmarkAttempt) : Slot := (a_scenarioId a, repetition a).
Definition reps (manifest : DetectionBenchmarkManifest) : number := repetitions (referenceProfile manifest).
Record complete (manifest : DetectionBenchmarkManifest) (attempts : list BenchmarkAttempt) : Prop := {
  cm_modes : ∀ a, a ∈ attempts → ∃ s, s ∈ scenarios manifest ∧ scenarioId s = a_scenarioId a ∧ mode s = a_mode a;
  cm_once : NoDup (slot <$> attempts);
  cm_slots : ∀ x, x ∈ slot <$> attempts ↔ x.1 ∈ scenarioId <$> scenarios manifest ∧ x.2 ∈ upto (reps manifest);
}.
Definition out_of_range (n x : number) : bool :=
  num_ltb x (num_of_Z 1) || num_ltb n x || match integer_of x with Some _ => false | None => true end.
Lemma upto_spec n x : is_finite n = true → x ∈ upto n ↔ out_of_range n x = false.
Proof.
  unfold out_of_range. destruct n as [k| | |]; try done. intros _. cbn [upto]. unfold num_of_Z. set (U := (2 ^ 1074)%Z).
  assert (0 < U)%Z as HU by (apply Z.pow_pos_nonneg; lia).
  rewrite !orb_false_iff. split.
  - intros Hx%list_elem_of_In. apply in_map_iff in Hx as (i & <- & Hi). apply in_seq in Hi. unfold num_ltb, integer_of.
    fold U. rewrite Z.mod_mul by lia. rewrite Z.eqb_refl, !Z.ltb_ge. split_and!; [nia| |done].
    assert (Z.of_nat i <= k / U)%Z as Hk by lia. pose proof (Z.mul_div_le k U HU). nia.
  - destruct x as [n| | |]; unfold num_ltb, integer_of; try (by intros [[? ?] ?]). fold U.
    destruct (Z.eqb_spec (n mod U) 0) as [Hm|]; [|by intros [_ ?]]. rewrite !Z.ltb_ge. intros [[H1 H2] _].
    assert (n = n / U * U)%Z as Hn by (pose proof (Z.div_mod n U); lia).
    apply list_elem_of_In, in_map_iff. exists (Z.to_nat (n / U)). assert (1 <= n / U)%Z by (apply Z.div_le_lower_bound; lia).
    split; [f_equal; rewrite Z2Nat.id by lia; lia|]. apply in_seq.
    assert (n / U <= k / U)%Z by (apply Z.div_le_mono; lia). lia.
Qed.
Lemma collect_slots_spec modes n seen l seen' :
  collect_slots modes n seen l = Ok seen' ↔
  (∀ a, a ∈ l → modes !! a_scenarioId a = Some (a_mode a) ∧ out_of_range n (repetition a) = false) ∧ NoDup (slot <$> l) ∧
  (∀ a, a ∈ l → slot a ∉ seen) ∧ seen' = seen ++ (slot <$> l).
Proof.
  revert seen. induction l as [|a l IH]; intros seen; cbn [collect_slots].
  - rewrite app_nil_r. split; [intros [= ->]|by intros (_ & _ & _ & ->)].
    split_and!; [by intros ? ?%elem_of_nil|constructor|by intros ? ?%elem_of_nil|done].
  - rewrite fmap_cons, NoDup_cons. fold (slot a).
    assert (∀ a', slot a' ∉ seen ++ [slot a] ↔ slot a' ∉ seen ∧ slot a' ≠ slot a) as Hseen.
    { intros a'. rewrite elem_of_app, list_elem_of_singleton. tauto. }
    split.
    + intros (m & Hm & H)%bind_Ok. apply bind_Ok in H as (_ & Hmode%reject_if_Ok & H).
      apply bind_Ok in H as (_ & Hr%reject_if_Ok & H). apply bind_Ok in H as (_ & Hs%reject_if_Ok & H).
      apply IH in H as (H1 & H2 & H3 & ->). apply bool_decide_eq_false in Hs.
      apply negb_false_iff, bool_decide_eq_true in Hmode. unfold fail_unless in Hm.
      destruct (modes !! a_scenarioId a) as [m'|] eqn:E; [|done]. injection Hm as ->. split_and!; [| |done| |by rewrite <- app_assoc].
      * intros a' [-> |Ha]%elem_of_cons; [by rewrite E, Hmode|by apply H1].
      * intros (a' & E' & Ha)%list_elem_of_fmap. by apply (H3 a' Ha), elem_of_app; right; rewrite E'; left.
      * intros a' [-> |Ha]%elem_of_cons; [done|]. by apply Hseen, H3.
    + intros (H1 & [Hd H2] & H3 & ->). destruct (H1 a) as [Hm Hr]; [by left|]. rewrite Hm. cbn [fail_unless].
      apply bind_Ok. eexists. split; [done|]. apply bind_Ok. exists tt.
      split; [apply reject_if_Ok; by rewrite bool_decide_eq_true_2|]. apply bind_Ok. exists tt. split; [by apply reject_if_Ok|].
      apply bind_Ok. exists tt. split; [apply reject_if_Ok, bool_decide_eq_false, (H3 a); by left|]. apply IH.
      split_and!; [intros; apply H1; by right|done| |by rewrite <- app_assoc].
      intros a' Ha. apply Hseen. split; [apply H3; by right|]. intros E. apply Hd. rewrite <- E. by apply list_elem_of_fmap_2.
Qed.

Lemma modes_spec l (m : gmap string Mode) c x : NoDup (scenarioId <$> l) → (∀ s, s ∈ l → m !! scenarioId s = None) →
  foldl (λ m s, <[scenarioId s := mode s]> m) m l !! c = Some x ↔
  m !! c = Some x ∨ ∃ s, s ∈ l ∧ scenarioId s = c ∧ mode s = x.
Proof.
  revert m. induction l as [|s l IH]; intros m Hd Hm; cbn [foldl].
  - split; [by left|]. by intros [?|(s & Hs%elem_of_nil & _)].
  - rewrite fmap_cons, NoDup_cons in Hd. destruct Hd as [Hn Hd].
    assert (∀ s', s' ∈ l → scenarioId s' ≠ scenarioId s) as Hne.
    { intros s' Hs' E. apply Hn. rewrite <- E. by apply list_elem_of_fmap_2. }
    rewrite IH; [|done|].
    + rewrite lookup_insert_Some. split.
      * intros [[[<- <-]|[_ ?]]|(s' & Hs & E)]; [right; exists s; split; [by left|done]|by left|right; exists s'; split; [by right|done]].
      * intros [H|(s' & [-> |Hs]%elem_of_cons & E)]; [|by left; left|right; by exists s'].
        left. right. split; [|done]. intros E. rewrite <- E, (Hm s) in H by by left. done.
    + intros s' Hs'. rewrite lookup_insert_ne by (intros E; by apply (Hne s')). apply Hm. by right.
Qed.

Lemma set_add_NoDup {A} `{EqDecision A} (x : A) l : NoDup l → NoDup (set_add x l).
Proof.
  intros H. unfold set_add. case_bool_decide; [done|]. apply NoDup_app. split_and!; [done| |apply NoDup_singleton].
  by intros y Hy ->%list_elem_of_singleton.
Qed.
Lemma set_add_elem {A} `{EqDecision A} (x y : A) l : y ∈ set_add x l ↔ y ∈ l ∨ y = x.
Proof. unfold set_add. case_bool_decide as H; [|by rewrite elem_of_app, list_elem_of_singleton]. split; [by left|]. by intros [?| ->]. Qed.
Lemma fold_set_add {A B} `{EqDecision A} (f : B → A) l acc : NoDup acc →
  NoDup (foldl (λ acc y, set_add (f y) acc) acc l) ∧
  ∀ x, x ∈ foldl (λ acc y, set_add (f y) acc) acc l ↔ x ∈ acc ∨ ∃ y, y ∈ l ∧ x = f y.
Proof.
  revert acc. induction l as [|y l IH]; intros acc Hacc; cbn [foldl].
  - split; [done|]. intros x. split; [by left|]. by intros [?|(y & Hy%elem_of_nil & _)].
  - destruct (IH (set_add (f y) acc)) as [H1 H2]; [by apply set_add_NoDup|]. split; [done|]. intros x.
    rewrite H2, set_add_elem. split.
    + intros [[?|E]|(y' & Hy & E)]; [by left|right; exists y; split; [by left|done]|right; exists y'; split; [by right|done]].
    + intros [?|(y' & [-> |Hy]%elem_of_cons & E)]; [by left; left|by left; right|right; by exists y'].
Qed.
Lemma expected_slots_spec manifest :
  NoDup (expected_slots manifest) ∧
  ∀ x, x ∈ expected_slots manifest ↔ x.1 ∈ scenarioId <$> scenarios manifest ∧ x.2 ∈ upto (reps manifest).
Proof.
  unfold expected_slots, reps. set (r := upto _). assert (∀ l (acc : list Slot), NoDup acc →
    let l' := foldl (λ acc s, foldl (λ acc x, set_add (scenarioId s, x) acc) acc r) acc l in
    NoDup l' ∧ ∀ x, x ∈ l' ↔ x ∈ acc ∨ x.1 ∈ scenarioId <$> l ∧ x.2 ∈ r) as Hall.
  { induction l as [|s l IH]; intros acc Hacc; cbn [foldl].
    - split; [done|]. intros x. split; [by left|]. by intros [?|[?%elem_of_nil _]].
    - destruct (fold_set_add (λ x, (scenarioId s, x)) r acc Hacc) as [H1 H2]. destruct (IH _ H1) as [H3 H4].
      split; [done|]. intros x. rewrite H4, H2, fmap_cons, elem_of_cons. destruct x as [c y]. cbn. split.
      + intros [[?|(y' & Hy & [= -> ->])]|[??]]; [by left|by right; split; [left|]|by right; split; [right|]].
      + intros [?|[[-> |?] ?]]; [by left; left|left; right; by exists y|by right]. }
  destruct (Hall (scenarios manifest) [] NoDup_nil_2) as [H1 H2]. split; [done|]. intros x. rewrite H2. split; [|by right].
  by intros [?%elem_of_nil|?].
Qed.
Lemma same_size {A} `{EqDecision A} (l l' : list A) :
  NoDup l → NoDup l' → (∀ x, x ∈ l → x ∈ l') → length l = length l' ↔ ∀ x, x ∈ l' → x ∈ l.
Proof.
  intros Hl Hl' Hsub. split.
  - intros Hlen x Hx. assert (l ⊆+ l') as Hs by (by apply NoDup_submseteq).
    apply submseteq_length_Permutation in Hs; [by rewrite Hs|lia].
  - intros Hsup. apply Permutation_length, NoDup_Permutation; [done..|]. split; auto.
Qed.
Lemma complete_spec manifest attempts :
  NoDup (scenarioId <$> scenarios manifest) → is_finite (reps manifest) = true →
  assertCompleteAttemptMatrix manifest attempts = Ok tt ↔ complete manifest attempts.
Proof.
  intros Hd Hf. unfold assertCompleteAttemptMatrix. rewrite bind_Ok. setoid_rewrite reject_if_Ok.
  setoid_rewrite negb_false_iff. setoid_rewrite Nat.eqb_eq.
  assert (∀ a, scenarioModes manifest !! a_scenarioId a = Some (a_mode a) ↔
    ∃ s, s ∈ scenarios manifest ∧ scenarioId s = a_scenarioId a ∧ mode s = a_mode a) as Hmodes.
  { intros a. unfold scenarioModes. rewrite modes_spec; [|done|by intros; apply lookup_empty]. rewrite lookup_empty. split; [by intros [?|?]|by right]. }
  assert (∀ a, scenarioModes manifest !! a_scenarioId a = Some (a_mode a) → a_scenarioId a ∈ scenarioId <$> scenarios manifest) as Hin.
  { intros a (s & Hs & <- & _)%Hmodes. by apply list_elem_of_fmap_2. }
  destruct (expected_slots_spec manifest) as [Hed He]. split.
  - intros (seen & Hseen & Hlen). apply collect_slots_spec in Hseen as (H1 & H2 & _ & ->). rewrite app_nil_l in Hlen.
    assert (∀ x, x ∈ slot <$> attempts → x ∈ expected_slots manifest) as Hsub.
    { intros x (a & -> & Ha)%list_elem_of_fmap. apply He. destruct (H1 a Ha) as [Hm Hr]. split; [by apply Hin|by apply upto_spec]. }
    split; [intros a Ha; by apply Hmodes, H1|done|]. intros x. rewrite <- He. split; [apply Hsub|]. by apply same_size.
  - intros [Hm Hn Hs]. exists (slot <$> attempts). split.
    + apply collect_slots_spec. split_and!; [|done|by intros; apply not_elem_of_nil|done]. intros a Ha.
      split; [by apply Hmodes, Hm|]. apply upto_spec; [done|]. apply (Hs (slot a)). by apply list_elem_of_fmap_2.
    + apply same_size; [done..| |]; intros x; rewrite He, Hs; done.
Qed.

(** ** Keys *)
Definition plain (s : string) : bool := forallb (λ c, negb (Ascii.eqb c (ascii_of_nat 0))) (String.list_ascii_of_string s).
Lemma defectKey_inj a b a' b' : plain a = true → plain a' = true → defectKey a b = defectKey a' b' → a = a' ∧ b = b'.
Proof.
  unfold defectKey. revert a'. induction a as [|c a IH]; intros [|c' a'] Hp Hp' E.
  - cbn in E. injection E as E. by subst.
  - exfalso. unfold plain in Hp'. cbn in Hp', E. injection E as <- _. by rewrite Ascii.eqb_refl in Hp'.
  - exfalso. unfold plain in Hp. cbn in Hp, E. injection E as -> _. by rewrite Ascii.eqb_refl in Hp.
  - unfold plain in *. cbn in Hp, Hp', E. apply andb_prop in Hp as [_ Hp]. apply andb_prop in Hp' as [_ Hp'].
    injection E as <- E. destruct (IH a' Hp Hp' E) as [-> ->]. done.
Qed.
Lemma defectKey_eqb a b a' b' : plain a = true → plain a' = true →
  String.eqb (defectKey a b) (defectKey a' b') = String.eqb a a' && String.eqb b b'.
Proof.
  intros Ha Ha'. apply eq_true_iff_eq. rewrite andb_true_iff, !String.eqb_eq. split; [by apply defectKey_inj|by intros [-> ->]].
Qed.

(** ** What the gate asks for *)

(** Some attempt at the scenario of [d] reports it. *)
Definition found (attempts : list BenchmarkAttempt) (d : GroundTruthDefect) : bool :=
  existsb (λ r, String.eqb (a_scenarioId r.1) (d_scenarioId d) && String.eqb (f_defectId r.2) (d_defectId d)) (reports attempts).
(** The report [r] is of a defect seeded at its scenario. *)
Definition seeded (truth : GroundTruth) (r : Report) : bool :=
  existsb (λ d, String.eqb (d_scenarioId d) (a_scenarioId r.1) && String.eqb (d_defectId d) (f_defectId r.2)) (defects truth).
Notation size l := (Z.of_nat (length l)).
Record passing (manifest : DetectionBenchmarkManifest) (attempts : list BenchmarkAttempt) (truth : GroundTruth) : Prop := {
  pa_blocking : ∃ d, d ∈ defects truth ∧ severity d = P0;
  pa_p0 : ∀ d, d ∈ defects truth → severity d = P0 → found attempts d = true;
  pa_recall : (8 * size (defects truth) <= 10 * count (found attempts) (defects truth))%Z;
  pa_precision : (6 * size (high_reports attempts) <= 10 * count (seeded truth) (high_reports attempts))%Z;
  pa_stable : (7 * size (stable_slots attempts truth) <= 10 * count reproduces (stable_slots attempts truth))%Z;
  pa_normal : ∀ s, s ∈ scenarios manifest → mode s = normal →
    (count (λ r, String.eqb (a_scenarioId r.1) (scenarioId s) && negb (seeded truth r)) (high_reports attempts) <= 1)%Z;
}.
(** A manifest as the parser leaves it, of scenarios whose names have no NUL. *)
Record well_formed (manifest : DetectionBenchmarkManifest) : Prop := {
  wf_distinct : NoDup (scenarioId <$> scenarios manifest);
  wf_reps : is_finite (reps manifest) = true;
  wf_thresholds : thresholds manifest = DEFAULT_DETECTION_THRESHOLDS;
  wf_plain : ∀ s, s ∈ scenarios manifest → plain (scenarioId s) = true;
}.
(** Of scenarios with ordinary names. *)
Record usable (manifest : DetectionBenchmarkManifest) : Prop := {
  us_distinct : NoDup (scenarioId <$> scenarios manifest);
  us_reps : is_finite (reps manifest) = true;
  us_thresholds : thresholds manifest = DEFAULT_DETECTION_THRESHOLDS;
  us_plain : ∀ s, s ∈ scenarios manifest → plain (scenarioId s) = true;
  us_proto : ∀ s, s ∈ scenarios manifest → scenarioId s ≠ "__proto__";
}.
Lemma usable_well_formed manifest : usable manifest → well_formed manifest.
Proof. by intros []. Qed.
(** The scenarios a record can have a property for: all but [__proto__]. *)
Definition without_proto (manifest : DetectionBenchmarkManifest) : DetectionBenchmarkManifest :=
  {| benchmarkVersion := benchmarkVersion manifest; referenceProfile := referenceProfile manifest;
     scenarios := List.filter (λ s, negb (String.eqb (scenarioId s) "__proto__")) (scenarios manifest);
     thresholds := thresholds manifest |}.
Lemma without_proto_elem manifest s :
  s ∈ scenarios (without_proto manifest) ↔ s ∈ scenarios manifest ∧ scenarioId s ≠ "__proto__".
Proof. cbn. by rewrite list_elem_of_In, filter_In, negb_true_iff, String.eqb_neq, <- list_elem_of_In. Qed.
Lemma passing_ordinary manifest attempts truth :
  usable manifest → passing (without_proto manifest) attempts truth ↔ passing manifest attempts truth.
Proof.
  intros Hus. split; intros [H1 H2 H3 H4 H5 H6]; (split; [done..|]); intros s Hs; apply H6.
  - apply without_proto_elem. split; [done|by apply us_proto with manifest].
  - by apply without_proto_elem in Hs as [? _].
Qed.
(** Few enough findings to be counted exactly. *)
Definition countable (attempts : list BenchmarkAttempt) (truth : GroundTruth) : Prop :=
  (size (defects truth) <= 2 ^ 45 ∧ size (reports attempts) <= 2 ^ 45 ∧ size (stable_slots attempts truth) <= 2 ^ 45)%Z.

Lemma ratio_below n d p q : (0 <= n <= d)%Z → (d <= 2 ^ 45)%Z → (0 < p <= q)%Z → (q <= 16)%Z →
  num_ltb (value (ratio n d)) (quotient p q) = (n * q <? p * d)%Z.
Proof.
  intros Hn Hd Hp Hq. unfold ratio. cbn [value]. destruct (Z.eqb_spec d 0) as [E|Hne].
  - assert (n = 0%Z) as -> by lia. subst d. rewrite <- (quotient_one 1) by done. rewrite quotient_ltb by lia.
    apply eq_true_iff_eq. rewrite !Z.ltb_lt. lia.
  - apply quotient_ltb; lia.
Qed.
Lemma ratio_fine n d p q : (0 <= n <= d)%Z → (d <= 2 ^ 45)%Z → (0 < p <= q)%Z → (q <= 16)%Z →
  num_ltb (value (ratio n d)) (quotient p q) = false ↔ (p * d <= q * n)%Z.
Proof. intros. rewrite ratio_below by done. rewrite Z.ltb_ge. lia. Qed.

Lemma normal_counts_spec attempts truth l k v :
  NoDup (scenarioId <$> l) →
  normal_counts attempts truth l !! k = Some v ↔
  ∃ s, s ∈ l ∧ scenarioId s ≠ "__proto__" ∧ mode s = normal ∧ scenarioId s = k ∧ false_positives attempts truth k = v.
Proof.
  intros Hd. unfold normal_counts. assert (∀ (m : gmap string Z) k v, (∀ s, s ∈ l → m !! scenarioId s = None) →
    foldl (λ m s, match mode s with normal => record_set (scenarioId s) (false_positives attempts truth (scenarioId s)) m | fault => m end) m l !! k = Some v ↔
    m !! k = Some v ∨ ∃ s, s ∈ l ∧ scenarioId s ≠ "__proto__" ∧ mode s = normal ∧ scenarioId s = k ∧ false_positives attempts truth k = v) as Hall.
  2:{ rewrite Hall by (intros; apply lookup_empty). rewrite lookup_empty. split; [by intros [?|?]|by right]. }
  clear k v. induction l as [|s l' IH]; intros m k v Hm; cbn [foldl].
  { split; [by left|]. by intros [?|(s & Hs%elem_of_nil & _)]. }
  rewrite fmap_cons, NoDup_cons in Hd. destruct Hd as [Hn Hd].
  assert (∀ s', s' ∈ l' → scenarioId s' ≠ scenarioId s) as Hne.
  { intros s' Hs' E. apply Hn. rewrite <- E. by apply list_elem_of_fmap_2. }
  assert ((mode s = normal → scenarioId s = "__proto__") →
    (m !! k = Some v ∨ (∃ s0, s0 ∈ l' ∧ scenarioId s0 ≠ "__proto__" ∧ mode s0 = normal ∧ scenarioId s0 = k ∧ false_positives attempts truth k = v)) ↔
    (m !! k = Some v ∨ (∃ s0, s0 ∈ s :: l' ∧ scenarioId s0 ≠ "__proto__" ∧ mode s0 = normal ∧ scenarioId s0 = k ∧ false_positives attempts truth k = v))) as Hskip.
  { intros Hs. split.
    - intros [?|(s' & Hs' & H)]; [by left|right; exists s'; by split; [right|]].
    - intros [?|(s' & [-> |Hs']%elem_of_cons & Hp & Hm' & H)]; [by left| |right; by exists s']. by destruct Hp; apply Hs. }
  destruct (mode s) eqn:Hmode; [|by rewrite IH; [apply Hskip|done|intros; apply Hm; right]].
  unfold record_set. destruct (String.eqb_spec (scenarioId s) "__proto__") as [E|Hp];
    [by rewrite IH; [apply Hskip|done|intros; apply Hm; right]|].
  rewrite IH; [|done|].
  2: { intros s' Hs'. rewrite lookup_insert_ne by (intros E; by apply (Hne s')). apply Hm. by right. }
  rewrite lookup_insert_Some. split.
  - intros [[[<- <-]|[_ ?]]|(s' & Hs & H)]; [right; exists s; by split; [left|]|by left|right; exists s'; by split; [right|]].
  - intros [H|(s' & [-> |Hs]%elem_of_cons & H0 & H1 & H2 & H3)]; [|left; left; subst; done|right; by exists s'].
    left. right. split; [|done]. intros E. rewrite <- E, (Hm s) in H by by left. done.
Qed.

Lemma normal_counts_fine attempts truth l :
  NoDup (scenarioId <$> l) →
  (existsb (λ kv : string * Z, num_ltb (num_of_Z 1) (num_of_Z kv.2)) (map_to_list (normal_counts attempts truth l)) = false ↔
   ∀ s, s ∈ l → scenarioId s ≠ "__proto__" → mode s = normal → (false_positives attempts truth (scenarioId s) <= 1)%Z).
Proof.
  intros Hd. pose proof (λ k v, normal_counts_spec attempts truth l k v Hd) as Hspec.
  assert (∀ z, num_ltb (num_of_Z 1) (num_of_Z z) = (1 <? z)%Z) as Hlt.
  { intros z. unfold num_of_Z, num_ltb. apply eq_true_iff_eq. rewrite !Z.ltb_lt.
    symmetry. by apply Z.mul_lt_mono_pos_r. }
  rewrite <- not_true_iff_false, existsb_elem. split.
  - intros H s Hs Hne Hmode. apply Z.nlt_ge. intros Hgt. apply H. exists (scenarioId s, false_positives attempts truth (scenarioId s)).
    split; [apply elem_of_map_to_list, Hspec; by exists s|]. rewrite Hlt. by apply Z.ltb_lt.
  - intros H ([k v] & Hkv & Hgt). apply elem_of_map_to_list, Hspec in Hkv as (s & Hs & Hne & Hmode & <- & <-).
    rewrite Hlt in Hgt. apply Z.ltb_lt in Hgt. specialize (H s Hs Hne Hmode). cbn in Hgt. lia.
Qed.

Lemma existsb_ext {A} (p q : A → bool) l : (∀ x, x ∈ l → p x = q x) → existsb p l = existsb q l.
Proof.
  intros H. induction l as [|x l IH]; cbn; [done|]. rewrite (H x) by by left. rewrite IH; [done|]. intros y Hy. apply H. by right.
Qed.
Lemma code_nil {A} (b : bool) (c : A) : (if b then [c] else []) = [] ↔ b = false.
Proof. by destruct b. Qed.

Section scored.
Context (manifest : DetectionBenchmarkManifest) (attempts : list BenchmarkAttempt) (truth : GroundTruth).
Context (Hus : well_formed manifest) (Hco : consistent manifest truth) (Hcm : complete manifest attempts) (Hfew : countable attempts truth).

Lemma plain_known c : c ∈ scenarioId <$> scenarios manifest → plain c = true.
Proof using Hus. intros (s & -> & Hs)%list_elem_of_fmap. by apply Hus. Qed.
Lemma plain_report r : r ∈ reports attempts → plain (a_scenarioId r.1) = true.
Proof using Hus Hcm.
  destruct r as [a f]. intros [Ha _]%elem_of_pairs. apply plain_known. cbn. destruct (cm_modes _ _ Hcm a Ha) as (s & Hs & <- & _).
  by apply list_elem_of_fmap_2.
Qed.
Lemma plain_defect d : d ∈ defects truth → plain (d_scenarioId d) = true.
Proof using Hus Hco. intros Hd. by apply plain_known, Hco. Qed.
Lemma reported_found d : d ∈ defects truth → is_reported attempts d = found attempts d.
Proof using Hus Hco Hcm.
  intros Hd. apply existsb_ext. intros r Hr. apply defectKey_eqb; [by apply plain_report|by apply plain_defect].
Qed.
Lemma known_seeded r : r ∈ reports attempts → is_known truth r = seeded truth r.
Proof using Hus Hco Hcm.
  intros Hr. apply existsb_ext. intros d Hd. apply defectKey_eqb; [by apply plain_defect|by apply plain_report].
Qed.
Lemma high_report r : r ∈ high_reports attempts → r ∈ reports attempts.
Proof. intros H%list_elem_of_In. apply filter_In in H as [H _]. by apply list_elem_of_In. Qed.
Lemma known_count : count (is_known truth) (high_reports attempts) = count (seeded truth) (high_reports attempts).
Proof using Hus Hco Hcm. apply count_ext. intros r Hr. by apply known_seeded, high_report. Qed.
Lemma false_count c : false_positives attempts truth c =
  count (λ r, String.eqb (a_scenarioId r.1) c && negb (seeded truth r)) (high_reports attempts).
Proof using Hus Hco Hcm.
  unfold false_positives, high_reports. rewrite count_filter. apply count_ext. intros r Hr. rewrite known_seeded by done.
  by destruct (String.eqb _ _), (is_high _).
Qed.
Lemma size_high : (size (high_reports attempts) <= size (reports attempts))%Z.
Proof. unfold high_reports. rewrite filter_length. apply count_range. Qed.

Lemma p0_fine :
  let r := match p0_defects truth with
           | [] => {| numerator := 0; denominator := 0; value := num_of_Z 0 |}
           | l => ratio (count (is_reported attempts) l) (size l)
           end in
  ((denominator r =? 0)%Z || negb (numerator r =? denominator r)%Z || num_ltb (value r) (quotient 1 1) = false) ↔
  (∃ d, d ∈ defects truth ∧ severity d = P0) ∧ ∀ d, d ∈ defects truth → severity d = P0 → found attempts d = true.
Proof using Hus Hco Hcm Hfew.
  assert (∀ d, d ∈ p0_defects truth ↔ d ∈ defects truth ∧ severity d = P0) as Hp0.
  { intros d. unfold p0_defects. by rewrite list_elem_of_In, filter_In, bool_decide_eq_true, <- list_elem_of_In. }
  assert (size (p0_defects truth) <= 2 ^ 45)%Z as Hsize.
  { unfold p0_defects. rewrite filter_length. pose proof (count_range (λ d, bool_decide (severity d = P0)) (defects truth)).
    destruct Hfew as [? _]. lia. }
  assert (∀ l, l = p0_defects truth → count (is_reported attempts) l = size l ↔
    ∀ d, d ∈ defects truth → severity d = P0 → found attempts d = true) as Hall.
  { intros l ->. rewrite count_all. split.
    - intros H d Hd Hs. rewrite <- reported_found by done. by apply H, Hp0.
    - intros H d [Hd Hs]%Hp0. rewrite reported_found by done. by apply H. }
  cbv zeta. destruct (p0_defects truth) as [|d0 l] eqn:El.
  - split; [done|]. intros [(d & Hd & Hs) _]. assert (d ∈ ([] : list GroundTruthDefect)) as ?%elem_of_nil; [|done]. apply Hp0. done.
  - specialize (Hall _ eq_refl). set (L := d0 :: l) in *. cbn [denominator numerator ratio].
    pose proof (count_range (is_reported attempts) L) as Hr. rewrite !orb_false_iff.
    rewrite (ratio_fine (count (is_reported attempts) L) (size L) 1 1) by lia. rewrite negb_false_iff, Z.eqb_eq, Z.eqb_neq. split.
    + intros [[_ E] _]. split; [exists d0; apply Hp0; by left|by apply Hall].
    + intros [_ E%Hall]. split_and!; [|done|lia]. unfold L. cbn [length]. lia.
Qed.

Lemma thresholds_fine : evaluateThresholds manifest (computeMetrics manifest attempts truth) = [] ↔
  passing (without_proto manifest) attempts truth.
Proof using Hus Hco Hcm Hfew.
  unfold evaluateThresholds. rewrite metrics_spec, (wf_thresholds _ Hus). cbv zeta.
  cbn [p0Recall knownBugRecall findingPrecision stableReproductionRate highConfidenceFalsePositivesByNormalMission
    p0RecallMinimum knownBugRecallMinimum findingPrecisionMinimum stableReproductionRateMinimum
    maximumHighConfidenceFalsePositivesPerNormalMission DEFAULT_DETECTION_THRESHOLDS].
  assert (∀ A (l l' : list A), l ++ l' = [] ↔ l = [] ∧ l' = []) as Happ by (intros A [|x l] l'; cbn; naive_solver).
  rewrite !Happ, !code_nil.
  destruct Hfew as (Hf1 & Hf2 & Hf3). pose proof size_high.
  rewrite p0_fine. rewrite known_count, (count_ext (is_reported attempts) (found attempts)) by (intros; by apply reported_found).
  rewrite !ratio_fine by (first [apply count_range|lia]).
  rewrite normal_counts_fine by apply Hus.
  split.
  - intros ([H1 H2] & H3 & H4 & H5 & H6). split; [done..|]. intros s [Hs Hne]%without_proto_elem Hn. rewrite <- false_count. by apply H6.
  - intros [H1 H2 H3 H4 H5 H6]. split_and!; [done..|]. intros s Hs Hne Hn. rewrite false_count. apply H6; [by apply without_proto_elem|done].
Qed.
End scored.

Section gate.
Context (sha256Hex : string → string) (number_text : number → string).
Notation scoreBenchmark := (scoreBenchmark sha256Hex number_text).
Notation referenceProfileSha256 := (referenceProfileSha256 sha256Hex number_text).

Lemma single_profile attempts h :
  assertSingleProfile attempts = Ok h ↔ attempts ≠ [] ∧ ∀ a, a ∈ attempts → a_profileSha256 a = h.
Proof.
  destruct attempts as [|a0 l]; cbn [assertSingleProfile]; [split; [done|by intros [? _]]|].
  rewrite bind_Ok. setoid_rewrite reject_if_Ok. setoid_rewrite <- not_true_iff_false. setoid_rewrite existsb_elem. split.
  - intros (_ & H & [= <-]). split; [done|]. intros a Ha. destruct (String.eqb_spec (a_profileSha256 a) (a_profileSha256 a0)); [done|].
    destruct H. exists a. split; [done|]. by apply negb_true_iff, String.eqb_neq.
  - intros [_ H]. exists tt. split; [|by rewrite (H a0) by by left]. intros (a & Ha & Hne).
    rewrite (H a Ha), (H a0) in Hne by by left. by rewrite String.eqb_refl in Hne.
Qed.

(** The gate, for any scenario names. *)
Lemma gate_passes manifest attempts truth options :
  well_formed manifest → countable attempts truth →
  (∃ r, scoreBenchmark manifest attempts truth options = Ok r ∧ status (gate r) = gate_passed) ↔
  consistent manifest truth ∧ complete manifest attempts ∧ attempts ≠ [] ∧
  (∀ a, a ∈ attempts → a_profileSha256 a = referenceProfileSha256 (referenceProfile manifest)) ∧
  passing (without_proto manifest) attempts truth.
Proof.
  intros Hus Hfew. unfold Detection.scoreBenchmark. split.
  - intros (r & H & Hg). apply bind_Ok in H as ([] & Hco%consistent_spec & H). apply bind_Ok in H as ([] & Hcm & H).
    apply complete_spec in Hcm; [|apply Hus..]. apply bind_Ok in H as (h & [Hne Hp]%single_profile & [= <-]). cbn [gate status] in Hg.
    destruct (String.eqb_spec h (referenceProfileSha256 (referenceProfile manifest))) as [-> |]; [|done].
    destruct (evaluateThresholds manifest _) eqn:E; [|done]. split_and!; [done..|]. by apply thresholds_fine.
  - intros (Hco & Hcm & Hne & Hp & Hpass). eexists. rewrite (proj2 (consistent_spec _ _) Hco). cbn [mbind outcome_bind].
    rewrite (proj2 (complete_spec _ _ (wf_distinct _ Hus) (wf_reps _ Hus)) Hcm). cbn [mbind outcome_bind].
    rewrite (proj2 (single_profile _ _) (conj Hne Hp)). cbn [mbind outcome_bind]. split; [reflexivity|]. cbn [gate status].
    rewrite String.eqb_refl. apply thresholds_fine in Hpass; [|done..]. by rewrite Hpass.
Qed.

(** C25: For scenarios whose names have no NUL and are not [__proto__], a run passes
    the gate exactly if its ground truth is the manifest's, its
    attempts are the whole matrix of scenarios and repetitions and all made with
    the reference profile, some seeded defect is release-blocking and all of those
    are found, 4 in 5 of the seeded defects are found, 3 in 5 of the confident
    findings are seeded, 7 in 10 of the attempts at a stable defect reproduce it,
    and no normal scenario has two confident findings that are not seeded. *)
Theorem gate_passed_iff manifest attempts truth options :
  usable manifest → countable attempts truth →
  (∃ r, scoreBenchmark manifest attempts truth options = Ok r ∧ status (gate r) = gate_passed) ↔
  consistent manifest truth ∧ complete manifest attempts ∧ attempts ≠ [] ∧
  (∀ a, a ∈ attempts → a_profileSha256 a = referenceProfileSha256 (referenceProfile manifest)) ∧
  passing manifest attempts truth.
Proof.
  intros Hus Hfew. rewrite <- passing_ordinary by done. by apply gate_passes; [apply usable_well_formed|].
Qed.

(** The metrics of a report are those of its attempts. *)
Lemma score_metrics manifest attempts truth options r :
  scoreBenchmark manifest attempts truth options = Ok r → metrics r = computeMetrics manifest attempts truth.
Proof.
  unfold Detection.scoreBenchmark. intros H. apply bind_Ok in H as ([] & _ & H). apply bind_Ok in H as ([] & _ & H).
  by apply bind_Ok in H as (h & _ & [= <-]).
Qed.

(** C39: The confident false positives of a normal scenario called [__proto__] are
    not reported and never compared with the bound, however many there are: the
    gate passes exactly if it would with the bound asked of the other scenarios
    only.  Under any other name a normal scenario with two of them never passes. *)
Theorem proto_scenario_unchecked manifest attempts truth options :
  well_formed manifest → countable attempts truth →
  (∀ r, scoreBenchmark manifest attempts truth options = Ok r →
     highConfidenceFalsePositivesByNormalMission (metrics r) !! "__proto__" = None) ∧
  ((∃ r, scoreBenchmark manifest attempts truth options = Ok r ∧ status (gate r) = gate_passed) ↔
   consistent manifest truth ∧ complete manifest attempts ∧ attempts ≠ [] ∧
   (∀ a, a ∈ attempts → a_profileSha256 a = referenceProfileSha256 (referenceProfile manifest)) ∧
   passing (without_proto manifest) attempts truth) ∧
  (∀ r s, scoreBenchmark manifest attempts truth options = Ok r → s ∈ scenarios manifest → mode s = normal →
     (1 < count (λ r, String.eqb (a_scenarioId r.1) (scenarioId s) && negb (seeded truth r)) (high_reports attempts))%Z →
     scenarioId s ≠ "__proto__" → status (gate r) ≠ gate_passed).
Proof.
  intros Hwf Hfew. pose proof (gate_passes manifest attempts truth options Hwf Hfew) as Hiff. split_and!; [|done|].
  - intros r ->%score_metrics. rewrite metrics_spec. cbn [highConfidenceFalsePositivesByNormalMission].
    apply eq_None_not_Some. intros [v (s & _ & Hne & _ & E & _)%normal_counts_spec]; [done|apply Hwf].
  - intros r s Hr Hs Hn Hfp Hne Hst. destruct (proj1 Hiff) as (_ & _ & _ & _ & [_ _ _ _ _ H]); [by exists r|].
    specialize (H s). rewrite without_proto_elem in H. specialize (H (conj Hs Hne) Hn). lia.
Qed.

(** ** The order of the attempts *)
Lemma existsb_perm {A} (p : A → bool) l l' : l ≡ₚ l' → existsb p l = existsb p l'.
Proof. intros H. apply eq_true_iff_eq. rewrite !existsb_elem. by setoid_rewrite H. Qed.
Lemma filter_perm {A} (p : A → bool) l l' : l ≡ₚ l' → List.filter p l ≡ₚ List.filter p l'.
Proof.
  induction 1 as [|x l l' _ IH|x y l|l1 l2 l3 _ IH1 _ IH2]; cbn; [done|by destruct (p x); [constructor|]| |by etrans].
  destruct (p x), (p y); done || apply perm_swap.
Qed.
Lemma pairs_perm_inner {A B} (g g' : A → list B) l : (∀ x, g x ≡ₚ g' x) → pairs g l ≡ₚ pairs g' l.
Proof. intros H. induction l as [|x l IH]; [done|]. unfold pairs in *. cbn. by rewrite (H x), IH. Qed.
Lemma fold_left_ext_in {A B} (f g : B → A → B) l b : (∀ b x, x ∈ l → f b x = g b x) → foldl f b l = foldl g b l.
Proof.
  revert b. induction l as [|x l IH]; intros b H; cbn; [done|]. rewrite (H b x) by by left. apply IH. intros. apply H. by right.
Qed.

Lemma metrics_perm manifest attempts attempts' truth :
  attempts ≡ₚ attempts' → computeMetrics manifest attempts truth = computeMetrics manifest attempts' truth.
Proof.
  intros H. assert (reports attempts ≡ₚ reports attempts') as Hr by by apply pairs_perm.
  assert (high_reports attempts ≡ₚ high_reports attempts') as Hh by by apply filter_perm.
  assert (stable_slots attempts truth ≡ₚ stable_slots attempts' truth) as Hs.
  { apply pairs_perm_inner. intros d. destruct (stable d); [by apply filter_perm|done]. }
  assert (∀ l, count (is_reported attempts) l = count (is_reported attempts') l) as Hd.
  { intros l. apply count_ext. intros d _. by apply existsb_perm. }
  rewrite !metrics_spec. f_equal.
  - destruct (p0_defects truth); [done|].
    cbv zeta. by rewrite Hd.
  - by rewrite Hd.
  - by rewrite Hh.
  - by rewrite Hs.
  - unfold normal_counts. apply fold_left_ext_in. intros m s _. destruct (mode s); [|done]. f_equal. by apply count_perm.
Qed.
Lemma same_outcome {E A} (o o' : outcome E A) e :
  (∀ a, o = Ok a → o' = Ok a) → (∀ a, o' = Ok a → o = Ok a) → (∀ x, o = Throw x → x = e) → (∀ x, o' = Throw x → x = e) → o = o'.
Proof.
  intros H1 H2 H3 H4. destruct o as [a|x], o' as [a'|x']; [by symmetry; apply H1|by discriminate (H1 a)|by discriminate (H2 a')|].
  by rewrite (H3 x), (H4 x').
Qed.
Lemma reject_throw {E A} b (e x : E) (k : unit → outcome E A) : reject_if b e ≫= k = Throw x → x = e ∨ k tt = Throw x.
Proof. destruct b; cbn; [intros [= ->]; by left|by right]. Qed.
Lemma matrix_error manifest attempts x :
  assertCompleteAttemptMatrix manifest attempts = Throw x → x = BenchmarkAttemptMatrixIncomplete.
Proof.
  unfold assertCompleteAttemptMatrix. generalize (scenarioModes manifest) (repetitions (referenceProfile manifest)). intros modes n.
  assert (∀ seen l x, collect_slots modes n seen l = Throw x → x = BenchmarkAttemptMatrixIncomplete) as Hall.
  { intros seen l. revert seen. induction l as [|a l IH]; intros seen y; cbn [collect_slots]; [done|].
    destruct (modes !! a_scenarioId a); [|by intros [= ->]].
    intros [-> |[-> |[-> |H]%reject_throw]%reject_throw]%reject_throw; [done..|by eapply IH]. }
  destruct (collect_slots _ _ _ _) as [seen|y] eqn:E; cbn.
  - unfold reject_if. case_match; by intros [= ->].
  - intros [= ->]. by eapply Hall.
Qed.
Lemma matrix_perm manifest attempts attempts' :
  attempts ≡ₚ attempts' → assertCompleteAttemptMatrix manifest attempts = assertCompleteAttemptMatrix manifest attempts'.
Proof.
  intros H. eapply same_outcome; [| |apply matrix_error..]; clear -H.
  2: symmetry in H. all: intros []; unfold assertCompleteAttemptMatrix; rewrite !bind_Ok; setoid_rewrite collect_slots_spec.
  all: intros (seen & (H1 & H2 & _ & ->) & H3); eexists; split; [split_and!; [| |by intros; apply not_elem_of_nil|reflexivity]|].
  all: try (by intros a Ha; apply H1; rewrite H); try (by rewrite <- H).
  all: rewrite app_nil_l, length_fmap in *; by rewrite <- (Permutation_length H).
Qed.
Lemma profile_perm attempts attempts' : attempts ≡ₚ attempts' → assertSingleProfile attempts = assertSingleProfile attempts'.
Proof.
  intros H. destruct attempts as [|a l]; [by apply Permutation_nil_l in H as ->|].
  destruct attempts' as [|a' l']; [by symmetry in H; apply Permutation_nil_l in H|].
  assert (∀ l, l ≠ [] → ∀ x, assertSingleProfile l = Throw x → x = ReferenceProfileMismatch) as Hx.
  { intros [|b r] Hne x; [done|]. cbn. unfold reject_if. case_match; cbn; by intros [= ->]. }
  eapply same_outcome; [intros h [_ Hh]%single_profile|intros h [_ Hh]%single_profile|by apply Hx|by apply Hx];
    apply single_profile; (split; [done|]); intros b Hb; apply Hh; [by rewrite H|by rewrite <- H].
Qed.
Lemma sort_texts_perm l l' :
  l ≡ₚ l' → (∀ a b, a ∈ l → b ∈ l → units a = units b → a = b) → sort_texts l = sort_texts l'.
Proof.
  intros H Hu. unfold sort_texts. f_equal. apply sort_fields_unique; [by rewrite H|].
  intros x y (a & -> & Ha)%list_elem_of_fmap (b & -> & Hb)%list_elem_of_fmap. cbn. intros E. by rewrite (Hu a b Ha Hb E).
Qed.

(** C26: The report of a run does not depend on the order its attempts are given in. *)
Theorem score_order manifest attempts attempts' truth options :
  attempts ≡ₚ attempts' →
  (∀ a b, a ∈ attemptId <$> attempts → b ∈ attemptId <$> attempts → units a = units b → a = b) →
  scoreBenchmark manifest attempts truth options = scoreBenchmark manifest attempts' truth options.
Proof.
  intros H Hu. unfold Detection.scoreBenchmark. rewrite (matrix_perm _ _ _ H), (profile_perm _ _ H), (metrics_perm _ _ _ truth H).
  by rewrite (sort_texts_perm (attemptId <$> attempts) (attemptId <$> attempts')) by (by rewrite ?H).
Qed.
End gate.

End DetectionProperties.
