(* ===== verification/DetectionManifest.v ===== *)
(** * The detection benchmark: what the parsers accept

    The manifests that [Detection.parseManifest] returns, and that they are read
    back from the JSON they are hashed as; a run that was loaded and scored. *)
From S2P Require Import Prelude Number Json CanonicalJson Quotient Detection DetectionMetrics DetectionProperties.
From Stdlib Require Import Ascii.

Module DetectionManifest.
Import Quotient Detection DetectionMetrics DetectionProperties.

Definition is_count (n : number) : bool := negb (negb (is_finite n) || num_ltb n (num_of_Z 0)).
Record valid_profile (p : ReferenceModelProfile) : Prop := {
  vp_texts : Forall (λ s, s ≠ "") [profileId p; providerId p; modelId p; promptVersion p; browserVersion p];
  vp_hashes : isSha256 (policyBundleSha256 p) = true ∧ isSha256 (skillPackSha256 p) = true;
  vp_versions : map_Forall (λ k v, k ≠ "__proto__" ∧ v ≠ "") (fixtureVersions p);
  vp_counts : Forall (λ n, is_count n = true) [repetitions p; maximumSteps p; maximumWallClockMs p; maximumModelTokens p];
  vp_repetitions : ∃ n, integer_of (repetitions p) = Some n ∧ (1 <= n)%Z;
}.
Record valid_scenario (s : BenchmarkScenario) : Prop := {
  vs_texts : Forall (λ s, s ≠ "") [scenarioId s; fixtureId s; fixtureVersion s; missionRef s; groundTruthRef s];
  vs_expected : Forall (λ s, s ≠ "") (expectedDefectIds s);
  vs_distinct : NoDup (expectedDefectIds s);
}.
Record valid_manifest (m : DetectionBenchmarkManifest) : Prop := {
  vm_version : benchmarkVersion m ≠ "";
  vm_profile : valid_profile (referenceProfile m);
  vm_some : scenarios m ≠ [];
  vm_scenarios : Forall valid_scenario (scenarios m);
  vm_distinct : NoDup (scenarioId <$> scenarios m);
  vm_thresholds : thresholds m = DEFAULT_DETECTION_THRESHOLDS;
}.

(** ** What is accepted is valid *)
Lemma string_field_Ok key code r s : requireString key code r = Ok s ↔ get_field key r = Some (JStr s) ∧ s ≠ "".
Proof.
  unfold requireString. destruct (get_field key r) as [[| | |s'| |]|]; try (by split; [|intros [? ?]]).
  destruct (String.eqb_spec s' ""); split; try done; [by intros [[= <-] ?]|by intros [= ->]|by intros [[= ->] _]].
Qed.
Lemma requireNumber_Ok key code r n : requireNumber key code r = Ok n ↔ get_field key r = Some (JNum n) ∧ is_count n = true.
Proof.
  unfold requireNumber, is_count. destruct (get_field key r) as [[| |n'| | |]|]; try (by split; [|intros [? ?]]).
  destruct (_ || _) eqn:E; split; try done; [by intros [[= ->] H]; rewrite E in H|intros [= ->]; by rewrite E|by intros [[= ->] _]].
Qed.
Lemma asRecord_Ok v code r : asRecord v code = Ok r ↔ v = Some (JObj r).
Proof. unfold asRecord. destruct v as [[]|]; split; try done; [by intros [= ->]|by intros [= ->]]. Qed.

Lemma parseFixtureVersions_Ok l m m' :
  foldl (λ acc kv, m ← acc; parseFixtureVersion m kv) (Ok m) l = Ok m' →
  map_Forall (λ k v, k ≠ "__proto__" ∧ v ≠ "") m → map_Forall (λ k v, k ≠ "__proto__" ∧ v ≠ "") m'.
Proof.
  revert m. induction l as [|kv l IH]; intros m; cbn [foldl]; [by intros [= ->]|].
  destruct (parseFixtureVersion m kv) as [m1|e] eqn:E; cbn [mbind outcome_bind]; rewrite E.
  - intros H Hm. eapply IH; [exact H|]. unfold parseFixtureVersion in E. destruct (kv.2); try done.
    destruct (String.eqb_spec s ""); [done|]. injection E as <-. unfold record_set.
    destruct (String.eqb_spec kv.1 "__proto__"); [done|]. by apply map_Forall_insert_2.
  - intros H. exfalso. clear -H. induction l as [|kv' l IH]; [done|]. by apply IH.
Qed.
Lemma parseReferenceProfile_Ok v p : parseReferenceProfile v = Ok p → valid_profile p.
Proof.
  unfold parseReferenceProfile. intros H. inv_parse. injection H as <-.
  repeat match goal with
  | H : requireString _ _ _ = Ok _ |- _ => apply string_field_Ok in H as [_ H]
  | H : requireNumber _ _ _ = Ok _ |- _ => apply requireNumber_Ok in H as [_ H]
  end.
  split; cbn; [by repeat constructor|done| |by repeat constructor|].
  - match goal with H : parseFixtureVersions _ = Ok _ |- _ => eapply parseFixtureVersions_Ok; [exact H|apply map_Forall_empty] end.
  - match goal with H : fail_unless _ _ = Ok ?n |- _ => exists n; unfold fail_unless in H; case_match; [|done]; injection H as -> end.
    split; [done|]. by apply Z.ltb_ge.
Qed.
Lemma parseDefectId_Ok v s : parseDefectId v = Ok s ↔ v = JStr s ∧ s ≠ "".
Proof.
  unfold parseDefectId. destruct v; try (by split; [|intros [? ?]]).
  destruct (String.eqb_spec s0 ""); split; try done; [by intros [[= <-] ?]|by intros [= ->]|by intros [[= ->] _]].
Qed.
Lemma parseScenario_Ok v s : parseScenario v = Ok s → valid_scenario s.
Proof.
  unfold parseScenario. intros H. inv_parse. injection H as <-.
  repeat match goal with H : requireString _ _ _ = Ok _ |- _ => apply string_field_Ok in H as [_ H] end.
  split; cbn; [by repeat constructor| |by apply duplicates_spec].
  match goal with H : mapM _ _ = Ok _ |- _ => eapply (mapM_Ok_Forall _ (λ s, s ≠ "")) in H as [? _]; [done|] end.
  intros a b [_ ?]%parseDefectId_Ok. done.
Qed.
Lemma accepted_valid v m : parseManifest v = Ok m → valid_manifest m.
Proof.
  unfold parseManifest. intros H. inv_parse. injection H as <-.
  match goal with H : parseReferenceProfile _ = Ok _ |- _ => apply parseReferenceProfile_Ok in H end.
  match goal with H : requireString _ _ _ = Ok _ |- _ => apply string_field_Ok in H as [_ H] end.
  match goal with H : mapM _ _ = Ok _ |- _ => eapply (mapM_Ok_Forall _ valid_scenario) in H as [? Hlen]; [|apply parseScenario_Ok] end.
  split; cbn; [done..| |done|by apply duplicates_spec|].
  - by intros ->.
  - unfold parseThresholds in *. inv_parse. by match goal with H : mret _ = Ok _ |- _ => injection H as <- end.
Qed.

(** ** What is valid is read back *)
Lemma nonempty_eqb s : s ≠ "" → String.eqb s "" = false.
Proof. by apply String.eqb_neq. Qed.
Lemma requireString_back key code r s : get_field key r = Some (JStr s) → s ≠ "" → requireString key code r = Ok s.
Proof. intros. by apply string_field_Ok. Qed.
Lemma requireNumber_back key code r n : get_field key r = Some (JNum n) → is_count n = true → requireNumber key code r = Ok n.
Proof. intros. by apply requireNumber_Ok. Qed.

Lemma versions_back (l : list (string * string)) m :
  NoDup l.*1 → (∀ k v, (k, v) ∈ l → k ≠ "__proto__" ∧ v ≠ "") → (∀ k v, (k, v) ∈ l → m !! k = None) →
  foldl (λ acc kv, m ← acc; parseFixtureVersion m kv) (Ok m) (prod_map id JStr <$> l) = Ok (list_to_map l ∪ m).
Proof.
  revert m. induction l as [|[k v] l IH]; intros m Hd Hl Hm; cbn [fmap list_fmap foldl].
  - by rewrite list_to_map_nil, (left_id_L ∅ (∪)).
  - cbn in Hd. rewrite NoDup_cons in Hd. destruct Hd as [Hn Hd]. destruct (Hl k v) as [Hk Hv]; [by left|].
    cbn [mbind outcome_bind]. unfold parseFixtureVersion at 2. cbn [prod_map fst snd id]. rewrite (nonempty_eqb _ Hv).
    unfold record_set. rewrite (proj2 (String.eqb_neq _ _) Hk). rewrite IH; [|done|by intros; apply Hl; right|].
    + rewrite list_to_map_cons, <- insert_union_l, insert_union_r; [done|]. by apply not_elem_of_list_to_map_1.
    + intros k' v' Hin. rewrite lookup_insert_ne; [by eapply Hm; right|]. intros ->. apply Hn. apply list_elem_of_fmap. by exists (k', v').
Qed.
Lemma parseFixtureVersions_back m :
  map_Forall (λ k v, k ≠ "__proto__" ∧ v ≠ "") m → parseFixtureVersions (prod_map id JStr <$> map_to_list m) = Ok m.
Proof.
  intros Hm. unfold parseFixtureVersions. rewrite versions_back.
  - by rewrite list_to_map_to_list, (right_id_L ∅ (∪)).
  - apply NoDup_fst_map_to_list.
  - intros k v H%elem_of_map_to_list. by apply (Hm k v).
  - intros. apply lookup_empty.
Qed.

Ltac read_back := first
  [ erewrite requireString_back; [|reflexivity|by auto]
  | erewrite requireNumber_back; [|reflexivity|by auto] ]; cbn [mbind outcome_bind].
Lemma profile_back p : valid_profile p → parseReferenceProfile (Some (profile_json p)) = Ok p.
Proof.
  intros [Ht [Hh1 Hh2] Hv Hc (n & Hn & H1)]. rewrite !Forall_cons in Ht. rewrite !Forall_cons in Hc. destruct Ht as (?&?&?&?&?&_), Hc as (?&?&?&?&_).
  unfold parseReferenceProfile, profile_json. cbv zeta. cbn [asRecord mbind outcome_bind].
  change (get_field "fixtureVersions" _) with (Some (JObj (prod_map id JStr <$> map_to_list (fixtureVersions p)))).
  cbn [asRecord mbind outcome_bind]. rewrite parseFixtureVersions_back by done. cbn [mbind outcome_bind].
  assert (∀ s, isSha256 s = true → s ≠ "") as Hhash by (by intros s Hs ->).
  repeat read_back. rewrite Hh1, Hh2. cbn [negb reject_if mbind outcome_bind]. rewrite Hn. cbn [fail_unless mbind outcome_bind].
  rewrite (proj2 (Z.ltb_ge n 1)) by done. cbn [reject_if mbind outcome_bind]. by destruct p.
Qed.
Lemma scenario_back s : valid_scenario s → parseScenario (scenario_json s) = Ok s.
Proof.
  intros [Ht He Hd]. rewrite !Forall_cons in Ht. destruct Ht as (?&?&?&?&?&_).
  unfold parseScenario, scenario_json. cbv zeta. cbn [asRecord mbind outcome_bind].
  assert (mode_text (mode s) ≠ "") by (by destruct (mode s)). repeat read_back.
  assert (parseMode (mode_text (mode s)) = Ok (mode s)) as -> by (by destruct (mode s)). cbn [mbind outcome_bind].
  change (get_field "expectedDefectIds" _) with (Some (JArr (JStr <$> expectedDefectIds s))). cbn beta iota.
  rewrite (mapM_encode parseDefectId JStr).
  2: { intros a Ha. apply parseDefectId_Ok. split; [done|]. rewrite Forall_forall in He. by apply He. }
  cbn [mbind outcome_bind]. rewrite (proj2 (duplicates_spec _) Hd). cbn [reject_if mbind outcome_bind]. by destruct s.
Qed.
Lemma thresholds_back : parseThresholds (Some (thresholds_json DEFAULT_DETECTION_THRESHOLDS)) = Ok DEFAULT_DETECTION_THRESHOLDS.
Proof. vm_compute. reflexivity. Qed.
Lemma valid_accepted m : valid_manifest m → parseManifest (manifest_json m) = Ok m.
Proof.
  intros [Hv Hp Hne Hs Hd Ht]. unfold parseManifest, manifest_json. cbv zeta. cbn [asRecord mbind outcome_bind].
  change (get_field "schemaVersion" _) with (Some (JStr DETECTION_BENCHMARK_SCHEMA_VERSION)). cbn beta iota.
  rewrite String.eqb_refl. cbn [negb reject_if mbind outcome_bind].
  change (get_field "scenarios" _) with (Some (JArr (scenario_json <$> scenarios m))).
  cbn beta iota. assert (∀ l : list json, l ≠ [] →
    match l with [] => Throw BenchmarkManifestInvalid | x :: l => Ok (x :: l) end = Ok l) as Hraw by (by intros [|??]).
  rewrite Hraw by (by destruct (scenarios m)). cbn [mbind outcome_bind].
  rewrite (mapM_encode parseScenario scenario_json) by (intros s Hs'; apply scenario_back; rewrite Forall_forall in Hs; by apply Hs).
  cbn [mbind outcome_bind]. rewrite (proj2 (duplicates_spec _) Hd). cbn [reject_if mbind outcome_bind]. repeat read_back.
  change (get_field "referenceProfile" _) with (Some (profile_json (referenceProfile m))). rewrite (profile_back _ Hp). cbn [mbind outcome_bind].
  change (get_field "thresholds" _) with (Some (thresholds_json (thresholds m))). rewrite Ht, thresholds_back. cbn [mbind outcome_bind].
  destruct m. cbn in *. by rewrite Ht.
Qed.

(** C27: A manifest that was accepted has distinct scenarios, hexadecimal hashes, whole
    positive repetitions and the frozen thresholds, and the JSON that it is hashed
    as is accepted as the same manifest. *)
Theorem manifest_roundtrip v m :
  parseManifest v = Ok m → valid_manifest m ∧ parseManifest (manifest_json m) = Ok m.
Proof. intros H%accepted_valid. split; [done|]. by apply valid_accepted. Qed.

(** A loaded manifest of scenarios whose names have no NUL is one of
    [proto_scenario_unchecked], and one of [gate_passed_iff] if none is [__proto__]. *)
Lemma accepted_well_formed v m :
  parseManifest v = Ok m → (∀ s, s ∈ scenarios m → plain (scenarioId s) = true) → well_formed m.
Proof.
  intros [_ Hp _ _ Hd Ht]%accepted_valid Hs. split; [done| |done|done].
  pose proof (vp_counts _ Hp) as Hc. apply Forall_cons in Hc as [Hc _]. unfold is_count in Hc.
  apply negb_true_iff, orb_false_iff in Hc as [Hc _]. by apply negb_false_iff.
Qed.
Lemma accepted_usable v m :
  parseManifest v = Ok m →
  (∀ s, s ∈ scenarios m → plain (scenarioId s) = true ∧ scenarioId s ≠ "__proto__") → usable m.
Proof.
  intros Hm Hs. destruct (accepted_well_formed _ _ Hm) as [H1 H2 H3 H4]; [intros s Hin; by apply Hs|].
  split; [done..|]. intros s Hin. by apply Hs.
Qed.

End DetectionManifest.
