(* ===== verification/DetectionSample.v ===== *)
(** * The detection benchmark: a sample run

    A benchmark of a shop with a scenario seeded with three defects and a normal one,
    and the properties at its runs, one of which passes with two false positives at
    a normal scenario. *)
From S2P Require Import Prelude Number Json CanonicalJson Quotient.
From S2P Require Import Detection DetectionMetrics DetectionProperties DetectionManifest.
From Stdlib Require Import Ascii.

Module DetectionSample.
Import Quotient Detection DetectionMetrics DetectionProperties DetectionManifest.

Definition sample_sha256 (s : string) : string := s.
Definition sample_text (n : number) : string := "1".
Definition sample_digest : string := "0123456789abcdef0123456789abcdef0123456789abcdef0123456789abcdef".
Definition sample_profile : ReferenceModelProfile :=
  {| profileId := "reference"; providerId := "provider"; modelId := "model"; promptVersion := "v1";
     policyBundleSha256 := sample_digest; skillPackSha256 := sample_digest; browserVersion := "120";
     fixtureVersions := {["shop" := "1"]}; maximumSteps := num_of_Z 20; maximumWallClockMs := num_of_Z 60000;
     maximumModelTokens := num_of_Z 5000; repetitions := num_of_Z 1 |}.
Definition sample_scenario (id : string) (m : Mode) (expected : list string) : BenchmarkScenario :=
  {| scenarioId := id; fixtureId := "shop"; fixtureVersion := "1"; mode := m; missionRef := "mission";
     groundTruthRef := "truth"; expectedDefectIds := expected |}.
(** The normal scenario is called [name]. *)
Definition sample_manifest (name : string) : DetectionBenchmarkManifest :=
  {| benchmarkVersion := "1"; referenceProfile := sample_profile;
     scenarios := [sample_scenario "checkout" fault ["total"; "coupon"; "stock"]; sample_scenario name normal []];
     thresholds := DEFAULT_DETECTION_THRESHOLDS |}.
Definition sample_defect (id : string) (s : DefectSeverity) : GroundTruthDefect :=
  {| d_scenarioId := "checkout"; d_defectId := id; severity := s; stable := true |}.
Definition sample_truth : GroundTruth :=
  {| t_benchmarkVersion := "1"; defects := [sample_defect "total" P0; sample_defect "coupon" P1; sample_defect "stock" P2] |}.
Definition sample_finding (id : string) : DetectionFinding := {| f_defectId := id; confidence := high |}.
Definition sample_attempt (scenario : string) (m : Mode) (ids : list string) : BenchmarkAttempt :=
  {| attemptId := scenario; a_profileSha256 := referenceProfileSha256 sample_sha256 sample_text sample_profile;
     a_scenarioId := scenario; a_mode := m; repetition := num_of_Z 1; findings := sample_finding <$> ids |}.
(** Every defect is found; [false_alarms] are reported at the normal scenario. *)
Definition sample_attempts (name : string) (false_alarms : list string) : list BenchmarkAttempt :=
  [sample_attempt "checkout" fault ["total"; "coupon"; "stock"]; sample_attempt name normal false_alarms].
Definition no_options : ScoreOptions := {| o_createdAt := None; o_inputSha256 := None; o_attemptBindingSha256s := None |}.
Definition sample_score (name : string) (false_alarms : list string) : outcome BenchmarkErrorCode DetectionBenchmarkReport :=
  scoreBenchmark sample_sha256 sample_text (sample_manifest name) (sample_attempts name false_alarms) sample_truth no_options.
Definition sample_verdict (name : string) (false_alarms : list string) : outcome BenchmarkErrorCode GateStatus :=
  r ← sample_score name false_alarms; mret (status (gate r)).

Example one_false_alarm_passes : sample_verdict "browse" ["ghost"] = Ok gate_passed.
Proof. vm_compute. reflexivity. Qed.
Example two_false_alarms_fail : sample_verdict "browse" ["ghost"; "phantom"] = Ok gate_failed.
Proof. vm_compute. reflexivity. Qed.

Lemma sample_parsed : parseManifest (manifest_json (sample_manifest "browse")) = Ok (sample_manifest "browse").
Proof. vm_compute. reflexivity. Qed.
Lemma sample_usable : usable (sample_manifest "browse").
Proof.
  apply (accepted_usable _ _ sample_parsed). intros s Hs. cbn in Hs. rewrite !elem_of_cons, elem_of_nil in Hs.
  by destruct Hs as [-> |[-> |[]]].
Qed.
Lemma sample_countable : countable (sample_attempts "browse" ["ghost"]) sample_truth.
Proof. unfold countable. vm_compute. by split_and!. Qed.
Lemma verdict_report name alarms g :
  sample_verdict name alarms = Ok g → ∃ r, sample_score name alarms = Ok r ∧ status (gate r) = g.
Proof. unfold sample_verdict. intros (r & Hr & [= <-])%bind_Ok. by exists r. Qed.

Lemma gate_passed_iff_witness :
  complete (sample_manifest "browse") (sample_attempts "browse" ["ghost"]) ∧
  passing (sample_manifest "browse") (sample_attempts "browse" ["ghost"]) sample_truth.
Proof.
  destruct (gate_passed_iff sample_sha256 sample_text (sample_manifest "browse") (sample_attempts "browse" ["ghost"])
    sample_truth no_options sample_usable sample_countable) as [H _].
  destruct (H (verdict_report "browse" ["ghost"] gate_passed one_false_alarm_passes)) as (_ & Hc & _ & _ & Hp). by split.
Defined.
Lemma score_order_witness :
  sample_score "browse" ["ghost"] =
  scoreBenchmark sample_sha256 sample_text (sample_manifest "browse") (reverse (sample_attempts "browse" ["ghost"])) sample_truth no_options.
Proof.
  apply (score_order sample_sha256 sample_text (sample_manifest "browse") (sample_attempts "browse" ["ghost"])
    (reverse (sample_attempts "browse" ["ghost"]))); [symmetry; apply reverse_Permutation|].
  intros a b Ha Hb. cbn in Ha, Hb. rewrite !elem_of_cons, elem_of_nil in Ha, Hb.
  destruct Ha as [-> |[-> |[]]], Hb as [-> |[-> |[]]]; done.
Defined.
Lemma manifest_roundtrip_witness : valid_manifest (sample_manifest "browse").
Proof. apply (manifest_roundtrip (manifest_json (sample_manifest "browse")) (sample_manifest "browse")). vm_compute. reflexivity. Defined.

(** With two false alarms the run passes when the normal scenario is called
    [__proto__], and the report does not mention them; under another name it
    does not pass. *)
Lemma sample_proto_parsed : parseManifest (manifest_json (sample_manifest "__proto__")) = Ok (sample_manifest "__proto__").
Proof. vm_compute. reflexivity. Qed.
Lemma sample_well_formed name : plain name = true →
  parseManifest (manifest_json (sample_manifest name)) = Ok (sample_manifest name) → well_formed (sample_manifest name).
Proof.
  intros Hp H. apply (accepted_well_formed _ _ H). intros s Hs. cbn in Hs. rewrite !elem_of_cons, elem_of_nil in Hs.
  by destruct Hs as [-> |[-> |[]]].
Qed.
Lemma proto_countable : countable (sample_attempts "__proto__" ["ghost"; "phantom"]) sample_truth.
Proof. unfold countable. vm_compute. by split_and!. Qed.
Lemma browse_countable : countable (sample_attempts "browse" ["ghost"; "phantom"]) sample_truth.
Proof. unfold countable. vm_compute. by split_and!. Qed.
Lemma proto_passes : sample_verdict "__proto__" ["ghost"; "phantom"] = Ok gate_passed.
Proof. vm_compute. reflexivity. Qed.
Lemma proto_scenario_unchecked_witness :
  (∃ r, sample_score "__proto__" ["ghost"; "phantom"] = Ok r ∧ status (gate r) = gate_passed ∧
     highConfidenceFalsePositivesByNormalMission (metrics r) !! "__proto__" = None) ∧
  false_positives (sample_attempts "__proto__" ["ghost"; "phantom"]) sample_truth "__proto__" = 2%Z ∧
  sample_verdict "browse" ["ghost"; "phantom"] ≠ Ok gate_passed.
Proof.
  split; [|split; [vm_compute; reflexivity|]].
  - destruct (verdict_report _ _ _ proto_passes) as (r & Hr & Hg). exists r. split; [exact Hr|]. split; [exact Hg|].
    exact (proj1 (proto_scenario_unchecked sample_sha256 sample_text _ _ _ no_options
      (sample_well_formed "__proto__" eq_refl sample_proto_parsed) proto_countable) r Hr).
  - intros (r & Hr & Hg)%verdict_report.
    destruct (proto_scenario_unchecked sample_sha256 sample_text (sample_manifest "browse") (sample_attempts "browse" ["ghost"; "phantom"])
      sample_truth no_options (sample_well_formed "browse" eq_refl sample_parsed) browse_countable) as (_ & _ & H).
    apply (H r (sample_scenario "browse" normal []) Hr); [by right; left|reflexivity|vm_compute; reflexivity|discriminate|exact Hg].
Defined.

End DetectionSample.
