(* ===== verification/Intelligence.v ===== *)
(** * Intelligence jobs and results

    Models the envelope of a model-assisted step and the deterministic gate that a
    result passes ([packages/core-modules/intelligence/src]), the shapes that the
    server accepts of both and its policy gate
    ([core-application/src/intelligence/server-result-consumer.ts], the first half),
    and how an investigation reads a result
    ([core-modules/investigation/src/application/reproduction-planner.ts]).

    A job or a result that was read from a text keeps the object it was read from.
    The message of an error and the reason of a rejection are left out. *)
From S2P Require Import Prelude Number Json TestPlan Investigation Detection.
From stdpp Require Import pretty.

Module Intelligence.

(** ** Contracts *)
Inductive IntelligenceJobType :=
  | prd_planning
  | skill_induction
  | skill_evaluation
  | investigation_reproduction_planning
  | investigation_bug_analysis.
Inductive JobPriority := low | normal | high.
Inductive TerminalStatus := succeeded | blocked | failed.
#[export] Instance job_type_eq_dec : EqDecision IntelligenceJobType.
Proof. solve_decision. Defined.
#[export] Instance terminal_eq_dec : EqDecision TerminalStatus.
Proof. solve_decision. Defined.

Record IntelligenceAggregateRef := { ref_type : string; ref_id : string }.
Record IntelligenceJobBudget := { maximumTokens : number; maximumCostMicros : number; timeoutMs : number }.
Record IntelligenceJob := {
  jobId : string;
  jobType : IntelligenceJobType;
  tenantId : string;
  projectId : string;
  aggregateRef : IntelligenceAggregateRef;
  baseAggregateVersion : Z;
  inputRefs : list string;
  modelProfileId : string;
  dataPolicyId : string;
  budget : IntelligenceJobBudget;
  priority : JobPriority;
  idempotencyKey : string;
  causationId : string;
  expectedResultSchema : string;
  job_object : list (string * json);
}.
Record IntelligenceResultUsage := { inputTokens : number; outputTokens : number; costMicros : number }.
Notation Proposal := (list (string * json)).
Record IntelligenceResult := {
  r_jobId : string;
  resultSchemaVersion : string;
  proposals : list Proposal;
  evidenceRefs : list string;
  confidence : number;
  provenance : list string;
  usage : IntelligenceResultUsage;
  terminalStatus : TerminalStatus;
  r_idempotencyKey : string;
}.
Inductive IntelligenceRejectionCode :=
  | SchemaInvalid | TerminalNotSucceeded | BudgetExceeded | PolicyViolation | EvidenceMismatch.
Record AppliedEffect := {
  aggregateType : string;
  aggregateId : string;
  newVersion : Z;
  summary : Investigation.InvestigationStatus;
}.
Inductive ApplyResult :=
  | applied (effect : AppliedEffect)
  | duplicate (effect : AppliedEffect)
  | recompute
  | rejected (code : IntelligenceRejectionCode).
#[export] Instance code_eq_dec : EqDecision IntelligenceRejectionCode.
Proof. solve_decision. Defined.

(** What the application of a result may throw: the two errors that the server
    turns into a rejection, an abort, and any other error. *)
Inductive Thrown :=
  | ReproductionPlanError
  | InvestigationError (e : Investigation.Thrown)
  | Aborted
  | PlainError.

(** ** The gate

    The gate works on four ports; [aborted] is one reading of the signal. *)
Class Ports (S : Type) := {
  ledger_find : string → js S Thrown (option AppliedEffect);
  ledger_record : string → AppliedEffect → js S Thrown unit;
  currentVersion : IntelligenceAggregateRef → js S Thrown (option Z);
  execute : IntelligenceJob → IntelligenceResult → js S Thrown AppliedEffect;
  policy : option (IntelligenceJob → IntelligenceResult → bool);
  aborted : js S Thrown bool;
}.

Definition RESULT_SCHEMA : string := "intelligence-result/v1".
Definition bad_usage (x : number) : bool := negb (is_finite x) || num_ltb x (num_of_Z 0).
Definition validateEnvelope (job : IntelligenceJob) (result : IntelligenceResult) : option IntelligenceRejectionCode :=
  if negb (String.eqb (resultSchemaVersion result) RESULT_SCHEMA) then Some SchemaInvalid
  else if negb (String.eqb (r_jobId result) (jobId job)) then Some SchemaInvalid
  else if negb (String.eqb (r_idempotencyKey result) (idempotencyKey job)) then Some SchemaInvalid
  else if negb (String.eqb (expectedResultSchema job) (resultSchemaVersion result)) then Some SchemaInvalid
  else if num_ltb (confidence result) (num_of_Z 0) || num_ltb (num_of_Z 1) (confidence result) then Some SchemaInvalid
  else if bad_usage (inputTokens (usage result)) || bad_usage (outputTokens (usage result)) ||
          bad_usage (costMicros (usage result)) then Some SchemaInvalid
  else if bool_decide (terminalStatus result = succeeded) && bool_decide (length (proposals result) = 0%nat)
  then Some SchemaInvalid
  else None.

Section apply.
Context {S : Type} `{Ports S}.
Notation M := (js S Thrown).

Definition throwIfAborted : M unit := b ← aborted; throw_if b Aborted.
Definition overspent (job : IntelligenceJob) (result : IntelligenceResult) : bool :=
  num_ltb (maximumTokens (budget job)) (num_add (inputTokens (usage result)) (outputTokens (usage result))) ||
  num_ltb (maximumCostMicros (budget job)) (costMicros (usage result)).
Definition strayEvidence (job : IntelligenceJob) (result : IntelligenceResult) : bool :=
  existsb (λ ref, negb (includes (inputRefs job) ref)) (evidenceRefs result).
Definition forbids (job : IntelligenceJob) (result : IntelligenceResult) : bool :=
  match policy with Some allows => negb (allows job result) | None => false end.

Definition apply (job : IntelligenceJob) (result : IntelligenceResult) : M ApplyResult :=
  match validateEnvelope job result with
  | Some code => mret (rejected code)
  | None =>
      _ ← throwIfAborted;
      existing ← ledger_find (r_idempotencyKey result);
      _ ← throwIfAborted;
      match existing with
      | Some effect => mret (duplicate effect)
      | None =>
          current ← currentVersion (aggregateRef job);
          _ ← throwIfAborted;
          if negb (bool_decide (current = Some (baseAggregateVersion job))) then mret recompute
          else if negb (bool_decide (terminalStatus result = succeeded)) then mret (rejected TerminalNotSucceeded)
          else if overspent job result then mret (rejected BudgetExceeded)
          else if strayEvidence job result then mret (rejected EvidenceMismatch)
          else if forbids job result then mret (rejected PolicyViolation)
          else
            _ ← throwIfAborted;
            effect ← execute job result;
            _ ← ledger_record (r_idempotencyKey result) effect;
            mret (applied effect)
      end
  end.
End apply.

(** ** What the server accepts of a stored job and a stored result *)
Definition field (key : string) (r : list (string * json)) : option json := get_field key r.
Definition text (v : option json) : option string := match v with Some (JStr s) => Some s | _ => None end.
Definition nonEmptyText (v : option json) : option string :=
  s ← text v; if is_blank s then None else Some s.
Definition record_of (v : option json) : option (list (string * json)) :=
  match v with Some (JObj r) => Some r | _ => None end.
Definition texts (v : option json) : option (list string) :=
  match v with Some (JArr l) => mapM (λ x, text (Some x)) l | _ => None end.
Definition finiteNonNegative (v : option json) : option number :=
  match v with
  | Some (JNum n) => if is_finite n && num_leb (num_of_Z 0) n then Some n else None
  | _ => None
  end.
Definition safeNonNegativeInteger (v : option json) : option Z :=
  match v with
  | Some (JNum n) => z ← safe_integer n; if (0 <=? z)%Z then Some z else None
  | _ => None
  end.
Definition job_type_of (s : string) : option IntelligenceJobType :=
  if String.eqb s "prd.planning" then Some prd_planning
  else if String.eqb s "skill.induction" then Some skill_induction
  else if String.eqb s "skill.evaluation" then Some skill_evaluation
  else if String.eqb s "investigation.reproduction-planning" then Some investigation_reproduction_planning
  else if String.eqb s "investigation.bug-analysis" then Some investigation_bug_analysis
  else None.
Definition priority_of (s : string) : option JobPriority :=
  if String.eqb s "low" then Some low else if String.eqb s "normal" then Some normal
  else if String.eqb s "high" then Some high else None.
Definition terminal_of (s : string) : option TerminalStatus :=
  if String.eqb s "succeeded" then Some succeeded else if String.eqb s "blocked" then Some blocked
  else if String.eqb s "failed" then Some failed else None.

Definition validateIntelligenceJobShape (value : list (string * json)) : option IntelligenceJob :=
  jobId ← nonEmptyText (field "jobId" value);
  jobType ← text (field "jobType" value) ≫= job_type_of;
  schema ← text (field "schemaVersion" value);
  if negb (String.eqb schema "intelligence-job/v1") then None else
  tenantId ← nonEmptyText (field "tenantId" value);
  projectId ← nonEmptyText (field "projectId" value);
  ref ← record_of (field "aggregateRef" value);
  ref_type ← nonEmptyText (field "type" ref);
  ref_id ← nonEmptyText (field "id" ref);
  base ← safeNonNegativeInteger (field "baseAggregateVersion" value);
  inputRefs ← texts (field "inputRefs" value);
  modelProfileId ← nonEmptyText (field "modelProfileId" value);
  dataPolicyId ← text (field "dataPolicyId" value);
  idempotencyKey ← nonEmptyText (field "idempotencyKey" value);
  causationId ← text (field "causationId" value);
  expected ← nonEmptyText (field "expectedResultSchema" value);
  b ← record_of (field "budget" value);
  tokens ← finiteNonNegative (field "maximumTokens" b);
  cost ← finiteNonNegative (field "maximumCostMicros" b);
  timeout ← finiteNonNegative (field "timeoutMs" b);
  priority ← text (field "priority" value) ≫= priority_of;
  mret {| jobId := jobId; jobType := jobType; tenantId := tenantId; projectId := projectId;
          aggregateRef := {| ref_type := ref_type; ref_id := ref_id |}; baseAggregateVersion := base;
          inputRefs := inputRefs; modelProfileId := modelProfileId; dataPolicyId := dataPolicyId;
          budget := {| maximumTokens := tokens; maximumCostMicros := cost; timeoutMs := timeout |};
          priority := priority; idempotencyKey := idempotencyKey; causationId := causationId;
          expectedResultSchema := expected; job_object := value |}.

Definition proposals_of (v : option json) : option (list Proposal) :=
  match v with Some (JArr l) => mapM (λ x, record_of (Some x)) l | _ => None end.
Definition validateIntelligenceResultShape (value : list (string * json)) : option IntelligenceResult :=
  jobId ← nonEmptyText (field "jobId" value);
  schema ← text (field "resultSchemaVersion" value);
  proposals ← proposals_of (field "proposals" value);
  evidence ← texts (field "evidenceRefs" value);
  provenance ← texts (field "provenance" value);
  confidence ← finiteNonNegative (field "confidence" value);
  u ← record_of (field "usage" value);
  inputs ← finiteNonNegative (field "inputTokens" u);
  outputs ← finiteNonNegative (field "outputTokens" u);
  cost ← finiteNonNegative (field "costMicros" u);
  terminal ← text (field "terminalStatus" value) ≫= terminal_of;
  key ← nonEmptyText (field "idempotencyKey" value);
  mret {| r_jobId := jobId; resultSchemaVersion := schema; proposals := proposals; evidenceRefs := evidence;
          confidence := confidence; provenance := provenance;
          usage := {| inputTokens := inputs; outputTokens := outputs; costMicros := cost |};
          terminalStatus := terminal; r_idempotencyKey := key |}.

(** [JSON.parse] of a text that is not JSON has no value. *)
Definition parseJsonObject (value : option json) : option (list (string * json)) := record_of value.

(** ** The policy gate of the server *)
Definition FORBIDDEN_POLICY_AUTHORITY_KEYS : list string :=
  ["budget"; "dataPolicyId"; "maximumCostMicros"; "maximumTokens"; "policy"; "policyId"].
Fixpoint containsForbiddenPolicyAuthority (v : json) : bool :=
  match v with
  | JArr l => existsb containsForbiddenPolicyAuthority l
  | JObj fields =>
      existsb (λ '(k, x), includes FORBIDDEN_POLICY_AUTHORITY_KEYS k || containsForbiddenPolicyAuthority x) fields
  | _ => false
  end.
Definition production_allows (job : IntelligenceJob) (result : IntelligenceResult) : bool :=
  negb (is_blank (dataPolicyId job)) &&
  forallb (λ p, negb (containsForbiddenPolicyAuthority (JObj p))) (proposals result).

(** ** How an investigation reads a result *)
Record ReproductionPlan := {
  plan_caseId : string;
  plan_revision : Z;
  plan_steps : list TestPlan.IntentStep;
  rationale : string;
}.
Notation planned := (outcome Thrown).

Definition LOCATORS : list string := ["selector"; "css"; "xpath"; "coordinates"; "script"].
Definition parseSemanticTarget (v : option json) : planned TestPlan.SemanticTarget :=
  match v with
  | Some (JObj target) =>
      match field "purpose" target with
      | Some (JStr purpose) =>
          _ ← reject_if (String.eqb purpose "") ReproductionPlanError;
          _ ← reject_if (existsb (λ k, match field k target with Some _ => true | None => false end) LOCATORS)
                ReproductionPlanError;
          mret {| TestPlan.target_role := text (field "role" target); TestPlan.target_name := text (field "name" target);
                  TestPlan.target_purpose := purpose |}
      | _ => Throw ReproductionPlanError
      end
  | _ => Throw ReproductionPlanError
  end.
Definition parseIntentStep (v : json) : planned TestPlan.IntentStep :=
  match v with
  | JObj step =>
      match field "kind" step with
      | Some (JStr kind) =>
          if String.eqb kind "navigate" then
            match field "path" step with
            | Some (JStr path) => _ ← reject_if (String.eqb path "") ReproductionPlanError; mret (TestPlan.navigate path)
            | _ => Throw ReproductionPlanError
            end
          else if String.eqb kind "click" then
            target ← parseSemanticTarget (field "target" step); mret (TestPlan.click target)
          else if String.eqb kind "input" then
            match field "valueRef" step with
            | Some (JStr valueRef) =>
                _ ← reject_if (String.eqb valueRef "") ReproductionPlanError;
                target ← parseSemanticTarget (field "target" step);
                mret (TestPlan.input target valueRef)
            | _ => Throw ReproductionPlanError
            end
          else if String.eqb kind "verify" then
            match texts (field "claimIds" step) with
            | Some (id :: ids) => mret (TestPlan.verify (id :: ids))
            | _ => Throw ReproductionPlanError
            end
          else Throw ReproductionPlanError
      | _ => Throw ReproductionPlanError
      end
  | _ => Throw ReproductionPlanError
  end.

Definition reproductionPlanFromResult (caseId : string) (planRevision : Z) (result : IntelligenceResult)
    : planned ReproductionPlan :=
  match proposals result with
  | [] => Throw ReproductionPlanError
  | proposal :: _ =>
      match field "steps" proposal with
      | Some (JArr (s :: l)) =>
          steps ← mapM parseIntentStep (s :: l);
          mret {| plan_caseId := caseId; plan_revision := planRevision; plan_steps := steps;
                  rationale := default "" (text (field "rationale" proposal)) |}
      | _ => Throw ReproductionPlanError
      end
  end.

Definition stringArray (v : option json) : list string :=
  match v with Some (JArr l) => omap (λ x, text (Some x)) l | _ => [] end.
(** [Object.entries] of an object, and of an array by its indices. *)
Definition entries (v : option json) : list (string * json) :=
  match v with
  | Some (JObj fields) => fields
  | Some (JArr l) => imap (λ i x, (pretty (N.of_nat i), x)) l
  | _ => []
  end.
Definition stringRecord (v : option json) : gmap string string :=
  foldl (λ m kv, match kv.2 with JStr s => Detection.record_set kv.1 s m | _ => m end) ∅ (entries v).

Definition bugEpisodeDraftFromResult (result : IntelligenceResult) (fallbackEpisodeId : string)
    : planned Investigation.BugEpisodeDraft :=
  match proposals result with
  | [] => Throw ReproductionPlanError
  | proposal :: _ =>
      match texts (field "confirmedAttemptIds" proposal) with
      | Some (id :: ids) =>
          steps ← match field "minimalSteps" proposal with Some (JArr l) => mapM parseIntentStep l | _ => mret [] end;
          mret {| Investigation.d_episodeId := default fallbackEpisodeId (text (field "episodeId" proposal));
                  Investigation.d_confirmedAttemptIds := id :: ids;
                  Investigation.d_expectedClaims := stringArray (field "expectedClaims" proposal);
                  Investigation.d_observedFacts := stringArray (field "observedFacts" proposal);
                  Investigation.d_minimalSteps := steps;
                  Investigation.d_environment := stringRecord (field "environment" proposal);
                  Investigation.d_episodeEvidenceRefs := evidenceRefs result;
                  Investigation.d_confidence := confidence result |}
      | _ => Throw ReproductionPlanError
      end
  end.

(** ** The jobs of an investigation *)
Record BuildIntelligenceJobInput := {
  b_jobId : string;
  b_caseId : string;
  b_projectId : string;
  b_tenantId : string;
  b_baseAggregateVersion : Z;
  b_inputRefs : list string;
  b_modelProfileId : string;
  b_dataPolicyId : string;
  b_budget : IntelligenceJobBudget;
  b_idempotencyKey : string;
  b_causationId : string;
}.
Definition build_job (type : IntelligenceJobType) (b : BuildIntelligenceJobInput) : IntelligenceJob :=
  {| jobId := b_jobId b; jobType := type; tenantId := b_tenantId b; projectId := b_projectId b;
     aggregateRef := {| ref_type := "investigation"; ref_id := b_caseId b |};
     baseAggregateVersion := b_baseAggregateVersion b; inputRefs := b_inputRefs b;
     modelProfileId := b_modelProfileId b; dataPolicyId := b_dataPolicyId b; budget := b_budget b;
     priority := normal; idempotencyKey := b_idempotencyKey b; causationId := b_causationId b;
     expectedResultSchema := RESULT_SCHEMA; job_object := [] |}.
Definition buildReproductionPlanningJob := build_job investigation_reproduction_planning.
Definition buildBugAnalysisJob := build_job investigation_bug_analysis.

(** The handoff of an analysis that the aggregate does not confirm. *)
Definition analysis_handoff (result : IntelligenceResult) : Investigation.HumanHandoffDraft :=
  {| Investigation.d_bestHypothesis := "Bug analysis did not meet the deterministic confirmation rule.";
     Investigation.d_lastDivergence := None;
     Investigation.d_keyEvidenceRefs := evidenceRefs result;
     Investigation.d_suggestedActions := ["Assign a human reviewer to confirm or refute."];
     Investigation.d_limitationCodes := ["confirmation_rejected"] |}.

(** ** What the envelope ties together *)
Lemma envelope_keys job result :
  validateEnvelope job result = None → r_idempotencyKey result = idempotencyKey job ∧ r_jobId result = jobId job.
Proof.
  unfold validateEnvelope. destruct (negb (String.eqb (resultSchemaVersion _) _)); [done|].
  destruct (String.eqb_spec (r_jobId result) (jobId job)); [|done]. cbn [negb].
  by destruct (String.eqb_spec (r_idempotencyKey result) (idempotencyKey job)).
Qed.
End Intelligence.
