(* ===== verification/IntelligenceQueue.v ===== *)
(** * The intelligence work queue

    Models the queue that workers lease jobs from and append results to
    ([core-application/src/intelligence/postgres-intelligence-queue.ts]), the
    database functions under it and the wakeups that tell the server of results
    ([storage-providers/postgres-runtime/src/migrations/row-level-security.ts]).

    A database function is one atomic step on the tables.  Of the rows only the
    columns that a statement reads are kept; a stored text is the JSON value it
    parses to, or nothing.  Instants are milliseconds: the texts that the functions
    compare are ordered as their instants.  [SKIP LOCKED] passes over [locked], the
    rows that other transactions hold; among equal sort keys any row may come first,
    and the model takes the order of the map. *)
From S2P Require Import Prelude Number Json CanonicalJson Investigation Intelligence.
From stdpp Require Import sorting.

Module IntelligenceQueue.
Import Intelligence.

(** ** Equality of stored values *)
Fixpoint json_eqb (v w : json) : bool :=
  match v, w with
  | JNull, JNull => true
  | JBool a, JBool b => Bool.eqb a b
  | JNum m, JNum n => bool_decide (m = n)
  | JStr s, JStr t => String.eqb s t
  | JArr l, JArr l' =>
      (fix go (l l' : list json) : bool :=
         match l, l' with [], [] => true | x :: l, y :: l' => json_eqb x y && go l l' | _, _ => false end) l l'
  | JObj f, JObj f' =>
      (fix go (f f' : list (string * json)) : bool :=
         match f, f' with
         | [], [] => true
         | kx :: f, ky :: f' => String.eqb kx.1 ky.1 && json_eqb kx.2 ky.2 && go f f'
         | _, _ => false
         end) f f'
  | _, _ => false
  end.
Lemma json_eqb_spec v w : json_eqb v w = true ↔ v = w.
Proof.
  revert w. induction v as [|b|n|s|l IH|f IH] using CanonicalJson.json_ind_nested; intros [|b'|n'|s'|l'|f']; try done; cbn.
  - rewrite Bool.eqb_true_iff. by split; congruence.
  - rewrite bool_decide_eq_true. by split; congruence.
  - rewrite String.eqb_eq. by split; congruence.
  - assert (∀ l', (fix go (l l' : list json) : bool :=
         match l, l' with [], [] => true | x :: l, y :: l' => json_eqb x y && go l l' | _, _ => false end) l l' = true ↔ l = l')
      as ->; [|by split; congruence].
    clear l'. induction IH as [|x l Hx _ IHl]; intros [|y l']; try done. rewrite andb_true_iff, Hx, IHl. by split; [intros [-> ->]|intros [= -> ->]].
  - assert (∀ f', (fix go (f f' : list (string * json)) : bool :=
         match f, f' with
         | [], [] => true
         | kx :: f, ky :: f' => String.eqb kx.1 ky.1 && json_eqb kx.2 ky.2 && go f f'
         | _, _ => false
         end) f f' = true ↔ f = f')
      as ->; [|by split; congruence].
    clear f'. induction IH as [|[k x] f Hx _ IHf]; intros [|[k' y] f']; try done.
    cbn in *. rewrite !andb_true_iff, String.eqb_eq, Hx, IHf. by split; [intros [[-> ->] ->]|intros [= -> -> ->]].
Qed.
#[export] Instance json_eq_dec : EqDecision json.
Proof. intros v w. destruct (json_eqb v w) eqn:E; [left|right; intros H]; [by apply json_eqb_spec|]. apply json_eqb_spec in H. congruence. Defined.

(** ** Tables *)
Record JobRow := {
  job_type : string;
  j_base_aggregate_version : Z;
  job_json : option json;
  created_at : Z;
}.
Record LeaseRow := {
  worker_id : string;
  lease_token_hash : string;
  expires_at : Z;
  released_at : option Z;
  completed_at : option Z;
}.
Record InboxRow := {
  i_job_id : string;
  i_worker_id : string;
  lease_attempt : Z;
  i_lease_token_hash : string;
  lease_expires_at : Z;
  i_base_aggregate_version : Z;
  result_hash : string;
  result_json : option json;
  accepted_at : Z;
}.
Inductive ApplyStatus := s_applied | s_duplicate | s_recompute | s_rejected.
#[export] Instance status_eq_dec : EqDecision ApplyStatus.
Proof. solve_decision. Defined.
Record DispositionRow := {
  d_job_id : string;
  d_result_hash : string;
  d_status : ApplyStatus;
  d_code : option IntelligenceRejectionCode;
  d_effect : option AppliedEffect;
  follow_up_job_id : option string;
}.
Record CaseRow := {
  finding_id : string;
  c_project_id : string;
  c_status : Investigation.InvestigationStatus;
  c_version : Z;
  c_plan_revision : Z;
  c_budget : Investigation.InvestigationBudget;
  c_usage : Investigation.InvestigationBudgetUsage;
  bug_episode_id : option string;
}.
Record EpisodeRow := { e_case_id : string; e_finding_id : string; episode : Investigation.BugEpisode }.
Record WakeupRow := {
  generation : Z;
  pending : bool;
  available_at : Z;
  lease_owner : option string;
  lease_generation : option Z;
  w_lease_expires_at : option Z;
  failure_count : Z;
}.

(** The keys: a tenant and an identifier; a lease has a job and an attempt. *)
Notation Key := (string * string)%type.
Record Db := {
  jobs : gmap Key JobRow;
  leases : gmap (Key * Z) LeaseRow;
  inbox : gmap Key InboxRow;
  applied_results : gmap Key AppliedEffect;
  dispositions : gmap Key DispositionRow;
  cases : gmap Key CaseRow;
  case_attempts : gmap Key (Z * string * Investigation.ReproductionAttempt);
  episodes : gmap Key EpisodeRow;
  handoffs : gmap Key Investigation.HumanHandoff;
  wakeups : gmap string WakeupRow;
}.
Definition set_jobs (f : gmap Key JobRow → gmap Key JobRow) (db : Db) : Db :=
  {| jobs := f (jobs db); leases := leases db; inbox := inbox db; applied_results := applied_results db;
     dispositions := dispositions db; cases := cases db; case_attempts := case_attempts db; episodes := episodes db;
     handoffs := handoffs db; wakeups := wakeups db |}.
Definition set_leases (f : gmap (Key * Z) LeaseRow → gmap (Key * Z) LeaseRow) (db : Db) : Db :=
  {| jobs := jobs db; leases := f (leases db); inbox := inbox db; applied_results := applied_results db;
     dispositions := dispositions db; cases := cases db; case_attempts := case_attempts db; episodes := episodes db;
     handoffs := handoffs db; wakeups := wakeups db |}.
Definition set_inbox (f : gmap Key InboxRow → gmap Key InboxRow) (db : Db) : Db :=
  {| jobs := jobs db; leases := leases db; inbox := f (inbox db); applied_results := applied_results db;
     dispositions := dispositions db; cases := cases db; case_attempts := case_attempts db; episodes := episodes db;
     handoffs := handoffs db; wakeups := wakeups db |}.
Definition set_applied (f : gmap Key AppliedEffect → gmap Key AppliedEffect) (db : Db) : Db :=
  {| jobs := jobs db; leases := leases db; inbox := inbox db; applied_results := f (applied_results db);
     dispositions := dispositions db; cases := cases db; case_attempts := case_attempts db; episodes := episodes db;
     handoffs := handoffs db; wakeups := wakeups db |}.
Definition set_dispositions (f : gmap Key DispositionRow → gmap Key DispositionRow) (db : Db) : Db :=
  {| jobs := jobs db; leases := leases db; inbox := inbox db; applied_results := applied_results db;
     dispositions := f (dispositions db); cases := cases db; case_attempts := case_attempts db; episodes := episodes db;
     handoffs := handoffs db; wakeups := wakeups db |}.
Definition set_cases (f : gmap Key CaseRow → gmap Key CaseRow) (db : Db) : Db :=
  {| jobs := jobs db; leases := leases db; inbox := inbox db; applied_results := applied_results db;
     dispositions := dispositions db; cases := f (cases db); case_attempts := case_attempts db; episodes := episodes db;
     handoffs := handoffs db; wakeups := wakeups db |}.
Definition set_attempts (f : gmap Key (Z * string * Investigation.ReproductionAttempt) →
    gmap Key (Z * string * Investigation.ReproductionAttempt)) (db : Db) : Db :=
  {| jobs := jobs db; leases := leases db; inbox := inbox db; applied_results := applied_results db;
     dispositions := dispositions db; cases := cases db; case_attempts := f (case_attempts db); episodes := episodes db;
     handoffs := handoffs db; wakeups := wakeups db |}.
Definition set_episodes (f : gmap Key EpisodeRow → gmap Key EpisodeRow) (db : Db) : Db :=
  {| jobs := jobs db; leases := leases db; inbox := inbox db; applied_results := applied_results db;
     dispositions := dispositions db; cases := cases db; case_attempts := case_attempts db; episodes := f (episodes db);
     handoffs := handoffs db; wakeups := wakeups db |}.
Definition set_handoffs (f : gmap Key Investigation.HumanHandoff → gmap Key Investigation.HumanHandoff) (db : Db) : Db :=
  {| jobs := jobs db; leases := leases db; inbox := inbox db; applied_results := applied_results db;
     dispositions := dispositions db; cases := cases db; case_attempts := case_attempts db; episodes := episodes db;
     handoffs := f (handoffs db); wakeups := wakeups db |}.
Definition set_wakeups (f : gmap string WakeupRow → gmap string WakeupRow) (db : Db) : Db :=
  {| jobs := jobs db; leases := leases db; inbox := inbox db; applied_results := applied_results db;
     dispositions := dispositions db; cases := cases db; case_attempts := case_attempts db; episodes := episodes db;
     handoffs := handoffs db; wakeups := f (wakeups db) |}.

(** [exists (select 1 from m where p)]. *)
Definition exists_row {K A} `{Countable K} (p : K → A → bool) (m : gmap K A) : bool :=
  existsb (λ kv, p kv.1 kv.2) (map_to_list m).
(** [update m set f where p]. *)
Definition update_rows {K A} `{Countable K} (p : K → A → bool) (f : A → A) (m : gmap K A) : gmap K A :=
  map_imap (λ k a, Some (if p k a then f a else a)) m.

Inductive IntelligenceQueueErrorCode :=
  | LeaseNotActive | LeaseTokenMismatch | LeaseExpired | BaseVersionMismatch | WorkerMismatch
  | JobMismatch | IdempotencyConflict.

(** ** worker_claim_intelligence_lease *)
Definition is_live (l : LeaseRow) : bool :=
  match released_at l, completed_at l with None, None => true | _, _ => false end.
Definition release_lease (now : Z) (l : LeaseRow) : LeaseRow :=
  {| worker_id := worker_id l; lease_token_hash := lease_token_hash l; expires_at := expires_at l;
     released_at := Some now; completed_at := completed_at l |}.
Definition complete_lease (now : Z) (l : LeaseRow) : LeaseRow :=
  {| worker_id := worker_id l; lease_token_hash := lease_token_hash l; expires_at := expires_at l;
     released_at := released_at l; completed_at := Some now |}.
Definition extend_lease (expires : Z) (l : LeaseRow) : LeaseRow :=
  {| worker_id := worker_id l; lease_token_hash := lease_token_hash l; expires_at := expires;
     released_at := released_at l; completed_at := completed_at l |}.

Definition claimable (accepted_types : list string) (now : Z) (db : Db) (k : Key) (j : JobRow) : bool :=
  includes accepted_types (job_type j) &&
  negb (exists_row (λ k' i, bool_decide (k'.1 = k.1) && bool_decide (i_job_id i = k.2)) (inbox db)) &&
  negb (exists_row (λ k' l, bool_decide (k'.1 = k) && is_live l && (now <? expires_at l)%Z) (leases db)).
Definition older (a b : Key * JobRow) : Prop := (created_at a.2 <= created_at b.2)%Z.
#[export] Instance older_dec a b : Decision (older a b).
Proof. apply Z_le_dec. Defined.
Definition claim_candidates (accepted_types : list string) (now : Z) (locked : list Key) (db : Db) : list (Key * JobRow) :=
  merge_sort older (List.filter (λ kj, negb (includes locked kj.1) && claimable accepted_types now db kj.1 kj.2)
    (map_to_list (jobs db))).
Definition max_attempt (k : Key) (m : gmap (Key * Z) LeaseRow) : Z :=
  map_fold (λ k' _ n, if bool_decide (k'.1 = k) then Z.max k'.2 n else n) 0%Z m.

Record Claimed := { cl_job_json : option json; cl_attempt : Z; cl_expires_at : Z }.
Definition worker_claim_intelligence_lease (accepted_types : list string) (worker hash : string) (duration now : Z)
    (locked : list Key) (db : Db) : option Claimed * Db :=
  match claim_candidates accepted_types now locked db with
  | [] => (None, db)
  | (k, j) :: _ =>
      let released := update_rows (λ k' l, bool_decide (k'.1 = k) && is_live l && (expires_at l <=? now)%Z)
                        (release_lease now) (leases db) in
      let next := (max_attempt k released + 1)%Z in
      let lease := {| worker_id := worker; lease_token_hash := hash; expires_at := now + duration;
                      released_at := None; completed_at := None |} in
      (Some {| cl_job_json := job_json j; cl_attempt := next; cl_expires_at := now + duration |},
       set_leases (λ _, <[(k, next) := lease]> released) db)
  end.

(** ** worker_renew_intelligence_lease

    The function does not take a tenant.  An update that returns several rows into
    one record is an error. *)
Definition renewable (job worker hash : string) (now : Z) (k : Key * Z) (l : LeaseRow) : bool :=
  bool_decide (k.1.2 = job) && bool_decide (worker_id l = worker) && bool_decide (lease_token_hash l = hash) &&
  is_live l && (now <? expires_at l)%Z.
Definition newest (a b : Key * Z * LeaseRow) : Prop := (b.1.2 <= a.1.2)%Z.
#[export] Instance newest_dec a b : Decision (newest a b).
Proof. apply Z_le_dec. Defined.
Definition diagnose (job worker hash : string) (now : Z) (m : gmap (Key * Z) LeaseRow) : IntelligenceQueueErrorCode :=
  match merge_sort newest (List.filter (λ kl, bool_decide (kl.1.1.2 = job)) (map_to_list m)) with
  | [] => LeaseNotActive
  | (_, l) :: _ =>
      if negb (is_live l) then LeaseNotActive
      else if negb (String.eqb (worker_id l) worker) then WorkerMismatch
      else if negb (String.eqb (lease_token_hash l) hash) then LeaseTokenMismatch
      else if (expires_at l <=? now)%Z then LeaseExpired
      else LeaseNotActive
  end.
Inductive Renewed := renewed (attempt expires : Z) | not_renewed (code : IntelligenceQueueErrorCode) | too_many_rows.
Definition worker_renew_intelligence_lease (job worker hash : string) (duration now : Z) (db : Db) : Renewed * Db :=
  match List.filter (λ kl, renewable job worker hash now kl.1 kl.2) (map_to_list (leases db)) with
  | [] => (not_renewed (diagnose job worker hash now (leases db)), db)
  | [(k, l)] => (renewed k.2 (now + duration),
                 set_leases (update_rows (renewable job worker hash now) (extend_lease (now + duration))) db)
  | _ => (too_many_rows, db)
  end.

(** ** worker_append_intelligence_result *)
Inductive AppendStatus := accepted | already_appended | refused (code : IntelligenceQueueErrorCode).
Definition signal_wakeup (tenant : string) (now : Z) (m : gmap string WakeupRow) : gmap string WakeupRow :=
  <[tenant := match m !! tenant with
              | None => {| generation := 1; pending := true; available_at := now; lease_owner := None;
                           lease_generation := None; w_lease_expires_at := None; failure_count := 0 |}
              | Some w => {| generation := generation w + 1; pending := true; available_at := now;
                             lease_owner := lease_owner w; lease_generation := lease_generation w;
                             w_lease_expires_at := w_lease_expires_at w; failure_count := failure_count w |}
              end]> m.
Definition same_append (job worker : string) (attempt : Z) (hash : string) (base : Z) (rhash : string)
    (rjson : option json) (i : InboxRow) : bool :=
  String.eqb (i_job_id i) job && String.eqb (i_worker_id i) worker && (lease_attempt i =? attempt)%Z &&
  String.eqb (i_lease_token_hash i) hash && (i_base_aggregate_version i =? base)%Z &&
  String.eqb (result_hash i) rhash && bool_decide (result_json i = rjson).
Definition worker_append_intelligence_result (tenant job worker : string) (attempt : Z) (hash : string) (base : Z)
    (key rhash : string) (rjson : option json) (now : Z) (db : Db) : AppendStatus * Db :=
  match inbox db !! (tenant, key) with
  | Some i => (if same_append job worker attempt hash base rhash rjson i then already_appended
               else refused IdempotencyConflict, db)
  | None =>
      match jobs db !! (tenant, job) with
      | None => (refused JobMismatch, db)
      | Some j =>
          if negb (j_base_aggregate_version j =? base)%Z then (refused BaseVersionMismatch, db)
          else match leases db !! ((tenant, job), attempt) with
          | None => (refused LeaseNotActive, db)
          | Some l =>
              if negb (String.eqb (worker_id l) worker) then (refused WorkerMismatch, db)
              else if negb (String.eqb (lease_token_hash l) hash) then (refused LeaseTokenMismatch, db)
              else if negb (is_live l) then (refused LeaseNotActive, db)
              else if (expires_at l <=? now)%Z then (refused LeaseExpired, db)
              else
                let row := {| i_job_id := job; i_worker_id := worker; lease_attempt := attempt;
                              i_lease_token_hash := hash; lease_expires_at := expires_at l;
                              i_base_aggregate_version := base; result_hash := rhash; result_json := rjson;
                              accepted_at := now |} in
                (accepted, set_wakeups (signal_wakeup tenant now)
                             (set_leases (<[((tenant, job), attempt) := complete_lease now l]>)
                               (set_inbox (<[(tenant, key) := row]>) db)))
          end
      end
  end.

(** ** worker_abandon_intelligence_lease *)
Inductive AbandonLeaseDisposition := lease_released | not_active.
Definition worker_abandon_intelligence_lease (tenant job worker : string) (attempt : Z) (hash : string) (now : Z) (db : Db)
    : AbandonLeaseDisposition * Db :=
  match leases db !! ((tenant, job), attempt) with
  | Some l =>
      if String.eqb (worker_id l) worker && String.eqb (lease_token_hash l) hash && is_live l
      then (lease_released, set_leases (<[((tenant, job), attempt) := release_lease now l]>) db)
      else (not_active, db)
  | None => (not_active, db)
  end.

(** ** Wakeups *)
Record IntelligenceResultWakeupClaim := { w_tenantId : string; w_generation : Z; w_consumerId : string }.
Definition due (now : Z) (w : WakeupRow) : bool :=
  pending w && (available_at w <=? now)%Z &&
  match lease_owner w with
  | None => true
  | Some _ => match w_lease_expires_at w with Some e => (e <=? now)%Z | None => false end
  end.
Definition sooner (a b : string * WakeupRow) : Prop :=
  (available_at a.2 < available_at b.2)%Z ∨ (available_at a.2 = available_at b.2 ∧ String.leb a.1 b.1 = true).
#[export] Instance sooner_dec a b : Decision (sooner a b).
Proof. apply _. Defined.
Definition claim_wakeup (consumer : string) (duration now : Z) (w : WakeupRow) : WakeupRow :=
  {| generation := generation w; pending := pending w; available_at := available_at w; lease_owner := Some consumer;
     lease_generation := Some (generation w); w_lease_expires_at := Some (now + duration)%Z;
     failure_count := failure_count w |}.
Definition server_claim_intelligence_result_wakeups (consumer : string) (duration batch now : Z) (locked : list string)
    (db : Db) : list IntelligenceResultWakeupClaim * Db :=
  let bounded := Z.min (Z.max batch 1) 256 in
  let candidates := take (Z.to_nat bounded)
    (merge_sort sooner (List.filter (λ kw, negb (includes locked kw.1) && due now kw.2) (map_to_list (wakeups db)))) in
  ((λ kw, {| w_tenantId := kw.1; w_generation := generation kw.2; w_consumerId := consumer |}) <$> candidates,
   set_wakeups (update_rows (λ t _, includes (fst <$> candidates) t) (claim_wakeup consumer duration now)) db).

Definition held_by (consumer : string) (gen : Z) (w : WakeupRow) : bool :=
  bool_decide (lease_owner w = Some consumer) && bool_decide (lease_generation w = Some gen).
Inductive CompleteDisposition := completed | stale | stale_generation.
Definition server_complete_intelligence_result_wakeup (tenant : string) (gen : Z) (consumer : string) (now : Z) (db : Db)
    : CompleteDisposition * Db :=
  match wakeups db !! tenant with
  | Some w =>
      if held_by consumer gen w then
        let same := (generation w =? gen)%Z in
        (if same then completed else stale_generation,
         set_wakeups (<[tenant := {| generation := generation w; pending := negb same; available_at := now;
                                     lease_owner := None; lease_generation := None; w_lease_expires_at := None;
                                     failure_count := if same then 0 else failure_count w |}]>) db)
      else (stale, db)
  | None => (stale, db)
  end.
Inductive RetryDisposition := scheduled | retry_stale | retry_stale_generation.
Definition server_retry_intelligence_result_wakeup (tenant : string) (gen : Z) (consumer : string) (after now : Z) (db : Db)
    : RetryDisposition * Db :=
  match wakeups db !! tenant with
  | Some w =>
      if held_by consumer gen w then
        let same := (generation w =? gen)%Z in
        (if same then scheduled else retry_stale_generation,
         set_wakeups (<[tenant := {| generation := generation w; pending := true;
                                     available_at := if same then now + after else now;
                                     lease_owner := None; lease_generation := None; w_lease_expires_at := None;
                                     failure_count := if same then failure_count w + 1 else failure_count w |}]>) db)
      else (retry_stale, db)
  | None => (retry_stale, db)
  end.

(** ** The queue of the workers

    A method opens a transaction, runs the injected guard, which may refuse, and
    calls one function; what it throws rolls the transaction back. *)
Inductive QueueThrow := QueueError (code : IntelligenceQueueErrorCode) | OtherError.
Notation Q := (js Db QueueThrow).
Definition call {A} (f : Db → A * Db) : Q A := λ db, let '(a, db') := f db in (Ok a, db').
Definition guarded {A} (guard : bool) (op : Q A) : Q A := transaction (_ ← throw_if (negb guard) OtherError; op).

Record IntelligenceJobLease := {
  l_jobId : option json;
  leaseToken : string;
  l_workerId : string;
  expiresAt : Z;
  attempt : Z;
}.
Record LeaseInput := { workerId : string; acceptedTypes : list string; leaseDurationMs : Z }.
Record RenewInput := { n_jobId : string; n_leaseToken : string; n_workerId : string; n_leaseDurationMs : Z }.
Record AbandonLeaseInput := {
  ab_tenantId : string; ab_jobId : string; ab_leaseToken : string; ab_leaseAttempt : Z; ab_workerId : string }.
Record AppendResultInput := {
  ap_tenantId : string; ap_jobId : string; ap_leaseToken : string; leaseAttempt : Z; ap_workerId : string;
  ap_baseAggregateVersion : Z; ap_result : list (string * json) }.

Section queue.
Context (hashToken : string → string) (hashResult : json → string).

Definition lease (guard : bool) (input : LeaseInput) (token : string) (now : Z) (locked : list Key)
    : Q (option (json * IntelligenceJobLease)) :=
  row ← guarded guard (
    r ← call (worker_claim_intelligence_lease (acceptedTypes input) (workerId input) (hashToken token)
                (leaseDurationMs input) now locked);
    match r with
    | None => mret None
    | Some c => match cl_job_json c with Some job => mret (Some (job, c)) | None => throw OtherError end
    end);
  match row with
  | None => mret None
  | Some (job, c) =>
      id ← match job with JObj r => mret (get_field "jobId" r) | JNull => throw OtherError | _ => mret None end;
      mret (Some (job, {| l_jobId := id; leaseToken := token; l_workerId := workerId input;
                          expiresAt := cl_expires_at c; attempt := cl_attempt c |}))
  end.
Definition renew (guard : bool) (input : RenewInput) (now : Z) : Q IntelligenceJobLease :=
  guarded guard (
    r ← call (worker_renew_intelligence_lease (n_jobId input) (n_workerId input) (hashToken (n_leaseToken input))
                (n_leaseDurationMs input) now);
    match r with
    | renewed attempt expires =>
        mret {| l_jobId := Some (JStr (n_jobId input)); leaseToken := n_leaseToken input; l_workerId := n_workerId input;
                expiresAt := expires; attempt := attempt |}
    | not_renewed code => throw (QueueError code)
    | too_many_rows => throw OtherError
    end).
Definition append (guard : bool) (input : AppendResultInput) (now : Z) : Q AppendStatus :=
  _ ← throw_if (negb (bool_decide (get_field "jobId" (ap_result input) = Some (JStr (ap_jobId input)))))
        (QueueError JobMismatch);
  guarded guard (
    match text (get_field "idempotencyKey" (ap_result input)) with
    | None => throw OtherError
    | Some key =>
        status ← call (worker_append_intelligence_result (ap_tenantId input) (ap_jobId input) (ap_workerId input)
                         (leaseAttempt input) (hashToken (ap_leaseToken input)) (ap_baseAggregateVersion input) key
                         (hashResult (JObj (ap_result input))) (Some (JObj (ap_result input))) now);
        match status with refused code => throw (QueueError code) | _ => mret status end
    end).
Definition abandon (guard : bool) (input : AbandonLeaseInput) (now : Z) : Q AbandonLeaseDisposition :=
  guarded guard (
    call (worker_abandon_intelligence_lease (ab_tenantId input) (ab_jobId input) (ab_workerId input)
            (ab_leaseAttempt input) (hashToken (ab_leaseToken input)) now)).
End queue.

(** ** The wakeups of the server *)
Definition MAX_LEASE_MS : Z := 300000.
Definition boundedPositive (value maximum : Z) : Q unit :=
  throw_if (negb ((0 <? value) && (value <=? maximum))%Z) OtherError.
Definition boundedNonNegative (value maximum : Z) : Q unit :=
  throw_if (negb ((0 <=? value) && (value <=? maximum))%Z) OtherError.
Definition nonEmpty (value : string) : Q unit := throw_if (is_blank value) OtherError.
Definition claimDueTenants (guard : bool) (consumer : string) (duration batch now : Z) (locked : list string)
    : Q (list IntelligenceResultWakeupClaim) :=
  _ ← nonEmpty consumer;
  _ ← boundedPositive duration MAX_LEASE_MS;
  _ ← boundedPositive batch 256;
  guarded guard (call (server_claim_intelligence_result_wakeups consumer duration batch now locked)).
Definition complete (guard : bool) (claim : IntelligenceResultWakeupClaim) (now : Z) : Q CompleteDisposition :=
  _ ← nonEmpty (w_tenantId claim);
  _ ← nonEmpty (w_consumerId claim);
  guarded guard (call (server_complete_intelligence_result_wakeup (w_tenantId claim) (w_generation claim)
                         (w_consumerId claim) now)).
Definition retry (guard : bool) (claim : IntelligenceResultWakeupClaim) (retryAfterMs now : Z) : Q RetryDisposition :=
  _ ← boundedNonNegative retryAfterMs MAX_LEASE_MS;
  _ ← nonEmpty (w_tenantId claim);
  _ ← nonEmpty (w_consumerId claim);
  guarded guard (call (server_retry_intelligence_result_wakeup (w_tenantId claim) (w_generation claim)
                         (w_consumerId claim) retryAfterMs now)).
End IntelligenceQueue.
