(* ===== verification/ResultConsumer.v ===== *)
(** * The consumer of intelligence results

    Models how the server applies what workers appended: the transaction that takes
    a batch of pending results of one tenant, decides each and records what it
    decided ([core-application/src/intelligence/server-result-consumer.ts]), and the
    loop that is woken by the appended results
    ([apps/server/src/intelligence-result-consumer-loop.ts]).

    The transaction is one atomic step; what it throws rolls it back.  Under READ
    COMMITTED two transactions may read the same pending results, but the update of
    a case demands the version it read and the row of a decision has a key, so the
    second waits for the first and throws or finds the row. *)
From S2P Require Import Prelude Number Json TestPlan Investigation Intelligence IntelligenceQueue Interact.
From stdpp Require Import sorting pretty.

Module ResultConsumer.
Import Intelligence IntelligenceQueue.

(** A transaction: the tables, and the readings of the abort signal that are left;
    a signal that is not read any more was not raised. *)
Record Tx := { tables : Db; signal : list bool }.
Notation T := (js Tx Thrown).
Definition read {A} (f : Db → A) : T A := gets (λ t, f (tables t)).
Definition write (f : Db → Db) : T unit := modify (λ t, {| tables := f (tables t); signal := signal t |}).
Definition read_signal : T bool := λ t,
  match signal t with
  | [] => (Ok false, t)
  | b :: l => (Ok b, {| tables := tables t; signal := l |})
  end.
Definition check_signal : T unit := b ← read_signal; throw_if b Aborted.

Section tenant.
Context (sha256 : string → string) (tenant : string).

(** ** The ledger and the versions *)
Definition TransactionAppliedResultLedger_find (key : string) : T (option AppliedEffect) :=
  read (λ db, applied_results db !! (tenant, key)).
Definition insert_new {A} (k : Key) (a : A) (m : gmap Key A) : gmap Key A :=
  match m !! k with Some _ => m | None => <[k := a]> m end.
Definition TransactionAppliedResultLedger_record (key : string) (effect : AppliedEffect) : T unit :=
  write (set_applied (insert_new (tenant, key) effect)).
Definition case_version (db : Db) (ref : IntelligenceAggregateRef) : option Z :=
  if String.eqb (ref_type ref) "investigation" then c_version <$> cases db !! (tenant, ref_id ref) else None.
Definition TransactionAggregateVersionReader_currentVersion (ref : IntelligenceAggregateRef) : T (option Z) :=
  read (λ db, case_version db ref).

(** ** The aggregate of an investigation *)
Definition by_ordinal (a b : Key * (Z * string * Investigation.ReproductionAttempt)) : Prop := (a.2.1.1 <= b.2.1.1)%Z.
#[export] Instance by_ordinal_dec a b : Decision (by_ordinal a b).
Proof. apply Z_le_dec. Defined.
Definition attempts_of (db : Db) (caseId : string) : list Investigation.ReproductionAttempt :=
  (λ ka : Key * (Z * string * Investigation.ReproductionAttempt), ka.2.2) <$>
    merge_sort by_ordinal (List.filter (λ ka, String.eqb ka.1.1 tenant && String.eqb ka.2.1.2 caseId)
      (map_to_list (case_attempts db))).
Definition belongs (row : EpisodeRow) (episodeId caseId findingId : string) : bool :=
  String.eqb (e_case_id row) caseId && String.eqb (e_finding_id row) findingId &&
  String.eqb (Investigation.episode_caseId (episode row)) caseId &&
  String.eqb (Investigation.episode_findingId (episode row)) findingId &&
  String.eqb (Investigation.episodeId (episode row)) episodeId.
Definition loadBugEpisode (episodeId caseId findingId : string) : T (option Investigation.BugEpisode) :=
  row ← read (λ db, episodes db !! (tenant, episodeId));
  match row with
  | None => mret None
  | Some row =>
      _ ← throw_if (negb (belongs row episodeId caseId findingId)) PlainError;
      mret (Some (episode row))
  end.
Definition loadInvestigation (caseId : string) : T Investigation.Case :=
  row ← read (λ db, cases db !! (tenant, caseId));
  match row with
  | None => throw PlainError
  | Some row =>
      attempts ← read (λ db, attempts_of db caseId);
      bugEpisode ← match bug_episode_id row with
                   | None => mret None
                   | Some id => loadBugEpisode id caseId (finding_id row)
                   end;
      handoff ← read (λ db, handoffs db !! (tenant, caseId));
      mret (Investigation.restore caseId (finding_id row) (c_project_id row) (c_budget row) (c_usage row)
              (c_version row) (c_status row) (c_plan_revision row) attempts bugEpisode handoff)
  end.

#[local] Instance target_eq_dec : EqDecision TestPlan.SemanticTarget.
Proof. solve_decision. Defined.
#[local] Instance step_eq_dec : EqDecision TestPlan.IntentStep.
Proof. solve_decision. Defined.
#[local] Instance episode_eq_dec : EqDecision Investigation.BugEpisode.
Proof. solve_decision. Defined.
Definition assertExistingBugEpisodeMatches (e : Investigation.BugEpisode) : T unit :=
  row ← read (λ db, episodes db !! (tenant, Investigation.episodeId e));
  match row with
  | None => throw PlainError
  | Some row =>
      throw_if (negb (String.eqb (e_case_id row) (Investigation.episode_caseId e) &&
                      String.eqb (e_finding_id row) (Investigation.episode_findingId e) &&
                      bool_decide (episode row = e))) PlainError
  end.
Definition advanced (t : Investigation.InvestigationTransition) (row : CaseRow) : CaseRow :=
  {| finding_id := finding_id row; c_project_id := c_project_id row; c_status := Investigation.toStatus t;
     c_version := Investigation.t_version t; c_plan_revision := Investigation.t_planRevision t;
     c_budget := c_budget row; c_usage := Investigation.t_usage t;
     bug_episode_id := Investigation.episodeId <$> Investigation.t_bugEpisode t |}.
Definition persistInvestigationTransition (t : Investigation.InvestigationTransition) : T unit :=
  let caseId := Investigation.t_caseId t in
  row ← read (λ db, cases db !! (tenant, caseId));
  match row with
  | Some row =>
      _ ← throw_if (negb (c_version row =? Investigation.t_version t - 1)%Z) PlainError;
      write (set_cases (<[(tenant, caseId) := advanced t row]>))
  | None => throw PlainError
  end;;
  match Investigation.appendedAttempt t with
  | Some a => write (set_attempts (insert_new (tenant, Investigation.attemptId a) (Investigation.ordinal a, caseId, a)))
  | None => mret tt
  end;;
  match Investigation.t_bugEpisode t with
  | Some e =>
      taken ← read (λ db, episodes db !! (tenant, Investigation.episodeId e));
      match taken with
      | None => write (set_episodes (<[(tenant, Investigation.episodeId e) :=
                  {| e_case_id := caseId; e_finding_id := Investigation.episode_findingId e; episode := e |}]>))
      | Some _ => assertExistingBugEpisodeMatches e
      end
  | None => mret tt
  end;;
  match Investigation.t_handoff t with
  | Some h => write (set_handoffs (<[(tenant, caseId) := h]>))
  | None => mret tt
  end.

(** ** The executor *)
Definition deterministicBugEpisodeId (caseId key : string) : string := caseId +:+ ":episode:" +:+ key.
Definition withoutModelAuthoredDomainIds (result : IntelligenceResult) : IntelligenceResult :=
  match proposals result with
  | first :: rest =>
      match field "episodeId" first with
      | None => result
      | Some _ =>
          {| r_jobId := r_jobId result; resultSchemaVersion := resultSchemaVersion result;
             proposals := List.filter (λ kv, negb (String.eqb kv.1 "episodeId")) first :: rest;
             evidenceRefs := evidenceRefs result; confidence := confidence result; provenance := provenance result;
             usage := usage result; terminalStatus := terminalStatus result; r_idempotencyKey := r_idempotencyKey result |}
      end
  | [] => result
  end.
(** A call on the loaded aggregate; it is mutable, and a throw keeps it. *)
Definition on_case {A} (m : Investigation.M A) (c : Investigation.Case) : outcome Thrown A * Investigation.Case :=
  match m c with
  | (Ok a, c') => (Ok a, c')
  | (Throw (Investigation.NegativeConsumption _), c') => (Throw PlainError, c')
  | (Throw e, c') => (Throw (InvestigationError e), c')
  end.
Definition base_command (version : Z) (key : string) : Investigation.InvestigationCommandBase :=
  {| Investigation.expectedVersion := version; Investigation.idempotencyKey := key |}.
Definition start_reproduction (job : IntelligenceJob) (result : IntelligenceResult) (c : Investigation.Case)
    : outcome Thrown Investigation.InvestigationTransition :=
  _ ← reproductionPlanFromResult (Investigation.caseId c) (Investigation.planRevision c + 1) result;
  (on_case (Investigation.startReproduction (base_command (baseAggregateVersion job) (r_idempotencyKey result))) c).1.
Definition confirm_or_escalate (job : IntelligenceJob) (result : IntelligenceResult) (c : Investigation.Case)
    : outcome Thrown Investigation.InvestigationTransition :=
  draft ← bugEpisodeDraftFromResult (withoutModelAuthoredDomainIds result)
            (deterministicBugEpisodeId (Investigation.caseId c) (r_idempotencyKey result));
  match on_case (Investigation.confirm (base_command (baseAggregateVersion job) (r_idempotencyKey result)) draft) c with
  | (Throw (InvestigationError Investigation.InvestigationConfirmationRejected), c')
  | (Throw (InvestigationError Investigation.InvestigationAttemptUnknown), c') =>
      (on_case (Investigation.escalateToHuman
         (base_command (Investigation.version c') (r_idempotencyKey result +:+ ":escalate"))
         (analysis_handoff result)) c').1
  | (o, _) => o
  end.
Definition lift {A} (o : outcome Thrown A) : T A := match o with Ok a => mret a | Throw e => throw e end.
Definition effect_of (c : Investigation.Case) (t : Investigation.InvestigationTransition) : AppliedEffect :=
  {| aggregateType := "investigation"; aggregateId := Investigation.caseId c;
     newVersion := Investigation.t_version t; summary := Investigation.toStatus t |}.
Definition TransactionCommandExecutor_execute (job : IntelligenceJob) (result : IntelligenceResult) : T AppliedEffect :=
  _ ← throw_if (negb (String.eqb (ref_type (aggregateRef job)) "investigation")) PlainError;
  investigation ← loadInvestigation (ref_id (aggregateRef job));
  transition ← match jobType job with
               | investigation_reproduction_planning => lift (start_reproduction job result investigation)
               | investigation_bug_analysis => lift (confirm_or_escalate job result investigation)
               | _ => throw PlainError
               end;
  _ ← persistInvestigationTransition transition;
  mret (effect_of investigation transition).

Context (policy : option (IntelligenceJob → IntelligenceResult → bool)).
#[local] Instance server_ports : Ports Tx := {|
  ledger_find := TransactionAppliedResultLedger_find;
  ledger_record := TransactionAppliedResultLedger_record;
  currentVersion := TransactionAggregateVersionReader_currentVersion;
  execute := TransactionCommandExecutor_execute;
  Intelligence.policy := Some (default production_allows policy);
  aborted := read_signal;
|}.

Definition applyOrRejectDeterministically (job : IntelligenceJob) (result : IntelligenceResult) : T ApplyResult :=
  try_catch (_ ← check_signal; apply job result) (λ e,
    match e with
    | ReproductionPlanError | InvestigationError _ => mret (rejected SchemaInvalid)
    | _ => throw e
    end).

(** ** Dispositions *)
Definition status_of (r : ApplyResult) : ApplyStatus :=
  match r with applied _ => s_applied | duplicate _ => s_duplicate | recompute => s_recompute | rejected _ => s_rejected end.
Definition dispositionFields (r : ApplyResult) : option IntelligenceRejectionCode * option AppliedEffect :=
  match r with
  | applied e | duplicate e => (None, Some e)
  | recompute => (None, None)
  | rejected code => (Some code, None)
  end.
Record RecordedDisposition := { inserted : bool; status : ApplyStatus }.
Definition record (key jobId hash : string) (r : ApplyResult) : T RecordedDisposition :=
  existing ← read (λ db, dispositions db !! (tenant, key));
  match existing with
  | Some d => mret {| inserted := false; status := d_status d |}
  | None =>
      _ ← write (set_dispositions (<[(tenant, key) :=
            {| d_job_id := jobId; d_result_hash := hash; d_status := status_of r; d_code := (dispositionFields r).1;
               d_effect := (dispositionFields r).2; follow_up_job_id := None |}]>));
      mret {| inserted := true; status := status_of r |}
  end.
Definition attach (followUp : string) (d : DispositionRow) : DispositionRow :=
  {| d_job_id := d_job_id d; d_result_hash := d_result_hash d; d_status := d_status d; d_code := d_code d;
     d_effect := d_effect d; follow_up_job_id := Some followUp |}.
Definition attachFollowUpJob (key jobId hash followUp : string) : T unit :=
  write (set_dispositions (update_rows (λ k d, bool_decide (k = (tenant, key)) && String.eqb (d_job_id d) jobId &&
    String.eqb (d_result_hash d) hash && bool_decide (d_status d = s_recompute) &&
    bool_decide (follow_up_job_id d = None)) (attach followUp))).

(** ** The follow-up of a stale result *)
Definition set_field (key : string) (v : json) (r : list (string * json)) : list (string * json) :=
  (λ kv : string * json, if String.eqb kv.1 key then (key, v) else kv) <$> r.
Definition NUL : string := String (Ascii.ascii_of_nat 0) "".
Definition recomputeFollowUpJob (original : IntelligenceJob) (stale : IntelligenceResult) (base : Z) : IntelligenceJob :=
  let digest := sha256 (tenant +:+ NUL +:+ jobId original +:+ NUL +:+ r_idempotencyKey stale +:+ NUL +:+
    ref_type (aggregateRef original) +:+ NUL +:+ ref_id (aggregateRef original) +:+ NUL +:+ pretty base) in
  let id := "recompute-job-" +:+ digest in
  let key := "recompute-idem-" +:+ digest in
  {| jobId := id; jobType := jobType original; tenantId := tenant; projectId := projectId original;
     aggregateRef := aggregateRef original; baseAggregateVersion := base; inputRefs := inputRefs original;
     modelProfileId := modelProfileId original; dataPolicyId := dataPolicyId original; budget := budget original;
     priority := priority original; idempotencyKey := key; causationId := r_idempotencyKey stale;
     expectedResultSchema := expectedResultSchema original;
     job_object := set_field "tenantId" (JStr tenant) (set_field "jobId" (JStr id)
       (set_field "baseAggregateVersion" (JNum (num_of_Z base)) (set_field "idempotencyKey" (JStr key)
         (set_field "causationId" (JStr (r_idempotencyKey stale)) (job_object original))))) |}.
Definition type_text (t : IntelligenceJobType) : string :=
  match t with
  | prd_planning => "prd.planning"
  | skill_induction => "skill.induction"
  | skill_evaluation => "skill.evaluation"
  | investigation_reproduction_planning => "investigation.reproduction-planning"
  | investigation_bug_analysis => "investigation.bug-analysis"
  end.
Definition createRecomputeFollowUp (now : Z) (original : IntelligenceJob) (stale : IntelligenceResult) : T (option string) :=
  current ← TransactionAggregateVersionReader_currentVersion (aggregateRef original);
  _ ← check_signal;
  match current with
  | None => mret None
  | Some version =>
      let followUp := recomputeFollowUpJob original stale version in
      _ ← write (set_jobs (insert_new (tenant, jobId followUp)
            {| job_type := type_text (jobType followUp); j_base_aggregate_version := version;
               job_json := Some (JObj (job_object followUp)); created_at := now |}));
      mret (Some (jobId followUp))
  end.

(** ** The pending results *)
Record PendingPayloadRow := {
  p_idempotencyKey : string;
  p_jobId : string;
  p_resultHash : string;
  p_jobJson : option json;
  p_resultJson : option json;
  p_accepted_at : Z;
}.
(** The joins and the conditions of [pendingResultQuery], for a row of the inbox. *)
Definition matching_lease (i : InboxRow) (l : LeaseRow) : bool :=
  String.eqb (worker_id l) (i_worker_id i) && String.eqb (lease_token_hash l) (i_lease_token_hash i) &&
  (expires_at l =? lease_expires_at i)%Z && bool_decide (released_at l = None) &&
  negb (bool_decide (completed_at l = None)).
Definition pendingResult (db : Db) (k : Key) (i : InboxRow) : option PendingPayloadRow :=
  j ← jobs db !! (tenant, i_job_id i);
  l ← leases db !! ((tenant, i_job_id i), lease_attempt i);
  if String.eqb k.1 tenant && matching_lease i l && bool_decide (dispositions db !! k = None) &&
     (j_base_aggregate_version j =? i_base_aggregate_version i)%Z
  then Some {| p_idempotencyKey := k.2; p_jobId := i_job_id i; p_resultHash := result_hash i;
               p_jobJson := job_json j; p_resultJson := result_json i; p_accepted_at := accepted_at i |}
  else None.
Definition pendingResultQuery (db : Db) : list PendingPayloadRow :=
  omap (λ ki, pendingResult db ki.1 ki.2) (map_to_list (inbox db)).
Definition earlier (a b : PendingPayloadRow) : Prop := (p_accepted_at a <= p_accepted_at b)%Z.
#[export] Instance earlier_dec a b : Decision (earlier a b).
Proof. apply Z_le_dec. Defined.
(** An answer of the query: ordered by the time of acceptance, in any order among
    equals. *)
Definition a_batch (db : Db) (n : Z) (rows : list PendingPayloadRow) : Prop :=
  ∃ all, all ≡ₚ pendingResultQuery db ∧ StronglySorted earlier all ∧ rows = take (Z.to_nat n) all.

Definition decodePendingPayload (row : PendingPayloadRow) : option (IntelligenceJob * IntelligenceResult) :=
  job ← parseJsonObject (p_jobJson row) ≫= validateIntelligenceJobShape;
  result ← parseJsonObject (p_resultJson row) ≫= validateIntelligenceResultShape;
  mret (job, result).

(** ** One batch *)
Definition MAX_RESULT_BATCH_SIZE : Z := 256.
Record ConsumeSummary := { processed : list ApplyStatus; hasMore : bool }.
Definition consume_row (now : Z) (row : PendingPayloadRow) : T ApplyStatus :=
  _ ← check_signal;
  let decoded := decodePendingPayload row in
  outcome ← match decoded with
            | Some (job, result) => applyOrRejectDeterministically job result
            | None => mret (rejected SchemaInvalid)
            end;
  recorded ← record (p_idempotencyKey row) (p_jobId row) (p_resultHash row) outcome;
  _ ← match decoded, outcome with
      | Some (job, result), recompute =>
          if inserted recorded && bool_decide (status recorded = s_recompute) then
            followUp ← createRecomputeFollowUp now job result;
            match followUp with
            | Some id => attachFollowUpJob (p_idempotencyKey row) (p_jobId row) (p_resultHash row) id
            | None => mret tt
            end
          else mret tt
      | _, _ => mret tt
      end;
  mret (status recorded).
Fixpoint consume_rows (now : Z) (rows : list PendingPayloadRow) : T (list ApplyStatus) :=
  match rows with
  | [] => mret []
  | row :: rows => s ← consume_row now row; l ← consume_rows now rows; mret (s :: l)
  end.
(** [rows] is the answer of the first query. *)
Definition consumeForTenant (batchSize : Z) (now : Z) (rows : list PendingPayloadRow) : T ConsumeSummary :=
  _ ← check_signal;
  _ ← throw_if (negb ((0 <? batchSize) && (batchSize <=? MAX_RESULT_BATCH_SIZE))%Z) PlainError;
  _ ← throw_if (String.eqb tenant "") PlainError;
  transaction (
    statuses ← consume_rows now rows;
    remaining ← read pendingResultQuery;
    mret {| processed := statuses; hasMore := negb (bool_decide (length remaining = 0%nat)) |}).
End tenant.
End ResultConsumer.
