(* ===== verification/ResultLoop.v ===== *)
(** * The loop of the server over the wakeups

    Models [apps/server/src/intelligence-result-consumer-loop.ts]: one cycle claims
    the tenants that are due, consumes a batch of each and completes or reschedules
    its wakeup; the cycles follow one another on a timer.

    Every call to the database or to the consumer may fail, and the signal is read
    anew each time.  The workers' calls, and what others do to the tables, are calls
    too, so that any of them may come between two calls of a cycle. *)
From S2P Require Import Prelude Number Json Investigation Intelligence IntelligenceQueue ResultConsumer Interact.

Module ResultLoop.
Import Intelligence IntelligenceQueue ResultConsumer.

(** ** Calls *)
Inductive LoopError := abort_error | other_error.
Inductive WorkerAction :=
  | wa_lease (input : LeaseInput) (token : string) (locked : list Key)
  | wa_renew (input : RenewInput)
  | wa_append (input : AppendResultInput)
  | wa_abandon (input : AbandonLeaseInput).
Inductive Call : Type → Type :=
  | ClaimDueTenants (consumer : string) (duration batch : Z) : Call (outcome LoopError (list IntelligenceResultWakeupClaim))
  | ConsumeForTenant (tenant : string) (batch : Z) : Call (outcome LoopError ConsumeSummary)
  | CompleteWakeup (claim : IntelligenceResultWakeupClaim) : Call (outcome LoopError CompleteDisposition)
  | RetryWakeup (claim : IntelligenceResultWakeupClaim) (after : Z) : Call (outcome LoopError RetryDisposition)
  | ReadSignal : Call bool
  | Worker (a : WorkerAction) : Call unit
  | Others : Call unit.

(** ** The state of a loop *)
Record Totals := {
  t_claimed : Z; t_processed : Z; t_applied : Z; t_duplicate : Z; t_recompute : Z; t_rejected : Z;
  t_retried : Z; t_completed : Z; t_stale : Z }.
Definition no_totals : Totals :=
  {| t_claimed := 0; t_processed := 0; t_applied := 0; t_duplicate := 0; t_recompute := 0; t_rejected := 0;
     t_retried := 0; t_completed := 0; t_stale := 0 |}.
Record Loop := { consecutiveFailures : Z; lastError : bool; observed : bool; totals : Totals }.
Record Options := {
  consumerId : string; tenantBatchSize : Z; resultBatchSize : Z; o_leaseDurationMs : Z;
  idleBackoffMs : Z; errorBackoffMs : Z; maximumBackoffMs : Z }.

Notation P := (prog Call Empty_set).
Definition L (A : Type) : Type := Loop → P (outcome LoopError A * Loop).
#[export] Instance loop_ret : MRet L := λ A a s, mret (Ok a, s).
#[export] Instance loop_bind : MBind L := λ A B k m s,
  r ← m s; match r with (Ok a, s') => k a s' | (Throw e, s') => mret (Throw e, s') end.
Definition l_throw {A} (e : LoopError) : L A := λ s, mret (Throw e, s).
Definition l_gets {A} (f : Loop → A) : L A := λ s, mret (Ok (f s), s).
Definition l_modify (f : Loop → Loop) : L unit := λ s, mret (Ok tt, f s).
Definition l_catch {A} (m : L A) (h : LoopError → L A) : L A := λ s,
  r ← m s; match r with (Ok a, s') => mret (Ok a, s') | (Throw e, s') => h e s' end.
Definition l_ask {A} (e : Call A) : L A := λ s, b ← ask e; mret (Ok b, s).
Definition l_call {A} (e : Call (outcome LoopError A)) : L A := λ s, b ← ask e; mret (b, s).

Definition set_totals (f : Totals → Totals) (s : Loop) : Loop :=
  {| consecutiveFailures := consecutiveFailures s; lastError := lastError s; observed := observed s; totals := f (totals s) |}.
Definition set_failures (f : Z → Z) (s : Loop) : Loop :=
  {| consecutiveFailures := f (consecutiveFailures s); lastError := lastError s; observed := observed s; totals := totals s |}.
Definition set_error (b : bool) (s : Loop) : Loop :=
  {| consecutiveFailures := consecutiveFailures s; lastError := b; observed := observed s; totals := totals s |}.
Definition add_claimed (t : Totals) : Totals :=
  {| t_claimed := t_claimed t + 1; t_processed := t_processed t; t_applied := t_applied t; t_duplicate := t_duplicate t;
     t_recompute := t_recompute t; t_rejected := t_rejected t; t_retried := t_retried t; t_completed := t_completed t;
     t_stale := t_stale t |}.
Definition add_retried (t : Totals) : Totals :=
  {| t_claimed := t_claimed t; t_processed := t_processed t; t_applied := t_applied t; t_duplicate := t_duplicate t;
     t_recompute := t_recompute t; t_rejected := t_rejected t; t_retried := t_retried t + 1; t_completed := t_completed t;
     t_stale := t_stale t |}.
Definition add_completed (t : Totals) : Totals :=
  {| t_claimed := t_claimed t; t_processed := t_processed t; t_applied := t_applied t; t_duplicate := t_duplicate t;
     t_recompute := t_recompute t; t_rejected := t_rejected t; t_retried := t_retried t; t_completed := t_completed t + 1;
     t_stale := t_stale t |}.
Definition add_stale (t : Totals) : Totals :=
  {| t_claimed := t_claimed t; t_processed := t_processed t; t_applied := t_applied t; t_duplicate := t_duplicate t;
     t_recompute := t_recompute t; t_rejected := t_rejected t; t_retried := t_retried t; t_completed := t_completed t;
     t_stale := t_stale t + 1 |}.
Definition number_of (s : ApplyStatus) (l : list ApplyStatus) : Z :=
  Z.of_nat (length (List.filter (λ x, bool_decide (x = s)) l)).
Definition add_summary (c : ConsumeSummary) (t : Totals) : Totals :=
  {| t_claimed := t_claimed t; t_processed := t_processed t + Z.of_nat (length (processed c));
     t_applied := t_applied t + number_of s_applied (processed c);
     t_duplicate := t_duplicate t + number_of s_duplicate (processed c);
     t_recompute := t_recompute t + number_of s_recompute (processed c);
     t_rejected := t_rejected t + number_of s_rejected (processed c);
     t_retried := t_retried t; t_completed := t_completed t; t_stale := t_stale t |}.

(** ** One cycle *)
Section cycle.
Context (o : Options).

Definition isAborted : L bool := l_ask ReadSignal.
Definition currentBackoffMs (s : Loop) : Z :=
  Z.min (errorBackoffMs o * 2 ^ consecutiveFailures s) (maximumBackoffMs o).
Definition recordSuccessfulObservation (s : Loop) : Loop :=
  {| consecutiveFailures := 0; lastError := false; observed := true; totals := totals s |}.
Definition retryClaim (claim : IntelligenceResultWakeupClaim) (after : Z) : L unit :=
  d ← l_call (RetryWakeup claim after);
  l_modify (set_totals (match d with scheduled => add_retried | _ => add_stale end)).
Definition consumed_claim (claim : IntelligenceResultWakeupClaim) (summary : ConsumeSummary) : L bool :=
  _ ← l_modify (set_error false);
  _ ← l_modify (set_totals (add_summary summary));
  stopped ← isAborted;
  if stopped : bool then (_ ← retryClaim claim 0; mret false)
  else if hasMore summary || (0 <? number_of s_recompute (processed summary))%Z then
    backoff ← l_gets currentBackoffMs;
    _ ← retryClaim claim (if hasMore summary then 0 else backoff);
    mret true
  else
    disposition ← l_call (CompleteWakeup claim);
    _ ← l_modify (set_totals (match disposition with completed => add_completed | _ => add_stale end));
    mret true.
Definition consumeClaim (claim : IntelligenceResultWakeupClaim) : L bool :=
  l_catch
    (summary ← l_call (ConsumeForTenant (w_tenantId claim) (resultBatchSize o)); consumed_claim claim summary)
    (λ e,
      stopped ← isAborted;
      let aborted := (stopped : bool) || match e with abort_error => true | other_error => false end in
      _ ← l_modify (if aborted then id else set_error true);
      backoff ← l_gets currentBackoffMs;
      _ ← retryClaim claim (if aborted then 0 else backoff);
      _ ← l_modify (if aborted then id else set_failures (Z.add 1));
      mret false).
Fixpoint consume_claims (failed : bool) (claims : list IntelligenceResultWakeupClaim) : L bool :=
  match claims with
  | [] => mret failed
  | claim :: claims =>
      _ ← l_modify (set_totals add_claimed);
      stopped ← isAborted;
      if stopped : bool then (_ ← retryClaim claim 0; consume_claims true claims)
      else (ok ← consumeClaim claim; consume_claims (negb ok || failed) claims)
  end.
Definition runOnce : L Totals :=
  _ ← l_modify (set_totals (λ _, no_totals));
  stopped ← isAborted;
  if stopped : bool then mret no_totals
  else
    claims ← l_call (ClaimDueTenants (consumerId o) (o_leaseDurationMs o) (tenantBatchSize o));
    failed ← consume_claims false claims;
    stopped ← isAborted;
    _ ← l_modify (if negb failed && negb (stopped : bool) then recordSuccessfulObservation else id);
    l_gets totals.

(** What the timer runs: a cycle, and the delay until the next one. *)
Definition scheduled_run : L Z :=
  l_catch
    (summary ← runOnce; mret (if (t_claimed summary =? 0)%Z then idleBackoffMs o else 0%Z))
    (λ _, _ ← l_modify (set_error true); _ ← l_modify (set_failures (Z.add 1)); l_gets currentBackoffMs).
End cycle.

(** ** What a call does to the tables *)
Section answers.
Context (sha256 : string → string) (hashResult : json → string)
        (policy : option (IntelligenceJob → IntelligenceResult → bool)).

Definition worker_step (a : WorkerAction) (guard : bool) (now : Z) (db : Db) : Db :=
  match a with
  | wa_lease input token locked => exec (lease sha256 guard input token now locked) db
  | wa_renew input => exec (renew sha256 guard input now) db
  | wa_append input => exec (append sha256 hashResult guard input now) db
  | wa_abandon input => exec (abandon sha256 guard input now) db
  end.

(** What others may do: enqueue jobs, open cases, carry their own commands out on a
    case, which raise its version and keep its budget, and add attempts and episodes. *)
Record others (db db' : Db) : Prop := {
  ot_jobs : jobs db ⊆ jobs db';
  ot_leases : leases db' = leases db;
  ot_inbox : inbox db' = inbox db;
  ot_applied : applied_results db' = applied_results db;
  ot_dispositions : dispositions db' = dispositions db;
  ot_cases : ∀ k r, cases db !! k = Some r → ∃ r', cases db' !! k = Some r' ∧
    (c_version r <= c_version r')%Z ∧ c_budget r' = c_budget r;
  ot_attempts : case_attempts db ⊆ case_attempts db';
  ot_episodes : episodes db ⊆ episodes db';
  ot_wakeups : wakeups db' = wakeups db;
}.

(** A call that is refused has changed nothing; one that carried its transaction out
    may be answered as failed. *)
Definition answered {A} (o : outcome QueueThrow A) (b : outcome LoopError A) : Prop :=
  match b with Ok a => o = Ok a | Throw e => e = other_error end.
Definition consumed (o : outcome Thrown ConsumeSummary) (b : outcome LoopError ConsumeSummary) : Prop :=
  match b with Ok a => o = Ok a | Throw abort_error => o = Throw Aborted | Throw other_error => True end.
Inductive answers : ∀ B, Call B → Db → B → Db → Prop :=
  | an_claim consumer duration batch guard now locked db b :
      answered (result (claimDueTenants guard consumer duration batch now locked) db) b →
      answers _ (ClaimDueTenants consumer duration batch) db b
        (exec (claimDueTenants guard consumer duration batch now locked) db)
  | an_consume tenant batch now rows sig db b :
      a_batch tenant db batch rows →
      consumed (result (consumeForTenant sha256 tenant policy batch now rows) {| tables := db; signal := sig |}) b →
      answers _ (ConsumeForTenant tenant batch) db b
        (tables (exec (consumeForTenant sha256 tenant policy batch now rows) {| tables := db; signal := sig |}))
  | an_complete claim guard now db b :
      answered (result (complete guard claim now) db) b →
      answers _ (CompleteWakeup claim) db b (exec (complete guard claim now) db)
  | an_retry claim after guard now db b :
      answered (result (retry guard claim after now) db) b →
      answers _ (RetryWakeup claim after) db b (exec (retry guard claim after now) db)
  | an_signal db b : answers _ ReadSignal db b db
  | an_worker a guard now db : answers _ (Worker a) db tt (worker_step a guard now db)
  | an_others db db' : others db db' → answers _ Others db tt db'.

(** ** Any number of loops and workers at once *)
Inductive Note :=
  | n_claimed (claims : list IntelligenceResultWakeupClaim)
  | n_cleared (tenant : string)
  | n_other.
(** What is remembered of a call: the tenants that were claimed, and a batch that
    left nothing. *)
Definition note (B : Type) (e : Call B) : B → Note :=
  match e in Call B return B → Note with
  | ClaimDueTenants _ _ _ => λ b, match b with Ok claims => n_claimed claims | Throw _ => n_other end
  | ConsumeForTenant tenant _ => λ b,
      match b with Ok summary => if hasMore summary then n_other else n_cleared tenant | Throw _ => n_other end
  | _ => λ _, n_other
  end.
(** A loop in any state runs a cycle; a worker makes a call; others do what they may. *)
Inductive startable : P unit → Prop :=
  | st_cycle o s : startable (_ ← scheduled_run o s; mret tt)
  | st_worker a : startable (ask (Worker a))
  | st_others : startable (ask Others).
Definition runs : sched_state (E := Call) (X := Empty_set) (N := Note) (S := Db) (A := unit) → sched_state → Prop :=
  sched note answers (λ _ _ _ _, False) startable.
End answers.

Definition empty_db : Db :=
  {| jobs := ∅; leases := ∅; inbox := ∅; applied_results := ∅; dispositions := ∅; cases := ∅; case_attempts := ∅;
     episodes := ∅; handoffs := ∅; wakeups := ∅ |}.
Definition nothing_yet : sched_state (E := Call) (X := Empty_set) (N := Note) (S := Db) (A := unit) :=
  {| shared := empty_db; processes := [] |}.
End ResultLoop.
