(* ===== verification/QueueSafety.v ===== *)
(** * Safety of the intelligence work queue

    What the tables of [IntelligenceQueue] keep true whatever the workers call, in
    whatever order: an appended result belongs to a job, to a lease that was completed
    with it and to the key it is stored under, and a job has one live lease and one
    result at most. *)
From S2P Require Import Prelude Number Json CanonicalJson Investigation Intelligence IntelligenceQueue ResultConsumer.
From stdpp Require Import sorting.

Module QueueSafety.
Import Intelligence IntelligenceQueue ResultConsumer.

(** ** Statements *)
Lemma exists_row_true {K A} `{Countable K} (p : K → A → bool) (m : gmap K A) :
  exists_row p m = true ↔ ∃ k a, m !! k = Some a ∧ p k a = true.
Proof.
  unfold exists_row. rewrite existsb_exists. split.
  - intros ([k a] & Hin%list_elem_of_In%elem_of_map_to_list & Hp). by exists k, a.
  - intros (k & a & Hk%elem_of_map_to_list%list_elem_of_In & Hp). by exists (k, a).
Qed.
Lemma exists_row_false {K A} `{Countable K} (p : K → A → bool) (m : gmap K A) :
  exists_row p m = false ↔ ∀ k a, m !! k = Some a → p k a = false.
Proof.
  rewrite <- not_true_iff_false, exists_row_true. split.
  - intros H' k a Hk. destruct (p k a) eqn:Hp; [|done]. destruct H'. by exists k, a.
  - intros H' (k & a & Hk & Hp). by rewrite (H' k a Hk) in Hp.
Qed.
Lemma lookup_update_rows {K A} `{Countable K} (p : K → A → bool) (f : A → A) (m : gmap K A) k :
  update_rows p f m !! k = (λ a, if p k a then f a else a) <$> m !! k.
Proof. unfold update_rows. rewrite map_lookup_imap. by destruct (m !! k). Qed.
Lemma lookup_insert_new {A} (k k' : Key) (a b : A) m :
  insert_new k a m !! k' = Some b ↔ m !! k' = Some b ∨ (k' = k ∧ m !! k = None ∧ b = a).
Proof.
  unfold insert_new. destruct (m !! k) as [a0|] eqn:Hk.
  - split; [by left|]. by intros [?|(_ & ? & _)].
  - rewrite lookup_insert_Some. split.
    + intros [[<- <-]|[_ ?]]; [by right|by left].
    + intros [Hb|(-> & _ & ->)]; [|by left]. right. split; [congruence|done].
Qed.
Lemma insert_new_subseteq {A} (k : Key) (a : A) m : m ⊆ insert_new k a m.
Proof. apply map_subseteq_spec. intros k' b Hb. apply lookup_insert_new. by left. Qed.
Lemma max_attempt_ge (k : Key) (n : Z) (l : LeaseRow) (m : gmap (Key * Z) LeaseRow) : m !! (k, n) = Some l → (n <= max_attempt k m)%Z.
Proof.
  unfold max_attempt. revert n l. apply (map_fold_weak_ind (λ r m, ∀ n l, m !! (k, n) = Some l → (n <= r)%Z)); [done|].
  intros [k' n'] l' m' r Hk' IH n l [[[= -> ->] _]|[_ Hl]]%lookup_insert_Some; cbn.
  - rewrite bool_decide_true by done. lia.
  - specialize (IH _ _ Hl). case_bool_decide; lia.
Qed.

(** ** The invariant *)
Record QueueInv (db : Db) : Prop := {
  q_inbox t k i : inbox db !! (t, k) = Some i →
    ∃ j l r, jobs db !! (t, i_job_id i) = Some j ∧ j_base_aggregate_version j = i_base_aggregate_version i ∧
      leases db !! ((t, i_job_id i), lease_attempt i) = Some l ∧ matching_lease i l = true ∧
      result_json i = Some (JObj r) ∧ text (get_field "idempotencyKey" r) = Some k;
  q_live jk n1 n2 l1 l2 : leases db !! (jk, n1) = Some l1 → leases db !! (jk, n2) = Some l2 →
    is_live l1 = true → is_live l2 = true → n1 = n2;
  q_done t k i n l : inbox db !! (t, k) = Some i → leases db !! ((t, i_job_id i), n) = Some l → is_live l = false;
  q_once t k1 k2 i1 i2 : inbox db !! (t, k1) = Some i1 → inbox db !! (t, k2) = Some i2 → i_job_id i1 = i_job_id i2 → k1 = k2;
}.

(** What the invariant says of the leases when they are updated row by row: a row
    that lives did so before, and a row that an inbox row names does not change. *)
Record calms (db : Db) (m : gmap (Key * Z) LeaseRow) : Prop := {
  calm_live k l : m !! k = Some l → is_live l = true → ∃ l0, leases db !! k = Some l0 ∧ is_live l0 = true;
  calm_rows k l0 : leases db !! k = Some l0 → ∃ l, m !! k = Some l ∧ (is_live l0 = false → l = l0);
  calm_old k l : m !! k = Some l → is_Some (leases db !! k);
}.
Lemma matching_not_live i l : matching_lease i l = true → is_live l = false.
Proof. unfold matching_lease, is_live. intros H. to_prop. destruct (released_at l), (completed_at l); done. Qed.

Lemma calms_inv db m : QueueInv db → calms db m → QueueInv (set_leases (λ _, m) db).
Proof.
  intros Hinv Hm. split; cbn.
  - intros t k i Hi. destruct (q_inbox _ Hinv _ _ _ Hi) as (j & l & r & Hj & Hb & Hl & Hml & Hr).
    destruct (calm_rows _ _ Hm _ _ Hl) as (l' & Hl' & E). rewrite (E (matching_not_live _ _ Hml)) in Hl'. by exists j, l, r.
  - intros jk n1 n2 l1 l2 H1 H2 L1 L2. destruct (calm_live _ _ Hm _ _ H1 L1) as (l1' & H1' & L1').
    destruct (calm_live _ _ Hm _ _ H2 L2) as (l2' & H2' & L2'). by eapply (q_live _ Hinv).
  - intros t k i n l Hi Hl. destruct (is_live l) eqn:E; [|done]. destruct (calm_live _ _ Hm _ _ Hl E) as (l' & Hl' & E').
    by rewrite <- E', (q_done _ Hinv _ _ _ _ _ Hi Hl').
  - apply (q_once _ Hinv).
Qed.
Lemma calms_update db p f :
  (∀ k l, leases db !! k = Some l → p k l = true → is_live l = true) → calms db (update_rows p f (leases db)).
Proof.
  intros Hp. split; intros k l.
  - rewrite lookup_update_rows. intros (l0 & Hl0 & ->)%fmap_Some L. exists l0. split; [done|].
    destruct (p k l0) eqn:E; [|done]. by apply (Hp k).
  - intros Hl. rewrite lookup_update_rows, Hl. cbn. eexists. split; [done|]. intros L.
    destruct (p k l) eqn:E; [|done]. by rewrite (Hp _ _ Hl E) in L.
  - rewrite lookup_update_rows. intros (l0 & Hl0 & _)%fmap_Some. by eexists.
Qed.

(** ** The functions of the workers *)
Lemma claim_inv types worker hash duration now locked db :
  QueueInv db → QueueInv (worker_claim_intelligence_lease types worker hash duration now locked db).2.
Proof.
  intros Hinv. unfold worker_claim_intelligence_lease.
  destruct (claim_candidates types now locked db) as [|[k j] rest] eqn:Hc; [done|]. cbn [snd].
  assert ((k, j) ∈ claim_candidates types now locked db) as Hin by (rewrite Hc; by left).
  unfold claim_candidates in Hin. rewrite merge_sort_Permutation in Hin. apply list_elem_of_In, List.filter_In in Hin as [_ Hok].
  cbn in Hok. unfold claimable in Hok. to_prop. rename select (exists_row _ (inbox db) = false) into Hbox.
  rename select (exists_row _ (leases db) = false) into Hfree. rewrite (exists_row_false _ (inbox db)) in Hbox. rewrite (exists_row_false _ (leases db)) in Hfree.
  set (m := update_rows _ _ (leases db)).
  assert (calms db m) as Hm by (apply calms_update; intros ? ? _ ?; by to_prop).
  set (n := (max_attempt k m + 1)%Z). set (new := {| worker_id := worker |}).
  assert (m !! (k, n) = None) as Hnew.
  { destruct (m !! (k, n)) eqn:E; [|done]. apply max_attempt_ge in E. lia. }
  assert (∀ n' l, m !! (k, n') = Some l → is_live l = false) as Hdead.
  { intros n' l. unfold m. rewrite lookup_update_rows. intros (l0 & Hl0 & ->)%fmap_Some.
    specialize (Hfree _ _ Hl0). cbn in Hfree. rewrite bool_decide_true in Hfree by done. cbn in *. rewrite bool_decide_true by done.
    destruct (is_live l0) eqn:L; [|done]. cbn in Hfree |- *. apply Z.ltb_ge in Hfree.
    by rewrite (proj2 (Z.leb_le _ _) Hfree). }
  pose proof (calms_inv _ _ Hinv Hm) as Hinv'. split; cbn.
  - intros t k' i Hi. destruct (q_inbox _ Hinv' _ _ _ Hi) as (j' & l & r & Hj & Hb & Hl & Hml & Hr).
    exists j', l, r. cbn in *. destruct Hr as [Hr Hk]. split_and!; try done. rewrite lookup_insert_ne; [exact Hl|]. intros E. rewrite <- E in Hl. congruence.
  - intros jk n1 n2 l1 l2 [[[= <- <-] <-]|[_ H1]]%lookup_insert_Some [[E <-]|[_ H2]]%lookup_insert_Some L1 L2.
    + by injection E.
    + by rewrite (Hdead _ _ H2) in L2.
    + injection E as <- <-. by rewrite (Hdead _ _ H1) in L1.
    + by eapply (q_live _ Hinv').
  - intros t k' i n' l Hi [[[= E <-] <-]|[_ Hl]]%lookup_insert_Some; [|by eapply (q_done _ Hinv')].
    specialize (Hbox _ _ Hi). rewrite E in Hbox. cbn in Hbox. by rewrite !bool_decide_true in Hbox.
  - apply (q_once _ Hinv').
Qed.

Lemma renew_inv job worker hash duration now db :
  QueueInv db → QueueInv (worker_renew_intelligence_lease job worker hash duration now db).2.
Proof.
  intros Hinv. unfold worker_renew_intelligence_lease. destruct (List.filter _ _) as [|[k l] [|]]; try done.
  apply calms_inv; [done|]. apply calms_update. unfold renewable. intros ? ? _ ?. by to_prop.
Qed.
Lemma abandon_inv tenant job worker attempt hash now db :
  QueueInv db → QueueInv (worker_abandon_intelligence_lease tenant job worker attempt hash now db).2.
Proof.
  intros Hinv. unfold worker_abandon_intelligence_lease. destruct (leases db !! _) as [l|] eqn:Hl; [|done].
  destruct (_ && is_live l) eqn:E; [|done]. to_prop. cbn [snd].
  apply (calms_inv _ (<[_ := _]> (leases db)) Hinv). split; intros k l'.
  - intros [[<- <-]|[_ ?]]%lookup_insert_Some ?; [done|by eauto].
  - intros Hl'. destruct (decide (k = ((tenant, job), attempt))) as [-> |]; [rewrite lookup_insert_eq|rewrite lookup_insert_ne by done; by eauto].
    eexists. split; [done|]. congruence.
  - intros [[<- _]|[_ ?]]%lookup_insert_Some; [by eexists|done].
Qed.
Lemma append_inv tenant job worker attempt hash base key rhash r now db :
  text (get_field "idempotencyKey" r) = Some key → QueueInv db →
  QueueInv (worker_append_intelligence_result tenant job worker attempt hash base key rhash (Some (JObj r)) now db).2.
Proof.
  intros Hkey Hinv. unfold worker_append_intelligence_result. destruct (inbox db !! (tenant, key)) as [i|] eqn:Hbox; [done|].
  destruct (jobs db !! (tenant, job)) as [j|] eqn:Hj; [|done]. destruct (j_base_aggregate_version j =? base)%Z eqn:Hb; [|done]. cbn [negb].
  destruct (leases db !! ((tenant, job), attempt)) as [l|] eqn:Hl; [|done].
  destruct (String.eqb_spec (worker_id l) worker) as [Hw|]; [|done].
  destruct (String.eqb_spec (lease_token_hash l) hash) as [Hh|]; [|done]. cbn [negb].
  destruct (is_live l) eqn:L; [|done]. destruct (expires_at l <=? now)%Z eqn:He; [done|]. cbn [negb snd]. apply Z.eqb_eq in Hb.
  assert (∀ k i, inbox db !! (tenant, k) = Some i → i_job_id i ≠ job) as Hnone.
  { intros k i Hi E. rewrite <- E in Hl. by rewrite (q_done _ Hinv _ _ _ _ _ Hi Hl) in L. }
  assert (∀ n l', leases db !! ((tenant, job), n) = Some l' → is_live l' = true → n = attempt) as Hone.
  { intros n l' Hl' L'. by eapply (q_live _ Hinv). }
  split; cbn.
  - intros t k i [[[= <- <-] <-]|[Hne Hi]]%lookup_insert_Some; cbn.
    + exists j, (complete_lease now l), r. rewrite lookup_insert_eq. split_and!; try done.
      unfold matching_lease. cbn. rewrite Hw, Hh, !String.eqb_refl, Z.eqb_refl. unfold is_live in L.
      destruct (released_at l), (completed_at l); done.
    + destruct (q_inbox _ Hinv _ _ _ Hi) as (j' & l' & r' & Hj' & Hb' & Hl' & Hml & Hr' & Hk'). exists j', l', r'. split_and!; try done.
      rewrite lookup_insert_ne; [done|]. intros [= -> E _]. by eapply Hnone.
  - intros jk n1 n2 l1 l2 [[[= <- <-] <-]|[_ H1]]%lookup_insert_Some [[E <-]|[_ H2]]%lookup_insert_Some L1 L2;
      try (by unfold is_live in L1, L2; cbn in L1, L2; destruct (released_at l)).
    by eapply (q_live _ Hinv).
  - intros t k i n l' [[[= <- <-] <-]|[Hne Hi]]%lookup_insert_Some; cbn.
    + intros [[_ <-]|[Hne Hl']]%lookup_insert_Some; [by unfold is_live; cbn; destruct (released_at l)|].
      destruct (is_live l') eqn:L'; [|done]. destruct Hne. by rewrite (Hone _ _ Hl' L').
    + intros [[[= -> E _] _]|[_ Hl']]%lookup_insert_Some; [by destruct (Hnone _ _ Hi)|by eapply (q_done _ Hinv)].
  - intros t k1 k2 i1 i2 [[[= <- <-] <-]|[_ H1]]%lookup_insert_Some [[E <-]|[_ H2]]%lookup_insert_Some; cbn; intros Ej.
    + by injection E.
    + by destruct (Hnone _ _ H2).
    + injection E as -> <-. by destruct (Hnone _ _ H1).
    + by eapply (q_once _ Hinv).
Qed.
End QueueSafety.
