(* ===== verification/ResultSafety.v ===== *)
(** * Safety of the consumer of intelligence results

    What one transaction of [ResultConsumer] does to the tables, and the invariant
    of the decisions that are recorded: each applied result passed every check of
    the gate, met its aggregate at the version it was made for, and is the only one
    that made the next version. *)
From S2P Require Import Prelude Number Json Investigation Intelligence IntelligenceQueue ResultConsumer QueueSafety.
From stdpp Require Import sorting.

Module ResultSafety.
Import Intelligence IntelligenceQueue ResultConsumer QueueSafety.

(** ** What the executor makes of a loaded aggregate *)
Record moved (c : Investigation.Case) (t : Investigation.InvestigationTransition) : Prop := {
  mv_case : Investigation.t_caseId t = Investigation.caseId c;
  mv_version : Investigation.t_version t = (Investigation.version c + 1)%Z;
  mv_attempt : Investigation.appendedAttempt t = None;
  mv_episode e : Investigation.t_bugEpisode t = Some e →
    Investigation.toStatus t = Investigation.confirmed ∧
    (∃ a, a ∈ Investigation.attempts c ∧ Investigation.attempt_outcome a = Investigation.reproduced ∧
          Investigation.attemptId a ∈ Investigation.confirmedAttemptIds e) ∧
    num_ltb (Investigation.episode_confidence e) (Investigation.confirmationThreshold c) = false;
  mv_confirmed : Investigation.toStatus t = Investigation.confirmed → is_Some (Investigation.t_bugEpisode t);
}.

(** Execution of a command on an aggregate that has replayed nothing. *)
Ltac run_command Hc :=
  unfold on_case, Investigation.startReproduction, Investigation.confirm, Investigation.escalateToHuman,
    Investigation.unless_replayed, Investigation.replay, Investigation.require_status,
    Investigation.assertExpectedVersion, Investigation.consumePlanRevision, Investigation.commitNeedsHuman,
    Investigation.commit, Investigation.set_planRevision, Investigation.set_usage, Investigation.set_handoff,
    Investigation.set_bugEpisode, Investigation.record_transition,
    mbind, js_bind, mret, js_ret, gets, get, modify, throw_if, throw in *; cbn in *;
  rewrite ?Hc, ?lookup_empty in *; cbn in *.

Lemma on_case_Ok {A} (m : Investigation.M A) c a c' : on_case m c = (Ok a, c') → m c = (Ok a, c').
Proof. unfold on_case. destruct (m c) as [[x|[]] c0]; by intros [= -> ->]. Qed.

Lemma startReproduction_moved c b t c' :
  Investigation.transitions c = ∅ → Investigation.startReproduction b c = (Ok t, c') → moved c t.
Proof.
  intros Hc H. run_command Hc. destruct (negb _); [done|]. cbn in H. destruct (negb _); [done|]. cbn in H.
  destruct (bool_decide _); injection H as <- <-; by split.
Qed.
Lemma escalateToHuman_moved c b d t c' :
  Investigation.transitions c = ∅ → Investigation.escalateToHuman b d c = (Ok t, c') → moved c t.
Proof.
  intros Hc H. run_command Hc. destruct (negb _); [done|]. cbn in H. destruct (negb _); [done|]. cbn in H.
  injection H as <- <-; by split.
Qed.
Lemma confirm_moved c b d t c' :
  Investigation.transitions c = ∅ → Investigation.confirm b d c = (Ok t, c') → moved c t.
Proof.
  intros Hc H. run_command Hc. destruct (negb _); [done|]. cbn in H. destruct (negb _); [done|]. cbn in H.
  destruct (num_ltb _ _) eqn:Hn; [done|]. cbn in H. destruct (existsb _ _) eqn:He; [|done]. cbn in H.
  destruct (forallb _ _); [|done]. cbn in H. injection H as <- <-. split; try done; cbn.
  intros e [= <-]. split_and!; [done| |done]. apply existsb_exists in He as (i & Hi%list_elem_of_In & Hr).
  unfold includes in Hr. apply bool_decide_eq_true in Hr. unfold Investigation.reproduced_ids in Hr.
  apply list_elem_of_fmap in Hr as (a & -> & Ha%list_elem_of_In). apply List.filter_In in Ha as [Ha%list_elem_of_In Ho].
  exists a. split_and!; [done| |done]. by apply bool_decide_eq_true in Ho.
Qed.
(** A confirmation that is refused leaves the aggregate as it was. *)
Lemma confirm_refused c b d e c' :
  Investigation.transitions c = ∅ → on_case (Investigation.confirm b d) c = (Throw e, c') → c' = c.
Proof.
  intros Hc H. run_command Hc. destruct (negb _); [by injection H|]. cbn in H. destruct (negb _); [by injection H|]. cbn in H.
  destruct (num_ltb _ _); [by injection H|]. cbn in H. destruct (negb _); [by injection H|]. cbn in H.
  by destruct (negb _); injection H.
Qed.

Lemma start_reproduction_moved job result c t :
  Investigation.transitions c = ∅ → start_reproduction job result c = Ok t → moved c t.
Proof.
  intros Hc H. apply bind_Ok in H as (plan & _ & H).
  destruct (on_case _ c) as [o c'] eqn:E. cbn in H. subst o. apply on_case_Ok in E. by eapply startReproduction_moved.
Qed.
Lemma confirm_or_escalate_moved job result c t :
  Investigation.transitions c = ∅ → confirm_or_escalate job result c = Ok t → moved c t.
Proof.
  intros Hc H. apply bind_Ok in H as (draft & _ & H).
  destruct (on_case (Investigation.confirm _ _) c) as [[t'|e] c'] eqn:E.
  - injection H as ->. apply on_case_Ok in E. by eapply confirm_moved.
  - pose proof (confirm_refused _ _ _ _ _ Hc E) as ->.
    assert ((on_case (Investigation.escalateToHuman
         (base_command (Investigation.version c) (r_idempotencyKey result +:+ ":escalate"))
         (analysis_handoff result)) c).1 = Ok t) as Hesc by (destruct e as [|[]| |]; done).
    destruct (on_case (Investigation.escalateToHuman _ _) c) as [o c'] eqn:E'. cbn in Hesc. subst o. apply on_case_Ok in E'.
    by eapply escalateToHuman_moved.
Qed.

(** ** What a transaction may change *)
Record same_queue (db db' : Db) : Prop := {
  sq_jobs : jobs db' = jobs db;
  sq_leases : leases db' = leases db;
  sq_inbox : inbox db' = inbox db;
  sq_applied : applied_results db' = applied_results db;
  sq_dispositions : dispositions db' = dispositions db;
  sq_attempts : case_attempts db' = case_attempts db;
  sq_episodes : episodes db ⊆ episodes db';
  sq_wakeups : wakeups db' = wakeups db;
}.

Section tenant.
Context (sha256 : string → string) (tenant : string).

(** A step of reasoning about the tables of a transaction. *)
Lemma wp_select {A} (f : Db → A) (Q : A → Tx → Prop) R tx : Q (f (tables tx)) tx → wp (read f) Q R tx.
Proof. done. Qed.
Lemma wp_write f (Q : unit → Tx → Prop) R tx :
  Q tt {| tables := f (tables tx); signal := signal tx |} → wp (write f) Q R tx.
Proof. done. Qed.
Lemma wp_read_signal (Q : bool → Tx → Prop) R tx :
  (∀ b l, Q b {| tables := tables tx; signal := l |}) → wp read_signal Q R tx.
Proof. intros H. unfold wp, read_signal. destruct tx as [db [|b l]]; cbn; apply H. Qed.
Lemma wp_check_signal (Q : unit → Tx → Prop) (R : Thrown → Tx → Prop) tx :
  (∀ l, Q tt {| tables := tables tx; signal := l |}) → (∀ l, R Aborted {| tables := tables tx; signal := l |}) →
  wp check_signal Q R tx.
Proof.
  intros HQ HR. unfold check_signal. apply wp_bind, wp_read_signal. intros b l. apply wp_throw_if; intros _; [apply HR|apply HQ].
Qed.

(** The errors that become a rejection leave the tables [db] as they were. *)
Definition kept (db : Db) (e : Thrown) (tx : Tx) : Prop :=
  match e with ReproductionPlanError | InvestigationError _ => tables tx = db | _ => True end.

Lemma wp_loadBugEpisode db id caseId findingId (Q : option Investigation.BugEpisode → Tx → Prop) tx :
  (∀ e, Q e tx) → wp (loadBugEpisode tenant id caseId findingId) Q (kept db) tx.
Proof.
  intros HQ. apply wp_bind, wp_select. destruct (episodes _ !! _); [|by apply wp_ret].
  apply wp_bind, wp_throw_if; intros _; [done|by apply wp_ret].
Qed.
Lemma wp_loadInvestigation db caseId (Q : Investigation.Case → Tx → Prop) tx :
  (∀ row e h, cases (tables tx) !! (tenant, caseId) = Some row →
     Q (Investigation.restore caseId (finding_id row) (c_project_id row) (c_budget row) (c_usage row)
          (c_version row) (c_status row) (c_plan_revision row) (attempts_of tenant (tables tx) caseId) e h) tx) →
  wp (loadInvestigation tenant caseId) Q (kept db) tx.
Proof.
  intros HQ. apply wp_bind, wp_select. destruct (cases _ !! _) as [row|] eqn:Hrow; [|done].
  apply wp_bind, wp_select, wp_bind. destruct (bug_episode_id row).
  - apply wp_loadBugEpisode. intros e. apply wp_bind, wp_select, wp_ret. by apply HQ.
  - apply wp_ret, wp_bind, wp_select, wp_ret. by apply HQ.
Qed.
Lemma attempts_of_elem db caseId a :
  a ∈ attempts_of tenant db caseId → ∃ k o, case_attempts db !! (tenant, k) = Some (o, caseId, a).
Proof.
  unfold attempts_of. intros ([[t k] [[o c] a']] & -> & Hin)%list_elem_of_fmap. rewrite merge_sort_Permutation in Hin.
  apply list_elem_of_In, List.filter_In in Hin as [Hin%list_elem_of_In%elem_of_map_to_list Hp]. cbn in *. to_prop.
  apply String.eqb_eq in H, H0. subst. by exists k, o.
Qed.

(** ** The executor *)
Record executed (db : Db) (job : IntelligenceJob) (eff : AppliedEffect) (db' : Db) : Prop := {
  ex_type : ref_type (aggregateRef job) = "investigation" ∧ aggregateType eff = "investigation";
  ex_id : aggregateId eff = ref_id (aggregateRef job);
  ex_case : ∃ row row', cases db !! (tenant, aggregateId eff) = Some row ∧
    newVersion eff = (c_version row + 1)%Z ∧ c_version row' = newVersion eff ∧ c_status row' = summary eff ∧ c_budget row' = c_budget row ∧
    cases db' = <[(tenant, aggregateId eff) := row']> (cases db) ∧
    (summary eff = Investigation.confirmed → ∃ id e k o a,
       bug_episode_id row' = Some id ∧ episodes db' !! (tenant, id) = Some e ∧
       case_attempts db !! (tenant, k) = Some (o, aggregateId eff, a) ∧
       Investigation.attempt_outcome a = Investigation.reproduced ∧
       Investigation.attemptId a ∈ Investigation.confirmedAttemptIds (episode e) ∧
       num_ltb (Investigation.episode_confidence (episode e))
         (Investigation.confirmationConfidenceThreshold (c_budget row)) = false);
  ex_queue : same_queue db db';
}.

Lemma wp_persist db0 t (Q : unit → Tx → Prop) tx :
  Investigation.appendedAttempt t = None →
  (∀ row db' l, let k := (tenant, Investigation.t_caseId t) in
     cases (tables tx) !! k = Some row → c_version row = (Investigation.t_version t - 1)%Z →
     cases db' = <[k := advanced t row]> (cases (tables tx)) → same_queue (tables tx) db' →
     (∀ e, Investigation.t_bugEpisode t = Some e →
        ∃ r, episodes db' !! (tenant, Investigation.episodeId e) = Some r ∧ episode r = e) →
     Q tt {| tables := db'; signal := l |}) →
  wp (persistInvestigationTransition tenant t) Q (kept db0) tx.
Proof.
  intros Ha HQ. unfold persistInvestigationTransition. cbv zeta. apply wp_bind, wp_select.
  destruct (cases _ !! _) as [row|] eqn:Hrow; [|done]. apply wp_bind, wp_bind, wp_throw_if; intros Hv; [done|]. to_prop.
  apply wp_write. rewrite Ha. apply wp_bind, wp_ret. cbn [tables signal].
  set (db1 := set_cases _ (tables tx)).
  assert (∀ db' l, cases db' = cases db1 → same_queue db1 db' →
     (∀ e, Investigation.t_bugEpisode t = Some e →
        ∃ r, episodes db' !! (tenant, Investigation.episodeId e) = Some r ∧ episode r = e) →
     wp (match Investigation.t_handoff t with
         | Some h => write (set_handoffs (<[(tenant, Investigation.t_caseId t) := h]>))
         | None => mret tt
         end) Q (kept db0) {| tables := db'; signal := l |}) as Hend.
  { intros db' l Hc Hq He. destruct (Investigation.t_handoff t); [apply wp_write|apply wp_ret]; cbn [tables signal];
      (eapply HQ; [done|done|exact Hc|by destruct Hq|done]). }
  apply wp_bind. destruct (Investigation.t_bugEpisode t) as [e|] eqn:He; [|apply wp_ret; by apply Hend].
  apply wp_bind, wp_select. cbn [tables]. destruct (episodes db1 !! _) as [r|] eqn:Hr.
  - apply wp_bind, wp_select. cbn [tables]. rewrite Hr. apply wp_throw_if; intros Hm; [done|]. to_prop.
    apply Hend; [done..|]. intros e' [= <-]. by exists r.
  - apply wp_write. cbn [tables signal]. apply Hend; [done| |].
    + split; try done. cbn. by apply insert_subseteq.
    + intros e' [= <-]. eexists. cbn. by rewrite lookup_insert_eq.
Qed.

Lemma wp_execute job result (Q : AppliedEffect → Tx → Prop) tx :
  (∀ eff db' l, executed (tables tx) job eff db' → Q eff {| tables := db'; signal := l |}) →
  wp (TransactionCommandExecutor_execute tenant job result) Q (kept (tables tx)) tx.
Proof.
  intros HQ. apply wp_bind, wp_throw_if; intros Ht; [done|]. apply negb_false_iff, String.eqb_eq in Ht.
  apply wp_bind, wp_loadInvestigation. intros row e h Hrow. set (c := Investigation.restore _ _ _ _ _ _ _ _ _ _ _).
  assert (∀ t, moved c t → wp (_ ← persistInvestigationTransition tenant t; mret (effect_of c t) : js Tx Thrown AppliedEffect)
                             Q (kept (tables tx)) tx) as Hgo.
  { intros t Hm. apply wp_bind, wp_persist; [by apply Hm|]. cbv zeta. intros row0 db' l Hrow0 Hv Hc Hq Hep. apply wp_ret, HQ.
    rewrite (mv_case _ _ Hm) in Hrow0, Hc. cbn in Hrow0, Hc. rewrite Hrow in Hrow0. injection Hrow0 as <-.
    split; [done..| |done]. exists row, (advanced t row). cbn. rewrite (mv_version _ _ Hm). cbn.
    split_and!; [done..|]. intros Hconf. destruct (mv_confirmed _ _ Hm Hconf) as [ep Hsome].
    destruct (mv_episode _ _ Hm _ Hsome) as (_ & (a & Ha & Hrep & Hin) & Hthr). cbn in Ha, Hthr.
    apply attempts_of_elem in Ha as (k & o & Ha). destruct (Hep _ Hsome) as (r & Hr & <-).
    exists (Investigation.episodeId (episode r)), r, k, o, a. by rewrite Hsome. }
  apply wp_bind. destruct (jobType job); try done; unfold lift.
  - destruct (start_reproduction job result c) as [t|e'] eqn:E; [|by destruct e']. apply wp_ret, Hgo. by eapply start_reproduction_moved.
  - destruct (confirm_or_escalate job result c) as [t|e'] eqn:E; [|by destruct e']. apply wp_ret, Hgo. by eapply confirm_or_escalate_moved.
Qed.
End tenant.
End ResultSafety.
