(* ===== verification/ResultProperties.v ===== *)
(** * The decisions on intelligence results

    The invariant of the tables under every call of the workers, of the server and
    of others, and what it says of a result that was applied. *)
From S2P Require Import Prelude Number Json Investigation Intelligence IntelligenceQueue ResultConsumer ResultLoop Interact.
From S2P Require Import QueueSafety ResultSafety.
From stdpp Require Import sorting.

Module ResultProperties.
Import Intelligence IntelligenceQueue ResultConsumer ResultLoop QueueSafety ResultSafety.

Section properties.
Context (sha256 : string → string) (hashResult : json → string)
        (policy : option (IntelligenceJob → IntelligenceResult → bool)).
Notation allows := (default production_allows policy).

(** ** What the gate lets through *)
Record passed (job : IntelligenceJob) (result : IntelligenceResult) : Prop := {
  ps_envelope : validateEnvelope job result = None;
  ps_succeeded : terminalStatus result = succeeded;
  ps_budget : overspent job result = false;
  ps_evidence : strayEvidence job result = false;
  ps_policy : allows job result = true;
}.
Section tenant.
Context (tenant : string).
Notation tx db l := ({| tables := db; signal := l |} : Tx).

Lemma wp_apply job result (Q : ApplyResult → Tx → Prop) db l0 :
  (∀ code l, Q (rejected code) (tx db l)) →
  (∀ eff l, applied_results db !! (tenant, r_idempotencyKey result) = Some eff → Q (duplicate eff) (tx db l)) →
  (∀ l, case_version tenant db (aggregateRef job) ≠ Some (baseAggregateVersion job) → Q recompute (tx db l)) →
  (∀ eff db' l, passed job result → applied_results db !! (tenant, r_idempotencyKey result) = None →
     case_version tenant db (aggregateRef job) = Some (baseAggregateVersion job) → executed tenant db job eff db' →
     Q (applied eff) (tx (set_applied (<[(tenant, r_idempotencyKey result) := eff]>) db') l)) →
  wp (@apply Tx (server_ports tenant policy) job result) Q (kept db) (tx db l0).
Proof.
  intros Hrej Hdup Hrec Happ. unfold apply. destruct (validateEnvelope job result) as [code|] eqn:Henv; [apply wp_ret, Hrej|].
  assert (∀ (k : Tx → Prop) (tx0 : Tx), (∀ l, k (tx (tables tx0) l)) →
    wp (@throwIfAborted Tx (server_ports tenant policy)) (λ _ t, k t) (kept db) tx0) as Hab.
  { intros k tx0 Hk. apply wp_bind, (wp_read_signal _ _ tx0). intros b l. apply wp_throw_if; [done|by intros _]. }
  apply wp_bind. eapply wp_mono; [by apply (Hab (λ t, tables t = db))| |done]. intros [] [db1 l1] E. cbn in E. subst db1. clear l0.
  apply wp_bind. cbn [ledger_find server_ports]. apply wp_select. cbn [tables].
  apply wp_bind. eapply wp_mono; [by apply (Hab (λ t, tables t = db))| |done]. intros [] [db1 l2] E. cbn in E. subst db1. clear l1.
  destruct (applied_results db !! _) as [eff|] eqn:Hled; [by apply wp_ret, Hdup|].
  apply wp_bind. cbn [currentVersion server_ports]. apply wp_select. cbn [tables].
  apply wp_bind. eapply wp_mono; [by apply (Hab (λ t, tables t = db))| |done]. intros [] [db1 l3] E. cbn in E. subst db1. clear l2.
  case_bool_decide as Hv; [|by apply wp_ret, Hrec]. cbn [negb].
  case_bool_decide as Hs; [|by apply wp_ret, Hrej]. cbn [negb].
  destruct (overspent job result) eqn:Ho; [by apply wp_ret, Hrej|].
  destruct (strayEvidence job result) eqn:He; [by apply wp_ret, Hrej|].
  unfold forbids. cbn [Intelligence.policy server_ports]. destruct (allows job result) eqn:Hp; [|by apply wp_ret, Hrej]. cbn [negb].
  apply wp_bind. eapply wp_mono; [by apply (Hab (λ t, tables t = db))| |done]. intros [] [db1 l4] E. cbn in E. subst db1. clear l3.
  apply wp_bind. cbn [execute server_ports]. apply (wp_execute tenant job result _ (tx db l4)). intros eff db' l Hex. cbn [tables] in Hex.
  apply wp_bind. cbn [ledger_record server_ports]. apply wp_write, wp_ret. cbn [tables signal].
  assert (set_applied (insert_new (tenant, r_idempotencyKey result) eff) db' =
          set_applied (<[(tenant, r_idempotencyKey result) := eff]>) db') as ->.
  { unfold set_applied, insert_new. by rewrite (sq_applied _ _ (ex_queue _ _ _ _ _ Hex)), Hled. }
  by apply Happ.
Qed.

(** A result that is decided, and recorded under a key that was not. *)
Lemma wp_decide job result (Q : ApplyResult → Tx → Prop) db l0 :
  (∀ code l, Q (rejected code) (tx db l)) →
  (∀ eff l, applied_results db !! (tenant, r_idempotencyKey result) = Some eff → Q (duplicate eff) (tx db l)) →
  (∀ l, case_version tenant db (aggregateRef job) ≠ Some (baseAggregateVersion job) → Q recompute (tx db l)) →
  (∀ eff db' l, passed job result → applied_results db !! (tenant, r_idempotencyKey result) = None →
     case_version tenant db (aggregateRef job) = Some (baseAggregateVersion job) → executed tenant db job eff db' →
     Q (applied eff) (tx (set_applied (<[(tenant, r_idempotencyKey result) := eff]>) db') l)) →
  wp (applyOrRejectDeterministically tenant policy job result) Q (λ _ _, True) (tx db l0).
Proof.
  intros Hrej Hdup Hrec Happ. apply wp_try_catch.
  eapply (wp_mono _ Q Q (kept db)); [|done|].
  - apply wp_bind, wp_check_signal; [|done]. intros l. by apply wp_apply.
  - intros e [db' l'] Hk. destruct e; try done; cbn in Hk; subst db'; by apply wp_ret.
Qed.
End tenant.

(** ** What no step takes back *)
Record grows (db db' : Db) : Prop := {
  gr_jobs : jobs db ⊆ jobs db';
  gr_inbox : inbox db ⊆ inbox db';
  gr_attempts : case_attempts db ⊆ case_attempts db';
  gr_episodes : episodes db ⊆ episodes db';
  gr_cases k r : cases db !! k = Some r →
    ∃ r', cases db' !! k = Some r' ∧ (c_version r <= c_version r')%Z ∧ c_budget r' = c_budget r;
}.
#[export] Instance grows_preorder : PreOrder grows.
Proof.
  split.
  - intros db. split; try done. intros k r Hr. exists r. by split_and!.
  - intros db1 db2 db3 H1 H2. split; try (etrans; [apply H1|apply H2]).
    intros k r Hr. destruct (gr_cases _ _ H1 _ _ Hr) as (r1 & Hr1 & Hv1 & Hb1).
    destruct (gr_cases _ _ H2 _ _ Hr1) as (r2 & Hr2 & Hv2 & Hb2). exists r2. split_and!; [done|lia|congruence].
Qed.

(** ** The invariant *)
Definition row_of (k : string) (i : InboxRow) (j : JobRow) : PendingPayloadRow :=
  {| p_idempotencyKey := k; p_jobId := i_job_id i; p_resultHash := result_hash i; p_jobJson := job_json j;
     p_resultJson := result_json i; p_accepted_at := accepted_at i |}.
(** A confirmation rests on an attempt that reproduced the finding. *)
Definition confirmed_by_attempt (db : Db) (t : string) (eff : AppliedEffect) : Prop :=
  ∃ row id e k o a, cases db !! (t, aggregateId eff) = Some row ∧ episodes db !! (t, id) = Some e ∧
    case_attempts db !! (t, k) = Some (o, aggregateId eff, a) ∧
    Investigation.attempt_outcome a = Investigation.reproduced ∧
    Investigation.attemptId a ∈ Investigation.confirmedAttemptIds (episode e) ∧
    num_ltb (Investigation.episode_confidence (episode e))
      (Investigation.confirmationConfidenceThreshold (c_budget row)) = false.
Record justified (db : Db) (t k : string) (eff : AppliedEffect) : Prop := {
  js_source : ∃ i j job result, inbox db !! (t, k) = Some i ∧ jobs db !! (t, i_job_id i) = Some j ∧
    decodePendingPayload (row_of k i j) = Some (job, result) ∧ passed job result ∧ idempotencyKey job = k ∧
    aggregateRef job = {| ref_type := "investigation"; ref_id := aggregateId eff |} ∧
    newVersion eff = (baseAggregateVersion job + 1)%Z;
  js_case : ∃ row, cases db !! (t, aggregateId eff) = Some row ∧ (newVersion eff <= c_version row)%Z;
  js_confirmed : summary eff = Investigation.confirmed → confirmed_by_attempt db t eff;
}.
Lemma justified_grows db db' t k eff : grows db db' → justified db t k eff → justified db' t k eff.
Proof.
  intros Hg [(i & j & job & result & Hi & Hj & H) (row & Hrow & Hv) Hc]. split.
  - exists i, j, job, result. split; [by eapply lookup_weaken, gr_inbox|]. split; [by eapply lookup_weaken, gr_jobs|done].
  - destruct (gr_cases _ _ Hg _ _ Hrow) as (r' & Hr' & ? & _). exists r'. split; [done|lia].
  - intros Hs. destruct (Hc Hs) as (row0 & id & e & k' & o & a & Hrow0 & He & Ha & Hrep).
    destruct (gr_cases _ _ Hg _ _ Hrow0) as (r' & Hr' & _ & Hb). exists r', id, e, k', o, a. rewrite Hb.
    split; [done|]. split; [by eapply lookup_weaken, gr_episodes|]. split; [by eapply lookup_weaken, gr_attempts|done].
Qed.

Definition decision (d : DispositionRow) : ApplyStatus * option AppliedEffect := (d_status d, d_effect d).
Record ResultInv (db : Db) : Prop := {
  ri_queue : QueueInv db;
  ri_ledger t k eff : applied_results db !! (t, k) = Some eff ↔ decision <$> dispositions db !! (t, k) = Some (s_applied, Some eff);
  ri_status k d : dispositions db !! k = Some d → d_status d = s_applied → is_Some (d_effect d);
  ri_justified t k eff : applied_results db !! (t, k) = Some eff → justified db t k eff;
  ri_once t k1 k2 e1 e2 : applied_results db !! (t, k1) = Some e1 → applied_results db !! (t, k2) = Some e2 →
    aggregateId e1 = aggregateId e2 → newVersion e1 = newVersion e2 → k1 = k2;
  ri_inbox k d : dispositions db !! k = Some d → is_Some (inbox db !! k);
}.

Lemma queue_frame db db' :
  QueueInv db → jobs db ⊆ jobs db' → leases db' = leases db → inbox db' = inbox db → QueueInv db'.
Proof.
  intros H Hj Hl Hi. split; rewrite ?Hl, ?Hi; [|apply (q_live _ H)|apply (q_done _ H)|apply (q_once _ H)].
  intros t k i Hk. destruct (q_inbox _ H _ _ _ Hk) as (j & l & r & Hj' & Hrest). exists j, l, r. split; [by eapply lookup_weaken|done].
Qed.
Lemma inv_frame db db' :
  ResultInv db → QueueInv db' → grows db db' → applied_results db' = applied_results db →
  (∀ k, decision <$> dispositions db' !! k = decision <$> dispositions db !! k) → ResultInv db'.
Proof.
  intros H Hq Hg Ha Hd. split; [done|..].
  - intros t k eff. rewrite Ha, Hd. apply (ri_ledger _ H).
  - intros k d Hk Hs. specialize (Hd k). rewrite Hk in Hd. destruct (dispositions db !! k) as [d0|] eqn:Hk0; [|done].
    injection Hd as E1 E2. rewrite E2. apply (ri_status _ H k); [done|congruence].
  - intros t k eff. rewrite Ha. intros He. eapply justified_grows; [done|]. by apply (ri_justified _ H).
  - intros t k1 k2 e1 e2. rewrite Ha. apply (ri_once _ H).
  - intros k d Hk. specialize (Hd k). rewrite Hk in Hd. destruct (dispositions db !! k) as [d0|] eqn:Hk0; [|done].
    destruct (ri_inbox _ H _ _ Hk0) as [i Hi]. exists i. by eapply lookup_weaken, gr_inbox.
Qed.

(** ** One result *)
Definition disposition_of (job hash : string) (r : ApplyResult) : DispositionRow :=
  {| d_job_id := job; d_result_hash := hash; d_status := status_of r; d_code := (dispositionFields r).1;
     d_effect := (dispositionFields r).2; follow_up_job_id := None |}.
Definition recorded_db (k : Key) (job hash : string) (r : ApplyResult) (db : Db) : Db :=
  set_dispositions (<[k := disposition_of job hash r]>) db.

Lemma recorded_inv db t k job hash r :
  ResultInv db → is_Some (inbox db !! (t, k)) → dispositions db !! (t, k) = None → status_of r ≠ s_applied →
  ResultInv (recorded_db (t, k) job hash r db).
Proof.
  intros H Hi Hd Hs. assert (grows db (recorded_db (t, k) job hash r db)) as Hg.
  { split; try done. intros k' r' Hr. exists r'. by split_and!. }
  split; cbn.
  - by eapply queue_frame; [apply H|..].
  - intros t' k' eff. destruct (decide ((t', k') = (t, k))) as [[= -> ->]|Hne].
    + rewrite lookup_insert_eq. cbn. split.
      * rewrite (ri_ledger _ H), Hd. done.
      * unfold decision. cbn. intros [= E _]. done.
    + rewrite lookup_insert_ne by congruence. apply (ri_ledger _ H).
  - intros k' d [[<- <-]|[_ Hk]]%lookup_insert_Some ?; [done|by eapply (ri_status _ H)].
  - intros t' k' eff He. eapply justified_grows; [done|]. by apply (ri_justified _ H).
  - apply (ri_once _ H).
  - intros k' d [[<- <-]|[_ Hk]]%lookup_insert_Some; [done|by eapply (ri_inbox _ H)].
Qed.

Definition applied_db (k : Key) (job hash : string) (eff : AppliedEffect) (db : Db) : Db :=
  recorded_db k job hash (applied eff) (set_applied (<[k := eff]>) db).
Lemma applied_inv db db1 t k i j job result eff hash :
  ResultInv db → inbox db !! (t, k) = Some i → jobs db !! (t, i_job_id i) = Some j → dispositions db !! (t, k) = None →
  decodePendingPayload (row_of k i j) = Some (job, result) → r_idempotencyKey result = k → passed job result →
  case_version t db (aggregateRef job) = Some (baseAggregateVersion job) → executed t db job eff db1 →
  ResultInv (applied_db (t, k) (i_job_id i) hash eff db1) ∧ grows db (applied_db (t, k) (i_job_id i) hash eff db1).
Proof.
  intros H Hi Hj Hd Hdec Hkey Hp Hv [[Ht _] Hid (row & row' & Hrow & Hnew & Hv' & Hs' & Hb & Hcases & Hconf) Hq].
  destruct Hq as [Qj Ql Qi Qa Qd Qat Qe Qw]. set (db2 := applied_db _ _ _ _ _).
  unfold case_version in Hv. rewrite Ht, String.eqb_refl, <- Hid, Hrow in Hv. injection Hv as Hv.
  assert (grows db db2) as Hg.
  { split; cbn; rewrite ?Qj, ?Qi, ?Qat; try done. rewrite Hcases. intros k' r Hr.
    destruct (decide (k' = (t, aggregateId eff))) as [-> |].
    - rewrite lookup_insert_eq. exists row'. rewrite Hrow in Hr. injection Hr as <-. split_and!; [done|lia|done].
    - rewrite lookup_insert_ne by done. exists r. by split_and!. }
  assert (applied_results db !! (t, k) = None) as Hled.
  { destruct (applied_results db !! (t, k)) eqn:E; [|done]. apply (ri_ledger _ H) in E. by rewrite Hd in E. }
  assert (justified db2 t k eff) as Hjust.
  { split.
    - exists i, j, job, result. cbn. rewrite Qi, Qj. split_and!; try done.
      + destruct (envelope_keys _ _ (ps_envelope _ _ Hp)) as [E _]. by rewrite <- E.
      + destruct (aggregateRef job). cbn in *. by subst.
      + by rewrite Hnew, Hv.
    - exists row'. cbn. rewrite Hcases, lookup_insert_eq. split; [done|lia].
    - intros Hs. destruct (Hconf Hs) as (id & e & k' & o & a & _ & He & Ha & Hrep & Hin & Hthr).
      exists row', id, e, k', o, a. cbn. rewrite Hcases, lookup_insert_eq, Qat, Hb. by split_and!. }
  assert (∀ k' e', applied_results db !! (t, k') = Some e' → aggregateId e' = aggregateId eff → newVersion e' ≠ newVersion eff) as Hfresh.
  { intros k' e' He Eid Ev. destruct (js_case _ _ _ _ (ri_justified _ H _ _ _ He)) as (r & Hr & Hle).
    rewrite Eid, Hrow in Hr. injection Hr as <-. lia. }
  split; [|done]. split; cbn.
  - eapply queue_frame; [apply H|..]; cbn; rewrite ?Qj, ?Ql, ?Qi; done.
  - intros t' k' eff'. destruct (decide ((t', k') = (t, k))) as [[= -> ->]|Hne].
    + rewrite !lookup_insert_eq. cbn. unfold decision. cbn. split; by intros [= ->].
    + rewrite !lookup_insert_ne, Qa, Qd by congruence. apply (ri_ledger _ H).
  - intros k' d [[<- <-]|[_ Hk]]%lookup_insert_Some ?; [by eexists|]. rewrite Qd in Hk. by eapply (ri_status _ H).
  - intros t' k' eff' [[[= <- <-] <-]|[_ He]]%lookup_insert_Some; [done|]. rewrite Qa in He.
    eapply justified_grows; [done|]. by apply (ri_justified _ H).
  - rewrite Qa. intros t' k1 k2 e1 e2 [[[= <- <-] <-]|[_ H1]]%lookup_insert_Some [[E <-]|[_ H2]]%lookup_insert_Some Eid Ev.
    + by injection E.
    + by destruct (Hfresh _ _ H2).
    + injection E as -> <-. by destruct (Hfresh _ _ H1).
    + by eapply (ri_once _ H).
  - rewrite Qd, Qi. intros k' d [[<- <-]|[_ Hk]]%lookup_insert_Some; [by eexists|by eapply (ri_inbox _ H)].
Qed.

(** ** One transaction *)
Section batch.
Context (tenant : string).
Notation tx db l := ({| tables := db; signal := l |} : Tx).

(** A row of the first query: what the tables have under its key. *)
Definition sourced (db : Db) (row : PendingPayloadRow) : Prop :=
  ∃ i j, inbox db !! (tenant, p_idempotencyKey row) = Some i ∧ jobs db !! (tenant, i_job_id i) = Some j ∧
    row = row_of (p_idempotencyKey row) i j.
(** What deciding the rows of [keys] does to the tables. *)
Record decides (keys : list string) (db db' : Db) : Prop := {
  dc_grows : grows db db';
  dc_leases : leases db' = leases db;
  dc_inbox : inbox db' = inbox db;
  dc_wakeups : wakeups db' = wakeups db;
  dc_decided k : k ∈ keys → is_Some (dispositions db' !! (tenant, k));
  dc_others k : (∀ key, key ∈ keys → k ≠ (tenant, key)) → dispositions db' !! k = dispositions db !! k;
  dc_cases k : k.1 ≠ tenant → cases db' !! k = cases db !! k;
}.
Lemma decides_app keys keys' db1 db2 db3 :
  decides keys db1 db2 → decides keys' db2 db3 → decides (keys ++ keys') db1 db3.
Proof.
  intros H1 H2. split.
  - etrans; [apply H1|apply H2].
  - by rewrite (dc_leases _ _ _ H2), (dc_leases _ _ _ H1).
  - by rewrite (dc_inbox _ _ _ H2), (dc_inbox _ _ _ H1).
  - by rewrite (dc_wakeups _ _ _ H2), (dc_wakeups _ _ _ H1).
  - intros k Hk. destruct (decide (k ∈ keys')) as [?|Hne]; [by apply (dc_decided _ _ _ H2)|].
    rewrite (dc_others _ _ _ H2); [apply (dc_decided _ _ _ H1); set_solver|]. intros key Hin [= ->]. done.
  - intros k Hk. rewrite (dc_others _ _ _ H2), (dc_others _ _ _ H1); [done|..]; intros key Hin; apply Hk; set_solver.
  - intros k Hk. by rewrite (dc_cases _ _ _ H2), (dc_cases _ _ _ H1).
Qed.

Lemma validate_result_key r result :
  validateIntelligenceResultShape r = Some result → text (get_field "idempotencyKey" r) = Some (r_idempotencyKey result).
Proof.
  unfold validateIntelligenceResultShape. intros H.
  repeat match type of H with _ ≫= _ = Some _ => apply bind_Some in H as (? & ? & H) end. injection H as <-. cbn.
  rename select (nonEmptyText (field "idempotencyKey" r) = _) into Hk. apply bind_Some in Hk as (s & Hs & Hk).
  destruct (is_blank s); [done|]. injection Hk as <-. done.
Qed.
Lemma decoded_key db row job result :
  ResultInv db → sourced db row → decodePendingPayload row = Some (job, result) → r_idempotencyKey result = p_idempotencyKey row.
Proof.
  intros H (i & j & Hi & Hj & Erow) Hd. unfold decodePendingPayload in Hd. apply bind_Some in Hd as (job' & _ & Hd).
  apply bind_Some in Hd as (result' & Hr & [= -> ->]). apply bind_Some in Hr as (r & Hr & Hval). apply validate_result_key in Hval.
  destruct (q_inbox _ (ri_queue _ H) _ _ _ Hi) as (_ & _ & r' & _ & _ & _ & _ & Hjson & Hkey).
  rewrite Erow in Hr. unfold parseJsonObject, row_of in Hr. cbn in Hr. rewrite Hjson in Hr. injection Hr as <-. congruence.
Qed.

Lemma wp_disposition key job hash outcome (Q : RecordedDisposition → Tx → Prop) R db l :
  dispositions db !! (tenant, key) = None →
  Q {| inserted := true; status := status_of outcome |} (tx (recorded_db (tenant, key) job hash outcome db) l) →
  wp (record tenant key job hash outcome) Q R (tx db l).
Proof. intros Hd HQ. apply wp_bind, wp_select. cbn [tables]. rewrite Hd. by apply wp_bind, wp_write, wp_ret. Qed.

Lemma recorded_decides db key job hash outcome :
  dispositions db !! (tenant, key) = None → decides [key] db (recorded_db (tenant, key) job hash outcome db).
Proof.
  intros Hd. split; try done; cbn.
  - split; try done. intros k r Hr. exists r. by split_and!.
  - intros k ->%list_elem_of_singleton. rewrite lookup_insert_eq. by eexists.
  - intros k Hk. rewrite lookup_insert_ne; [done|]. intros <-. apply (Hk key); [by left|done].
Qed.

(** The follow-up of a stale result touches the jobs and the row of its decision. *)
Lemma followed_up db key p f j0 :
  ResultInv db → is_Some (dispositions db !! (tenant, key)) → (∀ d, decision (f d) = decision d) →
  (∀ k d, p k d = true → k = (tenant, key)) →
  let db' := set_dispositions (update_rows p f) (set_jobs (insert_new j0.1 j0.2) db) in
  ResultInv db' ∧ decides [key] db db'.
Proof.
  intros H Hkey Hf Hp db'. assert (grows db db') as Hg.
  { split; try done; cbn; [apply insert_new_subseteq|]. intros k r Hr. exists r. by split_and!. }
  split.
  - eapply inv_frame; [done|by eapply queue_frame; [apply H|apply Hg|..]|done|done|]. intros k. cbn. rewrite lookup_update_rows.
    destruct (dispositions db !! k) as [d|]; [|done]. cbn. destruct (p k d); by rewrite ?Hf.
  - split; try done; cbn.
    + intros k ->%list_elem_of_singleton. rewrite lookup_update_rows. destruct Hkey as [d ->]. by eexists.
    + intros k Hk. rewrite lookup_update_rows. destruct (dispositions db !! k) as [d|]; [|done]. cbn.
      destruct (p k d) eqn:E; [|done]. destruct (Hk key); [by left|by eapply Hp].
Qed.

Lemma wp_consume_row now row db l :
  ResultInv db → sourced db row → dispositions db !! (tenant, p_idempotencyKey row) = None →
  wp (consume_row sha256 tenant policy now row)
    (λ _ t, ResultInv (tables t) ∧ decides [p_idempotencyKey row] db (tables t)) (λ _ _, True) (tx db l).
Proof.
  intros H Hrow Hd. set (key := p_idempotencyKey row) in *.
  apply wp_bind, wp_check_signal; [|done]. cbn [tables]. intros l0. cbv zeta. clear l.
  destruct Hrow as (i & j & Hi & Hj & Erow). assert (is_Some (inbox db !! (tenant, key))) as Hi' by by eexists.
  assert (∀ outcome l, status_of outcome ≠ s_applied →
    wp (recorded ← record tenant key (p_jobId row) (p_resultHash row) outcome; mret (status recorded))
      (λ _ t, ResultInv (tables t) ∧ decides [key] db (tables t)) (λ _ _, True) (tx db l)) as Hplain.
  { intros outcome l' Hs. apply wp_bind, wp_disposition; [done|]. apply wp_ret. cbn [tables].
    split; [by apply recorded_inv|by apply recorded_decides]. }
  destruct (decodePendingPayload row) as [[job result]|] eqn:Hdec; [|].
  - assert (r_idempotencyKey result = key) as Hk by (eapply decoded_key; [done| |done]; by exists i, j).
    apply wp_bind. apply wp_decide.
    + intros code l'. by apply (Hplain (rejected code) l').
    + intros eff l' He. rewrite Hk in He. apply (ri_ledger _ H) in He. by rewrite Hd in He.
    + intros l' Hv. apply wp_bind, wp_disposition; [done|]. cbn [inserted status status_of andb]. rewrite bool_decide_true by done.
      set (db1 := recorded_db _ _ _ _ _). assert (ResultInv db1) as H1 by by apply recorded_inv.
      assert (decides [key] db db1) as D1 by by apply recorded_decides.
      apply wp_bind, wp_bind, wp_bind, wp_select, wp_bind, wp_check_signal; [|done]. cbn [tables signal]. intros l2.
      destruct (case_version tenant db1 (aggregateRef job)) as [version|].
      * apply wp_bind, wp_write, wp_ret, wp_write, wp_ret. cbn [tables signal].
        match goal with |- ResultInv ?d ∧ _ => set (db2 := d) end.
        assert (ResultInv db2 ∧ decides [key] db1 db2) as [H2 D2].
        { apply (followed_up db1 key _ _ (_, _)); [done|apply (dc_decided _ _ _ D1); by left|done|]. cbn. intros k d Hp. by to_prop. }
        split; [done|]. pose proof (decides_app _ _ _ _ _ D1 D2) as D. split; try apply D.
        -- intros k ->%list_elem_of_singleton. apply (dc_decided _ _ _ D). by left.
        -- intros k Hk'. apply (dc_others _ _ _ D). intros key' [-> | ->%list_elem_of_singleton]%elem_of_cons; apply Hk'; by left.
      * apply wp_ret, wp_ret, wp_ret. by cbn [tables].
    + intros eff db' l' Hp Hled Hv Hex. rewrite Hk.
      assert (dispositions db' !! (tenant, key) = None) as Hd' by (by rewrite (sq_dispositions _ _ (ex_queue _ _ _ _ _ Hex))).
      rewrite Erow in Hdec.
      destruct (applied_inv db db' tenant key i j job result eff (p_resultHash row) H Hi Hj Hd Hdec Hk Hp Hv Hex) as [H' Hg].
      apply wp_bind, wp_disposition; [done|]. apply wp_ret. cbn [tables].
      assert (p_jobId row = i_job_id i) as -> by (by rewrite Erow). split; [done|].
      destruct (ex_queue _ _ _ _ _ Hex) as [Qj Ql Qi Qa Qd Qat Qe Qw].
      destruct (ex_case _ _ _ _ _ Hex) as (row0 & row1 & _ & _ & _ & _ & _ & Hcases & _).
      split; [done|cbn; congruence..| | |].
      * intros k ->%list_elem_of_singleton. cbn. rewrite lookup_insert_eq. by eexists.
      * intros k Hk'. cbn. rewrite lookup_insert_ne; [congruence|]. intros <-. apply (Hk' key); [by left|done].
      * intros k Hk'. cbn. rewrite Hcases, lookup_insert_ne; [done|]. by intros <-.
  - apply wp_bind, wp_ret. by apply Hplain.
Qed.

(** ** The rows of a batch *)
Lemma pendingResult_Some db k i row :
  pendingResult tenant db k i = Some row →
  k.1 = tenant ∧ dispositions db !! k = None ∧ ∃ j, jobs db !! (tenant, i_job_id i) = Some j ∧ row = row_of k.2 i j.
Proof.
  unfold pendingResult. intros H. apply bind_Some in H as (j & Hj & H). apply bind_Some in H as (l & _ & H).
  destruct (_ && _) eqn:E; [|done]. to_prop. injection H as <-. split; [by apply String.eqb_eq|]. split; [done|]. by exists j.
Qed.
Lemma pending_row db row :
  row ∈ pendingResultQuery tenant db → sourced db row ∧ dispositions db !! (tenant, p_idempotencyKey row) = None.
Proof.
  unfold pendingResultQuery. intros ([k i] & Hin%elem_of_map_to_list & Hp)%list_elem_of_omap. cbn in Hp.
  apply pendingResult_Some in Hp as (Hk & Hd & j & Hj & ->). destruct k as [t k]. cbn in *. subst t. split; [|done]. by exists i, j.
Qed.
(** An appended result that was not decided is pending. *)
Lemma row_pending db k i :
  QueueInv db → inbox db !! (tenant, k) = Some i → dispositions db !! (tenant, k) = None →
  ∃ row, row ∈ pendingResultQuery tenant db ∧ p_idempotencyKey row = k.
Proof.
  intros H Hi Hd. destruct (q_inbox _ H _ _ _ Hi) as (j & l & r & Hj & Hb & Hl & Hm & _).
  exists (row_of k i j). split; [|done]. apply list_elem_of_omap. exists ((tenant, k), i).
  split; [by apply elem_of_map_to_list|]. unfold pendingResult. cbn. rewrite Hj. cbn. rewrite Hl. cbn.
  by rewrite Hm, Hd, Hb, String.eqb_refl, Z.eqb_refl.
Qed.
Lemma pending_keys db : NoDup (p_idempotencyKey <$> pendingResultQuery tenant db).
Proof.
  unfold pendingResultQuery. pose proof (NoDup_fst_map_to_list (inbox db)) as Hnd. revert Hnd.
  induction (map_to_list (inbox db)) as [|[k i] l IH]; intros Hnd; [constructor|]. cbn in Hnd. apply NoDup_cons in Hnd as [Hk Hnd].
  cbn. destruct (pendingResult tenant db k i) as [row|] eqn:E; [|by apply IH]. cbn. constructor; [|by apply IH].
  apply pendingResult_Some in E as (Et & _ & j & _ & ->). intros (row' & Ek & Hin)%list_elem_of_fmap.
  apply list_elem_of_omap in Hin as ([k' i'] & Hin & E'). cbn in E'. apply pendingResult_Some in E' as (Et' & _ & j' & _ & ->).
  destruct Hk. apply list_elem_of_fmap. exists (k', i'). split; [|done]. destruct k, k'. cbn in *. congruence.
Qed.
Lemma batch_rows db n rows :
  a_batch tenant db n rows → NoDup (p_idempotencyKey <$> rows) ∧ ∀ row, row ∈ rows → row ∈ pendingResultQuery tenant db.
Proof.
  intros (all & Hall & _ & ->). split.
  - rewrite fmap_take. pose proof (pending_keys db) as Hnd. rewrite <- Hall in Hnd.
    eapply sublist_NoDup; [exact Hnd|]. apply sublist_take.
  - intros row Hin. rewrite <- Hall. eapply elem_of_sublist; [exact Hin|apply sublist_take].
Qed.

(** ** The whole batch *)
Lemma wp_consume_rows now rows db l :
  ResultInv db → NoDup (p_idempotencyKey <$> rows) →
  (∀ row, row ∈ rows → sourced db row ∧ dispositions db !! (tenant, p_idempotencyKey row) = None) →
  wp (consume_rows sha256 tenant policy now rows)
    (λ s t, ResultInv (tables t) ∧ decides (p_idempotencyKey <$> rows) db (tables t) ∧ length s = length rows)
    (λ _ _, True) (tx db l).
Proof.
  revert db l. induction rows as [|row rows IH]; intros db l H Hnd Hrows; cbn [consume_rows fmap list_fmap].
  - apply wp_ret. split_and!; [done| |done]. split; try done. set_solver.
  - apply NoDup_cons in Hnd as [Hnew Hnd]. apply wp_bind. destruct (Hrows row) as [Hs Hd]; [by left|].
    eapply wp_mono; [by apply wp_consume_row| |done]. intros s [db1 l1] [H1 D1]. cbn [tables] in *. apply wp_bind.
    eapply wp_mono; [apply IH; [done|done|]| |done].
    + intros row' Hin. destruct (Hrows row') as [(i & j & Hi & Hj & E) Hd']; [by right|]. split.
      * exists i, j. rewrite (dc_inbox _ _ _ D1). split_and!; [done| |done]. eapply lookup_weaken; [done|apply D1].
      * rewrite (dc_others _ _ _ D1); [done|]. intros key ->%list_elem_of_singleton [= E']. destruct Hnew. rewrite <- E'.
        by apply list_elem_of_fmap_2.
    + intros ss [db2 l2] (H2 & D2 & Hlen). cbn [tables] in *. apply wp_ret. cbn [tables]. split_and!; [done| |cbn; by rewrite Hlen].
      by eapply (decides_app [_]).
Qed.
Lemma wp_consumeForTenant batch now rows db l :
  ResultInv db → a_batch tenant db batch rows →
  wp (consumeForTenant sha256 tenant policy batch now rows)
    (λ s t, ResultInv (tables t) ∧ decides (p_idempotencyKey <$> rows) db (tables t) ∧
            length (processed s) = length rows ∧ (hasMore s = false ↔ pendingResultQuery tenant (tables t) = []))
    (λ _ t, tables t = db) (tx db l).
Proof.
  intros H Hb. unfold consumeForTenant. apply wp_bind, wp_check_signal; [|done]. cbn [tables]. intros l'.
  apply wp_bind, wp_throw_if; intros _; [done|]. apply wp_bind, wp_throw_if; intros _; [done|].
  apply wp_transaction, wp_bind. destruct (batch_rows _ _ _ Hb) as [Hnd Hrows].
  eapply (wp_mono _ _ _ (λ _ _, True)); [apply wp_consume_rows; [done|done|]| |done].
  - intros row Hin. by apply pending_row, Hrows.
  - intros s [db' l2] (H' & D & Hlen). cbn [tables] in *. apply wp_bind, wp_select, wp_ret. cbn [tables processed hasMore].
    split_and!; [done..|]. by destruct (pendingResultQuery tenant db').
Qed.
End batch.

(** ** Every call keeps the invariant *)
Definition kept_by (db db' : Db) : Prop := ResultInv db' ∧ grows db db'.
(** The functions of the queue leave the aggregates and the decisions alone. *)
Record queue_only (db db' : Db) : Prop := {
  qo_jobs : jobs db' = jobs db;
  qo_inbox : inbox db ⊆ inbox db';
  qo_applied : applied_results db' = applied_results db;
  qo_dispositions : dispositions db' = dispositions db;
  qo_cases : cases db' = cases db;
  qo_attempts : case_attempts db' = case_attempts db;
  qo_episodes : episodes db' = episodes db;
}.
Lemma queue_only_refl db : queue_only db db.
Proof. by split. Qed.
Lemma queue_only_kept db db' : ResultInv db → QueueInv db' → queue_only db db' → kept_by db db'.
Proof.
  intros H Hq [Qj Qi Qa Qd Qc Qt Qe]. assert (grows db db') as Hg.
  { split; rewrite ?Qj, ?Qt, ?Qe, ?Qc; try done. intros k r Hr. exists r. by split_and!. }
  split; [|done]. eapply inv_frame; try done. intros k. by rewrite Qd.
Qed.
Lemma wakeups_queue db f : QueueInv db → QueueInv (set_wakeups f db).
Proof. intros H. by eapply queue_frame. Qed.

Lemma claim_only types worker hash duration now locked db :
  queue_only db (worker_claim_intelligence_lease types worker hash duration now locked db).2.
Proof. unfold worker_claim_intelligence_lease. by destruct (claim_candidates _ _ _ _) as [|[k j] l]. Qed.
Lemma renew_only job worker hash duration now db :
  queue_only db (worker_renew_intelligence_lease job worker hash duration now db).2.
Proof. unfold worker_renew_intelligence_lease. by destruct (List.filter _ _) as [|[k l] [|]]. Qed.
Lemma abandon_only tenant job worker attempt hash now db :
  queue_only db (worker_abandon_intelligence_lease tenant job worker attempt hash now db).2.
Proof. unfold worker_abandon_intelligence_lease. destruct (leases db !! _); [|done]. by destruct (_ && _). Qed.
Lemma append_only tenant job worker attempt hash base key rhash r now db :
  queue_only db (worker_append_intelligence_result tenant job worker attempt hash base key rhash r now db).2.
Proof.
  unfold worker_append_intelligence_result. destruct (inbox db !! (tenant, key)) eqn:Hi; [done|].
  destruct (jobs db !! _); [|done]. destruct (negb _); [done|]. destruct (leases db !! _); [|done].
  do 4 (destruct (negb _) || destruct (_ <=? _)%Z; [done|]). cbn [snd]. split; try done. cbn. by apply insert_subseteq.
Qed.

Lemma wp_call {A} (f : Db → A * Db) (Q : A → Db → Prop) (R : QueueThrow → Db → Prop) db : Q (f db).1 (f db).2 → wp (call f) Q R db.
Proof. unfold wp, call. by destruct (f db). Qed.
Lemma wp_guarded {A} guard (op : js Db QueueThrow A) Q (R : QueueThrow → Db → Prop) db :
  R OtherError db → wp op Q (λ e _, R e db) db → wp (guarded guard op) Q R db.
Proof. intros HR Hop. apply wp_transaction, wp_bind, wp_throw_if; by intros _. Qed.
Lemma wp_left {A} (m : js Db QueueThrow A) (P : Db → Prop) db : wp m (λ _, P) (λ _, P) db → P (exec m db).
Proof. unfold wp, exec. by destruct (m db) as [[a|e] db']. Qed.

Lemma kept_refl db : ResultInv db → kept_by db db.
Proof. by split. Qed.
Lemma worker_kept a guard now db : ResultInv db → kept_by db (worker_step sha256 hashResult a guard now db).
Proof.
  intros H. pose proof (kept_refl db H) as Hr. pose proof (ri_queue _ H) as Hq. destruct a as [input token locked|input|input|input]; cbn.
  - apply wp_left, wp_bind, wp_guarded; [done|]. apply wp_bind, wp_call.
    set (r := worker_claim_intelligence_lease _ _ _ _ _ _ _). assert (kept_by db r.2) as Hk
      by (apply queue_only_kept; [done|by apply claim_inv|apply claim_only]).
    destruct r.1 as [c|]; [|by apply wp_ret, wp_ret]. destruct (cl_job_json c) as [v|]; [|by apply wp_throw].
    apply wp_ret, wp_bind. by destruct v.
  - apply wp_left, wp_guarded; [done|]. apply wp_bind, wp_call.
    set (r := worker_renew_intelligence_lease _ _ _ _ _ _). assert (kept_by db r.2) as Hk
      by (apply queue_only_kept; [done|by apply renew_inv|apply renew_only]).
    by destruct r.1.
  - apply wp_left, wp_bind, wp_throw_if; intros _; [done|]. apply wp_guarded; [done|].
    destruct (text _) as [key|] eqn:Hkey; [|by apply wp_throw]. apply wp_bind, wp_call.
    set (r := worker_append_intelligence_result _ _ _ _ _ _ _ _ _ _ _). assert (kept_by db r.2) as Hk
      by (apply queue_only_kept; [done|by apply append_inv|apply append_only]).
    by destruct r.1.
  - apply wp_left, wp_guarded; [done|]. apply wp_call.
    apply queue_only_kept; [done|by apply abandon_inv|apply abandon_only].
Qed.
Lemma wakeup_kept db f : ResultInv db → kept_by db (set_wakeups f db).
Proof. intros H. apply queue_only_kept; [done|by apply wakeups_queue, ri_queue|by split]. Qed.
Lemma claim_wakeups_kept guard consumer duration batch now locked db :
  ResultInv db → kept_by db (exec (claimDueTenants guard consumer duration batch now locked) db).
Proof.
  intros H. apply wp_left. do 3 (apply wp_bind, wp_throw_if; intros _; [by apply kept_refl|]).
  apply wp_guarded; [by apply kept_refl|]. apply wp_call. by apply wakeup_kept.
Qed.
Lemma complete_kept guard claim now db : ResultInv db → kept_by db (exec (complete guard claim now) db).
Proof.
  intros H. apply wp_left. do 2 (apply wp_bind, wp_throw_if; intros _; [by apply kept_refl|]).
  apply wp_guarded; [by apply kept_refl|]. apply wp_call. unfold server_complete_intelligence_result_wakeup.
  destruct (wakeups db !! _); [|by apply kept_refl]. destruct (held_by _ _ _); [by apply wakeup_kept|by apply kept_refl].
Qed.
Lemma retry_kept guard claim after now db : ResultInv db → kept_by db (exec (retry guard claim after now) db).
Proof.
  intros H. apply wp_left. do 3 (apply wp_bind, wp_throw_if; intros _; [by apply kept_refl|]).
  apply wp_guarded; [by apply kept_refl|]. apply wp_call. unfold server_retry_intelligence_result_wakeup.
  destruct (wakeups db !! _); [|by apply kept_refl]. destruct (held_by _ _ _); [by apply wakeup_kept|by apply kept_refl].
Qed.
Lemma consume_kept tenant batch now rows db l :
  ResultInv db → a_batch tenant db batch rows →
  kept_by db (tables (exec (consumeForTenant sha256 tenant policy batch now rows) {| tables := db; signal := l |})).
Proof.
  intros H Hb. pose proof (wp_consumeForTenant tenant batch now rows db l H Hb) as Hwp. unfold wp, exec in *.
  destruct (consumeForTenant _ _ _ _ _ _ _) as [[s|e] [db' l']]; cbn in *.
  - destruct Hwp as (H' & D & _). split; [done|apply D].
  - subst db'. by apply kept_refl.
Qed.

Lemma answers_kept B (e : Call B) db b db' :
  ResultInv db → answers sha256 hashResult policy B e db b db' → kept_by db db'.
Proof.
  intros H Ha. destruct Ha as [consumer duration batch guard now locked db b _|tenant batch now rows sig db b Hb _|claim guard now db b _|
    claim after guard now db b _|db b|a guard now db|db db' Ho].
  - by apply claim_wakeups_kept.
  - by apply consume_kept.
  - by apply complete_kept.
  - by apply retry_kept.
  - by apply kept_refl.
  - by apply worker_kept.
  - destruct Ho as [Oj Ol Oi Oa Od Oc Ot Oe Ow]. assert (grows db db') as Hg.
    { split; [done|by rewrite Oi|done|done|]. intros k r Hr. destruct (Oc _ _ Hr) as (r' & ? & ? & ?). by exists r'. }
    split; [|done]. eapply inv_frame; [done| |done|done|]; [by eapply queue_frame; [apply H|..]|]. intros k. by rewrite Od.
Qed.

(** ** What every reachable state has *)
Notation runs := (runs sha256 hashResult policy).
Lemma empty_result_inv : ResultInv empty_db.
Proof. split; [split|..]; cbn; intros *; try done. Qed.
Lemma runs_inv st : rtc runs nothing_yet st → ResultInv (shared st).
Proof.
  intros Hr. apply (rtc_invariant runs (λ st, ResultInv (shared st)) nothing_yet); [apply empty_result_inv| |done].
  clear st Hr. intros st st' H Hs. destruct Hs as [p s l Hp|B i e k h s s' l Hi []|B i e k h b s s' l Hi Ha]; cbn in *; [done|].
  by destruct (answers_kept _ _ _ _ _ H Ha).
Qed.

(** C21: Whatever loops, workers and others do to the tables, in any order and with
    any of them stopping anywhere: a result that is recorded as applied was appended
    under a lease that its worker held, it is the only one that made its version of
    its aggregate, the gate let it through (its envelope fits its job, it succeeded
    within the job's budget, cites only the job's inputs and passes the policy), its
    aggregate had exactly the version it was made for, and where it confirmed a bug an
    attempt of that case had reproduced the finding and its confidence reached the
    threshold. *)
Theorem applied_results_justified st t k d :
  rtc runs nothing_yet st → dispositions (shared st) !! (t, k) = Some d → d_status d = s_applied →
  ∃ eff i l, d_effect d = Some eff ∧ justified (shared st) t k eff ∧
    inbox (shared st) !! (t, k) = Some i ∧ leases (shared st) !! ((t, i_job_id i), lease_attempt i) = Some l ∧
    matching_lease i l = true ∧
    ∀ k' d' eff', dispositions (shared st) !! (t, k') = Some d' → d_status d' = s_applied → d_effect d' = Some eff' →
      aggregateId eff' = aggregateId eff → newVersion eff' = newVersion eff → k' = k.
Proof.
  intros H%runs_inv Hd Hs. destruct (ri_status _ H _ _ Hd Hs) as [eff He].
  assert (∀ k d eff, dispositions (shared st) !! (t, k) = Some d → d_status d = s_applied → d_effect d = Some eff →
    applied_results (shared st) !! (t, k) = Some eff) as Hled.
  { intros k0 d0 eff0 H0 S0 E0. apply (ri_ledger _ H). rewrite H0. unfold decision. cbn. by rewrite S0, E0. }
  destruct (ri_inbox _ H _ _ Hd) as [i Hi]. destruct (q_inbox _ (ri_queue _ H) _ _ _ Hi) as (j & l & r & _ & _ & Hl & Hm & _).
  exists eff, i, l. split_and!; [done|by eapply (ri_justified _ H), Hled|done..|].
  intros k' d' eff' Hd' Hs' He'. eapply (ri_once _ H); by eapply Hled.
Qed.

(** C22: A job has one live lease and one accepted result at most, and none of its
    leases is live once a result is accepted, whatever its workers call. *)
Theorem one_result_per_job st t k i :
  rtc runs nothing_yet st → inbox (shared st) !! (t, k) = Some i →
  (∀ k' i', inbox (shared st) !! (t, k') = Some i' → i_job_id i' = i_job_id i → k' = k) ∧
  (∀ n l, leases (shared st) !! ((t, i_job_id i), n) = Some l → is_live l = false) ∧
  (∀ job n1 n2 l1 l2, leases (shared st) !! ((t, job), n1) = Some l1 → leases (shared st) !! ((t, job), n2) = Some l2 →
     is_live l1 = true → is_live l2 = true → n1 = n2).
Proof.
  intros H%runs_inv%ri_queue Hi. split_and!.
  - intros k' i' Hi' E. by eapply (q_once _ H).
  - intros n l Hl. by eapply (q_done _ H).
  - intros job n1 n2 l1 l2. apply (q_live _ H).
Qed.
End properties.
End ResultProperties.
