(* ===== verification/WakeupSafety.v ===== *)
(** * No appended result is forgotten

    The wakeup of a tenant with a pending result stays pending, whatever loops,
    workers and others do, and a claim takes the tenant or a full batch of others
    that became available no later.  A loop completes
    a wakeup only after a batch that left nothing, and a result that was appended
    since then has raised the generation. *)
From S2P Require Import Prelude Number Json Investigation Intelligence IntelligenceQueue ResultConsumer ResultLoop Interact.
From S2P Require Import QueueSafety ResultSafety ResultProperties.
From stdpp Require Import sorting.
From Stdlib Require Import Ascii.

Module WakeupSafety.
Import Intelligence IntelligenceQueue ResultConsumer ResultLoop QueueSafety ResultSafety ResultProperties.

(** ** What a loop has seen *)
Definition knows (h : list Note) (c : IntelligenceResultWakeupClaim) : Prop :=
  ∃ claims, n_claimed claims ∈ h ∧ c ∈ claims.
(** The tenant of [c] had nothing left after [c] was claimed. *)
Definition cleared (h : list Note) (c : IntelligenceResultWakeupClaim) : Prop :=
  ∃ h1 h2, h = h1 ++ n_cleared (w_tenantId c) :: h2 ∧ knows h2 c.
Lemma knows_cons n h c : knows h c → knows (n :: h) c.
Proof. intros (claims & Hin & Hc). exists claims. split; [by right|done]. Qed.
Lemma cleared_cons n h c : cleared h c → cleared (n :: h) c.
Proof. intros (h1 & h2 & -> & Hk). by exists (n :: h1), h2. Qed.

(** A wakeup is completed only when its tenant was cleared. *)
Definition allowed (B : Type) (h : list Note) (e : Call B) : Prop :=
  match e with CompleteWakeup c => cleared h c | _ => True end.
Definition any_answer (B : Type) (e : Call B) (b : B) : Prop := True.
Notation tri := (tri note any_answer allowed).

(** The rule for a piece of a loop. *)
Definition tril {A} (m : L A) (Q : outcome LoopError A → list Note → Prop) (h : list Note) : Prop :=
  ∀ s, tri (m s) (λ o h', match o with Ok (o', _) => Q o' h' | Throw _ => True end) h.
Lemma tril_ret {A} (a : A) Q h : Q (Ok a) h → tril (mret a) Q h.
Proof. intros H s. exact H. Qed.
Lemma tril_bind {A B} (m : L A) (k : A → L B) Q h :
  tril m (λ o h', match o with Ok a => tril (k a) Q h' | Throw e => Q (Throw e) h' end) h → tril (m ≫= k) Q h.
Proof.
  intros H s. apply tri_bind. eapply tri_mono; [apply H|]. intros [[o s']|x] h' Ho; [|done]. destruct o as [a|e]; [apply Ho|exact Ho].
Qed.
Lemma tril_catch {A} (m : L A) (k : LoopError → L A) Q h :
  tril m (λ o h', match o with Ok a => Q (Ok a) h' | Throw e => tril (k e) Q h' end) h → tril (l_catch m k) Q h.
Proof.
  intros H s. apply tri_bind. eapply tri_mono; [apply H|]. intros [[o s']|x] h' Ho; [|done]. destruct o as [a|e]; [exact Ho|apply Ho].
Qed.
Lemma tril_gets {A} (f : Loop → A) Q h : (∀ a, Q (Ok a) h) → tril (l_gets f) Q h.
Proof. intros H s. apply H. Qed.
Lemma tril_modify f Q h : Q (Ok tt) h → tril (l_modify f) Q h.
Proof. intros H s. exact H. Qed.
Lemma tril_call {A} (e : Call (outcome LoopError A)) Q h :
  allowed _ h e → (∀ b, Q b (note _ e b :: h)) → tril (l_call e) Q h.
Proof. intros Ha H s. cbn. split; [done|]. intros b _. apply H. Qed.
Lemma tril_signal Q h : (∀ b, Q (Ok b) (n_other :: h)) → tril isAborted Q h.
Proof. intros H s. cbn. split; [done|]. intros b _. apply H. Qed.
Lemma tril_mono {A} (m : L A) Q Q' h : tril m Q h → (∀ o h', Q o h' → Q' o h') → tril m Q' h.
Proof. intros H HQ s. eapply tri_mono; [apply H|]. intros [[o s']|x] h'; [apply HQ|done]. Qed.

Section cycle.
Context (o : Options).
(** A piece that keeps what is known of [claims]. *)
Definition all_known (claims : list IntelligenceResultWakeupClaim) (h : list Note) : Prop := ∀ c, c ∈ claims → knows h c.
Lemma all_known_cons n claims h : all_known claims h → all_known claims (n :: h).
Proof. intros H c Hc. by apply knows_cons, H. Qed.
Hint Resolve all_known_cons : core.

Lemma tril_retry c after known h :
  all_known known h → tril (retryClaim c after) (λ _ h', all_known known h') h.
Proof. intros H. apply tril_bind, tril_call; [done|]. intros [d|e]; [|by auto]. apply tril_modify. auto. Qed.

Lemma tril_consumed c summary known h :
  all_known known h → (hasMore summary = false → cleared h c) →
  tril (consumed_claim o c summary) (λ _ h', all_known known h') h.
Proof.
  intros H Hc. apply tril_bind, tril_modify, tril_bind, tril_modify, tril_bind, tril_signal. intros b.
  assert (∀ after v, tril (_ ← retryClaim c after; mret v : L bool) (λ _ h', all_known known h') (n_other :: h)) as Hr.
  { intros after v. apply tril_bind. eapply tril_mono; [apply (tril_retry _ _ known); auto|]. intros [?|?] h' ?; [by apply tril_ret|done]. }
  destruct b; [apply Hr|]. destruct (hasMore summary || _) eqn:E; [apply tril_bind, tril_gets; intros ?; apply Hr|].
  apply tril_bind, tril_call.
  - cbn. apply cleared_cons, Hc. by apply orb_false_iff in E as [-> _].
  - intros [d|e]; [|by auto]. apply tril_bind, tril_modify, tril_ret. auto.
Qed.
Lemma tril_consumeClaim c known h :
  all_known known h → c ∈ known → tril (consumeClaim o c) (λ _ h', all_known known h') h.
Proof.
  intros H Hc. apply tril_catch, tril_bind, tril_call; [done|].
  assert (∀ e h, all_known known h → tril ((λ e : LoopError,
      stopped ← isAborted;
      let aborted := (stopped : bool) || match e with abort_error => true | other_error => false end in
      _ ← l_modify (if aborted then id else set_error true);
      backoff ← l_gets (currentBackoffMs o);
      _ ← retryClaim c (if aborted then 0%Z else backoff);
      _ ← l_modify (if aborted then id else set_failures (Z.add 1));
      mret false : L bool) e) (λ _ h', all_known known h') h) as Hcatch.
  { clear h H. intros e h H. apply tril_bind, tril_signal. intros b. cbv zeta. apply tril_bind, tril_modify, tril_bind, tril_gets. intros a.
    apply tril_bind. eapply tril_mono; [apply (tril_retry _ _ known); auto|]. intros [?|?] h' ?; [|done].
    by apply tril_bind, tril_modify, tril_ret. }
  intros [summary|e]; [|apply Hcatch; auto].
  eapply tril_mono; [apply (tril_consumed _ _ known)|].
  - auto.
  - intros Hm. exists [], h. cbn. rewrite Hm. split; [done|by apply H].
  - intros [b|e] h' Hk; [done|by apply Hcatch].
Qed.
Lemma tril_claims failed claims known h :
  all_known known h → (∀ c, c ∈ claims → c ∈ known) → tril (consume_claims o failed claims) (λ _ _, True) h.
Proof.
  revert failed h. induction claims as [|c claims IH]; intros failed h H Hin; [done|]. cbn [consume_claims].
  apply tril_bind, tril_modify, tril_bind, tril_signal. intros b. assert (∀ c, c ∈ claims → c ∈ known) as Hin' by (intros; apply Hin; by right).
  destruct b; apply tril_bind.
  - eapply tril_mono; [apply (tril_retry _ _ known); auto|]. intros [?|?] h' ?; [by apply IH|done].
  - eapply tril_mono; [apply (tril_consumeClaim _ known); [auto|apply Hin; by left]|]. intros [?|?] h' ?; [by apply IH|done].
Qed.
Lemma tril_scheduled_run h : tril (scheduled_run o) (λ _ _, True) h.
Proof.
  apply tril_catch, tril_bind, tril_bind, tril_modify, tril_bind, tril_signal. intros b.
  assert (∀ e h, tril ((λ _ : LoopError, _ ← l_modify (set_error true); _ ← l_modify (set_failures (Z.add 1)); l_gets (currentBackoffMs o)) e)
    (λ _ _, True) h) as Hcatch by done.
  destruct b; [done|]. apply tril_bind, tril_call; [done|]. intros [claims|e]; [|done].
  apply tril_bind. eapply tril_mono; [apply (tril_claims _ _ claims)|].
  - intros c Hc. exists claims. split; [by left|done].
  - done.
  - intros [failed|e] h' _; [|done]. apply tril_bind, tril_signal. intros b. apply tril_bind, tril_modify, tril_gets. done.
Qed.
End cycle.

Lemma startable_tri p : startable p → tri p (λ _ _, True) [].
Proof.
  intros [o s|a|]; [|done..]. apply tri_bind. eapply tri_mono; [apply (tril_scheduled_run o [] s)|].
  intros [[oo s']|x] h' _; done.
Qed.

(** ** The tables *)
Definition gen (db : Db) (t : string) : Z := match wakeups db !! t with Some w => generation w | None => 0 end.
(** Every appended result of the tenant is decided. *)
Definition settled (db : Db) (t : string) : Prop :=
  ∀ k, is_Some (inbox db !! (t, k)) → is_Some (dispositions db !! (t, k)).
Lemma settled_pending db t : QueueInv db → settled db t ↔ pendingResultQuery t db = [].
Proof.
  intros H. split.
  - intros Hs. destruct (pendingResultQuery t db) as [|row l] eqn:E; [done|].
    destruct (pending_row t db row) as [(i & j & Hi & _) Hd]; [rewrite E; by left|].
    destruct (Hs (p_idempotencyKey row)) as [d Hd']; [by eexists|congruence].
  - intros Hp k [i Hi]. destruct (dispositions db !! (t, k)) eqn:Hd; [done|].
    destruct (row_pending t db k i H Hi Hd) as (row & Hin & _). rewrite Hp in Hin. by apply not_elem_of_nil in Hin.
Qed.

(** How a step treats the wakeups: the generation of a tenant never falls, and it
    rises when a result is appended to a tenant that was settled. *)
Record tended (db db' : Db) : Prop := {
  td_gen t : (gen db t <= gen db' t)%Z;
  td_settled t : settled db t → settled db' t ∨ (gen db t < gen db' t)%Z;
}.
Lemma tended_same db db' :
  inbox db' = inbox db → dispositions db' = dispositions db → (∀ t, gen db t <= gen db' t)%Z → tended db db'.
Proof. intros Hi Hd Hg. split; [done|]. intros t Hs. left. unfold settled. by rewrite Hi, Hd. Qed.
Lemma tended_refl db : tended db db.
Proof. split; [done|by left]. Qed.

(** A tenant that is not settled has a pending wakeup, and a lease on a wakeup ends. *)
Record awake (db : Db) : Prop := {
  aw_pending t : settled db t ∨ ∃ w, wakeups db !! t = Some w ∧ pending w = true;
  aw_lease t w : wakeups db !! t = Some w → is_Some (lease_owner w) → is_Some (w_lease_expires_at w);
}.
Lemma awake_frame db db' :
  awake db → wakeups db' = wakeups db → (∀ t, settled db t → settled db' t) → awake db'.
Proof.
  intros [Hp Hl] Hw Hs. split; rewrite Hw; [|done]. intros t. destruct (Hp t) as [H|H]; [left; by apply Hs|by right].
Qed.
Lemma gen_frame db db' : wakeups db' = wakeups db → ∀ t, gen db' t = gen db t.
Proof. intros H t. unfold gen. by rewrite H. Qed.

Section tables.
Context (sha256 : string → string) (hashResult : json → string)
        (policy : option (IntelligenceJob → IntelligenceResult → bool)).
Notation answers := (answers sha256 hashResult policy).

(** One wakeup row is replaced. *)
Lemma wakeup_step db t w w' (db' := set_wakeups (<[t := w']>) db) :
  awake db → wakeups db !! t = Some w → (generation w <= generation w')%Z →
  (pending w' = true ∨ settled db t) → (is_Some (lease_owner w') → is_Some (w_lease_expires_at w')) →
  awake db' ∧ tended db db'.
Proof.
  intros [Hp Hl] Hw Hg Hs He. split; [split|apply tended_same; [done..|]]; cbn.
  - intros t'. destruct (decide (t' = t)) as [-> |]; [rewrite lookup_insert_eq|rewrite lookup_insert_ne by done; apply Hp].
    destruct Hs; [right; by exists w'|by left].
  - intros t' w0. destruct (decide (t' = t)) as [-> |]; [rewrite lookup_insert_eq; by intros [= <-]|rewrite lookup_insert_ne by done; apply Hl].
  - intros t'. unfold gen. cbn. destruct (decide (t' = t)) as [-> |]; [by rewrite lookup_insert_eq, Hw|by rewrite lookup_insert_ne].
Qed.
(** The wakeups that are claimed stay pending. *)
Lemma claim_step db p consumer duration now (db' := set_wakeups (update_rows p (claim_wakeup consumer duration now)) db) :
  awake db → awake db' ∧ tended db db' ∧ ∀ t, gen db' t = gen db t.
Proof.
  intros [Hp Hl]. assert (∀ t, gen db' t = gen db t) as Hg.
  { intros t. unfold gen. cbn. rewrite lookup_update_rows. destruct (wakeups db !! t) as [w|]; [|done]. cbn. by destruct (p t w). }
  split_and!; [split|apply tended_same; [done..|]|done]; cbn.
  - intros t. destruct (Hp t) as [H|(w & Hw & Hpend)]; [by left|right]. rewrite lookup_update_rows, Hw. cbn.
    eexists. split; [done|]. by destruct (p t w).
  - intros t w. rewrite lookup_update_rows. intros (w0 & Hw0 & ->)%fmap_Some. destruct (p t w0); [by eexists|by apply (Hl t)].
  - intros t. by rewrite Hg.
Qed.

Definition kept_awake (db db' : Db) : Prop := awake db' ∧ tended db db'.
Lemma kept_awake_refl db : awake db → kept_awake db db.
Proof. split; [done|apply tended_refl]. Qed.
Lemma leases_awake db f : awake db → kept_awake db (set_leases f db).
Proof. intros H. split; [by eapply awake_frame|apply tended_same; try done]. Qed.

Lemma append_awake tenant job worker attempt hash base key rhash r now db :
  awake db → kept_awake db (worker_append_intelligence_result tenant job worker attempt hash base key rhash r now db).2.
Proof.
  intros H. pose proof (kept_awake_refl db H) as Hr. unfold worker_append_intelligence_result.
  destruct (inbox db !! (tenant, key)); [done|]. destruct (jobs db !! _); [|done]. destruct (negb _); [done|].
  destruct (leases db !! _) as [l|]; [|done]. do 4 (destruct (negb _) || destruct (_ <=? _)%Z; [done|]). cbn [snd].
  match goal with |- kept_awake _ ?d => set (db' := d) end.
  assert (∀ t, t ≠ tenant → settled db t → settled db' t) as Hs.
  { intros t Hne Hs k. cbn. rewrite lookup_insert_ne by congruence. apply Hs. }
  assert (gen db tenant < gen db' tenant)%Z as Hg.
  { unfold gen. cbn. unfold signal_wakeup. rewrite lookup_insert_eq. destruct (wakeups db !! tenant); cbn; lia. }
  assert (∀ t, t ≠ tenant → gen db' t = gen db t) as Hg'.
  { intros t Hne. unfold gen. cbn. unfold signal_wakeup. by rewrite lookup_insert_ne. }
  split; [split|split].
  - intros t. destruct (decide (t = tenant)) as [-> |Hne].
    + right. cbn. unfold signal_wakeup. rewrite lookup_insert_eq. eexists. split; [done|]. by destruct (wakeups db !! tenant).
    + destruct (aw_pending _ H t) as [?|?]; [left; by apply Hs|right]. cbn. unfold signal_wakeup. by rewrite lookup_insert_ne.
  - intros t w. cbn. unfold signal_wakeup. destruct (decide (t = tenant)) as [-> |Hne]; [|rewrite lookup_insert_ne by done; apply (aw_lease _ H)].
    rewrite lookup_insert_eq. intros [= <-]. destruct (wakeups db !! tenant) as [w|] eqn:Hw; cbn; [by apply (aw_lease _ H tenant)|by intros []].
  - intros t. destruct (decide (t = tenant)) as [-> |Hne]; [lia|by rewrite Hg'].
  - intros t Hst. destruct (decide (t = tenant)) as [-> |Hne]; [by right|left; by apply Hs].
Qed.

Lemma worker_awake a guard now db : awake db → kept_awake db (worker_step sha256 hashResult a guard now db).
Proof.
  intros H. pose proof (kept_awake_refl db H) as Hr. destruct a as [input token locked|input|input|input]; cbn.
  - apply wp_left, wp_bind, wp_guarded; [done|]. apply wp_bind, wp_call.
    set (r := worker_claim_intelligence_lease _ _ _ _ _ _ _). assert (kept_awake db r.2) as Hk.
    { unfold r, worker_claim_intelligence_lease. destruct (claim_candidates _ _ _ _) as [|[k j] l]; [done|by apply leases_awake]. }
    destruct r.1 as [c|]; [|by apply wp_ret, wp_ret]. destruct (cl_job_json c) as [v|]; [|by apply wp_throw].
    apply wp_ret, wp_bind. by destruct v.
  - apply wp_left, wp_guarded; [done|]. apply wp_bind, wp_call.
    set (r := worker_renew_intelligence_lease _ _ _ _ _ _). assert (kept_awake db r.2) as Hk.
    { unfold r, worker_renew_intelligence_lease. destruct (List.filter _ _) as [|[k l] [|]]; [done| |done]. by apply leases_awake. }
    by destruct r.1.
  - apply wp_left, wp_bind, wp_throw_if; intros _; [done|]. apply wp_guarded; [done|].
    destruct (text _) as [key|]; [|by apply wp_throw]. apply wp_bind, wp_call.
    set (r := worker_append_intelligence_result _ _ _ _ _ _ _ _ _ _ _). assert (kept_awake db r.2) as Hk by by apply append_awake.
    by destruct r.1.
  - apply wp_left, wp_guarded; [done|]. apply wp_call. unfold worker_abandon_intelligence_lease.
    destruct (leases db !! _); [|done]. destruct (_ && _); [by apply leases_awake|done].
Qed.

Lemma complete_awake guard c now db :
  awake db → ((w_generation c < gen db (w_tenantId c))%Z ∨ settled db (w_tenantId c)) →
  kept_awake db (exec (complete guard c now) db).
Proof.
  intros H Hc. pose proof (kept_awake_refl db H) as Hr. apply wp_left. do 2 (apply wp_bind, wp_throw_if; intros _; [done|]).
  apply wp_guarded; [done|]. apply wp_call. unfold server_complete_intelligence_result_wakeup.
  destruct (wakeups db !! w_tenantId c) as [w|] eqn:Hw; [|done]. destruct (held_by _ _ _); [|done]. cbn [snd].
  eapply wakeup_step; [done|done|done| |by intros []]. cbn. destruct (Z.eqb_spec (generation w) (w_generation c)) as [E|]; [right|by left].
  destruct Hc as [Hlt|]; [|done]. unfold gen in Hlt. rewrite Hw in Hlt. lia.
Qed.
Lemma retry_awake guard c after now db : awake db → kept_awake db (exec (retry guard c after now) db).
Proof.
  intros H. pose proof (kept_awake_refl db H) as Hr. apply wp_left. do 3 (apply wp_bind, wp_throw_if; intros _; [done|]).
  apply wp_guarded; [done|]. apply wp_call. unfold server_retry_intelligence_result_wakeup.
  destruct (wakeups db !! w_tenantId c) as [w|] eqn:Hw; [|done]. destruct (held_by _ _ _); [|done]. cbn [snd].
  eapply wakeup_step; [done|done|done|by left|by intros []].
Qed.
Lemma consume_awake tenant batch now rows db l :
  ResultInv policy db → awake db → a_batch tenant db batch rows →
  let r := consumeForTenant sha256 tenant policy batch now rows {| tables := db; signal := l |} in
  kept_awake db (tables r.2) ∧ match r.1 with Ok s => hasMore s = false → settled (tables r.2) tenant | Throw _ => True end.
Proof.
  intros H Hw Hb. pose proof (wp_consumeForTenant sha256 policy tenant batch now rows db l H Hb) as Hwp. unfold wp in Hwp. cbv zeta.
  destruct (consumeForTenant _ _ _ _ _ _ _) as [[s|e] [db' l']]; cbn in *; [|subst db'; split; [by apply kept_awake_refl|done]].
  destruct Hwp as (H' & D & _ & Hmore). assert (∀ t, settled db t → settled db' t) as Hs.
  { intros t Hst k. rewrite (dc_inbox _ _ _ _ D). intros Hk. destruct (Hst _ Hk) as [d Hd].
    destruct (decide (t = tenant ∧ k ∈ p_idempotencyKey <$> rows)) as [[-> Hin]|Hne]; [by apply (dc_decided _ _ _ _ D)|].
    rewrite (dc_others _ _ _ _ D); [by eexists|]. intros key Hin [= -> ->]. by destruct Hne. }
  split.
  - split; [by eapply awake_frame; [done|apply D|]|]. split; [|intros t Ht; left; by apply Hs].
    intros t. by rewrite (gen_frame _ _ (dc_wakeups _ _ _ _ D)).
  - intros Hm%Hmore. by apply settled_pending; [apply H'|].
Qed.

(** ** What the histories say of the tables *)
Record hist_ok (db : Db) (h : list Note) : Prop := {
  ho_knows c : knows h c → (w_generation c <= gen db (w_tenantId c))%Z;
  ho_cleared c : cleared h c → (w_generation c < gen db (w_tenantId c))%Z ∨ settled db (w_tenantId c);
}.
Lemma cleared_knows h c : cleared h c → knows h c.
Proof. intros (h1 & h2 & -> & claims & Hin & Hc). exists claims. split; [set_solver|done]. Qed.
Lemma hist_tended db db' h : tended db db' → hist_ok db h → hist_ok db' h.
Proof.
  intros [Hg Hs] [Hk Hc]. split.
  - intros c Hkn. etrans; [by apply Hk|done].
  - intros c Hcl. destruct (Hc _ Hcl) as [Hlt|Hst]; [left; specialize (Hg (w_tenantId c)); lia|].
    destruct (Hs _ Hst) as [?|?]; [by right|left]. specialize (Hk _ (cleared_knows _ _ Hcl)). lia.
Qed.
Definition note_ok (db : Db) (n : Note) : Prop :=
  match n with
  | n_claimed claims => ∀ c, c ∈ claims → (w_generation c <= gen db (w_tenantId c))%Z
  | n_cleared t => settled db t
  | n_other => True
  end.
Lemma hist_cons db n h : note_ok db n → hist_ok db h → hist_ok db (n :: h).
Proof.
  intros Hn [Hk Hc]. split.
  - intros c (claims & [<-|Hin]%elem_of_cons & Hcl); [by apply Hn|]. apply Hk. by exists claims.
  - intros c ([|n' h1] & h2 & E & Hkn); injection E as -> E.
    + by right.
    + apply Hc. by exists h1, h2.
Qed.

Lemma answers_awake B (e : Call B) db b db' h k :
  ResultInv policy db → awake db → hist_ok db h → tri (Vis e k : P unit) (λ _ _, True) h → answers B e db b db' →
  kept_awake db db' ∧ note_ok db' (note B e b).
Proof.
  intros H Hw Hh [Hal _] Ha. pose proof (kept_awake_refl db Hw) as Hr.
  destruct Ha as [consumer duration batch guard now locked db b Hb|tenant batch now rows sig db b Hb Hc|claim guard now db b _|
    claim after guard now db b _|db b|a guard now db|db db' Ho]; cbn [note].
  - assert (wp (claimDueTenants guard consumer duration batch now locked)
      (λ claims db', kept_awake db db' ∧ note_ok db' (n_claimed claims)) (λ _ db', kept_awake db db') db) as Hwp.
    { do 3 (apply wp_bind, wp_throw_if; intros _; [done|]). apply wp_guarded; [done|]. apply wp_call.
      unfold server_claim_intelligence_result_wakeups. cbv zeta. cbn [fst snd].
      match goal with |- kept_awake db (set_wakeups (update_rows ?p ?f) db) ∧ _ =>
        pose proof (claim_step db p consumer duration now Hw) as (Haw & Ht & Hg) end.
      split; [done|]. intros c ([t w] & -> & Hin)%list_elem_of_fmap. cbn [w_generation w_tenantId fst snd]. rewrite Hg.
      apply (elem_of_sublist _ _ _) with (2 := sublist_take _ _) in Hin. rewrite merge_sort_Permutation in Hin.
      apply list_elem_of_In, List.filter_In in Hin as [Hin%list_elem_of_In%elem_of_map_to_list _]. unfold gen. rewrite Hin. cbn. lia. }
    unfold wp, exec, answered, result in *. destruct (claimDueTenants _ _ _ _ _ _ _) as [[claims|e] db']; cbn in *.
    + destruct b as [claims'|e']; [|by destruct Hwp]. by injection Hb as ->.
    + destruct b as [claims'|e']; [done|done].
  - destruct (consume_awake tenant batch now rows db sig H Hw Hb) as [Hk Hs]. split; [done|].
    unfold consumed, result in Hc. destruct b as [s|e']; [|done]. rewrite Hc in Hs. destruct (hasMore s); [done|by apply Hs].
  - split; [|done]. apply complete_awake; [done|]. by apply (ho_cleared _ _ Hh).
  - split; [by apply retry_awake|done].
  - done.
  - split; [by apply worker_awake|done].
  - destruct Ho as [Oj Ol Oi Oa Od Oc Ot Oe Ow]. split; [|done]. split.
    + eapply awake_frame; [done|done|]. intros t Hs k0. rewrite Oi, Od. apply Hs.
    + apply tended_same; [done..|]. intros t. by rewrite (gen_frame _ _ Ow).
Qed.

(** ** Every reachable state *)
Notation runs := (runs sha256 hashResult policy).
Definition process_ok (db : Db) (p : P unit * list Note) : Prop := hist_ok db p.2 ∧ tri p.1 (λ _ _, True) p.2.
Record state_ok (st : sched_state (E := Call) (X := Empty_set) (N := Note) (S := Db) (A := unit)) : Prop := {
  so_inv : ResultInv policy (shared st);
  so_awake : awake (shared st);
  so_processes : Forall (process_ok (shared st)) (processes st);
}.
Lemma step_ok st st' : state_ok st → runs st st' → state_ok st'.
Proof.
  intros [H Hw Hp] Hs. destruct Hs as [p s l Hst|B i e k h s s' l Hi []|B i e k h b s s' l Hi Ha]; cbn in *.
  - split; [done..|]. apply Forall_app. split; [done|]. constructor; [|constructor]. split; cbn; [|by apply startable_tri].
    split; [intros c (? & []%not_elem_of_nil & _)|intros c (h1 & h2 & E & _)]. by destruct h1.
  - destruct (proj1 (Forall_lookup _ _) Hp _ _ Hi) as [Hh Ht]. cbn in Hh, Ht.
    destruct (answers_awake _ _ _ _ _ _ _ H Hw Hh Ht Ha) as [[Hw' Htd] Hn].
    destruct (answers_kept sha256 hashResult policy _ _ _ _ _ H Ha) as [H' _]. split; [done..|]. cbn. apply Forall_insert.
    + eapply Forall_impl; [exact Hp|]. intros [p0 h0] [Hh0 Ht0]. split; [by eapply hist_tended|done].
    + split; cbn; [apply hist_cons; [done|by eapply hist_tended]|]. destruct Ht as [_ Ht]. by apply Ht.
Qed.
Lemma runs_ok st : rtc runs nothing_yet st → state_ok st.
Proof.
  intros Hr. apply (rtc_invariant runs state_ok nothing_yet); [|by intros; eapply step_ok|done].
  split; [apply empty_result_inv| |constructor]. split; cbn; [|done]. intros t. left. by intros k [i Hi].
Qed.

(** ** A claim *)
Lemma string_leb_cons a s b t :
  String.leb (String a s) (String b t) = true ↔
  (N_of_ascii a < N_of_ascii b)%N ∨ a = b ∧ String.leb s t = true.
Proof.
  unfold String.leb. cbn [String.compare]. unfold Ascii.compare.
  destruct (N.compare_spec (N_of_ascii a) (N_of_ascii b)) as [E| |].
  - assert (a = b) as -> by (rewrite <- (ascii_N_embedding a), <- (ascii_N_embedding b); by f_equal).
    split; [by right|]. by intros [?%N.lt_irrefl|[_ ?]].
  - split; [by left|done].
  - split; [done|]. intros [?|[-> _]]; lia.
Qed.
Lemma string_leb_trans s t u : String.leb s t = true → String.leb t u = true → String.leb s u = true.
Proof.
  revert t u. induction s as [|a s IH]; intros [|b t] [|c u]; try done. rewrite !string_leb_cons.
  intros [H|[-> H]] [H'|[-> H']]; [left; lia|by left|by left|right; split; [done|by eapply IH]].
Qed.
#[local] Instance sooner_trans : Transitive sooner.
Proof.
  intros [t1 w1] [t2 w2] [t3 w3]. unfold sooner. cbn.
  intros [H|[H Hs]] [H'|[H' Hs']]; [left; lia..|]. right. split; [lia|by eapply string_leb_trans].
Qed.
#[local] Instance sooner_total : Total sooner.
Proof.
  intros [t1 w1] [t2 w2]. unfold sooner. cbn.
  destruct (Z.lt_trichotomy (available_at w1) (available_at w2)) as [H|[H|H]]; [by left; left| |by right; left].
  destruct (String.leb_total t1 t2); [left|right]; right; (split; [lia|done]).
Qed.

(** The first [n] of a sorted list hold an element, or hold [n] others before it. *)
Lemma sorted_take {A} (R : A → A → Prop) l n x :
  StronglySorted R l → x ∈ l → x ∈ take n l ∨ (length (take n l) = n ∧ ∀ y, y ∈ take n l → R y x).
Proof.
  intros Hs. revert n. induction Hs as [|y l Hs IH Hall]; intros [|n] Hx; cbn.
  - by apply elem_of_nil in Hx.
  - by apply elem_of_nil in Hx.
  - right. split; [done|]. by intros y' ?%elem_of_nil.
  - apply elem_of_cons in Hx as [-> |Hx]; [by left; left|].
    destruct (IH n Hx) as [H|[Hlen Hlt]]; [by left; right|right]. split; [by f_equal|].
    intros y' [-> |Hy]%elem_of_cons; [|by apply Hlt]. rewrite Forall_forall in Hall. by apply Hall.
Qed.

Definition claim_of (consumer tenant : string) (w : WakeupRow) : IntelligenceResultWakeupClaim :=
  {| w_tenantId := tenant; w_generation := generation w; w_consumerId := consumer |}.

(** A due wakeup of a tenant that is not locked is taken, or as many others as the
    batch allows, each due and none available later. *)
Lemma claim_takes consumer duration batch now locked db tenant w :
  wakeups db !! tenant = Some w → due now w = true → includes locked tenant = false → (0 < batch <= 256)%Z →
  let r := server_claim_intelligence_result_wakeups consumer duration batch now locked db in
  NoDup (w_tenantId <$> r.1) ∧
  ((claim_of consumer tenant w ∈ r.1 ∧ wakeups r.2 !! tenant = Some (claim_wakeup consumer duration now w)) ∨
   (Z.of_nat (length r.1) = batch ∧ ∀ c, c ∈ r.1 → ∃ w', wakeups db !! w_tenantId c = Some w' ∧
      due now w' = true ∧ sooner (w_tenantId c, w') (tenant, w))).
Proof.
  intros Hw Hdue Hlock Hbatch. unfold server_claim_intelligence_result_wakeups. cbn zeta. cbn [fst snd].
  set (ready := List.filter _ _). set (n := Z.to_nat _). assert (n = Z.to_nat batch) as Hn by (unfold n; f_equal; lia).
  assert (∀ t v, (t, v) ∈ ready ↔ wakeups db !! t = Some v ∧ includes locked t = false ∧ due now v = true) as Hready.
  { intros t v. unfold ready. rewrite list_elem_of_In, List.filter_In, <- list_elem_of_In, elem_of_map_to_list.
    cbn. by rewrite andb_true_iff, negb_true_iff. }
  assert (∀ t v, (t, v) ∈ take n (merge_sort sooner ready) → (t, v) ∈ ready) as Hin.
  { intros t v H. apply (elem_of_sublist _ _ _) with (2 := sublist_take _ _) in H. by rewrite merge_sort_Permutation in H. }
  split.
  { rewrite <- list_fmap_compose. change (NoDup (fst <$> take n (merge_sort sooner ready))). rewrite fmap_take.
    eapply sublist_NoDup; [|apply sublist_take]. rewrite merge_sort_Permutation. unfold ready.
    eapply NoDup_fmap_fst; [|by apply NoDup_ListNoDup, List.NoDup_filter, NoDup_ListNoDup, NoDup_map_to_list].
    intros t v1 v2 H1 H2. apply Hready in H1 as [H1 _], H2 as [H2 _]. congruence. }
  assert ((tenant, w) ∈ merge_sort sooner ready) as Hmine by (rewrite merge_sort_Permutation; by apply Hready).
  destruct (sorted_take sooner _ n _ (StronglySorted_merge_sort _ ready) Hmine) as [H|[Hlen Hfirst]]; [left|right].
  - split; [apply list_elem_of_fmap; by exists (tenant, w)|]. cbn. rewrite lookup_update_rows, Hw. cbn.
    assert (includes (fst <$> take n (merge_sort sooner ready)) tenant = true) as ->; [|done].
    apply bool_decide_eq_true, list_elem_of_fmap. by exists (tenant, w).
  - split; [rewrite length_fmap, Hlen, Hn; lia|]. intros c ([t v] & -> & Hc)%list_elem_of_fmap. exists v. cbn.
    destruct (proj1 (Hready _ _) (Hin _ _ Hc)) as (? & _ & ?). split_and!; [done..|by apply Hfirst].
Qed.

Lemma claimDueTenants_runs consumer duration batch now locked db :
  is_blank consumer = false → (0 < duration <= MAX_LEASE_MS)%Z → (0 < batch <= 256)%Z →
  let r := server_claim_intelligence_result_wakeups consumer duration batch now locked db in
  claimDueTenants true consumer duration batch now locked db = (Ok r.1, r.2).
Proof.
  intros Hc Hd Hb. unfold claimDueTenants, nonEmpty, boundedPositive. rewrite Hc.
  assert (∀ v m, (0 < v <= m)%Z → negb ((0 <? v) && (v <=? m))%Z = false) as Hrange.
  { intros v m H. rewrite (proj2 (Z.ltb_lt _ _)), (proj2 (Z.leb_le _ _)) by lia. done. }
  rewrite !Hrange by done. unfold guarded, transaction, throw_if, call, mbind, js_bind, mret, js_ret.
  cbn -[server_claim_intelligence_result_wakeups].
  by destruct (server_claim_intelligence_result_wakeups consumer duration batch now locked db).
Qed.

(** C23: A result that was appended and not decided is never forgotten: whatever loops,
    workers and others do, in any order and with any of them stopping anywhere, the
    wakeup of its tenant is pending, and from some instant on it is due.  From then
    on a claim that finds it unlocked takes it, with its generation and in the
    claimer's name, unless the batch is full of tenants, all different, whose
    wakeups are due and became available no later than it. *)
Theorem pending_result_is_due st tenant row :
  rtc runs nothing_yet st → row ∈ pendingResultQuery tenant (shared st) →
  ∃ w t0, wakeups (shared st) !! tenant = Some w ∧ pending w = true ∧ ∀ now, (t0 <= now)%Z → due now w = true ∧
    ∀ consumer duration batch locked, is_blank consumer = false → (0 < duration <= MAX_LEASE_MS)%Z →
      (0 < batch <= 256)%Z → includes locked tenant = false →
      ∃ claims db', claimDueTenants true consumer duration batch now locked (shared st) = (Ok claims, db') ∧
        NoDup (w_tenantId <$> claims) ∧
        ((claim_of consumer tenant w ∈ claims ∧ wakeups db' !! tenant = Some (claim_wakeup consumer duration now w)) ∨
         (Z.of_nat (length claims) = batch ∧ ∀ c, c ∈ claims → ∃ w', wakeups (shared st) !! w_tenantId c = Some w' ∧
            due now w' = true ∧ sooner (w_tenantId c, w') (tenant, w))).
Proof.
  intros [H [Hp Hl] _]%runs_ok Hrow. destruct (Hp tenant) as [Hs|(w & Hw & Hpend)].
  - apply settled_pending in Hs; [|apply H]. rewrite Hs in Hrow. by apply not_elem_of_nil in Hrow.
  - exists w, (Z.max (available_at w) (default 0 (w_lease_expires_at w)))%Z. split; [done|]. split; [done|]. intros now Hnow.
    assert (due now w = true) as Hdue.
    { unfold due. rewrite Hpend, (proj2 (Z.leb_le _ _)) by lia. cbn. destruct (lease_owner w) eqn:Ho; [|done].
      destruct (Hl _ _ Hw) as [e He]; [by rewrite Ho|]. rewrite He in *. cbn in Hnow. by apply Z.leb_le; lia. }
    split; [done|]. intros consumer duration batch locked Hc Hd Hb Hlock.
    eexists _, _. split; [by apply claimDueTenants_runs|]. by apply claim_takes.
Qed.
End tables.
End WakeupSafety.
