(* ===== verification/ResultPoison.v ===== *)
(** * A result that stops its tenant

    The executor throws a plain error for a job that is not an investigation's but
    names an investigation.  The error is not one of those that become a rejection, so
    the whole batch is rolled back, and as the results are taken in the order they
    were accepted in, every later batch meets the same result first. *)
From S2P Require Import Prelude Number Json Investigation Intelligence IntelligenceQueue ResultConsumer ResultLoop Interact.
From S2P Require Import QueueSafety ResultSafety ResultProperties.
From stdpp Require Import sorting.

Module ResultPoison.
Import Intelligence IntelligenceQueue ResultConsumer ResultLoop QueueSafety ResultSafety ResultProperties.

Section poison.
Context (sha256 : string → string) (hashResult : json → string)
        (policy : option (IntelligenceJob → IntelligenceResult → bool)) (tenant : string).

(** ** The executor fails *)
Definition unsupported (job : IntelligenceJob) : Prop :=
  jobType job ∉ [investigation_reproduction_planning; investigation_bug_analysis].
Definition never {A} (m : T A) (tx : Tx) : Prop := wp m (λ _ _, False) (λ e _, e = PlainError ∨ e = Aborted) tx.

Lemma execute_fails job result tx : unsupported job → never (TransactionCommandExecutor_execute tenant job result) tx.
Proof.
  intros Hu. apply wp_bind, wp_throw_if; intros _; [by left|]. apply wp_bind.
  eapply (wp_mono _ (λ _ _, True) _ (λ e _, e = PlainError)); [| |by left].
  - apply wp_bind, wp_select. destruct (cases _ !! _) as [row|]; [|done]. apply wp_bind, wp_select, wp_bind.
    destruct (bug_episode_id row) as [id|]; [|by apply wp_ret, wp_bind, wp_select, wp_ret].
    apply wp_bind, wp_select. destruct (episodes _ !! _) as [r|]; [|by apply wp_ret, wp_bind, wp_select, wp_ret].
    apply wp_bind, wp_throw_if; intros _; [done|]. by apply wp_ret, wp_bind, wp_select, wp_ret.
  - intros c tx' _. apply wp_bind. unfold unsupported in Hu. destruct (jobType job); try (by left); set_solver.
Qed.

(** ** A row that poisons *)
Record poisons (db : Db) (row : PendingPayloadRow) (job : IntelligenceJob) (result : IntelligenceResult) : Prop := {
  po_decoded : decodePendingPayload row = Some (job, result);
  po_passed : passed policy job result;
  po_unsupported : unsupported job;
  po_key : r_idempotencyKey result = p_idempotencyKey row;
  po_version : case_version tenant db (aggregateRef job) = Some (baseAggregateVersion job);
}.
Lemma consume_row_fails now row job result db l :
  poisons db row job result → applied_results db !! (tenant, p_idempotencyKey row) = None →
  wp (consume_row sha256 tenant policy now row) (λ _ _, False) (λ _ _, True) {| tables := db; signal := l |}.
Proof.
  intros [Hdec Hp Hu Hk Hv] Hl. apply wp_bind, wp_check_signal; [|done]. cbn [tables]. intros l1.
  rewrite Hdec. apply wp_bind, wp_try_catch.
  eapply (wp_mono _ (λ _ _, False) _ (λ e _, e = PlainError ∨ e = Aborted)); [|done|by intros e tx [-> | ->]].
  apply wp_bind, wp_check_signal; [|by right]. cbn [tables]. intros l2. unfold apply. rewrite (ps_envelope _ _ _ Hp).
  assert (∀ tx0 : Tx, wp (@throwIfAborted Tx (server_ports tenant policy)) (λ _ t, tables t = tables tx0)
    (λ e _, e = PlainError ∨ e = Aborted) tx0) as Hab.
  { intros tx0. apply wp_bind, (wp_read_signal _ _ tx0). intros b l3. apply wp_throw_if; [by right|by intros _]. }
  apply wp_bind. eapply wp_mono; [apply Hab| |done]. intros [] [db1 l3] E. cbn in E. subst db1. clear l2.
  apply wp_bind, wp_select. cbn [tables]. rewrite Hk, Hl.
  apply wp_bind. eapply wp_mono; [apply Hab| |done]. intros [] [db1 l2] E. cbn in E. subst db1. clear l3.
  apply wp_bind, wp_select. cbn [tables]. rewrite Hv, bool_decide_true by done.
  apply wp_bind. eapply wp_mono; [apply Hab| |done]. intros [] [db1 l3] E. cbn in E. subst db1. clear l2. cbn [negb].
  rewrite bool_decide_true by apply Hp. cbn [negb]. rewrite (ps_budget _ _ _ Hp), (ps_evidence _ _ _ Hp). unfold forbids.
  cbn [Intelligence.policy server_ports]. rewrite (ps_policy _ _ _ Hp). cbn [negb].
  apply wp_bind. eapply wp_mono; [apply Hab| |done]. intros [] [db1 l2] E. cbn in E. subst db1. clear l3.
  apply wp_bind. by eapply wp_mono; [apply execute_fails| |].
Qed.
(** A batch that starts with it, or has no size, throws and changes nothing. *)
Definition fails (batch now : Z) (rows : list PendingPayloadRow) (db : Db) (sig : list bool) : Prop :=
  wp (consumeForTenant sha256 tenant policy batch now rows) (λ _ _, False) (λ _ t, tables t = db) {| tables := db; signal := sig |}.
Lemma consume_fails batch now rows db sig :
  ((0 < batch)%Z → ∃ row rest job result, rows = row :: rest ∧ poisons db row job result ∧
     applied_results db !! (tenant, p_idempotencyKey row) = None) →
  fails batch now rows db sig.
Proof.
  intros H. apply wp_bind, wp_check_signal; [|done]. cbn [tables]. intros l'.
  apply wp_bind, wp_throw_if; intros Hb; [done|]. apply wp_bind, wp_throw_if; intros _; [done|].
  apply negb_false_iff, andb_prop in Hb as [Hb _]. apply Z.ltb_lt in Hb. destruct (H Hb) as (row & rest & job & result & -> & Hp & Hl).
  apply wp_transaction, wp_bind, wp_bind.
  eapply (wp_mono _ (λ _ _, False) _ (λ _ _, True)); [by eapply consume_row_fails|done|done].
Qed.

(** ** The first of the pending results *)
Record stuck (k : string) (i : InboxRow) (j : JobRow) (job : IntelligenceJob) (result : IntelligenceResult) (db : Db) : Prop := {
  sk_inbox : inbox db !! (tenant, k) = Some i;
  sk_job : jobs db !! (tenant, i_job_id i) = Some j;
  sk_undecided : dispositions db !! (tenant, k) = None;
  sk_first k' i' : inbox db !! (tenant, k') = Some i' → dispositions db !! (tenant, k') = None → k' ≠ k →
    (accepted_at i < accepted_at i')%Z;
  sk_poisons : poisons db (row_of k i j) job result;
}.

Section stuck.
Context (k : string) (i : InboxRow) (j : JobRow) (job : IntelligenceJob) (result : IntelligenceResult).
Notation stuck := (stuck k i j job result).

Lemma stuck_row db row : stuck db → sourced tenant db row → p_idempotencyKey row = k → row = row_of k i j.
Proof.
  intros H (i' & j' & Hi & Hj & E) Hk. rewrite Hk, (sk_inbox _ _ _ _ _ _ H) in Hi. injection Hi as <-.
  rewrite (sk_job _ _ _ _ _ _ H) in Hj. injection Hj as <-. by rewrite E, Hk.
Qed.
Lemma first_of_batch db n rows :
  ResultInv policy db → stuck db → (0 < n)%Z → a_batch tenant db n rows → ∃ rest, rows = row_of k i j :: rest.
Proof.
  intros Hinv H Hn (all & Hall & Hsort & ->).
  assert (row_of k i j ∈ all) as Hin.
  { rewrite Hall. destruct (row_pending tenant db k i (ri_queue _ _ Hinv) (sk_inbox _ _ _ _ _ _ H) (sk_undecided _ _ _ _ _ _ H))
      as (row & Hin & Hk). destruct (pending_row _ _ _ Hin) as [Hs _]. by rewrite <- (stuck_row _ _ H Hs Hk). }
  destruct all as [|r all]; [by apply not_elem_of_nil in Hin|].
  assert (r = row_of k i j) as ->.
  { apply elem_of_cons in Hin as [Hin|Hin]; [done|]. inversion Hsort as [|? ? _ Hle]; subst. rewrite Forall_forall in Hle.
    specialize (Hle _ Hin). assert (r ∈ pendingResultQuery tenant db) as Hr by (rewrite <- Hall; by left).
    destruct (pending_row _ _ _ Hr) as [Hs Hd]. destruct (decide (p_idempotencyKey r = k)) as [Ek|Hne]; [by eapply stuck_row|].
    destruct Hs as (i' & j' & Hi' & _ & E). pose proof (sk_first _ _ _ _ _ _ H _ _ Hi' Hd Hne) as Hlt.
    unfold earlier in Hle. rewrite E in Hle. cbn in Hle. lia. }
  destruct (Z.to_nat n) as [|m] eqn:En; [lia|]. by exists (take m all).
Qed.
Lemma stuck_fails db batch now rows sig :
  ResultInv policy db → stuck db → a_batch tenant db batch rows → fails batch now rows db sig.
Proof.
  intros Hinv H Hb. apply consume_fails. intros Hn. destruct (first_of_batch db batch rows Hinv H Hn Hb) as [rest ->].
  exists (row_of k i j), rest, job, result. split; [done|]. split; [apply H|]. cbn.
  destruct (applied_results db !! (tenant, k)) eqn:E; [|done]. apply (ri_ledger _ _ Hinv) in E.
  by rewrite (sk_undecided _ _ _ _ _ _ H) in E.
Qed.

(** ** Ever after

    What may happen once the result was accepted: calls of the workers, batches of
    any tenant, anything on the wakeups, and others that leave its case alone. *)
Inductive later : Db → Db → Prop :=
  | la_worker a guard now db : (accepted_at i < now)%Z → later db (worker_step sha256 hashResult a guard now db)
  | la_consume t batch now rows sig db : a_batch t db batch rows →
      later db (tables (exec (consumeForTenant sha256 t policy batch now rows) {| tables := db; signal := sig |}))
  | la_wakeups f db : later db (set_wakeups f db)
  | la_others db db' : others db db' →
      cases db' !! (tenant, ref_id (aggregateRef job)) = cases db !! (tenant, ref_id (aggregateRef job)) → later db db'.

(** What keeps the result first and undecided. *)
Record behind (db db' : Db) : Prop := {
  be_inv : ResultInv policy db';
  be_jobs : jobs db ⊆ jobs db';
  be_inbox : inbox db ⊆ inbox db';
  be_new k' i' : inbox db' !! k' = Some i' → inbox db !! k' = Some i' ∨ (accepted_at i < accepted_at i')%Z;
  be_dispositions k' : dispositions db' !! (tenant, k') = dispositions db !! (tenant, k');
  be_case : cases db' !! (tenant, ref_id (aggregateRef job)) = cases db !! (tenant, ref_id (aggregateRef job));
}.
Lemma stuck_behind db db' : behind db db' → stuck db → stuck db'.
Proof.
  intros [Hinv Hj Hi Hn Hd Hc] [Ki Kj Ku Kf [Pd Pp Pu Pk Pv]]. split.
  - by eapply lookup_weaken.
  - by eapply lookup_weaken.
  - by rewrite Hd.
  - intros k' i' Hk'. rewrite Hd. destruct (Hn _ _ Hk') as [?|?]; [by apply Kf|done].
  - split; try done. unfold case_version in *. by rewrite Hc.
Qed.

Lemma append_accepted tenant' job' worker attempt hash base key rhash r now db k' i' :
  inbox (worker_append_intelligence_result tenant' job' worker attempt hash base key rhash r now db).2 !! k' = Some i' →
  inbox db !! k' = Some i' ∨ accepted_at i' = now.
Proof.
  unfold worker_append_intelligence_result. destruct (inbox db !! (tenant', key)); [by left|].
  destruct (jobs db !! _); [|by left]. destruct (negb _); [by left|]. destruct (leases db !! _); [|by left].
  do 4 (destruct (negb _) || destruct (_ <=? _)%Z; [by left|]). cbn.
  intros [[<- <-]|[_ ?]]%lookup_insert_Some; [by right|by left].
Qed.
Lemma append_frame guard input now db :
  let db' := exec (append sha256 hashResult guard input now) db in
  dispositions db' = dispositions db ∧ cases db' = cases db ∧
  ∀ k' i', inbox db' !! k' = Some i' → inbox db !! k' = Some i' ∨ accepted_at i' = now.
Proof.
  cbv zeta. pattern (exec (append sha256 hashResult guard input now) db). match goal with |- ?P _ => set (Q := P) end.
  assert (Q db) as Hr by (by split_and!; [..|by left]).
  apply wp_left, wp_bind, wp_throw_if; intros _; [done|]. apply wp_guarded; [done|].
  destruct (text _) as [key|]; [|by apply wp_throw]. apply wp_bind, wp_call.
  set (w := worker_append_intelligence_result _ _ _ _ _ _ _ _ _ _ _).
  assert (Q w.2) as Hw by (split_and!; [apply append_only|apply append_only|apply append_accepted]). by destruct w.1.
Qed.
Lemma not_append_frame a guard now db :
  (∀ input, a ≠ wa_append input) →
  let db' := worker_step sha256 hashResult a guard now db in
  dispositions db' = dispositions db ∧ cases db' = cases db ∧ inbox db' = inbox db.
Proof.
  intros Ha. cbv zeta. pattern (worker_step sha256 hashResult a guard now db). match goal with |- ?P _ => set (Q := P) end.
  assert (Q db) as Hr by done. destruct a as [input token locked|input|input|input]; cbn [worker_step].
  - apply wp_left, wp_bind, wp_guarded; [done|]. apply wp_bind, wp_call.
    set (r := worker_claim_intelligence_lease _ _ _ _ _ _ _). assert (Q r.2) as Hk
      by (unfold r, worker_claim_intelligence_lease; by destruct (claim_candidates _ _ _ _) as [|[]]).
    destruct r.1 as [c|]; [|by apply wp_ret, wp_ret]. destruct (cl_job_json c) as [v|]; [|by apply wp_throw].
    apply wp_ret, wp_bind. by destruct v.
  - apply wp_left, wp_guarded; [done|]. apply wp_bind, wp_call.
    set (r := worker_renew_intelligence_lease _ _ _ _ _ _). assert (Q r.2) as Hk
      by (unfold r, worker_renew_intelligence_lease; by destruct (List.filter _ _) as [|[] [|]]).
    by destruct r.1.
  - by destruct (Ha input).
  - apply wp_left, wp_guarded; [done|]. apply wp_call. unfold worker_abandon_intelligence_lease.
    destruct (leases db !! _); [|done]. by destruct (_ && _).
Qed.

Lemma later_behind db db' : ResultInv policy db → stuck db → later db db' → behind db db'.
Proof.
  intros Hinv H Hs. revert Hinv H. destruct Hs as [a guard now db0 Hnow|t batch now rows sig db0 Hb|f db0|db0 db0' Ho Hc]; intros Hinv H.
  - destruct (worker_kept sha256 hashResult policy a guard now db0 Hinv) as [Hinv' Hg].
    assert (let db' := worker_step sha256 hashResult a guard now db0 in
      dispositions db' = dispositions db0 ∧ cases db' = cases db0 ∧
      ∀ k' i', inbox db' !! k' = Some i' → inbox db0 !! k' = Some i' ∨ accepted_at i' = now) as (Ed & Ec & Ei).
    { destruct a; try apply append_frame; (edestruct not_append_frame as (Ed & Ec & Ei); [|cbv zeta; rewrite Ed, Ec, Ei]);
        try done; split_and!; auto. }
    split; [done|apply Hg|apply Hg| |by rewrite Ed|by rewrite Ec].
    intros k' i' [?| ->]%Ei; auto.
  - destruct (consume_kept sha256 policy t batch now rows db0 sig Hinv Hb) as [Hinv' Hg].
    destruct (decide (t = tenant)) as [-> |Hne].
    + pose proof (stuck_fails _ _ now _ sig Hinv H Hb) as Hf. unfold fails, wp, exec in *.
      destruct (consumeForTenant _ _ _ _ _ _ _) as [[s|e] [db1 l1]]; [done|]. cbn in *. subst db1. by split; auto.
    + pose proof (wp_consumeForTenant sha256 policy t batch now rows db0 sig Hinv Hb) as Hwp. unfold wp, exec in *.
      destruct (consumeForTenant _ _ _ _ _ _ _) as [[s|e] [db1 l1]]; cbn in *; [|subst db1; by split; auto].
      destruct Hwp as (_ & D & _). split; [done|apply Hg|apply Hg| | |].
      * rewrite (dc_inbox _ _ _ _ D). auto.
      * intros k'. apply (dc_others _ _ _ _ D). congruence.
      * apply (dc_cases _ _ _ _ D). cbn. congruence.
  - destruct (wakeup_kept policy db0 f Hinv) as [Hinv' Hg]. by split; auto.
  - destruct (answers_kept sha256 hashResult policy unit Others db0 tt db0' Hinv) as [Hinv' Hg]; [by constructor|].
    split; [done|apply Hg|apply Hg| | |done].
    + rewrite (ot_inbox _ _ Ho). auto.
    + by rewrite (ot_dispositions _ _ Ho).
Qed.
Lemma stuck_for_ever db db' :
  ResultInv policy db → stuck db → rtc later db db' →
  ResultInv policy db' ∧ stuck db' ∧ ∀ k', dispositions db' !! (tenant, k') = dispositions db !! (tenant, k').
Proof.
  intros Hinv H Hr. induction Hr as [db|db db1 db2 Hs _ IH]; [done|]. pose proof (later_behind _ _ Hinv H Hs) as Hb.
  destruct IH as (Hinv2 & H2 & E2); [apply Hb|by eapply stuck_behind|]. split_and!; [done..|].
  intros k'. by rewrite E2, (be_dispositions _ _ Hb).
Qed.
End stuck.

(** C38: Where the first pending result of a tenant is for a job that names an
    investigation, at its version, but is not one of the two jobs of an investigation,
    and the gate lets it through, no result of the tenant is decided any more: whatever
    the workers, the consumers and others do, as long as that case stays as it is,
    every batch of the tenant throws and leaves the tables as they were. *)
Theorem poison_result_blocks st k i j job result db' :
  rtc (runs sha256 hashResult policy) nothing_yet st → stuck k i j job result (shared st) →
  rtc (later i job) (shared st) db' →
  (∀ k', dispositions db' !! (tenant, k') = dispositions (shared st) !! (tenant, k')) ∧
  ∀ batch now rows sig, a_batch tenant db' batch rows →
    ∃ e t, consumeForTenant sha256 tenant policy batch now rows {| tables := db'; signal := sig |} = (Throw e, t) ∧ tables t = db'.
Proof.
  intros Hr Hst Hl. apply runs_inv in Hr. destruct (stuck_for_ever _ _ _ _ _ _ _ Hr Hst Hl) as (Hinv & Hst' & Ed). split; [done|].
  intros batch now rows sig Hb. pose proof (stuck_fails _ _ _ _ _ _ _ now _ sig Hinv Hst' Hb) as Hf. unfold fails, wp in Hf.
  destruct (consumeForTenant _ _ _ _ _ _ _) as [[s|e] t]; [done|]. by exists e, t.
Qed.
End poison.
End ResultPoison.
