(* ===== verification/ResultSample.v ===== *)
(** * A sample run of the intelligence queue

    A worker leases the planning of a reproduction, appends its result, and the server
    applies it; the same with a job that the executor does not know, which stops its
    tenant.  [SHA-256] is the identity here. *)
From S2P Require Import Prelude Number Json Investigation Intelligence IntelligenceQueue ResultConsumer ResultLoop Interact.
From S2P Require Import QueueSafety ResultSafety ResultProperties WakeupSafety ResultPoison.
From stdpp Require Import sorting.

Module ResultSample.
Import Intelligence IntelligenceQueue ResultConsumer ResultLoop QueueSafety ResultSafety ResultProperties ResultPoison.

(** ** The tables before *)
Definition sample_usage : json :=
  JObj [("inputTokens", JNum (num_of_Z 1)); ("outputTokens", JNum (num_of_Z 1)); ("costMicros", JNum (num_of_Z 1))].
Definition sample_job_object (kind : string) : list (string * json) :=
  [("jobId", JStr "job"); ("jobType", JStr kind); ("schemaVersion", JStr "intelligence-job/v1");
   ("tenantId", JStr "tenant"); ("projectId", JStr "project");
   ("aggregateRef", JObj [("type", JStr "investigation"); ("id", JStr "case")]);
   ("baseAggregateVersion", JNum (num_of_Z 2)); ("inputRefs", JArr []); ("modelProfileId", JStr "profile");
   ("dataPolicyId", JStr "policy"); ("idempotencyKey", JStr "key"); ("causationId", JStr "finding");
   ("expectedResultSchema", JStr RESULT_SCHEMA);
   ("budget", JObj [("maximumTokens", JNum (num_of_Z 100)); ("maximumCostMicros", JNum (num_of_Z 100));
                    ("timeoutMs", JNum (num_of_Z 100))]);
   ("priority", JStr "normal")].
Definition sample_job (kind : string) : JobRow :=
  {| job_type := kind; j_base_aggregate_version := 2; job_json := Some (JObj (sample_job_object kind)); created_at := 0 |}.
Definition sample_budget : Investigation.InvestigationBudget :=
  {| Investigation.maximumReproductionAttempts := num_of_Z 3; Investigation.maximumPlanningRevisions := num_of_Z 3;
     Investigation.maximumEnvironmentRetries := num_of_Z 3; Investigation.maximumWallClockMs := num_of_Z 1000;
     Investigation.maximumModelTokens := num_of_Z 1000; Investigation.maximumEnvironmentResets := num_of_Z 3;
     Investigation.maximumDestructiveActions := num_of_Z 3;
     Investigation.confirmationConfidenceThreshold := num_of_Z 1 |}.
Definition sample_case : CaseRow :=
  {| finding_id := "finding"; c_project_id := "project"; c_status := Investigation.investigating; c_version := 2;
     c_plan_revision := 0; c_budget := sample_budget; c_usage := Investigation.ZERO_USAGE; bug_episode_id := None |}.
Definition sample_db (kind : string) : Db :=
  {| jobs := {[("tenant", "job") := sample_job kind]}; leases := ∅; inbox := ∅; applied_results := ∅; dispositions := ∅;
     cases := {[("tenant", "case") := sample_case]}; case_attempts := ∅; episodes := ∅; handoffs := ∅; wakeups := ∅ |}.

(** ** The calls *)
Definition sample_result : list (string * json) :=
  [("jobId", JStr "job"); ("resultSchemaVersion", JStr RESULT_SCHEMA);
   ("proposals", JArr [JObj [("steps", JArr [JObj [("kind", JStr "navigate"); ("path", JStr "/cart")]])]]);
   ("evidenceRefs", JArr []); ("provenance", JArr []); ("confidence", JNum (num_of_Z 1)); ("usage", sample_usage);
   ("terminalStatus", JStr "succeeded"); ("idempotencyKey", JStr "key")].
Definition sample_lease (kind : string) : WorkerAction :=
  wa_lease {| workerId := "worker"; acceptedTypes := [kind]; leaseDurationMs := 100 |} "token" [].
Definition sample_append : WorkerAction :=
  wa_append {| ap_tenantId := "tenant"; ap_jobId := "job"; ap_leaseToken := "token"; leaseAttempt := 1;
               ap_workerId := "worker"; ap_baseAggregateVersion := 2; ap_result := sample_result |}.
Definition sample_options : Options :=
  {| consumerId := "server"; tenantBatchSize := 4; resultBatchSize := 4; o_leaseDurationMs := 1000;
     idleBackoffMs := 10; errorBackoffMs := 10; maximumBackoffMs := 100 |}.
Definition sample_loop : Loop := {| consecutiveFailures := 0; lastError := false; observed := false; totals := no_totals |}.
Definition sample_hash (_ : json) : string := "hash".
Definition sample_rows (tenant : string) (batch : Z) (db : Db) : list PendingPayloadRow :=
  take (Z.to_nat batch) (merge_sort earlier (pendingResultQuery tenant db)).
Definition heard {A} (o : outcome QueueThrow A) : outcome LoopError A :=
  match o with Ok a => Ok a | Throw _ => Throw other_error end.
Definition learnt (o : outcome Thrown ConsumeSummary) : outcome LoopError ConsumeSummary :=
  match o with Ok a => Ok a | Throw Aborted => Throw abort_error | Throw _ => Throw other_error end.
(** Everything happens at the instant 10, with nothing locked and nothing aborted. *)
Definition sample_answer (B : Type) (e : Call B) (db : Db) : B * Db :=
  match e in Call B return B * Db with
  | ClaimDueTenants consumer duration batch =>
      let m := claimDueTenants true consumer duration batch 10 [] in (heard (result m db), exec m db)
  | ConsumeForTenant tenant batch =>
      let m := consumeForTenant id tenant None batch 10 (sample_rows tenant batch db) in
      let tx := {| tables := db; signal := [] |} in (learnt (result m tx), tables (exec m tx))
  | CompleteWakeup claim => let m := complete true claim 10 in (heard (result m db), exec m db)
  | RetryWakeup claim after => let m := retry true claim after 10 in (heard (result m db), exec m db)
  | ReadSignal => (false, db)
  | Worker a => (tt, worker_step id sample_hash a true 10 db)
  | Others => (tt, db)
  end.
Lemma heard_answered {A} (o : outcome QueueThrow A) : answered o (heard o).
Proof. by destruct o. Qed.
Lemma learnt_consumed o : consumed o (learnt o).
Proof. by destruct o as [|[]]. Qed.
Lemma rows_batch tenant batch db : a_batch tenant db batch (sample_rows tenant batch db).
Proof.
  exists (merge_sort earlier (pendingResultQuery tenant db)). split; [apply merge_sort_Permutation|]. split; [|done].
  apply StronglySorted_merge_sort; [intros ???; unfold earlier; lia|intros ??; unfold earlier; lia].
Qed.
Lemma sample_answers B (e : Call B) db b db' :
  sample_answer B e db = (b, db') → answers id sample_hash None B e db b db'.
Proof.
  destruct e as [consumer duration batch|tenant batch|claim|claim after| |a|]; cbn [sample_answer]; cbv zeta; intros [= <- <-].
  - apply an_claim, heard_answered.
  - eapply an_consume, learnt_consumed. apply rows_batch.
  - apply an_complete, heard_answered.
  - apply an_retry, heard_answered.
  - apply an_signal.
  - apply an_worker.
  - apply an_others. split; try done. intros k r Hr. exists r. by split_and!.
Qed.

(** ** The runs *)
Notation state := (sched_state (E := Call) (X := Empty_set) (N := Note) (S := Db) (A := unit)).
Definition prepared (kind : string) : state := {| shared := sample_db kind; processes := [(Ret tt, [n_other])] |}.
Definition appended_run (kind : string) : state :=
  play_all note sample_answer 1 [ask (Worker (sample_lease kind)); ask (Worker sample_append)] (prepared kind).
Definition cycle : P unit := _ ← scheduled_run sample_options sample_loop; mret tt.
Definition consumed_run (kind : string) : state := play_all note sample_answer 20 [cycle] (appended_run kind).

Lemma prepared_steps kind : rtc (runs id sample_hash None) nothing_yet (prepared kind).
Proof.
  eapply rtc_l; [apply sched_start, st_others|]. eapply rtc_l; [|done].
  apply (sched_call note _ _ _ unit 0 Others Ret [] tt empty_db (sample_db kind) [(ask Others, [])]); [done|]. apply an_others.
  split; cbn; try done; try apply map_empty_subseteq.
Qed.
Lemma appended_steps kind : rtc (runs id sample_hash None) nothing_yet (appended_run kind).
Proof.
  etrans; [apply prepared_steps|]. apply play_all_steps; [apply sample_answers|]. repeat constructor; apply st_worker.
Qed.
Lemma consumed_steps kind : rtc (runs id sample_hash None) nothing_yet (consumed_run kind).
Proof.
  etrans; [apply appended_steps|]. apply play_all_steps; [apply sample_answers|]. repeat constructor; apply st_cycle.
Qed.

(** ** What they show *)
Notation planning := "investigation.reproduction-planning".
Definition sample_decision (st : state) : option (ApplyStatus * option AppliedEffect) :=
  decision <$> (dispositions (shared st) !! ("tenant", "key")).
Example planning_applied :
  sample_decision (consumed_run planning) = Some (s_applied,
    Some {| aggregateType := "investigation"; aggregateId := "case"; newVersion := 3; summary := Investigation.reproducing |}).
Proof. vm_compute. reflexivity. Qed.
Example unknown_undecided : sample_decision (consumed_run "prd.planning") = None.
Proof. vm_compute. reflexivity. Qed.

(** ** The theorems on these runs *)
Lemma decision_row db k s e :
  decision <$> dispositions db !! k = Some (s, e) → ∃ d, dispositions db !! k = Some d ∧ d_status d = s ∧ d_effect d = e.
Proof. intros (d & Hd & [= -> ->])%fmap_Some. by exists d. Qed.
Lemma applied_results_justified_witness :
  ∃ d eff, dispositions (shared (consumed_run planning)) !! ("tenant", "key") = Some d ∧ d_status d = s_applied ∧
    d_effect d = Some eff ∧ justified None (shared (consumed_run planning)) "tenant" "key" eff.
Proof.
  destruct (decision_row _ _ _ _ planning_applied) as (d & Hd & Hs & _).
  destruct (applied_results_justified id sample_hash None _ "tenant" "key" d (consumed_steps planning) Hd Hs)
    as (eff & i & l & He & Hj & _).
  exists d, eff. exact (conj Hd (conj Hs (conj He Hj))).
Defined.

Definition sample_inbox : InboxRow :=
  {| i_job_id := "job"; i_worker_id := "worker"; lease_attempt := 1; i_lease_token_hash := "token"; lease_expires_at := 110;
     i_base_aggregate_version := 2; result_hash := "hash"; result_json := Some (JObj sample_result); accepted_at := 10 |}.
Lemma appended_inbox kind :
  kind ∈ [planning; "prd.planning"] → map_to_list (inbox (shared (appended_run kind))) = [(("tenant", "key"), sample_inbox)].
Proof. rewrite elem_of_cons, list_elem_of_singleton. intros [-> | ->]; vm_compute; reflexivity. Qed.
Lemma appended_row kind :
  kind ∈ [planning; "prd.planning"] → inbox (shared (appended_run kind)) !! ("tenant", "key") = Some sample_inbox.
Proof. intros H. apply elem_of_map_to_list. rewrite appended_inbox by done. by left. Qed.
Lemma one_result_per_job_witness :
  inbox (shared (appended_run planning)) !! ("tenant", "key") = Some sample_inbox ∧
  ∀ n l, leases (shared (appended_run planning)) !! (("tenant", "job"), n) = Some l → is_live l = false.
Proof.
  assert (planning ∈ [planning; "prd.planning"]) as Hin by (by left). pose proof (appended_row _ Hin) as Hi. split; [exact Hi|].
  exact (proj1 (proj2 (one_result_per_job id sample_hash None _ "tenant" "key" sample_inbox (appended_steps planning) Hi))).
Defined.

Lemma appended_pending : length (pendingResultQuery "tenant" (shared (appended_run planning))) = 1%nat.
Proof. vm_compute. reflexivity. Qed.
Lemma only_wakeup : fst <$> map_to_list (wakeups (shared (appended_run planning))) = ["tenant"].
Proof. vm_compute. reflexivity. Qed.
Lemma only_tenant t w : wakeups (shared (appended_run planning)) !! t = Some w → t = "tenant".
Proof.
  intros H%elem_of_map_to_list. apply (list_elem_of_fmap_2 fst) in H. rewrite only_wakeup in H.
  by apply list_elem_of_singleton in H.
Qed.
(** A claim of two tenants takes the only one there is. *)
Lemma pending_result_is_due_witness :
  ∃ w t0, wakeups (shared (appended_run planning)) !! "tenant" = Some w ∧ ∀ now, (t0 <= now)%Z →
    ∃ claims db', claimDueTenants true "server" 1000 2 now [] (shared (appended_run planning)) = (Ok claims, db') ∧
      WakeupSafety.claim_of "server" "tenant" w ∈ claims.
Proof.
  pose proof appended_pending as Hlen. remember (pendingResultQuery "tenant" (shared (appended_run planning))) as rows eqn:E.
  destruct rows as [|row rows]; [discriminate Hlen|].
  assert (row ∈ pendingResultQuery "tenant" (shared (appended_run planning))) as Hrow by (rewrite <- E; by left).
  destruct (WakeupSafety.pending_result_is_due id sample_hash None _ "tenant" row (appended_steps planning) Hrow)
    as (w & t0 & Hw & _ & Hdue).
  exists w, t0. split; [exact Hw|]. intros now Hnow.
  destruct (Hdue now Hnow) as [_ Hclaim].
  destruct (Hclaim "server" 1000%Z 2%Z []) as (claims & db' & Hr & Hnd & Hcase);
    [reflexivity|split; [reflexivity|discriminate]|split; [reflexivity|discriminate]|reflexivity|].
  exists claims, db'. split; [exact Hr|]. destruct Hcase as [[Hin _]|[Hfull Hall]]; [exact Hin|].
  destruct claims as [|c1 [|c2 claims]]; [discriminate Hfull|discriminate Hfull|]. exfalso.
  destruct (Hall c1) as (w1 & H1 & _); [by left|]. destruct (Hall c2) as (w2 & H2 & _); [by right; left|].
  apply only_tenant in H1, H2. cbn in Hnd. rewrite H1, H2 in Hnd. apply NoDup_cons in Hnd as [Hnd _]. apply Hnd. by left.
Defined.

(** ** The job that the executor does not know *)
Notation unknown := "prd.planning".
Definition poison_ok : bool :=
  match decodePendingPayload (row_of "key" sample_inbox (sample_job unknown)) with
  | Some (job, result) =>
      bool_decide (validateEnvelope job result = None) && bool_decide (terminalStatus result = succeeded) &&
      negb (overspent job result) && negb (strayEvidence job result) && production_allows job result &&
      bool_decide (jobType job = prd_planning) && String.eqb (r_idempotencyKey result) "key" &&
      String.eqb (ref_type (aggregateRef job)) "investigation" && String.eqb (ref_id (aggregateRef job)) "case" &&
      (baseAggregateVersion job =? 2)%Z
  | None => false
  end.
Lemma poison_decoded : poison_ok = true.
Proof. vm_compute. reflexivity. Qed.
Lemma unknown_rows :
  jobs (shared (appended_run unknown)) !! ("tenant", "job") = Some (sample_job unknown) ∧
  cases (shared (appended_run unknown)) !! ("tenant", "case") = Some sample_case ∧
  dispositions (shared (appended_run unknown)) !! ("tenant", "key") = None.
Proof. split_and!; vm_compute; reflexivity. Qed.
Lemma prd_unsupported job : jobType job = prd_planning → unsupported job.
Proof. unfold unsupported. intros ->. set_solver. Qed.
Lemma sample_poisons (db : Db) :
  cases db !! ("tenant", "case") = Some sample_case →
  ∃ job result, poisons None "tenant" db (row_of "key" sample_inbox (sample_job unknown)) job result.
Proof.
  intros Hc. pose proof poison_decoded as H. unfold poison_ok in H. destruct (decodePendingPayload _) as [[job result]|] eqn:Hdec; [|done].
  to_prop. exists job, result. repeat match goal with E : String.eqb _ _ = true |- _ => apply String.eqb_eq in E end.
  split; [done|by split|by apply prd_unsupported|done|].
  unfold case_version. rename select (ref_type _ = _) into E1. rename select (ref_id _ = _) into E2.
  rewrite E1, E2, Hc. cbn. congruence.
Qed.
Lemma sample_stuck :
  ∃ job result, stuck None "tenant" "key" sample_inbox (sample_job unknown) job result (shared (appended_run unknown)).
Proof.
  destruct unknown_rows as (Hj & Hc & Hd). destruct (sample_poisons _ Hc) as (job & result & Hp). exists job, result.
  assert (unknown ∈ [planning; unknown]) as Hin by (right; left).
  split; [exact (appended_row _ Hin)|exact Hj|exact Hd| |exact Hp].
  intros k' i' Hi' _ Hne. apply elem_of_map_to_list in Hi'. rewrite (appended_inbox _ Hin) in Hi'.
  apply list_elem_of_singleton in Hi'. injection Hi' as E _. by destruct Hne.
Qed.
(** Another worker asks for a job, and the server for the tenants that are due. *)
Definition sample_later : Db :=
  set_wakeups (λ _, ∅) (worker_step id sample_hash (sample_lease planning) true 20 (shared (appended_run unknown))).
Lemma poison_result_blocks_witness :
  ∃ job result, stuck None "tenant" "key" sample_inbox (sample_job unknown) job result (shared (appended_run unknown)) ∧
    rtc (later id sample_hash None "tenant" sample_inbox job) (shared (appended_run unknown)) sample_later ∧
    ∀ batch now rows sig, a_batch "tenant" sample_later batch rows →
      ∃ e t, consumeForTenant id "tenant" None batch now rows {| tables := sample_later; signal := sig |} = (Throw e, t) ∧
             tables t = sample_later.
Proof.
  destruct sample_stuck as (job & result & H). exists job, result. split; [exact H|].
  assert (rtc (later id sample_hash None "tenant" sample_inbox job) (shared (appended_run unknown)) sample_later) as Hl.
  { eapply rtc_l; [apply (la_worker _ _ _ _ _ _ (sample_lease planning) true 20); reflexivity|]. apply rtc_once, la_wakeups. }
  split; [exact Hl|].
  exact (proj2 (poison_result_blocks id sample_hash None "tenant" _ _ _ _ _ _ _ (appended_steps unknown) H Hl)).
Defined.
End ResultSample.
