(* ===== verification/Coordinator.v ===== *)
(** * The investigation coordinator

    Models [core-modules/investigation/src/application/investigation-coordinator.ts]:
    a bounded investigation of a finding in memory.  The model proposes, the gate of
    [Intelligence] decides, the aggregate of [Investigation] keeps the rules and the
    runner makes the attempts. *)
From S2P Require Import Prelude Number Json TestPlan Investigation Intelligence Interact.
From stdpp Require Import pretty.

Module Coordinator.
Import Intelligence.
#[local] Existing Instance Investigation.InvestigationStatus_eq_dec.
#[local] Existing Instance Investigation.ReproductionOutcome_eq_dec.

Record InvestigationCoordinatorConfig := {
  tenantId : string;
  modelProfileId : string;
  dataPolicyId : string;
  jobBudget : IntelligenceJobBudget;
  maxPlanRevisions : Z;
}.
Record InvestigateInput := {
  i_caseId : string;
  i_findingId : string;
  i_projectId : string;
  i_budget : Investigation.InvestigationBudget;
  i_inputRefs : list string;
}.
Record InvestigationOutcome := {
  o_caseId : string;
  o_status : Investigation.InvestigationStatus;
  o_attempts : list Investigation.ReproductionAttempt;
  o_bugEpisode : option Investigation.BugEpisode;
  o_handoff : option Investigation.HumanHandoff;
}.
Record ReproductionPlanningContext := {
  p_caseId : string;
  p_findingId : string;
  p_planRevision : Z;
  priorAttempts : list Investigation.ReproductionAttempt;
}.
Record BugAnalysisContext := {
  a_caseId : string;
  a_findingId : string;
  reproducedAttempts : list Investigation.ReproductionAttempt;
}.

(** ** Calls: the identity supply, the model and the runner; the last two may reject *)
Inductive Call : Type → Type :=
  | NewId : Call string
  | ProposeReproductionPlan (job : IntelligenceJob) (context : ReproductionPlanningContext)
      : Call (outcome unit IntelligenceResult)
  | AnalyzeBug (job : IntelligenceJob) (context : BugAnalysisContext) : Call (outcome unit IntelligenceResult)
  | Reproduce (plan : ReproductionPlan) : Call (outcome unit Investigation.ReproductionAttemptDraft).

(** ** The state in memory *)
Record Memory := {
  investigation : Investigation.Case;
  ledger : gmap string AppliedEffect;
  planSnapshots : gmap Z ReproductionPlan;
}.
Notation M := (js Memory Thrown).
Definition set_investigation (c : Investigation.Case) (m : Memory) : Memory :=
  {| investigation := c; ledger := ledger m; planSnapshots := planSnapshots m |}.
Definition set_ledger (f : gmap string AppliedEffect → gmap string AppliedEffect) (m : Memory) : Memory :=
  {| investigation := investigation m; ledger := f (ledger m); planSnapshots := planSnapshots m |}.
Definition set_plan (plan : ReproductionPlan) (m : Memory) : Memory :=
  {| investigation := investigation m; ledger := ledger m;
     planSnapshots := <[plan_revision plan := plan]> (planSnapshots m) |}.

(** A command of the aggregate. *)
Definition command {A} (m : Investigation.M A) : M A := λ s,
  match m (investigation s) with
  | (Ok a, c) => (Ok a, set_investigation c s)
  | (Throw (Investigation.NegativeConsumption _), c) => (Throw PlainError, set_investigation c s)
  | (Throw e, c) => (Throw (InvestigationError e), set_investigation c s)
  end.
Definition lift {A} (o : outcome Thrown A) : M A := match o with Ok a => mret a | Throw e => throw e end.
Definition base (key : string) : M Investigation.InvestigationCommandBase :=
  gets (λ s, {| Investigation.expectedVersion := Investigation.version (investigation s);
                Investigation.idempotencyKey := key |}).

(** ** The ports of the gate *)
Definition CaseVersionReader_currentVersion (ref : IntelligenceAggregateRef) : M (option Z) :=
  gets (λ s, if negb (String.eqb (ref_type ref) "investigation") ||
                negb (String.eqb (ref_id ref) (Investigation.caseId (investigation s))) then None
             else Some (Investigation.version (investigation s))).
Definition InMemoryAppliedResultLedger_find (key : string) : M (option AppliedEffect) := gets (λ s, ledger s !! key).
Definition InMemoryAppliedResultLedger_record (key : string) (effect : AppliedEffect) : M unit :=
  modify (set_ledger (<[key := effect]>)).
Definition effect (status : Investigation.InvestigationStatus) : M AppliedEffect :=
  gets (λ s, {| aggregateType := "investigation"; aggregateId := Investigation.caseId (investigation s);
                newVersion := Investigation.version (investigation s); summary := status |}).
Definition InvestigationCommandExecutor_execute (job : IntelligenceJob) (result : IntelligenceResult) : M AppliedEffect :=
  match jobType job with
  | investigation_reproduction_planning =>
      b ← base (r_idempotencyKey result);
      transition ← command (Investigation.startReproduction b);
      caseId ← gets (λ s, Investigation.caseId (investigation s));
      revision ← gets (λ s, Investigation.planRevision (investigation s));
      plan ← lift (reproductionPlanFromResult caseId revision result);
      _ ← modify (set_plan plan);
      effect (Investigation.toStatus transition)
  | investigation_bug_analysis =>
      caseId ← gets (λ s, Investigation.caseId (investigation s));
      draft ← lift (bugEpisodeDraftFromResult result (caseId +:+ ":episode:" +:+ r_idempotencyKey result));
      try_catch
        (b ← base (r_idempotencyKey result);
         transition ← command (Investigation.confirm b draft);
         effect (Investigation.toStatus transition))
        (λ e,
          match e with
          | InvestigationError Investigation.InvestigationConfirmationRejected
          | InvestigationError Investigation.InvestigationAttemptUnknown =>
              b ← base (r_idempotencyKey result +:+ ":escalate");
              transition ← command (Investigation.escalateToHuman b (analysis_handoff result));
              effect (Investigation.toStatus transition)
          | _ => throw e
          end)
  | _ => throw PlainError
  end.
#[export] Instance memory_ports : Ports Memory := {|
  ledger_find := InMemoryAppliedResultLedger_find;
  ledger_record := InMemoryAppliedResultLedger_record;
  currentVersion := CaseVersionReader_currentVersion;
  execute := InvestigationCommandExecutor_execute;
  policy := None;
  aborted := mret false;
|}.

(** ** The investigation

    [local] runs a computation on the memory; what it throws the method throws. *)
Notation P := (prog Call (option Thrown)).
Definition local {A} (m : M A) (s : Memory) : P (A * Memory) :=
  match m s with (Ok a, s') => mret (a, s') | (Throw e, _) => Fail (Some e) end.
Definition call {A} (e : Call (outcome unit A)) : P A :=
  r ← ask e; match r with Ok a => mret a | Throw _ => Fail None end.

Definition outcome_of (s : Memory) : InvestigationOutcome :=
  let c := investigation s in
  {| o_caseId := Investigation.caseId c; o_status := Investigation.status c; o_attempts := Investigation.attempts c;
     o_bugEpisode := Investigation.bugEpisode c; o_handoff := Investigation.handoff c |}.
Definition code_text (c : IntelligenceRejectionCode) : string :=
  match c with
  | SchemaInvalid => "SchemaInvalid"
  | TerminalNotSucceeded => "TerminalNotSucceeded"
  | BudgetExceeded => "BudgetExceeded"
  | PolicyViolation => "PolicyViolation"
  | EvidenceMismatch => "EvidenceMismatch"
  end.
Definition escalate (s : Memory) (reason : string) : P InvestigationOutcome :=
  if includes [Investigation.investigating; Investigation.reproducing] (Investigation.status (investigation s)) then
    r ← local (b ← base (Investigation.caseId (investigation s) +:+ ":escalate:" +:+ reason);
               command (Investigation.escalateToHuman b
                 {| Investigation.d_bestHypothesis := "Automated reproduction could not reach a conclusion.";
                    Investigation.d_lastDivergence := None;
                    Investigation.d_keyEvidenceRefs := [];
                    Investigation.d_suggestedActions := ["Assign a human reviewer."];
                    Investigation.d_limitationCodes := [reason] |})) s;
    mret (outcome_of r.2)
  else mret (outcome_of s).

Section investigate.
Context (config : InvestigationCoordinatorConfig) (input : InvestigateInput).

Definition job_input (id key : string) (s : Memory) : BuildIntelligenceJobInput :=
  {| b_jobId := id; b_caseId := i_caseId input; b_projectId := i_projectId input; b_tenantId := tenantId config;
     b_baseAggregateVersion := Investigation.version (investigation s); b_inputRefs := i_inputRefs input;
     b_modelProfileId := modelProfileId config; b_dataPolicyId := dataPolicyId config; b_budget := jobBudget config;
     b_idempotencyKey := key; b_causationId := i_findingId input |}.
Definition reproduced_attempts (s : Memory) : list Investigation.ReproductionAttempt :=
  List.filter (λ a, bool_decide (Investigation.attempt_outcome a = Investigation.reproduced))
    (Investigation.attempts (investigation s)).

(** A revision ends the investigation or goes on with what it left in memory. *)
Definition plan_step (revision : nat) (s : Memory) : P (IntelligenceJob * IntelligenceResult) :=
  id ← ask NewId;
  let job := buildReproductionPlanningJob (job_input id (i_caseId input +:+ ":plan:" +:+ pretty (N.of_nat revision)) s) in
  result ← call (ProposeReproductionPlan job
    {| p_caseId := i_caseId input; p_findingId := i_findingId input; p_planRevision := Z.of_nat revision + 1;
       priorAttempts := Investigation.attempts (investigation s) |});
  mret (job, result).
Definition analysis_step (revision : nat) (s : Memory) : P (InvestigationOutcome + Memory) :=
  id ← ask NewId;
  let job := buildBugAnalysisJob (job_input id (i_caseId input +:+ ":analysis:" +:+ pretty (N.of_nat revision)) s) in
  result ← call (AnalyzeBug job
    {| a_caseId := i_caseId input; a_findingId := i_findingId input; reproducedAttempts := reproduced_attempts s |});
  r ← local (apply job result) s;
  if includes [Investigation.confirmed; Investigation.needs_human] (Investigation.status (investigation r.2))
  then mret (inl (outcome_of r.2)) else mret (inr r.2).
Definition is_needs_human (s : Memory) : bool :=
  bool_decide (Investigation.status (investigation s) = Investigation.needs_human).
Definition attempt_step (revision : nat) (plan : ReproductionPlan) (s : Memory) : P (InvestigationOutcome + Memory) :=
  attempt ← call (Reproduce plan);
  r ← local (b ← base (i_caseId input +:+ ":attempt:" +:+ Investigation.d_attemptId attempt);
             command (Investigation.appendAttempt b attempt)) s;
  let s := r.2 in
  if is_needs_human s then mret (inl (outcome_of s))
  else if bool_decide (Investigation.d_outcome attempt = Investigation.reproduced) then analysis_step revision s
  else mret (inr s).
Definition revise (revision : nat) (s : Memory) : P (InvestigationOutcome + Memory) :=
  jr ← plan_step revision s;
  r ← local (apply jr.1 jr.2) s;
  let s := r.2 in
  match r.1 with
  | rejected code => o ← escalate s ("plan_" +:+ code_text code); mret (inl o)
  | _ =>
      if is_needs_human s then mret (inl (outcome_of s))
      else match planSnapshots s !! Investigation.planRevision (investigation s) with
           | None => o ← escalate s "plan_missing_snapshot"; mret (inl o)
           | Some plan => attempt_step revision plan s
           end
  end.
Fixpoint revisions (remaining revision : nat) (s : Memory) : P InvestigationOutcome :=
  match remaining with
  | O => escalate s "plan_revisions_exhausted"
  | S remaining =>
      r ← revise revision s;
      match r with inl o => mret o | inr s => revisions remaining (S revision) s end
  end.
Definition opened : Memory :=
  {| investigation := Investigation.open
       {| Investigation.open_caseId := i_caseId input; Investigation.open_findingId := i_findingId input;
          Investigation.open_projectId := i_projectId input; Investigation.open_budget := i_budget input |};
     ledger := ∅; planSnapshots := ∅ |}.
Definition investigate : P InvestigationOutcome :=
  r ← local (b ← base (i_caseId input +:+ ":start"); command (Investigation.startInvestigation b)) opened;
  revisions (Z.to_nat (maxPlanRevisions config)) 0 r.2.
End investigate.
End Coordinator.
