(* ===== verification/CoordinatorSafety.v ===== *)
(** * How an investigation ends

    Whatever the model and the runner answer, an investigation of [Coordinator] that
    ends is confirmed or handed to a human; what is confirmed rests on an attempt that
    the runner reported as reproduced; and the runner is called once for each plan
    revision at most. *)
From S2P Require Import Prelude Number Json CanonicalJson TestPlan Investigation Intelligence Interact Coordinator.
From stdpp Require Import pretty.

Module CoordinatorSafety.
Import Intelligence Coordinator.
#[local] Existing Instance Investigation.InvestigationStatus_eq_dec.
#[local] Existing Instance Investigation.ReproductionOutcome_eq_dec.

(** ** What one command of the aggregate may change *)
Record turns (key : string) (to : list Investigation.InvestigationStatus) (new : list Investigation.ReproductionAttempt)
    (c c' : Investigation.Case) : Prop := {
  tn_case : Investigation.caseId c' = Investigation.caseId c;
  tn_budget : Investigation.budget c' = Investigation.budget c;
  tn_keys k : k ≠ key → Investigation.transitions c' !! k = Investigation.transitions c !! k;
  tn_status : Investigation.status c' = Investigation.status c ∨ Investigation.status c' ∈ to;
  tn_attempts a : a ∈ Investigation.attempts c' → a ∈ Investigation.attempts c ∨ a ∈ new;
}.
Lemma turns_refl key to new c : turns key to new c c.
Proof. split; auto. Qed.
Lemma turns_commit key to new c c1 t s :
  Investigation.caseId c1 = Investigation.caseId c → Investigation.budget c1 = Investigation.budget c → Investigation.transitions c1 = Investigation.transitions c →
  (∀ a, a ∈ Investigation.attempts c1 → a ∈ Investigation.attempts c ∨ a ∈ new) →
  Investigation.t_idempotencyKey t = key → Investigation.toStatus t = s → s ∈ to →
  turns key to new c (Investigation.record_transition t c1).
Proof.
  intros Hc Hb Ht Ha Hk Hs Hto. split; cbn; [done|done| |right; by rewrite Hs|done].
  intros k Hne. rewrite Hk, lookup_insert_ne by done. by rewrite Ht.
Qed.

Ltac commits := repeat (apply wp_bind, wp_get || apply wp_bind, wp_modify || apply wp_ret).
Lemma commit_turns key base to extras new allowed c c1 (R : Investigation.Thrown → Investigation.Case → Prop) :
  Investigation.caseId c1 = Investigation.caseId c → Investigation.budget c1 = Investigation.budget c → Investigation.transitions c1 = Investigation.transitions c →
  (∀ a, a ∈ Investigation.attempts c1 → a ∈ Investigation.attempts c ∨ a ∈ new) →
  Investigation.idempotencyKey base = key → to ∈ allowed →
  wp (Investigation.commit base to extras) (λ t c', turns key allowed new c c' ∧ Investigation.status c' = to) R c1.
Proof. intros. unfold Investigation.commit. commits. split; [by eapply turns_commit|done]. Qed.
Lemma commit_turns_only key base to extras new allowed c c1 (R : Investigation.Thrown → Investigation.Case → Prop) :
  Investigation.caseId c1 = Investigation.caseId c → Investigation.budget c1 = Investigation.budget c → Investigation.transitions c1 = Investigation.transitions c →
  (∀ a, a ∈ Investigation.attempts c1 → a ∈ Investigation.attempts c ∨ a ∈ new) →
  Investigation.idempotencyKey base = key → to ∈ allowed →
  wp (Investigation.commit base to extras) (λ _ c', turns key allowed new c c') R c1.
Proof. intros. eapply (wp_mono _ _ _ R); [by eapply commit_turns|by intros ?? []|done]. Qed.

Section commands.
Context (b : Investigation.InvestigationCommandBase) (c : Investigation.Case).
Notation key := (Investigation.idempotencyKey b).
Notation any := (λ _ _, True).

Lemma start_turns :
  wp (Investigation.startInvestigation b) (λ _ c', turns key [Investigation.investigating] [] c c') any c.
Proof.
  apply Investigation.wp_unless_replayed; [intros; apply turns_refl|intros _]. apply Investigation.wp_guards; [done|intros _ _].
  apply commit_turns_only; auto; set_solver.
Qed.
Lemma plan_turns :
  wp (Investigation.startReproduction b)
    (λ _ c', turns key [Investigation.reproducing; Investigation.needs_human] [] c c') any c.
Proof.
  apply Investigation.wp_unless_replayed; [intros; apply turns_refl|intros _]. apply Investigation.wp_guards; [done|intros _ _].
  unfold Investigation.consumePlanRevision. wp_run.
  - unfold Investigation.commitNeedsHuman. apply wp_bind, wp_get, wp_bind, wp_modify.
    apply commit_turns_only; auto; set_solver.
  - apply commit_turns_only; auto; set_solver.
Qed.
Lemma attempt_turns d :
  wp (Investigation.appendAttempt b d)
    (λ _ c', turns key [Investigation.reproducing; Investigation.needs_human] [Investigation.stamp c d] c c') any c.
Proof.
  apply Investigation.wp_unless_replayed; [intros; apply turns_refl|intros _]. apply Investigation.wp_guards; [done|intros _ _].
  set (step := λ c1, Investigation.caseId c1 = Investigation.caseId c ∧ Investigation.budget c1 = Investigation.budget c ∧ Investigation.transitions c1 = Investigation.transitions c ∧
    ∀ a, a ∈ Investigation.attempts c1 → a ∈ Investigation.attempts c ∨ a ∈ [Investigation.stamp c d]).
  apply wp_bind, wp_gets, wp_bind, wp_modify, wp_bind.
  assert (step (Investigation.push_attempt (Investigation.stamp c d) c)) as H0.
  { split_and!; [done..|]. cbn. intros a Ha. set_solver. }
  assert (∀ u dim c1, step c1 → wp (Investigation.consume_checked u dim) (λ _ c2, step c2) any c1) as Hcons.
  { intros u dim c1 H1. unfold Investigation.consume_checked, Investigation.nonNegative. wp_run; done. }
  eapply (wp_mono _ (λ _ c2, step c2) _ any); [| |done].
  - unfold Investigation.consumeAttempt. apply wp_bind, wp_modify.
    do 4 (apply wp_bind; eapply wp_mono; [by apply Hcons|cbv beta; intros [] ? ?|done]). by apply wp_gets.
  - intros r c1 (Hc & Hb & Ht & Ha). destruct (_ && _).
    + unfold Investigation.commitNeedsHuman. apply wp_bind, wp_get, wp_bind, wp_modify.
      apply commit_turns_only; auto; set_solver.
    + apply commit_turns_only; auto; set_solver.
Qed.
Lemma confirm_turns d :
  wp (Investigation.confirm b d) (λ _ c', turns key [Investigation.confirmed] [] c c') (λ _ c', c' = c) c.
Proof.
  apply Investigation.wp_unless_replayed; [intros; apply turns_refl|intros _]. unfold Investigation.require_status, Investigation.assertExpectedVersion.
  wp_run; try done. apply commit_turns_only; auto; set_solver.
Qed.
Lemma escalate_turns d :
  Investigation.transitions c !! key = None →
  wp (Investigation.escalateToHuman b d)
    (λ _ c', turns key [Investigation.needs_human] [] c c' ∧ Investigation.status c' = Investigation.needs_human) any c.
Proof.
  intros Hk. apply Investigation.wp_unless_replayed; [by rewrite Hk|intros _]. apply Investigation.wp_guards; [done|intros _ _].
  apply wp_bind, wp_get. cbv zeta. apply wp_bind, wp_modify. apply commit_turns; auto; set_solver.
Qed.
Lemma escalate_turns_any d :
  wp (Investigation.escalateToHuman b d) (λ _ c', turns key [Investigation.needs_human] [] c c') any c.
Proof.
  apply Investigation.wp_unless_replayed; [intros; apply turns_refl|intros _]. apply Investigation.wp_guards; [done|intros _ _].
  apply wp_bind, wp_get. cbv zeta. apply wp_bind, wp_modify.
  apply commit_turns_only; auto; set_solver.
Qed.
End commands.

(** ** Histories *)
Inductive Note := n_attempt (o : outcome unit Investigation.ReproductionAttemptDraft) | n_other.
Definition note (B : Type) (e : Call B) : B → Note :=
  match e in Call B return B → Note with Reproduce _ => n_attempt | _ => λ _, n_other end.
Definition reproductions (h : list Note) : nat :=
  length (List.filter (λ n, match n with n_attempt _ => true | n_other => false end) h).
(** The runner reported this attempt. *)
Definition answered (h : list Note) (a : Investigation.ReproductionAttempt) : Prop :=
  ∃ d, n_attempt (Ok d) ∈ h ∧ Investigation.attemptId a = Investigation.d_attemptId d ∧
    Investigation.attempt_outcome a = Investigation.d_outcome d.
Lemma answered_cons n h a : answered h a → answered (n :: h) a.
Proof. intros (d & Hd & H). exists d. split; [by right|done]. Qed.

Section investigation.
Context (config : InvestigationCoordinatorConfig) (input : InvestigateInput).
Notation P := (prog Call (option Thrown)).
Notation allowed := (λ (B : Type) (h : list Note) (e : Call B),
  match e with Reproduce _ => reproductions h < Z.to_nat (maxPlanRevisions config) | _ => True end).
Notation tri p F h := (tri note (λ _ _ _, True) allowed p
  (λ o h', match o with Ok x => F x h' | Throw _ => True end) h).

Definition in_status (l : list Investigation.InvestigationStatus) (s : Memory) : Prop := Investigation.status (investigation s) ∈ l.
Notation live := [Investigation.investigating; Investigation.reproducing].
Lemma in_status_mono l l' s : l ⊆ l' → in_status l s → in_status l' s.
Proof. intros Hl Hs. by apply Hl. Qed.
Lemma in_status_after l to l' s s' :
  in_status l s → Investigation.status (investigation s') = Investigation.status (investigation s) ∨ in_status to s' →
  l ⊆ l' → to ⊆ l' → in_status l' s'.
Proof. intros Hs [E|Hto] Hl Ht; unfold in_status in *; [rewrite E; by apply Hl|by apply Ht]. Qed.
Record settled (h : list Note) (s : Memory) : Prop := {
  se_inv : Investigation.Inv (investigation s);
  se_budget : Investigation.budget (investigation s) = i_budget input;
  se_attempts a : a ∈ Investigation.attempts (investigation s) → answered h a;
}.
(** Between two steps the case was not escalated by the coordinator yet. *)
Record held (h : list Note) (s : Memory) : Prop := {
  hd_settled : settled h s;
  hd_case : Investigation.caseId (investigation s) = i_caseId input;
  hd_free r : Investigation.transitions (investigation s) !! (i_caseId input +:+ ":escalate:" +:+ r) = None;
}.
Lemma held_cons n h s : held h s → held (n :: h) s.
Proof. intros [[? ? Ha] ? ?]; split; [split|..]; [done..| |done|done]. intros a Hin. by apply answered_cons, Ha. Qed.

Record ended (h : list Note) (o : InvestigationOutcome) : Prop := {
  en_status : o_status o ∈ [Investigation.confirmed; Investigation.needs_human];
  en_attempts a : a ∈ o_attempts o → answered h a;
  en_confirmed : o_status o = Investigation.confirmed →
    ∃ e a, o_bugEpisode o = Some e ∧ a ∈ o_attempts o ∧ Investigation.attempt_outcome a = Investigation.reproduced ∧
      Investigation.attemptId a ∈ Investigation.confirmedAttemptIds e ∧
      num_ltb (Investigation.episode_confidence e) (Investigation.confirmationConfidenceThreshold (i_budget input)) = false;
  en_handoff : o_status o = Investigation.needs_human → is_Some (o_handoff o);
}.
Lemma settled_ended h s :
  settled h s → in_status [Investigation.confirmed; Investigation.needs_human] s → ended h (outcome_of s).
Proof.
  intros [[Hcore Hst] Hb Ha] Hs. split; cbn; [done|done| |apply Hst].
  intros Hc. destruct (Investigation.si_confirmed _ _ Hst Hc) as [e He].
  destruct (Investigation.si_episode _ _ Hst _ He) as (_ & _ & _ & Ht & (a & Hin & Hr & Hid) & _). exists e, a.
  rewrite (Investigation.core_threshold _ Hcore), Hb in Ht. by split_and!.
Qed.

(** ** Commands in memory *)
Lemma wp_run_inv cmd c : Investigation.Inv c → wp (Investigation.run cmd) (λ _, Investigation.Inv) (λ _, Investigation.Inv) c.
Proof.
  intros H. eapply wp_mono; [by apply Investigation.run_spec| |].
  - intros t c' [[_ ->]|(_ & _ & ?)]; done.
  - by intros e c' (_ & _ & ?).
Qed.
Lemma wp_command_turns cmd key to new h s (X : Investigation.Case → Prop) Rc (R : Thrown → Memory → Prop) :
  settled h s → (∀ a, a ∈ new → answered h a) → (∀ e e' c', Rc e c' → R e' (set_investigation c' s)) →
  wp (Investigation.run cmd) (λ _ c', turns key to new (investigation s) c' ∧ X c') Rc (investigation s) →
  wp (command (Investigation.run cmd))
    (λ _ s', settled h s' ∧ turns key to new (investigation s) (investigation s') ∧ X (investigation s')) R s.
Proof.
  intros [Hi Hb Ha] Hnew HR Hwp. pose proof (wp_and _ _ _ _ _ _ Hwp (wp_run_inv cmd _ Hi)) as Hw.
  unfold wp, command in *. destruct (Investigation.run cmd (investigation s)) as [[t|e] c'].
  - destruct Hw as [[Ht HX] Hinv]. split; [|by split]. destruct Ht as [_ Tb _ _ Ta]. split; cbn; [done|by rewrite Tb|].
    intros a [?|?]%Ta; auto.
  - destruct e; by eapply HR, Hw.
Qed.
Lemma wp_command cmd key to new h s Rc (R : Thrown → Memory → Prop) :
  held h s → (∀ r, key ≠ i_caseId input +:+ ":escalate:" +:+ r) → (∀ a, a ∈ new → answered h a) →
  (∀ e e' c', Rc e c' → R e' (set_investigation c' s)) →
  wp (Investigation.run cmd) (λ _ c', turns key to new (investigation s) c') Rc (investigation s) →
  wp (command (Investigation.run cmd))
    (λ _ s', held h s' ∧ (Investigation.status (investigation s') = Investigation.status (investigation s) ∨ in_status to s')) R s.
Proof.
  intros [Hs Hc Hf] Hkey Hnew HR Hwp. eapply wp_mono; [eapply (wp_command_turns cmd key to new h s (λ _, True)); try done| |done].
  - by eapply wp_mono; [exact Hwp|split|].
  - intros t s' (Hs' & [Tc _ Tk Ts _] & _). split; [|exact Ts]. split; [done|by rewrite Tc|].
    intros r. rewrite Tk; [apply Hf|]. intros E. by apply (Hkey r).
Qed.
(** The key of a step is none of the escalations of the case. *)
Lemma key_free suffix rest : 
  (∀ r, suffix +:+ rest ≠ ":escalate:" +:+ r) → ∀ r, i_caseId input +:+ suffix +:+ rest ≠ i_caseId input +:+ ":escalate:" +:+ r.
Proof. intros H r E. by apply (inj (String.app (i_caseId input))), H in E. Qed.

(** ** The gate *)
Lemma wp_gate job result h s to :
  held h s → in_status to s →
  (r_idempotencyKey result = idempotencyKey job →
   wp (InvestigationCommandExecutor_execute job result) (λ _ s', held h s' ∧ in_status to s') (λ _ _, True) s) →
  wp (apply job result) (λ _ s', held h s' ∧ in_status to s') (λ _ _, True) s.
Proof.
  intros H Hs Hex. unfold apply. destruct (validateEnvelope job result) as [code|] eqn:Henv; [done|].
  apply envelope_keys in Henv as [Hk _]. specialize (Hex Hk).
  assert (∀ (m : js Memory Thrown ApplyResult), wp m (λ _ s', held h s' ∧ in_status to s') (λ _ _, True) s →
    wp (_ ← throwIfAborted; m) (λ _ s', held h s' ∧ in_status to s') (λ _ _, True) s) as Hab by done.
  apply Hab, wp_bind, wp_gets, Hab. destruct (ledger s !! _); [done|]. apply wp_bind, wp_gets, Hab.
  do 5 (match goal with |- context [if ?b then _ else _] => destruct b; [done|] end).
  apply Hab, wp_bind. eapply wp_mono; [exact Hex| |done]. intros eff s' [[[] ? ?] Hs']. apply wp_bind, wp_modify, wp_ret. by split; [split; [split|..]|].
Qed.
Lemma wp_plan job result h s :
  jobType job = investigation_reproduction_planning → (∃ n, idempotencyKey job = i_caseId input +:+ ":plan:" +:+ n) →
  held h s → in_status live s →
  wp (apply job result)
    (λ _ s', held h s' ∧ in_status [Investigation.investigating; Investigation.reproducing; Investigation.needs_human] s')
    (λ _ _, True) s.
Proof.
  intros Hj [n Hn] H Hs. apply wp_gate; [done|by eapply in_status_mono; [|exact Hs]; set_solver|]. intros Hk.
  unfold InvestigationCommandExecutor_execute. rewrite Hj. apply wp_bind, wp_gets, wp_bind.
  eapply wp_mono; [eapply (wp_command (Investigation.StartReproduction _) _ _ [] h s (λ _ _, True) (λ _ _, True));
    [done| | |done|apply plan_turns]| |done].
  - cbn. rewrite Hk, Hn. by apply key_free.
  - set_solver.
  - intros t s' [H' Hs']. apply wp_bind, wp_gets, wp_bind, wp_gets, wp_bind.
    unfold lift. destruct (reproductionPlanFromResult _ _ _) as [plan|e]; [apply wp_ret|done].
    apply wp_bind, wp_modify, wp_gets. destruct H' as [[] ? ?]. split; [done|]. eapply in_status_after; [exact Hs|exact Hs'|set_solver..].
Qed.
Lemma wp_analysis job result h s :
  jobType job = investigation_bug_analysis → (∃ n, idempotencyKey job = i_caseId input +:+ ":analysis:" +:+ n) →
  held h s → in_status live s →
  wp (apply job result)
    (λ _ s', held h s' ∧ in_status (live ++ [Investigation.confirmed; Investigation.needs_human]) s') (λ _ _, True) s.
Proof.
  intros Hj [n Hn] H Hs. apply wp_gate; [done|by eapply in_status_mono; [|exact Hs]; set_solver|]. intros Hk.
  unfold InvestigationCommandExecutor_execute. rewrite Hj. apply wp_bind, wp_gets, wp_bind.
  unfold lift. destruct (bugEpisodeDraftFromResult _ _) as [draft|e]; [apply wp_ret|done]. apply wp_try_catch, wp_bind, wp_gets, wp_bind.
  assert (∀ suffix, ∀ r, r_idempotencyKey result +:+ suffix ≠ i_caseId input +:+ ":escalate:" +:+ r) as Hfree.
  { intros suffix. rewrite Hk, Hn, !CanonicalJson.append_assoc. by apply key_free. }
  eapply wp_mono; [eapply (wp_command (Investigation.ConfirmBug _ draft) _ _ [] h s (λ _ c', c' = investigation s) (λ _ s', s' = s));
    [done| | | |apply confirm_turns]| |].
  - cbn. rewrite Hk, Hn. by apply key_free.
  - set_solver.
  - intros e e' c' ->. by destruct s.
  - intros t s' [H' Hs']. split; [done|]. eapply in_status_after; [exact Hs|exact Hs'|set_solver..].
  - intros e s' ->. destruct e as [|e| |]; try done. 
    assert (wp (b ← base (r_idempotencyKey result +:+ ":escalate"); transition ← command (Investigation.escalateToHuman b (analysis_handoff result));
                effect (Investigation.toStatus transition))
      (λ _ s', held h s' ∧ in_status (live ++ [Investigation.confirmed; Investigation.needs_human]) s') (λ _ _, True) s) as Hesc.
    { apply wp_bind, wp_gets, wp_bind.
      eapply wp_mono; [eapply (wp_command (Investigation.EscalateToHuman _ _) _ _ [] h s (λ _ _, True) (λ _ _, True));
        [done| | |done|apply escalate_turns_any]| |done]; [apply Hfree|set_solver|].
      intros t s' [H' Hs']. apply wp_gets. split; [done|]. eapply in_status_after; [exact Hs|exact Hs'|set_solver..]. }
    by destruct e.
Qed.

(** ** The whole investigation *)
Lemma tri_local {A} (m : js Memory Thrown A) (F : A * Memory → list Note → Prop) h s :
  wp m (λ a s', F (a, s') h) (λ _ _, True) s → tri (local m s) F h.
Proof. unfold wp, local. by destruct (m s) as [[a|e] s']. Qed.
Lemma tri_then {A B} (p : P A) (k : A → P B) (F : B → list Note → Prop) (G : A → list Note → Prop) h :
  tri p G h → (∀ a h', G a h' → tri (k a) F h') → tri (p ≫= k) F h.
Proof. intros Hp Hk. apply tri_bind. eapply tri_mono; [exact Hp|]. intros [a|e] h'; [apply Hk|done]. Qed.
(** A call to the model or to the runner: it answers, or the method throws. *)
Lemma tri_service {A} (e : Call (outcome unit A)) (F : A → list Note → Prop) h :
  match e with Reproduce _ => reproductions h < Z.to_nat (maxPlanRevisions config) | _ => True end →
  (∀ a, F a (note _ e (Ok a) :: h)) → tri (call e) F h.
Proof.
  intros He HF. apply tri_bind, tri_ask; [exact He|]. intros b _. destruct b as [a|[]]; cbn; [apply HF|done].
Qed.

Notation post F := (λ o h', match o with Ok x => F x h' | Throw _ => True end).
Lemma tri_escalate h s reason :
  held h s → in_status [Investigation.investigating; Investigation.reproducing; Investigation.needs_human] s →
  tri (escalate s reason) (λ o h', ended h' o) h.
Proof.
  intros H Hs. unfold escalate. destruct (includes _ _) eqn:E.
  - eapply tri_then; [apply (tri_local _ (λ r h', settled h' r.2 ∧ in_status [Investigation.needs_human] r.2))|].
    + apply wp_bind, wp_gets. rewrite (hd_case _ _ H).
      eapply wp_mono; [eapply (wp_command_turns (Investigation.EscalateToHuman _ _) _ _ [] h s _ (λ _ _, True) (λ _ _, True));
        [apply H|set_solver|done|by apply escalate_turns, H]| |done].
      intros t s' (Hs' & _ & X). split; [done|]. unfold in_status. cbn. rewrite X. set_solver.
    + intros r h' [H' Hs']. apply settled_ended; [done|]. eapply in_status_mono; [|exact Hs']. set_solver.
  - apply settled_ended; [apply H|].
    unfold includes in E. to_prop. unfold in_status in *. set_solver.
Qed.
Lemma tri_plan revision h s :
  tri (plan_step config input revision s)
    (λ jr h', (held h s → held h' s) ∧ reproductions h' = reproductions h ∧ jobType jr.1 = investigation_reproduction_planning ∧
              ∃ n, idempotencyKey jr.1 = i_caseId input +:+ ":plan:" +:+ n) h.
Proof.
  unfold plan_step. apply tri_bind, tri_ask; [done|]. intros id _. cbv zeta.
  eapply tri_then; [apply (tri_service _ (λ _ h', (held h s → held h' s) ∧ reproductions h' = reproductions h))|].
  - done.
  - intros a. split; [|done]. intros H. by do 2 apply held_cons.
  - intros result h' [H E]. split_and!; [done..|]. by eexists.
Qed.
(** What a revision leaves: an outcome, or a case that is still open. *)
Definition revised (n : nat) (r : InvestigationOutcome + Memory) (h : list Note) : Prop :=
  match r with
  | inl o => ended h o
  | inr s => held h s ∧ in_status live s ∧ reproductions h <= n
  end.
Lemma tri_analysis revision h s :
  held h s → in_status live s → tri (analysis_step config input revision s) (revised (reproductions h)) h.
Proof.
  intros H Hs. unfold analysis_step. apply tri_bind, tri_ask; [done|]. intros id _. cbv zeta.
  eapply tri_then; [apply (tri_service _ (λ _ h', held h' s ∧ reproductions h' = reproductions h)); [done|]|].
  { intros a. split; [by do 2 apply held_cons|done]. }
  intros result h' [H' E]. rewrite <- E. eapply tri_then.
  - apply (tri_local _ (λ r h2, h2 = h' ∧ held h' r.2 ∧ in_status (live ++ [Investigation.confirmed; Investigation.needs_human]) r.2)).
    eapply wp_mono; [eapply wp_analysis; [done|by eexists|exact H'|exact Hs]|by intros ?? []|done].
  - intros [r s2] h2 (-> & H2 & Hs2). cbn [snd] in *. destruct (includes _ _) eqn:Ei; unfold includes in Ei; to_prop.
    + by apply settled_ended; [apply H2|].
    + split; [done|]. split; [|done]. unfold in_status in *. set_solver.
Qed.
Lemma tri_attempt revision plan h s :
  held h s → in_status live s → reproductions h < Z.to_nat (maxPlanRevisions config) →
  tri (attempt_step config input revision plan s) (revised (S (reproductions h))) h.
Proof.
  intros H Hs Hmax. unfold attempt_step.
  eapply tri_then; [apply (tri_service _ (λ d h', h' = n_attempt (Ok d) :: h)); done|]. intros d h' ->.
  set (h' := n_attempt (Ok d) :: h). eapply tri_then.
  - apply (tri_local _ (λ r h2, h2 = h' ∧ held h' r.2 ∧ in_status (live ++ [Investigation.needs_human]) r.2)).
    apply wp_bind, wp_gets. assert (held h' s) as H' by by apply held_cons.
    eapply wp_mono; [eapply (wp_command (Investigation.AppendAttempt _ d) _ _ [Investigation.stamp (investigation s) d] h' s (λ _ _, True) (λ _ _, True));
      [done| | |done|apply attempt_turns]| |done].
    + by apply key_free.
    + intros a ->%list_elem_of_singleton. exists d. by split; [left|].
    + intros t s' [Hh Hs']. split; [done|]. split; [done|]. eapply in_status_after; [exact Hs|exact Hs'|set_solver..].
  - intros [r s2] h2 (-> & H2 & Hs2). cbn [snd] in *. unfold is_needs_human. case_bool_decide as En.
    + apply settled_ended; [apply H2|]. unfold in_status. rewrite En. set_solver.
    + assert (in_status live s2) as Hl by (unfold in_status in *; set_solver).
      case_bool_decide; [exact (tri_analysis revision h' s2 H2 Hl)|]. by split_and!.
Qed.
Lemma tri_revise revision h s :
  held h s → in_status live s → reproductions h < Z.to_nat (maxPlanRevisions config) →
  tri (revise config input revision s) (revised (S (reproductions h))) h.
Proof.
  intros H Hs Hmax. unfold revise. eapply tri_then; [apply tri_plan|].
  intros [job result] h' (H' & E & Hj & Hk). cbn [fst snd] in *. specialize (H' H). rewrite <- E in *. clear h H E.
  eapply tri_then.
  - apply (tri_local _ (λ r h2, h2 = h' ∧ held h' r.2 ∧
      in_status [Investigation.investigating; Investigation.reproducing; Investigation.needs_human] r.2)).
    eapply wp_mono; [by eapply wp_plan|by intros ?? []|done].
  - intros [r s2] h2 (-> & H2 & Hs2). cbn [fst snd] in *.
    assert (∀ reason, tri (o ← escalate s2 reason; mret (inl o)) (revised (S (reproductions h'))) h') as Hesc.
    { intros reason. eapply tri_then; [by apply tri_escalate|]. done. }
    assert (tri (if is_needs_human s2 then mret (inl (outcome_of s2))
                 else match planSnapshots s2 !! Investigation.planRevision (investigation s2) with
                      | None => o ← escalate s2 "plan_missing_snapshot"; mret (inl o)
                      | Some plan => attempt_step config input revision plan s2
                      end) (revised (S (reproductions h'))) h') as Hgo; [|by destruct r].
    unfold is_needs_human. case_bool_decide as En.
    + apply settled_ended; [apply H2|]. unfold in_status. rewrite En. set_solver.
    + destruct (planSnapshots s2 !! _); [|by apply Hesc]. apply tri_attempt; [done| |done]. unfold in_status in *. set_solver.
Qed.
Lemma tri_revisions n revision h s :
  held h s → in_status live s → reproductions h + n <= Z.to_nat (maxPlanRevisions config) →
  tri (revisions config input n revision s) (λ o h', ended h' o) h.
Proof.
  revert revision h s. induction n as [|n IH]; intros revision h s H Hs Hn; cbn [revisions].
  - apply tri_escalate; [done|]. eapply in_status_mono; [|exact Hs]. set_solver.
  - eapply tri_then; [apply tri_revise; [done..|lia]|]. intros [o|s2] h'; [done|]. intros (H2 & Hs2 & Hle). apply IH; [done..|lia].
Qed.
Lemma started :
  wp (command (Investigation.startInvestigation
        {| Investigation.expectedVersion := 1; Investigation.idempotencyKey := i_caseId input +:+ ":start" |}))
    (λ _ s', Investigation.status (investigation s') = Investigation.investigating) (λ _ _, True) (opened input).
Proof. done. Qed.
Lemma tri_investigate : tri (investigate config input) (λ o h', ended h' o) [].
Proof.
  unfold investigate. eapply tri_then.
  - apply (tri_local _ (λ r h2, h2 = [] ∧ held [] r.2 ∧ in_status live r.2)).
    apply wp_bind, wp_gets. assert (held [] (opened input)) as H.
    { split; [split|..]; try done; [apply Investigation.inv_open|cbn; set_solver]. }
    eapply wp_mono; [apply wp_and; [exact started|];
      eapply (wp_command (Investigation.StartInvestigation _) _ _ [] [] (opened input) (λ _ _, True) (λ _ _, True));
      [done| | |done|apply start_turns]| |done].
    + apply (key_free ":start" ""). done.
    + set_solver.
    + intros t s' [E [Hh _]]. split_and!; [done..|]. unfold in_status. cbn. rewrite E. set_solver.
  - intros [r s] h' (-> & H & Hs). apply tri_revisions; [done..|]. cbn. lia.
Qed.
Lemma lawful_bound h :
  lawful note allowed h → reproductions h <= Z.to_nat (maxPlanRevisions config).
Proof.
  induction h as [|n h IH]; [unfold reproductions; cbn; lia|]. intros [(B & e & b & -> & He) Hl]. specialize (IH Hl).
  destruct e; cbn [note] in *; unfold reproductions in *; cbn in *; lia.
Qed.

(** C24: Whatever the model and the runner answer, or fail to answer: the runner is
    asked for one attempt for each plan revision at most; and an investigation that
    returns has confirmed the finding or handed it to a human, with a handoff.  It
    reports only attempts that the runner answered, and a confirmation names one of
    them that reproduced the finding, at a confidence that reaches the budget's
    threshold. *)
Theorem investigation_decided p h :
  runs note (λ _ _ _, True) (investigate config input) [] p h →
  reproductions h <= Z.to_nat (maxPlanRevisions config) ∧ ∀ o, p = Ret o → ended h o.
Proof.
  intros Hr. pose proof tri_investigate as Ht. split.
  - by eapply lawful_bound, runs_lawful.
  - intros o ->. exact (runs_tri _ _ _ _ _ _ _ _ Hr Ht).
Qed.
End investigation.

(** ** An investigation that confirms *)
Definition sample_budget : Investigation.InvestigationBudget :=
  {| Investigation.maximumReproductionAttempts := num_of_Z 3; Investigation.maximumPlanningRevisions := num_of_Z 3;
     Investigation.maximumEnvironmentRetries := num_of_Z 3; Investigation.maximumWallClockMs := num_of_Z 1000;
     Investigation.maximumModelTokens := num_of_Z 1000; Investigation.maximumEnvironmentResets := num_of_Z 3;
     Investigation.maximumDestructiveActions := num_of_Z 3;
     Investigation.confirmationConfidenceThreshold := num_of_Z 1 |}.
Definition sample_config : InvestigationCoordinatorConfig :=
  {| tenantId := "tenant"; modelProfileId := "profile"; dataPolicyId := "policy";
     jobBudget := {| maximumTokens := num_of_Z 100; maximumCostMicros := num_of_Z 100; timeoutMs := num_of_Z 100 |};
     maxPlanRevisions := 2 |}.
Definition sample_input : InvestigateInput :=
  {| i_caseId := "case"; i_findingId := "finding"; i_projectId := "project"; i_budget := sample_budget; i_inputRefs := [] |}.
Definition sample_result (job : IntelligenceJob) (proposal : Proposal) : IntelligenceResult :=
  {| r_jobId := jobId job; resultSchemaVersion := RESULT_SCHEMA; proposals := [proposal]; evidenceRefs := [];
     confidence := num_of_Z 1; provenance := [];
     usage := {| inputTokens := num_of_Z 1; outputTokens := num_of_Z 1; costMicros := num_of_Z 1 |};
     terminalStatus := succeeded; r_idempotencyKey := idempotencyKey job |}.
(** The first attempt does not reproduce the finding, the second does. *)
Definition sample_answer (B : Type) (e : Call B) : nat → B * nat :=
  match e in Call B return nat → B * nat with
  | NewId => λ n, ("job", n)
  | ProposeReproductionPlan job _ => λ n,
      (Ok (sample_result job [("steps", JArr [JObj [("kind", JStr "navigate"); ("path", JStr "/cart")]])]), n)
  | AnalyzeBug job _ => λ n, (Ok (sample_result job [("confirmedAttemptIds", JArr [JStr "second"])]), n)
  | Reproduce _ => λ n,
      (Ok {| Investigation.d_attemptId := if Nat.eqb n 0 then "first" else "second";
             Investigation.d_environmentRef := "env"; Investigation.d_startedAt := "t0"; Investigation.d_completedAt := "t1";
             Investigation.d_outcome := if Nat.eqb n 0 then Investigation.not_reproduced else Investigation.reproduced;
             Investigation.d_divergenceStepId := None; Investigation.d_evidenceRefs := [];
             Investigation.d_budgetConsumed := Investigation.ZERO_USAGE |}, S n)
  end.
Definition sample_end := play note sample_answer 20 (investigate sample_config sample_input) [] 0.
Definition confirms (p : prog Call (option Thrown) InvestigationOutcome) : bool :=
  match p with Ret o => bool_decide (o_status o = Investigation.confirmed) | _ => false end.
Lemma investigation_decided_witness :
  ∃ o, sample_end.1.1 = Ret o ∧ o_status o = Investigation.confirmed ∧ reproductions sample_end.1.2 = 2 ∧
       ended sample_input sample_end.1.2 o.
Proof.
  assert (confirms sample_end.1.1 = true) as Hc by (vm_compute; reflexivity).
  assert (reproductions sample_end.1.2 = 2) as Hn by (vm_compute; reflexivity).
  destruct (sample_end.1.1) as [o| |] eqn:E; [|discriminate Hc..]. exists o. apply bool_decide_eq_true in Hc.
  assert (runs note (λ _ _ _, True) (investigate sample_config sample_input) [] (Ret o) sample_end.1.2) as Hr.
  { eapply (play_runs note _ sample_answer 20 _ _ 0 _ _ sample_end.2); [done|].
    rewrite <- E. unfold sample_end. by destruct (play _ _ _ _ _ _) as [[] ?]. }
  split; [reflexivity|]. split; [exact Hc|]. split; [exact Hn|].
  exact (proj2 (investigation_decided sample_config sample_input _ _ Hr) o eq_refl).
Defined.
End CoordinatorSafety.
